(* ===== verification/_CoqProject ===== *)
-Q . S2P
Prelude.v
RustStr.v
StateLogic.v
Protocol.v
WorkloadTree.v
PolicyRequest.v
PolicyPath.v
PolicyStore.v
PolicyTree.v
PolicyCompile.v
PolicyProviderStore.v
PolicyEvaluator.v
PolicyEngine.v
TreeStore.v
Messages.v
MessageStore.v
MessageSample.v
MessageFacts.v
UploadStore.v
HostProtocol.v
OutputBuffer.v
HostRuntime.v
HostDaemon.v
UploadGate.v
Activity.v
BinaryFrames.v
ProxyTypes.v
ProxyState.v
ProxyReplica.v
ProxyCommands.v
ClusterKeys.v
ProxyTerminal.v
ProxySteps.v
ProxyInventory.v
ProxyRaces.v
ProxyCommandFacts.v
ProxyTerminalFacts.v
StreamBridge.v
StreamLink.v
StreamLinkFacts.v
NetworkRuntime.v
ProxyNetwork.v
ClusterLease.v
ClusterLeaseFacts.v
ClusterLoop.v
MachineFile.v
MachineFileFacts.v
MachineUpload.v
MachineUploadFacts.v
MachineUploadRuns.v
MachineUploadJournal.v
MachineUploadReceipts.v
MachineUploadSample.v
MachineTransfer.v
MachineTransferFacts.v
MachineTransferJournal.v
MachineTransferSample.v
IngressGuard.v
IngressFacts.v
Traffic.v
TrafficFacts.v
TrafficReport.v
StartupStore.v
StartupFacts.v
PrivateState.v
PrivateStateFacts.v
ControllerTypes.v
Controller.v
ControllerLife.v
ControllerRecovery.v
ControllerInterface.v
ControllerRuns.v
ControllerSafe.v
ControllerWatch.v
ControllerFacts.v
ControllerAlone.v
ControllerStart.v
ControllerSample.v
ControllerRaces.v
ControllerExamples.v
