(* ===== verification/Prelude.v ===== *)
(** * Treer: a machine-checked model of its control plane, machine Controller and process host

    Treer runs AI agents and apps as workloads on machines.  A Proxy (crates/treer-proxy) is the
    control plane: it keeps workspaces, their Tree of folders and workloads, the policy that
    decides every operation, messages between Agents, and the live inventory of the machines.
    On each machine an Agent Server (crates/treer-agent-server, the Controller) talks to the
    Proxy and decides what runs, and a Host daemon (crates/treer-agent-host) owns the terminal
    processes through crates/treer-agent-runtime, so that they survive a Controller restart.
    crates/treer-protocol and crates/treer-host-protocol hold the shared types.

    This library translates the parts of the Rust code that carry this logic into executable
    definitions and proves what makes them correct.  Definitions keep the source's names where
    that is possible; each file names the source file it translates.

    ** Files

    Shared:
    - Prelude: results, options, a state and error monad, machine integers, time, tactics and
      lemmas.  RustStr: Rust strings as UTF-8 bytes with [chars], [trim], [split] and the like.
      StateLogic: triples and kept predicates for the state and error monad.
    - Protocol: the data types of treer-protocol (workload_tree.rs, policy.rs, policy_path.rs,
      lib.rs).  BinaryFrames: its network.rs and terminal.rs frames.

    Policy and Tree on the Proxy (crates/treer-proxy/src):
    - WorkloadTree: treer-protocol/src/targets.rs, folder paths and workload targets.
    - PolicyRequest, PolicyCompile, PolicyEvaluator, PolicyEngine: policy.rs.  Requests and
      decisions; a document compiled into rules per action; the durable and the Provider
      evaluator with their caches; the engine that asks the evaluators in turn.
    - PolicyPath: policy_path_match.rs.  PolicyStore: policy_store.rs.  PolicyTree:
      policy_tree.rs.  PolicyProviderStore: policy_provider_store.rs and its trigger.
    - TreeStore: auth/workload_tree.rs, the mutations of a workspace's Tree, with the creation and
      the deletion of Apps of auth/apps.rs as far as they write it.

    Messages and admission on the Proxy:
    - Messages, MessageStore, MessageSample, MessageFacts: message_store.rs with the types of
      treer-protocol/src/messages.rs.
    - UploadStore, UploadGate: upload_store.rs and upload_gate.rs.
    - IngressGuard, IngressFacts: ingress_guard.rs.
    - Traffic, TrafficFacts, TrafficReport: traffic.rs and traffic_persistence.rs, the counters,
      their flush into the database and the report.

    Live state of the Proxy:
    - ProxyTypes, ProxyState, ProxyReplica, ProxyCommands, ProxyTerminal, ProxyNetwork: state.rs
      and state/{core,cluster,commands,terminal,network}.rs, every handler a sequence of atoms.
      ProxySteps makes runs of them, but for those of network.rs; ProxyInventory, ProxyRaces, ProxyCommandFacts and
      ProxyTerminalFacts prove what holds in every interleaving.
    - ClusterKeys, ClusterLease, ClusterLeaseFacts, ClusterLoop: cluster.rs, the ownership
      leases on a shared key-value store and the message loops.

    Streams between the two:
    - StreamBridge, StreamLink, StreamLinkFacts, NetworkRuntime: the bridges of state/network.rs
      and of treer-agent-server/src/network.rs, and the link of the two, whose events may fail, be
      cancelled or lose the connection.

    The Controller (crates/treer-agent-server/src):
    - StartupStore, StartupFacts: startup_store.rs, the saved launches and the
      denied identities on a disk that fails and forgets.
    - PrivateState, PrivateStateFacts: private_state.rs, the quota ledger.
    - ControllerTypes, Controller, ControllerLife, ControllerRecovery, ControllerInterface:
      controller.rs with controller_launch.rs, controller_output.rs, workload_proxy.rs and
      agent_interface.rs.  The state ([Ctl]) and its programs; how records follow the Host;
      creating, starting, stopping and declaring launches; recovery, deletion and private
      state; interfaces, prompts and output.
    - ControllerRuns: tasks of the Controller, at most one of which holds the recovery lock.
      ControllerSafe, ControllerWatch, ControllerFacts: a program logic for what all runs keep
      of one identity.  ControllerAlone, ControllerStart: an operation on its own.
      ControllerSample, ControllerRaces, ControllerExamples: concrete runs.
    - Activity: controller_activity.rs, the terminal status filter.
    - MachineFile, MachineFileFacts: treer-platform/src/machine_file.rs.
    - MachineUpload and its Facts, Runs, Journal, Receipts and Sample: machine_upload.rs.
    - MachineTransfer and its Facts (the state machine of transfers and its runs), Journal and
      Sample: machine_file_transfer.rs with treer-protocol/src/machine_file.rs.

    The Host: HostProtocol, OutputBuffer, HostRuntime, HostDaemon (treer-host-protocol,
    treer-agent-runtime, treer-agent-host/src/main.rs).

    ** How the code is represented

    - [Result<T, E>] is [Result]; the [?] operator is [let?]; code that changes state and may
      fail is in [StM], which keeps the state on both outcomes.
    - Integers are in [Z] with saturation and conversions written out ([u64], [i64], [u32]);
      instants and durations are nanoseconds, and the clock is an argument or an answer.
    - A HashMap or BTreeMap is a [gmap]; where the order of a BTreeMap shows, it is
      [btree_iter] or a sorted list.  A VecDeque or Vec is a list.
    - A database table is the list or map of its rows; a transaction is a function that returns
      the new tables, or the old ones on an error.  A row or advisory lock serialises the
      transactions that take it, so their history is a list of operations; a transaction that
      counts and inserts under a lock too narrow for what it counts is split in two.
    - Threads and async tasks are interleavings of atomic steps: one step per lock that is held.
      HostRuntime and ProxySteps have step relations; ClusterLease and ControllerTypes have
      programs ([Prog]) of atoms and questions, whose answers are arbitrary, and a small program
      logic ([safe]) that follows a program through all the steps of the others.
    - A lock that a panic poisons is part of the state where a panic is possible ([Slot]).
    - What is outside the sources is a parameter or an answer: JSON and binary codecs, SHA-256,
      address parsing, the rounding of f64, the operating system, NATS and its key-value
      buckets, the database, an Agent's HTTP interface.  What a theorem needs of them is a class
      of laws (a codec decodes what it encoded, [StartupJsonLaws]; a rename is atomic; a
      conditional update succeeds on the revision it names), which a concrete instance of each
      sample file satisfies.

    ** What the theorems show

    - Paths: [folder_path] terminates with a meaningful outcome on any stored tree; printed
      paths resolve back to their folder or workload, from any working folder.
    - Policy: an operation is denied exactly when the enforced document says so by priority, then
      deny over allow; globs, prefixes and folder conditions agree with their meaning in the
      Tree; replacement loses no update; staleness is bounded; the engine fails closed; batches
      equal the conjunction of their requests.
    - Tree: every sequence of mutations keeps a forest in which no two workloads of a folder have
      the same position; the positions are dense after every mutation that renumbers, and always
      if no App was deleted; siblings have different names unless a removal brings a child beside
      a folder of its name, which makes the paths through them ambiguous.
    - Messages: sending is idempotent, the mailbox scan is exact, contexts are acyclic, the
      outbox is dispatched in order.
    - Proxy: the inventory is consistent in every interleaving; a command is answered once, and
      transfers are sent once; leases are not stolen and the replica follows them; terminal output is passed on in order.
    - Streams: bytes arrive in order and complete whatever fails, within the credit window; only a
      full channel breaks an undisturbed stream.
    - Admission: slots and quotas are bounded; rates are bounded up to the time by which calls are
      served late; the client address is that of the last untrusted hop that can be read.
    - Traffic: what was counted is in a counter, in flight or in a row, through every flush and
      failure; the report of an idle recorder is exact.
    - Controller: a denied identity is never spawned again, across crashes; a stopped workload
      stays stopped until something turns it on; a start spawns once, for the generation after
      the saved one; the revision of an App does not go back under its deployment;
      the report of a restore pass says what happened to every saved launch; a restart reads
      what was saved; promises of private state stay within the quota and the reported room is
      exact; uploads publish what their digests say, once, and their receipts are final except
      for expiry, the cap and recoveries; a finished transfer is exactly the bytes that were moved,
      within what it was granted, and of the staging files of a stopped Controller only those it
      was refused the removal of outlive the next recovery; a quiet terminal settles.
    - Host: idempotent operations, lossless replay and resynchronisation, a consistent registry
      under every interleaving, exact framing.

    Some theorems record defects of the code on concrete runs or in general:
    [removal_promotes_duplicate], [failed_restart_leaks], [user_quota_can_be_exceeded],
    [registration_survives_deletion], [registration_revives_deleted_agent],
    [failed_claim_drops_newer_connection], [stale_publish_replaces_snapshot],
    [early_half_close_loses_data], [small_frames_break_the_stream],
    [overfull_journal_locks_uploads_out], [operation_id_can_repeat],
    [short_prompt_queue_loses_the_workload], [own_declaration_reopens_old_revisions],
    [lost_answer_counts_twice], [overlapping_recovery_drops_receipt] and
    [failed_removal_orphans_staging].

    ** Fuel

    Loops over a parent chain take fuel.  [folder_fuel] and the loop of [validate_parent] use
    the number of folders plus one: a longer walk meets a folder twice, and then the code
    itself stops.  The theorems show that it is never exhausted.  [read_frames] takes one unit
    per frame plus one for the end of the stream.  [evict] of the receipts takes their number,
    for it removes one per turn; [chunks] and [insert_chunks] take the length of the data.
    [renew_loop] makes the three attempts of the code.  All other recursion is structural.

    ** Not modelled

    - HTTP routing and handlers, authentication, accounts and the rest of auth/: SQL statements
      and cryptography around the modelled stores, with little logic of their own.
    - Sockets, service managers, terminal rendering, self-update, re-enrolment, the CLI and the
      launchers: calls of the operating system.
    - Metrics sampling, the Proxy connection of the Controller and the event bus: their state is
      a queue or a counter around I/O.
    - In the Controller: running a single command on the machine, the forwarding of HTTP
      requests by the workload proxy and the file of the interface cache.
    - In HostRuntime: Linux isolation, the [cfg(windows)] job objects, and lock poisoning.
    - The Python, JavaScript and web applications.

    PROJECT.json lists every component with what is left out of it. *)

From stdpp Require Export base tactics list gmap strings sorting relations.
From Stdlib Require Export ZArith Lia.
From Stdlib Require Ascii String.
Export Stdlib.Strings.Ascii (ascii(..)).
Export (notations) Stdlib.Strings.Ascii.

(** ** Results: Rust's [Result<T, E>] and the [?] operator *)

Inductive Result (A E : Type) : Type :=
| Ok (a : A)
| Err (e : E).
Arguments Ok {A E} a.
Arguments Err {A E} e.

Declare Scope rust_scope.
Delimit Scope rust_scope with rust.

Definition result_bind {A B E} (r : Result A E) (k : A -> Result B E) : Result B E :=
  match r with Ok a => k a | Err e => Err e end.

Definition map_err {A E F} (f : E -> F) (r : Result A E) : Result A F :=
  match r with Ok a => Ok a | Err e => Err (f e) end.

Definition is_ok {A E} (r : Result A E) : bool :=
  match r with Ok _ => true | Err _ => false end.

Definition ok_or {A E} (o : option A) (e : E) : Result A E :=
  match o with Some a => Ok a | None => Err e end.

Notation "'let?' x := e 'in' k" := (result_bind e (fun x => k))
  (at level 10, x binder, e at level 100, k at level 200,
   format "'[v' 'let?'  x  :=  e  'in' '/' k ']'") : rust_scope.
Notation "e ;? k" := (result_bind e (fun _ => k))
  (at level 100, right associativity) : rust_scope.

Open Scope rust_scope.

(** Stateful fallible code: the state is kept on both outcomes, as Rust's is. *)
Definition StM (S A E : Type) : Type := S -> Result A E * S.
Definition st_ret {S A E} (a : A) : StM S A E := fun s => (Ok a, s).
Definition st_throw {S A E} (e : E) : StM S A E := fun s => (Err e, s).
Definition st_lift {S A E} (r : Result A E) : StM S A E := fun s => (r, s).
Definition st_bind {S A B E} (m : StM S A E) (k : A -> StM S B E) : StM S B E :=
  fun s => match m s with (Ok a, s') => k a s' | (Err e, s') => (Err e, s') end.
Definition st_map_err {S A E F} (f : E -> F) (m : StM S A E) : StM S A F :=
  fun s => let '(r, s') := m s in (map_err f r, s').

Notation "'let!' x := e 'in' k" := (st_bind e (fun x => k))
  (at level 10, x binder, e at level 100, k at level 200,
   format "'[v' 'let!'  x  :=  e  'in' '/' k ']'") : rust_scope.
Notation "e ;! k" := (st_bind e (fun _ => k))
  (at level 100, right associativity) : rust_scope.

(** A fallible loop body run over a list, stopping at the first error. *)
Fixpoint try_for_each {A E} (f : A -> Result unit E) (l : list A) : Result unit E :=
  match l with
  | [] => Ok tt
  | x :: l' => f x ;? try_for_each f l'
  end.

(** [iter().map(f).collect::<Result<Vec<_>, _>>()]. *)
Fixpoint try_collect {A B E} (f : A -> Result B E) (l : list A) : Result (list B) E :=
  match l with
  | [] => Ok []
  | x :: l' => let? y := f x in let? ys := try_collect f l' in Ok (y :: ys)
  end.

(** A loop that threads a value and may stop with an error. *)
Fixpoint try_fold {A B E} (f : B -> A -> Result B E) (acc : B) (l : list A) : Result B E :=
  match l with
  | [] => Ok acc
  | x :: l' => let? acc' := f acc x in try_fold f acc' l'
  end.

(** ** Options, as Rust's combinators on them *)

Definition is_none_or {A} (o : option A) (p : A -> bool) : bool :=
  match o with None => true | Some a => p a end.
Definition is_some_and {A} (o : option A) (p : A -> bool) : bool :=
  match o with None => false | Some a => p a end.
Definition is_some {A} (o : option A) : bool :=
  match o with None => false | Some _ => true end.
Definition opt_filter {A} (p : A -> bool) (o : option A) : option A :=
  match o with Some a => if p a then Some a else None | None => None end.
Definition or_else {A} (o1 o2 : option A) : option A :=
  match o1 with Some a => Some a | None => o2 end.

(** ** Machine integers: values are in [Z], wrap and saturation are explicit *)

Definition u64_max : Z := (2 ^ 64 - 1)%Z.
Definition i64_max : Z := (2 ^ 63 - 1)%Z.
Definition u32_max : Z := (2 ^ 32 - 1)%Z.

Definition saturating_add (a b : Z) : Z := Z.min (a + b) u64_max.
Definition saturating_sub (a b : Z) : Z := Z.max 0 (a - b).

(** ** Time

    An [Instant] is a number of nanoseconds on the monotonic clock, a [Duration] a
    non-negative number of nanoseconds.  [Instant::duration_since] and
    [saturating_duration_since] both return zero when the argument is later. *)

Definition nanos_per_sec : Z := 1000000000%Z.
Definition from_secs (s : Z) : Z := (s * nanos_per_sec)%Z.
Definition from_millis (ms : Z) : Z := (ms * 1000000)%Z.
Definition as_secs (d : Z) : Z := (d / nanos_per_sec)%Z.
Definition duration_since (now at_ : Z) : Z := Z.max 0 (now - at_).

(** ** Tactics and hint database *)

Create HintDb treer.

(** Destructs the discriminee of a [match] or [if] in the goal or a hypothesis. *)
Ltac break_match_hyp :=
  match goal with
  | H : context [match ?x with _ => _ end] |- _ =>
      lazymatch x with
      | context [match _ with _ => _ end] => fail
      | _ => destruct x eqn:?
      end
  end.
Ltac break_match_goal :=
  match goal with
  | |- context [match ?x with _ => _ end] =>
      lazymatch x with
      | context [match _ with _ => _ end] => fail
      | _ => destruct x eqn:?
      end
  end.

(** Opens a chain of [let?] in a hypothesis that says the chain succeeded. *)
Ltac inv_bind H :=
  repeat match type of H with
  | result_bind ?r _ = Ok _ =>
      let E := fresh "E" in
      destruct r eqn:E; simpl in H; [|discriminate H]
  end.

Ltac bool_hyps :=
  repeat match goal with
  | H : (_ && _)%bool = true |- _ => apply andb_prop in H as [? ?]
  | H : negb _ = true |- _ => apply negb_true_iff in H
  | H : negb _ = false |- _ => apply negb_false_iff in H
  | H : (_ || _)%bool = false |- _ => apply orb_false_elim in H as [? ?]
  end.

(** ** Generic lemmas *)

Section bind_lemmas.
Context {A B E : Type}.

Lemma bind_ok_iff (r : Result A E) (k : A -> Result B E) b :
  result_bind r k = Ok b <-> exists a, r = Ok a /\ k a = Ok b.
Proof. destruct r; simpl; split; intros; destruct_or?; naive_solver. Qed.

Lemma bind_err_iff (r : Result A E) (k : A -> Result B E) e :
  result_bind r k = Err e <-> r = Err e \/ exists a, r = Ok a /\ k a = Err e.
Proof. destruct r; simpl; split; intros; destruct_or?; naive_solver. Qed.

Lemma st_bind_ok_iff {S} (m : StM S A E) (k : A -> StM S B E) s b s' :
  st_bind m k s = (Ok b, s') <-> exists a s1, m s = (Ok a, s1) /\ k a s1 = (Ok b, s').
Proof. unfold st_bind. destruct (m s) as [[]]; naive_solver. Qed.
End bind_lemmas.

(** Opens the same chain into one hypothesis per step. *)
Ltac split_check H :=
  repeat match type of H with
  | result_bind _ _ = Ok _ =>
      let x := fresh "u" in let Hx := fresh "Hc" in
      apply bind_ok_iff in H as (x & Hx & H)
  end.
Ltac destruct_units := repeat match goal with u : unit |- _ => destruct u end.

Section result_lemmas.
Context {A B E : Type}.

Lemma try_for_each_ok (f : A -> Result unit E) l :
  try_for_each f l = Ok tt <-> Forall (fun x => f x = Ok tt) l.
Proof.
  induction l as [|x l IH]; simpl; [by split; [constructor|]|].
  rewrite Forall_cons, <- IH, bind_ok_iff. split.
  - by intros ([] & ? & ?).
  - intros [? ?]. by exists tt.
Qed.

Lemma try_collect_ok (f : A -> Result B E) l ys :
  try_collect f l = Ok ys <-> Forall2 (fun x y => f x = Ok y) l ys.
Proof.
  revert ys; induction l as [|x l IH]; intros ys; simpl.
  - split; [intros [= <-]; constructor|by inversion 1].
  - rewrite bind_ok_iff. setoid_rewrite bind_ok_iff. split.
    + intros (y & Hy & ys' & Hys & [= <-]). constructor; [done|by apply IH].
    + inversion 1; simplify_eq. eexists; split; [done|].
      eexists; split; [by apply IH|done].
Qed.

(** A property every turn preserves holds when the loop succeeds. *)
Lemma try_fold_ind (P : B -> Prop) (f : B -> A -> Result B E) acc l acc' :
  (forall b x b', x ∈ l -> P b -> f b x = Ok b' -> P b') ->
  P acc -> try_fold f acc l = Ok acc' -> P acc'.
Proof.
  revert acc. induction l as [|x l IH]; intros acc Hstep Hacc; simpl; [by intros [= <-]|].
  intros (acc1 & Hx & Hl)%bind_ok_iff. eapply IH; [| |exact Hl].
  - intros b y b' Hy. apply Hstep. set_solver.
  - eapply Hstep; [|exact Hacc|exact Hx]. set_solver.
Qed.
End result_lemmas.

Section list_lemmas.
Context {A : Type}.
Implicit Types (l : list A) (p : A -> bool).

Lemma existsb_elem p l : existsb p l = true <-> exists x, x ∈ l /\ p x = true.
Proof.
  rewrite existsb_exists.
  split; intros (x & Hx & Hp); exists x; [by rewrite list_elem_of_In|by rewrite <- list_elem_of_In].
Qed.

Lemma forallb_elem p l : forallb p l = true <-> forall x, x ∈ l -> p x = true.
Proof.
  rewrite forallb_forall. by setoid_rewrite list_elem_of_In.
Qed.

(** [find] returns the first element that satisfies the predicate. *)
Lemma find_some_split p l x :
  List.find p l = Some x <->
  exists l1 l2, l = l1 ++ x :: l2 /\ p x = true /\ Forall (fun y => p y = false) l1.
Proof.
  induction l as [|y l IH]; simpl.
  - split; [done|]. intros (l1 & l2 & H & _). by destruct l1.
  - destruct (p y) eqn:Hy.
    + split.
      * intros [= ->]. by exists [], l.
      * intros (l1 & l2 & Heq & Hx & Hl1). destruct l1 as [|z l1]; simplify_eq/=; [done|].
        inversion Hl1; congruence.
    + rewrite IH. split; intros (l1 & l2 & Heq & Hx & Hl1).
      * exists (y :: l1), l2. subst. split_and!; [done|done|by constructor].
      * destruct l1 as [|z l1]; simplify_eq/=; [congruence|].
        exists l1, l2. split_and!; [done|done|by inversion Hl1].
Qed.

Lemma find_none_iff p l :
  List.find p l = None <-> Forall (fun y => p y = false) l.
Proof.
  induction l as [|y l IH]; simpl; [done|].
  rewrite Forall_cons, <- IH. destruct (p y); naive_solver.
Qed.

Lemma find_elem p l x : List.find p l = Some x -> x ∈ l /\ p x = true.
Proof.
  intros (l1 & l2 & -> & Hx & _)%find_some_split. split; [set_solver|done].
Qed.

Lemma find_app p l1 l2 :
  List.find p (l1 ++ l2) = match List.find p l1 with Some x => Some x | None => List.find p l2 end.
Proof. induction l1 as [|x l1 IH]; simpl; [done|]. by destruct (p x). Qed.

Lemma find_map {B} p (f : B -> A) (l : list B) :
  List.find p (map f l) = f <$> List.find (fun x => p (f x)) l.
Proof. induction l as [|x l IH]; simpl; [done|]. by destruct (p (f x)). Qed.

Lemma find_filter p q l :
  (forall x, p x = true -> q x = true) -> List.find p (List.filter q l) = List.find p l.
Proof.
  intros Hpq. induction l as [|x l IH]; simpl; [done|]. destruct (p x) eqn:Hp.
  - rewrite (Hpq x Hp). simpl. by rewrite Hp.
  - destruct (q x); simpl; by rewrite ?Hp.
Qed.

Lemma find_ext p q l : (forall x, p x = q x) -> List.find p l = List.find q l.
Proof. intros H. induction l as [|x l IH]; simpl; [done|]. by rewrite H, IH. Qed.

Lemma filter_elem p l x : x ∈ List.filter p l <-> x ∈ l /\ p x = true.
Proof. by rewrite !list_elem_of_In, filter_In. Qed.
End list_lemmas.

Lemma NoDup_fmap_filter {A B} (g : A -> B) (q : A -> bool) rows :
  NoDup (g <$> rows) -> NoDup (g <$> List.filter q rows).
Proof.
  induction rows as [|p rows IH]; simpl; [done|]. intros [Hp Hnd]%NoDup_cons.
  case_match; simpl; [|by apply IH]. constructor; [|by apply IH].
  intros (p' & He & [Hp' _]%filter_elem)%list_elem_of_fmap. apply Hp. rewrite He.
  by apply list_elem_of_fmap_2.
Qed.

Lemma NoDup_filterb {A} (q : A -> bool) l : NoDup l -> NoDup (List.filter q l).
Proof.
  induction 1 as [|x l Hx _ IH]; simpl; [constructor|]. case_match; [|done].
  constructor; [|done]. by intros [? _]%filter_elem.
Qed.

Lemma length_filterb {A} (q : A -> bool) l : length (List.filter q l) <= length l.
Proof. induction l as [|x l IH]; simpl; [done|]. case_match; simpl; lia. Qed.

#[export] Hint Resolve find_elem NoDup_filterb : treer.

(** ** Sorting, as ORDER BY uses it *)

Section sort_lemmas.
Context {A B : Type} (R : relation A) `{!RelDecision R} (S : relation B) `{!RelDecision S}.
Context (f : A -> B) (Hf : forall x y, R x y <-> S (f x) (f y)).

Lemma list_merge_fmap l1 l2 : list_merge S (f <$> l1) (f <$> l2) = f <$> list_merge R l1 l2.
Proof.
  revert l2. induction l1 as [|x l1 IH1]; [by intros []|].
  induction l2 as [|y l2 IH2]; [done|]. rewrite !fmap_cons, !list_merge_cons.
  destruct (decide (R x y)) as [Hr|Hr]; [rewrite decide_True by (by apply Hf)|
    rewrite decide_False by (by rewrite <- Hf)].
  - by rewrite <- fmap_cons, IH1.
  - by rewrite <- fmap_cons, IH2.
Qed.

Lemma merge_sort_fmap l : merge_sort S (f <$> l) = f <$> merge_sort R l.
Proof.
  set (g := fmap (M:=list) (fmap (M:=option) (fmap (M:=list) f))).
  assert (forall st k, merge_list_to_stack S (g st) (f <$> k) = g (merge_list_to_stack R st k)) as H1.
  { intros st. induction st as [|[k'|] st IH]; intros k; simpl; [done| |done].
    f_equal. by rewrite list_merge_fmap, IH. }
  assert (forall st, merge_stack S (g st) = f <$> merge_stack R st) as H2.
  { intros st. induction st as [|[k'|] st IH]; simpl; [done| |done].
    rewrite <- list_merge_fmap. by f_equal. }
  unfold merge_sort. change (@nil (option (list B))) with (g []).
  generalize (@nil (option (list A))). induction l as [|x l IH]; intros st; simpl; [apply H2|].
  rewrite <- IH. f_equal. apply (H1 st [x]).
Qed.
End sort_lemmas.

Lemma StronglySorted_lookup {A} (R : relation A) l :
  (forall i j x y, (i < j)%nat -> l !! i = Some x -> l !! j = Some y -> R x y) -> StronglySorted R l.
Proof.
  induction l as [|x l IH]; intros H; constructor.
  - apply IH. intros i j y z Hij Hi Hj. apply (H (S i) (S j)); [lia|done|done].
  - apply Forall_lookup. intros i y Hy. by apply (H 0%nat (S i)); [lia| |].
Qed.

Section sorted_lists.
Context {A : Type} (R : relation A) `{!RelDecision R, !Transitive R, !Total R}.

(** Rows that the order tells apart have one sorted arrangement. *)
Lemma sorted_arrangement l l' :
  StronglySorted R l -> l ≡ₚ l' -> (forall x y, x ∈ l -> y ∈ l -> R x y -> R y x -> x = y) ->
  merge_sort R l' = l.
Proof.
  intros Hs Hp Ha. apply (StronglySorted_unique_strong R).
  - intros x1 x2 H1 H2. rewrite merge_sort_Permutation, <- Hp in H1. by apply Ha.
  - apply StronglySorted_merge_sort; apply _.
  - done.
  - by rewrite merge_sort_Permutation.
Qed.

Lemma StronglySorted_filterb (p : A -> bool) l :
  StronglySorted R l -> StronglySorted R (List.filter p l).
Proof.
  induction 1 as [|x l Hs IH Hx]; simpl; [constructor|]. case_match; [|done].
  constructor; [done|]. rewrite Forall_forall in *. intros y [Hy _]%filter_elem. by apply Hx.
Qed.

Lemma filterb_Permutation (p : A -> bool) l l' : l ≡ₚ l' -> List.filter p l ≡ₚ List.filter p l'.
Proof.
  induction 1 as [|x l l' _ IH|x y l|]; simpl; [done| | |by etrans].
  - case_match; [by f_equiv|done].
  - repeat case_match; done || by constructor.
Qed.

Lemma merge_sort_filterb (p : A -> bool) l :
  (forall x y, x ∈ l -> y ∈ l -> R x y -> R y x -> x = y) ->
  merge_sort R (List.filter p l) = List.filter p (merge_sort R l).
Proof.
  intros Ha. apply sorted_arrangement.
  - apply StronglySorted_filterb, StronglySorted_merge_sort; apply _.
  - apply filterb_Permutation, merge_sort_Permutation.
  - intros x y [Hx _]%filter_elem [Hy _]%filter_elem. rewrite merge_sort_Permutation in Hx, Hy.
    by apply Ha.
Qed.
End sorted_lists.

(** The rows beyond the last one of a page are the rest of the list. *)
Lemma filter_after_page {A} (q : A -> A -> bool) l n x :
  StronglySorted (fun a b => q a b = true /\ q b a = false) l -> (forall a, q a a = false) ->
  last (take n l) = Some x -> List.filter (q x) l = drop n l.
Proof.
  intros Hs Hq Hx. assert (exists l1, take n l = l1 ++ [x]) as [l1 Hl1].
  { by apply last_Some in Hx as [l1 ->]; exists l1. }
  rewrite <- (take_drop n l) in Hs |- * at 1. rewrite Hl1 in *.
  rewrite <- app_assoc in Hs |- *. simpl in *.
  apply StronglySorted_app in Hs as (H12 & _ & H2). apply StronglySorted_cons in H2 as [H2 H3].
  rewrite List.filter_app. simpl. rewrite Hq.
  assert (List.filter (q x) l1 = []) as ->.
  { assert (forall y, y ∈ l1 -> q x y = false) as Hy by (intros y Hy; apply H12; set_solver).
    clear -Hy. induction l1 as [|y l1 IH]; simpl; [done|]. rewrite Hy by set_solver.
    apply IH. set_solver. }
  simpl. rewrite Forall_forall in H2. clear -H2. revert H2. generalize (drop n l). intros k.
  induction k as [|y k IH]; intros Hk; simpl; [done|]. rewrite (proj1 (Hk y ltac:(set_solver))).
  f_equal. apply IH. set_solver.
Qed.

(** ** Weighted sums of lists *)

Definition sumw {A} (w : A -> Z) (l : list A) : Z := foldr (fun x acc => (w x + acc)%Z) 0%Z l.

Section Sums.
Local Open Scope Z_scope.
Context {A : Type} (w : A -> Z).

Lemma sumw_app l l' : sumw w (l ++ l') = sumw w l + sumw w l'.
Proof. induction l as [|x l IH]; cbn; [done|]. unfold sumw in *. lia. Qed.
Lemma sumw_perm l l' : l ≡ₚ l' -> sumw w l = sumw w l'.
Proof. unfold sumw. induction 1; cbn; lia. Qed.
Lemma sumw_nonneg l : Forall (fun x => 0 <= w x) l -> 0 <= sumw w l.
Proof. induction 1 as [|x l Hx Hl IH]; cbn; [done|]. unfold sumw in *. lia. Qed.
Lemma sumw_submseteq l l' : Forall (fun x => 0 <= w x) l' -> l ⊆+ l' -> sumw w l <= sumw w l'.
Proof.
  intros Hl (k & Hk)%submseteq_Permutation. rewrite Hk in Hl. apply Forall_app in Hl as [_ Hl].
  rewrite (sumw_perm _ _ Hk), sumw_app. pose proof (sumw_nonneg _ Hl). lia.
Qed.
End Sums.

Lemma sumw_const_length {A} (p : A -> bool) (l : list A) :
  sumw (fun x => if p x then 1%Z else 0%Z) l = Z.of_nat (List.length (List.filter p l)).
Proof. induction l as [|x l IH]; cbn; [done|]. unfold sumw in *. destruct (p x); cbn; lia. Qed.
