(* ===== verification/RustStr.v ===== *)
(** * Rust strings

    A [str] is the sequence of bytes of its UTF-8 encoding, a [string] of the Standard
    Library.  Byte-level operations ([len], [==], [cmp], [split] and [starts_with] on ASCII
    patterns) act on the bytes; character-level operations ([trim], [chars]) act on the
    characters, a character being a leading byte with its continuation bytes. *)

From S2P Require Import Prelude.

Local Open Scope Z_scope.

Notation "a =s b" := (String.eqb a b) (at level 70, no associativity) : rust_scope.

(** ** Bytes *)

Definition byte_val (a : ascii) : Z := Z.of_N (Ascii.N_of_ascii a).

(** [str::len] *)
Definition str_len (s : string) : Z := Z.of_nat (String.length s).

Definition is_empty (s : string) : bool :=
  match s with EmptyString => true | _ => false end.

(** ** Characters *)

(** A continuation byte is [10xxxxxx]. *)
Definition is_continuation (a : ascii) : bool := Z.land (byte_val a) 192 =? 128.

Definition starts_with_continuation (c : string) : bool :=
  match c with String a _ => is_continuation a | EmptyString => false end.

(** [str::chars], each character given by the bytes that encode it. *)
Fixpoint chars (s : string) : list string :=
  match s with
  | EmptyString => []
  | String b s' =>
      match chars s' with
      | c :: cs =>
          if starts_with_continuation c then String b c :: cs
          else String b EmptyString :: c :: cs
      | [] => [String b EmptyString]
      end
  end.

Definition concat_str (l : list string) : string := foldr String.append EmptyString l.

(** The Unicode scalar value a character's bytes encode: the low bits of the leading byte,
    then six bits of each continuation byte. *)
Definition code_point (c : string) : Z :=
  match String.list_ascii_of_string c with
  | [a] => byte_val a
  | [a; b] => (byte_val a mod 32) * 64 + byte_val b mod 64
  | [a; b; c] => (byte_val a mod 16) * 4096 + (byte_val b mod 64) * 64 + byte_val c mod 64
  | [a; b; c; d] =>
      (byte_val a mod 8) * 262144 + (byte_val b mod 64) * 4096
      + (byte_val c mod 64) * 64 + byte_val d mod 64
  | _ => 65533
  end.

Definition between (lo x hi : Z) : bool := (lo <=? x) && (x <=? hi).

(** [char::is_whitespace]: the Unicode property White_Space. *)
Definition is_whitespace (c : string) : bool :=
  let x := code_point c in
  between 9 x 13 || (x =? 32) || (x =? 133) || (x =? 160) || (x =? 5760)
  || between 8192 x 8202 || (x =? 8232) || (x =? 8233) || (x =? 8239)
  || (x =? 8287) || (x =? 12288).

(** [char::is_control]: the general category Cc. *)
Definition is_control (c : string) : bool :=
  let x := code_point c in between 0 x 31 || between 127 x 159.

(** [str::to_ascii_uppercase] and [str::to_ascii_lowercase]. *)
Definition ascii_upper (a : ascii) : ascii :=
  if between 97 (byte_val a) 122 then Ascii.ascii_of_N (Z.to_N (byte_val a - 32)) else a.
Fixpoint to_ascii_uppercase (s : string) : string :=
  match s with EmptyString => EmptyString | String a s' => String (ascii_upper a) (to_ascii_uppercase s') end.
Definition ascii_lower (a : ascii) : ascii :=
  if between 65 (byte_val a) 90 then Ascii.ascii_of_N (Z.to_N (byte_val a + 32)) else a.
Fixpoint to_ascii_lowercase (s : string) : string :=
  match s with EmptyString => EmptyString | String a s' => String (ascii_lower a) (to_ascii_lowercase s') end.

Fixpoint drop_while {A} (p : A -> bool) (l : list A) : list A :=
  match l with
  | [] => []
  | x :: l' => if p x then drop_while p l' else l
  end.

Definition trim_start (s : string) : string :=
  concat_str (drop_while is_whitespace (chars s)).
Definition trim_end (s : string) : string :=
  concat_str (rev (drop_while is_whitespace (rev (chars s)))).
Definition trim (s : string) : string :=
  concat_str (rev (drop_while is_whitespace (rev (drop_while is_whitespace (chars s))))).

Definition any_control (s : string) : bool := existsb is_control (chars s).

(** ** Patterns *)

Definition slash : ascii := "/"%char.

(** [str::split] on an ASCII character. *)
Fixpoint split_on (d : ascii) (s : string) : list string :=
  match s with
  | EmptyString => [EmptyString]
  | String a s' =>
      if Ascii.eqb a d then EmptyString :: split_on d s'
      else match split_on d s' with
           | p :: ps => String a p :: ps
           | [] => [String a EmptyString]
           end
  end.

(** [[_]::join] *)
Fixpoint join (sep : string) (l : list string) : string :=
  match l with
  | [] => EmptyString
  | [x] => x
  | x :: l' => x +:+ sep +:+ join sep l'
  end.

Fixpoint strip_prefix (p s : string) : option string :=
  match p, s with
  | EmptyString, _ => Some s
  | String a p', String b s' => if Ascii.eqb a b then strip_prefix p' s' else None
  | String _ _, EmptyString => None
  end.

Definition starts_with (p s : string) : bool := is_some (strip_prefix p s).

Fixpoint contains_char (d : ascii) (s : string) : bool :=
  match s with
  | EmptyString => false
  | String a s' => Ascii.eqb a d || contains_char d s'
  end.

(** [str::ends_with] of an ASCII character. *)
Fixpoint ends_with_char (d : ascii) (s : string) : bool :=
  match s with
  | EmptyString => false
  | String a EmptyString => Ascii.eqb a d
  | String _ s' => ends_with_char d s'
  end.

(** [str::trim_end_matches] of an ASCII character. *)
Fixpoint trim_end_matches (d : ascii) (s : string) : string :=
  match s with
  | EmptyString => EmptyString
  | String a s' =>
      match trim_end_matches d s' with
      | EmptyString => if Ascii.eqb a d then EmptyString else String a EmptyString
      | t => String a t
      end
  end.

(** [str::rfind]: the offset of the last occurrence of a substring. *)
Fixpoint rfind (p s : string) : option nat :=
  match s with
  | EmptyString => if is_empty p then Some 0%nat else None
  | String _ s' =>
      match rfind p s' with
      | Some i => Some (S i)
      | None => if starts_with p s then Some 0%nat else None
      end
  end.

Definition contains_str (p s : string) : bool := is_some (rfind p s).

(** ** Lemmas *)

Lemma str_eqb_eq s t : (s =s t) = true <-> s = t.
Proof. apply String.eqb_eq. Qed.

Lemma str_eqb_neq s t : (s =s t) = false <-> s <> t.
Proof. apply String.eqb_neq. Qed.

Lemma str_eqb_refl s : (s =s s) = true.
Proof. apply String.eqb_refl. Qed.

Lemma str_eqb_sym s t : (s =s t) = (t =s s).
Proof. apply String.eqb_sym. Qed.

Lemma str_app_assoc s t u : s +:+ (t +:+ u) = (s +:+ t) +:+ u.
Proof. induction s as [|a s IH]; [done|]. unfold String.app in *; simpl. by f_equal. Qed.

Lemma str_app_nil_r s : s +:+ EmptyString = s.
Proof. induction s as [|a s IH]; [done|]. unfold String.app in *; simpl. by f_equal. Qed.

Lemma str_app_inj s t u : s +:+ t = s +:+ u -> t = u.
Proof. induction s as [|a s IH]; [done|]. intros [= H]. by apply IH. Qed.

(** The characters of a string are a partition of its bytes. *)
Lemma concat_chars s : concat_str (chars s) = s.
Proof.
  induction s as [|a s IH]; [done|]. simpl.
  destruct (chars s) as [|c cs] eqn:Ec; simpl in *; [by subst|].
  destruct (starts_with_continuation c); simpl; by rewrite <- IH.
Qed.

Lemma split_on_nonempty d s : split_on d s <> [].
Proof. destruct s as [|a s]; simpl; [done|]. repeat case_match; done. Qed.

(** A string without the separator is one piece. *)
Lemma split_on_none d s : contains_char d s = false -> split_on d s = [s].
Proof.
  induction s as [|a s IH]; simpl; [done|].
  intros [-> H]%orb_false_elim. by rewrite (IH H).
Qed.

Lemma split_on_app d s t :
  contains_char d s = false ->
  split_on d (s +:+ String d t) = s :: split_on d t.
Proof.
  induction s as [|a s IH]; simpl; intros H.
  - by rewrite Ascii.eqb_refl.
  - apply orb_false_elim in H as [Ha Hs].
    change (String a s +:+ String d t) with (String a (s +:+ String d t)). simpl.
    by rewrite Ha, (IH Hs).
Qed.

(** Splitting undoes joining, when no piece contains the separator. *)
Lemma split_on_join d l :
  l <> [] -> Forall (fun s => contains_char d s = false) l ->
  split_on d (join (String d EmptyString) l) = l.
Proof.
  induction l as [|x l IH]; [done|]. intros _ Hl. inversion Hl; subst.
  destruct l as [|y l]; [by apply split_on_none|].
  change (join (String d EmptyString) (x :: y :: l))
    with (x +:+ String d (join (String d EmptyString) (y :: l))).
  rewrite split_on_app by done. by rewrite IH.
Qed.

(** Joining undoes splitting. *)
Lemma join_split_on d s : join (String d EmptyString) (split_on d s) = s.
Proof.
  induction s as [|a s IH]; [done|]. simpl.
  destruct (Ascii.eqb_spec a d) as [->|Hne].
  - destruct (split_on d s) as [|p ps] eqn:E; [by destruct (split_on_nonempty d s)|].
    change (String d (join (String d EmptyString) (p :: ps)) = String d s). by rewrite IH.
  - destruct (split_on d s) as [|p ps] eqn:E; [by destruct (split_on_nonempty d s)|].
    rewrite <- IH. by destruct ps.
Qed.

Lemma strip_prefix_some p s t : strip_prefix p s = Some t <-> s = p +:+ t.
Proof.
  revert s; induction p as [|a p IH]; intros s; simpl.
  - split; [by intros [= ->]|]. by intros ->.
  - destruct s as [|b s]; [done|]. destruct (Ascii.eqb_spec a b) as [->|Hne].
    + rewrite IH. split; [by intros ->|]. by intros [= ->].
    + split; [done|]. by intros [= ? ?].
Qed.

Lemma starts_with_iff p s : starts_with p s = true <-> exists t, s = p +:+ t.
Proof.
  unfold starts_with. destruct (strip_prefix p s) as [t|] eqn:E; simpl; split; try done.
  - intros _. exists t. by apply strip_prefix_some.
  - intros [t Ht]. apply strip_prefix_some in Ht. congruence.
Qed.

Lemma starts_with_char_cons a s : starts_with (String a EmptyString) (String a s) = true.
Proof. unfold starts_with. simpl. by rewrite Ascii.eqb_refl. Qed.

Lemma contains_char_app d s t :
  contains_char d (s +:+ t) = contains_char d s || contains_char d t.
Proof.
  induction s as [|a s IH]; [done|].
  change (String a s +:+ t) with (String a (s +:+ t)). simpl. by rewrite IH, orb_assoc.
Qed.

Lemma ends_with_char_app d s t :
  t <> EmptyString -> ends_with_char d (s +:+ t) = ends_with_char d t.
Proof.
  intros Ht. induction s as [|a s IH]; [done|].
  change (String a s +:+ t) with (String a (s +:+ t)). simpl. rewrite IH.
  by destruct s, t.
Qed.

Lemma ends_with_no_char d s : contains_char d s = false -> ends_with_char d s = false.
Proof.
  induction s as [|a s IH]; [done|]. simpl. intros [Ha Hs]%orb_false_elim.
  rewrite (IH Hs). by destruct s.
Qed.

Lemma trim_end_matches_id d s : ends_with_char d s = false -> trim_end_matches d s = s.
Proof.
  induction s as [|a s IH]; [done|]. simpl. intros H.
  destruct s as [|b s]; [simpl in *; by rewrite H|].
  rewrite (IH H). done.
Qed.

Lemma join_cons sep x l : l <> [] -> join sep (x :: l) = x +:+ sep +:+ join sep l.
Proof. by destruct l. Qed.

Lemma join_snoc sep l x : l <> [] -> join sep (l ++ [x]) = join sep l +:+ sep +:+ x.
Proof.
  induction l as [|y l IH]; [done|]. intros _. destruct l as [|z l]; [done|].
  change ((y :: z :: l) ++ [x]) with (y :: ((z :: l) ++ [x])).
  rewrite join_cons by (intros H; by apply app_nil in H as [_ ?]).
  rewrite IH by done. rewrite (join_cons sep y (z :: l)) by done.
  by rewrite !str_app_assoc.
Qed.

(** A string whose first byte is a slash is never blank. *)
Lemma slash_not_whitespace t : is_whitespace (String "/" t) = false.
Proof.
  unfold is_whitespace, code_point, between. simpl.
  destruct (String.list_ascii_of_string t) as [|b [|c [|d [|e l]]]]; [done|..];
    change (byte_val "/") with 47;
    repeat match goal with
    | |- context [47 mod ?k] =>
        let v := eval vm_compute in (47 mod k) in change (47 mod k) with v
    | |- context [byte_val ?x mod 64] =>
        let r := fresh "r" in
        pose proof (Z.mod_pos_bound (byte_val x) 64 eq_refl);
        set (r := byte_val x mod 64) in *; clearbody r
    end;
    repeat rewrite orb_false_iff; repeat rewrite andb_false_iff; repeat split; lia.
Qed.

Lemma chars_head a s : exists t cs, chars (String a s) = String a t :: cs.
Proof. simpl. destruct (chars s); [eauto|]. case_match; eauto. Qed.

Lemma drop_while_snoc {A} (p : A -> bool) l x :
  p x = false -> exists l', drop_while p (l ++ [x]) = l' ++ [x].
Proof.
  intros Hx. induction l as [|y l IH]; simpl.
  - rewrite Hx. by exists [].
  - destruct (p y); [done|]. by exists (y :: l).
Qed.

Lemma trim_slash_nonempty s : is_empty (trim (String "/" s)) = false.
Proof.
  unfold trim. destruct (chars_head "/" s) as (t & cs & ->). simpl.
  rewrite slash_not_whitespace. simpl.
  destruct (drop_while_snoc is_whitespace (rev cs) (String "/" t)) as [l' ->];
    [apply slash_not_whitespace|].
  by rewrite rev_app_distr.
Qed.

(** Splitting at a separator splits both sides. *)
Lemma split_on_app_sep d s t :
  split_on d (s +:+ String d t) = split_on d s ++ split_on d t.
Proof.
  induction s as [|a s IH].
  - simpl. by rewrite Ascii.eqb_refl.
  - change (String a s +:+ String d t) with (String a (s +:+ String d t)). simpl. rewrite IH.
    destruct (Ascii.eqb a d); [done|].
    destruct (split_on d s) as [|p ps] eqn:E; [by destruct (split_on_nonempty d s)|done].
Qed.

(** No piece of a split contains the separator. *)
Lemma split_on_pieces d s : Forall (fun p => contains_char d p = false) (split_on d s).
Proof.
  induction s as [|a s IH]; simpl; [by repeat constructor|].
  destruct (Ascii.eqb a d) eqn:E; [by constructor|].
  inversion IH as [Hn|p ps Hp Hps Hn]; [by destruct (split_on_nonempty d s)|].
  constructor; [|done]. simpl. by rewrite E.
Qed.

(** ** Trimming is idempotent: a run of whole characters keeps its segmentation *)

Fixpoint all_continuation (s : string) : bool :=
  match s with EmptyString => true | String a s' => is_continuation a && all_continuation s' end.
Definition char_ok (c : string) : bool :=
  match c with EmptyString => false | String _ t => all_continuation t end.
Fixpoint segmented (l : list string) : bool :=
  match l with
  | [] => true
  | c :: l' => char_ok c && segmented l'
               && match l' with d :: _ => negb (starts_with_continuation d) | [] => true end
  end.

Lemma chars_segmented s : segmented (chars s) = true.
Proof.
  induction s as [|a s IH]; [done|]. simpl. destruct (chars s) as [|c cs]; [done|].
  simpl in IH. apply andb_prop in IH as [[Hc Hcs]%andb_prop Hhd].
  destruct (starts_with_continuation c) eqn:Hsc; simpl.
  - rewrite Hcs, Hhd. destruct c as [|b t]; [done|]. simpl in *. by rewrite Hsc, Hc.
  - by rewrite Hc, Hcs, Hhd, Hsc.
Qed.

Lemma chars_piece c rest :
  char_ok c = true ->
  match chars rest with d :: _ => negb (starts_with_continuation d) | [] => true end = true ->
  chars (c +:+ rest) = c :: chars rest.
Proof.
  destruct c as [|a t]; [done|]. simpl. revert a.
  induction t as [|b t IH]; intros a Hc Hhd; unfold String.app in *; simpl in *.
  - destruct (chars rest) as [|d ds]; [done|]. apply negb_true_iff in Hhd. by rewrite Hhd.
  - apply andb_prop in Hc as [Hb Ht]. specialize (IH b Ht Hhd). simpl in IH. rewrite IH. simpl.
    by rewrite Hb.
Qed.

Lemma chars_concat l : segmented l = true -> chars (concat_str l) = l.
Proof.
  induction l as [|c l IH]; [done|]. simpl. intros [[Hc Hl]%andb_prop Hhd]%andb_prop.
  specialize (IH Hl). change (String.append c (concat_str l)) with (c +:+ concat_str l).
  rewrite chars_piece; rewrite ?IH; done.
Qed.

Lemma segmented_app l1 l2 : segmented (l1 ++ l2) = true -> segmented l1 = true /\ segmented l2 = true.
Proof.
  induction l1 as [|c l1 IH]; simpl; [done|]. intros [[Hc Hl]%andb_prop Hhd]%andb_prop.
  destruct (IH Hl) as [-> ->]. rewrite Hc. destruct l1; simpl in *; [done|by rewrite Hhd].
Qed.

Lemma drop_while_suffix {A} (p : A -> bool) l : exists l1, l = l1 ++ drop_while p l.
Proof.
  induction l as [|x l [l1 IH]]; simpl; [by exists []|].
  destruct (p x); [exists (x :: l1); simpl; by f_equal|by exists []].
Qed.

Lemma drop_while_head {A} (p : A -> bool) l :
  match drop_while p l with [] => True | x :: _ => p x = false end.
Proof. induction l as [|x l IH]; simpl; [done|]. by destruct (p x) eqn:Hx. Qed.

Lemma trim_idem s : trim (trim s) = trim s.
Proof.
  unfold trim. set (l := drop_while is_whitespace (chars s)).
  set (m := rev (drop_while is_whitespace (rev l))).
  assert (segmented m = true) as Hseg.
  { destruct (drop_while_suffix is_whitespace (chars s)) as [l1 Hl1]. fold l in Hl1.
    destruct (drop_while_suffix is_whitespace (rev l)) as [l2 Hl2].
    assert (l = m ++ rev l2) as Hl.
    { rewrite <- (rev_involutive l), Hl2, rev_app_distr at 1. done. }
    pose proof (chars_segmented s) as H. rewrite Hl1 in H. apply segmented_app in H as [_ H].
    rewrite Hl in H. by apply segmented_app in H as [H _]. }
  rewrite (chars_concat m Hseg).
  assert (drop_while is_whitespace m = m) as ->.
  { pose proof (drop_while_head is_whitespace (chars s)) as Hhd. fold l in Hhd.
    destruct (drop_while_suffix is_whitespace (rev l)) as [l2 Hl2].
    assert (l = m ++ rev l2) as Hl.
    { rewrite <- (rev_involutive l), Hl2, rev_app_distr at 1. done. }
    destruct m as [|x m']; [done|]. rewrite Hl in Hhd. simpl in *. by rewrite Hhd. }
  f_equal. subst m. rewrite rev_involutive. f_equal.
  pose proof (drop_while_head is_whitespace (rev l)) as Hhd.
  destruct (drop_while is_whitespace (rev l)) as [|x m']; [done|]. simpl. by rewrite Hhd.
Qed.

(** ** UTF-8 validity ([String::from_utf8]) *)

(** The second byte of a three-byte and of a four-byte sequence. *)
Definition second_of_three (b0 b1 : Z) : bool :=
  if b0 =? 224 then between 160 b1 191
  else if b0 =? 237 then between 128 b1 159
  else between 128 b1 191.
Definition second_of_four (b0 b1 : Z) : bool :=
  if b0 =? 240 then between 144 b1 191
  else if b0 =? 244 then between 128 b1 143
  else between 128 b1 191.

Fixpoint valid_utf8 (s : string) : bool :=
  match s with
  | EmptyString => true
  | String a0 s1 =>
      let b0 := byte_val a0 in
      if b0 <? 128 then valid_utf8 s1
      else if between 194 b0 223 then
        match s1 with
        | String a1 s2 => is_continuation a1 && valid_utf8 s2
        | EmptyString => false
        end
      else if between 224 b0 239 then
        match s1 with
        | String a1 (String a2 s3) =>
            second_of_three b0 (byte_val a1) && is_continuation a2 && valid_utf8 s3
        | _ => false
        end
      else if between 240 b0 244 then
        match s1 with
        | String a1 (String a2 (String a3 s4)) =>
            second_of_four b0 (byte_val a1) && is_continuation a2 && is_continuation a3
            && valid_utf8 s4
        | _ => false
        end
      else false
  end.

Lemma str_app_cons a s t : String a s +:+ t = String a (s +:+ t).
Proof. reflexivity. Qed.

Lemma valid_utf8_app s t : valid_utf8 s = true -> valid_utf8 (s +:+ t) = valid_utf8 t.
Proof.
  remember (String.length s) as n eqn:Hn. assert (String.length s <= n)%nat as Hle by lia.
  clear Hn. revert s Hle. induction n as [|n IH]; intros [|a0 s1] Hle Hv;
    [done|simpl in Hle; lia|done|].
  rewrite str_app_cons. simpl in Hle. cbn [valid_utf8] in Hv |- *.
  destruct (byte_val a0 <? 128); [apply IH; [lia|done]|].
  destruct (between 194 (byte_val a0) 223).
  { destruct s1 as [|a1 s2]; [done|]. rewrite str_app_cons. simpl in Hle. bool_hyps.
    rewrite H. apply IH; [lia|done]. }
  destruct (between 224 (byte_val a0) 239).
  { destruct s1 as [|a1 [|a2 s3]]; try done. rewrite !str_app_cons. simpl in Hle. bool_hyps.
    rewrite H, H1. apply IH; [lia|done]. }
  destruct (between 240 (byte_val a0) 244); [|done].
  destruct s1 as [|a1 [|a2 [|a3 s4]]]; try done. rewrite !str_app_cons. simpl in Hle. bool_hyps.
  rewrite H, H1, H2. apply IH; [lia|done].
Qed.

(** [split_once(d)]: the text before and after the first [d]. *)
Fixpoint split_once (d : ascii) (s : string) : option (string * string) :=
  match s with
  | EmptyString => None
  | String a s' =>
      if bool_decide (a = d) then Some (EmptyString, s')
      else (fun '(l, r) => (String a l, r)) <$> split_once d s'
  end.

Lemma split_once_app d s t :
  contains_char d s = false -> split_once d (s +:+ String d t) = Some (s, t).
Proof.
  induction s as [|a s IH]; simpl; intros H.
  - by rewrite bool_decide_true.
  - apply orb_false_elim in H as [H1 H2]. rewrite bool_decide_false.
    + by rewrite IH.
    + intros ->. by rewrite Ascii.eqb_refl in H1.
Qed.

(** ** Sorted lists of strings ([sort] on a [Vec<String>]) *)

Definition str_le (a b : string) : Prop := String.leb a b = true.
#[export] Instance str_le_dec a b : Decision (str_le a b).
Proof. unfold str_le. apply _. Defined.
Definition sort_ids (l : list string) : list string := merge_sort str_le l.

#[export] Instance str_le_trans : Transitive str_le.
Proof.
  unfold str_le, String.leb. intros s. induction s as [|a s IH]; intros [|b t] [|c u]; try done. cbn [String.compare].
  destruct (Ascii.compare a b) eqn:Hab, (Ascii.compare b c) eqn:Hbc; try done; unfold Ascii.compare in *.
  - apply N.compare_eq_iff in Hab as ->. rewrite Hbc. apply IH.
  - apply N.compare_eq_iff in Hab as ->. by rewrite Hbc.
  - apply N.compare_eq_iff in Hbc as <-. by rewrite Hab.
  - assert ((Ascii.N_of_ascii a ?= Ascii.N_of_ascii c)%N = Lt) as -> by (apply N.compare_lt_iff in Hab, Hbc; apply N.compare_lt_iff; by eapply N.lt_trans).
    done.
Qed.
#[export] Instance str_le_total : Total str_le.
Proof. intros a b. apply String.leb_total. Qed.
#[export] Instance str_le_antisym : AntiSymm (=) str_le.
Proof. intros a b. apply String.leb_antisym. Qed.
