(* ===== verification/StateLogic.v ===== *)
(** * A program logic for [StM]

    Triples with an error postcondition and predicates that a program keeps, for the components
    whose operations run in [StM]. *)

From S2P Require Import Prelude.

(** Started in [P], the program ends in [Q] with its value or in [X] on an error. *)
Definition triple {S A E} (P : S -> Prop) (m : StM S A E) (Q : A -> S -> Prop)
    (X : E -> S -> Prop) : Prop :=
  forall s, P s -> match m s with (Ok a, s') => Q a s' | (Err e, s') => X e s' end.

(** The program keeps [P] whatever happens. *)
Definition stable {S A E} (P : S -> Prop) (m : StM S A E) : Prop :=
  forall s, P s -> P (m s).2.

Section Triples.
Context {S A B E : Type}.
Implicit Types (P : S -> Prop).

Lemma triple_bind P (m : StM S A E) (k : A -> StM S B E) Q R X :
  triple P m Q X -> (forall a, triple (Q a) (k a) R X) -> triple P (st_bind m k) R X.
Proof.
  intros Hm Hk s Hs. unfold st_bind. specialize (Hm s Hs). destruct (m s) as [[a|e] s']; [|done].
  by apply Hk.
Qed.

Lemma triple_conseq P P' (m : StM S A E) (Q Q' : A -> S -> Prop) X X' :
  triple P m Q X -> (forall s, P' s -> P s) -> (forall a s, Q a s -> Q' a s) ->
  (forall e s, X e s -> X' e s) -> triple P' m Q' X'.
Proof.
  intros Hm HP HQ HX s Hs. specialize (Hm s (HP s Hs)). destruct (m s) as [[]]; auto.
Qed.

Lemma triple_stable P (m : StM S A E) :
  triple P m (fun _ => P) (fun _ => P) <-> stable P m.
Proof.
  split; intros Hm s Hs; specialize (Hm s Hs); destruct (m s) as [[]]; done.
Qed.

Lemma triple_run P Q (m : StM S A E) s :
  triple P m (fun _ => Q) (fun _ => Q) -> P s -> Q (m s).2.
Proof. intros Hm Hs. specialize (Hm s Hs). by destruct (m s) as [[] ?]. Qed.

(** A stable program in front of an error path that needs less. *)
Lemma triple_weaken P (Q : S -> Prop) (m : StM S A E) :
  stable P m -> (forall s, P s -> Q s) -> triple P m (fun _ => P) (fun _ => Q).
Proof. intros Hm HQ s Hs. specialize (Hm s Hs). destruct (m s) as [[] ?]; [done|by apply HQ]. Qed.

Lemma stable_bind P (m : StM S A E) (k : A -> StM S B E) :
  stable P m -> (forall a, stable P (k a)) -> stable P (st_bind m k).
Proof.
  intros Hm Hk s Hs. unfold st_bind. specialize (Hm s Hs). destruct (m s) as [[a|e] s']; [|done].
  by apply Hk.
Qed.
Lemma stable_lift_bind P (r : Result A E) (k : A -> StM S B E) :
  (forall a, r = Ok a -> stable P (k a)) -> stable P (st_bind (st_lift r) k).
Proof. intros Hk s Hs. unfold st_bind, st_lift. destruct r; [by apply Hk|done]. Qed.
Lemma stable_run_to P (m : StM S A E) s : stable P m -> P s -> P (m s).2.
Proof. by intros Hm Hs; apply Hm. Qed.
Lemma stable_ret P (a : A) : stable (E:=E) P (st_ret a).
Proof. by intros s Hs. Qed.
Lemma stable_throw P (e : E) : stable (A:=A) P (st_throw e).
Proof. by intros s Hs. Qed.
Lemma stable_lift P (r : Result A E) : stable P (st_lift r).
Proof. by intros s Hs. Qed.
Lemma bind_lift_ok (a : A) (k : A -> StM S B E) : st_bind (st_lift (Ok a)) k = k a.
Proof. done. Qed.
End Triples.
