(* ===== verification/Protocol.v ===== *)
(** * Shared wire models (crates/treer-protocol)

    The records and enumerations the Proxy's Policy and Tree code passes around, with the
    source's constructors and fields (a field is prefixed by a short form of its record). *)

From S2P Require Import Prelude RustStr.

(** ** Errors (lib.rs) *)

Inductive AgentCreationFailureState : Type :=
| NotStarted | IdentityRemoved | ReservedOutcomeUnknown | CleanupFailed.

Record AgentCreationErrorDetails : Type := mkAgentCreationErrorDetails {
  acd_command : option string;
  acd_machine_id : option string;
  acd_agent_id : option string;
  acd_creation_state : AgentCreationFailureState
}.

Record ProtocolError : Type := mkProtocolError {
  pe_hint : option (list string);
  pe_code : string;
  pe_message : string;
  pe_details : option AgentCreationErrorDetails
}.

(** [ProtocolError::new] *)
Definition protocol_error (code message : string) : ProtocolError :=
  mkProtocolError None code message None.

Definition ascii_alphanumeric (a : ascii) : bool :=
  let x := byte_val a in between 48 x 57 || between 65 x 90 || between 97 x 122.

Fixpoint all_bytes (p : ascii -> bool) (s : string) : bool :=
  match s with
  | EmptyString => true
  | String a s' => p a && all_bytes p s'
  end.

(** The identifier a UI may match against its install recipes. *)
Definition agent_install_command_name (command : string) : option string :=
  if negb (is_empty command)
     && (str_len command <=? 128)%Z
     && all_bytes (fun b => ascii_alphanumeric b
                            || Ascii.eqb b "-" || Ascii.eqb b "_" || Ascii.eqb b ".") command
     && negb ((command =s ".") || (command =s ".."))
     && negb (ends_with_char "." command)
  then Some command else None.

(** ** BTreeMap iteration: ascending key order *)

Definition key_le {V} (a b : string * V) : Prop := String.le a.1 b.1.
#[export] Instance key_le_dec {V} : RelDecision (@key_le V).
Proof. intros a b. unfold key_le. apply _. Defined.

Definition btree_iter {V} (m : gmap string V) : list (string * V) :=
  merge_sort key_le (map_to_list m).
Definition btree_keys {V} (m : gmap string V) : list string := (btree_iter m).*1.

(** ** The workspace Tree (workload_tree.rs) *)

Record WorkloadFolder : Type := mkWorkloadFolder {
  wf_folder_id : string;
  wf_name : string;
  wf_parent_id : option string
}.

Record WorkloadPlacement : Type := mkWorkloadPlacement {
  wp_agent_id : string;
  wp_folder_id : option string;
  wp_position : Z
}.

Record WorkloadTree : Type := mkWorkloadTree {
  wt_folders : list WorkloadFolder;
  wt_placements : list WorkloadPlacement
}.

Inductive WorkspacePinKind : Type := PinAgent | PinApp | PinFolder.

Definition pin_kind_as_str (k : WorkspacePinKind) : string :=
  match k with PinAgent => "agent" | PinApp => "app" | PinFolder => "folder" end.

Definition pin_kind_parse (value : string) : option WorkspacePinKind :=
  if value =s "agent" then Some PinAgent
  else if value =s "app" then Some PinApp
  else if value =s "folder" then Some PinFolder
  else None.

Definition workspace_pin_id_ok (id : string) : bool :=
  between 1 (str_len id) 128
  && all_bytes (fun b => ascii_alphanumeric b || Ascii.eqb b "_" || Ascii.eqb b "."
                         || Ascii.eqb b ":" || Ascii.eqb b "-") id.

(** ** Policy documents (policy.rs, policy_path.rs) *)

Inductive PolicyMode : Type := Monitor | Enforce.
Inductive PolicyEffect : Type := Allow | Deny.
Inductive PolicyPrincipalKind : Type := KHuman | KAgent | KMachine | KService.

#[export] Instance PolicyMode_eq_dec : EqDecision PolicyMode.
Proof. solve_decision. Defined.
#[export] Instance PolicyEffect_eq_dec : EqDecision PolicyEffect.
Proof. solve_decision. Defined.
#[export] Instance PolicyPrincipalKind_eq_dec : EqDecision PolicyPrincipalKind.
Proof. solve_decision. Defined.

Definition policy_mode_as_str (m : PolicyMode) : string :=
  match m with Monitor => "monitor" | Enforce => "enforce" end.

Definition principal_kind_as_str (k : PolicyPrincipalKind) : string :=
  match k with
  | KHuman => "human" | KAgent => "agent" | KMachine => "machine" | KService => "service"
  end.

(** Current canonical Tree facts about one node, populated by Core. *)
Record PolicyTreeContext : Type := mkPolicyTreeContext {
  tc_node_id : string;
  tc_kind : string;
  tc_name : string;
  tc_path : string;
  tc_folder_id : option string;
  tc_folder_path : string;
  tc_ancestor_ids : list string;
  tc_ancestor_paths : list string;
  tc_placed : bool;
  tc_tree_revision : Z
}.

Record PolicyPathPrefix : Type := mkPolicyPathPrefix {
  pp_path : string;
  pp_include_self : bool
}.

Record PolicyTreeSelector : Type := mkPolicyTreeSelector {
  ts_kind : option string;
  ts_name : option string;
  ts_folder_id : option string;
  ts_path_eq : option string;
  ts_path_glob : option string;
  ts_path_prefix : option PolicyPathPrefix
}.

Inductive PolicyFolderField : Type := FieldSubject | FieldResource.

(** Exactly one typed folder reference. *)
Inductive PolicyFolderRef : Type :=
| RefVariable (var : string)
| RefField (field : PolicyFolderField)
| RefId (id : string)
| RefPath (path : string).

Inductive PolicyTreeCondition : Type :=
| SameFolder
| ResourceBelowSubjectFolder (strict : bool)
| ResourceBelowFolder (folder : PolicyFolderRef) (strict : bool).

Record PolicyPrincipalRef : Type := mkPolicyPrincipalRef {
  pr_kind : PolicyPrincipalKind;
  pr_id : string
}.

Record PolicyPrincipalGroup : Type := mkPolicyPrincipalGroup {
  pg_principals : list PolicyPrincipalRef
}.

Record PolicySubjectSelector : Type := mkPolicySubjectSelector {
  ss_tree : option PolicyTreeSelector;
  ss_kind : option PolicyPrincipalKind;
  ss_id : option string;
  ss_machine_id : option string;
  ss_group : option string;
  ss_is_self : bool
}.

Record PolicyResourceSelector : Type := mkPolicyResourceSelector {
  rs_tree : option PolicyTreeSelector;
  rs_kind : option string;
  rs_id : option string;
  rs_principal_group : option string
}.

Record WorkspacePolicyRule : Type := mkWorkspacePolicyRule {
  rule_bindings : gmap string PolicyFolderRef;
  rule_conditions : list PolicyTreeCondition;
  rule_id : string;
  rule_priority : Z;
  rule_effect : PolicyEffect;
  rule_subjects : list PolicySubjectSelector;
  rule_actions : list string;
  rule_resources : list PolicyResourceSelector
}.

Record WorkspacePolicyDocument : Type := mkWorkspacePolicyDocument {
  doc_schema_version : Z;
  doc_defaults : gmap string PolicyEffect;
  doc_groups : gmap string PolicyPrincipalGroup;
  doc_rules : list WorkspacePolicyRule
}.

(** [updated_at] and [generated_at] are RFC 3339 timestamps, kept as text. *)
Record WorkspacePolicy : Type := mkWorkspacePolicy {
  pol_workspace_id : string;
  pol_revision : Z;
  pol_mode : PolicyMode;
  pol_document : WorkspacePolicyDocument;
  pol_updated_at : string;
  pol_updated_by : PolicyPrincipalRef
}.

Record PolicyProviderManifest : Type := mkPolicyProviderManifest {
  pm_protocol : string;
  pm_provider_name : string;
  pm_capabilities : list string
}.

Record PolicyProviderBundle : Type := mkPolicyProviderBundle {
  pb_protocol : string;
  pb_workspace_id : string;
  pb_revision : Z;
  pb_mode : PolicyMode;
  pb_document : WorkspacePolicyDocument;
  pb_generated_at : string
}.

Inductive PolicyProviderFailureMode : Type := FailClosed | FailOpen.
Inductive PolicyPublishAuthority : Type := OwnerSession | ProviderOperator.

Record WorkspacePolicyProvider : Type := mkWorkspacePolicyProvider {
  wpp_workspace_id : string;
  wpp_app_id : string;
  wpp_service_id : string;
  wpp_failure_mode : PolicyProviderFailureMode;
  wpp_max_stale_seconds : Z;
  wpp_revision_hint : Z;
  wpp_updated_at : string;
  wpp_updated_by : string;
  wpp_publish_authority : PolicyPublishAuthority
}.

Definition POLICY_SCHEMA_VERSION : Z := 1.
Definition POLICY_SCHEMA_VERSION_V2 : Z := 2.
Definition POLICY_PROVIDER_PROTOCOL_V1 : string := "treer.policy-provider/v1".
Definition POLICY_PROVIDER_BUNDLE_CAPABILITY_V1 : string := "policy.bundle.v1".
Definition POLICY_PROVIDER_BUNDLE_CAPABILITY_V2 : string := "policy.bundle.v2".

(** ** Lemmas *)

(** Iterating a BTreeMap visits exactly its entries. *)
Lemma btree_iter_elem {V} (m : gmap string V) k v :
  (k, v) ∈ btree_iter m <-> m !! k = Some v.
Proof.
  unfold btree_iter. rewrite (merge_sort_Permutation key_le). apply elem_of_map_to_list.
Qed.

Lemma btree_keys_elem {V} (m : gmap string V) k : k ∈ btree_keys m <-> is_Some (m !! k).
Proof.
  unfold btree_keys. rewrite list_elem_of_fmap. split.
  - intros ([k' v] & -> & Hv%btree_iter_elem). by exists v.
  - intros [v Hv]. exists (k, v). by rewrite btree_iter_elem.
Qed.

Lemma pin_kind_roundtrip k : pin_kind_parse (pin_kind_as_str k) = Some k.
Proof. by destruct k. Qed.
