(* ===== verification/WorkloadTree.v ===== *)
(** * Workspace tree addressing (crates/treer-protocol/src/targets.rs)

    Path printing ([folder_path], [workload_path]), path parsing ([path_components]),
    folder lookup ([resolve_folder_path]) and target resolution ([resolve_target]). *)

From S2P Require Import Prelude RustStr Protocol.

Record WorkloadTarget : Type := mkWorkloadTarget {
  tgt_id : string;
  tgt_name : string
}.

#[export] Instance WorkloadTarget_eq_dec : EqDecision WorkloadTarget.
Proof. solve_decision. Defined.

Definition opt_str_eqb (a b : option string) : bool := bool_decide (a = b).

(** ** Lookups *)

Definition find_folder (tree : WorkloadTree) (id : string) : option WorkloadFolder :=
  List.find (fun f => wf_folder_id f =s id) (wt_folders tree).

Definition containing_folder (tree : WorkloadTree) (id : string) : option string :=
  match List.find (fun p => wp_agent_id p =s id) (wt_placements tree) with
  | Some p => wp_folder_id p
  | None => None
  end.

(** ** Printing *)

Definition err_cycle : ProtocolError :=
  protocol_error "invalid_workload_tree" "folder cycle detected".
Definition err_folder_gone : ProtocolError :=
  protocol_error "folder_not_found" "folder no longer exists; retry".

(** The [while let] of [folder_path].  [None] is running out of fuel. *)
Fixpoint folder_names_loop (fuel : nat) (tree : WorkloadTree) (seen names : list string)
    (next : option string) : option (Result (list string) ProtocolError) :=
  match next with
  | None => Some (Ok names)
  | Some id =>
      match fuel with
      | O => None
      | S fuel' =>
          if bool_decide (id ∈ seen) then Some (Err err_cycle)
          else match find_folder tree id with
               | None => Some (Err err_folder_gone)
               | Some folder =>
                   folder_names_loop fuel' tree (id :: seen) (names ++ [wf_name folder])
                     (wf_parent_id folder)
               end
      end
  end.

(** Every turn but the last adds a new folder ID to [seen]. *)
Definition folder_fuel (tree : WorkloadTree) : nat := S (length (wt_folders tree)).

Definition folder_path (tree : WorkloadTree) (id : option string)
    : Result string ProtocolError :=
  match folder_names_loop (folder_fuel tree) tree [] [] id with
  | Some (Ok names) => Ok ("/" +:+ join "/" (rev names))
  | Some (Err e) => Err e
  | None => Err err_cycle
  end.

Definition workload_path (tree : WorkloadTree) (id name : string)
    : Result string ProtocolError :=
  let? path := folder_path tree (containing_folder tree id) in
  Ok (trim_end_matches slash path +:+ "/" +:+ name).

(** ** Parsing *)

(** The [for part in path.split('/')] loop of [path_components]. *)
Fixpoint path_parts_loop (parts pieces : list string) : Result (list string) ProtocolError :=
  match pieces with
  | [] => Ok parts
  | part :: rest =>
      if (part =s "") || (part =s ".") then path_parts_loop parts rest
      else if part =s ".." then path_parts_loop (take (length parts - 1) parts) rest
      else if negb (trim part =s part) || any_control part then
        Err (protocol_error "invalid_tree_path"
               "path components must have visible names without surrounding whitespace")
      else path_parts_loop (parts ++ [part]) rest
  end.

Definition path_components (tree : WorkloadTree) (path : string) (cwd : option string)
    : Result (list string) ProtocolError :=
  if is_empty (trim path) then
    Err (protocol_error "invalid_tree_path" "path cannot be empty")
  else
    let? parts :=
      if starts_with "/" path then Ok []
      else let? base := folder_path tree cwd in
           Ok (List.filter (fun p => negb (is_empty p)) (split_on slash base)) in
    path_parts_loop parts (split_on slash path).

(** ** Folder lookup *)

(** The [for name in ...] loop of [resolve_folder_path]. *)
Fixpoint resolve_names (tree : WorkloadTree) (path : string) (parent : option string)
    (names : list string) : Result (option string) ProtocolError :=
  match names with
  | [] => Ok parent
  | name :: rest =>
      match List.filter (fun f => opt_str_eqb (wf_parent_id f) parent && (wf_name f =s name))
              (wt_folders tree) with
      | [] => Err (protocol_error "folder_not_found" ("folder not found: " +:+ path))
      | [folder] => resolve_names tree path (Some (wf_folder_id folder)) rest
      | _ :: _ :: _ => Err (protocol_error "folder_ambiguous" "duplicate folder name; use its ID")
      end
  end.

Definition resolve_folder_path (tree : WorkloadTree) (path : string) (cwd : option string)
    : Result (option string) ProtocolError :=
  match find_folder tree path with
  | Some folder => Ok (Some (wf_folder_id folder))
  | None =>
      let? names := path_components tree path cwd in
      resolve_names tree path None names
  end.

(** ** Targets *)

(** [sort] then [dedup] then [truncate(10)] on the hint paths. *)
Fixpoint dedup (l : list string) : list string :=
  match l with
  | x :: ((y :: _) as l') => if x =s y then dedup l' else x :: dedup l'
  | _ => l
  end.

Definition hint_paths (paths : list string) : list string :=
  take 10 (dedup (merge_sort String.le paths)).

(** The last piece of [target.rsplit('/')]. *)
Definition last_piece (target : string) : string := default "" (last (split_on slash target)).

(** The [(folder, name)] a non-ID target denotes. *)
Definition target_folder_name (tree : WorkloadTree) (cwd : option string) (target : string)
    : Result (option string * string) ProtocolError :=
  if contains_char slash target then
    if ends_with_char slash target || (last_piece target =s ".") || (last_piece target =s "..")
    then Err (protocol_error "invalid_agent_target" "a folder is not an Agent target")
    else
      let? parts := path_components tree target cwd in
      match last parts with
      | None => Err (protocol_error "invalid_agent_target" "workspace root is not an Agent")
      | Some name =>
          let? parent :=
            resolve_folder_path tree ("/" +:+ join "/" (take (length parts - 1) parts)) None in
          Ok (parent, name)
      end
  else Ok (cwd, target).

Definition resolve_target (tree : WorkloadTree) (rows : list WorkloadTarget)
    (caller : option string) (target : string) : Result string ProtocolError :=
  if (target =s "self") || (target =s ".") then
    match caller with
    | Some id => Ok id
    | None => Err (protocol_error "agent_identity_required"
                     "self requires an authenticated Agent identity")
    end
  else if starts_with "ag_" target || starts_with "app_" target
          || existsb (fun r => tgt_id r =s target) rows
  then Ok target
  else
    let cwd := match caller with Some id => containing_folder tree id | None => None end in
    let? '(folder, name) := target_folder_name tree cwd target in
    match List.filter (fun r => (tgt_name r =s name)
                                && opt_str_eqb (containing_folder tree (tgt_id r)) folder) rows with
    | [row] => Ok (tgt_id row)
    | [] =>
        if contains_char slash target then
          Err (protocol_error "agent_not_found" ("Agent not found at " +:+ target))
        else
          let? paths := try_collect (fun r => workload_path tree (tgt_id r) (tgt_name r))
                          (List.filter (fun r => tgt_name r =s target) rows) in
          let? here := folder_path tree cwd in
          Err (mkProtocolError (Some (hint_paths paths)) "agent_not_in_folder"
                 ("no Agent named " +:+ target +:+ " in " +:+ here
                  +:+ "; use a tree path or stable ID") None)
    | _ :: _ :: _ =>
        Err (protocol_error "agent_ambiguous"
               "multiple Agents in this folder have this name; use a stable ID")
    end.

(** New labels must remain unambiguous path components. *)
Definition validate_workload_label (name : string) : Result unit ProtocolError :=
  if is_empty name
     || negb (trim name =s name)
     || ((name =s "self") || (name =s ".") || (name =s ".."))
     || contains_char slash name
     || any_control name
     || starts_with "ag_" name
     || starts_with "app_" name
  then Err (protocol_error "invalid_agent_name"
              "Agent name must be a visible path component, not self, dot, or a stable ID")
  else Ok tt.

(** ** Well-formed trees *)

(** What a folder name must be to be a path component. *)
Definition folder_name_ok (name : string) : bool :=
  negb (is_empty name) && (trim name =s name) && negb (name =s ".") && negb (name =s "..")
  && negb (contains_char slash name) && negb (any_control name).

(** The walk from a folder to the root, as the list of folders met. *)
Inductive folder_chain (tree : WorkloadTree) : option string -> list WorkloadFolder -> Prop :=
| chain_root : folder_chain tree None []
| chain_step id f l :
    find_folder tree id = Some f ->
    folder_chain tree (wf_parent_id f) l ->
    folder_chain tree (Some id) (f :: l).

Record well_formed_tree (tree : WorkloadTree) : Prop := {
  wft_ids : NoDup (wf_folder_id <$> wt_folders tree);
  wft_siblings : forall f g, f ∈ wt_folders tree -> g ∈ wt_folders tree ->
    wf_parent_id f = wf_parent_id g -> wf_name f = wf_name g -> f = g;
  wft_names : forall f, f ∈ wt_folders tree -> folder_name_ok (wf_name f) = true;
  wft_id_syntax : forall f, f ∈ wt_folders tree -> starts_with "/" (wf_folder_id f) = false
}.

(** An executable check of well-formedness. *)
Definition well_formed_treeb (tree : WorkloadTree) : bool :=
  bool_decide (NoDup (wf_folder_id <$> wt_folders tree))
  && forallb (fun f => forallb (fun g =>
       negb (opt_str_eqb (wf_parent_id f) (wf_parent_id g) && (wf_name f =s wf_name g))
       || (wf_folder_id f =s wf_folder_id g)) (wt_folders tree)) (wt_folders tree)
  && forallb (fun f => folder_name_ok (wf_name f)) (wt_folders tree)
  && forallb (fun f => negb (starts_with "/" (wf_folder_id f))) (wt_folders tree).

(** One step of the walk to the root. *)
Definition parent_step (tree : WorkloadTree) (id id' : string) : Prop :=
  exists f, find_folder tree id = Some f /\ wf_parent_id f = Some id'.

(** ** A concrete tree, from the source's own tests *)

Definition sample_tree : WorkloadTree :=
  mkWorkloadTree
    [mkWorkloadFolder "a" "a" None; mkWorkloadFolder "b" "b" None;
     mkWorkloadFolder "sub" "sub" (Some "a")]
    [mkWorkloadPlacement "ag_c" (Some "a") 0; mkWorkloadPlacement "ag_a" (Some "a") 0;
     mkWorkloadPlacement "ag_b" (Some "b") 0; mkWorkloadPlacement "app_sub" (Some "sub") 0].
Definition sample_rows : list WorkloadTarget :=
  [mkWorkloadTarget "ag_a" "reviewer"; mkWorkloadTarget "ag_b" "reviewer";
   mkWorkloadTarget "app_sub" "ui"].

(** ** Lemmas: the walk to the root *)

Lemma find_folder_some tree id f :
  find_folder tree id = Some f -> f ∈ wt_folders tree /\ wf_folder_id f = id.
Proof. intros [? ?%str_eqb_eq]%find_elem. done. Qed.

Lemma folder_chain_det tree o l1 l2 :
  folder_chain tree o l1 -> folder_chain tree o l2 -> l1 = l2.
Proof.
  intros H. revert l2. induction H; inversion 1; simplify_eq; [done|].
  f_equal. auto.
Qed.

(** Every folder of a chain starts a chain of its own, a suffix of it. *)
Lemma folder_chain_suffix tree o l g :
  folder_chain tree o l -> g ∈ l ->
  exists l', folder_chain tree (Some (wf_folder_id g)) (g :: l') /\ length (g :: l') <= length l.
Proof.
  induction 1 as [|id f l Hf Hl IH]; [by intros ?%elem_of_nil|].
  intros [->|Hg]%elem_of_cons.
  - exists l. split; [|done]. apply find_folder_some in Hf as Hid.
    destruct Hid as [_ ->]. by constructor.
  - destruct (IH Hg) as (l' & ? & ?). exists l'. simpl in *. split; [done|lia].
Qed.

Lemma folder_chain_NoDup tree o l :
  folder_chain tree o l -> NoDup (wf_folder_id <$> l).
Proof.
  induction 1 as [|id f l Hf Hl IH]; simpl; [constructor|].
  constructor; [|done]. intros (g & Hid & Hg)%list_elem_of_fmap.
  destruct (folder_chain_suffix _ _ _ _ Hl Hg) as (l' & Hc & Hlen).
  apply find_folder_some in Hf as Hfid. destruct Hfid as [_ Hfid].
  assert (f :: l = g :: l') as Heq.
  { eapply folder_chain_det; [|exact Hc]. rewrite <- Hid, Hfid. by constructor. }
  simplify_eq. simpl in Hlen. lia.
Qed.

Lemma folder_chain_elem tree o l f : folder_chain tree o l -> f ∈ l -> f ∈ wt_folders tree.
Proof.
  induction 1 as [|id g l Hg Hl IH]; [by intros ?%elem_of_nil|].
  intros [->|Hf]%elem_of_cons; [|auto]. by apply find_folder_some in Hg as [? _].
Qed.

Lemma submseteq_length_ids tree (ids : list string) :
  NoDup ids -> (forall x, x ∈ ids -> x ∈ wf_folder_id <$> wt_folders tree) ->
  length ids <= length (wt_folders tree).
Proof.
  intros Hnd Hsub. rewrite <- (length_fmap wf_folder_id).
  apply submseteq_length, NoDup_submseteq; done.
Qed.

Lemma folder_chain_length tree o l :
  folder_chain tree o l -> length l <= length (wt_folders tree).
Proof.
  intros H. rewrite <- (length_fmap wf_folder_id).
  apply submseteq_length_ids; [by eapply folder_chain_NoDup|].
  intros x (f & -> & Hf)%list_elem_of_fmap. apply list_elem_of_fmap.
  exists f. split; [done|]. by eapply folder_chain_elem.
Qed.

(** The loop ends within its fuel. *)
Lemma folder_names_loop_total tree fuel seen names next :
  NoDup seen -> (forall x, x ∈ seen -> x ∈ wf_folder_id <$> wt_folders tree) ->
  folder_fuel tree <= fuel + length seen ->
  folder_names_loop fuel tree seen names next <> None.
Proof.
  unfold folder_fuel.
  revert seen names next. induction fuel as [|fuel IH]; intros seen names next Hnd Hsub Hlen;
    (destruct next as [id|]; simpl; [|done]).
  - pose proof (submseteq_length_ids tree seen Hnd Hsub). simpl in Hlen. lia.
  - case_bool_decide as Hin; [done|].
    destruct (find_folder tree id) as [f|] eqn:Hf; [|done].
    apply IH; [by constructor| |simpl; lia].
    intros x [->|Hx]%elem_of_cons; [|auto].
    apply find_folder_some in Hf as [? <-]. apply list_elem_of_fmap. eauto.
Qed.

Lemma folder_names_loop_chain tree fuel seen names o l :
  folder_chain tree o l -> length l <= fuel ->
  (forall f, f ∈ l -> wf_folder_id f ∉ seen) ->
  folder_names_loop fuel tree seen names o = Some (Ok (names ++ (wf_name <$> l))).
Proof.
  intros Hc. pose proof (folder_chain_NoDup _ _ _ Hc) as Hnd.
  revert fuel seen names Hnd.
  induction Hc as [|id f l Hf Hl IH]; intros fuel seen names Hnd Hlen Hseen.
  - destruct fuel; simpl; by rewrite app_nil_r.
  - destruct fuel as [|fuel]; [simpl in Hlen; lia|]. simpl in *.
    apply find_folder_some in Hf as Hid. destruct Hid as [_ Hid].
    rewrite bool_decide_eq_false_2 by (rewrite <- Hid; apply Hseen; set_solver).
    rewrite Hf. inversion Hnd as [|? ? Hnotin Hnd']; subst.
    rewrite IH; [|done|lia|].
    + by rewrite <- app_assoc.
    + intros g Hg. apply not_elem_of_cons. split; [|apply Hseen; set_solver].
      intros Heq. apply Hnotin, list_elem_of_fmap. eauto.
Qed.

(** What each outcome of the loop means. *)
Lemma folder_names_loop_sound tree fuel seen names id r :
  (forall s, s ∈ seen -> tc (parent_step tree) s id) ->
  folder_names_loop fuel tree seen names (Some id) = Some r ->
  match r with
  | Ok names' => exists l, folder_chain tree (Some id) l /\ names' = names ++ (wf_name <$> l)
  | Err e =>
      (e = err_folder_gone /\ exists id', rtc (parent_step tree) id id' /\ find_folder tree id' = None)
      \/ (e = err_cycle /\ exists id', rtc (parent_step tree) id id' /\ tc (parent_step tree) id' id')
  end.
Proof.
  revert seen names id. induction fuel as [|fuel IH]; intros seen names id Hseen; simpl; [done|].
  case_bool_decide as Hin.
  - intros [= <-]. right. split; [done|]. exists id. split; [done|]. by apply Hseen.
  - destruct (find_folder tree id) as [f|] eqn:Hf.
    + destruct (wf_parent_id f) as [pid|] eqn:Hp.
      * assert (parent_step tree id pid) as Hstep by (exists f; done).
        intros Hloop. apply IH in Hloop.
        -- destruct r as [names'|e].
           ++ destruct Hloop as (l & Hc & ->). exists (f :: l).
              split; [constructor; [done|by rewrite Hp]|by rewrite <- app_assoc].
           ++ destruct Hloop as [(-> & id' & Hr & Hn)|(-> & id' & Hr & Ht)];
                [left|right]; (split; [done|]); exists id'; (split; [by eapply rtc_l|done]).
        -- intros s [->|Hs]%elem_of_cons; [by apply tc_once|].
           eapply tc_r; [by apply Hseen|done].
      * destruct fuel; simpl; intros [= <-]; exists [f]; (split; [|done]);
          (constructor; [done|rewrite Hp; constructor]).
    + intros [= <-]. left. split; [done|]. by exists id.
Qed.

Lemma folder_path_chain tree o l :
  folder_chain tree o l ->
  folder_path tree o = Ok ("/" +:+ join "/" (rev (wf_name <$> l))).
Proof.
  intros Hc. unfold folder_path.
  rewrite (folder_names_loop_chain _ _ _ _ _ _ Hc); [done| |set_solver].
  unfold folder_fuel. pose proof (folder_chain_length _ _ _ Hc). lia.
Qed.

(** Every outcome of [folder_path]. *)
Lemma folder_path_cases tree id :
  match folder_path tree (Some id) with
  | Ok p => exists l, folder_chain tree (Some id) l /\ p = "/" +:+ join "/" (rev (wf_name <$> l))
  | Err e =>
      (e = err_folder_gone /\ exists id', rtc (parent_step tree) id id' /\ find_folder tree id' = None)
      \/ (e = err_cycle /\ exists id', rtc (parent_step tree) id id' /\ tc (parent_step tree) id' id')
  end.
Proof.
  unfold folder_path.
  destruct (folder_names_loop (folder_fuel tree) tree [] [] (Some id)) as [r|] eqn:E.
  - apply folder_names_loop_sound in E; [|set_solver]. destruct r as [names|e]; [|done].
    destruct E as (l & ? & ->). by exists l.
  - exfalso. refine (folder_names_loop_total tree _ [] [] _ _ _ _ E); [constructor|set_solver|].
    unfold folder_fuel. simpl. lia.
Qed.

Lemma folder_path_ok_chain tree o p :
  folder_path tree o = Ok p ->
  exists l, folder_chain tree o l /\ p = "/" +:+ join "/" (rev (wf_name <$> l)).
Proof.
  destruct o as [id|]; intros H.
  - pose proof (folder_path_cases tree id) as Hc. by rewrite H in Hc.
  - vm_compute in H. simplify_eq. exists []. split; [constructor|done].
Qed.

(** ** Lemmas: parsing printed paths *)

Lemma folder_name_ok_spec name :
  folder_name_ok name = true ->
  is_empty name = false /\ (trim name =s name) = true /\ (name =s ".") = false /\
  (name =s "..") = false /\ contains_char slash name = false /\ any_control name = false.
Proof. unfold folder_name_ok. intros. bool_hyps. done. Qed.

Lemma path_parts_loop_names parts names :
  Forall (fun n => folder_name_ok n = true) names ->
  path_parts_loop parts names = Ok (parts ++ names).
Proof.
  intros H. revert parts. induction H as [|n names Hn _ IH]; intros parts; simpl.
  - by rewrite app_nil_r.
  - apply folder_name_ok_spec in Hn as (He & Ht & Hd & Hdd & _ & Hc).
    rewrite Ht, Hd, Hdd, Hc. destruct n as [|a n]; [done|]. simpl.
    rewrite IH. by rewrite <- app_assoc.
Qed.

Lemma Forall_no_slash names :
  Forall (fun n => folder_name_ok n = true) names ->
  Forall (fun n => contains_char slash n = false) names.
Proof. intros H. eapply Forall_impl; [exact H|]. intros n Hn%folder_name_ok_spec. naive_solver. Qed.

(** An absolute path printed from valid names parses back to them, whatever the cwd. *)
Lemma path_components_abs tree names cwd :
  Forall (fun n => folder_name_ok n = true) names ->
  path_components tree ("/" +:+ join "/" names) cwd = Ok names.
Proof.
  intros Hn. unfold path_components.
  change ("/" +:+ join "/" names) with (String "/" (join "/" names)).
  rewrite trim_slash_nonempty, starts_with_char_cons. simpl.
  destruct names as [|n names]; [done|].
  unfold slash. rewrite split_on_join; [|done|by apply Forall_no_slash].
  by apply path_parts_loop_names.
Qed.

Lemma filter_unique {A} (p : A -> bool) (l : list A) x :
  NoDup l -> x ∈ l -> p x = true -> (forall y, y ∈ l -> p y = true -> y = x) ->
  List.filter p l = [x].
Proof.
  induction 1 as [|y l Hy Hnd IH]; [by intros ?%elem_of_nil|].
  intros Hx Hpx Huniq. simpl. destruct (p y) eqn:Hpy.
  - assert (y = x) as -> by (apply Huniq; [set_solver|done]).
    f_equal.
    clear IH Hx. induction l as [|z l IHl]; [done|]. simpl.
    destruct (p z) eqn:Hz.
    + exfalso. apply Hy. assert (z = x) as -> by (apply Huniq; [set_solver|done]). set_solver.
    + apply IHl; [set_solver|by inversion Hnd|set_solver].
  - apply IH; [|done|set_solver]. apply elem_of_cons in Hx as [->|?]; [congruence|done].
Qed.

Section well_formed.
Context (tree : WorkloadTree) (Hwf : well_formed_tree tree).

Lemma folders_NoDup : NoDup (wt_folders tree).
Proof using Hwf. eapply NoDup_fmap_1, (wft_ids _ Hwf). Qed.

Lemma chain_names_ok o l :
  folder_chain tree o l -> Forall (fun n => folder_name_ok n = true) (rev (wf_name <$> l)).
Proof using Hwf.
  intros Hc. apply List.Forall_rev, Forall_fmap, Forall_forall.
  intros f Hf. apply (wft_names _ Hwf). by eapply folder_chain_elem.
Qed.

(** Descending along the names of a chain reaches the folder the chain starts from. *)
Lemma resolve_names_chain path o l rest :
  folder_chain tree o l ->
  resolve_names tree path None (rev (wf_name <$> l) ++ rest) = resolve_names tree path o rest.
Proof using Hwf.
  intros Hc. revert rest. induction Hc as [|id f l Hf Hl IH]; intros rest; [done|].
  rewrite fmap_cons. simpl. rewrite <- app_assoc. simpl. rewrite IH. simpl.
  apply find_folder_some in Hf as [Hin Hid].
  rewrite (filter_unique _ _ f); [by rewrite Hid|apply folders_NoDup|done| |].
  - unfold opt_str_eqb. by rewrite bool_decide_eq_true_2, str_eqb_refl by done.
  - intros g Hg H. bool_hyps. unfold opt_str_eqb in *.
    apply (wft_siblings _ Hwf); [done|done|by eapply bool_decide_eq_true_1|by apply str_eqb_eq].
Qed.

Lemma no_folder_is_path s : find_folder tree (String "/" s) = None.
Proof using Hwf.
  apply find_none_iff, Forall_forall. intros f Hf. apply str_eqb_neq. intros Heq.
  pose proof (wft_id_syntax _ Hwf f Hf) as Hs. rewrite Heq in Hs.
  by rewrite starts_with_char_cons in Hs.
Qed.

(** Looking a printed path up gives the folder it was printed for. *)
Lemma resolve_printed_path o l cwd :
  folder_chain tree o l ->
  resolve_folder_path tree ("/" +:+ join "/" (rev (wf_name <$> l))) cwd = Ok o.
Proof using Hwf.
  intros Hc. unfold resolve_folder_path.
  change ("/" +:+ join "/" (rev (wf_name <$> l)))
    with (String "/" (join "/" (rev (wf_name <$> l)))) at 1.
  rewrite no_folder_is_path, path_components_abs by (by eapply chain_names_ok). simpl.
  pose proof (resolve_names_chain ("/" +:+ join "/" (rev (wf_name <$> l))) _ _ [] Hc) as H.
  by rewrite app_nil_r in H.
Qed.

Lemma folder_path_inj a b p :
  folder_path tree a = Ok p -> folder_path tree b = Ok p -> a = b.
Proof using Hwf.
  intros (la & Ha & ->)%folder_path_ok_chain (lb & Hb & Heq)%folder_path_ok_chain.
  pose proof (resolve_printed_path a la None Ha) as Hra.
  pose proof (resolve_printed_path b lb None Hb) as Hrb.
  rewrite <- Heq in Hrb. congruence.
Qed.
End well_formed.

(** ** Lemmas: paths through two folders of one name *)

Section ambiguous.
Context (tree : WorkloadTree).

Definition ambiguous : ProtocolError :=
  protocol_error "folder_ambiguous" "duplicate folder name; use its ID".

(** Descending along a chain reaches its folder or stops where a name is ambiguous. *)
Lemma resolve_names_reaches path o l rest :
  folder_chain tree o l ->
  resolve_names tree path None (rev (wf_name <$> l) ++ rest) = resolve_names tree path o rest
  \/ resolve_names tree path None (rev (wf_name <$> l) ++ rest) = Err ambiguous.
Proof.
  intros Hc. revert rest. induction Hc as [|id f l Hf Hl IH]; intros rest; [by left|].
  rewrite fmap_cons. simpl. rewrite <- app_assoc. simpl.
  destruct (IH (wf_name f :: rest)) as [-> | ->]; [|by right]. simpl.
  apply find_folder_some in Hf as [Hin <-].
  destruct (List.filter _ _) as [|x [|y ys]] eqn:Hfl; [|left|by right].
  - exfalso. apply (elem_of_nil f). rewrite <- Hfl. apply filter_elem. split; [done|].
    unfold opt_str_eqb. by rewrite bool_decide_eq_true_2, str_eqb_refl by done.
  - assert (f ∈ [x]) as ->%list_elem_of_singleton; [|done].
    rewrite <- Hfl. apply filter_elem. split; [done|].
    unfold opt_str_eqb. by rewrite bool_decide_eq_true_2, str_eqb_refl by done.
Qed.

(** A path that ends in a name two folders of its parent have. *)
Lemma resolve_names_ambiguous path f g l :
  folder_chain tree (wf_parent_id f) l -> f ∈ wt_folders tree -> g ∈ wt_folders tree ->
  f <> g -> wf_parent_id f = wf_parent_id g -> wf_name f = wf_name g ->
  resolve_names tree path None (rev (wf_name <$> f :: l)) = Err ambiguous.
Proof.
  intros Hc Hf Hg Hne Hp Hn. rewrite fmap_cons. simpl.
  destruct (resolve_names_reaches path _ _ [wf_name f] Hc) as [-> |]; [|done]. simpl.
  set (p := fun h => opt_str_eqb (wf_parent_id h) (wf_parent_id f) && (wf_name h =s wf_name f)).
  assert (forall h, h ∈ wt_folders tree -> wf_parent_id h = wf_parent_id f -> wf_name h = wf_name f ->
    h ∈ List.filter p (wt_folders tree)) as Hin.
  { intros h Hh Hhp Hhn. apply filter_elem. split; [done|]. unfold p, opt_str_eqb.
    by rewrite Hhp, Hhn, bool_decide_eq_true_2, str_eqb_refl. }
  specialize (Hin f Hf eq_refl eq_refl) as Hinf. specialize (Hin g Hg (eq_sym Hp) (eq_sym Hn)).
  destruct (List.filter p _) as [|x [|y ys]]; [by apply elem_of_nil in Hinf| |done].
  apply list_elem_of_singleton in Hinf, Hin. congruence.
Qed.
End ambiguous.

(** ** Lemmas: targets *)

Lemma label_ok_folder_name name :
  validate_workload_label name = Ok tt -> folder_name_ok name = true.
Proof.
  unfold validate_workload_label, folder_name_ok. case_match eqn:E; [done|]. intros _.
  bool_hyps. repeat match goal with H : _ = _ |- _ => rewrite H; clear H end. done.
Qed.

Lemma last_piece_abs names name :
  Forall (fun n => folder_name_ok n = true) (names ++ [name]) ->
  last_piece ("/" +:+ join "/" (names ++ [name])) = name.
Proof.
  intros Hn. unfold last_piece.
  change ("/" +:+ join "/" (names ++ [name])) with (String slash (join "/" (names ++ [name]))).
  simpl. rewrite split_on_join.
  - change ("" :: names ++ [name]) with (("" :: names) ++ [name]). by rewrite last_snoc.
  - by destruct names.
  - by apply Forall_no_slash.
Qed.

Lemma ends_with_slash_abs names name :
  Forall (fun n => folder_name_ok n = true) (names ++ [name]) ->
  ends_with_char slash ("/" +:+ join "/" (names ++ [name])) = false.
Proof.
  intros Hn. apply Forall_app in Hn as [_ Hm].
  apply Forall_cons_1 in Hm as [(He & _ & _ & _ & Hs & _)%folder_name_ok_spec _].
  assert (name <> "") as Hne by (intros ->; done).
  destruct names as [|a ns].
  - change ("/" +:+ join "/" ([] ++ [name])) with ("/" +:+ name).
    rewrite ends_with_char_app by done. by apply ends_with_no_char.
  - rewrite join_snoc by done. rewrite !str_app_assoc.
    rewrite ends_with_char_app by done. by apply ends_with_no_char.
Qed.

(** The printed path of a workload is the absolute path of its folder's names and its own. *)
Lemma workload_path_names names name :
  Forall (fun n => folder_name_ok n = true) names ->
  trim_end_matches slash ("/" +:+ join "/" names) +:+ "/" +:+ name
  = "/" +:+ join "/" (names ++ [name]).
Proof.
  intros Hn. destruct names as [|n names]; [done|].
  destruct (exists_last (l := n :: names)) as (ns & m & Heq); [done|].
  rewrite Heq in *. rewrite trim_end_matches_id by (by apply ends_with_slash_abs).
  rewrite (join_snoc _ (ns ++ [m])) by (by destruct ns). by rewrite !str_app_assoc.
Qed.

(** ** Checking well-formedness *)

Lemma NoDup_fmap_inj_elem {A B} (f : A -> B) (l : list A) x y :
  NoDup (f <$> l) -> x ∈ l -> y ∈ l -> f x = f y -> x = y.
Proof.
  induction l as [|z l IH]; [by intros _ ?%elem_of_nil|]. rewrite fmap_cons.
  intros [Hz Hnd]%NoDup_cons [->|Hx]%elem_of_cons [->|Hy]%elem_of_cons Heq; [done| | |auto].
  - destruct Hz. rewrite Heq. by apply list_elem_of_fmap_2.
  - destruct Hz. rewrite <- Heq. by apply list_elem_of_fmap_2.
Qed.

Lemma well_formed_treeb_sound tree : well_formed_treeb tree = true -> well_formed_tree tree.
Proof.
  unfold well_formed_treeb. intros H. bool_hyps.
  apply bool_decide_eq_true_1 in H as Hids. constructor; [done| | |].
  - intros f g Hf Hg Hp Hn. eapply NoDup_fmap_inj_elem; [exact Hids|done|done|].
    rewrite forallb_elem in H2. specialize (H2 f Hf). rewrite forallb_elem in H2.
    specialize (H2 g Hg). unfold opt_str_eqb in H2.
    rewrite bool_decide_eq_true_2 in H2 by done. rewrite Hn, str_eqb_refl in H2. simpl in H2.
    by apply str_eqb_eq.
  - by apply forallb_elem.
  - intros f Hf. rewrite forallb_elem in H0. by apply negb_true_iff, H0.
Qed.

Example sample_targets :
  resolve_target sample_tree sample_rows (Some "ag_c") <$>
    ["reviewer"; "./reviewer"; "/b/reviewer"; "../b/reviewer"; "sub/ui"; "./sub/../reviewer";
     "ag_b"; "app_sub"; "self"; "."]
  = Ok <$> ["ag_a"; "ag_a"; "ag_b"; "ag_b"; "app_sub"; "ag_a"; "ag_b"; "app_sub"; "ag_c"; "ag_c"].
Proof. reflexivity. Qed.

Lemma sample_well_formed : well_formed_tree sample_tree.
Proof. apply well_formed_treeb_sound. reflexivity. Qed.

(** ** Properties *)

(** C37: [folder_path] always returns, and each outcome means what it says: [Ok] the names met
    on the walk to the root, [folder_not_found] that the walk reaches a missing folder,
    [invalid_workload_tree] that the walk enters a cycle of parents. *)
Theorem folder_path_outcomes tree id :
  folder_names_loop (folder_fuel tree) tree [] [] (Some id) <> None /\
  match folder_path tree (Some id) with
  | Ok p => exists l, folder_chain tree (Some id) l /\ p = "/" +:+ join "/" (rev (wf_name <$> l))
  | Err e =>
      (e = err_folder_gone /\ exists id', rtc (parent_step tree) id id' /\ find_folder tree id' = None)
      \/ (e = err_cycle /\ exists id', rtc (parent_step tree) id id' /\ tc (parent_step tree) id' id')
  end.
Proof.
  split; [|apply folder_path_cases].
  apply folder_names_loop_total; [constructor|set_solver|]. unfold folder_fuel. simpl. lia.
Qed.

(** C35: in a well-formed tree, resolving the path printed for a folder (or for the root) gives
    that folder back, from any working folder; so two folders never share a path. *)
Theorem folder_path_roundtrip tree id cwd p :
  well_formed_tree tree -> folder_path tree id = Ok p -> resolve_folder_path tree p cwd = Ok id.
Proof.
  intros Hwf (l & Hc & ->)%folder_path_ok_chain. by apply resolve_printed_path.
Qed.

Lemma folder_path_roundtrip_witness :
  resolve_folder_path sample_tree "/a/sub" (Some "b") = Ok (Some "sub").
Proof.
  apply (folder_path_roundtrip sample_tree (Some "sub") (Some "b") "/a/sub");
    [exact sample_well_formed|reflexivity].
Defined.

(** In a well-formed tree, the printed path of a listed workload resolves to its ID for
    every caller, if its label is valid and no other listed workload of its folder has it. *)
Theorem workload_path_roundtrip tree rows caller r p :
  well_formed_tree tree -> NoDup rows -> r ∈ rows ->
  (forall r', r' ∈ rows -> contains_char slash (tgt_id r') = false) ->
  (forall r', r' ∈ rows -> tgt_name r' = tgt_name r ->
     containing_folder tree (tgt_id r') = containing_folder tree (tgt_id r) -> r' = r) ->
  validate_workload_label (tgt_name r) = Ok tt ->
  workload_path tree (tgt_id r) (tgt_name r) = Ok p ->
  resolve_target tree rows caller p = Ok (tgt_id r).
Proof.
  intros Hwf Hnd Hr Hids Huniq Hlabel%label_ok_folder_name Hpath.
  unfold workload_path in Hpath. inv_bind Hpath. simplify_eq.
  apply folder_path_ok_chain in E as (l & Hc & ->).
  pose proof (chain_names_ok _ Hwf _ _ Hc) as Hnames.
  rewrite workload_path_names by done.
  assert (Forall (fun n => folder_name_ok n = true) (rev (wf_name <$> l) ++ [tgt_name r])) as Hall.
  { apply Forall_app. by repeat constructor. }
  set (target := "/" +:+ join "/" (rev (wf_name <$> l) ++ [tgt_name r])).
  assert (contains_char slash target = true) as Hslash by done.
  unfold resolve_target.
  change ((target =s "self") || (target =s ".")) with false.
  change (starts_with "ag_" target || starts_with "app_" target) with false. cbn iota.
  replace (existsb (fun r0 => tgt_id r0 =s target) rows) with false.
  2: { symmetry. apply not_true_iff_false. intros (r' & Hr' & Heq%str_eqb_eq)%existsb_elem.
       specialize (Hids r' Hr'). congruence. }
  cbn [orb]. unfold target_folder_name. rewrite Hslash. unfold target at 1 2 3.
  rewrite ends_with_slash_abs, last_piece_abs by done.
  apply folder_name_ok_spec in Hlabel as (_ & _ & -> & -> & _ & _). cbn [orb].
  unfold target at 1. rewrite path_components_abs by done. cbn [result_bind].
  rewrite last_snoc, take_app_length' by (rewrite length_app; simpl; lia).
  rewrite (resolve_printed_path tree Hwf _ _ None Hc). cbn [result_bind].
  rewrite (filter_unique _ _ r); [done|done|done| |].
  - unfold opt_str_eqb. by rewrite str_eqb_refl, bool_decide_eq_true_2.
  - intros r' Hr' H. bool_hyps. apply Huniq; [done|by apply str_eqb_eq|].
    by eapply bool_decide_eq_true_1.
Qed.

Lemma workload_path_roundtrip_witness :
  resolve_target sample_tree sample_rows (Some "ag_b") "/a/sub/ui" = Ok "app_sub".
Proof.
  apply (workload_path_roundtrip sample_tree sample_rows (Some "ag_b")
           (mkWorkloadTarget "app_sub" "ui") "/a/sub/ui");
    [exact sample_well_formed|..|reflexivity|reflexivity].
  - repeat constructor; set_solver.
  - set_solver.
  - intros r' Hr'. repeat (apply elem_of_cons in Hr' as [->|Hr']; [done|]).
    by apply elem_of_nil in Hr'.
  - intros r' Hr' Hn _. repeat (apply elem_of_cons in Hr' as [->|Hr']; [done|]).
    by apply elem_of_nil in Hr'.
Defined.

(** A bare name (no slash, not [self], not an ID) only ever resolves to a workload of that
    name in the caller's own folder. *)
Theorem bare_name_stays_in_folder tree rows caller target id :
  contains_char slash target = false -> target <> "self" -> target <> "." ->
  starts_with "ag_" target = false -> starts_with "app_" target = false ->
  (forall r, r ∈ rows -> tgt_id r <> target) ->
  resolve_target tree rows caller target = Ok id ->
  exists r, r ∈ rows /\ tgt_id r = id /\ tgt_name r = target /\
    containing_folder tree id = (c ← caller; containing_folder tree c).
Proof.
  intros Hs Hself%str_eqb_neq Hdot%str_eqb_neq Hag Happ Hids.
  unfold resolve_target. rewrite Hself, Hdot, Hag, Happ. cbn [orb].
  replace (existsb (fun r => tgt_id r =s target) rows) with false.
  2: { symmetry. apply not_true_iff_false. intros (r' & Hr' & Heq%str_eqb_eq)%existsb_elem.
       by apply (Hids r'). }
  unfold target_folder_name. rewrite Hs. cbn [result_bind].
  destruct (List.filter _ rows) as [|r [|r2 rs]] eqn:E; [|intros [= <-]|done].
  - intros H. inv_bind H. done.
  - assert (In r (List.filter (fun r0 => (tgt_name r0 =s target) &&
      opt_str_eqb (containing_folder tree (tgt_id r0))
        match caller with Some id => containing_folder tree id | None => None end) rows)) as Hin
      by (rewrite E; by left).
    apply filter_In in Hin as [Hin%list_elem_of_In Hp]. bool_hyps.
    exists r. split_and!; [done|done|by apply str_eqb_eq|].
    unfold opt_str_eqb in *. eapply bool_decide_eq_true_1 in H0 as ->. by destruct caller.
Qed.

Lemma bare_name_stays_in_folder_witness :
  exists r, r ∈ sample_rows /\ tgt_id r = "ag_a" /\ tgt_name r = "reviewer" /\
    containing_folder sample_tree "ag_a" = Some "a".
Proof.
  apply (bare_name_stays_in_folder sample_tree sample_rows (Some "ag_c") "reviewer" "ag_a");
    [reflexivity|done|done|reflexivity|reflexivity| |reflexivity].
  intros r' Hr'. repeat (apply elem_of_cons in Hr' as [->|Hr']; [done|]).
  by apply elem_of_nil in Hr'.
Defined.
