(* ===== verification/PolicyRequest.v ===== *)
(** * Policy requests and decisions (crates/treer-proxy/src/policy.rs)

    The request a governed operation is turned into, the decision vocabulary of the
    evaluators, and the explanation a compiled policy gives. *)

From S2P Require Import Prelude RustStr Protocol.
From stdpp Require Import pretty.

Definition ACTION_NETWORK_CONNECT : string := "network.connect".
Definition ACTION_WORKSPACE_AUDIT_READ : string := "workspace.audit.read".
Definition RESOURCE_NETWORK_ENDPOINT : string := "network.endpoint".
Definition RESOURCE_AGENT : string := "agent".
Definition RESOURCE_MACHINE : string := "machine".
Definition RESOURCE_MESSAGE_MAILBOX : string := "message.mailbox".

Inductive PolicySubject : Type :=
| SubjAgent (server_id agent_id : string)
| SubjMachine (server_id : string)
| SubjHuman (user_id : string)
| SubjService (service_id : string).

Record PolicyResource : Type := mkPolicyResource {
  res_kind : string;
  res_id : string;
  res_attributes : gmap string string
}.

Definition resource_new (kind id : string) : PolicyResource := mkPolicyResource kind id ∅.

Definition with_attribute (r : PolicyResource) (key value : string) : PolicyResource :=
  mkPolicyResource (res_kind r) (res_id r) (<[key := value]> (res_attributes r)).

Record PolicyRequest : Type := mkPolicyRequest {
  req_workspace_id : string;
  req_subject : PolicySubject;
  req_action : string;
  req_resource : PolicyResource;
  req_subject_tree : option PolicyTreeContext;
  req_resource_tree : option PolicyTreeContext;
  req_tree_revision : option Z
}.

Definition request_new (workspace_id : string) (subject : PolicySubject) (action : string)
    (resource : PolicyResource) : PolicyRequest :=
  mkPolicyRequest workspace_id subject action resource None None None.

Definition network_connect (workspace_id source_server_id : string)
    (source_agent_id : option string) (destination_server_id : string)
    (destination_agent_id : option string) (host : string) (port : Z) : PolicyRequest :=
  let attributes : gmap string string := {["destination_server_id" := destination_server_id]} in
  let attributes :=
    match destination_agent_id with
    | Some agent_id => <["destination_agent_id" := agent_id]> attributes
    | None => attributes
    end in
  let attributes := <["port" := pretty port]> (<["host" := host]> attributes) in
  let subject :=
    match source_agent_id with
    | None => SubjMachine source_server_id
    | Some agent_id => SubjAgent source_server_id agent_id
    end in
  request_new workspace_id subject ACTION_NETWORK_CONNECT
    (mkPolicyResource RESOURCE_NETWORK_ENDPOINT
       (destination_server_id +:+ ":" +:+ host +:+ ":" +:+ pretty port) attributes).

Record PolicyDenial : Type := mkPolicyDenial {
  den_code : string;
  den_message : string
}.

Definition denial_into_error (d : PolicyDenial) : ProtocolError :=
  protocol_error (den_code d) (den_message d).

Inductive PolicyDecision : Type :=
| DecAllow
| DecDeny (denial : PolicyDenial).

Inductive PolicyEvaluation : Type :=
| Abstain
| Decide (decision : PolicyDecision).

Inductive PolicyRevision : Type :=
| Unrevisioned
| Known (revision : Z)
| Unavailable.

Record PolicyBatchAuthorization : Type := mkPolicyBatchAuthorization {
  pba_revision : option Z
}.

Record PolicyBatchDenial : Type := mkPolicyBatchDenial {
  pbd_request_index : nat;
  pbd_error : ProtocolError
}.

Record PolicyExplanation : Type := mkPolicyExplanation {
  exp_computed_effect : PolicyEffect;
  exp_effective_decision : PolicyEffect;
  exp_mode : PolicyMode;
  exp_matched_rule_id : option string;
  exp_reason : string;
  exp_policy_revision : Z;
  exp_tree_revision : option Z;
  exp_source : string
}.

Definition policy_denied : PolicyDenial :=
  mkPolicyDenial "policy_denied" "workspace policy denied this operation".

(** [PolicyExplanation::into_decision] *)
Definition into_decision (e : PolicyExplanation) : PolicyDecision :=
  match exp_effective_decision e with
  | Allow => DecAllow
  | Deny => DecDeny policy_denied
  end.

(** [PolicyExplanation::baseline] *)
Definition explanation_baseline (decision : PolicyDecision) (tree_revision : option Z)
    : PolicyExplanation :=
  let effect := match decision with DecAllow => Allow | DecDeny _ => Deny end in
  mkPolicyExplanation effect effect Monitor None "Core fallback" 0 tree_revision "baseline".

(** [PolicyDecision::into_result] *)
Definition into_result (d : PolicyDecision) : Result unit ProtocolError :=
  match d with
  | DecAllow => Ok tt
  | DecDeny denial => Err (denial_into_error denial)
  end.

(** [subject_parts]: kind, ID and machine of a subject. *)
Definition subject_parts (s : PolicySubject) : PolicyPrincipalKind * string * string :=
  match s with
  | SubjAgent server_id agent_id => (KAgent, agent_id, server_id)
  | SubjMachine server_id => (KMachine, server_id, server_id)
  | SubjHuman user_id => (KHuman, user_id, "")
  | SubjService service_id => (KService, service_id, "")
  end.

(** [resource_principal]: the principal a resource is, when it is one. *)
Definition resource_principal (r : PolicyResource) : option (PolicyPrincipalKind * string) :=
  if res_kind r =s RESOURCE_AGENT then Some (KAgent, res_id r)
  else if res_kind r =s RESOURCE_MACHINE then Some (KMachine, res_id r)
  else if res_kind r =s RESOURCE_MESSAGE_MAILBOX then
    match res_attributes r !! "principal_kind" with
    | None => None
    | Some k =>
        if k =s "agent" then Some (KAgent, res_id r)
        else if k =s "human" then Some (KHuman, res_id r)
        else if k =s "machine" then Some (KMachine, res_id r)
        else if k =s "service" then Some (KService, res_id r)
        else None
    end
  else None.

(** [sensitive_read_baseline] *)
Definition sensitive_read_baseline (allowed : bool) : Result unit ProtocolError :=
  if allowed then Ok tt
  else Err (protocol_error "policy_denied"
              "workspace audit requires an owner or an explicit enforced allow rule").
