(* ===== verification/PolicyPath.v ===== *)
(** * Tree matching in Policy rules (crates/treer-proxy/src/policy_path_match.rs) *)

From S2P Require Import Prelude RustStr Protocol WorkloadTree PolicyRequest.

(** ** Paths *)

(** [path] lies strictly below [parent]. *)
Definition below (parent path : string) : bool :=
  negb (path =s parent)
  && ((parent =s "/")
      || is_some_and (strip_prefix parent path) (starts_with "/")).

(** The non-empty components of a path. *)
Definition components (path : string) : list string :=
  List.filter (fun p => negb (is_empty p)) (split_on slash path).

(** The [for] loop of [glob]; [None] falls through to the length comparison. *)
Fixpoint glob_loop (actual : list string) (i : nat) (parts : list string) : option bool :=
  match parts with
  | [] => None
  | part :: rest =>
      if part =s "**" then Some true
      else if is_none_or (actual !! i) (fun v => negb (part =s "*") && negb (v =s part))
      then Some false
      else glob_loop actual (S i) rest
  end.

Definition glob (pattern path : string) : bool :=
  let parts := components pattern in
  let actual := components path in
  match glob_loop actual 0 parts with
  | Some b => b
  | None => Nat.eqb (length parts) (length actual)
  end.

(** ** Selectors *)

Definition selector_matches (selector : option PolicyTreeSelector)
    (context : option PolicyTreeContext) : bool :=
  match selector with
  | None => true
  | Some sel =>
      match opt_filter tc_placed context with
      | None => false
      | Some ctx =>
          is_none_or (ts_kind sel) (fun v => v =s tc_kind ctx)
          && is_none_or (ts_name sel) (fun v => v =s tc_name ctx)
          && is_none_or (ts_folder_id sel) (fun v => opt_str_eqb (tc_folder_id ctx) (Some v))
          && is_none_or (ts_path_eq sel) (fun v => v =s tc_path ctx)
          && is_none_or (ts_path_glob sel) (fun v => glob v (tc_path ctx))
          && is_none_or (ts_path_prefix sel) (fun v =>
               (pp_include_self v && (pp_path v =s tc_path ctx)) || below (pp_path v) (tc_path ctx))
      end
  end.

(** ** Conditions *)

Definition below_context (target : PolicyTreeContext) (id : option string) (path : string)
    (strict : bool) : bool :=
  match id with
  | Some id =>
      (existsb (fun a => a =s id) (tc_ancestor_ids target)
       || ((tc_kind target =s "folder") && (tc_node_id target =s id)))
      && (negb strict
          || (negb (opt_str_eqb (tc_folder_id target) (Some id))
              && negb ((tc_kind target =s "folder") && (tc_node_id target =s id))))
  | None => (path =s "/") && (negb strict || negb (tc_folder_path target =s "/"))
  end.

(** The branches of [folder_matches] for a reference that is not a variable. *)
Definition folder_value_matches (reference : PolicyFolderRef) (request : PolicyRequest)
    (target : PolicyTreeContext) (strict : bool) : bool :=
  match reference with
  | RefVariable _ => false
  | RefField field =>
      let context := match field with
                     | FieldSubject => req_subject_tree request
                     | FieldResource => req_resource_tree request
                     end in
      is_some_and context (fun c =>
        tc_placed c && below_context target (tc_folder_id c) (tc_folder_path c) strict)
  | RefId id => below_context target (Some id) "" strict
  | RefPath path =>
      let is_folder := (tc_kind target =s "folder") && (tc_path target =s path) in
      (existsb (fun p => p =s path) (tc_ancestor_paths target) || is_folder)
      && (negb strict || (negb (tc_folder_path target =s path) && negb is_folder))
  end.

(** [folder_matches]: a variable is looked up once; a variable bound to a variable matches
    nothing. *)
Definition folder_matches (reference : PolicyFolderRef) (rule : WorkspacePolicyRule)
    (request : PolicyRequest) (target : PolicyTreeContext) (strict : bool) : bool :=
  match reference with
  | RefVariable var =>
      is_some_and (rule_bindings rule !! var) (fun value =>
        match value with
        | RefVariable _ => false
        | _ => folder_value_matches value request target strict
        end)
  | _ => folder_value_matches reference request target strict
  end.

Definition condition_matches (rule : WorkspacePolicyRule) (request : PolicyRequest)
    (condition : PolicyTreeCondition) : bool :=
  match opt_filter tc_placed (req_resource_tree request) with
  | None => false
  | Some target =>
      match condition with
      | SameFolder =>
          is_some_and (req_subject_tree request) (fun subject =>
            tc_placed subject && opt_str_eqb (tc_folder_id subject) (tc_folder_id target))
      | ResourceBelowSubjectFolder strict =>
          is_some_and (req_subject_tree request) (fun subject =>
            tc_placed subject
            && below_context target (tc_folder_id subject) (tc_folder_path subject) strict)
      | ResourceBelowFolder folder strict => folder_matches folder rule request target strict
      end
  end.

Definition conditions_match (rule : WorkspacePolicyRule) (request : PolicyRequest) : bool :=
  forallb (condition_matches rule request) (rule_conditions rule).

(** ** Specifications *)

(** What a glob means: [*] is one component, [**] any remaining components, anything else
    itself. *)
Inductive glob_spec : list string -> list string -> Prop :=
| glob_spec_end : glob_spec [] []
| glob_spec_globstar rest actual : glob_spec ("**" :: rest) actual
| glob_spec_star part rest a actual :
    part = "*" -> glob_spec rest actual -> glob_spec (part :: rest) (a :: actual)
| glob_spec_literal part rest actual :
    part <> "**" -> glob_spec rest actual -> glob_spec (part :: rest) (part :: actual).

(** The canonical absolute path of a list of names. *)
Definition abs_path (names : list string) : string := "/" +:+ join "/" names.
(** What a component must be for a path to be split back into its components. *)
Definition component_ok (n : string) : bool :=
  negb (is_empty n) && negb (contains_char slash n).
Definition names_ok (names : list string) : Prop :=
  Forall (fun n => component_ok n = true) names.

(** ** Lemmas *)

Lemma glob_spec_nil_inv actual : glob_spec [] actual -> actual = [].
Proof. by inversion 1. Qed.

Lemma glob_loop_spec actual i parts :
  i <= length actual ->
  (match glob_loop actual i parts with
   | Some b => b
   | None => Nat.eqb (i + length parts) (length actual)
   end) = true <-> glob_spec parts (drop i actual).
Proof.
  revert i. induction parts as [|part rest IH]; intros i Hi; simpl.
  - rewrite Nat.eqb_eq, Nat.add_0_r. split.
    + intros ->. rewrite drop_all. constructor.
    + intros Hd%glob_spec_nil_inv. apply (f_equal length) in Hd.
      rewrite length_drop in Hd. simpl in Hd. lia.
  - destruct (part =s "**") eqn:Hss.
    { apply str_eqb_eq in Hss as ->. split; [constructor|done]. }
    apply str_eqb_neq in Hss.
    destruct (actual !! i) as [v|] eqn:Hv; simpl.
    + rewrite (drop_S _ _ _ Hv). apply lookup_lt_Some in Hv.
      destruct (part =s "*") eqn:Hstar; simpl.
      * apply str_eqb_eq in Hstar as ->. rewrite <- Nat.add_succ_comm, IH by lia. split.
        -- by constructor.
        -- inversion 1; by simplify_eq.
      * apply str_eqb_neq in Hstar. destruct (v =s part) eqn:Hvp; simpl.
        -- apply str_eqb_eq in Hvp as ->. rewrite <- Nat.add_succ_comm, IH by lia. split.
           ++ by constructor.
           ++ inversion 1; by simplify_eq.
        -- apply str_eqb_neq in Hvp. split; [done|]. inversion 1; by simplify_eq.
    + apply lookup_ge_None in Hv. rewrite drop_ge by done. split; [done|].
      inversion 1; by simplify_eq.
Qed.

Lemma component_ok_spec n :
  component_ok n = true -> is_empty n = false /\ contains_char slash n = false.
Proof. unfold component_ok. intros. bool_hyps. done. Qed.

Lemma names_ok_no_slash names :
  names_ok names -> Forall (fun n => contains_char slash n = false) names.
Proof. intros H. eapply Forall_impl; [exact H|]. by intros n [_ ?]%component_ok_spec. Qed.

Lemma components_abs names : names_ok names -> components (abs_path names) = names.
Proof.
  intros Hn. unfold components, abs_path.
  change ("/" +:+ join "/" names) with (String slash (join "/" names)). simpl.
  destruct names as [|n names]; [done|].
  rewrite split_on_join by (done || by apply names_ok_no_slash).
  induction Hn as [|m ms Hm _ IH]; [done|]. simpl.
  apply component_ok_spec in Hm as (-> & _). simpl. f_equal.
  destruct ms; [done|]. apply IH.
Qed.

Lemma abs_path_inj ns ms : names_ok ns -> names_ok ms -> abs_path ns = abs_path ms -> ns = ms.
Proof.
  intros Hn Hm Heq. rewrite <- (components_abs ns), <- (components_abs ms) by done.
  by rewrite Heq.
Qed.

Lemma abs_path_app ns rest :
  ns <> [] -> rest <> [] -> abs_path (ns ++ rest) = abs_path ns +:+ abs_path rest.
Proof.
  intros Hns Hrest. unfold abs_path.
  induction ns as [|n ns IH]; [done|].
  destruct ns as [|m ns].
  - change ([n] ++ rest) with (n :: rest). rewrite join_cons by done.
    change (join "/" [n]) with n. by rewrite !str_app_assoc.
  - change ((n :: m :: ns) ++ rest) with (n :: ((m :: ns) ++ rest)).
    rewrite join_cons by done. rewrite (join_cons _ n (m :: ns)) by done.
    specialize (IH ltac:(done)). rewrite !str_app_assoc in IH.
    rewrite !str_app_assoc. rewrite <- (str_app_assoc _ "/" (join "/" ((m :: ns) ++ rest))).
    rewrite IH. by rewrite !str_app_assoc.
Qed.

Lemma below_abs ns ms :
  names_ok ns -> names_ok ms ->
  below (abs_path ns) (abs_path ms) = true <-> exists rest, rest <> [] /\ ms = ns ++ rest.
Proof.
  intros Hn Hm. unfold below. rewrite andb_true_iff, negb_true_iff, str_eqb_neq. split.
  - intros [Hne Hor].
    destruct (abs_path ns =s "/") eqn:Hroot; cbn [orb] in Hor.
    + apply str_eqb_eq in Hroot.
      assert (ns = []) as -> by (apply abs_path_inj; [done|constructor|exact Hroot]).
      exists ms. split; [|done]. intros Hms. apply Hne. by rewrite Hms.
    + destruct (strip_prefix (abs_path ns) (abs_path ms)) as [t|] eqn:Hp; [|done].
      apply strip_prefix_some in Hp. apply starts_with_iff in Hor as [t' ->].
      exists (components t'). change ("/" +:+ t') with (String slash t') in Hp.
      apply (f_equal components) in Hp. unfold components at 2 in Hp.
      rewrite split_on_app_sep, List.filter_app in Hp.
      fold (components (abs_path ns)) (components t') in Hp.
      rewrite !components_abs in Hp by done. split; [|done].
      intros Hnil. apply Hne. by rewrite Hp, Hnil, app_nil_r.
  - intros (rest & Hrest & ->). split.
    + intros Heq%abs_path_inj; [|done|done].
      apply (f_equal length) in Heq. rewrite length_app in Heq. destruct rest; simpl in *; [done|lia].
    + destruct ns as [|n ns]; [done|]. rewrite abs_path_app by done.
      replace (strip_prefix (abs_path (n :: ns)) (abs_path (n :: ns) +:+ abs_path rest))
        with (Some (abs_path rest)) by (symmetry; by apply strip_prefix_some).
      apply orb_true_r.
Qed.

(** ** Properties *)

(** [glob] decides the declarative meaning of a pattern on path components: [*] matches one
    component, [**] any rest, everything else itself, at component boundaries only. *)
Theorem glob_decides pattern path :
  glob pattern path = true <-> glob_spec (components pattern) (components path).
Proof. unfold glob. pose proof (glob_loop_spec (components path) 0 (components pattern)) as H.
  rewrite drop_0 in H. apply H. lia.
Qed.

(** On canonical paths [below] is the strict component-prefix order, so [/infra] is not
    above [/infrastructure]. *)
Theorem below_is_strict_prefix ns ms :
  names_ok ns -> names_ok ms ->
  below (abs_path ns) (abs_path ms) = true <-> exists rest, rest <> [] /\ ms = ns ++ rest.
Proof. apply below_abs. Qed.

Lemma below_is_strict_prefix_witness :
  below (abs_path ["infra"]) (abs_path ["infrastructure"; "tool"]) = true <->
  exists rest, rest <> [] /\ ["infrastructure"; "tool"] = ["infra"] ++ rest.
Proof. apply (below_is_strict_prefix ["infra"]); repeat constructor. Defined.

Example glob_source_tests :
  (fun '(p, q) => glob p q) <$>
    [("/team/*", "/team/reviewer"); ("/team/*", "/team"); ("/team/*", "/team/sub/reviewer");
     ("/infra/**", "/infra"); ("/infra/**", "/infra/sub/tool");
     ("/infra/**", "/infrastructure/tool"); ("/", "/"); ("/*", "/")]
  = [true; false; false; true; true; false; true; false].
Proof. reflexivity. Qed.
