(* ===== verification/PolicyStore.v ===== *)
(** * Policy documents: validation and the durable store
      (crates/treer-proxy/src/policy_store.rs)

    [validate_document] with its helpers, and the [workspace_policies] table with [get] and
    [replace].  JSON text, the JSONB cast and RFC 3339 parsing are third-party code: they are
    parameters of the store section. *)

From S2P Require Import Prelude RustStr Protocol WorkloadTree PolicyRequest PolicyPath.

Local Open Scope Z_scope.

Definition MAX_POLICY_DOCUMENT_BYTES : Z := 256 * 1024.
Definition MAX_POLICY_RULES : Z := 1000.

Inductive PolicyStoreError : Type :=
| StoreInvalid (code message : string)
| RevisionConflict
| StoreDatabase (error : string)
| StoreCorrupt (error : string).

Definition store_error_code (e : PolicyStoreError) : string :=
  match e with
  | StoreInvalid code _ => code
  | RevisionConflict => "policy_revision_conflict"
  | StoreDatabase _ => "database_error"
  | StoreCorrupt _ => "invalid_stored_policy"
  end.

Abbreviation Check := (Result unit PolicyStoreError).

(** ** Tokens, paths and groups *)

Definition validate_token (value field : string) : Check :=
  if is_empty value || (128 <? str_len value) || negb (trim value =s value) || any_control value
  then Err (StoreInvalid "invalid_policy_document"
              (field +:+ " must contain 1-128 visible characters without surrounding space"))
  else Ok tt.

Definition glob_component_ok (p : string) (is_last : bool) : bool :=
  negb (contains_char "?" p || contains_char "[" p || contains_char "]" p || contains_char "\" p)
  && (negb (contains_char "*" p) || (p =s "*") || ((p =s "**") && is_last)).

Definition path_component_ok (glob : bool) (n i : nat) (p : string) : bool :=
  negb (is_empty p) && (trim p =s p) && negb ((p =s ".") || (p =s ".."))
  && (negb glob || glob_component_ok p (Nat.eqb i (n - 1))).

Definition policy_path_valid (path : string) (glob : bool) : bool :=
  let parts := split_on slash (default path (strip_prefix "/" path)) in
  starts_with "/" path
  && (str_len path <=? 4096)
  && (Z.of_nat (length parts) <=? 128)
  && negb (any_control path)
  && ((path =s "/") || forallb id (imap (path_component_ok glob (length parts)) parts)).

Definition validate_policy_path (path : string) (glob : bool) : Check :=
  if policy_path_valid path glob then Ok tt
  else Err (StoreInvalid "invalid_policy_path"
              "path must be bounded, absolute and canonical; glob uses whole components and one terminal **").

Definition require_group (document : WorkspacePolicyDocument) (group selector : string) : Check :=
  match doc_groups document !! group with
  | Some _ => Ok tt
  | None => Err (StoreInvalid "unknown_policy_group"
                   ("policy " +:+ selector +:+ " references unknown group " +:+ group))
  end.

(** [if let Some(x) = o { f(x)? }] *)
Definition check_opt {A} (o : option A) (f : A -> Check) : Check :=
  match o with Some a => f a | None => Ok tt end.

(** ** Tree rules *)

Definition rule_has_tree (rule : WorkspacePolicyRule) : bool :=
  existsb (fun s => is_some (ss_tree s)) (rule_subjects rule)
  || existsb (fun s => is_some (rs_tree s)) (rule_resources rule)
  || negb (bool_decide (rule_bindings rule = ∅))
  || negb (bool_decide (length (rule_conditions rule) = 0%nat)).

(** The closure [validate_ref]. *)
Definition validate_ref (rule : WorkspacePolicyRule) (reference : PolicyFolderRef)
    (binding : bool) : Check :=
  match reference with
  | RefVariable var =>
      if binding || negb (is_some (rule_bindings rule !! var))
      then Err (StoreInvalid "invalid_policy_binding"
                  "binding chains or undeclared variables are not allowed")
      else Ok tt
  | RefField _ => Ok tt
  | RefId id => validate_token id "folder ID"
  | RefPath path => validate_policy_path path false
  end.

Definition comparator_count (selector : PolicyTreeSelector) : nat :=
  Nat.b2n (is_some (ts_path_eq selector)) + Nat.b2n (is_some (ts_path_glob selector))
  + Nat.b2n (is_some (ts_path_prefix selector)).

Definition validate_tree_selector (selector : PolicyTreeSelector) : Check :=
  if is_some_and (ts_kind selector)
       (fun k => negb ((k =s "agent") || (k =s "app") || (k =s "folder")))
  then Err (StoreInvalid "invalid_policy_tree_kind" "Tree kind must be agent, app or folder")
  else
    check_opt (ts_name selector) (fun name => validate_token name "Tree name") ;?
    check_opt (ts_folder_id selector) (fun id => validate_token id "folder ID") ;?
    (if (1 <? comparator_count selector)%nat
     then Err (StoreInvalid "invalid_policy_path" "choose one path comparator") else Ok tt) ;?
    check_opt (ts_path_eq selector) (fun path => validate_policy_path path false) ;?
    check_opt (ts_path_glob selector) (fun path => validate_policy_path path true) ;?
    check_opt (ts_path_prefix selector) (fun prefix => validate_policy_path (pp_path prefix) false).

(** [subjects.filter_map(tree).chain(resources.filter_map(tree))] *)
Definition tree_selectors (rule : WorkspacePolicyRule) : list PolicyTreeSelector :=
  omap ss_tree (rule_subjects rule) ++ omap rs_tree (rule_resources rule).

Definition validate_condition (rule : WorkspacePolicyRule) (condition : PolicyTreeCondition)
    : Check :=
  match condition with
  | ResourceBelowFolder folder _ => validate_ref rule folder false
  | _ => Ok tt
  end.

Definition validate_path_rule (schema : Z) (rule : WorkspacePolicyRule) : Check :=
  if (schema =? POLICY_SCHEMA_VERSION) && rule_has_tree rule
  then Err (StoreInvalid "unsupported_policy_schema" "Tree conditions require policy schema 2")
  else if (8 <? Z.of_nat (size (rule_bindings rule)))
          || (32 <? Z.of_nat (length (rule_conditions rule)))
  then Err (StoreInvalid "policy_expression_too_large"
              "policy rule permits at most 8 bindings and 32 conditions")
  else
    try_for_each (fun '(name, value) =>
      validate_token name "binding name" ;? validate_ref rule value true)
      (btree_iter (rule_bindings rule)) ;?
    try_for_each validate_tree_selector (tree_selectors rule) ;?
    try_for_each (validate_condition rule) (rule_conditions rule).

(** ** Documents *)

Definition validate_subject (document : WorkspacePolicyDocument)
    (subject : PolicySubjectSelector) : Check :=
  check_opt (ss_id subject) (fun id => validate_token id "policy subject ID") ;?
  check_opt (ss_machine_id subject) (fun id => validate_token id "policy machine ID") ;?
  check_opt (ss_group subject) (fun group => require_group document group "subject").

Definition validate_resource (document : WorkspacePolicyDocument)
    (resource : PolicyResourceSelector) : Check :=
  check_opt (rs_kind resource) (fun kind => validate_token kind "policy resource kind") ;?
  check_opt (rs_id resource) (fun id => validate_token id "policy resource ID") ;?
  check_opt (rs_principal_group resource) (fun group => require_group document group "resource").

(** One turn of the rule loop, after the duplicate check. *)
Definition validate_rule_body (document : WorkspacePolicyDocument) (rule : WorkspacePolicyRule)
    : Check :=
  (if bool_decide (length (rule_subjects rule) = 0%nat)
      || bool_decide (length (rule_actions rule) = 0%nat)
      || bool_decide (length (rule_resources rule) = 0%nat)
   then Err (StoreInvalid "invalid_policy_rule"
               "policy rules require subjects, actions, and resources")
   else Ok tt) ;?
  try_for_each (validate_subject document) (rule_subjects rule) ;?
  try_for_each (fun action => validate_token action "policy action") (rule_actions rule) ;?
  try_for_each (validate_resource document) (rule_resources rule).

(** The rule loop; [rule_ids] is the set of IDs already seen. *)
Fixpoint validate_rules (document : WorkspacePolicyDocument) (rule_ids : list string)
    (rules : list WorkspacePolicyRule) : Check :=
  match rules with
  | [] => Ok tt
  | rule :: rest =>
      validate_path_rule (doc_schema_version document) rule ;?
      validate_token (rule_id rule) "policy rule ID" ;?
      (if bool_decide (rule_id rule ∈ rule_ids)
       then Err (StoreInvalid "duplicate_policy_rule" "workspace policy rule IDs must be unique")
       else Ok tt) ;?
      validate_rule_body document rule ;?
      validate_rules document (rule_id rule :: rule_ids) rest
  end.

Definition validate_group (entry : string * PolicyPrincipalGroup) : Check :=
  validate_token entry.1 "policy group" ;?
  try_for_each (fun p => validate_token (pr_id p) "policy principal ID") (pg_principals entry.2).

(** [validate_document]; [encoded] is the result of [serde_json::to_vec]: the length of the
    encoding, or the encoder's error. *)
Definition validate_document (encoded : WorkspacePolicyDocument -> Result Z string)
    (document : WorkspacePolicyDocument) : Check :=
  if negb ((doc_schema_version document =? POLICY_SCHEMA_VERSION)
           || (doc_schema_version document =? POLICY_SCHEMA_VERSION_V2))
  then Err (StoreInvalid "unsupported_policy_schema"
              "workspace policy schema version is not supported")
  else
    let? len := map_err StoreCorrupt (encoded document) in
    if MAX_POLICY_DOCUMENT_BYTES <? len
    then Err (StoreInvalid "policy_document_too_large"
                "workspace policy document exceeds 256 KiB")
    else if MAX_POLICY_RULES <? Z.of_nat (length (doc_rules document))
    then Err (StoreInvalid "too_many_policy_rules"
                "workspace policy may contain at most 1000 rules")
    else
      try_for_each (fun action => validate_token action "policy action")
        (btree_keys (doc_defaults document)) ;?
      try_for_each validate_group (btree_iter (doc_groups document)) ;?
      validate_rules document [] (doc_rules document).

(** ** The [workspace_policies] table *)

Record PolicyRow (Json : Type) : Type := mkPolicyRow {
  row_revision : Z;
  row_schema_version : Z;
  row_mode : string;
  row_document : Json;
  row_updated_at : string;
  row_updated_by_kind : string;
  row_updated_by_id : string
}.
Arguments mkPolicyRow {Json}.
Arguments row_revision {Json}.
Arguments row_schema_version {Json}.
Arguments row_mode {Json}.
Arguments row_document {Json}.
Arguments row_updated_at {Json}.
Arguments row_updated_by_kind {Json}.
Arguments row_updated_by_id {Json}.

(** The part of the database the store touches: the workspaces the foreign key refers to, the
    rows, and the [pg_notify] payloads delivered at commit, newest first. *)
Record PolicyDb (Json : Type) : Type := mkPolicyDb {
  db_workspaces : gset string;
  db_policies : gmap string (PolicyRow Json);
  db_notifications : list (string * Z)
}.
Arguments mkPolicyDb {Json}.
Arguments db_workspaces {Json}.
Arguments db_policies {Json}.
Arguments db_notifications {Json}.

Definition parse_mode (value : string) : Result PolicyMode PolicyStoreError :=
  if value =s "monitor" then Ok Monitor
  else if value =s "enforce" then Ok Enforce
  else Err (StoreCorrupt ("invalid mode " +:+ value)).

Definition parse_principal_kind (value : string) : Result PolicyPrincipalKind PolicyStoreError :=
  if value =s "human" then Ok KHuman
  else if value =s "agent" then Ok KAgent
  else if value =s "machine" then Ok KMachine
  else if value =s "service" then Ok KService
  else Err (StoreCorrupt ("invalid actor kind " +:+ value)).

Section store.
(** [serde_json] encoding of a document, its length, the JSONB cast and text form, decoding,
    and RFC 3339 parsing. *)
Context {Json : Type}
  (to_json : WorkspacePolicyDocument -> Result Json string)
  (json_len : Json -> Z)
  (jsonb : Json -> Json)
  (from_json : Json -> Result WorkspacePolicyDocument string)
  (parse_rfc3339 : string -> Result string string).

Definition encoded_len (document : WorkspacePolicyDocument) : Result Z string :=
  let? json := to_json document in Ok (json_len json).

Definition workspace_policy_from_row (workspace_id : string) (row : PolicyRow Json)
    : Result WorkspacePolicy PolicyStoreError :=
  let? revision :=
    if row_revision row <? 0 then Err (StoreCorrupt "invalid revision") else Ok (row_revision row) in
  let? schema_version :=
    if (row_schema_version row <? 0) || (u32_max <? row_schema_version row)
    then Err (StoreCorrupt "invalid schema version") else Ok (row_schema_version row) in
  let? mode := parse_mode (row_mode row) in
  let? document := map_err (fun e => StoreCorrupt ("invalid document: " +:+ e))
                     (from_json (row_document row)) in
  (if negb (doc_schema_version document =? schema_version)
   then Err (StoreCorrupt "document and row schema versions disagree") else Ok tt) ;?
  let? kind := parse_principal_kind (row_updated_by_kind row) in
  let? updated_at := map_err (fun e => StoreCorrupt ("invalid timestamp: " +:+ e))
                       (parse_rfc3339 (row_updated_at row)) in
  Ok (mkWorkspacePolicy workspace_id revision mode document updated_at
        (mkPolicyPrincipalRef kind (row_updated_by_id row))).

(** [WorkspacePolicyStore::get] *)
Definition store_get (db : PolicyDb Json) (workspace_id : string)
    : Result (option WorkspacePolicy) PolicyStoreError :=
  match db_policies db !! workspace_id with
  | None => Ok None
  | Some row => let? policy := workspace_policy_from_row workspace_id row in Ok (Some policy)
  end.

Definition new_row (revision : Z) (mode : PolicyMode) (document : WorkspacePolicyDocument)
    (json : Json) (now : string) (updated_by : PolicyPrincipalRef) : PolicyRow Json :=
  mkPolicyRow revision (doc_schema_version document) (policy_mode_as_str mode) (jsonb json) now
    (principal_kind_as_str (pr_kind updated_by)) (pr_id updated_by).

(** The [INSERT ... ON CONFLICT DO NOTHING] or the [UPDATE ... WHERE revision = $2]; [None]
    when no row is returned. *)
Definition replace_row (db : PolicyDb Json) (workspace_id : string) (expected : Z)
    (row : Z -> PolicyRow Json) : Result (option (PolicyRow Json)) PolicyStoreError :=
  if expected =? 0 then
    match db_policies db !! workspace_id with
    | Some _ => Ok None
    | None =>
        if bool_decide (workspace_id ∈ db_workspaces db) then Ok (Some (row 1))
        else Err (StoreDatabase "foreign key violation")
    end
  else
    match db_policies db !! workspace_id with
    | None => Ok None
    | Some old =>
        if row_revision old =? expected then
          if row_revision old =? i64_max then Err (StoreDatabase "bigint out of range")
          else Ok (Some (row (row_revision old + 1)))
        else Ok None
    end.

(** [WorkspacePolicyStore::replace]: the transaction commits only when every step succeeds. *)
Definition store_replace (db : PolicyDb Json) (now : string) (workspace_id : string)
    (expected_revision : Z) (mode : PolicyMode) (document : WorkspacePolicyDocument)
    (updated_by : PolicyPrincipalRef) : Result WorkspacePolicy PolicyStoreError * PolicyDb Json :=
  let attempt :=
    validate_document encoded_len document ;?
    validate_token (pr_id updated_by) "policy actor ID" ;?
    let? json := map_err StoreCorrupt (to_json document) in
    (if i64_max <? expected_revision
     then Err (StoreInvalid "invalid_policy_revision" "policy revision is too large")
     else Ok tt) ;?
    let? written := replace_row db workspace_id expected_revision
                      (fun revision => new_row revision mode document json now updated_by) in
    let? row := ok_or written RevisionConflict in
    let? policy := workspace_policy_from_row workspace_id row in
    Ok (policy, row) in
  match attempt with
  | Err e => (Err e, db)
  | Ok (policy, row) =>
      (Ok policy,
       mkPolicyDb (db_workspaces db) (<[workspace_id := row]> (db_policies db))
         ((workspace_id, pol_revision policy) :: db_notifications db))
  end.
End store.

(** ** What an accepted document satisfies *)

Definition token_ok (value : string) : bool :=
  negb (is_empty value) && (str_len value <=? 128) && (trim value =s value)
  && negb (any_control value).

(** A rule whose references all resolve and whose expressions are bounded. *)
Record sound_rule (document : WorkspacePolicyDocument) (rule : WorkspacePolicyRule) : Prop := {
  sr_id : token_ok (rule_id rule) = true;
  sr_nonempty : rule_subjects rule <> [] /\ rule_actions rule <> [] /\ rule_resources rule <> [];
  sr_schema : doc_schema_version document = POLICY_SCHEMA_VERSION -> rule_has_tree rule = false;
  sr_subject_groups : forall s g, s ∈ rule_subjects rule -> ss_group s = Some g ->
    is_Some (doc_groups document !! g);
  sr_resource_groups : forall r g, r ∈ rule_resources rule -> rs_principal_group r = Some g ->
    is_Some (doc_groups document !! g);
  sr_variables : forall v strict, ResourceBelowFolder (RefVariable v) strict ∈ rule_conditions rule ->
    exists value, rule_bindings rule !! v = Some value /\ (forall w, value <> RefVariable w);
  sr_paths : forall sel, sel ∈ tree_selectors rule ->
    (forall p, ts_path_eq sel = Some p -> policy_path_valid p false = true) /\
    (forall p, ts_path_glob sel = Some p -> policy_path_valid p true = true) /\
    (forall p, ts_path_prefix sel = Some p -> policy_path_valid (pp_path p) false = true) /\
    (comparator_count sel <= 1)%nat;
  sr_bounds : (size (rule_bindings rule) <= 8)%nat /\ (length (rule_conditions rule) <= 32)%nat
}.

Record sound_document (document : WorkspacePolicyDocument) : Prop := {
  sd_schema : doc_schema_version document = 1 \/ doc_schema_version document = 2;
  sd_rule_count : Z.of_nat (length (doc_rules document)) <= MAX_POLICY_RULES;
  sd_rule_ids : NoDup (rule_id <$> doc_rules document);
  sd_rules : forall rule, rule ∈ doc_rules document -> sound_rule document rule
}.

(** ** Sample values *)

Definition sample_document : WorkspacePolicyDocument :=
  mkWorkspacePolicyDocument 2 {["agent.prompt" := Deny]} ∅
    [mkWorkspacePolicyRule {["team" := RefPath "/team"]}
       [ResourceBelowFolder (RefVariable "team") false]
       "allow-team" 100 Allow
       [mkPolicySubjectSelector None (Some KAgent) None None None false]
       ["agent.metadata.read"]
       [mkPolicyResourceSelector None (Some "agent") None None]].
Definition sample_actor : PolicyPrincipalRef := mkPolicyPrincipalRef KHuman "usr_owner".
Definition sample_db : PolicyDb WorkspacePolicyDocument := mkPolicyDb {["policy"]} ∅ [].
(** [store_replace] with JSON values represented by the documents themselves. *)
Definition sample_replace (db : PolicyDb WorkspacePolicyDocument) (expected : Z) (mode : PolicyMode) :=
  store_replace Ok (fun _ => 100) id Ok Ok db "2026-01-01T00:00:00Z" "policy" expected mode
    sample_document sample_actor.
Definition sample_db1 : PolicyDb WorkspacePolicyDocument := (sample_replace sample_db 0 Monitor).2.

(** ** Lemmas: validation *)

Ltac each_ok H := rewrite try_for_each_ok, Forall_forall in H.

Lemma validate_token_ok value field : validate_token value field = Ok tt <-> token_ok value = true.
Proof.
  unfold validate_token, token_ok. rewrite Z.leb_antisym.
  destruct (is_empty value), (128 <? str_len value), (trim value =s value), (any_control value);
    simpl; done.
Qed.

Lemma validate_policy_path_ok path glob :
  validate_policy_path path glob = Ok tt <-> policy_path_valid path glob = true.
Proof. unfold validate_policy_path. by case_match. Qed.

Lemma require_group_ok document group selector :
  require_group document group selector = Ok tt <-> is_Some (doc_groups document !! group).
Proof. unfold require_group. case_match; split; done. Qed.

Lemma validate_tree_selector_sound sel :
  validate_tree_selector sel = Ok tt ->
  (forall p, ts_path_eq sel = Some p -> policy_path_valid p false = true) /\
  (forall p, ts_path_glob sel = Some p -> policy_path_valid p true = true) /\
  (forall p, ts_path_prefix sel = Some p -> policy_path_valid (pp_path p) false = true) /\
  (comparator_count sel <= 1)%nat.
Proof.
  unfold validate_tree_selector. case_match eqn:Hk; [done|]. clear Hk. intros H. split_check H.
  split_and!.
  - intros p Hp. rewrite Hp in Hc2. destruct u2. by apply validate_policy_path_ok in Hc2.
  - intros p Hp. rewrite Hp in Hc3. destruct u3. by apply validate_policy_path_ok in Hc3.
  - intros p Hp. rewrite Hp in H. by apply validate_policy_path_ok in H.
  - destruct (Nat.ltb_spec 1 (comparator_count sel)); [done|lia].
Qed.

Lemma validate_path_rule_sound schema rule :
  validate_path_rule schema rule = Ok tt ->
  (schema = POLICY_SCHEMA_VERSION -> rule_has_tree rule = false) /\
  ((size (rule_bindings rule) <= 8)%nat /\ (length (rule_conditions rule) <= 32)%nat) /\
  (forall sel, sel ∈ tree_selectors rule -> validate_tree_selector sel = Ok tt) /\
  (forall v strict, ResourceBelowFolder (RefVariable v) strict ∈ rule_conditions rule ->
    exists value, rule_bindings rule !! v = Some value /\ (forall w, value <> RefVariable w)).
Proof.
  unfold validate_path_rule. case_match eqn:Hs; [done|]. case_match eqn:Hb; [done|].
  intros H. split_check H. destruct u, u0.
  each_ok Hc. each_ok Hc0. each_ok H.
  apply orb_false_elim in Hb as [Hb1 Hb2]. apply Z.ltb_ge in Hb1, Hb2.
  split_and!; [|lia|lia|done|].
  - intros ->. by rewrite Z.eqb_refl in Hs.
  - intros v strict Hv. apply H in Hv. simpl in Hv.
    destruct (rule_bindings rule !! v) as [value|] eqn:Hl; [|done].
    exists value. split; [done|]. intros w ->.
    apply btree_iter_elem in Hl. apply Hc in Hl. simpl in Hl. by split_check Hl.
Qed.

Lemma validate_rule_body_sound document rule :
  validate_rule_body document rule = Ok tt ->
  (rule_subjects rule <> [] /\ rule_actions rule <> [] /\ rule_resources rule <> []) /\
  (forall s g, s ∈ rule_subjects rule -> ss_group s = Some g -> is_Some (doc_groups document !! g)) /\
  (forall r g, r ∈ rule_resources rule -> rs_principal_group r = Some g ->
     is_Some (doc_groups document !! g)).
Proof.
  unfold validate_rule_body. intros H. split_check H. destruct u, u0, u1.
  each_ok Hc0. each_ok H. split_and!.
  1-3: intros Hn; rewrite Hn in Hc; simpl in Hc; rewrite ?orb_true_r in Hc; done.
  - intros s g Hs%Hc0 Hg. unfold validate_subject in Hs. split_check Hs.
    rewrite Hg in Hs. by apply require_group_ok in Hs.
  - intros s g Hs%H Hg. unfold validate_resource in Hs. split_check Hs.
    rewrite Hg in Hs. by apply require_group_ok in Hs.
Qed.

Lemma validate_rules_sound document seen rules :
  validate_rules document seen rules = Ok tt ->
  NoDup (rule_id <$> rules) /\ (forall rule, rule ∈ rules -> rule_id rule ∉ seen) /\
  (forall rule, rule ∈ rules -> sound_rule document rule).
Proof.
  revert seen. induction rules as [|rule rules IH]; intros seen H; simpl in H.
  { split; [constructor|]. split; intros ? ?%elem_of_nil; done. }
  split_check H. destruct u, u0, u1, u2.
  apply IH in H as (Hnd & Hseen & Hsound).
  assert (rule_id rule ∉ seen) as Hnew by (case_bool_decide; done).
  split_and!.
  - rewrite fmap_cons. constructor; [|done].
    intros (r & Hid & Hr)%list_elem_of_fmap. apply Hseen in Hr. set_solver.
  - intros r [->|Hr]%elem_of_cons; [done|]. apply Hseen in Hr. set_solver.
  - intros r [->|Hr]%elem_of_cons; [|auto].
    apply validate_path_rule_sound in Hc as (Hs & Hb & Hsel & Hv).
    apply validate_rule_body_sound in Hc2 as (Hne & Hsg & Hrg).
    constructor; try done.
    + by apply validate_token_ok in Hc0.
    + intros sel Hin. by apply validate_tree_selector_sound, Hsel.
Qed.

Lemma validate_document_sound encoded document :
  validate_document encoded document = Ok tt -> sound_document document.
Proof.
  unfold validate_document. case_match eqn:Hschema; [done|]. intros H.
  apply bind_ok_iff in H as (len & Hlen & H).
  case_match; [done|]. case_match eqn:Hcount; [done|]. split_check H.
  apply validate_rules_sound in H as (Hnd & _ & Hrules).
  apply negb_false_iff, orb_true_iff in Hschema. unfold POLICY_SCHEMA_VERSION,
    POLICY_SCHEMA_VERSION_V2 in Hschema. rewrite !Z.eqb_eq in Hschema.
  apply Z.ltb_ge in Hcount. by constructor.
Qed.

(** Canonical policy paths are the printed form of their components. *)
Lemma policy_path_canonical path :
  policy_path_valid path false = true ->
  names_ok (components path) /\ path = abs_path (components path).
Proof.
  unfold policy_path_valid. intros H. bool_hyps.
  apply starts_with_iff in H as [t ->]. change ("/" +:+ t) with (String slash t) in *.
  change (default (String slash t) (strip_prefix "/" (String slash t))) with t in *.
  destruct (String slash t =s "/") eqn:Hroot.
  { apply str_eqb_eq in Hroot as ->. split; [constructor|done]. }
  cbn [orb] in H0. rewrite forallb_elem in H0.
  assert (Forall (fun p => is_empty p = false) (split_on slash t)) as Hne.
  { apply Forall_lookup. intros i p Hp.
    assert (path_component_ok false (length (split_on slash t)) i p = true) as Hok.
    { apply (H0 (path_component_ok false (length (split_on slash t)) i p)).
      apply list_elem_of_lookup. exists i. rewrite list_lookup_imap, Hp. done. }
    unfold path_component_ok in Hok. bool_hyps. done. }
  assert (components (String slash t) = split_on slash t) as Hcomp.
  { unfold components. simpl. clear -Hne. induction Hne as [|p l Hp _ IH]; [done|].
    simpl. rewrite Hp. simpl. by f_equal. }
  rewrite Hcomp. split.
  - pose proof (split_on_pieces slash t) as Hs. clear -Hne Hs.
    unfold names_ok. induction Hne as [|p l Hp _ IH]; [constructor|].
    inversion Hs; subst. constructor; [|by apply IH]. unfold component_ok. by rewrite Hp, H1.
  - unfold abs_path. change (String slash t = String slash (join (String slash "") (split_on slash t))).
    by rewrite join_split_on.
Qed.

(** ** Lemmas: the store *)

Lemma from_row_ok {Json} (from_json : Json -> _) parse ws row p :
  workspace_policy_from_row from_json parse ws row = Ok p ->
  pol_revision p = row_revision row /\ from_json (row_document row) = Ok (pol_document p) /\
  parse_mode (row_mode row) = Ok (pol_mode p) /\ pol_workspace_id p = ws /\
  parse_principal_kind (row_updated_by_kind row) = Ok (pr_kind (pol_updated_by p)) /\
  pr_id (pol_updated_by p) = row_updated_by_id row.
Proof.
  unfold workspace_policy_from_row. intros H. split_check H. simplify_eq. simpl.
  destruct (row_revision row <? 0); [done|]. simplify_eq.
  destruct (from_json (row_document row)) eqn:Hj; simplify_eq/=. done.
Qed.

Lemma parse_mode_as_str m : parse_mode (policy_mode_as_str m) = Ok m.
Proof. by destruct m. Qed.

Lemma parse_kind_as_str k : parse_principal_kind (principal_kind_as_str k) = Ok k.
Proof. by destruct k. Qed.

Section store_lemmas.
Context {Json : Type}
  (to_json : WorkspacePolicyDocument -> Result Json string)
  (json_len : Json -> Z)
  (jsonb : Json -> Json)
  (from_json : Json -> Result WorkspacePolicyDocument string)
  (parse_rfc3339 : string -> Result string string).

Notation replace := (store_replace to_json json_len jsonb from_json parse_rfc3339).

Lemma store_replace_inv db now ws e mode doc by_ p db' :
  replace db now ws e mode doc by_ = (Ok p, db') ->
  exists json row,
    validate_document (encoded_len to_json json_len) doc = Ok tt /\
    to_json doc = Ok json /\ e <= i64_max /\
    replace_row db ws e (fun r => new_row jsonb r mode doc json now by_) = Ok (Some row) /\
    workspace_policy_from_row from_json parse_rfc3339 ws row = Ok p /\
    db' = mkPolicyDb (db_workspaces db) (<[ws := row]> (db_policies db))
            ((ws, pol_revision p) :: db_notifications db).
Proof.
  unfold store_replace. case_match eqn:E; [|done]. destruct a as [p' row].
  intros [= -> <-]. split_check E. simplify_eq. destruct u.
  destruct (to_json doc) eqn:Hj; simplify_eq/=.
  destruct (i64_max <? e) eqn:Hm; [done|]. apply Z.ltb_ge in Hm.
  destruct u3 as [row'|]; simplify_eq/=. eauto 10.
Qed.

Lemma replace_row_revision (db : PolicyDb Json) ws e row r :
  replace_row db ws e row = Ok (Some r) ->
  r = row (e + 1) /\ (forall old, db_policies db !! ws = Some old -> e <> 0 /\ row_revision old = e)
  /\ (db_policies db !! ws = None -> e = 0).
Proof.
  unfold replace_row. destruct (Z.eqb_spec e 0) as [->|Hne].
  - case_match; [done|]. case_bool_decide; [|done]. intros [= <-]. done.
  - case_match; [|done]. case_match eqn:He; [|done]. case_match; [done|]. intros [= <-].
    apply Z.eqb_eq in He as <-. split; [done|]. split; [|done]. by intros old [= <-].
Qed.

(** A row at another revision is never replaced. *)
Lemma replace_row_conflict (db : PolicyDb Json) ws e row old :
  db_policies db !! ws = Some old -> row_revision old <> e -> replace_row db ws e row = Ok None.
Proof.
  unfold replace_row. intros -> Hne. destruct (Z.eqb_spec e 0); [done|].
  by destruct (Z.eqb_spec (row_revision old) e).
Qed.
End store_lemmas.

(** ** Properties *)

(** A document that passes [validate_document] has a supported schema, unique rule IDs,
    bounded rules whose group references all exist and whose folder variables are all bound to
    a folder that is not itself a variable, and canonical paths with one comparator each. *)
Theorem validated_document_is_sound encoded document :
  validate_document encoded document = Ok tt -> sound_document document.
Proof. apply validate_document_sound. Qed.

Lemma validated_document_is_sound_witness : sound_document sample_document.
Proof.
  apply (validated_document_is_sound (fun _ => Ok 100) sample_document). vm_compute. reflexivity.
Defined.

(** A path accepted for a prefix or equality comparator is canonical, and testing a Tree
    path against it as a prefix is testing its components. *)
Theorem validated_prefix_is_exact path ms :
  validate_policy_path path false = Ok tt -> names_ok ms ->
  below path (abs_path ms) = true <-> exists rest, rest <> [] /\ ms = components path ++ rest.
Proof.
  intros [Hok Heq]%validate_policy_path_ok%policy_path_canonical Hms.
  rewrite Heq at 1. by apply below_abs.
Qed.

Lemma validated_prefix_is_exact_witness :
  below "/team" (abs_path ["team"; "sub"]) = true <->
  exists rest, rest <> [] /\ ["team"; "sub"] = components "/team" ++ rest.
Proof.
  apply (validated_prefix_is_exact "/team" ["team"; "sub"]);
    [vm_compute; reflexivity|repeat constructor].
Defined.

Section store_properties.
Context {Json : Type}
  (to_json : WorkspacePolicyDocument -> Result Json string)
  (json_len : Json -> Z)
  (jsonb : Json -> Json)
  (from_json : Json -> Result WorkspacePolicyDocument string)
  (parse_rfc3339 : string -> Result string string).

Notation replace := (store_replace to_json json_len jsonb from_json parse_rfc3339).

(** A successful [replace] found the workspace at exactly the expected revision (absent for
    zero), stores the given document and mode at the next revision, makes it what [get]
    returns, announces that revision, and touches no other workspace. *)
Theorem replace_installs db now ws e mode doc by_ p db' :
  (forall d j, to_json d = Ok j -> from_json (jsonb j) = Ok d) ->
  replace db now ws e mode doc by_ = (Ok p, db') ->
  pol_revision p = e + 1 /\ pol_document p = doc /\ pol_mode p = mode /\ pol_updated_by p = by_ /\
  (forall old, db_policies db !! ws = Some old -> e <> 0 /\ row_revision old = e) /\
  (db_policies db !! ws = None -> e = 0) /\
  store_get from_json parse_rfc3339 db' ws = Ok (Some p) /\
  db_notifications db' = (ws, e + 1) :: db_notifications db /\
  (forall ws', ws' <> ws -> db_policies db' !! ws' = db_policies db !! ws').
Proof.
  intros Hjson (json & row & _ & Hj & _ & Hrow & Hfrom & ->)%store_replace_inv.
  apply replace_row_revision in Hrow as (-> & Hold & Hnone).
  pose proof Hfrom as (Hrev & Hdoc & Hmode & _ & Hkind & Hid)%from_row_ok. simpl in *.
  rewrite (Hjson doc json Hj) in Hdoc. rewrite parse_mode_as_str in Hmode.
  rewrite parse_kind_as_str in Hkind. simplify_eq. split_and!; try done.
  - destruct (pol_updated_by p), by_; simpl in *. congruence.
  - unfold store_get. simpl. by rewrite lookup_insert_eq, Hfrom.
  - by rewrite Hrev.
  - intros ws' Hne. simpl. by rewrite lookup_insert_ne.
Qed.

(** A [replace] that fails leaves the database and the announcements as they were. *)
Lemma replace_error_is_atomic db now ws e mode doc by_ err db' :
  replace db now ws e mode doc by_ = (Err err, db') -> db' = db.
Proof. unfold store_replace. case_match; [|by intros [= _ <-]]. by destruct a. Qed.

(** Optimistic concurrency: after one writer succeeds at a revision, no other writer can
    succeed with the same expected revision. *)
Theorem replace_no_lost_update db now ws e mode doc by_ p db' now2 mode2 doc2 by2 :
  store_replace to_json json_len jsonb from_json parse_rfc3339 db now ws e mode doc by_ = (Ok p, db') ->
  0 <= e ->
  is_ok (store_replace to_json json_len jsonb from_json parse_rfc3339 db' now2 ws e mode2 doc2 by2).1 = false.
Proof.
  intros (json & row & _ & _ & _ & Hrow & _ & ->)%store_replace_inv He.
  apply replace_row_revision in Hrow as (-> & _ & _).
  destruct (replace _ now2 ws e mode2 doc2 by2) as [[p2|err] db2] eqn:E; [|done].
  apply store_replace_inv in E as (json2 & row2 & _ & _ & _ & Hrow2 & _ & _).
  erewrite replace_row_conflict in Hrow2; simpl; [done|apply lookup_insert_eq|simpl; lia].
Qed.
End store_properties.

Lemma replace_installs_witness :
  pol_revision <$> (match (sample_replace sample_db 0 Monitor).1 with Ok p => Some p | _ => None end)
  = Some 1.
Proof.
  destruct (sample_replace sample_db 0 Monitor) as [[p|e] db'] eqn:E; [|vm_compute in E; discriminate].
  simpl. f_equal.
  apply (replace_installs Ok (fun _ => 100) id Ok Ok sample_db "2026-01-01T00:00:00Z" "policy" 0
           Monitor sample_document sample_actor p db'); [by intros d j [= ->]|exact E].
Defined.

Lemma replace_no_lost_update_witness : is_ok (sample_replace sample_db1 0 Enforce).1 = false.
Proof.
  destruct (sample_replace sample_db 0 Monitor) as [[p|e] db'] eqn:E; [|vm_compute in E; discriminate].
  unfold sample_db1. rewrite E.
  apply (replace_no_lost_update Ok (fun _ => 100) id Ok Ok sample_db "2026-01-01T00:00:00Z" "policy"
           0 Monitor sample_document sample_actor p db' "2026-01-01T00:00:00Z" Enforce
           sample_document sample_actor E). lia.
Defined.
