(* ===== verification/PolicyTree.v ===== *)
(** * Tree facts for Policy (crates/treer-proxy/src/policy_tree.rs)

    [TreeSnapshot::load] turns the rows read in one repeatable-read transaction into the Tree
    context of every node; [enrich] attaches the contexts of the subject and the resource to a
    request.  The SQL queries are the model's input: [TreeRows] holds what they return. *)

From S2P Require Import Prelude RustStr Protocol WorkloadTree PolicyRequest PolicyPath.

(** A row of the credentials query, joined with the Agent's name and its App, if any. *)
Record CredentialRow : Type := mkCredentialRow {
  cr_agent_id : string;
  cr_server_id : string;
  cr_name : option string;
  cr_app_id : option string;
  cr_service_id : string
}.

(** A row of the [app_deployments] query. *)
Record AppRow : Type := mkAppRow {
  ar_app_id : string;
  ar_name : string;
  ar_service_id : string;
  ar_runtime_agent_id : option string
}.

Record TreeRows : Type := mkTreeRows {
  rows_revision : option Z;
  rows_folders : list WorkloadFolder;
  rows_placements : list WorkloadPlacement;
  rows_credentials : list CredentialRow;
  rows_apps : list AppRow
}.

Record TreeSnapshot : Type := mkTreeSnapshot {
  snap_revision : Z;
  snap_nodes : gmap string PolicyTreeContext;
  snap_agent_machines : gmap string string;
  snap_service_ids : gset string
}.

(** ** One node's context *)

(** The [while let] of [context]; [None] is running out of fuel. *)
Fixpoint ancestor_loop (fuel : nat) (tree : WorkloadTree) (ancestor_ids : list string)
    (next : option string) : option (Result (list string) ProtocolError) :=
  match next with
  | None => Some (Ok ancestor_ids)
  | Some id =>
      match fuel with
      | O => None
      | S fuel' =>
          if existsb (fun v => v =s id) ancestor_ids
          then Some (Err (protocol_error "invalid_workload_tree" "folder cycle"))
          else ancestor_loop fuel' tree (ancestor_ids ++ [id])
                 (match find_folder tree id with Some f => wf_parent_id f | None => None end)
      end
  end.

Definition node_context (tree : WorkloadTree) (revision : Z) (id kind name : string)
    (folder : option string) (placed : bool) : Result PolicyTreeContext ProtocolError :=
  let? fpath := folder_path tree folder in
  let? ids :=
    match ancestor_loop (S (folder_fuel tree)) tree [] folder with
    | Some r => r
    | None => Err (protocol_error "invalid_workload_tree" "folder cycle")
    end in
  let ancestor_ids := rev ids in
  let? paths := try_collect (fun i => folder_path tree (Some i)) ancestor_ids in
  let ancestor_paths := "/" :: paths in
  let path := trim_end_matches slash fpath +:+ "/" +:+ name in
  Ok (mkPolicyTreeContext id kind name path folder fpath ancestor_ids ancestor_paths placed revision).

(** ** Loading *)

Definition load_folder_nodes (tree : WorkloadTree) (revision : Z)
    : Result (gmap string PolicyTreeContext) ProtocolError :=
  try_fold (fun nodes f =>
    let? ctx := node_context tree revision (wf_folder_id f) "folder" (wf_name f) (wf_parent_id f) true in
    Ok (<[wf_folder_id f := ctx]> nodes)) ∅ (wt_folders tree).

(** One turn of the loop over credential rows. *)
Definition load_credential (tree : WorkloadTree) (revision : Z) (snap : TreeSnapshot)
    (row : CredentialRow) : Result TreeSnapshot ProtocolError :=
  let id := cr_agent_id row in
  let machines := <[id := cr_server_id row]> (snap_agent_machines snap) in
  match cr_name row with
  | None => Ok (mkTreeSnapshot revision (snap_nodes snap) machines (snap_service_ids snap))
  | Some name =>
      let placement := List.find (fun p => wp_agent_id p =s id) (wt_placements tree) in
      let? ctx := node_context tree revision (default id (cr_app_id row))
                    (if cr_app_id row then "app" else "agent") name
                    (match placement with Some p => wp_folder_id p | None => None end)
                    (is_some placement) in
      let nodes := <[id := ctx]> (snap_nodes snap) in
      match cr_app_id row with
      | None => Ok (mkTreeSnapshot revision nodes machines (snap_service_ids snap))
      | Some app =>
          Ok (mkTreeSnapshot revision (<[cr_service_id row := ctx]> (<[app := ctx]> nodes)) machines
                ({[cr_service_id row]} ∪ snap_service_ids snap))
      end
  end.

(** One turn of the loop over Apps without a current runtime. *)
Definition load_app (tree : WorkloadTree) (revision : Z) (snap : TreeSnapshot) (row : AppRow)
    : Result TreeSnapshot ProtocolError :=
  match snap_nodes snap !! ar_app_id row with
  | Some _ => Ok snap
  | None =>
      let placement := List.find (fun p =>
        wp_agent_id p =s default (ar_app_id row) (ar_runtime_agent_id row)) (wt_placements tree) in
      let? ctx := node_context tree revision (ar_app_id row) "app" (ar_name row)
                    (match placement with Some p => wp_folder_id p | None => None end)
                    (is_some placement) in
      Ok (mkTreeSnapshot revision
            (<[ar_service_id row := ctx]> (<[ar_app_id row := ctx]> (snap_nodes snap)))
            (snap_agent_machines snap) ({[ar_service_id row]} ∪ snap_service_ids snap))
  end.

(** [TreeSnapshot::load]; [rows] is an error when a query fails. *)
Definition snapshot_load (rows : Result TreeRows unit) : Result TreeSnapshot ProtocolError :=
  let? rows := map_err (fun _ => protocol_error "policy_tree_unavailable"
                                   "current policy Tree context unavailable") rows in
  let? stored := ok_or (rows_revision rows)
                   (protocol_error "workspace_not_found" "workspace not found") in
  let? revision := if (stored <? 0)%Z
                   then Err (protocol_error "invalid_tree_revision" "invalid Tree revision")
                   else Ok stored in
  let tree := mkWorkloadTree (rows_folders rows) (rows_placements rows) in
  let? nodes := load_folder_nodes tree revision in
  let? snap := try_fold (load_credential tree revision)
                 (mkTreeSnapshot revision nodes ∅ ∅) (rows_credentials rows) in
  try_fold (load_app tree revision) snap (rows_apps rows).

(** ** Queries *)

(** [TreeSnapshot::resolve_path].  The iteration order of the Rust set of service IDs is
    unspecified; [elements] is one such order. *)
Definition snapshot_resolve_path (snap : TreeSnapshot) (kind path : string) : option string :=
  if kind =s "service" then
    List.find (fun id => is_some_and (snap_nodes snap !! id)
                           (fun c => tc_placed c && (tc_path c =s path)))
      (elements (snap_service_ids snap))
  else
    let ids := tc_node_id <$>
      List.filter (fun c => tc_placed c && (tc_kind c =s kind) && (tc_path c =s path))
        (snd <$> map_to_list (snap_nodes snap)) in
    match dedup (merge_sort String.le ids) with
    | [id] => Some id
    | _ => None
    end.

Definition agent_subject (snap : TreeSnapshot) (id : string) : option PolicySubject :=
  match snap_agent_machines snap !! id with
  | Some server => Some (SubjAgent server id)
  | None => None
  end.

Definition is_service (snap : TreeSnapshot) (id : string) : bool :=
  bool_decide (id ∈ snap_service_ids snap).
Definition is_resource (snap : TreeSnapshot) (kind id : string) : bool :=
  is_some_and (snap_nodes snap !! id) (fun c => tc_kind c =s kind).

(** The node ID a request's resource stands for in the Tree. *)
Definition resource_node (resource : PolicyResource) : option string :=
  if (res_kind resource =s "message") || (res_kind resource =s "network.endpoint") then
    res_attributes resource !! "destination_agent_id"
  else if res_kind resource =s "message.mailbox" then
    if opt_str_eqb (res_attributes resource !! "principal_kind") (Some "agent")
    then Some (res_id resource) else None
  else if (res_kind resource =s "agent") || (res_kind resource =s "app")
          || (res_kind resource =s "folder") || (res_kind resource =s "machine.service")
  then Some (res_id resource)
  else None.

Definition subject_node (subject : PolicySubject) : option string :=
  match subject with
  | SubjAgent _ agent_id => Some agent_id
  | SubjService service_id => Some service_id
  | _ => None
  end.

(** [TreeSnapshot::enrich] *)
Definition snapshot_enrich (snap : TreeSnapshot) (request : PolicyRequest) : PolicyRequest :=
  mkPolicyRequest (req_workspace_id request) (req_subject request) (req_action request)
    (req_resource request)
    (id ← subject_node (req_subject request); snap_nodes snap !! id)
    (id ← resource_node (req_resource request); snap_nodes snap !! id)
    (Some (snap_revision snap)).

(** ** What the contexts of a snapshot are *)

(** A context that [node_context] computes from the tree; a folder's context carries the
    folder's own name and parent. *)
Definition context_of (tree : WorkloadTree) (revision : Z) (ctx : PolicyTreeContext) : Prop :=
  node_context tree revision (tc_node_id ctx) (tc_kind ctx) (tc_name ctx) (tc_folder_id ctx)
    (tc_placed ctx) = Ok ctx /\
  (tc_kind ctx = "folder" -> exists f, f ∈ wt_folders tree /\ wf_folder_id f = tc_node_id ctx /\
     wf_name f = tc_name ctx /\ wf_parent_id f = tc_folder_id ctx).

(** ** Sample rows: the sample tree with one Agent in a subfolder *)

Definition sample_tree_rows : TreeRows :=
  mkTreeRows (Some 7%Z) (wt_folders sample_tree) (wt_placements sample_tree)
    [mkCredentialRow "ag_c" "m1" (Some "coder") None "";
     mkCredentialRow "app_sub" "m1" (Some "ui") (Some "app_sub") "svc_sub"]
    [mkAppRow "app_sub" "ui" "svc_sub" None].
Definition sample_snapshot : TreeSnapshot :=
  match snapshot_load (Ok sample_tree_rows) with
  | Ok snap => snap
  | Err _ => mkTreeSnapshot 0 ∅ ∅ ∅
  end.
Definition sample_request : PolicyRequest :=
  request_new "ws" (SubjAgent "m1" "ag_c") "agent.prompt" (resource_new "app" "app_sub").
Definition sample_rule : WorkspacePolicyRule :=
  mkWorkspacePolicyRule ∅ [] "r" 0 Allow [] [] [].

(** ** Lemmas: contexts *)

Lemma ancestor_loop_chain tree fuel acc o l :
  folder_chain tree o l -> length l < fuel ->
  (forall f, f ∈ l -> wf_folder_id f ∉ acc) ->
  ancestor_loop fuel tree acc o = Some (Ok (acc ++ (wf_folder_id <$> l))).
Proof.
  intros Hc. pose proof (folder_chain_NoDup _ _ _ Hc) as Hnd. revert fuel acc Hnd.
  induction Hc as [|id f l Hf Hl IH]; intros fuel acc Hnd Hlen Hacc.
  - destruct fuel; simpl; by rewrite app_nil_r.
  - destruct fuel as [|fuel]; [lia|]. simpl in *.
    apply find_folder_some in Hf as Hid. destruct Hid as [_ Hid].
    replace (existsb (fun v => v =s id) acc) with false.
    2: { symmetry. apply not_true_iff_false. intros (v & Hv & ->%str_eqb_eq)%existsb_elem.
         apply (Hacc f); [set_solver|]. by rewrite Hid. }
    rewrite Hf. inversion Hnd as [|? ? Hnotin Hnd']; subst.
    rewrite IH; [by rewrite <- app_assoc|done|lia|].
    intros g Hg. rewrite elem_of_app, list_elem_of_singleton. intros [Hin|Heq].
    + apply (Hacc g); [set_solver|done].
    + apply Hnotin. rewrite <- Heq. by apply list_elem_of_fmap_2.
Qed.

Lemma chain_paths tree o l :
  folder_chain tree o l ->
  exists paths, try_collect (fun i => folder_path tree (Some i)) (rev (wf_folder_id <$> l)) = Ok paths.
Proof.
  intros Hc. assert (forall i, i ∈ rev (wf_folder_id <$> l) -> exists p, folder_path tree (Some i) = Ok p)
    as Hall.
  { intros i Hi. apply list_elem_of_In, in_rev, list_elem_of_In in Hi.
    apply list_elem_of_fmap in Hi as (f & -> & Hf).
    destruct (folder_chain_suffix _ _ _ _ Hc Hf) as (l' & Hl' & _).
    eexists. by eapply folder_path_chain. }
  induction (rev (wf_folder_id <$> l)) as [|i is_ IH]; [by exists []|].
  destruct (Hall i) as [p Hp]; [set_solver|]. destruct IH as [ps Hps]; [set_solver|].
  exists (p :: ps). simpl. by rewrite Hp, Hps.
Qed.

Lemma node_context_inv tree revision id kind name folder placed ctx :
  node_context tree revision id kind name folder placed = Ok ctx ->
  exists l paths, folder_chain tree folder l /\
    ctx = mkPolicyTreeContext id kind name
            (trim_end_matches slash (tc_folder_path ctx) +:+ "/" +:+ name) folder
            (tc_folder_path ctx) (rev (wf_folder_id <$> l)) ("/" :: paths) placed revision /\
    folder_path tree folder = Ok (tc_folder_path ctx) /\
    Forall2 (fun i p => folder_path tree (Some i) = Ok p) (rev (wf_folder_id <$> l)) paths.
Proof.
  unfold node_context. intros (fp & Hfp & H)%bind_ok_iff.
  apply folder_path_ok_chain in Hfp as Hl. destruct Hl as (l & Hc & Hp).
  rewrite (ancestor_loop_chain _ _ _ _ _ Hc) in H;
    [|unfold folder_fuel; pose proof (folder_chain_length _ _ _ Hc); lia|set_solver].
  simpl in H. apply bind_ok_iff in H as (paths & Hpaths%try_collect_ok & [= <-]).
  by exists l, paths.
Qed.

Lemma node_context_self tree revision id kind name folder placed ctx :
  node_context tree revision id kind name folder placed = Ok ctx ->
  tc_node_id ctx = id /\ tc_kind ctx = kind /\ tc_name ctx = name /\ tc_folder_id ctx = folder /\
  tc_placed ctx = placed.
Proof. intros (l & paths & _ & -> & _)%node_context_inv. done. Qed.

Lemma node_context_total tree revision id kind name folder placed l :
  folder_chain tree folder l ->
  exists ctx, node_context tree revision id kind name folder placed = Ok ctx.
Proof.
  intros Hc. unfold node_context. rewrite (folder_path_chain _ _ _ Hc).
  rewrite (ancestor_loop_chain _ _ _ _ _ Hc);
    [|unfold folder_fuel; pose proof (folder_chain_length _ _ _ Hc); lia|set_solver].
  destruct (chain_paths _ _ _ Hc) as [paths Hpaths]. cbn [result_bind app].
  rewrite Hpaths. simpl. eauto.
Qed.

Lemma context_of_node tree revision id kind name folder placed ctx :
  node_context tree revision id kind name folder placed = Ok ctx -> kind <> "folder" ->
  context_of tree revision ctx.
Proof.
  intros Hctx Hkind.
  pose proof Hctx as (Hi & Hk & Hn & Hf & Hp)%node_context_self. split; [by rewrite Hi, Hk, Hn, Hf, Hp|].
  rewrite Hk. done.
Qed.

(** Every context of a loaded snapshot is computed from the rows' tree. *)
Lemma snapshot_load_contexts rows snap :
  snapshot_load (Ok rows) = Ok snap ->
  let tree := mkWorkloadTree (rows_folders rows) (rows_placements rows) in
  forall k ctx, snap_nodes snap !! k = Some ctx -> context_of tree (snap_revision snap) ctx.
Proof.
  unfold snapshot_load. simpl. intros (stored & _ & H)%bind_ok_iff.
  apply bind_ok_iff in H as (revision & _ & H). set (tree := mkWorkloadTree _ _) in *.
  apply bind_ok_iff in H as (nodes & Hnodes & H). apply bind_ok_iff in H as (snap1 & H1 & H2).
  pose (P := fun s : TreeSnapshot => snap_revision s = revision /\
    forall k ctx, snap_nodes s !! k = Some ctx -> context_of tree revision ctx).
  assert (P snap) as [Hrev HP]; [|by rewrite Hrev].
  assert (forall k ctx, nodes !! k = Some ctx -> context_of tree revision ctx) as Hn.
  { refine (try_fold_ind (fun m : gmap string PolicyTreeContext =>
      forall k ctx, m !! k = Some ctx -> context_of tree revision ctx) _ _ _ _ _ _ Hnodes); [|done].
    intros b f b' Hf Hb (ctx & Hctx & [= <-])%bind_ok_iff k c.
    destruct (decide (wf_folder_id f = k)) as [<-|Hne];
      [rewrite lookup_insert_eq; intros [= <-]|rewrite lookup_insert_ne by done; apply Hb].
    pose proof Hctx as (Hi & Hk & Hnm & Hfd & Hp)%node_context_self.
    split; [by rewrite Hi, Hk, Hnm, Hfd, Hp|]. intros _. exists f. by rewrite Hi, Hnm, Hfd. }
  refine (try_fold_ind P _ _ _ _ _ (try_fold_ind P _ _ _ _ _ _ H1) H2).
  - intros b row b' _ [Hr Hb]. unfold load_app. case_match; [by intros [= <-]|].
    intros (ctx & Hctx & [= <-])%bind_ok_iff. split; [done|]. simpl.
    eapply context_of_node in Hctx; [|done].
    intros k c. rewrite !lookup_insert. repeat case_decide; naive_solver.
  - intros b row b' _ [Hr Hb]. unfold load_credential. case_match; [|by intros [= <-]].
    intros (ctx & Hctx & Hrest)%bind_ok_iff.
    eapply context_of_node in Hctx; [|by case_match].
    case_match; simplify_eq/=; (split; [done|]); intros k c; simpl;
      rewrite !lookup_insert; repeat case_decide; naive_solver.
  - done.
Qed.

Section references.
Context (tree : WorkloadTree) (Hwf : well_formed_tree tree).

Lemma printed_not_root fid fp : folder_path tree (Some fid) = Ok fp -> (fp =s "/") = false.
Proof using Hwf.
  intros Hfp. apply str_eqb_neq. intros ->.
  assert (Some fid = None) as ?; [|done]. eapply folder_path_inj; [done|exact Hfp|done].
Qed.

(** Membership among ancestors is the same by ID and by path. *)
Lemma ancestors_agree ids paths fid fp :
  folder_path tree (Some fid) = Ok fp ->
  Forall2 (fun i p => folder_path tree (Some i) = Ok p) ids paths ->
  existsb (fun a => a =s fid) ids = existsb (fun p => p =s fp) ("/" :: paths).
Proof using Hwf.
  intros Hfp Hall. cbn [existsb].
  rewrite (str_eqb_sym "/" fp), (printed_not_root _ _ Hfp). cbn [orb].
  induction Hall as [|i p ids paths Hp _ IH]; [done|]. simpl. rewrite IH. f_equal.
  destruct (i =s fid) eqn:Hi, (p =s fp) eqn:Hpp; try done.
  - apply str_eqb_eq in Hi as ->. apply str_eqb_neq in Hpp. congruence.
  - apply str_eqb_eq in Hpp as ->. apply str_eqb_neq in Hi. destruct Hi.
    assert (Some i = Some fid) as [= ->]; [|done]. by eapply folder_path_inj.
Qed.

Lemma folder_eq_agree o op fid fp :
  folder_path tree (Some fid) = Ok fp -> folder_path tree o = Ok op ->
  opt_str_eqb o (Some fid) = (op =s fp).
Proof using Hwf.
  intros Hfp Hop. unfold opt_str_eqb. case_bool_decide as Ho; symmetry.
  - subst o. apply str_eqb_eq. congruence.
  - apply str_eqb_neq. intros ->. apply Ho. by eapply folder_path_inj.
Qed.

(** The path of a folder's context is the printed path of the folder. *)
Lemma folder_context_path revision ctx :
  context_of tree revision ctx -> tc_kind ctx = "folder" ->
  folder_path tree (Some (tc_node_id ctx)) = Ok (tc_path ctx).
Proof using Hwf.
  intros [Hctx Hfolder] Hk. destruct (Hfolder Hk) as (f & Hf & Hid & Hn & Hp).
  apply node_context_inv in Hctx as (l & paths & Hc & Heq & Hfp & _).
  assert (find_folder tree (tc_node_id ctx) = Some f) as Hfind.
  { destruct (find_folder tree (tc_node_id ctx)) as [g|] eqn:Hg.
    - apply find_folder_some in Hg as [Hg1 Hg2]. f_equal.
      eapply (NoDup_fmap_inj_elem wf_folder_id); [apply (wft_ids _ Hwf)|done|done|congruence].
    - apply find_none_iff in Hg. rewrite Forall_forall in Hg.
      specialize (Hg f Hf). simpl in Hg. by rewrite Hid, str_eqb_refl in Hg. }
  assert (folder_chain tree (Some (tc_node_id ctx)) (f :: l)) as Hc'
    by (constructor; [done|by rewrite Hp]).
  rewrite (folder_path_chain _ _ _ Hc').
  rewrite (folder_path_chain _ _ _ Hc) in Hfp. injection Hfp as Hfp.
  rewrite Heq. simpl. rewrite <- Hfp, <- Hn.
  by rewrite workload_path_names by (by eapply chain_names_ok).
Qed.

Lemma reference_agree revision ctx fid fp request strict :
  context_of tree revision ctx -> folder_path tree (Some fid) = Ok fp ->
  folder_value_matches (RefId fid) request ctx strict
  = folder_value_matches (RefPath fp) request ctx strict.
Proof using Hwf.
  intros Hctx Hfp. simpl. unfold below_context.
  assert ((tc_kind ctx =s "folder") && (tc_node_id ctx =s fid)
          = (tc_kind ctx =s "folder") && (tc_path ctx =s fp)) as ->.
  { destruct (tc_kind ctx =s "folder") eqn:Hk; [|done]. simpl. apply str_eqb_eq in Hk.
    pose proof (folder_context_path _ _ Hctx Hk) as Hself.
    rewrite <- (folder_eq_agree _ _ _ _ Hfp Hself). unfold opt_str_eqb.
    case_bool_decide as Hd; [injection Hd as ->; apply str_eqb_refl|].
    apply str_eqb_neq. congruence. }
  destruct Hctx as [Hctx _].
  apply node_context_inv in Hctx as (l & paths & _ & Heq & Hop & Hall).
  rewrite (folder_eq_agree _ _ _ _ Hfp Hop).
  replace (tc_ancestor_ids ctx) with (rev (wf_folder_id <$> l)) by (by rewrite Heq).
  replace (tc_ancestor_paths ctx) with ("/" :: paths) by (by rewrite Heq).
  by rewrite (ancestors_agree _ _ _ _ Hfp Hall).
Qed.
End references.

(** ** Lemmas: ancestry and totality *)

Lemma chain_ids_reachable tree d l fid :
  folder_chain tree (Some d) l ->
  fid ∈ (wf_folder_id <$> l) <-> rtc (parent_step tree) d fid.
Proof.
  intros Hc. split.
  - remember (Some d) as o eqn:Ho. revert d Ho.
    induction Hc as [|id f l Hf Hl IH]; intros d Ho; [done|]. injection Ho as ->.
    apply find_folder_some in Hf as Hid. destruct Hid as [_ Hid].
    rewrite fmap_cons. intros [->|Hin]%elem_of_cons; [by rewrite Hid|].
    destruct (wf_parent_id f) as [pid|] eqn:Hp; [|inversion Hl; subst; by apply elem_of_nil in Hin].
    eapply rtc_l; [by exists f|]. by apply IH.
  - intros Hr. revert l Hc. induction Hr as [d|d e fid Hstep Hr IH]; intros l Hc.
    + inversion Hc as [|? f l' Hf Hl]; subst.
      apply find_folder_some in Hf as [_ <-]. rewrite fmap_cons. set_solver.
    + destruct Hstep as (g & Hg & Hp). inversion Hc as [|? f l' Hf Hl]; subst.
      rewrite Hg in Hf. injection Hf as <-. rewrite Hp in Hl.
      rewrite fmap_cons. apply elem_of_cons. right. by apply IH.
Qed.

Lemma try_fold_total {A B E} (f : B -> A -> Result B E) acc l :
  (forall b x, x ∈ l -> exists b', f b x = Ok b') -> exists b, try_fold f acc l = Ok b.
Proof.
  revert acc. induction l as [|x l IH]; intros acc H; simpl; [eauto|].
  destruct (H acc x) as [b' ->]; [set_solver|]. simpl. apply IH. intros b y Hy. apply H. set_solver.
Qed.

Lemma enriched_resource_context rows snap request target :
  snapshot_load (Ok rows) = Ok snap ->
  opt_filter tc_placed (req_resource_tree (snapshot_enrich snap request)) = Some target ->
  context_of (mkWorkloadTree (rows_folders rows) (rows_placements rows)) (snap_revision snap) target.
Proof.
  intros Hload Ht. simpl in Ht.
  destruct (resource_node (req_resource request)) as [k|]; simpl in Ht; [|done].
  destruct (snap_nodes snap !! k) as [ctx|] eqn:Hk; simpl in Ht; [|done].
  case_match; [|done]. simplify_eq. by eapply snapshot_load_contexts.
Qed.

(** ** Properties *)

(** On requests enriched from a loaded, well-formed Tree, a folder condition gives the same
    answer whether the rule names the folder by its stable ID or by its current path. *)
Theorem folder_reference_id_path_agree rows snap request rule fid fp strict :
  let tree := mkWorkloadTree (rows_folders rows) (rows_placements rows) in
  well_formed_tree tree -> snapshot_load (Ok rows) = Ok snap ->
  folder_path tree (Some fid) = Ok fp ->
  condition_matches rule (snapshot_enrich snap request) (ResourceBelowFolder (RefId fid) strict)
  = condition_matches rule (snapshot_enrich snap request) (ResourceBelowFolder (RefPath fp) strict).
Proof.
  intros tree Hwf Hload Hfp. unfold condition_matches.
  destruct (opt_filter tc_placed (req_resource_tree (snapshot_enrich snap request))) as [target|] eqn:Ht;
    [|done].
  apply (reference_agree tree Hwf (snap_revision snap)); [|done].
  by eapply enriched_resource_context.
Qed.

Lemma folder_reference_id_path_agree_witness :
  condition_matches sample_rule (snapshot_enrich sample_snapshot sample_request)
    (ResourceBelowFolder (RefId "a") false)
  = condition_matches sample_rule (snapshot_enrich sample_snapshot sample_request)
      (ResourceBelowFolder (RefPath "/a") false).
Proof.
  apply (folder_reference_id_path_agree sample_tree_rows sample_snapshot sample_request sample_rule
           "a" "/a" false); [exact sample_well_formed|vm_compute; reflexivity|vm_compute; reflexivity].
Defined.

(** A rule condition on a folder ID holds of a placed Agent or App exactly when walking the
    parents from the folder that contains it reaches that folder, so matching is by position in
    the stored Tree and not by any text the caller supplies. *)
Theorem below_folder_is_ancestry rows snap request rule fid target :
  let tree := mkWorkloadTree (rows_folders rows) (rows_placements rows) in
  snapshot_load (Ok rows) = Ok snap ->
  opt_filter tc_placed (req_resource_tree (snapshot_enrich snap request)) = Some target ->
  tc_kind target <> "folder" ->
  condition_matches rule (snapshot_enrich snap request) (ResourceBelowFolder (RefId fid) false) = true
  <-> exists d, tc_folder_id target = Some d /\ rtc (parent_step tree) d fid.
Proof.
  intros tree Hload Ht Hkind. unfold condition_matches. rewrite Ht. simpl. unfold below_context.
  apply str_eqb_neq in Hkind. rewrite Hkind. simpl. rewrite orb_false_r, andb_true_r.
  destruct (enriched_resource_context _ _ _ _ Hload Ht) as [Hctx _].
  apply node_context_inv in Hctx as (l & paths & Hc & Heq & _ & _). fold tree in Hc.
  replace (tc_ancestor_ids target) with (rev (wf_folder_id <$> l)) by (by rewrite Heq).
  rewrite existsb_elem. split.
  - intros (a & Ha & ->%str_eqb_eq). apply list_elem_of_In, in_rev, list_elem_of_In in Ha.
    destruct (tc_folder_id target) as [d|]; [|inversion Hc; subst; by apply elem_of_nil in Ha].
    exists d. split; [done|]. by eapply chain_ids_reachable.
  - intros (d & Hd & Hr). rewrite Hd in Hc. exists fid. rewrite str_eqb_refl. split; [|done].
    apply list_elem_of_In, in_rev. rewrite rev_involutive. apply list_elem_of_In.
    by eapply chain_ids_reachable.
Qed.

Lemma below_folder_is_ancestry_witness :
  condition_matches sample_rule (snapshot_enrich sample_snapshot sample_request)
    (ResourceBelowFolder (RefId "a") false) = true
  <-> exists d, Some "sub" = Some d /\ rtc (parent_step sample_tree) d "a".
Proof.
  destruct (opt_filter tc_placed (req_resource_tree (snapshot_enrich sample_snapshot sample_request)))
    as [t|] eqn:E; [|vm_compute in E; discriminate].
  assert (tc_kind t <> "folder" /\ tc_folder_id t = Some "sub") as [Hk Hf]
    by (vm_compute in E; injection E as <-; done).
  rewrite <- Hf.
  apply (below_folder_is_ancestry sample_tree_rows sample_snapshot sample_request sample_rule "a" t);
    [vm_compute; reflexivity|exact E|exact Hk].
Defined.

(** Loading succeeds whenever the stored revision is valid and every folder and placement
    has a finite walk to the root. *)
Theorem snapshot_load_succeeds rows revision :
  let tree := mkWorkloadTree (rows_folders rows) (rows_placements rows) in
  rows_revision rows = Some revision -> (0 <= revision)%Z ->
  (forall f, f ∈ rows_folders rows -> exists l, folder_chain tree (wf_parent_id f) l) ->
  (forall p, p ∈ rows_placements rows -> exists l, folder_chain tree (wp_folder_id p) l) ->
  exists snap, snapshot_load (Ok rows) = Ok snap.
Proof.
  intros tree Hrev Hpos Hfolders Hplaced. unfold snapshot_load. simpl. rewrite Hrev. simpl.
  replace (revision <? 0)%Z with false by lia. simpl. fold tree.
  assert (forall id kind name p q, exists ctx,
    node_context tree revision id kind name
      (match List.find q (wt_placements tree) with Some p => wp_folder_id p | None => None end) p
    = Ok ctx) as Hnode.
  { intros id kind name p q. destruct (List.find q (wt_placements tree)) as [pl|] eqn:Hq.
    - apply find_elem in Hq as [Hq _]. destruct (Hplaced pl Hq) as [l Hl]. by eapply node_context_total.
    - eapply node_context_total. constructor. }
  unfold load_folder_nodes.
  edestruct (try_fold_total (fun (nodes : gmap string PolicyTreeContext) f =>
    let? ctx := node_context tree revision (wf_folder_id f) "folder" (wf_name f) (wf_parent_id f) true in
    Ok (<[wf_folder_id f := ctx]> nodes))) as [nodes ->].
  { intros b f Hf. destruct (Hfolders f Hf) as [l Hl].
    destruct (node_context_total tree revision (wf_folder_id f) "folder" (wf_name f) _ true _ Hl)
      as [ctx ->]. simpl. eauto. }
  simpl. edestruct (try_fold_total (load_credential tree revision)) as [snap ->].
  { intros b row _. unfold load_credential. case_match; [|eauto].
    edestruct Hnode as [ctx ->]. simpl. case_match; eauto. }
  simpl. apply try_fold_total. intros b row _. unfold load_app. case_match; [eauto|].
  edestruct Hnode as [ctx ->]. simpl. eauto.
Qed.

Lemma snapshot_load_succeeds_witness : exists snap, snapshot_load (Ok sample_tree_rows) = Ok snap.
Proof.
  apply (snapshot_load_succeeds sample_tree_rows 7); [reflexivity|lia| |];
    intros f Hf; repeat (apply elem_of_cons in Hf as [->|Hf]; [eexists; repeat econstructor|]);
    by apply elem_of_nil in Hf.
Defined.
