(* ===== verification/PolicyCompile.v ===== *)
(** * Compiled policies (crates/treer-proxy/src/policy.rs, [CompiledWorkspacePolicy])

    [compile] indexes the rules of a document by action and sorts each bucket; [explain] finds
    the first rule of the bucket that matches a request. *)

From S2P Require Import Prelude RustStr Protocol WorkloadTree PolicyRequest PolicyPath PolicyStore.

Record CompiledWorkspacePolicy : Type := mkCompiled {
  cp_revision : Z;
  cp_mode : PolicyMode;
  cp_defaults : gmap string PolicyEffect;
  cp_groups : gmap string (list PolicyPrincipalRef);
  cp_rules_by_action : gmap string (list WorkspacePolicyRule)
}.

(** ** Compilation *)

Definition effect_order (effect : PolicyEffect) : Z :=
  match effect with Allow => 0 | Deny => 1 end.

(** [Ordering::then_with] *)
Definition then_with (a b : comparison) : comparison := match a with Eq => b | _ => a end.

(** The comparator of [rules.sort_by]. *)
Definition rule_cmp (stable_ties : bool) (left right : WorkspacePolicyRule) : comparison :=
  then_with (Z.compare (rule_priority right) (rule_priority left))
    (then_with (Z.compare (effect_order (rule_effect right)) (effect_order (rule_effect left)))
       (if stable_ties then String.compare (rule_id left) (rule_id right) else Eq)).

(** [slice::sort_by], which is stable: an element stays before the later ones it equals. *)
Fixpoint sort_insert {A} (cmp : A -> A -> comparison) (x : A) (l : list A) : list A :=
  match l with
  | [] => [x]
  | y :: l' =>
      match cmp x y with
      | Gt => y :: sort_insert cmp x l'
      | _ => x :: l
      end
  end.
Definition sort_by {A} (cmp : A -> A -> comparison) (l : list A) : list A :=
  foldr (sort_insert cmp) [] l.

(** The loop over one rule's actions: each distinct action's bucket gets the rule once. *)
Fixpoint push_actions (rule : WorkspacePolicyRule) (seen : list string)
    (m : gmap string (list WorkspacePolicyRule)) (actions : list string)
    : gmap string (list WorkspacePolicyRule) :=
  match actions with
  | [] => m
  | action :: rest =>
      if bool_decide (action ∈ seen) then push_actions rule seen m rest
      else push_actions rule (action :: seen)
             (<[action := default [] (m !! action) ++ [rule]]> m) rest
  end.

Definition index_rules (rules : list WorkspacePolicyRule) : gmap string (list WorkspacePolicyRule) :=
  foldl (fun m rule => push_actions rule [] m (rule_actions rule)) ∅ rules.

Definition compile (policy : WorkspacePolicy) : CompiledWorkspacePolicy :=
  let document := pol_document policy in
  let stable_ties := (doc_schema_version document =? 2)%Z in
  mkCompiled (pol_revision policy) (pol_mode policy) (doc_defaults document)
    (pg_principals <$> doc_groups document)
    (sort_by (rule_cmp stable_ties) <$> index_rules (doc_rules document)).

(** [CompiledWorkspacePolicy::allow]: the fail-open policy. *)
Definition compiled_allow (revision : Z) : CompiledWorkspacePolicy :=
  mkCompiled revision Monitor ∅ ∅ ∅.

(** ** Matching *)

Definition group_contains (cp : CompiledWorkspacePolicy) (group : string)
    (kind : PolicyPrincipalKind) (id : string) : bool :=
  is_some_and (cp_groups cp !! group)
    (existsb (fun p => bool_decide (pr_kind p = kind) && (pr_id p =s id))).

Definition subject_matches (cp : CompiledWorkspacePolicy) (request : PolicyRequest)
    (selector : PolicySubjectSelector) : bool :=
  let '(kind, id, machine_id) := subject_parts (req_subject request) in
  is_none_or (ss_kind selector) (fun expected => bool_decide (expected = kind))
  && selector_matches (ss_tree selector) (req_subject_tree request)
  && is_none_or (ss_id selector) (fun expected => expected =s id)
  && is_none_or (ss_machine_id selector) (fun expected => expected =s machine_id)
  && is_none_or (ss_group selector) (fun group => group_contains cp group kind id)
  && (negb (ss_is_self selector) || (res_id (req_resource request) =s id)).

Definition resource_matches (cp : CompiledWorkspacePolicy) (request : PolicyRequest)
    (selector : PolicyResourceSelector) : bool :=
  selector_matches (rs_tree selector) (req_resource_tree request)
  && is_none_or (rs_kind selector) (fun kind => kind =s res_kind (req_resource request))
  && is_none_or (rs_id selector) (fun id => id =s res_id (req_resource request))
  && is_none_or (rs_principal_group selector) (fun group =>
       is_some_and (resource_principal (req_resource request))
         (fun '(kind, id) => group_contains cp group kind id)).

Definition rule_matches (cp : CompiledWorkspacePolicy) (request : PolicyRequest)
    (rule : WorkspacePolicyRule) : bool :=
  existsb (subject_matches cp request) (rule_subjects rule)
  && existsb (resource_matches cp request) (rule_resources rule)
  && conditions_match rule request.

(** ** Explanation and evaluation *)

Definition matched_rule (cp : CompiledWorkspacePolicy) (request : PolicyRequest)
    : option WorkspacePolicyRule :=
  rules ← cp_rules_by_action cp !! req_action request;
  List.find (rule_matches cp request) rules.

Definition explain (cp : CompiledWorkspacePolicy) (request : PolicyRequest) : PolicyExplanation :=
  let matched := matched_rule cp request in
  let effect :=
    default Allow (or_else (rule_effect <$> matched) (cp_defaults cp !! req_action request)) in
  mkPolicyExplanation effect
    (match cp_mode cp with Monitor => Allow | Enforce => effect end)
    (cp_mode cp)
    (rule_id <$> matched)
    (if matched then "rule matched" else "no rule matched; action default")
    (cp_revision cp) (req_tree_revision request) "workspace_policy".

Definition evaluate (cp : CompiledWorkspacePolicy) (request : PolicyRequest) : PolicyDecision :=
  into_decision (explain cp request).

(** [CompiledWorkspacePolicy::explain_document]: a dry run of a document that is not stored. *)
Definition explain_document (now : string) (document : WorkspacePolicyDocument) (mode : PolicyMode)
    (request : PolicyRequest) : PolicyExplanation :=
  explain (compile (mkWorkspacePolicy (req_workspace_id request) 0 mode document now
                      (mkPolicyPrincipalRef KHuman "simulation"))) request.

(** ** Reference semantics *)

(** The rules of a document that apply to a request, in document order. *)
Definition applicable (policy : WorkspacePolicy) (request : PolicyRequest)
    : list WorkspacePolicyRule :=
  List.filter (fun rule => bool_decide (req_action request ∈ rule_actions rule)
                           && rule_matches (compile policy) request rule)
    (doc_rules (pol_document policy)).

(** [r] wins over [r']: higher priority, and at equal priority a deny over an allow. *)
Definition outranks (r r' : WorkspacePolicyRule) : Prop :=
  (rule_priority r' < rule_priority r)%Z
  \/ (rule_priority r' = rule_priority r /\ (rule_effect r = Deny \/ rule_effect r' = Allow)).

(** The same document with its rules in another order. *)
Definition with_rules (policy : WorkspacePolicy) (rules : list WorkspacePolicyRule)
    : WorkspacePolicy :=
  let d := pol_document policy in
  mkWorkspacePolicy (pol_workspace_id policy) (pol_revision policy) (pol_mode policy)
    (mkWorkspacePolicyDocument (doc_schema_version d) (doc_defaults d) (doc_groups d) rules)
    (pol_updated_at policy) (pol_updated_by policy).

(** The order the comparator sorts by. *)
Definition rule_le (stable_ties : bool) (r r' : WorkspacePolicyRule) : Prop :=
  rule_cmp stable_ties r r' <> Gt.

Definition has_action (a : string) (rule : WorkspacePolicyRule) : bool :=
  bool_decide (a ∈ rule_actions rule).

(** A second policy for the witnesses: two rules of equal priority that disagree. *)
Definition sample_policy : WorkspacePolicy :=
  let rule id effect :=
    mkWorkspacePolicyRule ∅ [] id 100 effect
      [mkPolicySubjectSelector None (Some KAgent) None None None false]
      ["agent.prompt"]
      [mkPolicyResourceSelector None (Some "agent") None None] in
  mkWorkspacePolicy "ws" 7 Enforce
    (mkWorkspacePolicyDocument 2 {["agent.prompt" := Allow]} ∅
       [rule "allow-a" Allow; rule "deny-b" Deny; rule "deny-a" Deny])
    "2026-01-01T00:00:00Z" sample_actor.
Definition sample_policy_request : PolicyRequest :=
  request_new "ws" (SubjAgent "srv" "agt_1") "agent.prompt" (resource_new "agent" "agt_2").

(** ** Sorting *)

Section sort.
Context {A : Type} (cmp : A -> A -> comparison).
Let le x y := cmp x y <> Gt.

Lemma sort_insert_perm x l : sort_insert cmp x l ≡ₚ x :: l.
Proof.
  induction l as [|y l IH]; simpl; [done|].
  destruct (cmp x y); [done|done|]. rewrite IH. constructor.
Qed.

Lemma sort_by_perm l : sort_by cmp l ≡ₚ l.
Proof. induction l as [|x l IH]; simpl; [done|]. by rewrite sort_insert_perm, IH. Qed.

Context (cmp_trans : forall x y z, le x y -> le y z -> le x z)
        (cmp_total : forall x y, cmp x y = Gt -> le y x).

Lemma sort_insert_sorted x l :
  StronglySorted le l -> StronglySorted le (sort_insert cmp x l).
Proof.
  induction 1 as [|y l Hl IH Hy]; simpl; [by repeat constructor|].
  assert (forall c, cmp x y = c -> c <> Gt -> StronglySorted le (x :: y :: l)) as Hhead.
  { intros c Hc Hne. assert (le x y) as Hxy by (unfold le; congruence).
    constructor; [by constructor|]. constructor; [done|].
    eapply Forall_impl; [exact Hy|]. eauto. }
  destruct (cmp x y) eqn:Hc; [by apply (Hhead Eq)|by apply (Hhead Lt)|].
  constructor; [done|]. rewrite sort_insert_perm. constructor; [by apply cmp_total|done].
Qed.

Lemma sort_by_sorted l : StronglySorted le (sort_by cmp l).
Proof. induction l; simpl; [constructor|by apply sort_insert_sorted]. Qed.

(** The first element satisfying [p] of the sorted list is a least one. *)
Lemma find_sort_least p l x :
  List.find p (sort_by cmp l) = Some x ->
  x ∈ l /\ p x = true /\ forall y, y ∈ l -> p y = true -> x = y \/ le x y.
Proof.
  intros (l1 & l2 & Heq & Hx & Hl1)%find_some_split.
  pose proof (sort_by_perm l) as Hp. pose proof (sort_by_sorted l) as Hs.
  rewrite Heq in Hp, Hs. split_and!; [rewrite <- Hp; set_solver|done|].
  intros y Hy Hpy. rewrite <- Hp, elem_of_app, elem_of_cons in Hy.
  destruct Hy as [Hy|[->|Hy]]; [|by left|].
  - rewrite Forall_forall in Hl1. apply Hl1 in Hy. congruence.
  - right. apply StronglySorted_app in Hs as (_ & _ & Hs).
    apply StronglySorted_inv in Hs as [_ Hs]. rewrite Forall_forall in Hs. by apply Hs.
Qed.
End sort.

(** ** The comparator is a total preorder *)

Lemma effect_order_inj e e' : effect_order e = effect_order e' -> e = e'.
Proof. by destruct e, e'. Qed.

Lemma rule_le_iff st r r' :
  rule_le st r r' <->
  (rule_priority r' < rule_priority r)%Z \/
  (rule_priority r' = rule_priority r /\
    ((effect_order (rule_effect r') < effect_order (rule_effect r))%Z \/
     (rule_effect r' = rule_effect r /\ (st = false \/ String.le (rule_id r) (rule_id r'))))).
Proof.
  unfold rule_le, rule_cmp, then_with, String.le, String.leb.
  destruct (Z.compare_spec (rule_priority r') (rule_priority r)) as [Hp|Hp|Hp]; [|naive_solver lia|naive_solver lia].
  destruct (Z.compare_spec (effect_order (rule_effect r')) (effect_order (rule_effect r))) as [He|He|He];
    [|naive_solver lia|split; [done|]; intros [?|(_&[?|[Heq _]])]; [lia|lia|rewrite Heq in He; lia]].
  apply effect_order_inj in He. rewrite He.
  destruct st, (String.compare _ _); simpl;
    (split; [intros ?; right; split; [done|]; right; auto|intros [?|[_ [?|[_ [?|?]]]]]; done || lia]).
Qed.

Lemma rule_le_trans st r1 r2 r3 : rule_le st r1 r2 -> rule_le st r2 r3 -> rule_le st r1 r3.
Proof.
  rewrite !rule_le_iff. intros [?|[Hp H12]] [?|[Hp' H23]]; [left; lia..|right; split; [lia|]].
  destruct H12 as [?|[He H12]], H23 as [?|[He' H23]];
    rewrite ?He, ?He' in *; [left; lia|by left|by left|right; split; [done|]].
  destruct H12 as [?|H12], H23 as [?|H23]; [by left..|]. right. by etrans.
Qed.

Lemma rule_le_total st r r' : rule_cmp st r r' = Gt -> rule_le st r' r.
Proof.
  intros Hgt Hn. unfold rule_cmp, then_with in *.
  rewrite (Z.compare_antisym (rule_priority r')) in Hn.
  rewrite (Z.compare_antisym (effect_order (rule_effect r'))) in Hn.
  rewrite (String.compare_antisym (rule_id r') (rule_id r)) in Hn.
  repeat match goal with H : context [Z.compare ?a ?b] |- _ => destruct (Z.compare a b) end;
    simpl in *; try congruence.
  destruct st; simpl in *; [destruct (String.compare _ _); simpl in *|]; congruence.
Qed.

Lemma rule_le_outranks st r r' : rule_le st r r' -> outranks r r'.
Proof.
  rewrite rule_le_iff. unfold outranks. intros [?|[-> H]]; [by left|right; split; [done|]].
  destruct H as [H|[-> _]]; destruct (rule_effect r), (rule_effect r'); simpl in *; auto; lia.
Qed.

(** ** The index *)

Lemma push_actions_lookup rule seen m actions a :
  push_actions rule seen m actions !! a =
  if bool_decide (a ∈ actions /\ a ∉ seen) then Some (default [] (m !! a) ++ [rule]) else m !! a.
Proof.
  revert seen m. induction actions as [|b actions IH]; intros seen m; simpl; [done|].
  destruct (bool_decide_reflect (b ∈ seen)) as [Hb|Hb]; rewrite IH.
  - destruct (decide (a = b)) as [->|Hne].
    + rewrite !bool_decide_false; [done|set_solver..].
    + rewrite (bool_decide_ext _ (a ∈ b :: actions /\ a ∉ seen)); [done|set_solver].
  - destruct (decide (a = b)) as [->|Hne].
    + rewrite lookup_insert_eq, bool_decide_false, bool_decide_true; [done|set_solver..].
    + rewrite lookup_insert_ne by done.
      rewrite (bool_decide_ext _ (a ∈ b :: actions /\ a ∉ seen)); [done|set_solver].
Qed.

Lemma index_fold_lookup rules m a :
  default [] (foldl (fun m rule => push_actions rule [] m (rule_actions rule)) m rules !! a) =
  default [] (m !! a) ++ List.filter (has_action a) rules.
Proof.
  revert m. induction rules as [|r rules IH]; intros m; simpl; [by rewrite app_nil_r|].
  rewrite IH, push_actions_lookup. unfold has_action at 2.
  rewrite (bool_decide_ext (a ∈ rule_actions r /\ a ∉ []) (a ∈ rule_actions r)) by set_solver.
  case_bool_decide; simpl; [by rewrite <- (assoc_L (++))|done].
Qed.

(** The bucket of an action: the document's rules for it, sorted. *)
Lemma compile_bucket policy a :
  default [] (cp_rules_by_action (compile policy) !! a) =
  sort_by (rule_cmp (doc_schema_version (pol_document policy) =? 2)%Z)
    (List.filter (has_action a) (doc_rules (pol_document policy))).
Proof.
  simpl. rewrite lookup_fmap. pose proof (index_fold_lookup (doc_rules (pol_document policy)) ∅ a) as H.
  rewrite lookup_empty in H. unfold index_rules.
  destruct (foldl _ _ _ !! a); simpl in *; by rewrite <- H.
Qed.

Lemma matched_rule_bucket cp request :
  matched_rule cp request =
  List.find (rule_matches cp request) (default [] (cp_rules_by_action cp !! req_action request)).
Proof. unfold matched_rule. by destruct (cp_rules_by_action cp !! req_action request). Qed.

Lemma applicable_elem policy request r :
  r ∈ applicable policy request <->
  r ∈ List.filter (has_action (req_action request)) (doc_rules (pol_document policy))
  /\ rule_matches (compile policy) request r = true.
Proof.
  unfold applicable. rewrite !filter_elem, andb_true_iff. unfold has_action. tauto.
Qed.

Lemma matched_rule_least policy request r :
  let st := (doc_schema_version (pol_document policy) =? 2)%Z in
  matched_rule (compile policy) request = Some r ->
  r ∈ applicable policy request /\
  forall r', r' ∈ applicable policy request -> r = r' \/ rule_le st r r'.
Proof.
  intros st. rewrite matched_rule_bucket, compile_bucket.
  intros (Hr & Hm & Hleast)%find_sort_least; [|apply rule_le_trans|apply rule_le_total].
  setoid_rewrite applicable_elem. split; [done|]. intros r' [Hr' Hm']. by apply Hleast.
Qed.

Lemma matched_rule_none policy request :
  matched_rule (compile policy) request = None <-> applicable policy request = [].
Proof.
  rewrite matched_rule_bucket, compile_bucket, find_none_iff, sort_by_perm, Forall_forall.
  split.
  - intros H. apply elem_of_nil_inv. intros r [Hr Hm]%applicable_elem. apply H in Hr. congruence.
  - intros H r Hr. destruct (rule_matches _ _ r) eqn:Hm; [|done].
    assert (r ∈ applicable policy request) as Hin by by apply applicable_elem.
    rewrite H in Hin. set_solver.
Qed.

Lemma outranks_refl r : outranks r r.
Proof. right. split; [done|]. destruct (rule_effect r); auto. Qed.

Lemma matched_rule_outranks policy request r r' :
  matched_rule (compile policy) request = Some r -> r' ∈ applicable policy request ->
  outranks r r'.
Proof.
  intros [_ H]%matched_rule_least [->|Hle%rule_le_outranks]%H; [apply outranks_refl|done].
Qed.

(** A compiled policy decides by precedence.  The matched rule of a request is one of the
    document's applicable rules; every other applicable rule has lower priority, or the same
    priority and no stronger effect (deny beats allow), and under schema 2 a rule of the same
    priority and effect has no smaller ID.  When no rule is matched none is applicable. *)
Theorem matched_rule_precedence policy request :
  match matched_rule (compile policy) request with
  | Some r =>
      r ∈ applicable policy request /\
      forall r', r' ∈ applicable policy request ->
        outranks r r' /\
        (doc_schema_version (pol_document policy) = 2%Z ->
         rule_priority r' = rule_priority r -> rule_effect r' = rule_effect r ->
         String.le (rule_id r) (rule_id r'))
  | None => applicable policy request = []
  end.
Proof.
  destruct (matched_rule _ _) as [r|] eqn:Hm; [|by apply matched_rule_none].
  destruct (matched_rule_least _ _ _ Hm) as [Hr Hleast]. split; [done|].
  intros r' Hr'. split; [by eapply matched_rule_outranks|]. intros Hs Hp He.
  destruct (Hleast r' Hr') as [->|Hle]; [done|]. rewrite Hs in Hle.
  apply rule_le_iff in Hle as [?|[_ [Hlt|[_ [?|?]]]]]; [lia|rewrite He in Hlt; lia|done|done].
Qed.

(** C1: an operation is denied exactly when the policy is enforced and either a deny rule
    applies that no applicable rule exceeds in priority, or no rule applies and the action's
    default is deny. *)
Theorem denied_iff policy request :
  evaluate (compile policy) request = DecDeny policy_denied <->
  pol_mode policy = Enforce /\
  ((exists r, r ∈ applicable policy request /\ rule_effect r = Deny /\
      forall r', r' ∈ applicable policy request -> (rule_priority r' <= rule_priority r)%Z)
   \/ (applicable policy request = [] /\
       doc_defaults (pol_document policy) !! req_action request = Some Deny)).
Proof.
  unfold evaluate, into_decision, explain; simpl.
  destruct (matched_rule _ _) as [r|] eqn:Hm; simpl.
  - destruct (matched_rule_least _ _ _ Hm) as [Hr _].
    assert (forall r', r' ∈ applicable policy request -> outranks r r') as Hout
      by (intros; by eapply matched_rule_outranks).
    destruct (pol_mode policy); [naive_solver|]. split.
    + intros Hd. split; [done|]. left. exists r. split_and!; [done|by destruct (rule_effect r)|].
      intros r' Hr'. destruct (Hout r' Hr') as [|[? _]]; lia.
    + intros [_ [(r' & Hr' & Hd & Hmax)|[Hnil _]]]; [|rewrite Hnil in Hr; set_solver].
      specialize (Hmax r Hr). destruct (Hout r' Hr') as [|[_ [->|]]]; [lia|done|congruence].
  - apply matched_rule_none in Hm. rewrite Hm.
    destruct (pol_mode policy), (doc_defaults _ !! _) as [[]|] eqn:Hd; simpl; set_solver.
Qed.

(** ** Rule order *)

Lemma rule_le_antisym r r' : rule_le true r r' -> rule_le true r' r -> rule_id r = rule_id r'.
Proof.
  rewrite !rule_le_iff. intros [?|[Hp H]] [?|[Hp' H']]; [lia..|].
  destruct H as [?|[He [?|Hle]]], H' as [?|[He' [?|Hle']]]; try done; try lia;
    try (rewrite ?He, ?He' in *; lia).
  by apply (anti_symm String.le).
Qed.

Lemma applicable_perm policy rules request r :
  rules ≡ₚ doc_rules (pol_document policy) ->
  r ∈ applicable (with_rules policy rules) request <-> r ∈ applicable policy request.
Proof.
  intros Hp. rewrite !applicable_elem, !filter_elem; simpl.
  assert (rule_matches (compile (with_rules policy rules)) request r
          = rule_matches (compile policy) request r) as -> by reflexivity.
  by rewrite Hp.
Qed.

Lemma matched_rule_perm_effect policy rules request :
  rules ≡ₚ doc_rules (pol_document policy) ->
  rule_effect <$> matched_rule (compile (with_rules policy rules)) request
  = rule_effect <$> matched_rule (compile policy) request.
Proof.
  intros Hp. pose proof (applicable_perm policy rules request) as Happ.
  destruct (matched_rule (compile (with_rules _ _)) _) as [r|] eqn:Hr,
    (matched_rule (compile policy) _) as [r'|] eqn:Hr'; simpl.
  - pose proof (proj1 (matched_rule_least _ _ _ Hr)) as Hin.
    pose proof (proj1 (matched_rule_least _ _ _ Hr')) as Hin'.
    pose proof (matched_rule_outranks _ _ _ r' Hr (proj2 (Happ r' Hp) Hin')) as H1.
    pose proof (matched_rule_outranks _ _ _ r Hr' (proj1 (Happ r Hp) Hin)) as H2.
    unfold outranks in *. destruct (rule_effect r), (rule_effect r'); naive_solver lia.
  - apply matched_rule_none in Hr'. apply matched_rule_least in Hr as [Hr _].
    apply (Happ _ Hp) in Hr. rewrite Hr' in Hr. set_solver.
  - apply matched_rule_none in Hr. apply matched_rule_least in Hr' as [Hr' _].
    apply (Happ _ Hp) in Hr'. rewrite Hr in Hr'. set_solver.
  - done.
Qed.

Lemma matched_rule_perm policy rules request :
  rules ≡ₚ doc_rules (pol_document policy) ->
  doc_schema_version (pol_document policy) = 2%Z ->
  NoDup (rule_id <$> doc_rules (pol_document policy)) ->
  matched_rule (compile (with_rules policy rules)) request = matched_rule (compile policy) request.
Proof.
  intros Hp Hs Hnd. pose proof (matched_rule_perm_effect policy rules request Hp) as Heff.
  destruct (matched_rule (compile (with_rules _ _)) _) as [r|] eqn:Hr,
    (matched_rule (compile policy) _) as [r'|] eqn:Hr'; try done.
  apply matched_rule_least in Hr as [Hr Hle], Hr' as [Hr' Hle'].
  rewrite applicable_perm in Hr by done. simpl in Hle, Hle'. rewrite Hs in Hle, Hle'.
  setoid_rewrite applicable_perm in Hle; [|done].
  destruct (Hle r' Hr') as [->|H1]; [done|]. destruct (Hle' r Hr) as [->|H2]; [done|].
  f_equal. apply applicable_elem in Hr as [[Hr _]%filter_elem _], Hr' as [[Hr' _]%filter_elem _].
  pose proof (rule_le_antisym r r' H1 H2) as Hid.
  apply list_elem_of_lookup in Hr as [i Hi], Hr' as [j Hj].
  assert (i = j) as ->; [|congruence].
  eapply NoDup_lookup; [exact Hnd|by rewrite list_lookup_fmap, Hi|].
  by rewrite list_lookup_fmap, Hj, Hid.
Qed.

(** The order in which a document lists its rules does not matter.  Permuting the rules
    never changes the computed effect or the effective decision, and under schema 2 (whose
    validation makes rule IDs unique) it changes nothing in the explanation, the matched rule
    included. *)
Theorem rule_order_irrelevant policy rules request :
  rules ≡ₚ doc_rules (pol_document policy) ->
  let before := explain (compile policy) request in
  let after := explain (compile (with_rules policy rules)) request in
  exp_computed_effect after = exp_computed_effect before /\
  exp_effective_decision after = exp_effective_decision before /\
  (doc_schema_version (pol_document policy) = 2%Z ->
   NoDup (rule_id <$> doc_rules (pol_document policy)) -> after = before).
Proof.
  intros Hp before after. subst before after. unfold explain; simpl.
  rewrite (matched_rule_perm_effect policy rules request Hp). split_and!; [done..|].
  intros Hs Hnd. by rewrite (matched_rule_perm policy rules request Hp Hs Hnd).
Qed.

Lemma rule_order_irrelevant_witness :
  let rules := reverse (doc_rules (pol_document sample_policy)) in
  explain (compile (with_rules sample_policy rules)) sample_policy_request
  = explain (compile sample_policy) sample_policy_request.
Proof.
  apply (rule_order_irrelevant sample_policy (reverse (doc_rules (pol_document sample_policy)))
           sample_policy_request).
  - apply reverse_Permutation.
  - reflexivity.
  - apply (bool_decide_eq_true_1 _). vm_compute. reflexivity.
Defined.
