(* ===== verification/PolicyProviderStore.v ===== *)
(** * The Policy Provider binding (crates/treer-proxy/src/policy_provider_store.rs)

    One row per workspace names the App that supplies its policy.  The operations are the SQL
    statements of the store on that table, with the constraints and the update trigger the
    schema puts on it. *)

From S2P Require Import Prelude RustStr Protocol.
Local Open Scope Z_scope.

(** A row of [workspace_policy_providers]. *)
Record ProviderRow : Type := mkProviderRow {
  pv_app_id : string;
  pv_service_id : string;
  pv_failure_mode : string;
  pv_max_stale_seconds : Z;
  pv_revision_hint : Z;
  pv_updated_at : string;
  pv_updated_by : string;
  pv_publish_authority : string
}.

(** The [policy_provider.publish_authority.set] audit events. *)
Record AuthorityAudit : Type := mkAuthorityAudit {
  aa_organization : string;
  aa_workspace : string;
  aa_actor : string;
  aa_app : string;
  aa_previous : string;
  aa_authority : PolicyPublishAuthority
}.

(** The tables the store reads and writes; workspaces carry their organization. *)
Record ProviderDb : Type := mkProviderDb {
  pvdb_workspaces : gmap string string;
  pvdb_apps : gset string;
  pvdb_services : gset string;
  pvdb_rows : gmap string ProviderRow;
  pvdb_audit : list AuthorityAudit
}.

Inductive SqlxError : Type :=
| SqlxDecode (message : string)
| SqlxDatabase (message : string)
| SqlxRowNotFound.

Definition failure_mode_as_str (m : PolicyProviderFailureMode) : string :=
  match m with FailClosed => "fail_closed" | FailOpen => "fail_open" end.
Definition publish_authority_as_str (a : PolicyPublishAuthority) : string :=
  match a with OwnerSession => "owner_session" | ProviderOperator => "provider_operator" end.

Definition with_rows (db : ProviderDb) (rows : gmap string ProviderRow) : ProviderDb :=
  mkProviderDb (pvdb_workspaces db) (pvdb_apps db) (pvdb_services db) rows (pvdb_audit db).

(** [u64::try_from(i64)] and [i64::try_from(u64)]. *)
Definition u64_of_i64 (v : Z) : Result Z string :=
  if v <? 0 then Err "out of range integral type conversion attempted" else Ok v.
Definition i64_of_u64 (v : Z) : Result Z SqlxError :=
  if i64_max <? v then Err (SqlxDecode "out of range integral type conversion attempted") else Ok v.

(** The CHECK constraints of the table. *)
Definition row_checks (row : ProviderRow) : bool :=
  ((pv_failure_mode row =s "fail_closed") || (pv_failure_mode row =s "fail_open"))
  && (0 <=? pv_max_stale_seconds row) && (pv_max_stale_seconds row <=? 86400)
  && (0 <=? pv_revision_hint row)
  && ((pv_publish_authority row =s "owner_session")
      || (pv_publish_authority row =s "provider_operator")).

(** Its foreign keys. *)
Definition row_references (db : ProviderDb) (workspace_id : string) (row : ProviderRow) : bool :=
  bool_decide (is_Some (pvdb_workspaces db !! workspace_id))
  && bool_decide (pv_app_id row ∈ pvdb_apps db)
  && bool_decide (pv_service_id row ∈ pvdb_services db).

(** The trigger [reset_policy_publish_authority], fired by an update of [app_id] or
    [service_id]. *)
Definition reset_policy_publish_authority (old new : ProviderRow) : ProviderRow :=
  if negb (pv_app_id new =s pv_app_id old) || negb (pv_service_id new =s pv_service_id old)
  then mkProviderRow (pv_app_id new) (pv_service_id new) (pv_failure_mode new)
         (pv_max_stale_seconds new) (pv_revision_hint new) (pv_updated_at new)
         (pv_updated_by new) "owner_session"
  else new.

Section provider_store.
Context (parse_rfc3339 : string -> Result string string).

Definition provider_from_row (workspace_id : string) (row : ProviderRow)
    : Result WorkspacePolicyProvider string :=
  let? failure_mode :=
    if pv_failure_mode row =s "fail_closed" then Ok FailClosed
    else if pv_failure_mode row =s "fail_open" then Ok FailOpen
    else Err ("invalid policy provider failure mode " +:+ pv_failure_mode row) in
  let? updated_at := parse_rfc3339 (pv_updated_at row) in
  let? max_stale_seconds := u64_of_i64 (pv_max_stale_seconds row) in
  let? revision_hint := u64_of_i64 (pv_revision_hint row) in
  let? publish_authority :=
    if pv_publish_authority row =s "owner_session" then Ok OwnerSession
    else if pv_publish_authority row =s "provider_operator" then Ok ProviderOperator
    else Err ("invalid policy publication authority " +:+ pv_publish_authority row) in
  Ok (mkWorkspacePolicyProvider workspace_id (pv_app_id row) (pv_service_id row) failure_mode
        max_stale_seconds revision_hint updated_at (pv_updated_by row) publish_authority).

(** [PolicyProviderStore::get] *)
Definition provider_get (db : ProviderDb) (workspace_id : string)
    : Result (option WorkspacePolicyProvider) SqlxError :=
  match pvdb_rows db !! workspace_id with
  | None => Ok None
  | Some row =>
      let? p := map_err SqlxDecode (provider_from_row workspace_id row) in Ok (Some p)
  end.

(** The row the upsert of [set] writes. *)
Definition upserted_row (old : option ProviderRow) (app_id service_id failure_mode : string)
    (max_stale_seconds revision_hint : Z) (now actor : string) : ProviderRow :=
  match old with
  | None =>
      mkProviderRow app_id service_id failure_mode max_stale_seconds revision_hint now actor
        "owner_session"
  | Some old =>
      reset_policy_publish_authority old
        (mkProviderRow app_id service_id failure_mode max_stale_seconds
           (if pv_app_id old =s app_id then Z.max (pv_revision_hint old) revision_hint
            else revision_hint)
           now actor (pv_publish_authority old))
  end.

(** [PolicyProviderStore::set]: the statement commits on its own, before the returned row
    is decoded. *)
Definition provider_set (db : ProviderDb) (now workspace_id app_id service_id : string)
    (failure_mode : PolicyProviderFailureMode) (max_stale_seconds revision_hint : Z)
    (actor : string) : Result WorkspacePolicyProvider SqlxError * ProviderDb :=
  let attempt :=
    let? max_stale_seconds := i64_of_u64 max_stale_seconds in
    let? revision_hint := i64_of_u64 revision_hint in
    let row := upserted_row (pvdb_rows db !! workspace_id) app_id service_id
                 (failure_mode_as_str failure_mode) max_stale_seconds revision_hint now actor in
    if row_checks row && row_references db workspace_id row then Ok row
    else Err (SqlxDatabase "constraint violation") in
  match attempt with
  | Err e => (Err e, db)
  | Ok row =>
      (map_err SqlxDecode (provider_from_row workspace_id row),
       with_rows db (<[workspace_id := row]> (pvdb_rows db)))
  end.

(** [PolicyProviderStore::clear] *)
Definition provider_clear (db : ProviderDb) (workspace_id : string) : bool * ProviderDb :=
  (is_some (pvdb_rows db !! workspace_id),
   with_rows db (delete workspace_id (pvdb_rows db))).

(** [PolicyProviderStore::set_publish_authority]: one transaction, which an error rolls
    back. *)
Definition set_publish_authority (db : ProviderDb) (now workspace expected_app : string)
    (authority : PolicyPublishAuthority) (actor : string)
    : Result (option WorkspacePolicyProvider) SqlxError * ProviderDb :=
  match opt_filter (fun row => pv_app_id row =s expected_app) (pvdb_rows db !! workspace) with
  | None => (Ok None, db)
  | Some old =>
      let row :=
        mkProviderRow (pv_app_id old) (pv_service_id old) (pv_failure_mode old)
          (pv_max_stale_seconds old) (pv_revision_hint old) now actor
          (publish_authority_as_str authority) in
      let attempt :=
        let? organization := ok_or (pvdb_workspaces db !! workspace) SqlxRowNotFound in
        let? provider := map_err SqlxDecode (provider_from_row workspace row) in
        Ok (organization, provider) in
      match attempt with
      | Err e => (Err e, db)
      | Ok (organization, provider) =>
          (Ok (Some provider),
           mkProviderDb (pvdb_workspaces db) (pvdb_apps db) (pvdb_services db)
             (<[workspace := row]> (pvdb_rows db))
             (mkAuthorityAudit organization workspace actor expected_app
                (pv_publish_authority old) authority :: pvdb_audit db))
      end
  end.

(** [PolicyProviderStore::advance_revision] *)
Definition advance_revision (db : ProviderDb) (workspace_id app_id : string) (revision : Z)
    : Result (option Z) SqlxError * ProviderDb :=
  match i64_of_u64 revision with
  | Err e => (Err e, db)
  | Ok revision =>
      match opt_filter (fun row => pv_app_id row =s app_id) (pvdb_rows db !! workspace_id) with
      | None => (Ok None, db)
      | Some old =>
          let hint := Z.max (pv_revision_hint old) revision in
          let row :=
            mkProviderRow (pv_app_id old) (pv_service_id old) (pv_failure_mode old)
              (pv_max_stale_seconds old) hint (pv_updated_at old) (pv_updated_by old)
              (pv_publish_authority old) in
          (map_err SqlxDecode (let? v := u64_of_i64 hint in Ok (Some v)),
           with_rows db (<[workspace_id := row]> (pvdb_rows db)))
      end
  end.

(** ** Histories: any sequence of the store's writes *)

Inductive ProviderOp : Type :=
| OpSet (now workspace_id app_id service_id : string) (failure_mode : PolicyProviderFailureMode)
    (max_stale_seconds revision_hint : Z) (actor : string)
| OpClear (workspace_id : string)
| OpAuthority (now workspace expected_app : string) (authority : PolicyPublishAuthority)
    (actor : string)
| OpAdvance (workspace_id app_id : string) (revision : Z).

Definition provider_apply (db : ProviderDb) (op : ProviderOp) : ProviderDb :=
  match op with
  | OpSet now ws app svc fm stale hint actor => (provider_set db now ws app svc fm stale hint actor).2
  | OpClear ws => (provider_clear db ws).2
  | OpAuthority now ws app authority actor => (set_publish_authority db now ws app authority actor).2
  | OpAdvance ws app revision => (advance_revision db ws app revision).2
  end.
End provider_store.

(** The write neither removes the binding of [ws] nor rebinds it to another App. *)
Definition keeps_binding (ws app : string) (op : ProviderOp) : Prop :=
  match op with
  | OpSet _ ws' app' _ _ _ _ _ => ws' = ws -> app' = app
  | OpClear ws' => ws' <> ws
  | _ => True
  end.

(** Every row with operator authority has an audit event that granted it for its App. *)
Definition authority_audited (db : ProviderDb) : Prop :=
  forall ws row, pvdb_rows db !! ws = Some row ->
    pv_publish_authority row = "provider_operator" ->
    exists e, e ∈ pvdb_audit db /\ aa_workspace e = ws /\ aa_app e = pv_app_id row /\
      aa_authority e = ProviderOperator.

Definition sample_provider_db : ProviderDb :=
  mkProviderDb {["ws" := "org"]} {["app_a"; "app_b"]} {["svc_a"; "svc_b"]} ∅ [].
Definition sample_provider_ops : list ProviderOp :=
  [OpSet "t0" "ws" "app_a" "svc_a" FailClosed 60 3 "owner";
   OpAdvance "ws" "app_a" 9; OpAuthority "t1" "ws" "app_a" ProviderOperator "owner";
   OpSet "t2" "ws" "app_a" "svc_a" FailOpen 60 4 "owner"].

(** ** Lemmas *)

Section provider_lemmas.
Context (parse_rfc3339 : string -> Result string string).

(** One write: what it can do to the row of a workspace. *)
Lemma provider_apply_row db op ws row' :
  pvdb_rows (provider_apply parse_rfc3339 db op) !! ws = Some row' ->
  pvdb_rows db !! ws = Some row' \/
  (exists now app svc fm stale hint actor,
     op = OpSet now ws app svc fm stale hint actor /\
     row' = upserted_row (pvdb_rows db !! ws) app svc (failure_mode_as_str fm) stale hint now actor) \/
  (exists now app authority actor old,
     op = OpAuthority now ws app authority actor /\ pvdb_rows db !! ws = Some old /\
     pv_app_id row' = pv_app_id old /\ pv_app_id old = app /\
     pv_revision_hint row' = pv_revision_hint old /\
     pv_publish_authority row' = publish_authority_as_str authority /\
     exists e, e ∈ pvdb_audit (provider_apply parse_rfc3339 db op) /\ aa_workspace e = ws /\
       aa_app e = app /\ aa_authority e = authority) \/
  (exists app revision old,
     op = OpAdvance ws app revision /\ pvdb_rows db !! ws = Some old /\
     pv_app_id row' = pv_app_id old /\
     pv_revision_hint row' = Z.max (pv_revision_hint old) revision /\
     pv_publish_authority row' = pv_publish_authority old).
Proof.
  destruct op as [now w app svc fm stale hint actor|w|now w app authority actor|w app revision]; simpl.
  - unfold provider_set, i64_of_u64. repeat case_match; simplify_eq/=; try (by left).
    destruct (decide (w = ws)) as [->|Hne].
    + rewrite lookup_insert_eq. intros [= <-]. right; left. repeat eexists.
      case_match; by simplify_eq.
    + rewrite lookup_insert_ne by done. by left.
  - destruct (decide (w = ws)) as [->|Hne].
    + by rewrite lookup_delete_eq.
    + rewrite lookup_delete_ne by done. by left.
  - unfold set_publish_authority. destruct (opt_filter _ _) as [old|] eqn:Hold; [|by left].
    destruct (pvdb_rows db !! w) as [old'|] eqn:Hw; simpl in Hold; [|done].
    case_match eqn:Happ; simplify_eq. apply String.eqb_eq in Happ.
    case_match eqn:Hattempt; [|by left]. case_match; simplify_eq/=.
    destruct (decide (w = ws)) as [->|Hne].
    + rewrite lookup_insert_eq. intros [= <-]. right; right; left.
      do 5 eexists. split_and!; try done. eexists. split; [left|]. done.
    + rewrite lookup_insert_ne by done. by left.
  - unfold advance_revision, i64_of_u64. case_match; [|by left]. case_match; simplify_eq/=.
    destruct (opt_filter _ _) as [old|] eqn:Hold; [|by left].
    destruct (pvdb_rows db !! w) as [old'|] eqn:Hw; simpl in Hold; [|done].
    case_match; simplify_eq/=.
    destruct (decide (w = ws)) as [->|Hne].
    + rewrite lookup_insert_eq. intros [= <-]. right; right; right. exists app, a, old. by split_and!.
    + rewrite lookup_insert_ne by done. by left.
Qed.
End provider_lemmas.

Lemma reset_keeps_hint old new :
  pv_revision_hint (reset_policy_publish_authority old new) = pv_revision_hint new /\
  pv_app_id (reset_policy_publish_authority old new) = pv_app_id new.
Proof. unfold reset_policy_publish_authority. by case_match. Qed.

(** The trigger drops an authority that was granted to another App. *)
Lemma reset_authority old new :
  pv_publish_authority (reset_policy_publish_authority old new) = "provider_operator" ->
  pv_app_id new = pv_app_id old /\ pv_publish_authority new = "provider_operator".
Proof.
  unfold reset_policy_publish_authority. case_match eqn:H; simpl; [done|].
  apply orb_false_elim in H as [H _]. apply negb_false_iff, String.eqb_eq in H. done.
Qed.

Lemma upserted_app old app svc fm stale hint now actor :
  pv_app_id (upserted_row old app svc fm stale hint now actor) = app.
Proof. destruct old; simpl; [|done]. apply reset_keeps_hint. Qed.

Lemma audit_grows parse db op e :
  e ∈ pvdb_audit db -> e ∈ pvdb_audit (provider_apply parse db op).
Proof.
  destruct op; simpl; unfold provider_set, set_publish_authority, advance_revision;
    repeat case_match; simpl; try done. set_solver.
Qed.

Lemma hint_step parse db op ws app row :
  keeps_binding ws app op -> pvdb_rows db !! ws = Some row -> pv_app_id row = app ->
  exists row', pvdb_rows (provider_apply parse db op) !! ws = Some row' /\ pv_app_id row' = app /\
    pv_revision_hint row <= pv_revision_hint row'.
Proof.
  intros Hk Hrow Happ.
  assert (is_Some (pvdb_rows (provider_apply parse db op) !! ws)) as [row' Hrow'].
  { destruct op; simpl in *; unfold provider_set, set_publish_authority, advance_revision;
      repeat case_match; simpl; rewrite ?lookup_insert_is_Some', ?lookup_delete_ne by done; eauto. }
  exists row'. split; [done|].
  destruct (provider_apply_row parse db op ws row' Hrow') as
    [?|[(now & app' & svc & fm & stale & hint & actor & -> & ->)
       |[(now & app' & au & actor & old & -> & Hold & Ha & _ & Hh & _)
        |(app' & rev & old & -> & Hold & Ha & Hh & _)]]]; simplify_eq.
  - done.
  - simpl in Hk. rewrite Hk in * by done. rewrite upserted_app, Hrow. split; [done|]. simpl.
    destruct (reset_keeps_hint row (mkProviderRow (pv_app_id row) svc (failure_mode_as_str fm) stale
      (if pv_app_id row =s pv_app_id row then Z.max (pv_revision_hint row) hint else hint) now actor
      (pv_publish_authority row))) as [-> _]; simpl. rewrite String.eqb_refl. lia.
  - split; [done|lia].
  - split; [done|lia].
Qed.

Section provider_properties.
Context (parse_rfc3339 : string -> Result string string).

(** An announced revision is never taken back.  Along any sequence of the store's writes
    that keeps a workspace bound to an App, the binding stays and its revision hint never
    decreases. *)
Theorem revision_hint_monotone ops db ws app row :
  pvdb_rows db !! ws = Some row -> pv_app_id row = app ->
  Forall (keeps_binding ws app) ops ->
  exists row', pvdb_rows (foldl (provider_apply parse_rfc3339) db ops) !! ws = Some row' /\
    pv_app_id row' = app /\ pv_revision_hint row <= pv_revision_hint row'.
Proof.
  intros Hrow Happ Hops. revert db row Hrow Happ.
  induction Hops as [|op ops Hop _ IH]; intros db row Hrow Happ; simpl; [eauto with lia|].
  destruct (hint_step parse_rfc3339 db op ws app row Hop Hrow Happ) as (row1 & H1 & Ha1 & Hle1).
  destruct (IH _ _ H1 Ha1) as (row' & H' & Ha' & Hle'). exists row'. split_and!; [done..|lia].
Qed.

(** Operator authority is never inherited.  Whatever sequence of writes ran, a workspace
    whose provider row lets the provider's operator publish has an audit event that granted
    this authority for exactly the App that is bound now. *)
Theorem publish_authority_is_audited ops db :
  authority_audited db -> authority_audited (foldl (provider_apply parse_rfc3339) db ops).
Proof.
  revert db. induction ops as [|op ops IH]; intros db Hdb; simpl; [done|]. apply IH.
  intros ws row' Hrow' Hau.
  assert (forall row, pvdb_rows db !! ws = Some row ->
    pv_publish_authority row = "provider_operator" -> pv_app_id row' = pv_app_id row ->
    exists e, e ∈ pvdb_audit (provider_apply parse_rfc3339 db op) /\ aa_workspace e = ws /\
      aa_app e = pv_app_id row' /\ aa_authority e = ProviderOperator) as Hkeep.
  { intros row Hrow Ha ->. destruct (Hdb ws row Hrow Ha) as (e & He & ?).
    exists e. split; [by apply audit_grows|done]. }
  destruct (provider_apply_row parse_rfc3339 db op ws row' Hrow') as
    [?|[(now & app & svc & fm & stale & hint & actor & -> & ->)
       |[(now & app & au & actor & old & -> & Hold & Ha & Happ & _ & Hp & e & He & Hew & Hea & Heu)
        |(app & rev & old & -> & Hold & Ha & _ & Hp)]]].
  - by eapply Hkeep.
  - destruct (pvdb_rows db !! ws) as [old|] eqn:Hold; [|done].
    apply reset_authority in Hau as [Happ Hau]; simpl in *.
    eapply Hkeep; [done|done|]. etrans; [apply reset_keeps_hint|done].
  - exists e. split_and!; [done..|congruence|]. rewrite Hau in Hp. by destruct au.
  - eapply Hkeep; [done|congruence|done].
Qed.
End provider_properties.

Lemma revision_hint_monotone_witness :
  exists row', pvdb_rows (foldl (provider_apply Ok) (provider_apply Ok sample_provider_db
      (OpSet "t0" "ws" "app_a" "svc_a" FailClosed 60 3 "owner")) sample_provider_ops) !! "ws" = Some row'
    /\ pv_app_id row' = "app_a" /\ 3 <= pv_revision_hint row'.
Proof.
  apply (revision_hint_monotone Ok sample_provider_ops _ "ws" "app_a"
    (mkProviderRow "app_a" "svc_a" "fail_closed" 60 3 "t0" "owner" "owner_session")).
  - vm_compute. reflexivity.
  - reflexivity.
  - repeat constructor.
Defined.

Lemma publish_authority_is_audited_witness :
  authority_audited (foldl (provider_apply Ok) sample_provider_db sample_provider_ops).
Proof.
  apply (publish_authority_is_audited Ok sample_provider_ops sample_provider_db).
  intros ws row H. discriminate H.
Defined.
