(* ===== verification/PolicyEvaluator.v ===== *)
(** * Policy evaluators (crates/treer-proxy/src/policy.rs)

    The [PolicyEvaluator] trait as a record of operations on a state, and its two
    implementations: the durable evaluator, which reads the policy table behind a five second
    cache, and the Provider evaluator, which fetches a bundle from the workspace's Policy App
    and falls back to a stale or fail-open policy.

    What happens outside the process (the clock, the database reads, the App's HTTP replies) is
    an input: the [n]-th load of an evaluator sees the [n]-th world. *)

From S2P Require Import Prelude RustStr Protocol WorkloadTree PolicyRequest PolicyPath PolicyStore.
From S2P Require Import PolicyCompile PolicyProviderStore.
From stdpp Require Import pretty.
Local Open Scope Z_scope.

(** ** The trait *)

Record PolicyBatchEvaluation : Type := mkPolicyBatchEvaluation {
  be_explanations : list PolicyExplanation;
  be_evaluations : list PolicyEvaluation;
  be_revision : option Z
}.

Record PolicyEvaluator (S : Type) : Type := mkPolicyEvaluator {
  ev_explain : PolicyRequest -> StM S (option PolicyExplanation) ProtocolError;
  ev_evaluate : PolicyRequest -> StM S PolicyEvaluation ProtocolError;
  ev_revision : string -> S -> PolicyRevision * S;
  ev_evaluate_batch : list PolicyRequest -> StM S PolicyBatchEvaluation ProtocolError
}.
Arguments mkPolicyEvaluator {S}.
Arguments ev_explain {S}.
Arguments ev_evaluate {S}.
Arguments ev_revision {S}.
Arguments ev_evaluate_batch {S}.

(** The trait's default [evaluate_batch]. *)
Fixpoint evaluate_each {S} (evaluate : PolicyRequest -> StM S PolicyEvaluation ProtocolError)
    (requests : list PolicyRequest) : StM S (list PolicyEvaluation) ProtocolError :=
  match requests with
  | [] => st_ret []
  | request :: rest =>
      let! e := evaluate request in
      let! es := evaluate_each evaluate rest in
      st_ret (e :: es)
  end.
Definition default_evaluate_batch {S}
    (evaluate : PolicyRequest -> StM S PolicyEvaluation ProtocolError)
    (requests : list PolicyRequest) : StM S PolicyBatchEvaluation ProtocolError :=
  let! evaluations := evaluate_each evaluate requests in
  st_ret (mkPolicyBatchEvaluation [] evaluations None).

Definition POLICY_CACHE_TTL : Z := from_secs 5.
Definition POLICY_PROVIDER_BUNDLE_MAX_BYTES : Z := 300 * 1024.
Definition POLICY_PROVIDER_FETCH_TIMEOUT_MS : Z := 3000.

(** ** What both implementations do with a compiled policy *)

Section of_compiled.
Context {S : Type}
  (compiled : string -> StM S (option CompiledWorkspacePolicy) ProtocolError).

Definition compiled_revision (workspace_id : string) (s : S) : PolicyRevision * S :=
  match compiled workspace_id s with
  | (Ok (Some policy), s') => (Known (cp_revision policy), s')
  | (Ok None, s') => (Unrevisioned, s')
  | (Err _, s') => (Unavailable, s')
  end.

Definition compiled_evaluate (request : PolicyRequest) : StM S PolicyEvaluation ProtocolError :=
  let! policy := compiled (req_workspace_id request) in
  match policy with
  | None => st_ret Abstain
  | Some policy => st_ret (Decide (evaluate policy request))
  end.

Definition compiled_evaluate_batch (requests : list PolicyRequest)
    : StM S PolicyBatchEvaluation ProtocolError :=
  match requests with
  | [] => st_ret (mkPolicyBatchEvaluation [] [] None)
  | first :: _ =>
      if existsb (fun request => negb (req_workspace_id request =s req_workspace_id first)) requests
      then st_throw (protocol_error "policy_batch_workspace_mismatch"
                       "a policy batch must belong to one workspace")
      else
        let! policy := compiled (req_workspace_id first) in
        match policy with
        | None =>
            st_ret (mkPolicyBatchEvaluation [] (replicate (length requests) Abstain) None)
        | Some policy =>
            st_ret (mkPolicyBatchEvaluation (map (explain policy) requests)
                      (map (fun r => Decide (evaluate policy r)) requests)
                      (Some (cp_revision policy)))
        end
  end.
End of_compiled.

(** ** The durable evaluator *)

Record CachedWorkspacePolicy : Type := mkCachedWorkspacePolicy {
  cwp_loaded_at : Z;
  cwp_policy : option CompiledWorkspacePolicy
}.

(** What one load sees: the instants before and after the query, and its answer. *)
Record DurableWorld : Type := mkDurableWorld {
  dw_now : Z;
  dw_store : string -> Result (option WorkspacePolicy) PolicyStoreError;
  dw_loaded : Z
}.

Record DurableState : Type := mkDurableState {
  ds_calls : nat;
  ds_cache : gmap string CachedWorkspacePolicy
}.

(** [PolicyStoreError]'s [Display]. *)
Definition store_error_message (e : PolicyStoreError) : string :=
  match e with
  | StoreInvalid code message => code +:+ ": " +:+ message
  | RevisionConflict => "policy_revision_conflict: workspace policy changed; reload it and retry"
  | StoreDatabase error => "policy database operation failed: " +:+ error
  | StoreCorrupt error => "stored policy is invalid: " +:+ error
  end.

Section durable.
Context (world : nat -> DurableWorld).

(** [DurablePolicyEvaluator::compiled] *)
Definition durable_compiled (workspace_id : string)
    : StM DurableState (option CompiledWorkspacePolicy) ProtocolError :=
  fun s =>
    let w := world (ds_calls s) in
    let s1 := mkDurableState (S (ds_calls s)) (ds_cache s) in
    let miss :=
      match dw_store w workspace_id with
      | Err error => (Err (protocol_error (store_error_code error) (store_error_message error)), s1)
      | Ok stored =>
          let policy := compile <$> stored in
          (Ok policy,
           mkDurableState (S (ds_calls s))
             (<[workspace_id := mkCachedWorkspacePolicy (dw_loaded w) policy]> (ds_cache s)))
      end in
    match ds_cache s !! workspace_id with
    | Some cached =>
        if duration_since (dw_now w) (cwp_loaded_at cached) <? POLICY_CACHE_TTL
        then (Ok (cwp_policy cached), s1) else miss
    | None => miss
    end.

Definition durable_explain (request : PolicyRequest)
    : StM DurableState (option PolicyExplanation) ProtocolError :=
  let! policy := durable_compiled (req_workspace_id request) in
  st_ret ((fun policy => explain policy request) <$> policy).

Definition durable_evaluator : PolicyEvaluator DurableState :=
  mkPolicyEvaluator durable_explain (compiled_evaluate durable_compiled)
    (compiled_revision durable_compiled) (compiled_evaluate_batch durable_compiled).
End durable.

(** ** The Provider evaluator *)

Record CachedProviderPolicy : Type := mkCachedProviderPolicy {
  cpp_app_id : string;
  cpp_checked_at : Z;
  cpp_loaded_at : option Z;
  cpp_policy : option CompiledWorkspacePolicy;
  cpp_last_error : option string
}.

(** [AgentCommand::FetchServiceHttp] *)
Record FetchServiceHttp : Type := mkFetchServiceHttp {
  fsh_policy_schema_version : option Z;
  fsh_port : Z;
  fsh_path : string;
  fsh_max_bytes : Z;
  fsh_timeout_ms : Z
}.

(** The columns of the App deployment the fetch uses. *)
Record AppEndpoint : Type := mkAppEndpoint {
  ae_server_id : string;
  ae_port : Z
}.

(** What one load sees: the instants of the two cache checks, the provider row, the App's
    deployment and its HTTP replies, and the instant after the exchange. *)
Record ProviderWorld (Json : Type) : Type := mkProviderWorld {
  pw_now : Z;
  pw_locked : Z;
  pw_store : string -> Result (option WorkspacePolicyProvider) string;
  pw_resolve : string -> string -> Result AppEndpoint ProtocolError;
  pw_send : string -> string -> FetchServiceHttp -> Result Json ProtocolError;
  pw_done : Z
}.
Arguments mkProviderWorld {Json}.
Arguments pw_now {Json}.
Arguments pw_locked {Json}.
Arguments pw_store {Json}.
Arguments pw_resolve {Json}.
Arguments pw_send {Json}.
Arguments pw_done {Json}.

Record ProviderState : Type := mkProviderState {
  ps_calls : nat;
  ps_cache : gmap string CachedProviderPolicy
}.

Record PolicyProviderCacheStatus : Type := mkPolicyProviderCacheStatus {
  pcs_revision : option Z;
  pcs_age_seconds : option Z;
  pcs_last_error : option string
}.

Definition provider_contract_error (error : ProtocolError) : bool :=
  existsb (fun code => pe_code error =s code)
    ["unsupported_command"; "unsupported_policy_provider_protocol"; "unsupported_policy_schema";
     "unsupported_policy_provider"; "invalid_policy_contract";
     "policy_provider_workspace_mismatch"; "invalid_service_json";
     "service_http_response_too_large"].

Definition cached_provider_result (cached : CachedProviderPolicy)
    : Result (option CompiledWorkspacePolicy) ProtocolError :=
  if is_empty (cpp_app_id cached) || is_some (cpp_policy cached) then Ok (cpp_policy cached)
  else Err (protocol_error "policy_provider_unavailable"
              (default "Policy App is unavailable" (cpp_last_error cached))).

(** [ProviderPolicyEvaluator::invalidate] *)
Definition provider_invalidate (workspace_id : string) (s : ProviderState) : ProviderState :=
  mkProviderState (ps_calls s) (delete workspace_id (ps_cache s)).

(** [ProviderPolicyEvaluator::cache_status] *)
Definition cache_status (now : Z) (s : ProviderState) (workspace_id : string)
    : PolicyProviderCacheStatus :=
  match ps_cache s !! workspace_id with
  | None => mkPolicyProviderCacheStatus None None None
  | Some cached =>
      mkPolicyProviderCacheStatus (cp_revision <$> cpp_policy cached)
        ((fun loaded => as_secs (duration_since now loaded)) <$> cpp_loaded_at cached)
        (cpp_last_error cached)
  end.

Section provider.
(** [serde_json] decoding of the manifest and the bundle, the encoded length of a document,
    and form encoding of query pairs. *)
Context {Json : Type}
  (manifest_from_json : Json -> Result PolicyProviderManifest string)
  (bundle_from_json : Json -> Result PolicyProviderBundle string)
  (encoded : WorkspacePolicyDocument -> Result Z string)
  (form_urlencode : list (string * string) -> string).

(** [ProviderPolicyEvaluator::fetch_bundle] *)
Definition fetch_bundle (w : ProviderWorld Json) (app_id workspace_id : string)
    : Result PolicyProviderBundle ProtocolError :=
  let? app := pw_resolve w workspace_id app_id in
  let? manifest_value :=
    pw_send w workspace_id (ae_server_id app)
      (mkFetchServiceHttp None (ae_port app) "/v1/manifest" (32 * 1024)
         POLICY_PROVIDER_FETCH_TIMEOUT_MS) in
  let? manifest :=
    map_err (fun _ => protocol_error "unsupported_policy_provider"
                        "invalid Policy Provider manifest")
      (manifest_from_json manifest_value) in
  let supports_v2 :=
    existsb (fun c => c =s POLICY_PROVIDER_BUNDLE_CAPABILITY_V2) (pm_capabilities manifest) in
  (if negb (pm_protocol manifest =s POLICY_PROVIDER_PROTOCOL_V1)
      || negb supports_v2
         && negb (existsb (fun c => c =s POLICY_PROVIDER_BUNDLE_CAPABILITY_V1)
                    (pm_capabilities manifest))
   then Err (protocol_error "unsupported_policy_provider"
               "unsupported Policy Provider capabilities")
   else Ok tt) ;?
  let query := form_urlencode [("workspace_id", workspace_id); ("max_schema_version", "2")] in
  let? value :=
    pw_send w workspace_id (ae_server_id app)
      (mkFetchServiceHttp (if supports_v2 then Some 2 else None) (ae_port app)
         ("/v1/policy/bundle?" +:+ query) POLICY_PROVIDER_BUNDLE_MAX_BYTES
         POLICY_PROVIDER_FETCH_TIMEOUT_MS) in
  let? bundle :=
    map_err (fun _ => protocol_error "invalid_policy_contract"
                        "invalid Policy Provider bundle fields or types")
      (bundle_from_json value) in
  (if negb (pb_protocol bundle =s POLICY_PROVIDER_PROTOCOL_V1)
   then Err (protocol_error "unsupported_policy_provider_protocol"
               ("Policy App uses unsupported protocol " +:+ pb_protocol bundle))
   else Ok tt) ;?
  (if negb (pb_workspace_id bundle =s workspace_id)
   then Err (protocol_error "policy_provider_workspace_mismatch"
               "Policy App returned a bundle for another workspace")
   else Ok tt) ;?
  map_err (fun error => protocol_error "invalid_policy_contract" (store_error_code error))
    (validate_document encoded (pb_document bundle)) ;?
  (if (doc_schema_version (pb_document bundle) =? 2) && negb supports_v2
   then Err (protocol_error "unsupported_policy_provider"
               "schema v2 requires policy.bundle.v2 capability")
   else Ok tt) ;?
  Ok bundle.

(** [ProviderPolicyEvaluator::provider_failure]; [now] is the instant after the exchange. *)
Definition provider_failure (now : Z) (workspace_id : string)
    (provider : WorkspacePolicyProvider) (previous : option CachedProviderPolicy)
    (error : string)
    : StM ProviderState (option CompiledWorkspacePolicy) ProtocolError :=
  fun s =>
    let insert cached :=
      mkProviderState (ps_calls s) (<[workspace_id := cached]> (ps_cache s)) in
    let stale :=
      opt_filter (fun cached =>
        (cpp_app_id cached =s wpp_app_id provider)
        && is_some_and (cpp_loaded_at cached) (fun loaded =>
             as_secs (duration_since now loaded) <=? wpp_max_stale_seconds provider)) previous in
    match stale with
    | Some cached =>
        (Ok (cpp_policy cached),
         insert (mkCachedProviderPolicy (cpp_app_id cached) now (cpp_loaded_at cached)
                   (cpp_policy cached) (Some error)))
    | None =>
        match wpp_failure_mode provider with
        | FailOpen =>
            let policy := compiled_allow (wpp_revision_hint provider) in
            (Ok (Some policy),
             insert (mkCachedProviderPolicy (wpp_app_id provider) now None (Some policy)
                       (Some error)))
        | FailClosed =>
            (Err (protocol_error "policy_provider_unavailable" error),
             insert (mkCachedProviderPolicy (wpp_app_id provider) now None None (Some error)))
        end
    end.

(** The policy a fetched bundle is compiled from. *)
Definition bundle_policy (workspace_id : string) (provider : WorkspacePolicyProvider)
    (bundle : PolicyProviderBundle) : WorkspacePolicy :=
  mkWorkspacePolicy workspace_id (pb_revision bundle) (pb_mode bundle) (pb_document bundle)
    (pb_generated_at bundle) (mkPolicyPrincipalRef KService (wpp_service_id provider)).

(** The part of [ProviderPolicyEvaluator::compiled] after both cache checks failed. *)
Definition provider_reload (w : ProviderWorld Json) (workspace_id : string)
    : StM ProviderState (option CompiledWorkspacePolicy) ProtocolError :=
  fun s =>
    match pw_store w workspace_id with
    | Err error => (Err (protocol_error "policy_provider_store_failed" error), s)
    | Ok None =>
        (Ok None,
         mkProviderState (ps_calls s)
           (<[workspace_id := mkCachedProviderPolicy "" (pw_done w) None None None]> (ps_cache s)))
    | Ok (Some provider) =>
        let previous := ps_cache s !! workspace_id in
        let s := mkProviderState (ps_calls s) (delete workspace_id (ps_cache s)) in
        match fetch_bundle w (wpp_app_id provider) workspace_id with
        | Ok bundle =>
            if wpp_revision_hint provider <=? pb_revision bundle then
              let policy := compile (bundle_policy workspace_id provider bundle) in
              (Ok (Some policy),
               mkProviderState (ps_calls s)
                 (<[workspace_id := mkCachedProviderPolicy (wpp_app_id provider) (pw_done w)
                      (Some (pw_done w)) (Some policy) None]> (ps_cache s)))
            else
              provider_failure (pw_done w) workspace_id provider previous
                ("Policy App returned revision " +:+ pretty (pb_revision bundle)
                 +:+ " below announced revision " +:+ pretty (wpp_revision_hint provider)) s
        | Err error =>
            if provider_contract_error error then (Err error, s)
            else provider_failure (pw_done w) workspace_id provider previous (pe_message error) s
        end
    end.

Context (world : nat -> ProviderWorld Json).

(** [ProviderPolicyEvaluator::compiled]: the cache is checked before and after the fetch lock
    is taken. *)
Definition provider_compiled (workspace_id : string)
    : StM ProviderState (option CompiledWorkspacePolicy) ProtocolError :=
  fun s =>
    let w := world (ps_calls s) in
    let s := mkProviderState (S (ps_calls s)) (ps_cache s) in
    let fresh now :=
      opt_filter (fun cached => duration_since now (cpp_checked_at cached) <? POLICY_CACHE_TTL)
        (ps_cache s !! workspace_id) in
    match fresh (pw_now w) with
    | Some cached => (cached_provider_result cached, s)
    | None =>
        match fresh (pw_locked w) with
        | Some cached => (cached_provider_result cached, s)
        | None => provider_reload w workspace_id s
        end
    end.

(** [ProviderPolicyEvaluator::explain]: the source names the fallback that answered. *)
Definition provider_explain (request : PolicyRequest)
    : StM ProviderState (option PolicyExplanation) ProtocolError :=
  let! policy := provider_compiled (req_workspace_id request) in
  match policy with
  | None => st_ret None
  | Some policy => fun s =>
      let e := explain policy request in
      let source :=
        match ps_cache s !! req_workspace_id request with
        | Some cached =>
            if is_some (cpp_last_error cached) then
              if is_some (cpp_loaded_at cached) then "provider_stale" else "provider_fail_open"
            else "provider"
        | None => "provider"
        end in
      (Ok (Some (mkPolicyExplanation (exp_computed_effect e) (exp_effective_decision e)
         (exp_mode e) (exp_matched_rule_id e) (exp_reason e) (exp_policy_revision e)
         (exp_tree_revision e) source)), s)
  end.

Definition provider_evaluator : PolicyEvaluator ProviderState :=
  mkPolicyEvaluator provider_explain (compiled_evaluate provider_compiled)
    (compiled_revision provider_compiled) (compiled_evaluate_batch provider_compiled).
End provider.

(** ** Histories and where an answer comes from *)

(** The durable evaluator's state after loads of the given workspaces. *)
Definition durable_run (world : nat -> DurableWorld) (loads : list string) : DurableState :=
  foldl (fun s ws => (durable_compiled world ws s).2) (mkDurableState 0 ∅) loads.

Section provider_history.
Context {Json : Type}
  (manifest_from_json : Json -> Result PolicyProviderManifest string)
  (bundle_from_json : Json -> Result PolicyProviderBundle string)
  (encoded : WorkspacePolicyDocument -> Result Z string)
  (form_urlencode : list (string * string) -> string)
  (world : nat -> ProviderWorld Json).

Inductive ProviderEvent : Type :=
| Load (workspace_id : string)
| Invalidate (workspace_id : string).

Definition provider_event (s : ProviderState) (event : ProviderEvent) : ProviderState :=
  match event with
  | Load ws =>
      (provider_compiled manifest_from_json bundle_from_json encoded form_urlencode world ws s).2
  | Invalidate ws => provider_invalidate ws s
  end.

Definition provider_run (events : list ProviderEvent) : ProviderState :=
  foldl provider_event (mkProviderState 0 ∅) events.

(** The cache entries the check numbered [k] may leave: the workspace has no provider; a
    bundle that check [m] fetched from the App bound at [k], accepted at [m] and, when
    [m <> k], no older than the stale limit in force at [k]; the fail-open policy; or a
    refusal. *)
Inductive load_origin (k : nat) (ws : string) : CachedProviderPolicy -> Prop :=
| origin_unbound :
    pw_store (world k) ws = Ok None ->
    load_origin k ws (mkCachedProviderPolicy "" (pw_done (world k)) None None None)
| origin_bundle m pk pm bundle error :
    (m <= k)%nat ->
    pw_store (world k) ws = Ok (Some pk) -> pw_store (world m) ws = Ok (Some pm) ->
    wpp_app_id pm = wpp_app_id pk ->
    fetch_bundle manifest_from_json bundle_from_json encoded form_urlencode (world m)
      (wpp_app_id pk) ws = Ok bundle ->
    wpp_revision_hint pm <= pb_revision bundle ->
    (m = k \/ as_secs (duration_since (pw_done (world k)) (pw_done (world m)))
              <= wpp_max_stale_seconds pk) ->
    load_origin k ws
      (mkCachedProviderPolicy (wpp_app_id pk) (pw_done (world k)) (Some (pw_done (world m)))
         (Some (compile (bundle_policy ws pm bundle))) error)
| origin_fail_open pk error :
    pw_store (world k) ws = Ok (Some pk) -> wpp_failure_mode pk = FailOpen ->
    load_origin k ws
      (mkCachedProviderPolicy (wpp_app_id pk) (pw_done (world k)) None
         (Some (compiled_allow (wpp_revision_hint pk))) error)
| origin_fail_closed pk error :
    pw_store (world k) ws = Ok (Some pk) -> wpp_failure_mode pk = FailClosed ->
    load_origin k ws
      (mkCachedProviderPolicy (wpp_app_id pk) (pw_done (world k)) None None error).

(** Check [k] was made by call [n] itself or is younger than the cache lifetime. *)
Definition recent_check (k n : nat) : Prop :=
  k = n \/
  ((k < n)%nat /\
   (duration_since (pw_now (world n)) (pw_done (world k)) < POLICY_CACHE_TTL \/
    duration_since (pw_locked (world n)) (pw_done (world k)) < POLICY_CACHE_TTL)).
End provider_history.

(** A workspace whose App answers with [sample_document] until it goes down. *)
Definition sample_provider (mode : PolicyProviderFailureMode) : WorkspacePolicyProvider :=
  mkWorkspacePolicyProvider "policy" "app_a" "svc_a" mode 60 3 "t0" "owner" OwnerSession.
Definition sample_bundle : PolicyProviderBundle :=
  mkPolicyProviderBundle POLICY_PROVIDER_PROTOCOL_V1 "policy" 4 Enforce sample_document "t0".
Definition sample_world (mode : PolicyProviderFailureMode) (n : nat) : ProviderWorld bool :=
  mkProviderWorld (from_secs (10 * Z.of_nat n)) (from_secs (10 * Z.of_nat n))
    (fun _ => Ok (Some (sample_provider mode)))
    (fun _ _ => Ok (mkAppEndpoint "srv" 8787))
    (fun _ _ c => if Nat.eqb n 0 then Ok (fsh_path c =s "/v1/manifest")
                  else Err (protocol_error "agent_offline" "offline"))
    (from_secs (10 * Z.of_nat n + 1)).
Definition sample_manifest : PolicyProviderManifest :=
  mkPolicyProviderManifest POLICY_PROVIDER_PROTOCOL_V1 "sample" [POLICY_PROVIDER_BUNDLE_CAPABILITY_V2].
Definition sample_load (mode : PolicyProviderFailureMode) :=
  provider_compiled (fun _ => Ok sample_manifest) (fun _ => Ok sample_bundle) (fun _ => Ok 100)
    (fun _ => "") (sample_world mode) "policy".
Definition sample_run (mode : PolicyProviderFailureMode) :=
  provider_run (fun _ => Ok sample_manifest) (fun _ => Ok sample_bundle) (fun _ => Ok 100)
    (fun _ => "") (sample_world mode).
Definition sample_durable_world (n : nat) : DurableWorld :=
  mkDurableWorld (from_secs (3 * Z.of_nat n))
    (fun ws => if ws =s "policy" then
                 Ok (Some (mkWorkspacePolicy "policy" (Z.of_nat n) Enforce sample_document "t0" sample_actor))
               else Ok None)
    (from_secs (3 * Z.of_nat n) + 1000).

(** ** Lemmas: the durable cache *)

Section durable_lemmas.
Context (world : nat -> DurableWorld).

Definition durable_inv (s : DurableState) : Prop :=
  forall ws c, ds_cache s !! ws = Some c ->
    exists m stored, (m < ds_calls s)%nat /\ dw_store (world m) ws = Ok stored /\
      cwp_policy c = compile <$> stored /\ cwp_loaded_at c = dw_loaded (world m).

Lemma durable_inv_weaken n cache :
  durable_inv (mkDurableState n cache) -> durable_inv (mkDurableState (S n) cache).
Proof.
  intros H ws c Hc. destruct (H ws c Hc) as (m & stored & Hm & ?). exists m, stored.
  simpl in *. split; [lia|done].
Qed.

Lemma durable_inv_step s ws : durable_inv s -> durable_inv (durable_compiled world ws s).2.
Proof.
  intros Hs. destruct s as [n cache]. unfold durable_compiled; simpl.
  pose proof (durable_inv_weaken n cache Hs) as Hs1.
  destruct (dw_store (world n) ws) as [stored|e] eqn:Hst; repeat case_match; simpl; try done;
    (intros ws' cached; simpl; destruct (decide (ws = ws')) as [->|Hne];
     [rewrite lookup_insert_eq; intros [= <-]; exists n, stored; simpl; split_and!; [lia|done..]
     |rewrite lookup_insert_ne by done; apply Hs1]).
Qed.

Lemma durable_run_inv loads : durable_inv (durable_run world loads).
Proof.
  unfold durable_run. assert (durable_inv (mkDurableState 0 ∅)) as H0 by (intros ? ? [=]).
  revert H0. generalize (mkDurableState 0 ∅). induction loads as [|ws loads IH]; intros s Hs; [done|].
  simpl. by apply IH, durable_inv_step.
Qed.

Definition recent_load (m n : nat) : Prop :=
  m = n \/
  ((m < n)%nat /\ duration_since (dw_now (world n)) (dw_loaded (world m)) < POLICY_CACHE_TTL).

Lemma durable_compiled_origin s ws policy s' :
  durable_inv s -> durable_compiled world ws s = (Ok policy, s') ->
  exists m stored, dw_store (world m) ws = Ok stored /\ policy = compile <$> stored /\
    recent_load m (ds_calls s).
Proof.
  intros Hinv. destruct s as [n cache].
  unfold durable_compiled; simpl. intros H.
  assert ((exists stored, dw_store (world n) ws = Ok stored /\ policy = compile <$> stored) \/
    (exists c, cache !! ws = Some c /\ policy = cwp_policy c /\
       duration_since (dw_now (world n)) (cwp_loaded_at c) < POLICY_CACHE_TTL)) as [(st & ? & ?)|(c & Hc & -> & Hlt)].
  { repeat case_match; simplify_eq; try (left; by eauto);
      right; eexists; split_and!; [done|done|by apply Z.ltb_lt]. }
  - exists n, st. unfold recent_load. auto.
  - destruct (Hinv ws c Hc) as (m & st & Hm & Hst & Hp & Hl). exists m, st.
    rewrite Hl in Hlt. unfold recent_load. auto.
Qed.

(** A policy change takes effect within five seconds.  After any sequence of loads, the
    policy a load returns is the compilation of what the store held at this load or at an
    earlier one, and in the second case the answer is less than five seconds old. *)
Theorem durable_staleness_bounded loads ws policy s' :
  durable_compiled world ws (durable_run world loads) = (Ok policy, s') ->
  exists m stored, dw_store (world m) ws = Ok stored /\ policy = compile <$> stored /\
    recent_load m (ds_calls (durable_run world loads)).
Proof. apply durable_compiled_origin, durable_run_inv. Qed.
End durable_lemmas.

Lemma durable_staleness_bounded_witness :
  exists m stored, dw_store (sample_durable_world m) "policy" = Ok stored /\
    Some (compile (mkWorkspacePolicy "policy" 0 Enforce sample_document "t0" sample_actor))
      = compile <$> stored /\ recent_load sample_durable_world m 1.
Proof.
  eapply (durable_staleness_bounded sample_durable_world ["policy"] "policy").
  vm_compute. reflexivity.
Defined.

(** ** Lemmas: the provider cache *)

Section provider_lemmas.
Context {Json : Type}
  (manifest_from_json : Json -> Result PolicyProviderManifest string)
  (bundle_from_json : Json -> Result PolicyProviderBundle string)
  (encoded : WorkspacePolicyDocument -> Result Z string)
  (form_urlencode : list (string * string) -> string)
  (world : nat -> ProviderWorld Json).
Local Notation origin := (load_origin manifest_from_json bundle_from_json encoded form_urlencode world).
Local Notation reload := (provider_reload manifest_from_json bundle_from_json encoded form_urlencode).
Local Notation compiled_ := (provider_compiled manifest_from_json bundle_from_json encoded form_urlencode world).
Local Notation run := (provider_run manifest_from_json bundle_from_json encoded form_urlencode world).

Definition provider_inv (s : ProviderState) : Prop :=
  forall ws c, ps_cache s !! ws = Some c -> exists k, (k < ps_calls s)%nat /\ origin k ws c.

(** What a call that ends in a fallback answers and stores. *)
Lemma provider_failure_origin n ws pk previous error s r s' :
  pw_store (world n) ws = Ok (Some pk) ->
  (forall c, previous = Some c -> exists k, (k < n)%nat /\ origin k ws c) ->
  provider_failure (pw_done (world n)) ws pk previous error s = (r, s') ->
  exists c, origin n ws c /\ s' = mkProviderState (ps_calls s) (<[ws := c]> (ps_cache s)) /\
    (forall p, r = Ok p -> cpp_policy c = p /\ is_Some p).
Proof.
  intros Hst Hprev. unfold provider_failure.
  destruct (opt_filter _ previous) as [c|] eqn:Hstale.
  - destruct previous as [c0|]; simpl in Hstale; [|done].
    case_match eqn:Hcond; simplify_eq. apply andb_prop in Hcond as [Happ Hage].
    apply String.eqb_eq in Happ. destruct (Hprev c eq_refl) as (k & Hk & Ho).
    intros [= <- <-]. inversion Ho; subst; simpl in *; try done.
    eexists. split; [|split; [done|intros p [= <-]; simpl; by eauto]].
    rewrite Happ. eapply (origin_bundle _ _ _ _ _ _ _ m pk pm bundle); first [done|lia|congruence].
  - destruct (wpp_failure_mode pk) eqn:Hm; intros [= <- <-]; eexists;
      (split; [by constructor|split; [done|intros p [= <-]; simpl; eauto]]).
Qed.

(** What a reload answers and stores: an accepted state of this very check, or no entry. *)
Lemma provider_reload_origin n ws s r s' :
  provider_inv s -> ps_calls s = S n ->
  (forall c, ps_cache s !! ws = Some c -> exists k, (k < n)%nat /\ origin k ws c) ->
  reload (world n) ws s = (r, s') ->
  (exists c, origin n ws c /\ s' = mkProviderState (S n) (<[ws := c]> (delete ws (ps_cache s))) /\
     forall p, r = Ok p -> cpp_policy c = p /\ (p = None -> pw_store (world n) ws = Ok None)) \/
  (is_ok r = false /\ (s' = s \/ s' = mkProviderState (S n) (delete ws (ps_cache s)))).
Proof.
  intros Hinv Hcalls Hprev. unfold provider_reload.
  destruct (pw_store (world n) ws) as [[pk|]|e] eqn:Hst.
  - destruct (fetch_bundle _ _ _ _ (world n) _ ws) as [bundle|e] eqn:Hf.
    + destruct (Z.leb_spec (wpp_revision_hint pk) (pb_revision bundle)).
      * intros [= <- <-]. left. eexists. split; [|split; [by rewrite Hcalls|intros p [= <-]; done]].
        eapply (origin_bundle _ _ _ _ _ _ _ n pk pk bundle); auto.
      * intros (c & Ho & -> & Hp)%(provider_failure_origin n); [|done|done].
        left. exists c. split; [done|split; [by simpl; rewrite Hcalls|]].
        intros p Hr. destruct (Hp p Hr) as [? [? ->]]. done.
    + destruct (provider_contract_error e).
      * intros [= <- <-]. right. split; [done|right]. by rewrite Hcalls.
      * intros (c & Ho & -> & Hp)%(provider_failure_origin n); [|done|done].
        left. exists c. split; [done|split; [by simpl; rewrite Hcalls|]].
        intros p Hr. destruct (Hp p Hr) as [? [? ->]]. done.
  - intros [= <- <-]. left. eexists. split; [by apply origin_unbound|].
    split; [by rewrite insert_delete_eq, Hcalls|]. intros p [= <-]. done.
  - intros [= <- <-]. right. auto.
Qed.

(** One load, whatever the cache holds. *)
Lemma provider_compiled_origin ws s r s' :
  provider_inv s -> compiled_ ws s = (r, s') ->
  provider_inv s' /\
  forall p, r = Ok p -> exists k c, recent_check world k (ps_calls s) /\ origin k ws c /\
    cpp_policy c = p /\ (p = None -> is_empty (cpp_app_id c) = true).
Proof.
  intros Hinv. destruct s as [n cache]. unfold provider_compiled; simpl.
  set (s1 := mkProviderState (S n) cache).
  assert (provider_inv s1) as Hinv1.
  { intros w c Hc. destruct (Hinv w c Hc) as (k & Hk & ?). exists k. simpl in *. split; [lia|done]. }
  assert (forall now c, opt_filter (fun cached => duration_since now (cpp_checked_at cached) <? POLICY_CACHE_TTL)
      (cache !! ws) = Some c -> (now = pw_now (world n) \/ now = pw_locked (world n)) ->
    forall p, cached_provider_result c = Ok p -> exists k c', recent_check world k n /\ origin k ws c' /\
      cpp_policy c' = p /\ (p = None -> is_empty (cpp_app_id c') = true)) as Hhit.
  { intros now c Hc Hnow p Hp. destruct (cache !! ws) as [c0|] eqn:Hws; simpl in Hc; [|done].
    case_match eqn:Hlt; simplify_eq. apply Z.ltb_lt in Hlt.
    destruct (Hinv ws c Hws) as (k & Hk & Ho). exists k, c.
    assert (cpp_checked_at c = pw_done (world k)) as Hd by by destruct Ho.
    rewrite Hd in Hlt. unfold cached_provider_result in Hp. simpl in Hk. split_and!.
    - right. split; [done|]. destruct Hnow as [-> | ->]; auto.
    - done.
    - case_match; by simplify_eq.
    - intros ->. case_match eqn:Hb; simplify_eq. rewrite Hp, orb_false_r in Hb. done. }
  destruct (opt_filter _ (cache !! ws)) as [c|] eqn:Hc1.
  { intros [= <- <-]. split; [done|]. intros p Hp. by eapply Hhit; eauto. }
  destruct (opt_filter (fun cached => duration_since (pw_locked _) _ <? _) _) as [c|] eqn:Hc2.
  { intros [= <- <-]. split; [done|]. intros p Hp. by eapply Hhit; eauto. }
  clear Hhit. intros [(c & Ho & -> & Hp)|[Hr Hs]]%(provider_reload_origin n); try done.
  - split.
    + intros w c'. simpl. destruct (decide (ws = w)) as [->|Hne].
      * rewrite lookup_insert_eq. intros [= <-]. exists n. split; [lia|done].
      * rewrite lookup_insert_ne, lookup_delete_ne by done. apply Hinv1.
    + intros p Hr. destruct (Hp p Hr) as [Hcp Hnone]. exists n, c. split_and!; [by left|done..|].
      intros ->. specialize (Hnone eq_refl). inversion Ho; subst; simpl in *; first [done|congruence].
  - split; [|intros p ->; done]. destruct Hs as [-> | ->]; [done|].
    intros w c'. simpl. intros [_ Hl]%lookup_delete_Some. by apply Hinv1.
  - intros c Hc. apply (Hinv ws c Hc).
Qed.

Lemma provider_run_inv events : provider_inv (run events).
Proof.
  unfold provider_run. assert (provider_inv (mkProviderState 0 ∅)) as H0 by (intros ? ? [=]).
  revert H0. generalize (mkProviderState 0 ∅).
  induction events as [|[ws|ws] events IH]; intros s Hs; simpl; [done| |]; apply IH.
  - destruct (compiled_ ws s) as [r s'] eqn:Hc. by apply (provider_compiled_origin _ _ _ _ Hs Hc).
  - intros w c. simpl. intros [_ Hl]%lookup_delete_Some. by apply Hs.
Qed.

(** What a fetched bundle was checked for. *)
Lemma fetch_bundle_checked w app ws bundle :
  fetch_bundle manifest_from_json bundle_from_json encoded form_urlencode w app ws = Ok bundle ->
  pb_protocol bundle = POLICY_PROVIDER_PROTOCOL_V1 /\ pb_workspace_id bundle = ws /\
  sound_document (pb_document bundle).
Proof.
  unfold fetch_bundle. intros H. split_check H. simplify_eq.
  match goal with H : map_err _ (validate_document _ _) = Ok _ |- _ => rename H into Hv end.
  split_and!.
  - by destruct (String.eqb_spec (pb_protocol bundle) POLICY_PROVIDER_PROTOCOL_V1).
  - by destruct (String.eqb_spec (pb_workspace_id bundle) ws).
  - destruct (validate_document _ _) as [[]|] eqn:Hd; [|done]. by eapply validate_document_sound.
Qed.
End provider_lemmas.

Section provider_properties.
Context {Json : Type}
  (manifest_from_json : Json -> Result PolicyProviderManifest string)
  (bundle_from_json : Json -> Result PolicyProviderBundle string)
  (encoded : WorkspacePolicyDocument -> Result Z string)
  (form_urlencode : list (string * string) -> string)
  (world : nat -> ProviderWorld Json).
Local Notation compiled_ := (provider_compiled manifest_from_json bundle_from_json encoded form_urlencode world).
Local Notation run := (provider_run manifest_from_json bundle_from_json encoded form_urlencode world).

(** Where a Provider policy comes from.  After any sequence of loads and invalidations, a
    policy the evaluator returns was settled by a check that is at most one cache lifetime
    old, and is either compiled from a bundle the bound App served for this workspace (right
    protocol, valid document, revision at least the one announced when it was fetched), which
    if it was not fetched by that very check is no older than the configured stale limit; or
    it is the fail-open policy of a provider configured to fail open. *)
Theorem provider_policy_origin events ws policy s' :
  compiled_ ws (run events) = (Ok (Some policy), s') ->
  exists k pk, recent_check world k (ps_calls (run events)) /\
    pw_store (world k) ws = Ok (Some pk) /\
    ((exists m pm bundle, (m <= k)%nat /\ policy = compile (bundle_policy ws pm bundle) /\
        pw_store (world m) ws = Ok (Some pm) /\ wpp_app_id pm = wpp_app_id pk /\
        pb_protocol bundle = POLICY_PROVIDER_PROTOCOL_V1 /\ pb_workspace_id bundle = ws /\
        sound_document (pb_document bundle) /\ wpp_revision_hint pm <= pb_revision bundle /\
        (m = k \/ as_secs (duration_since (pw_done (world k)) (pw_done (world m)))
                  <= wpp_max_stale_seconds pk))
     \/ (wpp_failure_mode pk = FailOpen /\ policy = compiled_allow (wpp_revision_hint pk))).
Proof.
  intros H. destruct (provider_compiled_origin _ _ _ _ _ _ _ _ _
    (provider_run_inv _ _ _ _ _ events) H) as [_ Ho].
  destruct (Ho _ eq_refl) as (k & c & Hk & Hc & Hp & _).
  destruct Hc as [| m pk pm bundle error Hm Hpk Hpm Happ Hf Hrev Hage|pk error Hpk Hm|]; simplify_eq/=.
  - exists k, pk. split_and!; [done..|]. left. exists m, pm, bundle.
    apply fetch_bundle_checked in Hf as (? & ? & ?). by split_and!.
  - exists k, pk. auto.
Qed.

(** A bound provider is never skipped.  Whatever happened before, the Provider evaluator
    abstains (which lets the next evaluator or the engine's default decide) only if a check
    at most one cache lifetime old found that the workspace has no provider: a failing App
    yields an error, a stale policy or the configured fail-open policy instead. *)
Theorem provider_abstains_only_unbound events ws s' :
  (forall n p, pw_store (world n) ws = Ok (Some p) -> is_empty (wpp_app_id p) = false) ->
  compiled_ ws (run events) = (Ok None, s') ->
  exists k, recent_check world k (ps_calls (run events)) /\ pw_store (world k) ws = Ok None.
Proof.
  intros Happ H. destruct (provider_compiled_origin _ _ _ _ _ _ _ _ _
    (provider_run_inv _ _ _ _ _ events) H) as [_ Ho].
  destruct (Ho _ eq_refl) as (k & c & Hk & Hc & Hp & Hempty). specialize (Hempty eq_refl).
  exists k. split; [done|]. destruct Hc as [|m pk|pk|pk error Hpk Hm]; simplify_eq/=; [done|].
  apply Happ in Hpk. congruence.
Qed.
End provider_properties.

Lemma provider_policy_origin_witness :
  exists k pk, recent_check (sample_world FailClosed) k 1 /\
    pw_store (sample_world FailClosed k) "policy" = Ok (Some pk) /\
    ((exists m pm bundle, (m <= k)%nat /\
        compile (bundle_policy "policy" (sample_provider FailClosed) sample_bundle)
          = compile (bundle_policy "policy" pm bundle) /\
        pw_store (sample_world FailClosed m) "policy" = Ok (Some pm) /\ wpp_app_id pm = wpp_app_id pk /\
        pb_protocol bundle = POLICY_PROVIDER_PROTOCOL_V1 /\ pb_workspace_id bundle = "policy" /\
        sound_document (pb_document bundle) /\ wpp_revision_hint pm <= pb_revision bundle /\
        (m = k \/ as_secs (duration_since (pw_done (sample_world FailClosed k))
                              (pw_done (sample_world FailClosed m))) <= wpp_max_stale_seconds pk))
     \/ (wpp_failure_mode pk = FailOpen /\
         compile (bundle_policy "policy" (sample_provider FailClosed) sample_bundle)
         = compiled_allow (wpp_revision_hint pk))).
Proof.
  eapply (provider_policy_origin (fun _ => Ok sample_manifest) (fun _ => Ok sample_bundle)
    (fun _ => Ok 100) (fun _ => "") (sample_world FailClosed) [Load "policy"] "policy").
  vm_compute. reflexivity.
Defined.

Lemma provider_abstains_only_unbound_witness :
  exists k, recent_check (fun n => mkProviderWorld (Z.of_nat n) (Z.of_nat n) (fun _ => Ok None)
      (fun _ _ => Ok (mkAppEndpoint "" 0)) (fun _ _ _ => Ok true) (Z.of_nat n)) k 1 /\
    Ok (E := string) (@None WorkspacePolicyProvider) = Ok None.
Proof.
  eapply (provider_abstains_only_unbound (fun _ => Ok sample_manifest) (fun _ => Ok sample_bundle)
    (fun _ => Ok 100) (fun _ => "")
    (fun n => mkProviderWorld (Z.of_nat n) (Z.of_nat n) (fun _ => Ok None)
      (fun _ _ => Ok (mkAppEndpoint "" 0)) (fun _ _ _ => Ok true) (Z.of_nat n)) [Load "policy"] "policy").
  - intros n p H. discriminate H.
  - vm_compute. reflexivity.
Defined.
