(* ===== verification/PolicyEngine.v ===== *)
(** * The policy engine (crates/treer-proxy/src/policy.rs, [PolicyEngine])

    [authorize], [authorize_sensitive_read], [authorize_batch] and [explain_request] over a list
    of evaluators, with the Tree context of the request and the ring of monitor records.  The
    engine's theorems are proved against the evaluator interface; the durable evaluator
    discharges it. *)

From S2P Require Import Prelude RustStr Protocol WorkloadTree PolicyRequest PolicyPath PolicyStore.
From S2P Require Import PolicyTree PolicyCompile PolicyEvaluator.
Local Open Scope Z_scope.

Record PolicyDecisionRecord : Type := mkPolicyDecisionRecord {
  pdr_workspace_id : string;
  pdr_actor_kind : PolicyPrincipalKind;
  pdr_actor_id : string;
  pdr_action : string;
  pdr_resource_kind : string;
  pdr_resource_id : string;
  pdr_occurred_at : string;
  pdr_explanation : PolicyExplanation
}.

(** The Tree queries of one engine call: the rows a snapshot is loaded from, and the revision
    column as the check after the [i]-th evaluator reads it. *)
Record TreeAccess : Type := mkTreeAccess {
  ta_rows : string -> Result TreeRows unit;
  ta_current : nat -> string -> Result (option Z) unit
}.

Record PolicyEngine (S : Type) : Type := mkPolicyEngine {
  pe_evaluators : list (PolicyEvaluator S);
  pe_default_decision : PolicyDecision;
  pe_tree : option TreeAccess
}.
Arguments mkPolicyEngine {S}.
Arguments pe_evaluators {S}.
Arguments pe_default_decision {S}.
Arguments pe_tree {S}.

(** The evaluators' state and the records, oldest first. *)
Record EngineState (S : Type) : Type := mkEngineState {
  es_evaluators : S;
  es_records : list PolicyDecisionRecord
}.
Arguments mkEngineState {S}.
Arguments es_evaluators {S}.
Arguments es_records {S}.

Definition MAX_DECISION_RECORDS : nat := 2048%nat.

(** ** Tree context *)

Section engine.
Context {S : Type} (engine : PolicyEngine S) (now : nat -> string).

Definition check_tree_revision (i : nat) (request : PolicyRequest) : Result unit ProtocolError :=
  match pe_tree engine, req_tree_revision request with
  | Some tree, Some revision =>
      let? current :=
        map_err (fun _ => protocol_error "policy_tree_unavailable"
                            "cannot validate current Tree revision")
          (ta_current tree i (req_workspace_id request)) in
      if bool_decide (opt_filter (fun v => 0 <=? v) current = Some revision) then Ok tt
      else Err (protocol_error "policy_tree_changed"
                  "Tree changed during authorization; retry request")
  | _, _ => Ok tt
  end.

Definition enrich (request : PolicyRequest) : Result PolicyRequest ProtocolError :=
  match pe_tree engine with
  | Some tree =>
      let? snapshot := snapshot_load (ta_rows tree (req_workspace_id request)) in
      Ok (snapshot_enrich snapshot request)
  | None => Ok request
  end.

(** ** Records *)

Definition push_record (record : PolicyDecisionRecord) (records : list PolicyDecisionRecord)
    : list PolicyDecisionRecord :=
  (if Nat.eqb (length records) MAX_DECISION_RECORDS then tail records else records) ++ [record].

(** [PolicyEngine::record] *)
Definition record_explanation (occurred_at : string) (request : PolicyRequest)
    (explanation : PolicyExplanation) (s : EngineState S) : EngineState S :=
  match exp_mode explanation, exp_computed_effect explanation with
  | Monitor, Deny =>
      let '(kind, id, _) := subject_parts (req_subject request) in
      mkEngineState (es_evaluators s)
        (push_record
           (mkPolicyDecisionRecord (req_workspace_id request) kind id (req_action request)
              (res_kind (req_resource request)) (res_id (req_resource request)) occurred_at
              explanation)
           (es_records s))
  | _, _ => s
  end.
Definition st_record {E} (occurred_at : string) (request : PolicyRequest)
    (explanation : PolicyExplanation) : StM (EngineState S) unit E :=
  fun s => (Ok tt, record_explanation occurred_at request explanation s).

(** [PolicyEngine::decision_records]: newest first. *)
Definition decision_records (s : EngineState S) (workspace : string) : list PolicyDecisionRecord :=
  take 100 (List.filter (fun r => pdr_workspace_id r =s workspace) (rev (es_records s))).

Definition on_evaluators {A E} (m : StM S A E) : StM (EngineState S) A E :=
  fun s => let '(r, s') := m (es_evaluators s) in (r, mkEngineState s' (es_records s)).

(** ** Single requests *)

Fixpoint explain_loop (request : PolicyRequest) (evaluators : list (PolicyEvaluator S))
    : StM (EngineState S) PolicyExplanation ProtocolError :=
  match evaluators with
  | [] => st_ret (explanation_baseline (pe_default_decision engine) (req_tree_revision request))
  | evaluator :: rest =>
      let! explanation := on_evaluators (ev_explain evaluator request) in
      match explanation with
      | Some e =>
          st_ret (mkPolicyExplanation (exp_computed_effect e) (exp_effective_decision e)
                    (exp_mode e) (exp_matched_rule_id e) (exp_reason e) (exp_policy_revision e)
                    (req_tree_revision request) (exp_source e))
      | None =>
          let! evaluation := on_evaluators (ev_evaluate evaluator request) in
          match evaluation with
          | Abstain => explain_loop request rest
          | Decide decision => st_ret (explanation_baseline decision (req_tree_revision request))
          end
      end
  end.
Definition explain_request (request : PolicyRequest)
    : StM (EngineState S) PolicyExplanation ProtocolError :=
  let! request := st_lift (enrich request) in
  explain_loop request (pe_evaluators engine).

Fixpoint authorize_loop (request : PolicyRequest) (i : nat)
    (evaluators : list (PolicyEvaluator S)) : StM (EngineState S) unit ProtocolError :=
  match evaluators with
  | [] => st_lift (into_result (pe_default_decision engine))
  | evaluator :: rest =>
      let! explanation := on_evaluators (ev_explain evaluator request) in
      match explanation with
      | Some e =>
          st_lift (check_tree_revision i request) ;!
          st_record (now 0) request e ;!
          st_lift (into_result (into_decision e))
      | None =>
          let! evaluation := on_evaluators (ev_evaluate evaluator request) in
          match evaluation with
          | Abstain => authorize_loop request (i + 1) rest
          | Decide decision => st_lift (into_result decision)
          end
      end
  end.
(** [PolicyEngine::authorize] *)
Definition authorize (request : PolicyRequest) : StM (EngineState S) unit ProtocolError :=
  let! request := st_lift (enrich request) in
  authorize_loop request 0 (pe_evaluators engine).

Definition explicitly_allowed (e : PolicyExplanation) : bool :=
  bool_decide (exp_mode e = Enforce) && is_some (exp_matched_rule_id e)
  && bool_decide (exp_effective_decision e = Allow).

Fixpoint sensitive_loop (role_allowed : bool) (request : PolicyRequest) (i : nat)
    (evaluators : list (PolicyEvaluator S)) : StM (EngineState S) unit ProtocolError :=
  match evaluators with
  | [] =>
      st_lift (into_result (pe_default_decision engine)) ;!
      st_lift (check_tree_revision i request) ;!
      st_lift (sensitive_read_baseline role_allowed)
  | evaluator :: rest =>
      let! explanation := on_evaluators (ev_explain evaluator request) in
      match explanation with
      | Some e =>
          st_lift (check_tree_revision i request) ;!
          st_record (now 0) request e ;!
          st_lift (into_result (into_decision e)) ;!
          st_lift (sensitive_read_baseline (role_allowed || explicitly_allowed e))
      | None =>
          let! evaluation := on_evaluators (ev_evaluate evaluator request) in
          match evaluation with
          | Abstain => sensitive_loop role_allowed request (i + 1) rest
          | Decide decision =>
              st_lift (check_tree_revision i request) ;!
              st_lift (into_result decision) ;!
              st_lift (sensitive_read_baseline role_allowed)
          end
      end
  end.
(** [PolicyEngine::authorize_sensitive_read] *)
Definition authorize_sensitive_read (request : PolicyRequest) (role_allowed : bool)
    : StM (EngineState S) unit ProtocolError :=
  let! request := st_lift (enrich request) in
  sensitive_loop role_allowed request 0 (pe_evaluators engine).

(** [PolicyEngine::policy_revision] *)
Fixpoint revision_loop (workspace_id : string) (evaluators : list (PolicyEvaluator S)) (s : S)
    : PolicyRevision * S :=
  match evaluators with
  | [] => (Unrevisioned, s)
  | evaluator :: rest =>
      match ev_revision evaluator workspace_id s with
      | (Unrevisioned, s') => revision_loop workspace_id rest s'
      | known_or_unavailable => known_or_unavailable
      end
  end.
Definition policy_revision (workspace_id : string) (s : EngineState S)
    : PolicyRevision * EngineState S :=
  let '(r, s') := revision_loop workspace_id (pe_evaluators engine) (es_evaluators s) in
  (r, mkEngineState s' (es_records s)).

(** ** Batches *)

Definition at_zero (error : ProtocolError) : PolicyBatchDenial := mkPolicyBatchDenial 0 error.

(** Every explanation of a request that is still unresolved is recorded. *)
Fixpoint record_unresolved (index : nat) (unresolved : list bool) (requests : list PolicyRequest)
    (explanations : list PolicyExplanation) (s : EngineState S) : EngineState S :=
  match explanations, unresolved, requests with
  | e :: es, u :: us, r :: rs =>
      record_unresolved (index + 1) us rs es
        (if u then record_explanation (now index) r e s else s)
  | _, _, _ => s
  end.

(** The loop over one evaluator's evaluations; [unresolved] has their length. *)
Fixpoint settle (index : nat) (evaluations : list PolicyEvaluation) (unresolved : list bool)
    : Result (list bool) PolicyBatchDenial :=
  match evaluations, unresolved with
  | e :: es, u :: us =>
      let? u' :=
        if negb u then Ok u
        else match e with
             | Abstain => Ok u
             | Decide DecAllow => Ok false
             | Decide (DecDeny denial) =>
                 Err (mkPolicyBatchDenial index (denial_into_error denial))
             end in
      let? us' := settle (index + 1) es us in
      Ok (u' :: us')
  | _, _ => Ok unresolved
  end.

(** The last loop: the default decides what no evaluator did. *)
Fixpoint settle_default (index : nat) (unresolved : list bool) : Result unit PolicyBatchDenial :=
  match unresolved with
  | [] => Ok tt
  | u :: us =>
      (if u then
         match pe_default_decision engine with
         | DecDeny denial => Err (mkPolicyBatchDenial index (denial_into_error denial))
         | DecAllow => Ok tt
         end
       else Ok tt) ;?
      settle_default (index + 1) us
  end.

Fixpoint batch_loop (requests : list PolicyRequest) (first : PolicyRequest) (i : nat)
    (unresolved : list bool) (revision : option Z) (evaluators : list (PolicyEvaluator S))
    : StM (EngineState S) (list bool * option Z) PolicyBatchDenial :=
  match evaluators with
  | [] => st_ret (unresolved, revision)
  | evaluator :: rest =>
      if forallb negb unresolved then st_ret (unresolved, revision)
      else
        let! batch := st_map_err at_zero (on_evaluators (ev_evaluate_batch evaluator requests)) in
        (if negb (Nat.eqb (length (be_evaluations batch)) (length requests))
         then st_throw (at_zero (protocol_error "policy_batch_invalid"
                           "a policy evaluator returned an invalid batch result"))
         else st_ret tt) ;!
        let! revision :=
          match be_revision batch with
          | Some batch_revision =>
              if is_some_and revision (fun current => negb (current =? batch_revision))
              then st_throw (at_zero (protocol_error "policy_batch_revision_conflict"
                               "policy evaluators did not use one pinned revision"))
              else st_ret (Some batch_revision)
          | None => st_ret revision
          end in
        st_lift (map_err at_zero (check_tree_revision i first)) ;!
        (fun s => (Ok tt, record_unresolved 0 unresolved requests (be_explanations batch) s)) ;!
        let! unresolved := st_lift (settle 0 (be_evaluations batch) unresolved) in
        batch_loop requests first (i + 1) unresolved revision rest
  end.

(** [PolicyEngine::authorize_batch] after the requests are enriched. *)
Definition authorize_enriched (requests : list PolicyRequest)
    : StM (EngineState S) PolicyBatchAuthorization PolicyBatchDenial :=
  match requests with
  | [] => st_ret (mkPolicyBatchAuthorization None)
  | first :: _ =>
      if existsb (fun r => negb (req_workspace_id r =s req_workspace_id first)) requests
      then st_throw (at_zero (protocol_error "policy_batch_workspace_mismatch"
                       "a policy batch must belong to one workspace"))
      else
        let! outcome :=
          batch_loop requests first 0 (replicate (length requests) true) None
            (pe_evaluators engine) in
        let '(unresolved, revision) := outcome in
        st_lift (settle_default 0 unresolved) ;!
        st_ret (mkPolicyBatchAuthorization revision)
  end.

(** [PolicyEngine::authorize_batch] *)
Definition authorize_batch (requests : list PolicyRequest)
    : StM (EngineState S) PolicyBatchAuthorization PolicyBatchDenial :=
  match requests with
  | [] => st_ret (mkPolicyBatchAuthorization None)
  | request0 :: _ =>
      match pe_tree engine with
      | Some tree =>
          let! snapshot :=
            st_lift (map_err at_zero
                       (snapshot_load (ta_rows tree (req_workspace_id request0)))) in
          authorize_enriched (map (snapshot_enrich snapshot) requests)
      | None => authorize_enriched requests
      end
  end.
End engine.

(** ** Construction *)

(** [PolicyEngine::allow_all], [PolicyEngine::durable] and [durable_with_provider]; the latter's
    evaluators share one state. *)
Definition engine_allow_all (S : Type) : PolicyEngine S := mkPolicyEngine [] DecAllow None.
Definition engine_durable (world : nat -> DurableWorld) (tree : TreeAccess)
    : PolicyEngine DurableState :=
  mkPolicyEngine [durable_evaluator world] DecAllow (Some tree).

Definition on_fst {A B R E} (m : StM A R E) : StM (A * B) R E :=
  fun s => let '(r, a) := m s.1 in (r, (a, s.2)).
Definition on_snd {A B R E} (m : StM B R E) : StM (A * B) R E :=
  fun s => let '(r, b) := m s.2 in (r, (s.1, b)).
Definition evaluator_fst {A B} (ev : PolicyEvaluator A) : PolicyEvaluator (A * B) :=
  mkPolicyEvaluator (fun r => on_fst (ev_explain ev r)) (fun r => on_fst (ev_evaluate ev r))
    (fun ws s => let '(r, a) := ev_revision ev ws s.1 in (r, (a, s.2)))
    (fun rs => on_fst (ev_evaluate_batch ev rs)).
Definition evaluator_snd {A B} (ev : PolicyEvaluator B) : PolicyEvaluator (A * B) :=
  mkPolicyEvaluator (fun r => on_snd (ev_explain ev r)) (fun r => on_snd (ev_evaluate ev r))
    (fun ws s => let '(r, b) := ev_revision ev ws s.2 in (r, (s.1, b)))
    (fun rs => on_snd (ev_evaluate_batch ev rs)).

Definition engine_durable_with_provider {Json : Type}
    (manifest_from_json : Json -> Result PolicyProviderManifest string)
    (bundle_from_json : Json -> Result PolicyProviderBundle string)
    (encoded : WorkspacePolicyDocument -> Result Z string)
    (form_urlencode : list (string * string) -> string)
    (provider_world : nat -> ProviderWorld Json) (world : nat -> DurableWorld) (tree : TreeAccess)
    : PolicyEngine (ProviderState * DurableState) :=
  mkPolicyEngine
    [evaluator_fst (provider_evaluator manifest_from_json bundle_from_json encoded form_urlencode
                      provider_world);
     evaluator_snd (durable_evaluator world)] DecAllow (Some tree).

(** ** Engine calls as a transition *)

Inductive EngineCall : Type :=
| CallAuthorize (request : PolicyRequest)
| CallSensitive (request : PolicyRequest) (role_allowed : bool)
| CallBatch (requests : list PolicyRequest)
| CallExplain (request : PolicyRequest)
| CallRevision (workspace_id : string).

Definition engine_call {S} (engine : PolicyEngine S) (now : nat -> string) (s : EngineState S)
    (call : EngineCall) : EngineState S :=
  match call with
  | CallAuthorize r => (authorize engine now r s).2
  | CallSensitive r role => (authorize_sensitive_read engine now r role s).2
  | CallBatch rs => (authorize_batch engine now rs s).2
  | CallExplain r => (explain_request engine r s).2
  | CallRevision ws => (policy_revision engine ws s).2
  end.

(** A record of an operation that an enforced policy would have denied. *)
Definition monitor_denial (r : PolicyDecisionRecord) : Prop :=
  exp_mode (pdr_explanation r) = Monitor /\ exp_computed_effect (pdr_explanation r) = Deny.

Definition records_ok (records : list PolicyDecisionRecord) : Prop :=
  (length records <= MAX_DECISION_RECORDS)%nat /\ Forall monitor_denial records.

(** ** The interface of an evaluator with a pinned policy

    [PinnedEvaluator ev ws Inv policy]: in every state that satisfies [Inv] the evaluator
    answers requests of workspace [ws] from [policy], and stays in [Inv]. *)
Class PinnedEvaluator {S} (ev : PolicyEvaluator S) (ws : string) (Inv : S -> Prop)
    (policy : option CompiledWorkspacePolicy) : Prop := {
  pinned_explain : forall r s, Inv s -> req_workspace_id r = ws ->
    exists e s', Inv s' /\ ev_explain ev r s = (Ok e, s') /\
      into_decision <$> e = (fun p => evaluate p r) <$> policy;
  pinned_evaluate : forall r s, Inv s -> req_workspace_id r = ws ->
    exists s', Inv s' /\
      ev_evaluate ev r s =
        (Ok (match policy with Some p => Decide (evaluate p r) | None => Abstain end), s');
  pinned_batch : forall rs s, Inv s -> rs <> [] -> Forall (fun r => req_workspace_id r = ws) rs ->
    exists es s', Inv s' /\
      ev_evaluate_batch ev rs s =
        (Ok (mkPolicyBatchEvaluation es
               (map (fun r => match policy with Some p => Decide (evaluate p r) | None => Abstain end) rs)
               (cp_revision <$> policy)), s')
}.

(** The decision of the first policy there is, else the default. *)
Fixpoint first_decision (policies : list (option CompiledWorkspacePolicy))
    (default_decision : PolicyDecision) (r : PolicyRequest) : PolicyDecision :=
  match policies with
  | [] => default_decision
  | Some p :: _ => evaluate p r
  | None :: rest => first_decision rest default_decision r
  end.

(** The Tree revision does not move during the call. *)
Definition tree_stable (tree : option TreeAccess) (ws : string) : Prop :=
  forall t snap i, tree = Some t -> snapshot_load (ta_rows t ws) = Ok snap ->
    0 <= snap_revision snap /\ ta_current t i ws = Ok (Some (snap_revision snap)).

(** The durable evaluator's cache has a fresh entry for [ws], and no load sees it expire. *)
Definition durable_pinned (world : nat -> DurableWorld) (ws : string)
    (policy : option CompiledWorkspacePolicy) (s : DurableState) : Prop :=
  exists c, ds_cache s !! ws = Some c /\ cwp_policy c = policy /\
    forall n, (ds_calls s <= n)%nat ->
      duration_since (dw_now (world n)) (cwp_loaded_at c) < POLICY_CACHE_TTL.

(** The sample policy served by the durable engine at one instant, over the sample Tree. *)
Definition sample_tree_access : TreeAccess :=
  mkTreeAccess (fun _ => Ok sample_tree_rows) (fun _ _ => Ok (Some 7)).
Definition sample_engine_world (_ : nat) : DurableWorld :=
  mkDurableWorld 0 (fun _ => Ok (Some sample_policy)) 0.
Definition sample_engine : PolicyEngine DurableState :=
  engine_durable sample_engine_world sample_tree_access.
Definition sample_engine_state : EngineState DurableState :=
  mkEngineState (durable_run sample_engine_world ["ws"]) [].

(** An audit policy that lets one Agent read, and its engine. *)
Definition sample_audit_policy : WorkspacePolicy :=
  mkWorkspacePolicy "ws" 3 Enforce
    (mkWorkspacePolicyDocument 2 ∅ ∅
       [mkWorkspacePolicyRule ∅ [] "auditor" 10 Allow
          [mkPolicySubjectSelector None (Some KAgent) (Some "ag_c") None None false]
          [ACTION_WORKSPACE_AUDIT_READ]
          [mkPolicyResourceSelector None (Some "workspace") None None]])
    "2026-01-01T00:00:00Z" sample_actor.
Definition sample_audit_world (_ : nat) : DurableWorld :=
  mkDurableWorld 0 (fun _ => Ok (Some sample_audit_policy)) 0.
Definition sample_audit_request : PolicyRequest :=
  request_new "ws" (SubjAgent "m1" "ag_c") ACTION_WORKSPACE_AUDIT_READ (resource_new "workspace" "ws").

(** The sample provider while its App is down. *)
Definition sample_down_engine : PolicyEngine (ProviderState * DurableState) :=
  engine_durable_with_provider (Json := bool) (fun _ => Ok sample_manifest)
    (fun _ => Ok sample_bundle) (fun _ => Ok 100) (fun _ => "")
    (fun n => sample_world FailClosed (S n)) sample_engine_world sample_tree_access.
Definition sample_down_state : EngineState (ProviderState * DurableState) :=
  mkEngineState
    (provider_run (fun _ => Ok sample_manifest) (fun _ => Ok sample_bundle) (fun _ => Ok 100)
       (fun _ => "") (fun n => sample_world FailClosed (S n)) [Load "policy"; Invalidate "policy"],
     mkDurableState 0 ∅) [].
Definition sample_down_request : PolicyRequest :=
  request_new "policy" (SubjHuman "usr") "agent.prompt" (resource_new "agent" "a").

(** ** Lemmas: the records *)

Section record_lemmas.
Context {S : Type} (engine : PolicyEngine S) (now : nat -> string).

Lemma push_record_ok r records :
  records_ok records -> monitor_denial r -> records_ok (push_record r records).
Proof.
  unfold records_ok, push_record. intros [Hlen Hall] Hr. split.
  - rewrite length_app. destruct (Nat.eqb_spec (length records) MAX_DECISION_RECORDS); simpl.
    + rewrite length_tl. unfold MAX_DECISION_RECORDS in *. lia.
    + lia.
  - rewrite Forall_app. split; [|apply Forall_singleton; done].
    case_match; [by destruct Hall|done].
Qed.

Lemma record_explanation_ok t r e (s : EngineState S) :
  records_ok (es_records s) -> records_ok (es_records (record_explanation t r e s)).
Proof.
  intros Hs. unfold record_explanation. destruct (exp_mode e) eqn:Hm, (exp_computed_effect e) eqn:He;
    try done. destruct (subject_parts _) as [[k i] m]. by apply push_record_ok.
Qed.

(** A stateful computation that keeps the records well formed. *)
Definition keeps_records {A E} (m : StM (EngineState S) A E) : Prop :=
  forall s, records_ok (es_records s) -> records_ok (es_records (m s).2).

Lemma keeps_bind {A B E} (m : StM (EngineState S) A E) (k : A -> StM (EngineState S) B E) :
  keeps_records m -> (forall a, keeps_records (k a)) -> keeps_records (st_bind m k).
Proof.
  intros Hm Hk s Hs. unfold st_bind. specialize (Hm s Hs).
  destruct (m s) as [[a|e] s1]; simpl in *; [by apply Hk|done].
Qed.
Lemma keeps_lift {A E} (r : Result A E) : keeps_records (st_lift r).
Proof. by intros s. Qed.
Lemma keeps_ret {A E} (a : A) : keeps_records (E := E) (st_ret a).
Proof. by intros s. Qed.
Lemma keeps_throw {A E} (e : E) : keeps_records (A := A) (st_throw e).
Proof. by intros s. Qed.
Lemma keeps_on {A E} (m : StM S A E) : keeps_records (on_evaluators m).
Proof. intros s Hs. unfold on_evaluators. by destruct (m (es_evaluators s)). Qed.
Lemma keeps_map_err {A E F} (f : E -> F) (m : StM (EngineState S) A E) :
  keeps_records m -> keeps_records (st_map_err f m).
Proof. intros Hm s Hs. unfold st_map_err. specialize (Hm s Hs). by destruct (m s). Qed.
Lemma keeps_record {E} t r e : keeps_records (E := E) (st_record t r e).
Proof. intros s Hs. by apply record_explanation_ok. Qed.
Lemma keeps_record_unresolved {E} i us rs es :
  keeps_records (A := unit) (E := E) (fun s => (Ok tt, record_unresolved now i us rs es s)).
Proof.
  intros s Hs. simpl. revert i us rs s Hs.
  induction es as [|e es IH]; intros i [|u us] [|r rs] s Hs; simpl; try done.
  apply IH. destruct u; [by apply record_explanation_ok|done].
Qed.
End record_lemmas.

#[export] Hint Resolve keeps_bind keeps_lift keeps_ret keeps_throw keeps_on keeps_map_err
  keeps_record keeps_record_unresolved : treer.

Ltac keep_records :=
  repeat first
    [ progress intros
    | apply keeps_bind | apply keeps_lift | apply keeps_ret | apply keeps_throw | apply keeps_on
    | apply keeps_map_err | apply keeps_record | apply keeps_record_unresolved
    | match goal with |- keeps_records (match ?x with _ => _ end) => destruct x end
    | done ].

Section record_preservation.
Context {S : Type} (engine : PolicyEngine S) (now : nat -> string).

Lemma authorize_loop_keeps r i evs : keeps_records (authorize_loop engine now r i evs).
Proof. revert i; induction evs as [|ev evs IH]; intros i; simpl; keep_records; apply IH. Qed.
Lemma sensitive_loop_keeps role r i evs : keeps_records (sensitive_loop engine now role r i evs).
Proof. revert i; induction evs as [|ev evs IH]; intros i; simpl; keep_records; apply IH. Qed.
Lemma explain_loop_keeps r evs : keeps_records (explain_loop engine r evs).
Proof. induction evs as [|ev evs IH]; simpl; keep_records; apply IH. Qed.
Lemma batch_loop_keeps rs first i us rev evs :
  keeps_records (batch_loop engine now rs first i us rev evs).
Proof. revert i us rev; induction evs as [|ev evs IH]; intros i us rev; simpl; keep_records; apply IH. Qed.

Lemma engine_call_keeps s call :
  records_ok (es_records s) -> records_ok (es_records (engine_call engine now s call)).
Proof.
  destruct call as [r|r role|rs|r|ws]; simpl.
  - revert s. change (keeps_records (authorize engine now r)). unfold authorize.
    keep_records. apply authorize_loop_keeps.
  - revert s. change (keeps_records (authorize_sensitive_read engine now r role)).
    unfold authorize_sensitive_read. keep_records. apply sensitive_loop_keeps.
  - revert s. change (keeps_records (authorize_batch engine now rs)). unfold authorize_batch.
    keep_records; unfold authorize_enriched; keep_records; apply batch_loop_keeps.
  - revert s. change (keeps_records (explain_request engine r)). unfold explain_request.
    keep_records. apply explain_loop_keeps.
  - unfold policy_revision. by destruct (revision_loop _ _ _).
Qed.

(** The decision log stays bounded and honest.  After any sequence of engine calls it
    holds at most 2048 records, each of an operation that a policy in monitor mode would have
    denied, and a query returns at most 100 of them, all of the workspace asked for. *)
Theorem decision_log_bounded calls records s0 ws :
  records_ok records ->
  let s := foldl (engine_call engine now) (mkEngineState s0 records) calls in
  records_ok (es_records s) /\
  (length (decision_records s ws) <= 100)%nat /\
  Forall (fun r => pdr_workspace_id r = ws /\ monitor_denial r) (decision_records s ws).
Proof.
  intros Hrec s. assert (records_ok (es_records s)) as Hs.
  { subst s. assert (records_ok (es_records (mkEngineState s0 records))) as H0 by done.
    revert H0. generalize (mkEngineState s0 records).
    induction calls as [|c calls IH]; intros s Hs; simpl; [done|]. by apply IH, engine_call_keeps. }
  split; [done|]. unfold decision_records. split; [rewrite length_take; lia|].
  apply Forall_take, Forall_forall. intros r [Hr Hws]%filter_elem.
  apply String.eqb_eq in Hws. split; [done|]. destruct Hs as [_ Hs].
  rewrite Forall_forall in Hs. apply Hs. by rewrite list_elem_of_In, in_rev, <- list_elem_of_In.
Qed.
End record_preservation.

(** ** Lemmas: pinned evaluators *)

Section pinned.
Context {S : Type} (engine : PolicyEngine S) (now : nat -> string) (ws : string)
  (Inv : S -> Prop).

Lemma check_stable i r :
  tree_stable (pe_tree engine) ws -> req_workspace_id r = ws ->
  (forall rev, req_tree_revision r = Some rev -> forall t, pe_tree engine = Some t ->
     exists snap, snapshot_load (ta_rows t ws) = Ok snap /\ snap_revision snap = rev) ->
  check_tree_revision engine i r = Ok tt.
Proof.
  intros Hst Hws Hrev. unfold check_tree_revision.
  destruct (pe_tree engine) as [t|] eqn:Ht; [|done].
  destruct (req_tree_revision r) as [rev|] eqn:Hr; [|done].
  destruct (Hrev rev eq_refl t eq_refl) as (snap & Hsnap & <-).
  destruct (Hst t snap i eq_refl Hsnap) as [Hpos Hcur]. rewrite Hws, Hcur. simpl.
  apply Z.leb_le in Hpos. rewrite Hpos. by rewrite bool_decide_true.
Qed.

(** Single requests: the first pinned policy decides. *)
Lemma authorize_loop_pinned evs policies r i s :
  Forall2 (fun ev p => PinnedEvaluator ev ws Inv p) evs policies ->
  req_workspace_id r = ws -> (forall j, check_tree_revision engine j r = Ok tt) ->
  Inv (es_evaluators s) ->
  (authorize_loop engine now r i evs s).1
    = into_result (first_decision policies (pe_default_decision engine) r).
Proof.
  intros Hpin Hws Hchk. revert i s.
  induction Hpin as [|ev p evs policies Hev _ IH]; intros i s Hs; [done|]. simpl.
  destruct (pinned_explain r (es_evaluators s) Hs Hws) as (e & s1 & Hs1 & He & Hdec).
  unfold st_bind at 1, on_evaluators at 1. rewrite He.
  destruct e as [e|], p as [p|]; simpl in Hdec; try discriminate Hdec; simpl.
  - unfold st_bind, st_lift, st_record. rewrite Hchk. simpl. congruence.
  - destruct (pinned_evaluate r s1 Hs1 Hws) as (s2 & Hs2 & Hev2).
    unfold st_bind, on_evaluators. simpl. rewrite Hev2. by apply IH.
Qed.

Lemma settle_all_abstain (A : list PolicyRequest) i us :
  length us = length A -> settle i (map (fun _ => Abstain) A) us = Ok us.
Proof.
  revert i us. induction A as [|a A IH]; intros i [|u us] Hlen; simpl in *; try done.
  rewrite IH by lia. by destruct u.
Qed.

(** A deciding policy settles every request or denies the first one it denies. *)
Lemma settle_all_decide p rs i :
  match settle i (map (fun r => Decide (evaluate p r)) rs) (replicate (length rs) true) with
  | Ok us => us = replicate (length rs) false /\ Forall (fun r => evaluate p r = DecAllow) rs
  | Err d => exists j r denial, d = mkPolicyBatchDenial (i + j) (denial_into_error denial) /\
      rs !! j = Some r /\ evaluate p r = DecDeny denial
  end.
Proof.
  revert i. induction rs as [|r rs IH]; intros i; simpl; [by split|].
  destruct (evaluate p r) as [|denial] eqn:Hr; simpl.
  - specialize (IH (i + 1)%nat). destruct (settle _ _ _) as [us|d]; simpl.
    + destruct IH as [-> Hall]. split; [done|by constructor].
    + destruct IH as (j & r' & denial & -> & Hj & Hd). exists (1 + j)%nat, r', denial.
      rewrite Nat.add_assoc. done.
  - exists 0%nat, r, denial. rewrite Nat.add_0_r. done.
Qed.

Lemma settle_default_all n i :
  match settle_default engine i (replicate n true) with
  | Ok _ => n = 0%nat \/ pe_default_decision engine = DecAllow
  | Err d => exists denial, pe_default_decision engine = DecDeny denial /\
      d = mkPolicyBatchDenial i (denial_into_error denial) /\ (0 < n)%nat
  end.
Proof.
  revert i. induction n as [|n IH]; intros i; simpl; [by left|].
  specialize (IH (i + 1)%nat). destruct (pe_default_decision engine) as [|denial] eqn:Hd; simpl.
  - destruct (settle_default _ _ _); [by right|]. by destruct IH as (? & ? & _).
  - exists denial. split_and!; [done|done|lia].
Qed.

Lemma settle_default_none n i : settle_default engine i (replicate n false) = Ok tt.
Proof. revert i. induction n as [|n IH]; intros i; simpl; [done|apply IH]. Qed.

Lemma batch_loop_resolved rs first i n rev evs s :
  batch_loop engine now rs first i (replicate n false) rev evs s = (Ok (replicate n false, rev), s).
Proof.
  destruct evs; simpl; [done|].
  assert (forallb negb (replicate n false) = true) as -> by (by induction n). done.
Qed.
End pinned.

(** What the evaluator loop and the default make of a batch, as one result. *)
Definition batch_outcome {S} (engine : PolicyEngine S)
    (r : Result (list bool * option Z) PolicyBatchDenial) : Result (option Z) PolicyBatchDenial :=
  let? outcome := r in
  settle_default engine 0 outcome.1 ;? Ok outcome.2.

Section pinned_batch.
Context {S : Type} (engine : PolicyEngine S) (now : nat -> string) (ws : string)
  (Inv : S -> Prop).

Lemma forallb_negb_true n : (0 < n)%nat -> forallb negb (replicate n true) = false.
Proof. by destruct n; [lia|]. Qed.

Lemma record_unresolved_evaluators us rs es (s : EngineState S) k :
  es_evaluators (record_unresolved now k us rs es s) = es_evaluators s.
Proof.
  revert us rs s k. induction es as [|e es IH]; intros [|u us] [|r rs] s k; simpl; try done.
  rewrite IH. destruct u; [|done]. unfold record_explanation. by repeat case_match.
Qed.

(** Batches: every request is decided as on its own. *)
Lemma batch_loop_pinned evs policies rs first i s :
  Forall2 (fun ev p => PinnedEvaluator ev ws Inv p) evs policies ->
  rs <> [] -> Forall (fun r => req_workspace_id r = ws) rs ->
  (forall j, check_tree_revision engine j first = Ok tt) ->
  Inv (es_evaluators s) ->
  match batch_outcome engine
          (batch_loop engine now rs first i (replicate (length rs) true) None evs s).1 with
  | Ok _ => Forall (fun r => first_decision policies (pe_default_decision engine) r = DecAllow) rs
  | Err d => exists r denial, rs !! pbd_request_index d = Some r /\
      first_decision policies (pe_default_decision engine) r = DecDeny denial /\
      pbd_error d = denial_into_error denial
  end.
Proof.
  intros Hpin Hne Hws Hchk. revert i s. assert (0 < length rs)%nat as Hlen by (destruct rs; simpl in *; [done|lia]).
  induction Hpin as [|ev p evs policies Hev _ IH]; intros i s Hs.
  - unfold batch_outcome; simpl. pose proof (settle_default_all engine (length rs) 0) as Hd.
    destruct (settle_default _ _ _) as [[]|d]; simpl.
    + destruct Hd as [?|Hd]; [lia|]. apply Forall_forall. done.
    + destruct Hd as (denial & Hd & -> & _). destruct rs as [|r rs]; [done|].
      exists r, denial. done.
  - simpl. rewrite forallb_negb_true by done.
    destruct (pinned_batch rs (es_evaluators s) Hs Hne Hws) as (es & s1 & Hs1 & Hb).
    unfold st_bind at 1, st_map_err, on_evaluators. rewrite Hb. simpl. unfold st_bind at 1.
    rewrite length_map, Nat.eqb_refl. simpl.
    destruct p as [p|]; simpl; unfold st_bind, st_lift; simpl; rewrite Hchk; simpl.
    + pose proof (settle_all_decide p rs 0) as Hset. destruct (settle _ _ _) as [us|d]; simpl.
      * destruct Hset as [-> Hall]. rewrite batch_loop_resolved. unfold batch_outcome; simpl.
        by rewrite settle_default_none.
      * destruct Hset as (j & r & denial & -> & Hj & Hd). by exists r, denial.
    + rewrite settle_all_abstain by (by rewrite length_replicate). simpl. apply IH.
      by rewrite record_unresolved_evaluators.
Qed.
End pinned_batch.

(** The durable evaluator with a fresh cache entry is pinned to it. *)
#[export] Instance durable_is_pinned world ws policy :
  PinnedEvaluator (durable_evaluator world) ws (durable_pinned world ws policy) policy.
Proof.
  assert (forall s, durable_pinned world ws policy s ->
    exists s', durable_pinned world ws policy s' /\ durable_compiled world ws s = (Ok policy, s')) as Hc.
  { intros [n cache] (c & Hc & <- & Hfresh). simpl in *.
    exists (mkDurableState (S n) cache). split.
    - exists c. simpl. split_and!; [done|done|]. intros k Hk. apply Hfresh. lia.
    - unfold durable_compiled; simpl. rewrite Hc.
      assert ((duration_since (dw_now (world n)) (cwp_loaded_at c) <? POLICY_CACHE_TTL) = true) as ->; [|done].
      apply Z.ltb_lt, Hfresh. lia. }
  split.
  - intros r s Hs Hws. destruct (Hc s Hs) as (s' & Hs' & Heq). simpl. unfold durable_explain, st_bind.
    rewrite Hws, Heq. eexists _, s'. split_and!; [done|done|]. by destruct policy.
  - intros r s Hs Hws. destruct (Hc s Hs) as (s' & Hs' & Heq). simpl. unfold compiled_evaluate, st_bind.
    rewrite Hws, Heq. exists s'. split; [done|]. by destruct policy.
  - intros rs s Hs Hne Hws. destruct rs as [|r rs]; [done|].
    destruct (Hc s Hs) as (s' & Hs' & Heq). cbn [ev_evaluate_batch durable_evaluator].
    assert (existsb (fun q => negb (req_workspace_id q =s req_workspace_id r)) (r :: rs) = false) as Hex.
    { apply not_true_is_false. intros (q & Hq & Hn)%existsb_elem.
      rewrite Forall_forall in Hws. rewrite (Hws q Hq), (Hws r) in Hn by left.
      by rewrite String.eqb_refl in Hn. }
    unfold compiled_evaluate_batch. rewrite Hex. unfold st_bind.
    assert (req_workspace_id r = ws) as -> by by inversion Hws. rewrite Heq.
    destruct policy as [p|]; eexists _, s'; (split; [done|]); [done|].
    unfold st_ret. repeat f_equal. clear. generalize (r :: rs) as l.
    induction l as [|? ? IH]; simpl; [done|by rewrite IH].
Qed.

Section batch_property.
Context {S : Type} (engine : PolicyEngine S) (now : nat -> string) (ws : string)
  (Inv : S -> Prop) (policies : list (option CompiledWorkspacePolicy)).
Context (Hpin : Forall2 (fun ev p => PinnedEvaluator ev ws Inv p) (pe_evaluators engine) policies)
  (Hstable : tree_stable (pe_tree engine) ws).

(** A request as [enrich] leaves it passes every Tree revision check of the call. *)
Lemma enriched_check r r' j :
  req_workspace_id r = ws -> enrich engine r = Ok r' ->
  req_workspace_id r' = ws /\ check_tree_revision engine j r' = Ok tt.
Proof.
  intros Hws. unfold enrich. destruct (pe_tree engine) as [t|] eqn:Ht.
  - rewrite Hws. destruct (snapshot_load (ta_rows t ws)) as [snap|] eqn:Hsnap; [|done].
    intros [= <-]. split; [done|].
    apply (check_stable engine ws); [by intros ? ? ? [= <-]%(eq_trans (eq_sym Ht)); apply Hstable|done|].
    simpl. intros rev [= <-] t' Ht'. rewrite Ht in Ht'. simplify_eq. eauto.
  - intros [= <-]. split; [done|]. unfold check_tree_revision. by rewrite Ht.
Qed.

Lemma authorize_pinned r s :
  req_workspace_id r = ws -> Inv (es_evaluators s) ->
  (authorize engine now r s).1 =
  (let? r' := enrich engine r in
   into_result (first_decision policies (pe_default_decision engine) r')).
Proof.
  intros Hws Hs. unfold authorize, st_bind at 1, st_lift.
  destruct (enrich engine r) as [r'|e] eqn:He; simpl; [|done].
  pose proof (fun j => enriched_check r r' j Hws He) as Hr'.
  apply (authorize_loop_pinned engine now ws Inv); [done|apply (Hr' 0%nat)|apply Hr'|done].
Qed.

(** The engine enriches all requests of a workspace in one way, or fails on each. *)
Lemma batch_enrichment r0 rs s :
  Forall (fun r => req_workspace_id r = ws) (r0 :: rs) ->
  (exists f, (forall r, req_workspace_id r = ws -> enrich engine r = Ok (f r)) /\
     authorize_batch engine now (r0 :: rs) s = authorize_enriched engine now (map f (r0 :: rs)) s) \/
  (exists e, (forall r, req_workspace_id r = ws -> enrich engine r = Err e) /\
     (authorize_batch engine now (r0 :: rs) s).1 = Err (at_zero e)).
Proof.
  intros [Hw0 _]%Forall_cons. unfold enrich, authorize_batch. rewrite Hw0.
  destruct (pe_tree engine) as [t|].
  - unfold st_bind, st_lift. destruct (snapshot_load (ta_rows t ws)) as [snap|e] eqn:Hsnap.
    + left. exists (snapshot_enrich snap). split; [|done]. intros r ->. by rewrite Hsnap.
    + right. exists e. split; [|done]. intros r ->. by rewrite Hsnap.
  - left. exists (fun r => r). split; [done|]. by rewrite map_id.
Qed.

Lemma authorize_enriched_outcome first rest s :
  Forall (fun r => req_workspace_id r = ws) (first :: rest) ->
  (authorize_enriched engine now (first :: rest) s).1 =
  (let? revision := batch_outcome engine
     (batch_loop engine now (first :: rest) first 0 (replicate (length (first :: rest)) true) None
        (pe_evaluators engine) s).1 in
   Ok (mkPolicyBatchAuthorization revision)).
Proof.
  intros Hws. unfold authorize_enriched.
  assert (existsb (fun r => negb (req_workspace_id r =s req_workspace_id first)) (first :: rest) = false) as ->.
  { apply not_true_is_false. intros (q & Hq & Hn)%existsb_elem. rewrite Forall_forall in Hws.
    rewrite (Hws q Hq), (Hws first) in Hn by left. by rewrite String.eqb_refl in Hn. }
  unfold batch_outcome, st_bind, st_lift.
  destruct (batch_loop _ _ _ _ _ _ _ _ _) as [[[us rev]|d] s1]; simpl; [|done].
  by destruct (settle_default _ _ _).
Qed.

(** A batch of one workspace. *)
Lemma workspace_batch requests s :
  Forall (fun r => req_workspace_id r = ws) requests -> Inv (es_evaluators s) ->
  match (authorize_batch engine now requests s).1 with
  | Ok _ => forall r s', r ∈ requests -> Inv (es_evaluators s') ->
      (authorize engine now r s').1 = Ok tt
  | Err d => exists r, requests !! pbd_request_index d = Some r /\
      forall s', Inv (es_evaluators s') -> (authorize engine now r s').1 = Err (pbd_error d)
  end.
Proof.
  intros Hws Hs. destruct requests as [|r0 rs]; [intros r s' []%elem_of_nil|].
  destruct (batch_enrichment r0 rs s Hws) as [(f & Hf & ->)|(e & Hf & ->)].
  - assert (Forall (fun r => req_workspace_id r = ws) (map f (r0 :: rs))) as Hws'.
    { apply Forall_map. eapply Forall_impl; [exact Hws|]. intros r Hr.
      by apply (enriched_check r (f r) 0), Hf. }
    simpl map in Hws' |- *. rewrite authorize_enriched_outcome by done.
    assert (forall j, check_tree_revision engine j (f r0) = Ok tt) as Hchk.
    { intros j. inversion Hws. by apply (enriched_check r0), Hf. }
    pose proof (batch_loop_pinned engine now ws Inv _ _ (f r0 :: map f rs) (f r0) 0 s Hpin
      ltac:(done) Hws' Hchk Hs) as Hb.
    destruct (batch_outcome _ _) as [rev|d]; simpl.
    + intros r s' Hr Hs'. rewrite Forall_forall in Hws, Hb.
      rewrite authorize_pinned, Hf by auto. simpl. rewrite Hb; [done|].
      change (f r0 :: map f rs) with (f <$> (r0 :: rs)). by apply list_elem_of_fmap_2.
    + destruct Hb as (r' & denial & Hr' & Hd & ->).
      change (f r0 :: map f rs) with (f <$> (r0 :: rs)) in Hr'.
      apply list_lookup_fmap_Some in Hr' as (r & -> & Hr). exists r. split; [done|].
      intros s' Hs'. rewrite Forall_forall in Hws. apply list_elem_of_lookup_2 in Hr.
      rewrite authorize_pinned, Hf by auto. simpl. by rewrite Hd.
  - exists r0. split; [done|]. intros s' Hs'. inversion Hws.
    rewrite authorize_pinned, Hf by auto. done.
Qed.

(** The first request's workspace is the one of every request. *)
Definition one_workspace (requests : list PolicyRequest) : bool :=
  forallb (fun r => req_workspace_id r =s ws) requests.

Lemma mixed_batch r0 rs s :
  req_workspace_id r0 = ws -> one_workspace (r0 :: rs) = false ->
  (authorize_batch engine now (r0 :: rs) s).1 =
  Err (at_zero (protocol_error "policy_batch_workspace_mismatch" "a policy batch must belong to one workspace"))
  \/ exists e, enrich engine r0 = Err e /\ (authorize_batch engine now (r0 :: rs) s).1 = Err (at_zero e).
Proof.
  intros Hw0 Hmix.
  assert (forall f, (forall r, req_workspace_id (f r) = req_workspace_id r) ->
    (authorize_enriched engine now (map f (r0 :: rs)) s).1 =
    Err (at_zero (protocol_error "policy_batch_workspace_mismatch" "a policy batch must belong to one workspace"))) as Hm.
  { intros f Hf. change (map f (r0 :: rs)) with (f r0 :: map f rs). unfold authorize_enriched.
    destruct (existsb (fun r => negb (req_workspace_id r =s req_workspace_id (f r0))) (f r0 :: map f rs)) eqn:Hex;
      [done|]. assert (one_workspace (r0 :: rs) = true) as Hyes; [|congruence].
    apply forallb_elem. intros r Hr. apply not_false_is_true. intros Hne.
    assert (existsb (fun r => negb (req_workspace_id r =s req_workspace_id (f r0))) (f r0 :: map f rs) = true); [|congruence].
    apply existsb_elem. exists (f r). change (f r0 :: map f rs) with (f <$> (r0 :: rs)).
    split; [by apply list_elem_of_fmap_2|]. by rewrite !Hf, Hw0, Hne. }
  unfold authorize_batch, enrich. destruct (pe_tree engine) as [t|].
  - unfold st_bind, st_lift. destruct (snapshot_load (ta_rows t (req_workspace_id r0))) as [snap|e] eqn:Hsnap.
    + left. by apply Hm.
    + right. by exists e.
  - left. specialize (Hm (fun r => r) ltac:(done)). by rewrite map_id in Hm.
Qed.

(** C2: A batch is the conjunction of its requests.  While the evaluators answer from fixed policies
    of the workspace of the first request and its Tree does not change, [authorize_batch] succeeds
    only when all requests are of that workspace and every one of them would be authorized on its
    own; a failure names a request that is refused on its own with the same error, except that a
    batch whose requests are not all of one workspace is refused as such, at index 0. *)
Theorem batch_is_conjunction requests s :
  (forall r0, head requests = Some r0 -> req_workspace_id r0 = ws) -> Inv (es_evaluators s) ->
  match (authorize_batch engine now requests s).1 with
  | Ok _ => one_workspace requests = true /\
      forall r s', r ∈ requests -> Inv (es_evaluators s') -> (authorize engine now r s').1 = Ok tt
  | Err d =>
      (exists r, requests !! pbd_request_index d = Some r /\
         forall s', Inv (es_evaluators s') -> (authorize engine now r s').1 = Err (pbd_error d))
      \/ (one_workspace requests = false /\
          d = at_zero (protocol_error "policy_batch_workspace_mismatch" "a policy batch must belong to one workspace"))
  end.
Proof.
  intros Hw0 Hs. destruct (one_workspace requests) eqn:Hone.
  - assert (Forall (fun r => req_workspace_id r = ws) requests) as Hws.
    { apply Forall_forall. intros r Hr. unfold one_workspace in Hone. rewrite forallb_elem in Hone.
      by apply str_eqb_eq, Hone. }
    pose proof (workspace_batch requests s Hws Hs) as Hb.
    destruct (authorize_batch engine now requests s).1 as [a|d]; [done|by left].
  - destruct requests as [|r0 rs]; [done|]. specialize (Hw0 r0 eq_refl).
    destruct (mixed_batch r0 rs s Hw0 Hone) as [->|(e & He & ->)]; [by right|left].
    exists r0. split; [done|]. intros s' Hs'. by rewrite authorize_pinned, He.
Qed.
End batch_property.

Lemma decision_log_bounded_witness :
  let s := foldl (engine_call sample_engine (fun _ => "t")) sample_engine_state
             [CallAuthorize sample_policy_request; CallBatch [sample_policy_request]] in
  records_ok (es_records s) /\
  (length (decision_records s "ws") <= 100)%nat /\
  Forall (fun r => pdr_workspace_id r = "ws" /\ monitor_denial r) (decision_records s "ws").
Proof.
  apply (decision_log_bounded sample_engine (fun _ => "t")
    [CallAuthorize sample_policy_request; CallBatch [sample_policy_request]] []).
  split; [apply Nat.le_0_l|constructor].
Defined.

Lemma sample_tree_stable ws : tree_stable (Some sample_tree_access) ws.
Proof.
  intros t snap i [= <-] H. assert (snap_revision snap = 7) as ->; [|done].
  revert H. vm_compute. by intros [= <-].
Qed.

Lemma batch_is_conjunction_witness :
  match (authorize_batch sample_engine (fun _ => "t") [sample_policy_request] sample_engine_state).1 with
  | Ok _ => one_workspace "ws" [sample_policy_request] = true /\
      forall r s', r ∈ [sample_policy_request] ->
      durable_pinned sample_engine_world "ws" (Some (compile sample_policy)) (es_evaluators s') ->
      (authorize sample_engine (fun _ => "t") r s').1 = Ok tt
  | Err d =>
      (exists r, [sample_policy_request] !! pbd_request_index d = Some r /\
         forall s', durable_pinned sample_engine_world "ws" (Some (compile sample_policy)) (es_evaluators s') ->
           (authorize sample_engine (fun _ => "t") r s').1 = Err (pbd_error d))
      \/ (one_workspace "ws" [sample_policy_request] = false /\
          d = at_zero (protocol_error "policy_batch_workspace_mismatch" "a policy batch must belong to one workspace"))
  end.
Proof.
  apply (batch_is_conjunction sample_engine (fun _ => "t") "ws"
    (durable_pinned sample_engine_world "ws" (Some (compile sample_policy)))
    [Some (compile sample_policy)]).
  - constructor; [apply durable_is_pinned|constructor].
  - apply sample_tree_stable.
  - by intros r0 [= <-].
  - exists (mkCachedWorkspacePolicy 0 (Some (compile sample_policy))). split_and!; [done|done|].
    intros n _. vm_compute. done.
Defined.

(** ** Sensitive reads *)

Lemma explicitly_allowed_rule policy request :
  explicitly_allowed (explain (compile policy) request) = true ->
  pol_mode policy = Enforce /\
  exists r, r ∈ applicable policy request /\ rule_effect r = Allow /\
    forall r', r' ∈ applicable policy request -> rule_effect r' = Deny ->
      (rule_priority r' < rule_priority r)%Z.
Proof.
  unfold explicitly_allowed, explain; simpl. rewrite !andb_true_iff, !bool_decide_eq_true.
  intros [[Hm Hid] Heff]. split; [done|]. rewrite Hm in Heff.
  destruct (matched_rule _ _) as [r|] eqn:Hr; [|done]. simpl in Heff.
  exists r. split_and!; [by apply (matched_rule_least _ _ _ Hr)|done|].
  intros r' Hr' Hd. destruct (matched_rule_outranks _ _ _ _ Hr Hr') as [|[_ [?|?]]]; [done|congruence..].
Qed.

(** Who may read the audit log.  A sensitive read that the caller's role does not allow
    succeeds on the durable engine only if a stored policy (the current one, or the one of a
    load less than five seconds ago) is enforced and has an allow rule that applies to the
    request, with every applicable deny rule of strictly lower priority; monitor mode and
    action defaults never grant it.  The Tree revision the decision used is the current one. *)
Theorem sensitive_read_needs_allow_rule world tree now loads records request s' :
  authorize_sensitive_read (engine_durable world tree) now request false
    (mkEngineState (durable_run world loads) records) = (Ok tt, s') ->
  exists request' m policy r,
    enrich (engine_durable world tree) request = Ok request' /\
    check_tree_revision (engine_durable world tree) 0 request' = Ok tt /\
    recent_load world m (ds_calls (durable_run world loads)) /\
    dw_store (world m) (req_workspace_id request') = Ok (Some policy) /\
    pol_mode policy = Enforce /\
    r ∈ applicable policy request' /\ rule_effect r = Allow /\
    forall r', r' ∈ applicable policy request' -> rule_effect r' = Deny ->
      (rule_priority r' < rule_priority r)%Z.
Proof.
  unfold authorize_sensitive_read.
  intros (request' & s1 & [= Henr <-] & H)%st_bind_ok_iff. exists request'.
  cbn [pe_evaluators engine_durable sensitive_loop ev_explain durable_evaluator] in H.
  apply st_bind_ok_iff in H as (e & s2 & Hexp & H).
  unfold on_evaluators in Hexp. simpl in Hexp.
  destruct (durable_explain world request' (durable_run world loads)) as [re ds] eqn:Hd.
  simplify_eq. unfold durable_explain in Hd.
  apply st_bind_ok_iff in Hd as (compiled & ds1 & Hc & [= He <-]).
  destruct compiled as [cp|]; simpl in He; subst e.
  - apply st_bind_ok_iff in H as ([] & s3 & [= Hchk <-] & H).
    apply st_bind_ok_iff in H as ([] & s4 & [= <-] & H).
    apply st_bind_ok_iff in H as ([] & s5 & [= Hdec <-] & H).
    unfold st_lift, sensitive_read_baseline in H. simpl in H. case_match eqn:Hexpl; [|done].
    destruct (durable_compiled_origin world _ _ _ _ (durable_run_inv world loads) Hc)
      as (m & stored & Hst & Hcp & Hm).
    destruct stored as [policy|]; simplify_eq/=. 
    destruct (explicitly_allowed_rule _ _ Hexpl) as (Hmode & r & Hr & Heff & Hmax).
    by exists m, policy, r.
  - apply st_bind_ok_iff in H as (ev & s3 & Hev & H). exfalso.
    destruct ev as [|decision].
    + apply st_bind_ok_iff in H as ([] & s4 & _ & H).
      apply st_bind_ok_iff in H as ([] & s5 & _ & H). by simplify_eq.
    + apply st_bind_ok_iff in H as ([] & s4 & _ & H).
      apply st_bind_ok_iff in H as ([] & s5 & _ & H). by simplify_eq.
Qed.

Lemma sensitive_read_needs_allow_rule_witness :
  exists request' m policy r,
    enrich (engine_durable sample_audit_world sample_tree_access) sample_audit_request = Ok request' /\
    check_tree_revision (engine_durable sample_audit_world sample_tree_access) 0 request' = Ok tt /\
    recent_load sample_audit_world m 0 /\
    dw_store (sample_audit_world m) (req_workspace_id request') = Ok (Some policy) /\
    pol_mode policy = Enforce /\
    r ∈ applicable policy request' /\ rule_effect r = Allow /\
    forall r', r' ∈ applicable policy request' -> rule_effect r' = Deny ->
      (rule_priority r' < rule_priority r)%Z.
Proof.
  eapply (sensitive_read_needs_allow_rule sample_audit_world sample_tree_access (fun _ => "t") [] []).
  vm_compute. reflexivity.
Defined.

(** ** Failing closed *)

Section fail_closed.
Context {Json : Type}
  (manifest_from_json : Json -> Result PolicyProviderManifest string)
  (bundle_from_json : Json -> Result PolicyProviderBundle string)
  (encoded : WorkspacePolicyDocument -> Result Z string)
  (form_urlencode : list (string * string) -> string)
  (provider_world : nat -> ProviderWorld Json) (world : nat -> DurableWorld) (tree : TreeAccess).
Local Notation engine := (engine_durable_with_provider manifest_from_json bundle_from_json encoded
  form_urlencode provider_world world tree).
Local Notation run := (provider_run manifest_from_json bundle_from_json encoded form_urlencode
  provider_world).

(** C3: a fail-closed Policy App fails closed, end to end.  While a workspace is bound to a
    fail-closed provider and every fetch of its bundle fails, every operation in the workspace
    is refused, after any history of loads and invalidations, whatever the durable policy and
    the engine's permissive default say. *)
Theorem fail_closed_refuses ws events durable records now request s' r :
  (forall n, exists p, pw_store (provider_world n) ws = Ok (Some p) /\
     wpp_failure_mode p = FailClosed /\ is_empty (wpp_app_id p) = false) ->
  (forall n app bundle, fetch_bundle manifest_from_json bundle_from_json encoded form_urlencode
     (provider_world n) app ws <> Ok bundle) ->
  req_workspace_id request = ws ->
  authorize engine now request (mkEngineState (run events, durable) records) = (r, s') ->
  is_ok r = false.
Proof.
  intros Hbound Hfetch Hws. destruct r as [[]|e]; [|done]. intros H. exfalso.
  unfold authorize in H. apply st_bind_ok_iff in H as (request' & s1 & [= Henr <-] & H).
  assert (req_workspace_id request' = ws) as Hws'.
  { unfold enrich in Henr. simpl in Henr. by inv_bind Henr; injection Henr as <-. }
  cbn [pe_evaluators engine_durable_with_provider authorize_loop] in H.
  apply st_bind_ok_iff in H as (e & s2 & Hexp & _).
  unfold on_evaluators in Hexp. cbn in Hexp. unfold on_fst in Hexp. cbn in Hexp.
  destruct (provider_explain _ _ _ _ _ _ _) as [re ps] eqn:Hpe. simplify_eq.
  unfold provider_explain in Hpe. apply st_bind_ok_iff in Hpe as (policy & ps1 & Hc & _).
  rewrite Hws' in Hc.
  destruct (provider_compiled_origin _ _ _ _ _ _ _ _ _ (provider_run_inv _ _ _ _ _ events) Hc)
    as [_ Ho].
  destruct (Ho _ eq_refl) as (k & c & _ & Horigin & Hp & Hempty).
  destruct (Hbound k) as (p & Hst & Hmode & Happ).
  destruct Horigin as [|m pk pm bundle error _ _ _ _ Hf|pk error Hst' Hm|pk error Hst' Hm]; simpl in *.
  - congruence.
  - by apply Hfetch in Hf.
  - congruence.
  - subst policy. rewrite Hst in Hst'. simplify_eq. rewrite Hempty in Happ; done.
Qed.
End fail_closed.

Lemma fail_closed_refuses_witness :
  is_ok (authorize sample_down_engine (fun _ => "t") sample_down_request sample_down_state).1 = false.
Proof.
  apply (fail_closed_refuses (fun _ => Ok sample_manifest) (fun _ => Ok sample_bundle)
    (fun _ => Ok 100) (fun _ => "") (fun n => sample_world FailClosed (S n)) sample_engine_world
    sample_tree_access "policy" [Load "policy"; Invalidate "policy"] (mkDurableState 0 ∅) []
    (fun _ => "t") sample_down_request
    (authorize sample_down_engine (fun _ => "t") sample_down_request sample_down_state).2).
  - intros n. exists (sample_provider FailClosed). done.
  - intros n app bundle. done.
  - reflexivity.
  - apply surjective_pairing.
Defined.
