(* ===== verification/TreeStore.v ===== *)
(** * The workspace Tree store (crates/treer-proxy/src/auth/workload_tree.rs)

    Folder and placement mutations of one workspace.  Each is one database transaction that
    holds the workspace row's lock, so mutations of a workspace run one after another; an error
    rolls the transaction back.  A table is the list of its rows.  Two operations of auth/apps.rs
    write the Tree, too: creating an App, which holds the lock, and deleting one, which does not,
    removes the placement of its workload in one statement and renumbers nothing. *)

From S2P Require Import Prelude RustStr Protocol WorkloadTree.
Local Open Scope Z_scope.

(** ** Errors *)

Inductive AuthFailure : Type :=
| BadRequest (code message : string)
| NotFound (code message : string)
| Conflict (code message : string)
| DatabaseFailure.

Definition invalid (message : string) : AuthFailure := BadRequest "invalid_workload_tree" message.

(** ** Tables *)

Record AppNameRow : Type := mkAppNameRow {
  an_app_id : string;
  an_name : string;
  an_runtime_agent_id : option string
}.

Record CredentialState : Type := mkCredentialState {
  cs_agent_id : string;
  cs_revoked : bool
}.

(** The rows of one workspace; [td_names] pairs an Agent with its name. *)
Record TreeDb : Type := mkTreeDb {
  td_exists : bool;
  td_folders : list WorkloadFolder;
  td_placements : list WorkloadPlacement;
  td_credentials : list CredentialState;
  td_names : list (string * string);
  td_apps : list AppNameRow;
  td_deleted : list string;
  td_reservations : list (string * string);
  td_audit : list (string * string)
}.

Definition set_folders (db : TreeDb) (folders : list WorkloadFolder) : TreeDb :=
  mkTreeDb (td_exists db) folders (td_placements db) (td_credentials db) (td_names db)
    (td_apps db) (td_deleted db) (td_reservations db) (td_audit db).
Definition set_placements (db : TreeDb) (placements : list WorkloadPlacement) : TreeDb :=
  mkTreeDb (td_exists db) (td_folders db) placements (td_credentials db) (td_names db)
    (td_apps db) (td_deleted db) (td_reservations db) (td_audit db).
(** [audit::insert_workspace_mutation]: the action and the resource. *)
Definition add_audit (db : TreeDb) (action id : string) : TreeDb :=
  mkTreeDb (td_exists db) (td_folders db) (td_placements db) (td_credentials db) (td_names db)
    (td_apps db) (td_deleted db) (td_reservations db) ((action, id) :: td_audit db).

(** [folder_id IS NOT DISTINCT FROM $n] is [opt_str_eqb]. *)
Definition in_folder (folder : option string) (p : WorkloadPlacement) : bool :=
  opt_str_eqb (wp_folder_id p) folder.
Definition placement_of (db : TreeDb) (agent : string) : option WorkloadPlacement :=
  List.find (fun p => wp_agent_id p =s agent) (td_placements db).
(** The folder column of a LEFT JOIN with the placements: NULL when there is no row. *)
Definition joined_folder (db : TreeDb) (agent : string) : option string :=
  p ← placement_of db agent; wp_folder_id p.
Definition revoked (db : TreeDb) (agent : string) : bool :=
  existsb (fun c => (cs_agent_id c =s agent) && cs_revoked c) (td_credentials db).
Definition active_credential (db : TreeDb) (agent : string) : bool :=
  existsb (fun c => (cs_agent_id c =s agent) && negb (cs_revoked c)) (td_credentials db).
Definition agent_name (db : TreeDb) (agent : string) : option string :=
  snd <$> List.find (fun n => n.1 =s agent) (td_names db).
Definition app_runs_as (agent : string) (a : AppNameRow) : bool :=
  is_some_and (an_runtime_agent_id a) (fun r => r =s agent) || (an_app_id a =s agent).
Definition app_workload (a : AppNameRow) : string := default (an_app_id a) (an_runtime_agent_id a).

(** The rows that name a folder's workspace Tree: [load_workload_tree] up to its ORDER BY. *)
Definition load_workload_tree (db : TreeDb) : WorkloadTree :=
  mkWorkloadTree (td_folders db)
    (List.filter (fun p => active_credential db (wp_agent_id p)) (td_placements db)).

(** ** Validation *)

(** [validate_resource_name] (handlers/helper_validation.rs) *)
Definition validate_resource_name (value resource : string) : Result string AuthFailure :=
  let value := trim value in
  if is_empty value || (80 <? str_len value) || any_control value
  then Err (BadRequest "invalid_name" (resource +:+ " name must be 1-80 printable characters"))
  else Ok value.

Definition validate_folder_name (name : string) : Result string AuthFailure :=
  let? name := validate_resource_name name "folder" in
  if contains_char slash name || ((name =s ".") || (name =s ".."))
  then Err (invalid "folder names cannot contain / or equal . or ..")
  else Ok name.

Definition validate_workload_name (db : TreeDb) (folder : option string) (name : string)
    (excluding : option string) : Result unit AuthFailure :=
  let other id := is_none_or excluding (fun e => negb (id =s e)) in
  let agents :=
    existsb (fun '(agent, n) =>
      (n =s name) && opt_str_eqb (joined_folder db agent) folder && other agent
      && negb (revoked db agent) && negb (existsb (fun d => d =s agent) (td_deleted db)))
      (td_names db) in
  let apps :=
    existsb (fun a =>
      (an_name a =s name) && opt_str_eqb (joined_folder db (app_workload a)) folder
      && other (app_workload a)) (td_apps db) in
  if agents || apps
  then Err (Conflict "agent_name_conflict"
              "an Agent or App in the destination folder already has this name")
  else Ok tt.

Definition validate_sibling_name (db : TreeDb) (parent : option string) (name : string)
    (excluding : option string) : Result unit AuthFailure :=
  if existsb (fun f => opt_str_eqb (wf_parent_id f) parent && (wf_name f =s name)
                       && is_none_or excluding (fun e => negb (wf_folder_id f =s e)))
       (td_folders db)
  then Err (BadRequest "folder_exists"
              "a folder with this name already exists in the destination")
  else Ok tt.

Definition load_folder (db : TreeDb) (id : string) : Result WorkloadFolder AuthFailure :=
  ok_or (find_folder (load_workload_tree db) id)
    (NotFound "folder_not_found" "folder does not exist in this workspace").

Definition err_move_cycle : AuthFailure := invalid "folder move would create a cycle".

(** The [while let] of [validate_parent]; [None] is running out of fuel. *)
Fixpoint validate_parent_loop (fuel : nat) (db : TreeDb) (moving : option string)
    (seen : list string) (next : option string) : option (Result unit AuthFailure) :=
  match next with
  | None => Some (Ok tt)
  | Some id =>
      match fuel with
      | O => None
      | S fuel' =>
          if is_some_and moving (fun m => m =s id) || bool_decide (id ∈ seen)
          then Some (Err err_move_cycle)
          else match load_folder db id with
               | Err e => Some (Err e)
               | Ok folder => validate_parent_loop fuel' db moving (id :: seen) (wf_parent_id folder)
               end
      end
  end.

(** Every turn but the last adds a new folder ID to [seen]. *)
Definition validate_parent (db : TreeDb) (parent moving : option string) : Result unit AuthFailure :=
  default (Err err_move_cycle)
    (validate_parent_loop (S (length (td_folders db))) db moving [] parent).

(** The destination of a new workload: [creation_folder]. *)
Definition WORKLOAD_CREATE_ROOT : string := "/".
Definition creation_folder (db : TreeDb) (requested caller : option string)
    : Result (option string) AuthFailure :=
  let? destination :=
    match requested with
    | Some folder => Ok (if folder =s WORKLOAD_CREATE_ROOT then None else Some folder)
    | None =>
        match caller with
        | None => Ok None
        | Some caller =>
            match opt_filter (fun p => active_credential db (wp_agent_id p)
                                       && negb (existsb (fun d => d =s caller) (td_deleted db)))
                    (placement_of db caller) with
            | Some p => Ok (wp_folder_id p)
            | None =>
                Err (BadRequest "caller_unplaced"
                  "caller has no active placement; request an explicitly authorized folder or ask the owner to place it")
            end
        end
    end in
  validate_parent db destination None ;?
  Ok destination.

(** ** Positions *)

(** The rows a window [ORDER BY position, agent_id] puts before [p]. *)
Definition placed_before (q p : WorkloadPlacement) : bool :=
  (wp_position q <? wp_position p)
  || ((wp_position q =? wp_position p) && String.ltb (wp_agent_id q) (wp_agent_id p)).

Definition rank_in (rows : list WorkloadPlacement) (p : WorkloadPlacement) : Z :=
  Z.of_nat (length (List.filter
    (fun q => in_folder (wp_folder_id p) q && placed_before q p) rows)).

Definition with_position (p : WorkloadPlacement) (position : Z) : WorkloadPlacement :=
  mkWorkloadPlacement (wp_agent_id p) (wp_folder_id p) position.

(** [normalize]: [ROW_NUMBER() - 1] in each folder. *)
Definition normalize (rows : list WorkloadPlacement) : list WorkloadPlacement :=
  map (fun p => with_position p (rank_in rows p)) rows.

(** [COALESCE(MAX(position)+1,0)] over a folder. *)
Definition next_position (rows : list WorkloadPlacement) (folder : option string) : Z :=
  foldr Z.max 0 (map (fun p => wp_position p + 1) (List.filter (in_folder folder) rows)).

(** ** Mutations *)

Record CreateWorkloadFolderRequest : Type := mkCreateFolder {
  cf_name : string;
  cf_parent_id : option string
}.
Record UpdateWorkloadFolderRequest : Type := mkUpdateFolder {
  uf_name : option string;
  uf_parent_id : option (option string)
}.
Record SetWorkloadPlacementRequest : Type := mkSetPlacement {
  sp_folder_id : option string;
  sp_position : Z
}.

Definition lock_workload_tree (db : TreeDb) : Result unit AuthFailure :=
  if td_exists db then Ok tt
  else Err (NotFound "workspace_not_found" "workspace does not exist").

(** A transaction: its writes are kept only when it commits. *)
Definition transaction {A} (db : TreeDb) (body : Result (A * TreeDb) AuthFailure)
    : Result A AuthFailure * TreeDb :=
  match body with
  | Ok (a, db') => (Ok a, db')
  | Err e => (Err e, db)
  end.

(** [create_workload_folder]; [fresh] is the generated folder ID. *)
Definition create_workload_folder (db : TreeDb) (fresh : string)
    (request : CreateWorkloadFolderRequest) : Result WorkloadFolder AuthFailure * TreeDb :=
  transaction db (
    let? name := validate_folder_name (cf_name request) in
    lock_workload_tree db ;?
    validate_parent db (cf_parent_id request) None ;?
    validate_sibling_name db (cf_parent_id request) name None ;?
    let result := mkWorkloadFolder fresh name (cf_parent_id request) in
    (if existsb (fun f => wf_folder_id f =s fresh) (td_folders db)
     then Err DatabaseFailure else Ok tt) ;?
    Ok (result, add_audit (set_folders db (td_folders db ++ [result])) "tree.folder.create" fresh)).

(** The [UPDATE workload_folders ... WHERE folder_id=$2]. *)
Definition replace_folder (result : WorkloadFolder) (folders : list WorkloadFolder)
    : list WorkloadFolder :=
  map (fun f => if wf_folder_id f =s wf_folder_id result then result else f) folders.

(** [update_workload_folder] *)
Definition update_workload_folder (db : TreeDb) (id : string)
    (request : UpdateWorkloadFolderRequest) : Result WorkloadFolder AuthFailure * TreeDb :=
  transaction db (
    lock_workload_tree db ;?
    let? original := load_folder db id in
    let? name :=
      match uf_name request with
      | Some name => validate_folder_name name
      | None => Ok (wf_name original)
      end in
    let? parent :=
      match uf_parent_id request with
      | Some parent => validate_parent db parent (Some id) ;? Ok parent
      | None => Ok (wf_parent_id original)
      end in
    let result := mkWorkloadFolder (wf_folder_id original) name parent in
    validate_sibling_name db parent name (Some id) ;?
    if (name =s wf_name original) && opt_str_eqb parent (wf_parent_id original)
    then Ok (result, db)
    else Ok (result, add_audit (set_folders db (replace_folder result (td_folders db)))
                       "tree.folder.update" id)).

(** The names under which a placed workload must not clash after a promotion. *)
Definition promoted_names (db : TreeDb) (p : WorkloadPlacement) : list string :=
  match agent_name db (wp_agent_id p) with
  | Some name => [name]
  | None => map an_name (List.filter (app_runs_as (wp_agent_id p)) (td_apps db))
  end.

Definition reparent (id : string) (parent : option string) (f : WorkloadFolder) : WorkloadFolder :=
  if opt_str_eqb (wf_parent_id f) (Some id)
  then mkWorkloadFolder (wf_folder_id f) (wf_name f) parent else f.

(** [remove_workload_folder] *)
Definition remove_workload_folder (db : TreeDb) (id : string) (require_empty : bool)
    : Result unit AuthFailure * TreeDb :=
  transaction db (
    lock_workload_tree db ;?
    let? result := load_folder db id in
    (if require_empty
        && (existsb (fun f => opt_str_eqb (wf_parent_id f) (Some id)) (td_folders db)
            || existsb (fun p => in_folder (Some id) p && active_credential db (wp_agent_id p))
                 (td_placements db))
     then Err (BadRequest "folder_not_empty" "folder is not empty") else Ok tt) ;?
    let folders := map (reparent id (wf_parent_id result)) (td_folders db) in
    try_for_each (fun p =>
      try_for_each (fun name =>
        validate_workload_name db (wf_parent_id result) name (Some (wp_agent_id p)))
        (promoted_names db p))
      (List.filter (in_folder (Some id)) (td_placements db)) ;?
    let base := next_position (td_placements db) (wf_parent_id result) in
    let placements :=
      map (fun p => if in_folder (Some id) p
                    then mkWorkloadPlacement (wp_agent_id p) (wf_parent_id result)
                           (wp_position p + base)
                    else p) (td_placements db) in
    let folders := List.filter (fun f => negb (wf_folder_id f =s id)) folders in
    Ok (tt, add_audit (set_placements (set_folders db folders) (normalize placements))
              "tree.folder.delete" id)).

(** The scalar subquery on the App's name fails when two rows match. *)
Definition placement_name (db : TreeDb) (agent : string) : Result (option string) AuthFailure :=
  match agent_name db agent with
  | Some name => Ok (Some name)
  | None =>
      match List.filter (app_runs_as agent) (td_apps db) with
      | [] => Ok None
      | [a] => Ok (Some (an_name a))
      | _ => Err DatabaseFailure
      end
  end.

(** [set_workload_placement] *)
Definition set_workload_placement (db : TreeDb) (agent : string)
    (request : SetWorkloadPlacementRequest) : Result WorkloadPlacement AuthFailure * TreeDb :=
  transaction db (
    (if sp_position request <? 0 then Err (invalid "position must be nonnegative") else Ok tt) ;?
    lock_workload_tree db ;?
    (if active_credential db agent then Ok tt
     else Err (invalid "agent does not exist in this workspace")) ;?
    validate_parent db (sp_folder_id request) None ;?
    let? name := placement_name db agent in
    match name with
    | Some name => validate_workload_name db (sp_folder_id request) name (Some agent)
    | None => Ok tt
    end ;?
    let original := placement_of db agent in
    let rows := normalize (List.filter (fun p => negb (wp_agent_id p =s agent)) (td_placements db)) in
    let count := Z.of_nat (length (List.filter (in_folder (sp_folder_id request)) rows)) in
    let position := Z.min (sp_position request) count in
    let rows :=
      map (fun p => if in_folder (sp_folder_id request) p && (position <=? wp_position p)
                    then with_position p (wp_position p + 1) else p) rows in
    let placement := mkWorkloadPlacement agent (sp_folder_id request) position in
    let db' := set_placements db (rows ++ [placement]) in
    let unchanged :=
      is_some_and original (fun o => opt_str_eqb (wp_folder_id o) (sp_folder_id request)
                                     && (wp_position o =? position)) in
    Ok (placement, if unchanged then db' else add_audit db' "tree.placement.update" agent)).

(** [reserve_named_agent]; [credential] is the generated secret. *)
Definition reserve_named_agent (db : TreeDb) (credential agent name : string)
    (folder caller human_creator : option string) : Result string AuthFailure * TreeDb :=
  transaction db (
    map_err (fun e => BadRequest "invalid_agent_name" (pe_message e)) (validate_workload_label name) ;?
    lock_workload_tree db ;?
    let? destination := creation_folder db folder caller in
    validate_parent db destination None ;?
    validate_workload_name db destination name (Some agent) ;?
    (if existsb (fun c => cs_agent_id c =s agent) (td_credentials db)
        || existsb (fun n => n.1 =s agent) (td_names db)
        || existsb (fun p => wp_agent_id p =s agent) (td_placements db)
     then Err DatabaseFailure else Ok tt) ;?
    let placement :=
      mkWorkloadPlacement agent destination (next_position (td_placements db) destination) in
    let db' :=
      mkTreeDb (td_exists db) (td_folders db) (td_placements db ++ [placement])
        (td_credentials db ++ [mkCredentialState agent false]) (td_names db ++ [(agent, name)])
        (td_apps db) (td_deleted db)
        (match human_creator with
         | Some creator => td_reservations db ++ [(agent, creator)]
         | None => td_reservations db
         end) (td_audit db) in
    Ok (credential, add_audit db' "tree.placement.create" agent)).

(** ** Apps *)

(** [create_app_deployment_for_caller] (auth/apps.rs), as far as the tables of the Tree go;
    [fresh] and [service] are the generated IDs of the App and of its service, and [details] is the
    outcome of the checks of the launch fields and of the writes of the service and its host name. *)
Definition create_app_deployment (db : TreeDb) (fresh service name : string)
    (folder caller : option string) (details : Result unit AuthFailure)
    : Result string AuthFailure * TreeDb :=
  transaction db (
    let? name := validate_resource_name name "App" in
    map_err (fun e => BadRequest "invalid_agent_name" (pe_message e)) (validate_workload_label name) ;?
    lock_workload_tree db ;?
    let? destination := creation_folder db folder caller in
    validate_workload_name db destination name None ;?
    details ;?
    (if existsb (fun a => an_app_id a =s fresh) (td_apps db)
        || existsb (fun n => n.1 =s fresh) (td_names db)
        || existsb (fun c => cs_agent_id c =s fresh) (td_credentials db)
        || existsb (fun p => wp_agent_id p =s fresh) (td_placements db)
     then Err DatabaseFailure else Ok tt) ;?
    let placement :=
      mkWorkloadPlacement fresh destination (next_position (td_placements db) destination) in
    let db' :=
      mkTreeDb (td_exists db) (td_folders db) (td_placements db ++ [placement])
        (td_credentials db ++ [mkCredentialState fresh false]) (td_names db ++ [(fresh, name)])
        (td_apps db ++ [mkAppNameRow fresh name (Some fresh)]) (td_deleted db)
        (td_reservations db) (td_audit db) in
    Ok (fresh, add_audit (add_audit (add_audit db' "service.create" service)
                 "virtual_host.create" service) "tree.placement.create" fresh)).

(** [resolve_app_deployment]: [ORDER BY (app_id=$2) DESC, (runtime_agent_id=$2) DESC, app_id]; a
    comparison with NULL is NULL, which a descending order puts first. *)
Definition app_matches (target : string) (a : AppNameRow) : bool :=
  (an_app_id a =s target) || is_some_and (an_runtime_agent_id a) (fun r => r =s target)
  || (an_name a =s target).
Definition app_key (target : string) (a : AppNameRow) : Z :=
  (if an_app_id a =s target then 0 else 3)
  + match an_runtime_agent_id a with None => 0 | Some r => if r =s target then 1 else 2 end.
Definition app_first (target : string) (a b : AppNameRow) : bool :=
  (app_key target a <? app_key target b)
  || ((app_key target a =? app_key target b) && String.ltb (an_app_id a) (an_app_id b)).
Definition resolve_app_deployment (db : TreeDb) (target : string) : Result AppNameRow AuthFailure :=
  let target := trim target in
  ok_or (foldr (fun a best => match best with
                              | Some b => if app_first target b a then Some b else Some a
                              | None => Some a
                              end) None (List.filter (app_matches target) (td_apps db)))
    (NotFound "app_not_found" "App does not exist").

Definition revoke_credential (agent : string) (c : CredentialState) : CredentialState :=
  if cs_agent_id c =s agent then mkCredentialState agent true else c.

(** [delete_app_deployment]; [service] is the ID of the App's service when its row was still there.
    It takes no lock on the workspace row and does not renumber the folder. *)
Definition delete_app_deployment (db : TreeDb) (target : string) (service : option string)
    : Result AppNameRow AuthFailure * TreeDb :=
  transaction db (
    let? app := resolve_app_deployment db target in
    let runtime := app_workload app in
    let placements := List.filter (fun p => negb (wp_agent_id p =s runtime)) (td_placements db) in
    let db' :=
      mkTreeDb (td_exists db) (td_folders db) placements
        (map (revoke_credential runtime) (td_credentials db)) (td_names db)
        (List.filter (fun a => negb (an_app_id a =s an_app_id app)) (td_apps db)) (td_deleted db)
        (td_reservations db) (td_audit db) in
    let db' := if existsb (fun p => wp_agent_id p =s runtime) (td_placements db)
               then add_audit db' "tree.placement.delete" runtime else db' in
    Ok (app, match service with Some id => add_audit db' "service.delete" id | None => db' end)).

(** ** Histories *)

(** [OtherTables]: what the rest of the program does in between (registering, renaming, revoking and
    deleting Agents, rebinding and renaming Apps), which writes neither folders nor placements. *)
Inductive TreeOp : Type :=
| CreateFolder (fresh : string) (request : CreateWorkloadFolderRequest)
| UpdateFolder (id : string) (request : UpdateWorkloadFolderRequest)
| RemoveFolder (id : string) (require_empty : bool)
| SetPlacement (agent : string) (request : SetWorkloadPlacementRequest)
| ReserveAgent (credential agent name : string) (folder caller human_creator : option string)
| CreateApp (fresh service name : string) (folder caller : option string) (details : Result unit AuthFailure)
| DeleteApp (target : string) (service : option string)
| OtherTables (credentials : list CredentialState) (names : list (string * string))
    (apps : list AppNameRow) (deleted : list string) (reservations audit : list (string * string)).

Definition tree_apply (db : TreeDb) (op : TreeOp) : TreeDb :=
  match op with
  | CreateFolder fresh request => (create_workload_folder db fresh request).2
  | UpdateFolder id request => (update_workload_folder db id request).2
  | RemoveFolder id require_empty => (remove_workload_folder db id require_empty).2
  | SetPlacement agent request => (set_workload_placement db agent request).2
  | ReserveAgent credential agent name folder caller creator =>
      (reserve_named_agent db credential agent name folder caller creator).2
  | CreateApp fresh service name folder caller details =>
      (create_app_deployment db fresh service name folder caller details).2
  | DeleteApp target service => (delete_app_deployment db target service).2
  | OtherTables credentials names apps deleted reservations audit =>
      mkTreeDb (td_exists db) (td_folders db) (td_placements db) credentials names apps deleted
        reservations audit
  end.

(** ** Invariants *)

Definition folder_exists (db : TreeDb) (id : string) : Prop :=
  exists f, f ∈ td_folders db /\ wf_folder_id f = id.

(** The folders form a forest of named folders and every placement is in one of them. *)
Record tree_ok (db : TreeDb) : Prop := {
  tok_ids : NoDup (wf_folder_id <$> td_folders db);
  tok_names : forall f, f ∈ td_folders db -> folder_name_ok (wf_name f) = true;
  tok_rooted : forall f, f ∈ td_folders db ->
    exists l, folder_chain (load_workload_tree db) (Some (wf_folder_id f)) l;
  tok_agents : NoDup (wp_agent_id <$> td_placements db);
  tok_placed : forall p id, p ∈ td_placements db -> wp_folder_id p = Some id -> folder_exists db id
}.

(** No two folders of one parent have the same name. *)
Definition siblings_unique (db : TreeDb) : Prop :=
  forall f g, f ∈ td_folders db -> g ∈ td_folders db ->
    wf_parent_id f = wf_parent_id g -> wf_name f = wf_name g -> wf_folder_id f = wf_folder_id g.

(** The positions in each folder are 0, 1, ..., n-1. *)
Definition positions_dense (rows : list WorkloadPlacement) : Prop :=
  forall folder, let l := List.filter (in_folder folder) rows in
    NoDup (wp_position <$> l) /\
    forall p, p ∈ l -> 0 <= wp_position p < Z.of_nat (length l).

(** In each folder the positions are nonnegative and all different. *)
Definition positions_distinct (rows : list WorkloadPlacement) : Prop :=
  forall folder, let l := List.filter (in_folder folder) rows in
    NoDup (wp_position <$> l) /\ forall p, p ∈ l -> 0 <= wp_position p.

(** The operation renumbers the folders: it commits and ends with [normalize]. *)
Definition renumbers (db : TreeDb) (op : TreeOp) : Prop :=
  match op with
  | RemoveFolder id require_empty => is_ok (remove_workload_folder db id require_empty).1 = true
  | SetPlacement agent request => is_ok (set_workload_placement db agent request).1 = true
  | _ => False
  end.
(** The one operation that takes a placement out without renumbering. *)
Definition deletes_app (op : TreeOp) : Prop :=
  match op with DeleteApp _ _ => True | _ => False end.

(** The Tree of the duplicate-name history: /a, /x and /a/x. *)
Definition empty_tree_db : TreeDb := mkTreeDb true [] [] [] [] [] [] [] [].
Definition sample_tree_ops : list TreeOp :=
  [CreateFolder "folder_1" (mkCreateFolder "a" None);
   CreateFolder "folder_2" (mkCreateFolder "x" None);
   CreateFolder "folder_3" (mkCreateFolder " x " (Some "folder_1"));
   ReserveAgent "wlc_1" "ag_1" "coder" (Some "folder_1") None None;
   ReserveAgent "wlc_2" "ag_2" "tester" None (Some "ag_1") (Some "usr");
   CreateApp "app_1" "svc_1" "board" (Some "folder_1") None (Ok tt);
   CreateApp "app_2" "svc_2" "files" (Some "folder_1") None (Ok tt)].
Definition sample_tree_db : TreeDb := foldl tree_apply empty_tree_db sample_tree_ops.

(** ** Lemmas: folders and walks *)

Lemma chain_same_folders t1 t2 o l :
  wt_folders t1 = wt_folders t2 -> folder_chain t1 o l -> folder_chain t2 o l.
Proof.
  intros He. induction 1 as [|id f l Hf _ IH]; [constructor|]. econstructor; [|exact IH].
  revert Hf. unfold find_folder. by rewrite He.
Qed.

Lemma chain_some t id l :
  folder_chain t (Some id) l -> exists f l', l = f :: l' /\ find_folder t id = Some f /\
    wf_folder_id f = id /\ folder_chain t (wf_parent_id f) l'.
Proof.
  inversion 1 as [|id' f l' Hf Hl]; subst. exists f, l'. split_and!; [done|done| |done].
  by apply find_folder_some in Hf as [_ ?].
Qed.

Lemma find_by_id folders f :
  NoDup (wf_folder_id <$> folders) -> f ∈ folders ->
  List.find (fun g => wf_folder_id g =s wf_folder_id f) folders = Some f.
Proof.
  intros Hnd Hf. destruct (List.find _ folders) as [g|] eqn:Hg.
  - apply find_elem in Hg as [Hg Heq]. apply String.eqb_eq in Heq.
    f_equal. by eapply NoDup_fmap_inj_elem.
  - rewrite find_none_iff, Forall_forall in Hg. specialize (Hg f Hf).
    by rewrite String.eqb_refl in Hg.
Qed.

(** The fuel of [validate_parent] is never used up: every turn meets a new folder. *)
Lemma validate_parent_loop_total fuel db moving seen next :
  NoDup seen -> (forall x, x ∈ seen -> x ∈ wf_folder_id <$> td_folders db) ->
  (length (td_folders db) < fuel + length seen)%nat ->
  validate_parent_loop fuel db moving seen next <> None.
Proof.
  revert seen next. induction fuel as [|fuel IH]; intros seen next Hnd Hsub Hlen;
    (destruct next as [id|]; simpl; [|done]).
  - pose proof (submseteq_length_ids (mkWorkloadTree (td_folders db) []) seen Hnd Hsub).
    simpl in *. lia.
  - case_match eqn:Hc; [done|]. apply orb_false_elim in Hc as [_ Hin%bool_decide_eq_false].
    destruct (load_folder db id) as [f|e] eqn:Hf; [|done].
    apply IH; [by constructor| |simpl; lia].
    intros x [->|Hx]%elem_of_cons; [|auto]. unfold load_folder, ok_or in Hf.
    case_match eqn:Hfind; simplify_eq. apply find_elem in Hfind as [Hfind <-%str_eqb_eq].
    by apply list_elem_of_fmap_2.
Qed.

(** What a successful [validate_parent] establishes. *)
Lemma validate_parent_loop_ok fuel db moving seen next :
  validate_parent_loop fuel db moving seen next = Some (Ok tt) ->
  exists l, folder_chain (load_workload_tree db) next l /\
    forall m, moving = Some m -> m ∉ (wf_folder_id <$> l).
Proof.
  revert seen next. induction fuel as [|fuel IH]; intros seen [id|]; simpl; try done;
    try (intros _; exists []; split; [constructor|set_solver]).
  case_match eqn:Hcond; [done|]. apply orb_false_elim in Hcond as [Hm _].
  unfold load_folder. destruct (find_folder _ id) as [f|] eqn:Hf; simpl; [|done].
  intros (l & Hl & Hmov)%IH. exists (f :: l). split; [by econstructor|].
  intros m ->. simpl in *. apply String.eqb_neq in Hm.
  apply find_folder_some in Hf as [_ Hid]. rewrite not_elem_of_cons. split; [congruence|by apply Hmov].
Qed.

Lemma validate_parent_ok db parent moving :
  validate_parent db parent moving = Ok tt ->
  exists l, folder_chain (load_workload_tree db) parent l /\
    forall m, moving = Some m -> m ∉ (wf_folder_id <$> l).
Proof.
  unfold validate_parent. destruct (validate_parent_loop _ _ _ _ _) as [r|] eqn:Hr; simpl; [|done].
  intros ->. by eapply validate_parent_loop_ok.
Qed.

Lemma validate_parent_exists db id moving :
  validate_parent db (Some id) moving = Ok tt -> folder_exists db id.
Proof.
  intros (l & Hl & _)%validate_parent_ok. apply chain_some in Hl as (f & l' & _ & Hf & Hid & _).
  apply find_folder_some in Hf as [Hf _]. by exists f.
Qed.

Lemma validate_folder_name_ok name name' :
  validate_folder_name name = Ok name' -> folder_name_ok name' = true.
Proof.
  unfold validate_folder_name, validate_resource_name, folder_name_ok.
  case_match eqn:H1; simpl; [done|]. case_match eqn:H2; [done|]. intros [= <-].
  bool_hyps. rewrite trim_idem, String.eqb_refl.
  by repeat match goal with H : _ = false |- _ => rewrite H end.
Qed.

(** ** Lemmas: a forest stays a forest *)

Section forests.
Context (F : list WorkloadFolder).
Definition tree_of (F : list WorkloadFolder) : WorkloadTree := mkWorkloadTree F [].

Definition rooted (F : list WorkloadFolder) : Prop :=
  forall f, f ∈ F -> exists l, folder_chain (tree_of F) (Some (wf_folder_id f)) l.

Lemma rooted_some id f :
  rooted F -> NoDup (wf_folder_id <$> F) -> find_folder (tree_of F) id = Some f ->
  exists l, folder_chain (tree_of F) (wf_parent_id f) l /\ id ∉ (wf_folder_id <$> l).
Proof.
  intros Hr Hnd Hf. pose proof Hf as [Hin Hid]%find_folder_some.
  destruct (Hr f Hin) as [l Hl]. pose proof (folder_chain_NoDup _ _ _ Hl) as Hl1.
  apply chain_some in Hl as (f' & l' & -> & Hf' & _ & Hl').
  rewrite Hid in Hf'. simplify_eq. exists l'. split; [done|].
  apply NoDup_cons in Hl1 as [Hnin _]. done.
Qed.

(** Appending a folder under an existing parent. *)
Lemma rooted_snoc r l :
  rooted F -> wf_folder_id r ∉ (wf_folder_id <$> F) ->
  folder_chain (tree_of F) (wf_parent_id r) l -> rooted (F ++ [r]).
Proof.
  intros Hr Hnew Hl.
  assert (forall o l, folder_chain (tree_of F) o l -> folder_chain (tree_of (F ++ [r])) o l) as Hmono.
  { induction 1 as [|id f l' Hf _ IH]; [constructor|]. econstructor; [|exact IH].
    revert Hf. unfold find_folder; simpl. rewrite find_app. by intros ->. }
  intros f [Hf| ->%list_elem_of_singleton]%elem_of_app.
  - destruct (Hr f Hf) as [l' Hl']. eauto.
  - exists (r :: l). econstructor; [|by apply Hmono].
    unfold find_folder; simpl. rewrite find_app.
    assert (List.find (fun f => wf_folder_id f =s wf_folder_id r) F = None) as ->.
    { apply find_none_iff, Forall_forall. intros g Hg. apply String.eqb_neq. intros He.
      apply Hnew. rewrite <- He. by apply list_elem_of_fmap_2. }
    simpl. by rewrite String.eqb_refl.
Qed.

Lemma find_replaced r x :
  wf_folder_id r <> x ->
  find_folder (tree_of (replace_folder r F)) x = find_folder (tree_of F) x.
Proof.
  intros Hne. unfold find_folder, replace_folder; simpl. rewrite find_map.
  rewrite (find_ext _ (fun f => wf_folder_id f =s x)).
  - destruct (List.find _ F) as [f|] eqn:Hf; simpl; [|done].
    apply find_elem in Hf as [_ Hf]. apply String.eqb_eq in Hf.
    case_match eqn:Hc; [|done]. apply String.eqb_eq in Hc. congruence.
  - intros f. case_match eqn:Hc; [|done]. apply String.eqb_eq in Hc. by rewrite Hc.
Qed.

(** Moving a folder under a parent whose walk avoids it. *)
Lemma rooted_replace r l :
  rooted F -> NoDup (wf_folder_id <$> F) -> wf_folder_id r ∈ (wf_folder_id <$> F) ->
  folder_chain (tree_of F) (wf_parent_id r) l -> wf_folder_id r ∉ (wf_folder_id <$> l) ->
  rooted (replace_folder r F).
Proof.
  intros Hr Hnd Hin Hl Hav.
  assert (forall o l, folder_chain (tree_of F) o l -> wf_folder_id r ∉ (wf_folder_id <$> l) ->
    folder_chain (tree_of (replace_folder r F)) o l) as Hsame.
  { induction 1 as [|id f l' Hf _ IH]; [constructor|]. simpl.
    intros [Hne Hl']%not_elem_of_cons. pose proof Hf as [_ Hid]%find_folder_some.
    econstructor; [|by apply IH]. rewrite find_replaced; [done|congruence]. }
  assert (find_folder (tree_of (replace_folder r F)) (wf_folder_id r) = Some r) as Hfr.
  { unfold find_folder, replace_folder; simpl. rewrite find_map.
    apply list_elem_of_fmap in Hin as (f & Hid & Hf).
    rewrite (find_ext _ (fun g => wf_folder_id g =s wf_folder_id f)).
    - rewrite (find_by_id F f Hnd Hf). simpl. by rewrite Hid, String.eqb_refl.
    - intros g. rewrite <- Hid. case_match eqn:Hc; [by rewrite String.eqb_refl|done]. }
  assert (forall o l, folder_chain (tree_of F) o l ->
    exists l', folder_chain (tree_of (replace_folder r F)) o l') as Hmove.
  { induction 1 as [|id f l' Hf _ [l1 IH]]; [exists []; constructor|].
    destruct (decide (wf_folder_id r = id)) as [<-|Hne].
    - exists (r :: l). econstructor; [done|by apply Hsame].
    - exists (f :: l1). econstructor; [by rewrite find_replaced|done]. }
  intros f Hf. unfold replace_folder in Hf. apply list_elem_of_fmap in Hf as (g & -> & Hg).
  destruct (Hr g Hg) as [l' Hl']. apply Hmove in Hl'.
  case_match eqn:Hc; [|done]. apply String.eqb_eq in Hc. by rewrite <- Hc.
Qed.

(** Removing a folder and moving its children to its parent. *)
Definition remove_folder (id : string) (parent : option string) : list WorkloadFolder :=
  List.filter (fun f => negb (wf_folder_id f =s id)) (map (reparent id parent) F).

Lemma reparent_id id parent f : wf_folder_id (reparent id parent f) = wf_folder_id f.
Proof. unfold reparent. by case_match. Qed.

Lemma find_removed id parent x :
  x <> id ->
  find_folder (tree_of (remove_folder id parent)) x
  = reparent id parent <$> find_folder (tree_of F) x.
Proof.
  intros Hne. unfold find_folder, remove_folder; simpl. rewrite find_filter, find_map.
  - f_equal. apply find_ext. intros f. by rewrite reparent_id.
  - intros f ->%String.eqb_eq. by apply negb_true_iff, String.eqb_neq.
Qed.

Lemma rooted_remove r :
  rooted F -> NoDup (wf_folder_id <$> F) -> find_folder (tree_of F) (wf_folder_id r) = Some r ->
  rooted (remove_folder (wf_folder_id r) (wf_parent_id r)).
Proof.
  intros Hr Hnd Hfr. set (id := wf_folder_id r) in *. set (parent := wf_parent_id r) in *.
  assert (forall o l, folder_chain (tree_of F) o l -> id ∉ (wf_folder_id <$> l) ->
    folder_chain (tree_of (remove_folder id parent)) o l) as Hsame.
  { induction 1 as [|x f l' Hf Hl' IH]; [constructor|]. simpl.
    intros [Hne Hni]%not_elem_of_cons. pose proof Hf as [_ Hid]%find_folder_some.
    econstructor; [|by apply IH]. rewrite find_removed, Hf by congruence. simpl. f_equal.
    unfold reparent. case_match eqn:Hp; [|done]. apply bool_decide_eq_true in Hp.
    rewrite Hp in Hl'. apply chain_some in Hl' as (g & l1 & -> & _ & Hg & _).
    rewrite fmap_cons, not_elem_of_cons in Hni. by destruct Hni. }
  assert (forall o l, folder_chain (tree_of F) o l -> o <> Some id ->
    exists l', folder_chain (tree_of (remove_folder id parent)) o l') as Hmove.
  { induction 1 as [|x f l' Hf Hl' IH]; [intros _; exists []; constructor|]. intros Hne.
    destruct (decide (wf_parent_id f = Some id)) as [Hp|Hp].
    - destruct (rooted_some id r Hr Hnd Hfr) as (l1 & Hl1 & Hni).
      exists (reparent id parent f :: l1). econstructor.
      + rewrite find_removed, Hf by congruence. done.
      + unfold reparent, opt_str_eqb. rewrite bool_decide_true by done. simpl. by apply Hsame.
    - destruct (IH Hp) as [l1 Hl1]. exists (reparent id parent f :: l1). econstructor.
      + rewrite find_removed, Hf by congruence. done.
      + unfold reparent, opt_str_eqb. by rewrite bool_decide_false by done. }
  intros f [Hf Hne]%filter_elem. apply list_elem_of_fmap in Hf as (g & -> & Hg).
  rewrite reparent_id in *. destruct (Hr g Hg) as [l Hl]. apply (Hmove _ _ Hl).
  apply negb_true_iff, String.eqb_neq in Hne. congruence.
Qed.
End forests.

Lemma replace_ids r F : wf_folder_id <$> replace_folder r F = wf_folder_id <$> F.
Proof.
  unfold replace_folder. induction F as [|f F IH]; simpl; [done|]. f_equal; [|done].
  case_match eqn:Hc; [|done]. by apply String.eqb_eq in Hc.
Qed.

Lemma tok_rooted_iff db :
  (forall f, f ∈ td_folders db ->
     exists l, folder_chain (load_workload_tree db) (Some (wf_folder_id f)) l)
  <-> rooted (td_folders db).
Proof.
  split; intros H f Hf; destruct (H f Hf) as [l Hl]; exists l; (eapply chain_same_folders; [|exact Hl]; done).
Qed.

(** ** Lemmas: placements *)

Lemma normalize_agents rows : wp_agent_id <$> normalize rows = wp_agent_id <$> rows.
Proof.
  unfold normalize. generalize (rank_in rows). intros rank.
  induction rows as [|p rows IH]; simpl; [done|by f_equal].
Qed.

Lemma normalize_elem rows p :
  p ∈ normalize rows -> exists q, q ∈ rows /\ p = with_position q (rank_in rows q).
Proof. intros (q & -> & Hq)%list_elem_of_fmap. eauto. Qed.

Lemma moved_agents (q : WorkloadPlacement -> bool) folder base rows :
  wp_agent_id <$> map (fun p => if q p then mkWorkloadPlacement (wp_agent_id p) folder (wp_position p + base)
                                else p) rows = wp_agent_id <$> rows.
Proof. induction rows as [|p rows IH]; simpl; [done|]. f_equal; [by case_match|done]. Qed.

(** ** Every mutation keeps the Tree a forest with placed workloads *)

(** A transaction keeps what its committed body establishes. *)
Lemma transaction_keeps {A} (P : TreeDb -> Prop) db (body : Result (A * TreeDb) AuthFailure) :
  P db -> (forall a db', body = Ok (a, db') -> P db') -> P (transaction db body).2.
Proof. intros Hdb Hbody. destruct body as [[a db']|e] eqn:Hb; simpl; [by eapply Hbody|done]. Qed.

(** [tree_ok] does not depend on the audit, the names and the credentials. *)
Lemma tree_ok_tables db db' :
  td_folders db = td_folders db' -> td_placements db = td_placements db' -> tree_ok db -> tree_ok db'.
Proof.
  intros Hf Hp [H1 H2 H3 H4 H5]. apply tok_rooted_iff in H3. rewrite Hf, Hp in *.
  split; [done|done|by apply tok_rooted_iff|done|].
  intros p id Hpi Hid. destruct (H5 p id Hpi Hid) as (f & Hff & ?). exists f. by rewrite <- Hf.
Qed.

Lemma tree_ok_new_placements db rows :
  tree_ok db -> NoDup (wp_agent_id <$> rows) ->
  (forall p id, p ∈ rows -> wp_folder_id p = Some id -> folder_exists db id) ->
  tree_ok (set_placements db rows).
Proof.
  intros [H1 H2 H3 H4 H5] Hnd Hp. split; [done|done| |done|done].
  apply tok_rooted_iff. by apply tok_rooted_iff in H3.
Qed.

Lemma create_keeps db fresh request :
  tree_ok db -> tree_ok (create_workload_folder db fresh request).2.
Proof.
  intros Hok. unfold create_workload_folder. apply (transaction_keeps tree_ok); [done|]. intros a db' H.
  destruct (validate_folder_name (cf_name request)) as [name|] eqn:Hname; simpl in H; [|done].
  destruct (lock_workload_tree db); simpl in H; [|done].
  destruct (validate_parent db (cf_parent_id request) None) as [[]|] eqn:Hpar; simpl in H; [|done].
  destruct (validate_sibling_name _ _ _ _); simpl in H; [|done].
  destruct (existsb _ _) eqn:Hfresh; simpl in H; [done|]. injection H as <- <-.
  apply validate_parent_ok in Hpar as (l & Hl & _).
  assert (fresh ∉ (wf_folder_id <$> td_folders db)) as Hnew.
  { intros (f & -> & Hf)%list_elem_of_fmap. assert (existsb (fun g => wf_folder_id g =s wf_folder_id f)
      (td_folders db) = true); [|congruence]. apply existsb_elem. exists f. by rewrite String.eqb_refl. }
  destruct Hok as [H1 H2 H3 H4 H5]. apply tok_rooted_iff in H3.
  split; [simpl|simpl|apply tok_rooted_iff; simpl|simpl|simpl].
  - rewrite fmap_app. apply NoDup_app. split_and!; [done| |apply NoDup_singleton].
    intros x Hx Hx'. apply list_elem_of_singleton in Hx' as ->. done.
  - intros f [Hf| ->%list_elem_of_singleton]%elem_of_app; [auto|]. simpl.
    by eapply validate_folder_name_ok.
  - eapply rooted_snoc; [done|done|].
    eapply chain_same_folders; [|exact Hl]. done.
  - done.
  - intros p id Hp Hid. destruct (H5 p id Hp Hid) as (f & Hf & ?). exists f. simpl. set_solver.
Qed.

Lemma update_keeps db id request :
  tree_ok db -> tree_ok (update_workload_folder db id request).2.
Proof.
  intros Hok. unfold update_workload_folder. apply (transaction_keeps tree_ok); [done|]. intros a db' H.
  destruct (lock_workload_tree db); simpl in H; [|done].
  unfold load_folder in H. destruct (find_folder _ id) as [original|] eqn:Hf; simpl in H; [|done].
  apply bind_ok_iff in H as (name & Hname & H). apply bind_ok_iff in H as (parent & Hpar & H).
  apply bind_ok_iff in H as ([] & _ & H). pose proof Hf as [Hin Hid]%find_folder_some. simpl in Hin.
  case_match; simplify_eq; [done|].
  destruct Hok as [H1 H2 H3 H4 H5]. apply tok_rooted_iff in H3.
  set (r := mkWorkloadFolder (wf_folder_id original) name parent).
  assert (exists l, folder_chain (tree_of (td_folders db)) parent l /\
    wf_folder_id original ∉ (wf_folder_id <$> l)) as (l & Hl & Hav).
  { destruct (uf_parent_id request) as [p|].
    - destruct (validate_parent _ _ _) as [[]|] eqn:Hv; simpl in Hpar; simplify_eq.
      apply validate_parent_ok in Hv as (l & Hl & Hm). exists l. split; [|by apply Hm].
      eapply chain_same_folders; [|exact Hl]. done.
    - simplify_eq. by apply rooted_some. }
  assert (folder_name_ok name = true) as Hok.
  { destruct (uf_name request); [by eapply validate_folder_name_ok|simplify_eq; by apply H2]. }
  split; [simpl|simpl|apply tok_rooted_iff; simpl|simpl|simpl].
  - by rewrite replace_ids.
  - unfold replace_folder. intros f (g & -> & Hg)%list_elem_of_fmap. destruct (wf_folder_id g =s wf_folder_id r); [done|by apply H2].
  - apply (rooted_replace _ r l); [done|done| |done|done].
    change (wf_folder_id r) with (wf_folder_id original). by apply list_elem_of_fmap_2.
  - done.
  - intros p x Hp Hx. destruct (H5 p x Hp Hx) as (f & Hff & <-).
    assert (wf_folder_id f ∈ wf_folder_id <$> replace_folder r (td_folders db)) as Hmem.
    { rewrite replace_ids. by apply list_elem_of_fmap_2. }
    apply list_elem_of_fmap in Hmem as (g & He & Hg). exists g. done.
Qed.

Lemma remove_keeps db id require_empty :
  tree_ok db -> tree_ok (remove_workload_folder db id require_empty).2.
Proof.
  intros Hok. unfold remove_workload_folder. apply (transaction_keeps tree_ok); [done|]. intros a db' H.
  destruct (lock_workload_tree db); simpl in H; [|done].
  unfold load_folder in H. destruct (find_folder _ id) as [r|] eqn:Hf; simpl in H; [|done].
  apply bind_ok_iff in H as ([] & _ & H). apply bind_ok_iff in H as ([] & _ & [= <- <-]).
  pose proof Hf as [Hin <-]%find_folder_some. simpl in Hin.
  destruct Hok as [H1 H2 H3 H4 H5]. apply tok_rooted_iff in H3.
  assert (forall x, folder_exists db x -> x <> wf_folder_id r -> exists g,
    g ∈ remove_folder (td_folders db) (wf_folder_id r) (wf_parent_id r) /\ wf_folder_id g = x) as Hleft.
  { intros x (f & Hff & <-) Hne. exists (reparent (wf_folder_id r) (wf_parent_id r) f).
    rewrite reparent_id. split; [|done]. apply filter_elem. split; [by apply list_elem_of_fmap_2|].
    rewrite reparent_id. by apply negb_true_iff, String.eqb_neq. }
  assert (wf_folder_id <$> map (reparent (wf_folder_id r) (wf_parent_id r)) (td_folders db)
          = wf_folder_id <$> td_folders db) as Hids.
  { generalize (td_folders db). intros F. induction F as [|f F IH]; simpl; [done|].
    rewrite reparent_id. by f_equal. }
  split; [simpl|simpl|apply tok_rooted_iff; simpl|simpl|simpl].
  - apply NoDup_fmap_filter. by rewrite Hids.
  - intros f [(g & -> & Hg)%list_elem_of_fmap _]%filter_elem.
    unfold reparent. case_match; simpl; by apply H2.
  - by apply rooted_remove.
  - rewrite normalize_agents.
    by rewrite moved_agents.
  - intros p x Hp Hx. apply normalize_elem in Hp as (q & (q0 & -> & Hq0)%list_elem_of_fmap & ->).
    simpl in Hx. apply Hleft; case_match eqn:Hif; simpl in Hx.
    + destruct (rooted_some _ _ r H3 H1 Hf) as (l & Hl & Hni). rewrite Hx in Hl.
      apply chain_some in Hl as (f & l' & _ & Hff & <- & _). apply find_folder_some in Hff as [Hff _].
      by exists f.
    + by eapply H5.
    + destruct (rooted_some _ _ r H3 H1 Hf) as (l & Hl & Hni). rewrite Hx in Hl.
      apply chain_some in Hl as (f & l' & -> & Hff & <- & _). intros He. apply Hni.
      rewrite <- He. left.
    + intros ->. unfold in_folder, opt_str_eqb in Hif. apply bool_decide_eq_false in Hif. done.
Qed.

Lemma shift_agents folder position rows :
  wp_agent_id <$> map (fun p => if in_folder folder p && (position <=? wp_position p)
                                then with_position p (wp_position p + 1) else p) rows
  = wp_agent_id <$> rows.
Proof. induction rows as [|p rows IH]; simpl; [done|]. f_equal; [|done]. by case_match. Qed.

(** The committed writes of [set_workload_placement]. *)
Lemma set_placement_committed db agent request a db' :
  set_workload_placement db agent request = (Ok a, db') ->
  let rows := normalize (List.filter (fun p => negb (wp_agent_id p =s agent)) (td_placements db)) in
  let count := Z.of_nat (length (List.filter (in_folder (sp_folder_id request)) rows)) in
  0 <= sp_position request /\
  validate_parent db (sp_folder_id request) None = Ok tt /\
  a = mkWorkloadPlacement agent (sp_folder_id request) (Z.min (sp_position request) count) /\
  td_folders db' = td_folders db /\
  td_placements db' =
    map (fun p => if in_folder (sp_folder_id request) p && (wp_position a <=? wp_position p)
                  then with_position p (wp_position p + 1) else p) rows ++ [a].
Proof.
  intros H rows count. unfold set_workload_placement, transaction in H.
  destruct (result_bind _ _) as [[a' db'']|] eqn:Hb; simplify_eq.
  apply bind_ok_iff in Hb as ([] & Hpos & Hb). apply bind_ok_iff in Hb as ([] & _ & Hb).
  apply bind_ok_iff in Hb as ([] & _ & Hb). apply bind_ok_iff in Hb as ([] & Hpar & Hb).
  apply bind_ok_iff in Hb as (name & _ & Hb). apply bind_ok_iff in Hb as ([] & _ & Hb).
  destruct (Z.ltb_spec (sp_position request) 0); [done|].
  injection Hb as <- <-. split_and!; [done|done|done|by case_match|by case_match].
Qed.

Lemma set_placement_keeps db agent request :
  tree_ok db -> tree_ok (set_workload_placement db agent request).2.
Proof.
  intros Hok. destruct (set_workload_placement db agent request) as [r db'] eqn:He.
  destruct r as [a|e]; simpl.
  - apply set_placement_committed in He as (_ & Hpar & Ha & Hf & Hp).
    apply (tree_ok_tables (set_placements db (td_placements db'))); [done|done|].
    rewrite Hp. apply tree_ok_new_placements; [done| |].
    + rewrite fmap_app, shift_agents, normalize_agents. apply NoDup_app. split_and!.
      * apply NoDup_fmap_filter, Hok.
      * intros x (p & -> & [_ Hne]%filter_elem)%list_elem_of_fmap Hx.
        rewrite Ha in Hx. apply list_elem_of_singleton in Hx. simpl in Hx.
        apply negb_true_iff, String.eqb_neq in Hne. congruence.
      * apply NoDup_singleton.
    + intros p id [Hpin|Hpin]%elem_of_app Hid.
      * apply list_elem_of_fmap in Hpin as (q & -> & (q0 & [Hq0 _]%filter_elem & ->)%normalize_elem).
        eapply (tok_placed db Hok q0); [done|]. by case_match.
      * apply list_elem_of_singleton in Hpin as ->. subst a. simpl in Hid. rewrite Hid in Hpar.
        by eapply validate_parent_exists.
  - unfold set_workload_placement, transaction in He. by repeat case_match; simplify_eq.
Qed.

Lemma creation_folder_ok db requested caller destination :
  creation_folder db requested caller = Ok destination -> validate_parent db destination None = Ok tt.
Proof.
  unfold creation_folder. intros H. apply bind_ok_iff in H as (d & _ & H).
  apply bind_ok_iff in H as ([] & Hp & [= <-]). done.
Qed.

(** A workload of a new ID goes to the end of an existing folder. *)
Definition appends (db db' : TreeDb) (agent : string) : Prop :=
  exists destination, validate_parent db destination None = Ok tt /\
    agent ∉ (wp_agent_id <$> td_placements db) /\ td_folders db' = td_folders db /\
    td_placements db' = td_placements db ++
      [mkWorkloadPlacement agent destination (next_position (td_placements db) destination)].

Lemma fresh_placement db agent :
  existsb (fun p => wp_agent_id p =s agent) (td_placements db) = false ->
  agent ∉ (wp_agent_id <$> td_placements db).
Proof.
  intros Hno (p & -> & Hp)%list_elem_of_fmap.
  assert (existsb (fun q => wp_agent_id q =s wp_agent_id p) (td_placements db) = true); [|congruence].
  apply existsb_elem. exists p. by rewrite String.eqb_refl.
Qed.

(** The committed writes of [reserve_named_agent]. *)
Lemma reserve_rows db credential agent name folder caller creator :
  let r := reserve_named_agent db credential agent name folder caller creator in
  r.2 = db \/ appends db r.2 agent.
Proof.
  intros r. subst r. unfold reserve_named_agent, transaction.
  destruct (result_bind _ _) as [[a' db'']|] eqn:Hb; [right|by left]. simpl.
  split_check Hb; destruct_units. injection Hb as <- <-.
  match goal with H : creation_folder _ _ _ = Ok ?d |- _ => exists d end.
  split_and!; [done| |done|done]. apply fresh_placement.
  match goal with H : (if ?c then _ else _) = Ok tt |- _ => destruct c eqn:Hx; [done|] end. by bool_hyps.
Qed.

(** The committed writes of [create_app_deployment]. *)
Lemma create_app_rows db fresh service name folder caller details :
  let r := create_app_deployment db fresh service name folder caller details in
  r.2 = db \/ appends db r.2 fresh.
Proof.
  intros r. subst r. unfold create_app_deployment, transaction.
  destruct (result_bind _ _) as [[a' db'']|] eqn:Hb; [right|by left]. simpl.
  split_check Hb; destruct_units. injection Hb as <- <-.
  match goal with H : creation_folder _ _ _ = Ok ?d |- _ => exists d; apply creation_folder_ok in H end.
  split_and!; [done| |done|done]. apply fresh_placement.
  match goal with H : (if ?c then _ else _) = Ok tt |- _ => destruct c eqn:Hx; [done|] end. by bool_hyps.
Qed.

(** The writes of [delete_app_deployment]: at most one placement goes. *)
Lemma delete_app_rows db target service :
  let db' := (delete_app_deployment db target service).2 in
  td_folders db' = td_folders db /\
  exists keep : string -> bool,
    td_placements db' = List.filter (fun p => keep (wp_agent_id p)) (td_placements db).
Proof.
  intros db'. subst db'. unfold delete_app_deployment, transaction.
  destruct (resolve_app_deployment db target) as [app|e]; simpl.
  - split; [by repeat case_match|]. exists (fun x => negb (x =s app_workload app)). by repeat case_match.
  - split; [done|]. exists (fun _ => true). by induction (td_placements db) as [|p l IH]; simpl; [|rewrite <- IH].
Qed.

Lemma appends_keeps db db' agent : appends db db' agent -> tree_ok db -> tree_ok db'.
Proof.
  intros (destination & Hpar & Hnew & Hf & Hp) Hok.
  apply (tree_ok_tables (set_placements db (td_placements db'))); [done|done|].
  rewrite Hp. apply tree_ok_new_placements; [done| |].
  - rewrite fmap_app. apply NoDup_app. split_and!; [apply Hok| |apply NoDup_singleton].
    intros x Hx ->%list_elem_of_singleton. done.
  - intros p id [Hpin| ->%list_elem_of_singleton]%elem_of_app Hid; [by eapply Hok|].
    simpl in Hid. subst destination. by eapply validate_parent_exists.
Qed.

Lemma reserve_keeps db credential agent name folder caller creator :
  tree_ok db -> tree_ok (reserve_named_agent db credential agent name folder caller creator).2.
Proof.
  intros Hok. destruct (reserve_rows db credential agent name folder caller creator) as [-> |Ha]; [done|].
  by eapply appends_keeps.
Qed.

Lemma create_app_keeps db fresh service name folder caller details :
  tree_ok db -> tree_ok (create_app_deployment db fresh service name folder caller details).2.
Proof.
  intros Hok. destruct (create_app_rows db fresh service name folder caller details) as [-> |Ha]; [done|].
  by eapply appends_keeps.
Qed.

Lemma delete_app_keeps db target service :
  tree_ok db -> tree_ok (delete_app_deployment db target service).2.
Proof.
  intros Hok. destruct (delete_app_rows db target service) as (Hf & keep & Hp).
  apply (tree_ok_tables (set_placements db (td_placements (delete_app_deployment db target service).2))); [done|done|].
  rewrite Hp. apply tree_ok_new_placements; [done|apply NoDup_fmap_filter, Hok|].
  intros p id [Hpin _]%filter_elem. by apply Hok.
Qed.

Lemma tree_apply_keeps db op : tree_ok db -> tree_ok (tree_apply db op).
Proof.
  destruct op; simpl;
    [apply create_keeps|apply update_keeps|apply remove_keeps|apply set_placement_keeps|apply reserve_keeps
    |apply create_app_keeps|apply delete_app_keeps|by apply tree_ok_tables].
Qed.

(** ** Positions *)

Lemma filter_length_le {A} (p q : A -> bool) l :
  (forall y, p y = true -> q y = true) -> (length (List.filter p l) <= length (List.filter q l))%nat.
Proof.
  intros Hpq. induction l as [|y l IH]; simpl; [done|].
  destruct (p y) eqn:Hp; [rewrite (Hpq y Hp); simpl; lia|]. destruct (q y); simpl; lia.
Qed.

Lemma filter_length_lt {A} (p q : A -> bool) l x :
  (forall y, p y = true -> q y = true) -> x ∈ l -> q x = true -> p x = false ->
  (length (List.filter p l) < length (List.filter q l))%nat.
Proof.
  intros Hpq Hx Hq Hp. induction l as [|y l IH]; [set_solver|]. simpl.
  apply elem_of_cons in Hx as [-> |Hx].
  - rewrite Hq, Hp. simpl. pose proof (filter_length_le p q l Hpq). lia.
  - specialize (IH Hx). destruct (p y) eqn:Hpy; [rewrite (Hpq y Hpy); simpl; lia|].
    destruct (q y); simpl; lia.
Qed.

Lemma ltb_iff a b : String.ltb a b = true <-> String.le a b /\ a <> b.
Proof.
  unfold String.ltb, String.le, String.leb. destruct (String.compare a b) eqn:Hc; simpl.
  - apply String.compare_eq_iff in Hc. naive_solver.
  - split; [|done]. intros _. split; [done|]. intros ->.
    pose proof (String.compare_antisym b b) as H. rewrite Hc in H. done.
  - naive_solver.
Qed.

(** The window order is a strict total order on rows of different Agents. *)
Lemma placed_before_iff q p :
  placed_before q p = true <->
  wp_position q < wp_position p \/
  (wp_position q = wp_position p /\ String.le (wp_agent_id q) (wp_agent_id p)
   /\ wp_agent_id q <> wp_agent_id p).
Proof. unfold placed_before. rewrite orb_true_iff, andb_true_iff, ltb_iff, Z.ltb_lt, Z.eqb_eq. done. Qed.

Lemma placed_before_irrefl p : placed_before p p = false.
Proof. apply not_true_is_false. rewrite placed_before_iff. naive_solver lia. Qed.

Lemma placed_before_trans a b c :
  placed_before a b = true -> placed_before b c = true -> placed_before a c = true.
Proof.
  rewrite !placed_before_iff. intros [?|(Hp & Hle & Hne)] [?|(Hp' & Hle' & Hne')]; [left; lia..|].
  right. split_and!; [lia|by etrans|]. intros He. apply Hne.
  apply (anti_symm String.le); [done|]. by rewrite He.
Qed.

Lemma placed_before_total a b :
  wp_agent_id a <> wp_agent_id b -> placed_before a b = true \/ placed_before b a = true.
Proof.
  intros Hne. rewrite !placed_before_iff.
  destruct (Z.lt_trichotomy (wp_position a) (wp_position b)) as [?|[?|?]]; [by auto| |by auto].
  destruct (total String.le (wp_agent_id a) (wp_agent_id b)); [left|right]; right; split_and!; auto.
Qed.

Lemma rank_lt rows a b :
  a ∈ rows -> wp_folder_id a = wp_folder_id b -> placed_before a b = true ->
  rank_in rows a < rank_in rows b.
Proof.
  intros Ha Hf Hb. unfold rank_in. rewrite Hf. apply Nat2Z.inj_lt.
  apply (filter_length_lt _ _ _ a); [|done| |].
  - intros q. rewrite !andb_true_iff. intros [? ?]. split; [done|by eapply placed_before_trans].
  - unfold in_folder, opt_str_eqb. rewrite bool_decide_true by done. done.
  - by rewrite placed_before_irrefl, andb_false_r.
Qed.

Lemma in_folder_iff folder p : in_folder folder p = true <-> wp_folder_id p = folder.
Proof. unfold in_folder, opt_str_eqb. apply bool_decide_eq_true. Qed.

Lemma normalize_filter folder rows :
  List.filter (in_folder folder) (normalize rows)
  = map (fun p => with_position p (rank_in rows p)) (List.filter (in_folder folder) rows).
Proof.
  unfold normalize. generalize (rank_in rows). intros rank.
  induction rows as [|p rows IH]; simpl; [done|]. change (in_folder folder (with_position p (rank p)))
    with (in_folder folder p). case_match; simpl; by rewrite IH.
Qed.

Lemma normalize_dense rows : NoDup (wp_agent_id <$> rows) -> positions_dense (normalize rows).
Proof.
  intros Hnd folder. simpl. rewrite normalize_filter, length_map. split.
  - change (map ?f ?l) with (f <$> l). rewrite <- list_fmap_compose. apply NoDup_fmap_2_strong.
    + intros a b [Ha Hfa]%filter_elem [Hb Hfb]%filter_elem Heq. simpl in Heq.
      apply in_folder_iff in Hfa, Hfb.
      destruct (decide (wp_agent_id a = wp_agent_id b)) as [He|Hne]; [by eapply NoDup_fmap_inj_elem|].
      destruct (placed_before_total a b Hne) as [Hp|Hp].
      * pose proof (rank_lt rows a b Ha ltac:(congruence) Hp). simpl in *. lia.
      * pose proof (rank_lt rows b a Hb ltac:(congruence) Hp). simpl in *. lia.
    + eapply NoDup_fmap_1, NoDup_fmap_filter, Hnd.
  - intros p (q & -> & [Hq Hf]%filter_elem)%list_elem_of_fmap. simpl. unfold rank_in. split; [lia|].
    apply Nat2Z.inj_lt. apply in_folder_iff in Hf as <-.
    apply (filter_length_lt _ _ _ q); [|done| |].
    + intros r. by intros [? _]%andb_prop.
    + by apply in_folder_iff.
    + by rewrite placed_before_irrefl, andb_false_r.
Qed.

(** Making room at [position] and inserting there keeps the positions dense. *)
Lemma insert_dense rows agent folder position :
  positions_dense rows ->
  0 <= position <= Z.of_nat (length (List.filter (in_folder folder) rows)) ->
  positions_dense
    (map (fun p => if in_folder folder p && (position <=? wp_position p)
                   then with_position p (wp_position p + 1) else p) rows
     ++ [mkWorkloadPlacement agent folder position]).
Proof.
  intros Hd Hpos g. cbv zeta. set (shift := fun p => if in_folder folder p && (position <=? wp_position p)
    then with_position p (wp_position p + 1) else p).
  assert (List.filter (in_folder g) (map shift rows) = map shift (List.filter (in_folder g) rows)) as Hfs.
  { clear. assert (forall p, in_folder g (shift p) = in_folder g p) as Hs by (intros p; subst shift; simpl; by case_match).
    induction rows as [|p rows IH]; simpl; [done|]. rewrite Hs. case_match; simpl; by rewrite IH. }
  rewrite List.filter_app, Hfs. destruct (Hd g) as [Hnd Hrange]. cbv zeta in *.
  destruct (decide (folder = g)) as [-> |Hne].
  - set (l := List.filter (in_folder g) rows) in *.
    assert (List.filter (in_folder g) [mkWorkloadPlacement agent g position]
      = [mkWorkloadPlacement agent g position]) as ->.
    { simpl. unfold in_folder, opt_str_eqb; simpl. by rewrite bool_decide_true. }
    assert (forall p, p ∈ l -> wp_position (shift p)
      = if position <=? wp_position p then wp_position p + 1 else wp_position p) as Hsh.
    { intros p [_ Hp]%filter_elem. subst shift; simpl. rewrite Hp. simpl. by case_match. }
    rewrite length_app, length_map. simpl. split.
    + rewrite fmap_app. apply NoDup_app. split_and!; [| |apply NoDup_singleton].
      * change (map shift l) with (shift <$> l). rewrite <- list_fmap_compose.
        apply NoDup_fmap_2_strong; [|by apply NoDup_fmap_1 in Hnd].
        intros a b Ha Hb Heq. simpl in Heq. rewrite (Hsh a Ha), (Hsh b Hb) in Heq.
        apply (NoDup_fmap_inj_elem wp_position l); [done..|]. 
        destruct (Z.leb_spec position (wp_position a)), (Z.leb_spec position (wp_position b)); lia.
      * intros x (p' & -> & (p & -> & Hp)%list_elem_of_fmap)%list_elem_of_fmap Hx.
        apply list_elem_of_singleton in Hx. simpl in Hx. rewrite (Hsh p Hp) in Hx.
        destruct (Z.leb_spec position (wp_position p)); lia.
    + intros p' [(p & -> & Hp)%list_elem_of_fmap| ->%list_elem_of_singleton]%elem_of_app; simpl; [|lia].
      rewrite (Hsh p Hp). specialize (Hrange p Hp).
      destruct (Z.leb_spec position (wp_position p)); lia.
  - assert (List.filter (in_folder g) [mkWorkloadPlacement agent folder position] = []) as ->.
    { simpl. unfold in_folder, opt_str_eqb; simpl. by rewrite bool_decide_false by congruence. }
    assert (map shift (List.filter (in_folder g) rows) = List.filter (in_folder g) rows) as ->.
    { assert (forall l, (forall p, p ∈ l -> in_folder g p = true) -> map shift l = l) as Hid.
      { induction l as [|p l IH]; intros Hl; simpl; [done|]. rewrite IH by set_solver. f_equal.
        subst shift; simpl. assert (in_folder folder p = false) as ->; [|done].
        apply not_true_is_false. intros Hf%in_folder_iff.
        specialize (Hl p ltac:(left)). apply in_folder_iff in Hl. congruence. }
      apply Hid. by intros p [_ ?]%filter_elem. }
    rewrite app_nil_r. done.
Qed.

(** The next position is beyond every one in the folder. *)
Lemma next_position_beyond rows folder :
  0 <= next_position rows folder /\
  forall p, p ∈ List.filter (in_folder folder) rows -> wp_position p < next_position rows folder.
Proof.
  unfold next_position. set (l := List.filter (in_folder folder) rows). clearbody l. split.
  - induction l as [|p l IH]; simpl; lia.
  - induction l as [|q l IH]; intros p; [set_solver|].
    intros [->|Hp]%elem_of_cons; simpl; [lia|]. specialize (IH p Hp). lia.
Qed.

Lemma next_position_dense rows folder :
  positions_dense rows ->
  next_position rows folder <= Z.of_nat (length (List.filter (in_folder folder) rows)).
Proof.
  intros Hd. destruct (Hd folder) as [_ Hr]. cbv zeta in Hr. unfold next_position.
  set (l := List.filter (in_folder folder) rows) in *. set (n := Z.of_nat (length l)) in *.
  assert (0 <= n) as Hn by lia. clearbody n l.
  induction l as [|p l IH]; simpl; [lia|]. specialize (Hr p ltac:(left)) as Hp.
  assert (foldr Z.max 0 (map (fun p => wp_position p + 1) l) <= n); [|lia].
  apply IH. intros q Hq. apply Hr. by right.
Qed.

(** Appending a workload at the next position. *)
Lemma append_dense rows agent folder :
  positions_dense rows ->
  positions_dense (rows ++ [mkWorkloadPlacement agent folder (next_position rows folder)]).
Proof.
  intros Hd. pose proof (next_position_dense rows folder Hd) as Hn.
  destruct (next_position_beyond rows folder) as [Hb Hmax].
  pose proof (insert_dense rows agent folder (next_position rows folder) Hd (conj Hb Hn)) as Hi.
  assert (map (fun p => if in_folder folder p && (next_position rows folder <=? wp_position p)
     then with_position p (wp_position p + 1) else p) rows = rows) as Heq; [|by rewrite Heq in Hi].
  assert (forall l, (forall p, p ∈ l -> p ∈ rows) -> map (fun p => if in_folder folder p
     && (next_position rows folder <=? wp_position p) then with_position p (wp_position p + 1) else p) l = l)
    as Hid; [|by apply Hid].
  induction l as [|p l IH]; intros Hl; simpl; [done|]. rewrite IH by set_solver. f_equal.
  destruct (in_folder folder p) eqn:Hp; [|done]. simpl.
  assert (p ∈ List.filter (in_folder folder) rows) as Hin by (apply filter_elem; split; [apply Hl; left|done]).
  specialize (Hmax p Hin). destruct (Z.leb_spec (next_position rows folder) (wp_position p)); [lia|done].
Qed.

Lemma append_distinct rows agent folder :
  positions_distinct rows ->
  positions_distinct (rows ++ [mkWorkloadPlacement agent folder (next_position rows folder)]).
Proof.
  intros Hd g. cbv zeta. destruct (Hd g) as [Hnd Hpos]. destruct (next_position_beyond rows folder) as [Hb Hmax].
  rewrite List.filter_app. simpl. destruct (in_folder g _) eqn:Hg; [|by rewrite app_nil_r].
  apply in_folder_iff in Hg. simpl in Hg. subst g. split.
  - rewrite fmap_app. apply NoDup_app. split_and!; [done| |apply NoDup_singleton].
    intros x (q & -> & Hq)%list_elem_of_fmap Hx. apply list_elem_of_singleton in Hx. simpl in Hx.
    specialize (Hmax q Hq). lia.
  - intros q [Hq| ->%list_elem_of_singleton]%elem_of_app; [by apply Hpos|done].
Qed.

Lemma filter_distinct keep rows :
  positions_distinct rows -> positions_distinct (List.filter keep rows).
Proof.
  intros Hd g. cbv zeta. destruct (Hd g) as [Hnd Hpos].
  assert (List.filter (in_folder g) (List.filter keep rows)
    = List.filter keep (List.filter (in_folder g) rows)) as ->.
  { clear. induction rows as [|p l IH]; simpl; [done|].
    destruct (keep p) eqn:Hk, (in_folder g p) eqn:Hg; simpl; rewrite ?Hk, ?Hg, IH; done. }
  split; [by apply NoDup_fmap_filter|]. intros q [Hq _]%filter_elem. by apply Hpos.
Qed.

Lemma dense_distinct rows : positions_dense rows -> positions_distinct rows.
Proof.
  intros Hd g. destruct (Hd g) as [? Hr]. split; [done|]. intros q Hq. by apply Hr.
Qed.

Lemma transaction_placements {A} db (body : Result (A * TreeDb) AuthFailure) :
  (forall a db', body = Ok (a, db') -> td_placements db' = td_placements db) ->
  td_placements (transaction db body).2 = td_placements db.
Proof. intros H. destruct body as [[a db']|e]; simpl; [by eapply H|done]. Qed.

(** Renumbering leaves no gap, whatever the positions were. *)
Lemma renumbers_dense db op :
  tree_ok db -> renumbers db op -> positions_dense (td_placements (tree_apply db op)).
Proof.
  intros Hok. destruct op as [| |id require_empty|agent request| | | |]; simpl; try done.
  - unfold remove_workload_folder, transaction. destruct (result_bind _ _) as [[a db']|e] eqn:Hb; [|done].
    intros _. simpl. split_check Hb; destruct_units. simplify_eq. simpl. apply normalize_dense.
    rewrite moved_agents. apply Hok.
  - destruct (set_workload_placement db agent request) as [[a|e] db'] eqn:He; [|done]. intros _. simpl.
    apply set_placement_committed in He as (Hpos & _ & Ha & _ & ->). subst a. apply insert_dense.
    + apply normalize_dense, NoDup_fmap_filter, Hok.
    + simpl. lia.
Qed.

(** What becomes of the placements under one operation. *)
Lemma tree_apply_placements db op :
  let rows := td_placements db in let rows' := td_placements (tree_apply db op) in
  rows' = rows \/ renumbers db op
  \/ (exists agent folder, rows' = rows ++ [mkWorkloadPlacement agent folder (next_position rows folder)])
  \/ (deletes_app op /\ exists keep, rows' = List.filter keep rows).
Proof.
  destruct op as [fresh request|id request|id require_empty|agent request|c a n f cl cr|x sv n f cl d|t sv|]; simpl.
  - left. unfold create_workload_folder. apply transaction_placements.
    intros r db' H. split_check H; destruct_units. by simplify_eq.
  - left. unfold update_workload_folder. apply transaction_placements.
    intros r db' H. split_check H; destruct_units. by case_match; simplify_eq.
  - destruct (remove_workload_folder db id require_empty) as [[r|e] db'] eqn:He; [by right; left|left].
    unfold remove_workload_folder, transaction in He. by destruct (result_bind _ _) as [[]|]; simplify_eq.
  - destruct (set_workload_placement db agent request) as [[r|e] db'] eqn:He; [by right; left|left].
    unfold set_workload_placement, transaction in He. by repeat case_match; simplify_eq.
  - destruct (reserve_rows db c a n f cl cr) as [-> |(dest & _ & _ & _ & ->)]; [by left|right; right; left; eauto].
  - destruct (create_app_rows db x sv n f cl d) as [-> |(dest & _ & _ & _ & ->)]; [by left|right; right; left; eauto].
  - right; right; right. split; [done|]. destruct (delete_app_rows db t sv) as (_ & keep & ->). eauto.
  - by left.
Qed.

Lemma tree_apply_distinct db op :
  tree_ok db -> positions_distinct (td_placements db) ->
  positions_distinct (td_placements (tree_apply db op)).
Proof.
  intros Hok Hd. destruct (tree_apply_placements db op) as [-> |[Hr|[(agent & folder & ->)|(_ & keep & ->)]]].
  - done.
  - by apply dense_distinct, renumbers_dense.
  - by apply append_distinct.
  - by apply filter_distinct.
Qed.

Lemma tree_apply_dense db op :
  tree_ok db -> ~ deletes_app op -> positions_dense (td_placements db) ->
  positions_dense (td_placements (tree_apply db op)).
Proof.
  intros Hok Hno Hd. destruct (tree_apply_placements db op) as [-> |[Hr|[(agent & folder & ->)|(Hdel & _)]]].
  - done.
  - by apply renumbers_dense.
  - by apply append_dense.
  - done.
Qed.

Lemma empty_tree_ok : tree_ok empty_tree_db.
Proof. split; simpl; [constructor|set_solver|set_solver|constructor|set_solver]. Qed.

Lemma empty_dense : positions_dense [].
Proof. intros folder. simpl. split; [constructor|set_solver]. Qed.

(** C4: the Tree of a workspace stays a forest.  After any sequence of creating, renaming, moving and
    removing folders, placing and reserving Agents, creating and deleting Apps, and of any changes to
    the other tables, folder IDs are unique, every folder name is a legal path component, every
    folder's parents lead to the root (no dangling parent and no cycle, however folders are moved),
    each workload has at most one placement and is placed in an existing folder, and the positions
    in a folder are nonnegative and all different.  They are exactly 0 to n-1 after every successful
    removal of a folder and every successful placement, and as long as no App is deleted: that
    deletion alone leaves a gap. *)
Theorem tree_stays_a_forest ops db :
  tree_ok db -> positions_distinct (td_placements db) ->
  let db' := foldl tree_apply db ops in
  tree_ok db' /\ positions_distinct (td_placements db')
  /\ (forall op, renumbers db' op -> positions_dense (td_placements (tree_apply db' op)))
  /\ (positions_dense (td_placements db) -> Forall (fun op => ~ deletes_app op) ops ->
        positions_dense (td_placements db')).
Proof.
  revert db. induction ops as [|op ops IH]; intros db Hok Hd; cbv zeta; simpl.
  - split_and!; [done|done| |done]. intros op. by apply renumbers_dense.
  - destruct (IH (tree_apply db op)) as (H1 & H2 & H3 & H4); [by apply tree_apply_keeps|by apply tree_apply_distinct|].
    split_and!; [done|done|done|]. intros Hden [Hno Hops]%Forall_cons. by apply H4; [apply tree_apply_dense|].
Qed.

Lemma tree_stays_a_forest_witness :
  let ops := sample_tree_ops ++ [DeleteApp "board" (Some "svc_1")] in
  let db' := foldl tree_apply empty_tree_db ops in
  (tree_ok db' /\ positions_distinct (td_placements db')
   /\ (forall op, renumbers db' op -> positions_dense (td_placements (tree_apply db' op)))
   /\ (positions_dense [] -> Forall (fun op => ~ deletes_app op) ops -> positions_dense (td_placements db')))
  /\ td_placements db' = [mkWorkloadPlacement "ag_1" (Some "folder_1") 0;
       mkWorkloadPlacement "ag_2" (Some "folder_1") 1; mkWorkloadPlacement "app_2" (Some "folder_1") 3].
Proof.
  split; [|by vm_compute].
  apply (tree_stays_a_forest (sample_tree_ops ++ [DeleteApp "board" (Some "svc_1")]) empty_tree_db);
    [apply empty_tree_ok|apply dense_distinct, empty_dense].
Defined.

(** ** Sibling names *)

(** The removals the Tree commands issue: only of empty folders. *)
Definition removes_empty_only (op : TreeOp) : Prop :=
  match op with RemoveFolder _ require_empty => require_empty = true | _ => True end.

(** [child] is in folder [r] and [other], a folder next to [r], has its name. *)
Definition clashes (db : TreeDb) (r child other : WorkloadFolder) : Prop :=
  child ∈ td_folders db /\ wf_parent_id child = Some (wf_folder_id r) /\
  other ∈ td_folders db /\ wf_folder_id other <> wf_folder_id r /\
  wf_parent_id other = wf_parent_id r /\ wf_name other = wf_name child.

(** The operation removes a folder with such a child. *)
Definition promotes_clash (db : TreeDb) (op : TreeOp) : Prop :=
  match op with
  | RemoveFolder id require_empty =>
      (remove_workload_folder db id require_empty).1 = Ok tt /\
      exists r child other, find_folder (load_workload_tree db) id = Some r /\ clashes db r child other
  | _ => False
  end.

Fixpoint clash_free (db : TreeDb) (ops : list TreeOp) : Prop :=
  match ops with
  | [] => True
  | op :: ops => ~ promotes_clash db op /\ clash_free (tree_apply db op) ops
  end.

(** The committed writes of [remove_workload_folder] to the folders. *)
Lemma remove_folder_committed db id require_empty db' :
  remove_workload_folder db id require_empty = (Ok tt, db') ->
  exists r, find_folder (load_workload_tree db) id = Some r /\
    td_folders db' = remove_folder (td_folders db) id (wf_parent_id r) /\
    (require_empty = true -> forall f, f ∈ td_folders db -> wf_parent_id f <> Some id).
Proof.
  unfold remove_workload_folder, transaction. destruct (result_bind _ _) as [[a db'']|e] eqn:Hb; [|done].
  intros [= _ <-]. split_check Hb; destruct_units. simplify_eq.
  match goal with H : load_folder _ _ = Ok ?r |- _ => exists r; unfold load_folder in H end.
  destruct (find_folder _ id) as [r|]; simplify_eq/=. split_and!; [done|done|]. intros -> f Hf Hp.
  match goal with H : (if true && (?x || ?y) then _ else _) = _ |- _ => destruct x eqn:Hch; [done|] end.
  assert (existsb (fun f => opt_str_eqb (wf_parent_id f) (Some id)) (td_folders db) = true); [|congruence].
  apply existsb_elem. exists f. unfold opt_str_eqb. by rewrite bool_decide_true.
Qed.

Lemma remove_siblings db id require_empty :
  ~ promotes_clash db (RemoveFolder id require_empty) -> siblings_unique db ->
  siblings_unique (remove_workload_folder db id require_empty).2.
Proof.
  intros Hop Hs. destruct (remove_workload_folder db id require_empty) as [[[]|e] db'] eqn:He; simpl.
  2:{ unfold remove_workload_folder, transaction in He. by destruct (result_bind _ _) as [[]|]; simplify_eq. }
  pose proof (remove_folder_committed _ _ _ _ He) as (r & Hr & Hf & _).
  pose proof Hr as [_ Hid]%find_folder_some.
  assert (forall c o, c ∈ td_folders db -> wf_parent_id c = Some id -> o ∈ td_folders db ->
    wf_folder_id o <> id -> wf_parent_id o = wf_parent_id r -> wf_name o <> wf_name c) as Hno.
  { intros c o Hc Hcp Ho Hoi Hop' Hn. apply Hop. split; [by rewrite He|]. exists r, c, o.
    by unfold clashes; rewrite Hid. }
  intros f g. rewrite Hf. unfold remove_folder. rewrite !filter_elem.
  intros [(f0 & -> & Hf0)%list_elem_of_fmap Hfi] [(g0 & -> & Hg0)%list_elem_of_fmap Hgi].
  rewrite !reparent_id in *. apply negb_true_iff, String.eqb_neq in Hfi, Hgi.
  unfold reparent, opt_str_eqb. do 2 case_bool_decide; simpl; intros Hp Hn.
  - apply Hs; congruence.
  - exfalso. by eapply (Hno f0 g0).
  - exfalso. by eapply (Hno g0 f0).
  - by apply Hs.
Qed.

Lemma sibling_name_free db parent name excluding f :
  validate_sibling_name db parent name excluding = Ok tt -> f ∈ td_folders db ->
  wf_parent_id f = parent -> wf_name f = name -> excluding = Some (wf_folder_id f).
Proof.
  unfold validate_sibling_name. case_match eqn:Hex; [done|]. intros _ Hf Hp Hn.
  destruct excluding as [e|].
  - destruct (decide (e = wf_folder_id f)) as [-> |Hne]; [done|].
    assert (existsb (fun f => opt_str_eqb (wf_parent_id f) parent && (wf_name f =s name)
      && negb (wf_folder_id f =s e)) (td_folders db) = true); [|simpl in *; congruence].
    apply existsb_elem. exists f. unfold opt_str_eqb. rewrite Hp, Hn, bool_decide_true, String.eqb_refl by done.
    split; [done|]. simpl. by apply negb_true_iff, String.eqb_neq.
  - assert (existsb (fun f => opt_str_eqb (wf_parent_id f) parent && (wf_name f =s name)
      && true) (td_folders db) = true); [|simpl in *; congruence].
    apply existsb_elem. exists f. unfold opt_str_eqb. by rewrite Hp, Hn, bool_decide_true, String.eqb_refl by done.
Qed.

Lemma tree_apply_siblings db op :
  ~ promotes_clash db op -> siblings_unique db -> siblings_unique (tree_apply db op).
Proof.
  intros Hop Hs. destruct op as [fresh request|id request|id require_empty|agent request|c a n f cl cr|x sv n f cl d|t sv|]; simpl.
  - unfold create_workload_folder. apply (transaction_keeps siblings_unique); [done|]. intros r db' H.
    split_check H; destruct_units. simplify_eq. intros f g; simpl.
    rewrite !elem_of_app, !list_elem_of_singleton. intros [Hf| ->] [Hg| ->]; simpl; intros Hp Hn.
    + by apply Hs.
    + assert (None = Some (wf_folder_id f)) as [=] by (eapply sibling_name_free; eauto).
    + assert (None = Some (wf_folder_id g)) as [=] by (eapply sibling_name_free; eauto).
    + done.
  - unfold update_workload_folder. apply (transaction_keeps siblings_unique); [done|]. intros r db' H.
    split_check H; destruct_units. case_match; simplify_eq; [done|].
    match goal with H : load_folder _ _ = Ok ?o |- _ => rename H into Hload end.
    unfold load_folder in Hload. destruct (find_folder _ id) as [o|] eqn:Hfo; simplify_eq/=.
    apply find_folder_some in Hfo as [_ Hid].
    intros f g; simpl. unfold replace_folder. simpl.
    intros (f0 & -> & Hf)%list_elem_of_fmap (g0 & -> & Hg)%list_elem_of_fmap Hp Hn.
    destruct (wf_folder_id f0 =s wf_folder_id _) eqn:Hf0, (wf_folder_id g0 =s wf_folder_id _) eqn:Hg0;
      simpl in *; [done| | |by apply Hs].
    + assert (Some id = Some (wf_folder_id g0)) as [= He] by (eapply sibling_name_free; eauto).
      apply String.eqb_neq in Hg0. congruence.
    + assert (Some id = Some (wf_folder_id f0)) as [= He] by (eapply sibling_name_free; eauto).
      apply String.eqb_neq in Hf0. congruence.
  - by apply remove_siblings.
  - destruct (set_workload_placement db agent request) as [[a|e] db'] eqn:He; simpl.
    + apply set_placement_committed in He as (_ & _ & _ & Hf & _). unfold siblings_unique. by rewrite Hf.
    + unfold set_workload_placement, transaction in He. by repeat case_match; simplify_eq.
  - destruct (reserve_rows db c a n f cl cr) as [-> |(_ & _ & _ & Hf & _)]; [done|]. unfold siblings_unique. by rewrite Hf.
  - destruct (create_app_rows db x sv n f cl d) as [-> |(_ & _ & _ & Hf & _)]; [done|]. unfold siblings_unique. by rewrite Hf.
  - destruct (delete_app_rows db t sv) as (Hf & _). unfold siblings_unique. by rewrite Hf.
  - done.
Qed.

Lemma empty_only_clash_free db ops : Forall removes_empty_only ops -> clash_free db ops.
Proof.
  intros Hops. revert db. induction Hops as [|op ops Hop _ IH]; intros db; simpl; [done|].
  split; [|apply IH]. destruct op as [| |id require_empty| | | | |]; simpl in *; try tauto. subst.
  destruct (remove_workload_folder db id true) as [[[]|e] db'] eqn:He; [|by intros [[=] _]].
  intros (_ & r & c & o & Hr & Hc & Hcp & _). pose proof Hr as [_ <-]%find_folder_some.
  apply remove_folder_committed in He as (r' & _ & _ & Hno). by apply (Hno eq_refl c).
Qed.

(** C40: folder names are unique among siblings.  Through any sequence of operations no two folders
    of one parent ever get the same name, as long as no removal takes away a folder with a child whose name
    another folder next to the removed one has. *)
Theorem sibling_names_unique ops db :
  siblings_unique db -> clash_free db ops -> siblings_unique (foldl tree_apply db ops).
Proof.
  revert db. induction ops as [|op ops IH]; intros db Hs; simpl; [done|].
  intros [Hop Hops]. by apply IH; [apply tree_apply_siblings|].
Qed.

Lemma sibling_names_unique_witness :
  siblings_unique (foldl tree_apply empty_tree_db sample_tree_ops).
Proof.
  apply (sibling_names_unique sample_tree_ops empty_tree_db).
  - intros f g Hf. by apply elem_of_nil in Hf.
  - apply empty_only_clash_free. repeat (constructor; [exact I|]). constructor.
Defined.

Lemma removed_still_there db id r f :
  f ∈ td_folders db -> wf_folder_id f <> id ->
  reparent id (wf_parent_id r) f ∈ remove_folder (td_folders db) id (wf_parent_id r).
Proof.
  intros Hf Hne. apply filter_elem. split; [by apply list_elem_of_fmap_2|].
  rewrite reparent_id. by apply negb_true_iff, String.eqb_neq.
Qed.

(** Two folders of one name and parent: their common path is printed and cannot be looked up. *)
Lemma same_path_ambiguous db f g :
  tree_ok db -> (forall h, h ∈ td_folders db -> starts_with "/" (wf_folder_id h) = false) ->
  f ∈ td_folders db -> g ∈ td_folders db -> wf_folder_id f <> wf_folder_id g ->
  wf_parent_id f = wf_parent_id g -> wf_name f = wf_name g ->
  exists path, folder_path (load_workload_tree db) (Some (wf_folder_id f)) = Ok path /\
    folder_path (load_workload_tree db) (Some (wf_folder_id g)) = Ok path /\
    forall cwd, resolve_folder_path (load_workload_tree db) path cwd = Err ambiguous.
Proof.
  intros Hok Hid Hf Hg Hne Hp Hn. set (t := load_workload_tree db).
  assert (forall h, h ∈ td_folders db -> find_folder t (wf_folder_id h) = Some h) as Hfind.
  { intros h Hh. by apply find_by_id; [apply Hok|]. }
  destruct (tok_rooted db Hok f Hf) as [l Hl].
  apply chain_some in Hl as (f' & l' & -> & Hf' & _ & Hl'). pose proof (Hfind f Hf) as Hff. fold t in Hf', Hl'. assert (f' = f) as -> by congruence.
  exists ("/" +:+ join "/" (rev (wf_name <$> f :: l'))). split_and!.
  - apply folder_path_chain. econstructor; [by apply Hfind|done].
  - replace (wf_name <$> f :: l') with (wf_name <$> g :: l') by (by rewrite !fmap_cons, Hn).
    apply folder_path_chain. econstructor; [by apply Hfind|]. by rewrite <- Hp.
  - intros cwd. unfold resolve_folder_path.
    assert (find_folder t ("/" +:+ join "/" (rev (wf_name <$> f :: l'))) = None) as ->.
    { apply find_none_iff, Forall_forall. intros h Hh. apply str_eqb_neq. intros Heq.
      specialize (Hid h Hh). rewrite Heq in Hid. done. }
    rewrite path_components_abs.
    + simpl result_bind. apply (resolve_names_ambiguous t _ f g l'); [done|done|done|congruence|done|done].
    + apply List.Forall_rev, Forall_fmap, Forall_forall. intros h [-> |Hh]%elem_of_cons; [by apply Hok|].
      apply (tok_names db Hok), (folder_chain_elem _ _ _ _ Hl' Hh).
Qed.

(** C38: removing a folder can make a path ambiguous.  Whenever a removal succeeds on a folder with a
    child whose name another folder next to the removed one has, both folders are there afterwards
    with the same parent and name: the same path is printed for both, and looking that path up fails
    with folder_ambiguous. *)
Theorem removal_promotes_duplicate db id require_empty r child other :
  tree_ok db -> (forall f, f ∈ td_folders db -> starts_with "/" (wf_folder_id f) = false) ->
  find_folder (load_workload_tree db) id = Some r -> clashes db r child other ->
  (remove_workload_folder db id require_empty).1 = Ok tt ->
  let db' := (remove_workload_folder db id require_empty).2 in
  mkWorkloadFolder (wf_folder_id child) (wf_name child) (wf_parent_id r) ∈ td_folders db' /\
  other ∈ td_folders db' /\ wf_folder_id other <> wf_folder_id child /\
  exists path,
    folder_path (load_workload_tree db') (Some (wf_folder_id child)) = Ok path /\
    folder_path (load_workload_tree db') (Some (wf_folder_id other)) = Ok path /\
    forall cwd, resolve_folder_path (load_workload_tree db') path cwd
      = Err (protocol_error "folder_ambiguous" "duplicate folder name; use its ID").
Proof.
  intros Hok Hids Hr (Hc & Hcp & Ho & Hoi & Hop & Hn) Hrun db'.
  pose proof (remove_keeps db id require_empty Hok) as Hok'. fold db' in Hok'.
  assert (remove_workload_folder db id require_empty = (Ok tt, db')) as He.
  { rewrite <- Hrun. by apply surjective_pairing. }
  apply remove_folder_committed in He as (r' & Hr' & Hf & _). rewrite Hr in Hr'. injection Hr' as <-.
  pose proof Hr as [_ Hid]%find_folder_some. pose proof Hok as [Hnd _ Hroot _ _]. apply tok_rooted_iff in Hroot.
  destruct (rooted_some _ id r Hroot Hnd Hr) as (l & Hl & Hni).
  assert (wf_parent_id r <> Some id) as Hpr.
  { intros Hpr. rewrite Hpr in Hl. apply chain_some in Hl as (h & l' & -> & _ & Hh & _).
    apply Hni. rewrite <- Hh. left. }
  assert (wf_folder_id child <> id) as Hci.
  { intros Heq. assert (child = r) as -> by (eapply NoDup_fmap_inj_elem; [exact Hnd|done|by apply find_folder_some in Hr as [? _]|congruence]).
    congruence. }
  assert (wf_folder_id other <> wf_folder_id child) as Hoc.
  { intros Heq. assert (other = child) as -> by (by eapply NoDup_fmap_inj_elem). congruence. }
  pose proof (removed_still_there db id r child Hc Hci) as Hcin.
  pose proof (removed_still_there db id r other Ho ltac:(congruence)) as Hoin.
  unfold reparent, opt_str_eqb in Hcin, Hoin. rewrite bool_decide_true in Hcin by congruence.
  rewrite bool_decide_false in Hoin by congruence. rewrite <- Hf in Hcin, Hoin.
  split_and!; [done|done|done|].
  apply (same_path_ambiguous db' (mkWorkloadFolder (wf_folder_id child) (wf_name child) (wf_parent_id r)) other Hok');
    [|done|done|simpl; congruence|simpl; congruence|simpl; congruence].
  rewrite Hf. intros h [(h0 & -> & Hh)%list_elem_of_fmap _]%filter_elem. rewrite reparent_id. by apply Hids.
Qed.

Lemma removal_promotes_duplicate_witness :
  let db' := (remove_workload_folder sample_tree_db "folder_1" false).2 in
  mkWorkloadFolder "folder_3" "x" None ∈ td_folders db' /\
  mkWorkloadFolder "folder_2" "x" None ∈ td_folders db' /\ "folder_2" <> "folder_3" /\
  exists path,
    folder_path (load_workload_tree db') (Some "folder_3") = Ok path /\
    folder_path (load_workload_tree db') (Some "folder_2") = Ok path /\
    forall cwd, resolve_folder_path (load_workload_tree db') path cwd
      = Err (protocol_error "folder_ambiguous" "duplicate folder name; use its ID").
Proof.
  apply (removal_promotes_duplicate sample_tree_db "folder_1" false (mkWorkloadFolder "folder_1" "a" None)
    (mkWorkloadFolder "folder_3" "x" (Some "folder_1")) (mkWorkloadFolder "folder_2" "x" None)).
  - unfold sample_tree_db. generalize sample_tree_ops. intros ops.
    enough (forall db, tree_ok db -> tree_ok (foldl tree_apply db ops)) as H by apply H, empty_tree_ok.
    induction ops as [|op ops IH]; intros db Hok; simpl; [done|]. by apply IH, tree_apply_keeps.
  - vm_compute. intros f Hf. repeat (apply elem_of_cons in Hf as [-> |Hf]; [done|]). by apply elem_of_nil in Hf.
  - by vm_compute.
  - split_and!; [vm_compute; set_solver|done|vm_compute; set_solver|done|done|done].
  - by vm_compute.
Defined.
