(* ===== verification/Messages.v ===== *)
(** * Core Messages: wire types and validation
      (crates/treer-protocol/src/messages.rs, the domain events of transport.rs, and the
      validators of crates/treer-proxy/src/message_store.rs)

    Every bound a request meets before the message store touches a table. *)

From S2P Require Import Prelude RustStr.
Local Open Scope Z_scope.

(** A [DateTime<Utc>] is a number of nanoseconds since the epoch. *)
Definition DateTime : Type := Z.

(** ** Types of messages.rs *)

Inductive MessagePrincipalKind : Type := MKAgent | MKHuman | MKMachine | MKService.

#[export] Instance MessagePrincipalKind_eq_dec : EqDecision MessagePrincipalKind.
Proof. solve_decision. Defined.

Definition kind_as_str (k : MessagePrincipalKind) : string :=
  match k with
  | MKAgent => "agent" | MKHuman => "human" | MKMachine => "machine" | MKService => "service"
  end.

Record MessagePrincipal : Type := mkMessagePrincipal {
  mp_app_endpoint : option string;
  mp_path : option string;
  mp_kind : MessagePrincipalKind;
  mp_id : string;
  mp_name : string;
  mp_role : option string
}.

#[export] Instance MessagePrincipal_eq_dec : EqDecision MessagePrincipal.
Proof. solve_decision. Defined.

Record MessageExternalSource : Type := mkMessageExternalSource {
  es_channel : string;
  es_account_id : option string;
  es_conversation_id : string;
  es_message_id : string;
  es_metadata : gmap string string
}.

Record CoreMessage : Type := mkCoreMessage {
  cm_schema_version : Z;
  cm_message_id : string;
  cm_workspace_id : string;
  cm_sender : MessagePrincipal;
  cm_recipients : list MessagePrincipal;
  cm_context_ids : list string;
  cm_body : string;
  cm_created_at : DateTime;
  cm_expires_at : option DateTime;
  cm_correlation_id : option string;
  cm_trace_id : option string;
  cm_external_source : option MessageExternalSource
}.

Record MessageDelivery : Type := mkMessageDelivery {
  md_delivery_id : string;
  md_message : CoreMessage;
  md_recipient : MessagePrincipal;
  md_created_at : DateTime;
  md_acknowledged_at : option DateTime;
  md_expires_at : option DateTime
}.

Record SendMessageRequest : Type := mkSendMessageRequest {
  sr_sender_endpoint : option string;
  sr_recipients : list string;
  sr_context_ids : list string;
  sr_body : string;
  sr_expires_at : option DateTime;
  sr_idempotency_key : option string;
  sr_correlation_id : option string;
  sr_trace_id : option string;
  sr_external_source : option MessageExternalSource
}.

Record SendMessageResponse : Type := mkSendMessageResponse {
  sent_message : CoreMessage;
  sent_delivery_ids : list string;
  sent_idempotent_replay : bool
}.

Record MessagePage : Type := mkMessagePage {
  pg_messages : list CoreMessage;
  pg_next_cursor : option string;
  pg_remaining_unacknowledged : Z
}.

Record ReceiveMessagesResponse : Type := mkReceiveMessagesResponse {
  rc_next_cursor : option string;
  rc_deliveries : list MessageDelivery;
  rc_remaining_unacknowledged : Z
}.

Record AcknowledgeMessagesRequest : Type := mkAcknowledgeMessagesRequest {
  ar_app_endpoint : option string;
  ar_delivery_ids : list string;
  ar_operation_id : string
}.

Record AcknowledgeMessagesResponse : Type := mkAcknowledgeMessagesResponse {
  ack_acknowledged : list string;
  ack_already_acknowledged : list string
}.

Record LegacyMailRecipient : Type := mkLegacyMailRecipient {
  lr_principal : MessagePrincipal;
  lr_position : Z;
  lr_read_at : option DateTime
}.

Record LegacyMailMessage : Type := mkLegacyMailMessage {
  lm_message_id : string;
  lm_workspace_id : string;
  lm_sender : MessagePrincipal;
  lm_recipients : list LegacyMailRecipient;
  lm_context_ids : list string;
  lm_body : string;
  lm_created_at : DateTime
}.

Record ImportMessagesRequest : Type := mkImportMessagesRequest {
  ir_format : string;
  ir_operation_id : string;
  ir_messages : list LegacyMailMessage
}.

Record ImportMessagesResponse : Type := mkImportMessagesResponse {
  im_imported : Z;
  im_existing : Z;
  im_message_ids : list string
}.

(** ** Domain events (transport.rs) *)

Record DomainEventActor : Type := mkDomainEventActor {
  actor_kind : string;
  actor_id : option string
}.

Record DomainEventResource : Type := mkDomainEventResource {
  resource_kind : string;
  resource_id : string
}.

(** The [json!] objects the message store puts in [payload]. *)
Inductive EventPayload : Type :=
| PayloadCreated (message_id : string) (delivery_ids context_ids recipient_ids : list string)
| PayloadAcknowledged (delivery_id message_id : string)
| PayloadImported (imported existing : Z).

Record DomainEventEnvelope : Type := mkDomainEventEnvelope {
  ev_event_id : string;
  ev_schema_version : Z;
  ev_organization_id : option string;
  ev_workspace_id : string;
  ev_actor : DomainEventActor;
  ev_action : string;
  ev_resource : DomainEventResource;
  ev_occurred_at : DateTime;
  ev_trace_id : option string;
  ev_causation_id : option string;
  ev_correlation_id : option string;
  ev_workspace_revision : option Z;
  ev_payload : EventPayload
}.

(** ** Limits *)

Definition MESSAGE_SCHEMA_VERSION : Z := 1.
Definition DOMAIN_EVENT_SCHEMA_VERSION : Z := 1.
Definition MAX_MESSAGE_BODY_BYTES : Z := 32 * 1024.
Definition MAX_MESSAGE_RECIPIENTS : Z := 32.
Definition MAX_MESSAGE_CONTEXTS : Z := 32.
Definition MAX_MESSAGE_PAGE_SIZE : Z := 100.
Definition MAX_MESSAGE_WAIT_MILLISECONDS : Z := 30000.
Definition MAX_MESSAGE_IDEMPOTENCY_KEY_BYTES : Z := 256.
Definition MAX_MESSAGE_EXTERNAL_METADATA_ENTRIES : Z := 16.
Definition MAX_IMPORT_MESSAGES : Z := 1000.
Definition MAX_ACK_DELIVERIES : Z := 100.
Definition OUTBOX_BATCH_SIZE : nat := 100.
Definition MAX_MESSAGE_ID_BYTES : Z := 256.
Definition MAX_MESSAGE_SNAPSHOT_NAME_BYTES : Z := 256.
Definition MAX_MESSAGE_SNAPSHOT_ROLE_BYTES : Z := 128.
Definition MAX_MESSAGE_LINEAGE_ID_BYTES : Z := 256.

(** ** Errors *)

Inductive MessageStoreError : Type :=
| Contract (code message : string)
| MsgDatabase (error : string)
| MsgCorrupt.

Definition message_error_code (e : MessageStoreError) : string :=
  match e with
  | Contract code _ => code
  | MsgDatabase _ => "message_store_unavailable"
  | MsgCorrupt => "message_store_corrupt"
  end.

Abbreviation MResult A := (Result A MessageStoreError).
Abbreviation MCheck := (Result unit MessageStoreError).

(** ** Validation *)

(** The number of distinct elements: [iter().collect::<HashSet<_>>().len()]. *)
Definition hash_set_len {A} `{EqDecision A} (l : list A) : nat := length (remove_dups l).

Definition is_ascii_alphanumeric (a : ascii) : bool :=
  between 48 (byte_val a) 57 || between 65 (byte_val a) 90 || between 97 (byte_val a) 122.

Fixpoint all_bytes (p : ascii -> bool) (s : string) : bool :=
  match s with EmptyString => true | String a s' => p a && all_bytes p s' end.

Definition endpoint_byte (a : ascii) : bool :=
  is_ascii_alphanumeric a || bool_decide (a = "_"%char) || bool_decide (a = "-"%char).

Definition endpoint_segment_ok (segment : string) : bool :=
  negb (is_empty segment) && (str_len segment <=? 64)
  && match segment with EmptyString => false | String b _ => is_ascii_alphanumeric b end
  && all_bytes endpoint_byte segment.

Definition valid_message_app_endpoint (value : string) : bool :=
  negb (is_empty value) && (str_len value <=? 519)
  && (Z.of_nat (length (split_on slash value)) <=? 8)
  && forallb endpoint_segment_ok (split_on slash value).

Definition snapshot_invalid (principal : MessagePrincipal) : bool :=
  (MAX_MESSAGE_ID_BYTES <? str_len (mp_id principal))
  || is_some_and (mp_app_endpoint principal) (fun key =>
       negb (bool_decide (mp_kind principal = MKAgent)) || negb (valid_message_app_endpoint key))
  || is_empty (mp_name principal)
  || (MAX_MESSAGE_SNAPSHOT_NAME_BYTES <? str_len (mp_name principal))
  || is_some_and (mp_path principal) (fun path =>
       (4096 <? str_len path) || negb (starts_with "/" path) || any_control path)
  || any_control (mp_name principal)
  || is_some_and (mp_role principal) (fun role =>
       is_empty role || (MAX_MESSAGE_SNAPSHOT_ROLE_BYTES <? str_len role) || any_control role).

Definition validate_workspace_and_principal (workspace_id : string) (principal : MessagePrincipal)
  : MCheck :=
  if is_empty workspace_id || (MAX_MESSAGE_ID_BYTES <? str_len workspace_id)
     || is_empty (mp_id principal) || any_control workspace_id || any_control (mp_id principal)
  then Err (Contract "message_principal_invalid"
              "workspace and principal IDs must be non-empty and bounded")
  else if snapshot_invalid principal
  then Err (Contract "message_principal_invalid" "principal identity snapshot is invalid")
  else Ok tt.

Definition recipient_key (p : MessagePrincipal) : MessagePrincipalKind * string * option string :=
  (mp_kind p, mp_id p, mp_app_endpoint p).

Definition validate_external_source (source : MessageExternalSource) : MCheck :=
  if existsb (fun value => is_empty value || (512 <? str_len value))
       [es_channel source; es_conversation_id source; es_message_id source]
     || is_some_and (es_account_id source) (fun value => 512 <? str_len value)
     || (MAX_MESSAGE_EXTERNAL_METADATA_ENTRIES <? Z.of_nat (size (es_metadata source)))
     || existsb (fun '(key, value) =>
          is_empty key || (128 <? str_len key) || (1024 <? str_len value))
          (map_to_list (es_metadata source))
  then Err (Contract "message_external_source_invalid"
              "external source annotation is empty or exceeds its bounds")
  else Ok tt.

Definition validate_lineage (value : option string) (label : string) : MCheck :=
  if is_some_and value (fun v =>
       is_empty v || (MAX_MESSAGE_LINEAGE_ID_BYTES <? str_len v) || any_control v)
  then Err (Contract "message_lineage_invalid"
              ("message " +:+ label +:+ " ID is empty or exceeds its bounds"))
  else Ok tt.

(** [now] is the value of [Utc::now()] the expiry is compared with. *)
Definition validate_send (now : DateTime) (recipients : list MessagePrincipal)
    (request : SendMessageRequest) : MCheck :=
  (if is_empty (trim (sr_body request)) || (MAX_MESSAGE_BODY_BYTES <? str_len (sr_body request))
   then Err (Contract "message_body_invalid" "message body must contain 1-32768 bytes")
   else Ok tt) ;?
  (if (Z.of_nat (length recipients) =? 0)
      || (MAX_MESSAGE_RECIPIENTS <? Z.of_nat (length recipients))
   then Err (Contract "message_recipients_invalid" "message must have 1-32 recipients")
   else Ok tt) ;?
  (if negb (Nat.eqb (length recipients) (length (sr_recipients request)))
      || existsb (fun target => is_empty (trim target) || (MAX_MESSAGE_ID_BYTES <? str_len target))
           (sr_recipients request)
   then Err (Contract "message_recipients_invalid"
               "resolved recipients do not match the bounded request targets")
   else Ok tt) ;?
  (if MAX_MESSAGE_CONTEXTS <? Z.of_nat (length (sr_context_ids request))
   then Err (Contract "message_contexts_invalid" "message may reference at most 32 contexts")
   else Ok tt) ;?
  (if negb (Nat.eqb (hash_set_len (recipient_key <$> recipients)) (length recipients))
   then Err (Contract "message_recipients_duplicate" "message recipients must be unique")
   else Ok tt) ;?
  (if negb (Nat.eqb (hash_set_len (sr_context_ids request)) (length (sr_context_ids request)))
      || existsb (fun id => is_empty id || (256 <? str_len id)) (sr_context_ids request)
   then Err (Contract "message_contexts_invalid"
               "message context IDs must be unique, non-empty, and bounded")
   else Ok tt) ;?
  (if is_some_and (sr_idempotency_key request) (fun key =>
        is_empty key || (MAX_MESSAGE_IDEMPOTENCY_KEY_BYTES <? str_len key))
   then Err (Contract "message_idempotency_key_invalid"
               "message idempotency key must contain 1-256 bytes")
   else Ok tt) ;?
  validate_lineage (sr_correlation_id request) "correlation" ;?
  validate_lineage (sr_trace_id request) "trace" ;?
  (if is_some_and (sr_expires_at request) (fun expires => expires <=? now)
   then Err (Contract "message_expiry_invalid" "message expiry must be in the future")
   else Ok tt) ;?
  match sr_external_source request with
  | Some source => validate_external_source source
  | None => Ok tt
  end ;?
  try_for_each (validate_workspace_and_principal "resolved") recipients.

Definition validate_page_size (limit : Z) : MCheck :=
  if (limit =? 0) || (MAX_MESSAGE_PAGE_SIZE <? limit)
  then Err (Contract "message_limit_invalid" "message limit must be between 1 and 100")
  else Ok tt.

Definition validate_endpoint_scope (endpoint : option string) : MCheck :=
  if is_some_and endpoint (fun e => negb (valid_message_app_endpoint e))
  then Err (Contract "message_endpoint_invalid" "invalid App endpoint")
  else Ok tt.

Definition validate_ack (request : AcknowledgeMessagesRequest) : MCheck :=
  (if (Z.of_nat (length (ar_delivery_ids request)) =? 0)
      || (MAX_ACK_DELIVERIES <? Z.of_nat (length (ar_delivery_ids request)))
   then Err (Contract "message_ack_invalid" "acknowledgement must contain 1-100 deliveries")
   else Ok tt) ;?
  (if is_empty (ar_operation_id request)
      || (MAX_MESSAGE_IDEMPOTENCY_KEY_BYTES <? str_len (ar_operation_id request))
   then Err (Contract "message_ack_operation_invalid"
               "acknowledgement operation ID is empty or too long")
   else Ok tt) ;?
  (if negb (Nat.eqb (hash_set_len (ar_delivery_ids request)) (length (ar_delivery_ids request)))
      || existsb (fun id => is_empty id || (256 <? str_len id)) (ar_delivery_ids request)
   then Err (Contract "message_ack_invalid" "delivery IDs must be unique, non-empty, and bounded")
   else Ok tt).

Definition validate_import (workspace_id : string) (request : ImportMessagesRequest) : MCheck :=
  (if negb (ir_format request =s "legacy-mail-v1")
   then Err (Contract "message_import_format_unsupported"
               "only legacy-mail-v1 imports are supported")
   else Ok tt) ;?
  (if is_empty (ir_operation_id request)
      || (MAX_MESSAGE_IDEMPOTENCY_KEY_BYTES <? str_len (ir_operation_id request))
      || (Z.of_nat (length (ir_messages request)) =? 0)
      || (MAX_IMPORT_MESSAGES <? Z.of_nat (length (ir_messages request)))
   then Err (Contract "message_import_invalid"
               "import must contain 1-1000 messages and a bounded operation ID")
   else Ok tt) ;?
  (if existsb (fun m => negb (lm_workspace_id m =s workspace_id)) (ir_messages request)
   then Err (Contract "message_import_workspace_mismatch"
               "every imported message must belong to the target workspace")
   else Ok tt).

Definition validate_legacy_message (workspace_id : string) (message : LegacyMailMessage) : MCheck :=
  validate_workspace_and_principal workspace_id (lm_sender message) ;?
  (if is_some (mp_app_endpoint (lm_sender message))
      || existsb (fun r => is_some (mp_app_endpoint (lr_principal r))) (lm_recipients message)
   then Err (Contract "message_import_record_invalid"
               "legacy imports cannot assert App subtree identities")
   else Ok tt) ;?
  (if is_empty (lm_message_id message) || (256 <? str_len (lm_message_id message))
      || is_empty (trim (lm_body message)) || (MAX_MESSAGE_BODY_BYTES <? str_len (lm_body message))
      || (Z.of_nat (length (lm_recipients message)) =? 0)
      || (MAX_MESSAGE_RECIPIENTS <? Z.of_nat (length (lm_recipients message)))
      || (MAX_MESSAGE_CONTEXTS <? Z.of_nat (length (lm_context_ids message)))
   then Err (Contract "message_import_record_invalid"
               "legacy message record is empty or exceeds Core limits")
   else Ok tt) ;?
  (if negb (Nat.eqb (hash_set_len ((fun r => (mp_kind (lr_principal r), mp_id (lr_principal r)))
                                     <$> lm_recipients message)) (length (lm_recipients message)))
      || negb (Nat.eqb (hash_set_len (lr_position <$> lm_recipients message))
                 (length (lm_recipients message)))
      || negb (Nat.eqb (hash_set_len (lm_context_ids message)) (length (lm_context_ids message)))
   then Err (Contract "message_import_record_invalid"
               "legacy recipients, positions, and contexts must be unique")
   else Ok tt) ;?
  try_for_each (fun r => validate_workspace_and_principal workspace_id (lr_principal r))
    (lm_recipients message).

(** ** Lemmas *)

Lemma hash_set_len_NoDup {A} `{EqDecision A} (l : list A) :
  hash_set_len l = length l <-> NoDup l.
Proof.
  unfold hash_set_len. split.
  - intros Hl. assert (forall k : list A, length (remove_dups k) <= length k)%nat as Hle.
    { induction k as [|y k IHk]; simpl; [lia|]. case_decide; simpl; lia. }
    induction l as [|x l IH]; simpl in *; [constructor|]. case_decide.
    + specialize (Hle l). lia.
    + constructor; [done|]. apply IH. simpl in Hl. lia.
  - induction 1 as [|x l Hx _ IH]; simpl; [done|]. case_decide; [done|]. simpl. lia.
Qed.

Lemma guard_ok {A} (b : bool) (e : MessageStoreError) (r : MResult A) a :
  ((if b then Err e else Ok tt) ;? r) = Ok a <-> b = false /\ r = Ok a.
Proof. destruct b; simpl; naive_solver. Qed.

Lemma valid_send_recipients now recipients request :
  validate_send now recipients request = Ok tt ->
  recipients <> [] /\ NoDup (recipient_key <$> recipients) /\ NoDup (sr_context_ids request).
Proof.
  unfold validate_send. rewrite !guard_ok. intros (_ & Hn & _ & _ & Hr & Hc & _).
  bool_hyps. apply Nat.eqb_eq in Hr, H. split_and!.
  - by intros ->.
  - apply hash_set_len_NoDup. by rewrite length_fmap.
  - by apply hash_set_len_NoDup.
Qed.
