(* ===== verification/MessageStore.v ===== *)
(** * The message store (crates/treer-proxy/src/message_store.rs)

    The tables of Core Messages and every operation on them: sending with idempotency keys,
    visibility, conversations and mailboxes with cursors, acknowledgement, import of legacy mail
    and the outbox of domain events.

    A table is the list of its rows in insertion order, with the uniqueness and reference
    constraints of [SCHEMA] checked by the inserts; an operation is one transaction, which keeps
    the old tables when it fails.  A JSONB column holds the text of its value.  What comes from
    other crates (serde_json, sha2, base64, chrono's RFC 3339, the collation of the database) is
    the interface [MessageEnv], with the documented facts some theorems need in [MessageLaws].
    The UUIDs one operation draws are the values of a function [fresh]. *)

From S2P Require Import Prelude RustStr Messages.
Local Open Scope Z_scope.

(** ** What the store takes from other crates *)

Record SendFingerprint : Type := mkSendFingerprint {
  sf_sender_endpoint : option string;
  sf_recipients : list MessagePrincipal;
  sf_context_ids : list string;
  sf_body : string;
  sf_expires_at : option DateTime;
  sf_correlation_id : option string;
  sf_trace_id : option string;
  sf_external_source : option MessageExternalSource
}.

Class MessageEnv : Type := {
  (** [to_rfc3339] and [parse_from_rfc3339] *)
  rfc3339 : DateTime -> string;
  parse_rfc3339 : string -> option DateTime;
  (** [URL_SAFE_NO_PAD] *)
  base64_encode : string -> string;
  base64_decode : string -> option string;
  (** the hexadecimal SHA-256 of some bytes *)
  sha256_hex : string -> string;
  (** [serde_json::to_vec] *)
  fingerprint_vec : SendFingerprint -> option string;
  ids_vec : list string -> option string;
  scoped_ids_vec : string * list string -> option string;
  legacy_vec : list LegacyMailMessage -> option string;
  (** [serde_json::to_value] and [from_value] *)
  source_to_value : MessageExternalSource -> option string;
  source_from_value : string -> option MessageExternalSource;
  ack_to_value : AcknowledgeMessagesResponse -> option string;
  ack_from_value : string -> option AcknowledgeMessagesResponse;
  import_to_value : ImportMessagesResponse -> option string;
  import_from_value : string -> option ImportMessagesResponse;
  envelope_to_value : DomainEventEnvelope -> option string;
  envelope_from_value : string -> option DomainEventEnvelope;
  (** the order of TEXT columns *)
  text_le : relation string;
  text_le_dec :: RelDecision text_le
}.

Class MessageLaws {Env : MessageEnv} : Prop := {
  parse_print_time t : parse_rfc3339 (rfc3339 t) = Some t;
  time_has_no_newline t : contains_char "010" (rfc3339 t) = false;
  time_is_utf8 t : valid_utf8 (rfc3339 t) = true;
  base64_roundtrip s : base64_decode (base64_encode s) = Some s;
  source_roundtrip x v : source_to_value x = Some v -> source_from_value v = Some x;
  ack_roundtrip x v : ack_to_value x = Some v -> ack_from_value v = Some x;
  import_roundtrip x v : import_to_value x = Some v -> import_from_value v = Some x;
  envelope_roundtrip x v : envelope_to_value x = Some v -> envelope_from_value v = Some x;
  text_le_total :: TotalOrder text_le
}.

(** ** Tables *)

Record MessageRow : Type := mkMessageRow {
  mr_message_id : string; mr_workspace_id : string;
  mr_sender_kind : string; mr_sender_id : string; mr_sender_name : string;
  mr_sender_role : option string; mr_body : string;
  mr_created_at : string; mr_expires_at : option string;
  mr_correlation_id : option string; mr_trace_id : option string;
  mr_external_source : option string;
  mr_sender_path : option string; mr_sender_endpoint : option string
}.

Record DeliveryRow : Type := mkDeliveryRow {
  dr_delivery_id : string; dr_message_id : string; dr_workspace_id : string;
  dr_recipient_kind : string; dr_recipient_id : string; dr_recipient_name : string;
  dr_recipient_role : option string; dr_position : Z;
  dr_created_at : string; dr_acknowledged_at : option string; dr_expires_at : option string;
  dr_recipient_path : option string; dr_recipient_endpoint : string
}.

Record ContextRow : Type := mkContextRow {
  xr_message_id : string; xr_workspace_id : string;
  xr_context_message_id : string; xr_position : Z
}.

Record IdempotencyRow : Type := mkIdempotencyRow {
  id_workspace_id : string; id_sender_kind : string; id_sender_id : string;
  id_key : string; id_request_hash : string; id_message_id : string; id_created_at : string
}.

Record AckOperationRow : Type := mkAckOperationRow {
  ao_workspace_id : string; ao_principal_kind : string; ao_principal_id : string;
  ao_operation_id : string; ao_request_hash : string; ao_response : string; ao_created_at : string
}.

Record ImportOperationRow : Type := mkImportOperationRow {
  io_workspace_id : string; io_operation_id : string; io_request_hash : string;
  io_response : string; io_created_at : string; io_actor_kind : string; io_actor_id : string
}.

Record OutboxRow : Type := mkOutboxRow {
  ob_event_id : string; ob_workspace_id : string; ob_action : string; ob_envelope : string;
  ob_created_at : string; ob_dispatched_at : option string; ob_attempts : Z
}.

Record Tables : Type := mkTables {
  t_messages : list MessageRow;
  t_deliveries : list DeliveryRow;
  t_contexts : list ContextRow;
  t_idempotency : list IdempotencyRow;
  t_acks : list AckOperationRow;
  t_imports : list ImportOperationRow;
  t_outbox : list OutboxRow
}.

Definition empty_tables : Tables := mkTables [] [] [] [] [] [] [].

Abbreviation Tx A := (StM Tables A MessageStoreError).

(** A transaction that fails leaves the tables as they were. *)
Definition transact {A} (body : Tx A) : Tx A :=
  fun db => match body db with (Ok a, db') => (Ok a, db') | (Err e, _) => (Err e, db) end.

Fixpoint st_for_each {A} (f : A -> Tx unit) (l : list A) : Tx unit :=
  match l with [] => st_ret tt | x :: l' => f x ;! st_for_each f l' end.

Definition unique_violation : MessageStoreError := MsgDatabase "unique constraint violated".
Definition foreign_key_violation : MessageStoreError :=
  MsgDatabase "foreign key constraint violated".
Definition check_violation : MessageStoreError := MsgDatabase "check constraint violated".

Definition message_is (ws id : string) (m : MessageRow) : bool :=
  (mr_workspace_id m =s ws) && (mr_message_id m =s id).
Definition message_exists (db : Tables) (ws id : string) : bool :=
  existsb (message_is ws id) (t_messages db).
Definition delivery_of (ws id : string) (d : DeliveryRow) : bool :=
  (dr_workspace_id d =s ws) && (dr_message_id d =s id).
Definition context_of (ws id : string) (x : ContextRow) : bool :=
  (xr_workspace_id x =s ws) && (xr_message_id x =s id).

Definition insert_message (row : MessageRow) : Tx unit := fun db =>
  if message_exists db (mr_workspace_id row) (mr_message_id row)
  then (Err unique_violation, db)
  else (Ok tt, mkTables (t_messages db ++ [row]) (t_deliveries db) (t_contexts db)
                 (t_idempotency db) (t_acks db) (t_imports db) (t_outbox db)).

Definition delivery_clash (row d : DeliveryRow) : bool :=
  (dr_delivery_id d =s dr_delivery_id row)
  || delivery_of (dr_workspace_id row) (dr_message_id row) d
     && ((dr_position d =? dr_position row)
         || (dr_recipient_kind d =s dr_recipient_kind row)
            && (dr_recipient_id d =s dr_recipient_id row)
            && (dr_recipient_endpoint d =s dr_recipient_endpoint row)).

Definition insert_delivery (row : DeliveryRow) : Tx unit := fun db =>
  if dr_position row <? 0 then (Err check_violation, db)
  else if existsb (delivery_clash row) (t_deliveries db) then (Err unique_violation, db)
  else if message_exists db (dr_workspace_id row) (dr_message_id row)
  then (Ok tt, mkTables (t_messages db) (t_deliveries db ++ [row]) (t_contexts db)
                 (t_idempotency db) (t_acks db) (t_imports db) (t_outbox db))
  else (Err foreign_key_violation, db).

Definition context_clash (row x : ContextRow) : bool :=
  context_of (xr_workspace_id row) (xr_message_id row) x
  && ((xr_context_message_id x =s xr_context_message_id row) || (xr_position x =? xr_position row)).

Definition insert_context (row : ContextRow) : Tx unit := fun db =>
  if xr_position row <? 0 then (Err check_violation, db)
  else if existsb (context_clash row) (t_contexts db) then (Err unique_violation, db)
  else if message_exists db (xr_workspace_id row) (xr_message_id row)
          && message_exists db (xr_workspace_id row) (xr_context_message_id row)
  then (Ok tt, mkTables (t_messages db) (t_deliveries db) (t_contexts db ++ [row])
                 (t_idempotency db) (t_acks db) (t_imports db) (t_outbox db))
  else (Err foreign_key_violation, db).

Definition idempotency_is (ws kind id key : string) (r : IdempotencyRow) : bool :=
  (id_workspace_id r =s ws) && (id_sender_kind r =s kind) && (id_sender_id r =s id)
  && (id_key r =s key).

Definition insert_idempotency (row : IdempotencyRow) : Tx unit := fun db =>
  if existsb (idempotency_is (id_workspace_id row) (id_sender_kind row) (id_sender_id row)
                (id_key row)) (t_idempotency db)
  then (Err unique_violation, db)
  else if message_exists db (id_workspace_id row) (id_message_id row)
  then (Ok tt, mkTables (t_messages db) (t_deliveries db) (t_contexts db)
                 (t_idempotency db ++ [row]) (t_acks db) (t_imports db) (t_outbox db))
  else (Err foreign_key_violation, db).

Definition ack_operation_is (ws kind id operation : string) (r : AckOperationRow) : bool :=
  (ao_workspace_id r =s ws) && (ao_principal_kind r =s kind) && (ao_principal_id r =s id)
  && (ao_operation_id r =s operation).

Definition insert_ack_operation (row : AckOperationRow) : Tx unit := fun db =>
  if existsb (ack_operation_is (ao_workspace_id row) (ao_principal_kind row)
                (ao_principal_id row) (ao_operation_id row)) (t_acks db)
  then (Err unique_violation, db)
  else (Ok tt, mkTables (t_messages db) (t_deliveries db) (t_contexts db) (t_idempotency db)
                 (t_acks db ++ [row]) (t_imports db) (t_outbox db)).

Definition import_operation_is (ws operation : string) (r : ImportOperationRow) : bool :=
  (io_workspace_id r =s ws) && (io_operation_id r =s operation).

Definition insert_import_operation (row : ImportOperationRow) : Tx unit := fun db =>
  if existsb (import_operation_is (io_workspace_id row) (io_operation_id row)) (t_imports db)
  then (Err unique_violation, db)
  else (Ok tt, mkTables (t_messages db) (t_deliveries db) (t_contexts db) (t_idempotency db)
                 (t_acks db) (t_imports db ++ [row]) (t_outbox db)).

Definition insert_outbox_row (row : OutboxRow) : Tx unit := fun db =>
  if existsb (fun r => ob_event_id r =s ob_event_id row) (t_outbox db)
  then (Err unique_violation, db)
  else (Ok tt, mkTables (t_messages db) (t_deliveries db) (t_contexts db) (t_idempotency db)
                 (t_acks db) (t_imports db) (t_outbox db ++ [row])).

(** [UPDATE core_message_deliveries SET acknowledged_at = $1 WHERE workspace_id = $2 AND
    delivery_id = $3] *)
Definition delivery_is (ws id : string) (d : DeliveryRow) : bool :=
  (dr_workspace_id d =s ws) && (dr_delivery_id d =s id).
Definition mark_row (at_ : string) (d : DeliveryRow) : DeliveryRow :=
  mkDeliveryRow (dr_delivery_id d) (dr_message_id d) (dr_workspace_id d) (dr_recipient_kind d)
    (dr_recipient_id d) (dr_recipient_name d) (dr_recipient_role d) (dr_position d)
    (dr_created_at d) (Some at_) (dr_expires_at d) (dr_recipient_path d)
    (dr_recipient_endpoint d).
Definition mark_acknowledged (ws id at_ : string) : Tx unit := fun db =>
  (Ok tt, mkTables (t_messages db)
            ((fun d => if delivery_is ws id d then mark_row at_ d else d) <$> t_deliveries db)
            (t_contexts db) (t_idempotency db) (t_acks db) (t_imports db) (t_outbox db)).

Definition mark_dispatched (event_id at_ : string) : Tx unit := fun db =>
  (Ok tt, mkTables (t_messages db) (t_deliveries db) (t_contexts db) (t_idempotency db)
            (t_acks db) (t_imports db)
            ((fun r => if ob_event_id r =s event_id
                       then mkOutboxRow (ob_event_id r) (ob_workspace_id r) (ob_action r)
                              (ob_envelope r) (ob_created_at r) (Some at_) (ob_attempts r + 1)
                       else r) <$> t_outbox db)).

Section store.
Context {Env : MessageEnv}.

(** ** Codecs *)

Definition request_hash (encoded : option string) : MResult string :=
  match encoded with Some bytes => Ok (sha256_hex bytes) | None => Err MsgCorrupt end.

Definition parse_timestamp (value : string) : MResult DateTime := ok_or (parse_rfc3339 value) MsgCorrupt.

Definition parse_optional_timestamp (value : option string) : MResult (option DateTime) :=
  match value with
  | Some v => let? t := parse_timestamp v in Ok (Some t)
  | None => Ok None
  end.

Definition newline : string := String "010" EmptyString.

Definition encode_cursor (created_at : DateTime) (message_id : string) : string :=
  base64_encode (rfc3339 created_at +:+ newline +:+ message_id).

Definition cursor_invalid : MessageStoreError :=
  Contract "message_cursor_invalid" "message cursor is invalid".

Definition decode_cursor (value : string) : MResult (DateTime * string) :=
  let? decoded := ok_or (base64_decode value) cursor_invalid in
  let? decoded := (if valid_utf8 decoded then Ok decoded else Err cursor_invalid) in
  let? parts := ok_or (split_once "010" decoded) cursor_invalid in
  if is_empty parts.2 || (256 <? str_len parts.2) then Err cursor_invalid
  else let? time := ok_or (parse_rfc3339 parts.1) cursor_invalid in Ok (time, parts.2).

Definition decode_optional_cursor (value : option string) : MResult (option (DateTime * string)) :=
  match value with
  | Some v => let? c := decode_cursor v in Ok (Some c)
  | None => Ok None
  end.

Definition kind_from_str (kind : string) : option MessagePrincipalKind :=
  if kind =s "agent" then Some MKAgent
  else if kind =s "human" then Some MKHuman
  else if kind =s "machine" then Some MKMachine
  else if kind =s "service" then Some MKService
  else None.

Definition principal_from_columns (kind id name : string) (role path app_endpoint : option string)
  : MResult MessagePrincipal :=
  let? k := ok_or (kind_from_str kind) MsgCorrupt in
  Ok (mkMessagePrincipal (opt_filter (fun key => negb (is_empty key)) app_endpoint)
        path k id name role).

Definition row_recipient (row : DeliveryRow) : MResult MessagePrincipal :=
  principal_from_columns (dr_recipient_kind row) (dr_recipient_id row) (dr_recipient_name row)
    (dr_recipient_role row) (dr_recipient_path row) (Some (dr_recipient_endpoint row)).

Definition legacy_delivery_id (workspace_id message_id : string) (recipient : MessagePrincipal)
  : string :=
  let nul := String "000" EmptyString in
  "dlv_legacy_" +:+ sha256_hex (workspace_id +:+ nul +:+ message_id +:+ nul
                                +:+ kind_as_str (mp_kind recipient) +:+ nul +:+ mp_id recipient).

(** ** Reads *)

(** [ORDER BY position] *)
Definition position_le (a b : DeliveryRow) : Prop := dr_position a <= dr_position b.
#[export] Instance position_le_dec : RelDecision position_le.
Proof. intros a b. unfold position_le. apply _. Defined.
Definition context_position_le (a b : ContextRow) : Prop := xr_position a <= xr_position b.
#[export] Instance context_position_le_dec : RelDecision context_position_le.
Proof. intros a b. unfold context_position_le. apply _. Defined.

Definition message_deliveries (db : Tables) (ws id : string) : list DeliveryRow :=
  merge_sort position_le (List.filter (delivery_of ws id) (t_deliveries db)).
Definition message_contexts (db : Tables) (ws id : string) : list ContextRow :=
  merge_sort context_position_le (List.filter (context_of ws id) (t_contexts db)).

Definition load_source (value : option string) : MResult (option MessageExternalSource) :=
  match value with
  | Some v => let? s := ok_or (source_from_value v) MsgCorrupt in Ok (Some s)
  | None => Ok None
  end.

Definition load_message (db : Tables) (workspace_id message_id : string) : MResult CoreMessage :=
  let? row := ok_or (List.find (message_is workspace_id message_id) (t_messages db))
                (Contract "message_not_found" "message does not exist") in
  let? external_source := load_source (mr_external_source row) in
  let? sender := principal_from_columns (mr_sender_kind row) (mr_sender_id row)
                   (mr_sender_name row) (mr_sender_role row) (mr_sender_path row)
                   (mr_sender_endpoint row) in
  let? recipients := try_collect row_recipient (message_deliveries db workspace_id message_id) in
  let? created_at := parse_timestamp (mr_created_at row) in
  let? expires_at := parse_optional_timestamp (mr_expires_at row) in
  Ok (mkCoreMessage MESSAGE_SCHEMA_VERSION (mr_message_id row) (mr_workspace_id row) sender
        recipients (xr_context_message_id <$> message_contexts db workspace_id message_id)
        (mr_body row) created_at expires_at (mr_correlation_id row) (mr_trace_id row)
        external_source).

Definition delivery_ids (db : Tables) (workspace_id message_id : string) : list string :=
  dr_delivery_id <$> message_deliveries db workspace_id message_id.

Definition delivery_from_row (row : DeliveryRow) (message : CoreMessage) : MResult MessageDelivery :=
  let? recipient := row_recipient row in
  let? created_at := parse_timestamp (dr_created_at row) in
  let? acknowledged_at := parse_optional_timestamp (dr_acknowledged_at row) in
  let? expires_at := parse_optional_timestamp (dr_expires_at row) in
  Ok (mkMessageDelivery (dr_delivery_id row) message recipient created_at acknowledged_at expires_at).

(** The row's address is the principal: [recipient_kind = $3 AND recipient_id = $4]. *)
Definition addressed_to (kind id : string) (d : DeliveryRow) : bool :=
  (dr_recipient_kind d =s kind) && (dr_recipient_id d =s id).
Definition sent_by (kind id : string) (m : MessageRow) : bool :=
  (mr_sender_kind m =s kind) && (mr_sender_id m =s id).
Definition participates (db : Tables) (kind id : string) (m : MessageRow) : bool :=
  sent_by kind id m
  || existsb (fun d => delivery_of (mr_workspace_id m) (mr_message_id m) d && addressed_to kind id d)
       (t_deliveries db).

(** The [EXISTS] query of [ensure_visible] and of the context check of a send. *)
Definition message_visible (db : Tables) (ws message_id kind id : string) : bool :=
  existsb (fun m => message_is ws message_id m && participates db kind id m) (t_messages db).

Definition ensure_visible (db : Tables) (workspace_id : string) (principal : MessagePrincipal)
    (message_id : string) : MCheck :=
  if message_visible db workspace_id message_id (kind_as_str (mp_kind principal)) (mp_id principal)
  then Ok tt
  else Err (Contract "message_not_found" "message does not exist or is not visible").

Definition get (db : Tables) (workspace_id : string) (principal : MessagePrincipal)
    (message_id : string) : MResult CoreMessage :=
  ensure_visible db workspace_id principal message_id ;? load_message db workspace_id message_id.

(** [created_at] and an identifier, ordered as the database orders the pair. *)
Definition Key : Type := string * string.
Definition key_le (a b : Key) : Prop := (text_le a.1 b.1 /\ a.1 <> b.1) \/ (a.1 = b.1 /\ text_le a.2 b.2).
#[export] Instance key_le_dec : RelDecision key_le.
Proof. intros a b. unfold key_le. apply _. Defined.
Definition key_lt (a b : Key) : bool := bool_decide (key_le a b /\ a <> b).

Definition delivery_key (d : DeliveryRow) : Key := (dr_created_at d, dr_delivery_id d).
Definition message_key (m : MessageRow) : Key := (mr_created_at m, mr_message_id m).

Definition delivery_key_le (a b : DeliveryRow) : Prop := key_le (delivery_key a) (delivery_key b).
#[export] Instance delivery_key_le_dec : RelDecision delivery_key_le.
Proof. intros a b. apply key_le_dec. Defined.
Definition message_key_ge (a b : MessageRow) : Prop := key_le (message_key b) (message_key a).
#[export] Instance message_key_ge_dec : RelDecision message_key_ge.
Proof. intros a b. apply key_le_dec. Defined.

Definition text_gt (a b : string) : bool := bool_decide (text_le b a /\ a <> b).

(** An unacknowledged delivery of the principal that has not expired, in its endpoint's scope. *)
Definition pending_for (ws : string) (principal : MessagePrincipal) (now : string) (d : DeliveryRow)
  : bool :=
  (dr_workspace_id d =s ws) && addressed_to (kind_as_str (mp_kind principal)) (mp_id principal) d
  && negb (is_some (dr_acknowledged_at d))
  && is_none_or (dr_expires_at d) (fun e => text_gt e now)
  && is_none_or (mp_app_endpoint principal) (fun e => dr_recipient_endpoint d =s e).

Definition unacknowledged_count (db : Tables) (workspace_id : string) (principal : MessagePrincipal)
    (now : DateTime) : Z :=
  Z.of_nat (length (List.filter (pending_for workspace_id principal (rfc3339 now)) (t_deliveries db))).

Definition cursor_key (c : DateTime * string) : Key := (rfc3339 c.1, c.2).

(** The rows of [receive_now]'s query before its LIMIT. *)
Definition mailbox (db : Tables) (ws : string) (principal : MessagePrincipal) (now : string)
    (after : option Key) : list DeliveryRow :=
  merge_sort delivery_key_le
    (List.filter (fun d => pending_for ws principal now d
                           && is_none_or after (fun k => key_lt k (delivery_key d)))
       (t_deliveries db)).

(** [now] and [counted_at] are the two clock readings of the call. *)
Definition receive_now (db : Tables) (workspace_id : string) (principal : MessagePrincipal)
    (limit : Z) (after : option (DateTime * string)) (now counted_at : DateTime)
  : MResult ReceiveMessagesResponse :=
  let rows := take (Z.to_nat limit)
                (mailbox db workspace_id principal (rfc3339 now) (cursor_key <$> after)) in
  let? deliveries := try_collect (fun row =>
    let? message := load_message db workspace_id (dr_message_id row) in
    delivery_from_row row message) rows in
  Ok (mkReceiveMessagesResponse
        (if is_some (mp_app_endpoint principal) || is_some after
         then (fun d => encode_cursor (md_created_at d) (md_delivery_id d)) <$> last deliveries
         else None)
        deliveries (unacknowledged_count db workspace_id principal counted_at)).

(** [db'] are the tables when the wait for a change ends, with the clock readings then. *)
Definition receive_after (db db' : Tables) (workspace_id : string) (principal : MessagePrincipal)
    (limit wait_milliseconds : Z) (after : option string) (now counted_at now' counted_at' : DateTime)
  : MResult ReceiveMessagesResponse :=
  validate_page_size limit ;?
  validate_endpoint_scope (mp_app_endpoint principal) ;?
  let? after := decode_optional_cursor after in
  (if MAX_MESSAGE_WAIT_MILLISECONDS <? wait_milliseconds
   then Err (Contract "message_wait_invalid" "message wait must be at most 30000 milliseconds")
   else Ok tt) ;?
  let? first := receive_now db workspace_id principal limit after now counted_at in
  if negb (Nat.eqb (length (rc_deliveries first)) 0) || (wait_milliseconds =? 0) then Ok first
  else receive_now db' workspace_id principal limit after now' counted_at'.

(** The App conversation filter: [address] is an owner and an endpoint. *)
Definition in_conversation (db : Tables) (address : option (string * string)) (m : MessageRow) : bool :=
  is_none_or address (fun '(owner, endpoint) =>
    (sent_by "agent" owner m && bool_decide (mr_sender_endpoint m = Some endpoint))
    || existsb (fun d => delivery_of (mr_workspace_id m) (mr_message_id m) d
                         && addressed_to "agent" owner d && (dr_recipient_endpoint d =s endpoint))
         (t_deliveries db)).

(** The rows of [list_app_conversation]'s query before its LIMIT. *)
Definition conversation (db : Tables) (ws : string) (principal : MessagePrincipal)
    (address : option (string * string)) (before : option Key) : list MessageRow :=
  merge_sort message_key_ge
    (List.filter (fun m => (mr_workspace_id m =s ws)
                           && participates db (kind_as_str (mp_kind principal)) (mp_id principal) m
                           && in_conversation db address m
                           && is_none_or before (fun k => key_lt (message_key m) k))
       (t_messages db)).

(** The [expect] on the stored timestamp is an error here; it cannot fail, because
    [load_message] has parsed the same text. *)
Definition list_app_conversation (db : Tables) (workspace_id : string) (principal : MessagePrincipal)
    (before : option string) (limit : Z) (address : option (string * string)) (counted_at : DateTime)
  : MResult MessagePage :=
  validate_page_size limit ;?
  let? cursor := decode_optional_cursor before in
  let rows := take (Z.to_nat (limit + 1))
                (conversation db workspace_id principal address (cursor_key <$> cursor)) in
  let has_more := limit <? Z.of_nat (length rows) in
  let page_rows := take (Z.to_nat limit) rows in
  let? messages := try_collect (fun row => load_message db workspace_id (mr_message_id row)) page_rows in
  let? next_cursor :=
    match (if has_more then last page_rows else None) with
    | Some row => let? t := parse_timestamp (mr_created_at row) in
                  Ok (Some (encode_cursor t (mr_message_id row)))
    | None => Ok None
    end in
  Ok (mkMessagePage messages next_cursor (unacknowledged_count db workspace_id principal counted_at)).

Definition list_messages (db : Tables) (workspace_id : string) (principal : MessagePrincipal)
    (before : option string) (limit : Z) (counted_at : DateTime) : MResult MessagePage :=
  list_app_conversation db workspace_id principal before limit None counted_at.

(** ** Sending *)

Definition insert_outbox (envelope : DomainEventEnvelope) : Tx unit :=
  match envelope_to_value envelope with
  | None => st_throw MsgCorrupt
  | Some value =>
      insert_outbox_row (mkOutboxRow (ev_event_id envelope) (ev_workspace_id envelope)
        (ev_action envelope) value (rfc3339 (ev_occurred_at envelope)) None 0)
  end.

(** The recipients as the fingerprint of a request records them. *)
Definition fingerprint_recipient (subtree_addressed : bool) (r : MessagePrincipal) : MessagePrincipal :=
  if subtree_addressed
  then mkMessagePrincipal (mp_app_endpoint r) None (mp_kind r) (mp_id r) EmptyString None
  else mkMessagePrincipal (mp_app_endpoint r) None (mp_kind r) (mp_id r) (mp_name r) (mp_role r).

Definition send_fingerprint (sender : MessagePrincipal) (recipients : list MessagePrincipal)
    (request : SendMessageRequest) : SendFingerprint :=
  let subtree_addressed := is_some (mp_app_endpoint sender)
                           || existsb (fun r => is_some (mp_app_endpoint r)) recipients in
  mkSendFingerprint (mp_app_endpoint sender) (fingerprint_recipient subtree_addressed <$> recipients)
    (sr_context_ids request) (sr_body request) (sr_expires_at request)
    (sr_correlation_id request) (sr_trace_id request) (sr_external_source request).

Definition find_idempotency (db : Tables) (ws : string) (sender : MessagePrincipal) (key : string)
  : option IdempotencyRow :=
  List.find (idempotency_is ws (kind_as_str (mp_kind sender)) (mp_id sender) key) (t_idempotency db).

(** The early return of a send whose key was used before. *)
Definition replay_send (ws : string) (sender : MessagePrincipal) (key : option string)
    (hash : string) : Tx (option SendMessageResponse) := fun db =>
  match (k ← key; find_idempotency db ws sender k) with
  | None => (Ok None, db)
  | Some row =>
      if negb (id_request_hash row =s hash)
      then (Err (Contract "message_idempotency_conflict"
                   "idempotency key was already used for a different message"), db)
      else
        ((let? message := load_message db ws (id_message_id row) in
          Ok (Some (mkSendMessageResponse message (delivery_ids db ws (id_message_id row)) true))), db)
  end.

Definition check_contexts (ws : string) (sender : MessagePrincipal) (context_ids : list string)
  : Tx unit := fun db =>
  (try_for_each (fun context_id =>
     if message_visible db ws context_id (kind_as_str (mp_kind sender)) (mp_id sender) then Ok tt
     else Err (Contract "message_context_not_found"
                 "a context message does not exist or is not visible")) context_ids, db).

Definition store_source (source : option MessageExternalSource) : MResult (option string) :=
  match source with
  | Some s => let? v := ok_or (source_to_value s) MsgCorrupt in Ok (Some v)
  | None => Ok None
  end.

Definition sent_message_id (fresh : nat -> string) : string := "msg_" +:+ fresh 0%nat.
Definition sent_delivery_id (fresh : nat -> string) (position : nat) : string :=
  "dlv_" +:+ fresh (S position).

Definition sent_delivery_row (ws : string) (request : SendMessageRequest) (now : DateTime)
    (fresh : nat -> string) (position : nat) (r : MessagePrincipal) : DeliveryRow :=
  mkDeliveryRow (sent_delivery_id fresh position) (sent_message_id fresh) ws
    (kind_as_str (mp_kind r)) (mp_id r) (mp_name r) (mp_role r) (Z.of_nat position)
    (rfc3339 now) None (rfc3339 <$> sr_expires_at request) (mp_path r)
    (default EmptyString (mp_app_endpoint r)).

Definition context_row (ws message_id : string) (position : nat) (context_id : string) : ContextRow :=
  mkContextRow message_id ws context_id (Z.of_nat position).

Definition created_event (ws : string) (sender : MessagePrincipal)
    (recipients : list MessagePrincipal) (request : SendMessageRequest)
    (policy_revision : option Z) (now : DateTime) (fresh : nat -> string) : DomainEventEnvelope :=
  mkDomainEventEnvelope ("evt_" +:+ fresh (S (length recipients))) DOMAIN_EVENT_SCHEMA_VERSION None ws
    (mkDomainEventActor (kind_as_str (mp_kind sender)) (Some (mp_id sender))) "message.created"
    (mkDomainEventResource "message" (sent_message_id fresh)) now (sr_trace_id request) None
    (sr_correlation_id request) policy_revision
    (PayloadCreated (sent_message_id fresh) (imap (fun i _ => sent_delivery_id fresh i) recipients)
       (sr_context_ids request) (mp_id <$> recipients)).

(** The inserts of a send whose key is new. *)
Definition create_message (ws : string) (sender : MessagePrincipal)
    (recipients : list MessagePrincipal) (request : SendMessageRequest)
    (policy_revision : option Z) (hash : string) (now : DateTime) (fresh : nat -> string)
  : Tx SendMessageResponse :=
  let message_id := sent_message_id fresh in
  let! source := st_lift (store_source (sr_external_source request)) in
  insert_message (mkMessageRow message_id ws (kind_as_str (mp_kind sender)) (mp_id sender)
    (mp_name sender) (mp_role sender) (sr_body request) (rfc3339 now)
    (rfc3339 <$> sr_expires_at request) (sr_correlation_id request) (sr_trace_id request)
    source (mp_path sender) (mp_app_endpoint sender)) ;!
  st_for_each insert_delivery (imap (sent_delivery_row ws request now fresh) recipients) ;!
  st_for_each insert_context (imap (context_row ws message_id) (sr_context_ids request)) ;!
  match sr_idempotency_key request with
  | Some key => insert_idempotency (mkIdempotencyRow ws (kind_as_str (mp_kind sender))
                  (mp_id sender) key hash message_id (rfc3339 now))
  | None => st_ret tt
  end ;!
  insert_outbox (created_event ws sender recipients request policy_revision now fresh) ;!
  let! message := (fun db => (load_message db ws message_id, db)) in
  st_ret (mkSendMessageResponse message (imap (fun i _ => sent_delivery_id fresh i) recipients) false).

(** [checked_at] is the clock reading of [validate_send], [now] that of the transaction. *)
Definition send_with_policy_revision (workspace_id : string) (sender : MessagePrincipal)
    (recipients : list MessagePrincipal) (request : SendMessageRequest)
    (policy_revision : option Z) (checked_at now : DateTime) (fresh : nat -> string)
  : Tx SendMessageResponse :=
  st_lift (validate_workspace_and_principal workspace_id sender) ;!
  st_lift (validate_send checked_at recipients request) ;!
  let! hash := st_lift (request_hash (fingerprint_vec (send_fingerprint sender recipients request))) in
  transact (
    let! replay := replay_send workspace_id sender (sr_idempotency_key request) hash in
    match replay with
    | Some response => st_ret response
    | None =>
        check_contexts workspace_id sender (sr_context_ids request) ;!
        create_message workspace_id sender recipients request policy_revision hash now fresh
    end).

(** ** Acknowledgement *)

Definition acknowledged_event (ws : string) (principal : MessagePrincipal)
    (request : AcknowledgeMessagesRequest) (policy_revision : option Z) (now : DateTime)
    (event_id delivery_id message_id : string) : DomainEventEnvelope :=
  mkDomainEventEnvelope event_id DOMAIN_EVENT_SCHEMA_VERSION None ws
    (mkDomainEventActor (kind_as_str (mp_kind principal)) (Some (mp_id principal)))
    "message.acknowledged" (mkDomainEventResource "message.delivery" delivery_id) now None None
    (Some (ar_operation_id request)) policy_revision (PayloadAcknowledged delivery_id message_id).

(** The row the principal owns, in the request's endpoint scope. *)
Definition owned_delivery (ws : string) (principal : MessagePrincipal) (endpoint : option string)
    (delivery_id : string) (d : DeliveryRow) : bool :=
  delivery_is ws delivery_id d
  && addressed_to (kind_as_str (mp_kind principal)) (mp_id principal) d
  && is_none_or endpoint (fun e => dr_recipient_endpoint d =s e).

(** One turn of the loop: the two lists of identifiers and the number of events drawn. *)
Definition acknowledge_one (ws : string) (principal : MessagePrincipal)
    (request : AcknowledgeMessagesRequest) (policy_revision : option Z) (now : DateTime)
    (fresh : nat -> string) (acc : list string * list string) (delivery_id : string)
  : Tx (list string * list string) := fun db =>
  match List.find (owned_delivery ws principal (ar_app_endpoint request) delivery_id) (t_deliveries db) with
  | None => (Err (Contract "message_delivery_not_found"
                    "a delivery does not exist or is not owned by this principal"), db)
  | Some row =>
      if is_some (dr_acknowledged_at row) then (Ok (acc.1, acc.2 ++ [delivery_id]), db)
      else
        (mark_acknowledged ws delivery_id (rfc3339 now) ;!
         insert_outbox (acknowledged_event ws principal request policy_revision now
           ("evt_" +:+ fresh (length acc.1)) delivery_id (dr_message_id row)) ;!
         st_ret (acc.1 ++ [delivery_id], acc.2)) db
  end.

Fixpoint st_fold {A B} (f : B -> A -> Tx B) (acc : B) (l : list A) : Tx B :=
  match l with [] => st_ret acc | x :: l' => let! acc' := f acc x in st_fold f acc' l' end.

Definition find_ack (db : Tables) (ws : string) (principal : MessagePrincipal) (operation : string)
  : option AckOperationRow :=
  List.find (ack_operation_is ws (kind_as_str (mp_kind principal)) (mp_id principal) operation) (t_acks db).

Definition ack_hash (request : AcknowledgeMessagesRequest) : MResult string :=
  match ar_app_endpoint request with
  | Some endpoint => request_hash (scoped_ids_vec (endpoint, ar_delivery_ids request))
  | None => request_hash (ids_vec (ar_delivery_ids request))
  end.

Definition acknowledge_new (ws : string) (principal : MessagePrincipal)
    (request : AcknowledgeMessagesRequest) (policy_revision : option Z) (hash : string)
    (now : DateTime) (fresh : nat -> string) : Tx AcknowledgeMessagesResponse :=
  let! lists := st_fold (acknowledge_one ws principal request policy_revision now fresh) ([], [])
                  (ar_delivery_ids request) in
  let response := mkAcknowledgeMessagesResponse lists.1 lists.2 in
  let! value := st_lift (ok_or (ack_to_value response) MsgCorrupt) in
  insert_ack_operation (mkAckOperationRow ws (kind_as_str (mp_kind principal)) (mp_id principal)
    (ar_operation_id request) hash value (rfc3339 now)) ;!
  st_ret response.

Definition acknowledge_with_policy_revision (workspace_id : string) (principal : MessagePrincipal)
    (request : AcknowledgeMessagesRequest) (policy_revision : option Z) (now : DateTime)
    (fresh : nat -> string) : Tx AcknowledgeMessagesResponse :=
  st_lift (validate_ack request) ;!
  st_lift (validate_endpoint_scope (ar_app_endpoint request)) ;!
  let! hash := st_lift (ack_hash request) in
  transact (fun db =>
    match find_ack db workspace_id principal (ar_operation_id request) with
    | Some row =>
        if negb (ao_request_hash row =s hash)
        then (Err (Contract "message_ack_idempotency_conflict"
                     "acknowledgement operation ID was used for a different delivery set"), db)
        else (ok_or (ack_from_value (ao_response row)) MsgCorrupt, db)
    | None => acknowledge_new workspace_id principal request policy_revision hash now fresh db
    end).

(** ** Import of legacy mail *)

Definition legacy_position_le (a b : LegacyMailRecipient) : Prop := lr_position a <= lr_position b.
#[export] Instance legacy_position_le_dec : RelDecision legacy_position_le.
Proof. intros a b. unfold legacy_position_le. apply _. Defined.

Definition legacy_recipient_matches (row : DeliveryRow) (expected : LegacyMailRecipient)
  : MResult bool :=
  let? principal := row_recipient row in
  let? acknowledged_at := parse_optional_timestamp (dr_acknowledged_at row) in
  Ok (bool_decide (principal = lr_principal expected) && (dr_position row =? lr_position expected)
      && bool_decide (acknowledged_at = lr_read_at expected)).

(** The loop over the zipped rows: the first mismatch ends it. *)
Fixpoint legacy_recipients_match (rows : list DeliveryRow) (expected : list LegacyMailRecipient)
  : MResult bool :=
  match rows, expected with
  | row :: rows', e :: expected' =>
      let? same := legacy_recipient_matches row e in
      if same then legacy_recipients_match rows' expected' else Ok false
  | _, _ => Ok true
  end.

Definition legacy_message_matches (db : Tables) (expected : LegacyMailMessage) : MResult bool :=
  let? actual := load_message db (lm_workspace_id expected) (lm_message_id expected) in
  let expected_recipients := merge_sort legacy_position_le (lm_recipients expected) in
  if negb (cm_workspace_id actual =s lm_workspace_id expected)
     || negb (cm_message_id actual =s lm_message_id expected)
     || negb (bool_decide (cm_sender actual = lm_sender expected))
     || negb (bool_decide (cm_recipients actual = lr_principal <$> expected_recipients))
     || negb (bool_decide (cm_context_ids actual = lm_context_ids expected))
     || negb (cm_body actual =s lm_body expected)
     || negb (cm_created_at actual =? lm_created_at expected)
     || is_some (cm_expires_at actual) || is_some (cm_correlation_id actual)
     || is_some (cm_trace_id actual) || is_some (cm_external_source actual)
  then Ok false
  else
    let rows := message_deliveries db (lm_workspace_id expected) (lm_message_id expected) in
    if negb (Nat.eqb (length rows) (length expected_recipients)) then Ok false
    else legacy_recipients_match rows expected_recipients.

Definition legacy_delivery_row (m : LegacyMailMessage) (r : LegacyMailRecipient) : DeliveryRow :=
  mkDeliveryRow (legacy_delivery_id (lm_workspace_id m) (lm_message_id m) (lr_principal r))
    (lm_message_id m) (lm_workspace_id m) (kind_as_str (mp_kind (lr_principal r)))
    (mp_id (lr_principal r)) (mp_name (lr_principal r)) (mp_role (lr_principal r)) (lr_position r)
    (rfc3339 (lm_created_at m)) (rfc3339 <$> lr_read_at r) None (mp_path (lr_principal r)) EmptyString.

Definition insert_legacy_message (m : LegacyMailMessage) : Tx unit :=
  insert_message (mkMessageRow (lm_message_id m) (lm_workspace_id m)
    (kind_as_str (mp_kind (lm_sender m))) (mp_id (lm_sender m)) (mp_name (lm_sender m))
    (mp_role (lm_sender m)) (lm_body m) (rfc3339 (lm_created_at m)) None None None None
    (mp_path (lm_sender m)) None) ;!
  st_for_each insert_delivery (legacy_delivery_row m <$> lm_recipients m) ;!
  st_for_each insert_context
    (imap (context_row (lm_workspace_id m) (lm_message_id m)) (lm_context_ids m)).

Record ImportProgress : Type := mkImportProgress {
  ip_imported : Z; ip_existing : Z; ip_seen : list string; ip_message_ids : list string
}.

Definition import_one (ws : string) (p : ImportProgress) (m : LegacyMailMessage)
  : Tx ImportProgress := fun db =>
  match validate_legacy_message ws m with
  | Err e => (Err e, db)
  | Ok _ =>
    if bool_decide (lm_message_id m ∈ ip_seen p)
    then (Err (Contract "message_import_duplicate"
                 "import batch contains a duplicate message ID"), db)
    else if message_exists db ws (lm_message_id m) then
      match legacy_message_matches db m with
      | Err e => (Err e, db)
      | Ok false => (Err (Contract "message_import_conflict"
                            "an imported Message ID already exists with different data"), db)
      | Ok true => (Ok (mkImportProgress (ip_imported p) (ip_existing p + 1)
                          (lm_message_id m :: ip_seen p) (ip_message_ids p ++ [lm_message_id m])), db)
      end
    else if negb (forallb (fun id => message_exists db ws id) (lm_context_ids m))
    then (Err (Contract "message_import_not_topological"
                 "legacy messages must be imported in topological order"), db)
    else
      (insert_legacy_message m ;!
       st_ret (mkImportProgress (ip_imported p + 1) (ip_existing p) (lm_message_id m :: ip_seen p)
                 (ip_message_ids p ++ [lm_message_id m]))) db
  end.

Definition imported_event (ws : string) (importer : MessagePrincipal) (operation_id event_id : string)
    (now : DateTime) (imported existing : Z) : DomainEventEnvelope :=
  mkDomainEventEnvelope event_id DOMAIN_EVENT_SCHEMA_VERSION None ws
    (mkDomainEventActor (kind_as_str (mp_kind importer)) (Some (mp_id importer))) "message.imported"
    (mkDomainEventResource "message.import" operation_id) now None None (Some operation_id) None
    (PayloadImported imported existing).

Definition find_import (db : Tables) (ws operation : string) : option ImportOperationRow :=
  List.find (import_operation_is ws operation) (t_imports db).

Definition import_new (ws : string) (importer : MessagePrincipal) (request : ImportMessagesRequest)
    (hash : string) (now : DateTime) (fresh : nat -> string) : Tx ImportMessagesResponse :=
  let! p := st_fold (import_one ws) (mkImportProgress 0 0 [] []) (ir_messages request) in
  let response := mkImportMessagesResponse (ip_imported p) (ip_existing p) (ip_message_ids p) in
  let! value := st_lift (ok_or (import_to_value response) MsgCorrupt) in
  insert_import_operation (mkImportOperationRow ws (ir_operation_id request) hash value
    (rfc3339 now) (kind_as_str (mp_kind importer)) (mp_id importer)) ;!
  insert_outbox (imported_event ws importer (ir_operation_id request) ("evt_" +:+ fresh 0%nat) now
    (ip_imported p) (ip_existing p)) ;!
  st_ret response.

Definition import_legacy_mail (workspace_id : string) (importer : MessagePrincipal)
    (request : ImportMessagesRequest) (now : DateTime) (fresh : nat -> string)
  : Tx ImportMessagesResponse :=
  st_lift (validate_import workspace_id request) ;!
  let! hash := st_lift (request_hash (legacy_vec (ir_messages request))) in
  transact (fun db =>
    match find_import db workspace_id (ir_operation_id request) with
    | Some row =>
        if negb (io_request_hash row =s hash)
        then (Err (Contract "message_import_idempotency_conflict"
                     "import operation ID was used for different data"), db)
        else (ok_or (import_from_value (io_response row)) MsgCorrupt, db)
    | None => import_new workspace_id importer request hash now fresh db
    end).

(** ** The outbox dispatcher *)

Definition outbox_key_le (a b : OutboxRow) : Prop :=
  key_le (ob_created_at a, ob_event_id a) (ob_created_at b, ob_event_id b).
#[export] Instance outbox_key_le_dec : RelDecision outbox_key_le.
Proof. intros a b. apply key_le_dec. Defined.

(** [FOR UPDATE SKIP LOCKED] passes over the rows another dispatcher holds. *)
Definition outbox_pending (db : Tables) (locked : string -> bool) : list OutboxRow :=
  merge_sort outbox_key_le
    (List.filter (fun r => negb (is_some (ob_dispatched_at r)) && negb (locked (ob_event_id r)))
       (t_outbox db)).

(** The loop over the batch.  [accepts] says whether [publish_confirmed] succeeds; the result
    has the events published, also when the loop fails. *)
Fixpoint dispatch_loop (accepts : DomainEventEnvelope -> bool) (now : DateTime)
    (rows : list OutboxRow) (dispatched : nat) (db : Tables)
  : MResult nat * Tables * list DomainEventEnvelope :=
  match rows with
  | [] => (Ok dispatched, db, [])
  | row :: rows' =>
      match envelope_from_value (ob_envelope row) with
      | None => (Err MsgCorrupt, db, [])
      | Some envelope =>
          if accepts envelope then
            let '(r, db', published) :=
              dispatch_loop accepts now rows' (S dispatched)
                (mark_dispatched (ob_event_id row) (rfc3339 now) db).2 in
            (r, db', envelope :: published)
          else (Ok dispatched, db, [])
      end
  end.

(** [commits] is false when the final commit fails. *)
Definition dispatch_pending (accepts : DomainEventEnvelope -> bool) (locked : string -> bool)
    (now : DateTime) (commits : bool) (db : Tables)
  : MResult nat * Tables * list DomainEventEnvelope :=
  match dispatch_loop accepts now (take OUTBOX_BATCH_SIZE (outbox_pending db locked)) 0 db with
  | (Ok n, db', published) =>
      if commits then (Ok n, db', published) else (Err (MsgDatabase "commit"), db, published)
  | (Err e, _, published) => (Err e, db, published)
  end.
End store.
