(* ===== verification/MessageSample.v ===== *)
(** * A concrete instance of the message store's interface

    Codecs that satisfy [MessageLaws], with principals and requests, so that the theorems about
    the message store can be applied and its operations evaluated. *)

From S2P Require Import Prelude RustStr Messages MessageStore.
Local Open Scope Z_scope.

(** ** Values as text: the bits of their numbering *)

Fixpoint pos_text (p : positive) : string :=
  match p with
  | xH => EmptyString
  | xO p' => String "0" (pos_text p')
  | xI p' => String "1" (pos_text p')
  end.

Fixpoint text_pos (s : string) : positive :=
  match s with
  | EmptyString => xH
  | String a s' => if bool_decide (a = "0"%char) then xO (text_pos s') else xI (text_pos s')
  end.

Lemma text_pos_text p : text_pos (pos_text p) = p.
Proof. induction p as [p IH|p IH|]; simpl; congruence. Qed.

Lemma pos_text_no_newline p : contains_char "010" (pos_text p) = false.
Proof. induction p as [p IH|p IH|]; simpl; [apply IH..|done]. Qed.

Lemma pos_text_utf8 p : valid_utf8 (pos_text p) = true.
Proof. induction p as [p IH|p IH|]; [apply IH..|done]. Qed.

Definition to_text {A} `{Countable A} (x : A) : string := pos_text (encode x).
Definition of_text {A} `{Countable A} (s : string) : option A := decode (text_pos s).

Lemma of_to_text {A} `{Countable A} (x : A) : of_text (to_text x) = Some x.
Proof. unfold of_text, to_text. by rewrite text_pos_text, decode_encode. Qed.

(** ** The records that are stored as JSON are countable *)

#[export] Instance source_eq_dec : EqDecision MessageExternalSource.
Proof. solve_decision. Defined.
#[export] Instance source_countable : Countable MessageExternalSource.
Proof.
  refine (inj_countable'
    (fun x => (es_channel x, es_account_id x, es_conversation_id x, es_message_id x, es_metadata x))
    (fun '(a, b, c, d, e) => mkMessageExternalSource a b c d e) _). by intros [].
Defined.

#[export] Instance ack_response_eq_dec : EqDecision AcknowledgeMessagesResponse.
Proof. solve_decision. Defined.
#[export] Instance ack_response_countable : Countable AcknowledgeMessagesResponse.
Proof.
  refine (inj_countable' (fun x => (ack_acknowledged x, ack_already_acknowledged x))
    (fun '(a, b) => mkAcknowledgeMessagesResponse a b) _). by intros [].
Defined.

#[export] Instance import_response_eq_dec : EqDecision ImportMessagesResponse.
Proof. solve_decision. Defined.
#[export] Instance import_response_countable : Countable ImportMessagesResponse.
Proof.
  refine (inj_countable' (fun x => (im_imported x, im_existing x, im_message_ids x))
    (fun '(a, b, c) => mkImportMessagesResponse a b c) _). by intros [].
Defined.

#[export] Instance payload_eq_dec : EqDecision EventPayload.
Proof. solve_decision. Defined.
#[export] Instance payload_countable : Countable EventPayload.
Proof.
  refine (inj_countable' (fun x =>
    match x with
    | PayloadCreated a b c d => inl (a, b, c, d)
    | PayloadAcknowledged a b => inr (inl (a, b))
    | PayloadImported a b => inr (inr (a, b))
    end)
    (fun x => match x with
    | inl (a, b, c, d) => PayloadCreated a b c d
    | inr (inl (a, b)) => PayloadAcknowledged a b
    | inr (inr (a, b)) => PayloadImported a b
    end) _). by intros [].
Defined.

#[export] Instance actor_eq_dec : EqDecision DomainEventActor.
Proof. solve_decision. Defined.
#[export] Instance resource_eq_dec : EqDecision DomainEventResource.
Proof. solve_decision. Defined.
#[export] Instance envelope_eq_dec : EqDecision DomainEventEnvelope.
Proof. solve_decision. Defined.
#[export] Instance envelope_countable : Countable DomainEventEnvelope.
Proof.
  refine (inj_countable' (fun x =>
    (ev_event_id x, ev_schema_version x, ev_organization_id x, ev_workspace_id x,
     (actor_kind (ev_actor x), actor_id (ev_actor x)), ev_action x,
     (resource_kind (ev_resource x), resource_id (ev_resource x)),
     (ev_occurred_at x, ev_trace_id x, ev_causation_id x, ev_correlation_id x,
      ev_workspace_revision x, ev_payload x)))
    (fun '(a, b, c, d, (e1, e2), f, (g1, g2), (h, i, j, k, l, m)) =>
       mkDomainEventEnvelope a b c d (mkDomainEventActor e1 e2) f (mkDomainEventResource g1 g2)
         h i j k l m) _).
  by intros [? ? ? ? [] ? [] ? ? ? ? ? ?].
Defined.

(** ** The instance *)

Definition fingerprint_text (f : SendFingerprint) : string :=
  to_text (sf_sender_endpoint f, (fun p => (mp_app_endpoint p, kind_as_str (mp_kind p), mp_id p))
             <$> sf_recipients f, sf_context_ids f, sf_body f).
Definition legacy_text (l : list LegacyMailMessage) : string :=
  to_text ((fun m => (lm_message_id m, lm_body m)) <$> l).

#[export] Instance sample_env : MessageEnv := {|
  rfc3339 t := to_text t;
  parse_rfc3339 := of_text;
  base64_encode s := s;
  base64_decode s := Some s;
  sha256_hex s := s;
  fingerprint_vec f := Some (fingerprint_text f);
  ids_vec l := Some (to_text l);
  scoped_ids_vec p := Some (to_text p);
  legacy_vec l := Some (legacy_text l);
  source_to_value x := Some (to_text x);
  source_from_value := of_text;
  ack_to_value x := Some (to_text x);
  ack_from_value := of_text;
  import_to_value x := Some (to_text x);
  import_from_value := of_text;
  envelope_to_value x := Some (to_text x);
  envelope_from_value := of_text;
  text_le := String.le
|}.

#[export] Instance sample_laws : MessageLaws.
Proof.
  split; simpl; intros; simplify_eq; try apply of_to_text; try done.
  - apply pos_text_no_newline.
  - apply pos_text_utf8.
  - split; [apply _|]. intros x y. destruct (decide (x = y)) as [->|Hne]; [by right; left|].
    destruct (total String.le x y) as [H|H]; [left|right; right]; split; try done;
      intros H'; apply Hne; by apply (anti_symm String.le).
Qed.

(** ** Principals and requests *)

Definition sample_agent : MessagePrincipal := mkMessagePrincipal None None MKAgent "a1" "Ada" None.
Definition sample_app : MessagePrincipal := mkMessagePrincipal (Some "inbox") None MKAgent "app" "App" None.
Definition sample_human : MessagePrincipal := mkMessagePrincipal None None MKHuman "u1" "Uma" None.

Definition sample_request (body : string) (key : option string) (contexts : list string)
  : SendMessageRequest :=
  mkSendMessageRequest None ["x"; "y"] contexts body None key None None None.

(** Identifiers of one operation: a tag followed by the number of the draw. *)
Definition sample_ids (tag : string) (n : nat) : string := tag +:+ to_text n.

Definition sample_send (tag body : string) (key : option string) (contexts : list string) (now : Z)
  : Tx SendMessageResponse :=
  send_with_policy_revision "w" sample_agent [sample_app; sample_human]
    (sample_request body key contexts) None 0 now (sample_ids tag).
Definition sample_db1 : Tables := (sample_send "m1" "hello" (Some "k") [] 1 empty_tables).2.
