(* ===== verification/MessageFacts.v ===== *)
(** * What the message store guarantees

    Histories of the store's operations ([MessageOp]), the invariant [store_ok] of the tables
    they reach and the order [grows] on tables: messages, once stored, do not change.  The
    theorems follow: idempotent sends, acyclic contexts, readable rows, complete mailbox scans,
    one event per acknowledgement, an ordered outbox. *)

From S2P Require Import Prelude RustStr StateLogic Messages MessageStore MessageSample.
Local Open Scope Z_scope.

Section facts.
Context {Env : MessageEnv}.

(** ** Histories *)

Inductive MessageOp : Type :=
| OpSend (ws : string) (sender : MessagePrincipal) (recipients : list MessagePrincipal)
    (request : SendMessageRequest) (policy_revision : option Z) (checked_at now : DateTime)
    (fresh : nat -> string)
| OpAcknowledge (ws : string) (principal : MessagePrincipal) (request : AcknowledgeMessagesRequest)
    (policy_revision : option Z) (now : DateTime) (fresh : nat -> string)
| OpImport (ws : string) (importer : MessagePrincipal) (request : ImportMessagesRequest)
    (now : DateTime) (fresh : nat -> string)
| OpDispatch (accepts : DomainEventEnvelope -> bool) (locked : string -> bool) (now : DateTime)
    (commits : bool).

Definition apply_op (db : Tables) (op : MessageOp) : Tables :=
  match op with
  | OpSend ws sender recipients request rev checked_at now fresh =>
      (send_with_policy_revision ws sender recipients request rev checked_at now fresh db).2
  | OpAcknowledge ws principal request rev now fresh =>
      (acknowledge_with_policy_revision ws principal request rev now fresh db).2
  | OpImport ws importer request now fresh => (import_legacy_mail ws importer request now fresh db).2
  | OpDispatch accepts locked now commits => (dispatch_pending accepts locked now commits db).1.2
  end.

Definition run (db : Tables) (ops : list MessageOp) : Tables := foldl apply_op db ops.

(** ** Stored messages do not change *)

(** A delivery row without its acknowledgement. *)
Definition unstamped (d : DeliveryRow) : DeliveryRow :=
  mkDeliveryRow (dr_delivery_id d) (dr_message_id d) (dr_workspace_id d) (dr_recipient_kind d)
    (dr_recipient_id d) (dr_recipient_name d) (dr_recipient_role d) (dr_position d)
    (dr_created_at d) None (dr_expires_at d) (dr_recipient_path d) (dr_recipient_endpoint d).

Definition later_row (d d' : DeliveryRow) : Prop :=
  unstamped d' = unstamped d /\
  (is_some (dr_acknowledged_at d) = true -> dr_acknowledged_at d' = dr_acknowledged_at d).

Definition new_to (base : Tables) (ws id : string) : Prop := message_exists base ws id = false.

Record grows (base db : Tables) : Prop := {
  g_messages : exists new, t_messages db = t_messages base ++ new;
  g_deliveries : exists old new, t_deliveries db = old ++ new
    /\ Forall2 later_row (t_deliveries base) old
    /\ Forall (fun d => new_to base (dr_workspace_id d) (dr_message_id d)) new;
  g_contexts : exists new, t_contexts db = t_contexts base ++ new
    /\ Forall (fun x => new_to base (xr_workspace_id x) (xr_message_id x)) new;
  g_idempotency : exists new, t_idempotency db = t_idempotency base ++ new;
  g_acks : exists new, t_acks db = t_acks base ++ new;
  g_imports : exists new, t_imports db = t_imports base ++ new
}.

(** ** The invariant of the tables *)

Definition printed (value : string) : Prop := exists t, value = rfc3339 t.
Definition printed_opt (value : option string) : Prop := exists t, value = rfc3339 <$> t.
Definition a_kind (value : string) : Prop := exists k, value = kind_as_str k.

Definition readable_message (m : MessageRow) : Prop :=
  a_kind (mr_sender_kind m) /\ printed (mr_created_at m) /\ printed_opt (mr_expires_at m)
  /\ exists s, store_source s = Ok (mr_external_source m).
Definition readable_delivery (d : DeliveryRow) : Prop :=
  a_kind (dr_recipient_kind d) /\ printed (dr_created_at d)
  /\ printed_opt (dr_acknowledged_at d) /\ printed_opt (dr_expires_at d).

Definition row_key (m : MessageRow) : string * string := (mr_workspace_id m, mr_message_id m).

(** The context message was stored before the message that refers to it. *)
Definition context_is_earlier (msgs : list MessageRow) (x : ContextRow) : Prop :=
  exists i j, (i < j)%nat
    /\ row_key <$> msgs !! i = Some (xr_workspace_id x, xr_context_message_id x)
    /\ row_key <$> msgs !! j = Some (xr_workspace_id x, xr_message_id x).

Record store_ok (db : Tables) : Prop := {
  ok_message_keys : NoDup (row_key <$> t_messages db);
  ok_messages : Forall readable_message (t_messages db);
  ok_deliveries : Forall readable_delivery (t_deliveries db);
  ok_delivery_ids : NoDup (dr_delivery_id <$> t_deliveries db);
  ok_delivery_refs : Forall (fun d => message_exists db (dr_workspace_id d) (dr_message_id d) = true)
                       (t_deliveries db);
  ok_contexts : Forall (context_is_earlier (t_messages db)) (t_contexts db);
  ok_idempotency : Forall (fun r => message_exists db (id_workspace_id r) (id_message_id r) = true)
                     (t_idempotency db);
  ok_acks : Forall (fun r => exists a, ack_to_value a = Some (ao_response r)) (t_acks db);
  ok_imports : Forall (fun r => exists a, import_to_value a = Some (io_response r)) (t_imports db);
  ok_outbox : Forall (fun r => exists e, envelope_to_value e = Some (ob_envelope r)
                                         /\ ob_event_id r = ev_event_id e) (t_outbox db);
  ok_event_ids : NoDup (ob_event_id <$> t_outbox db)
}.

(** ** Computations that keep a property *)

Section stability.
Context (P : Tables -> Prop).

Lemma stable_transact {A} (m : Tx A) : stable P m -> stable P (transact m).
Proof.
  intros Hm db Hdb. unfold transact. specialize (Hm db Hdb). by destruct (m db) as [[a|e] db'].
Qed.

Lemma stable_for_each {A} (f : A -> Tx unit) l :
  Forall (fun x => stable P (f x)) l -> stable P (st_for_each f l).
Proof.
  induction 1 as [|x l Hx _ IH]; [apply stable_ret|]. simpl. by apply stable_bind.
Qed.

Lemma stable_fold {A B} (f : B -> A -> Tx B) l acc :
  (forall b x, stable P (f b x)) -> stable P (st_fold f acc l).
Proof.
  intros Hf. revert acc. induction l as [|x l IH]; intros acc; [apply stable_ret|].
  simpl. by apply stable_bind.
Qed.

(** The rows that follow a message's own row are those of a message that was not there. *)
Lemma stable_insert_message row {A} (k : Tx A) :
  stable P (insert_message row) ->
  (forall db, P db -> message_exists db (mr_workspace_id row) (mr_message_id row) = false ->
     stable P k) ->
  stable P (insert_message row ;! k).
Proof.
  intros Hi Hk db Hdb. specialize (Hi db Hdb). specialize (Hk db Hdb).
  unfold st_bind. unfold insert_message in *. destruct (message_exists db _ _); [done|]. by apply Hk.
Qed.
End stability.

Lemma stable_run P ops db :
  (forall op db', P db' -> P (apply_op db' op)) -> P db -> P (run db ops).
Proof. intros Hop. revert db. induction ops as [|op ops IH]; intros db Hdb; [done|]. by apply IH, Hop. Qed.

(** ** Growth *)

Lemma later_row_refl d : later_row d d.
Proof. done. Qed.

Lemma later_row_trans d1 d2 d3 : later_row d1 d2 -> later_row d2 d3 -> later_row d1 d3.
Proof.
  intros [H1 H2] [H3 H4]. split; [congruence|]. intros Ha. specialize (H2 Ha).
  rewrite <- H2. apply H4. by rewrite H2.
Qed.

Lemma grows_refl db : grows db db.
Proof.
  split; try (exists []; by rewrite app_nil_r).
  exists (t_deliveries db), []. rewrite app_nil_r. split_and!; [done| |constructor].
  apply Forall_Forall2_diag, Forall_true. intros d. apply later_row_refl.
Qed.

Lemma exists_grows base db ws id :
  grows base db -> message_exists base ws id = true -> message_exists db ws id = true.
Proof. intros [[new Hn] _ _ _ _ _]. unfold message_exists. rewrite Hn, existsb_app. by intros ->. Qed.

Lemma new_to_grows base db ws id : grows base db -> new_to db ws id -> new_to base ws id.
Proof.
  unfold new_to. intros Hg Hn. destruct (message_exists base ws id) eqn:He; [|done].
  by rewrite (exists_grows _ _ _ _ Hg He) in Hn.
Qed.

Lemma grows_trans a b c : grows a b -> grows b c -> grows a c.
Proof.
  intros Hab Hbc. pose proof (fun ws id => new_to_grows _ _ ws id Hab) as Hnew.
  destruct Hab as [[m1 M1] (o1 & d1 & D1 & F1 & N1) (x1 & X1 & Y1) [i1 I1] [a1 A1] [p1 P1]].
  destruct Hbc as [[m2 M2] (o2 & d2 & D2 & F2 & N2) (x2 & X2 & Y2) [i2 I2] [a2 A2] [p2 P2]].
  split; try (eexists; rewrite ?M2, ?I2, ?A2, ?P2, ?M1, ?I1, ?A1, ?P1, <- app_assoc; done).
  - rewrite D1 in F2. apply Forall2_app_inv_l in F2 as (o3 & d3 & F3 & F4 & ->).
    exists o3, (d3 ++ d2). rewrite D2, <- app_assoc. split_and!; [done| |].
    + eapply Forall2_trans; [|done|done]. intros ???. apply later_row_trans.
    + apply Forall_app. split.
      * clear -F4 N1. induction F4 as [|d d' l l' [Hu _]]; [constructor|].
        inversion N1 as [|? ? Hd Hl]; subst. constructor; [|auto].
        by injection Hu as ? -> -> ?.
      * eapply Forall_impl; [done|]. intros d. apply Hnew.
  - exists (x1 ++ x2). rewrite X2, X1, app_assoc. split; [done|]. apply Forall_app. split; [done|].
    eapply Forall_impl; [done|]. intros x. apply Hnew.
Qed.
(** The primitives, from tables that have grown out of [base]. *)
Section growth.
Context (base : Tables).

Lemma grows_insert_message row : stable (grows base) (insert_message row).
Proof.
  intros db Hg. unfold insert_message. case_match; [done|]. destruct Hg as [[m M] D X I Ak Im].
  split; try done. exists (m ++ [row]). simpl. by rewrite M, app_assoc.
Qed.

Lemma grows_insert_delivery row :
  new_to base (dr_workspace_id row) (dr_message_id row) -> stable (grows base) (insert_delivery row).
Proof.
  intros Hn db Hg. unfold insert_delivery. repeat case_match; try done.
  destruct Hg as [M (o & d & D & F & N) X I Ak Im]. split; try done.
  exists o, (d ++ [row]). simpl. rewrite D, app_assoc. split_and!; [done|done|].
  apply Forall_app. split; [done|by repeat constructor].
Qed.

Lemma grows_insert_context row :
  new_to base (xr_workspace_id row) (xr_message_id row) -> stable (grows base) (insert_context row).
Proof.
  intros Hn db Hg. unfold insert_context. repeat case_match; try done.
  destruct Hg as [M D (x & X & F) I Ak Im]. split; try done.
  exists (x ++ [row]). simpl. rewrite X, app_assoc. split; [done|].
  apply Forall_app. split; [done|by repeat constructor].
Qed.

Lemma grows_insert_idempotency row : stable (grows base) (insert_idempotency row).
Proof.
  intros db Hg. unfold insert_idempotency. repeat case_match; try done.
  destruct Hg as [M D X [i I] Ak Im]. split; try done. exists (i ++ [row]). simpl. by rewrite I, app_assoc.
Qed.

Lemma grows_insert_ack row : stable (grows base) (insert_ack_operation row).
Proof.
  intros db Hg. unfold insert_ack_operation. case_match; [done|].
  destruct Hg as [M D X I [a Ak] Im]. split; try done. exists (a ++ [row]). simpl. by rewrite Ak, app_assoc.
Qed.

Lemma grows_insert_import row : stable (grows base) (insert_import_operation row).
Proof.
  intros db Hg. unfold insert_import_operation. case_match; [done|].
  destruct Hg as [M D X I Ak [a Im]]. split; try done. exists (a ++ [row]). simpl. by rewrite Im, app_assoc.
Qed.

(** The outbox has no part in [grows]. *)
Lemma grows_same_rows db db' :
  t_messages db' = t_messages db -> t_deliveries db' = t_deliveries db ->
  t_contexts db' = t_contexts db -> t_idempotency db' = t_idempotency db ->
  t_acks db' = t_acks db -> t_imports db' = t_imports db -> grows base db -> grows base db'.
Proof. intros E1 E2 E3 E4 E5 E6 [M D X I Ak Im]. split; by rewrite ?E1, ?E2, ?E3, ?E4, ?E5, ?E6. Qed.

Lemma grows_insert_outbox e : stable (grows base) (insert_outbox e).
Proof.
  intros db Hg. unfold insert_outbox, insert_outbox_row. repeat case_match; try done;
    by eapply grows_same_rows; [..|exact Hg].
Qed.

(** Setting the acknowledgement of a row that has none. *)
Lemma grows_mark ws id at_ db :
  Forall (fun d => delivery_is ws id d = true -> dr_acknowledged_at d = None) (t_deliveries db) ->
  grows base db -> grows base (mark_acknowledged ws id at_ db).2.
Proof.
  intros Hn [M (o & d & D & F & N) X I Ak Im]. split; try done.
  set (f := fun d => if delivery_is ws id d then mark_row at_ d else d).
  exists (f <$> o), (f <$> d). simpl. rewrite D, fmap_app. split_and!; [done| |].
  - rewrite D in Hn. apply Forall_app in Hn as [Hn _]. clear -F Hn.
    induction F as [|x y l l' [Hu Ha] _ IH]; [constructor|]. inversion Hn as [|? ? Hy Hl']; subst.
    constructor; [|by apply IH]. unfold f. destruct (delivery_is ws id y) eqn:Hd; [|done].
    split; [done|]. intros Hs. specialize (Ha Hs). rewrite (Hy eq_refl) in Ha. by rewrite <- Ha in Hs.
  - apply Forall_fmap. eapply Forall_impl; [done|]. intros x. unfold f. simpl. by case_match.
Qed.

Lemma grows_create_message ws sender recipients request rev hash now fresh :
  stable (grows base) (create_message ws sender recipients request rev hash now fresh).
Proof.
  unfold create_message. apply stable_bind; [apply stable_lift|]. intros source.
  apply stable_insert_message; [apply grows_insert_message|].
  intros db Hg He%(new_to_grows _ _ _ _ Hg).
  apply stable_bind; [|intros _; apply stable_bind; [|intros _; apply stable_bind;
    [|intros _; apply stable_bind; [apply grows_insert_outbox|intros _; apply stable_bind;
      [by intros ? ?|intros m; apply stable_ret]]]]].
  - apply stable_for_each, Forall_forall. intros row (i & r & -> & _)%elem_of_lookup_imap.
    by apply grows_insert_delivery.
  - apply stable_for_each, Forall_forall. intros row (i & r & -> & _)%elem_of_lookup_imap.
    by apply grows_insert_context.
  - case_match; [apply grows_insert_idempotency|apply stable_ret].
Qed.

Lemma grows_insert_legacy_message m : stable (grows base) (insert_legacy_message m).
Proof.
  unfold insert_legacy_message. apply stable_insert_message; [apply grows_insert_message|].
  intros db Hg He%(new_to_grows _ _ _ _ Hg). apply stable_bind; [|intros _].
  - apply stable_for_each, Forall_fmap, Forall_true. intros r. by apply grows_insert_delivery.
  - apply stable_for_each, Forall_forall. intros row (i & r & -> & _)%elem_of_lookup_imap.
    by apply grows_insert_context.
Qed.

Lemma grows_import_one ws p m : stable (grows base) (import_one ws p m).
Proof.
  intros db Hg. unfold import_one. repeat case_match; try done.
  apply stable_bind; [apply grows_insert_legacy_message|intros ?; apply stable_ret|done].
Qed.

Lemma grows_import_new ws importer request hash now fresh :
  stable (grows base) (import_new ws importer request hash now fresh).
Proof.
  unfold import_new. apply stable_bind; [apply stable_fold; intros; apply grows_import_one|].
  intros p. apply stable_bind; [apply stable_lift|]. intros v.
  apply stable_bind; [apply grows_insert_import|]. intros _.
  apply stable_bind; [apply grows_insert_outbox|intros _; apply stable_ret].
Qed.

Lemma grows_send ws sender recipients request rev checked_at now fresh :
  stable (grows base) (send_with_policy_revision ws sender recipients request rev checked_at now fresh).
Proof.
  unfold send_with_policy_revision. do 3 (apply stable_bind; [apply stable_lift|intros ?]).
  apply stable_transact, stable_bind.
  - intros db Hg. unfold replay_send. by repeat case_match.
  - intros [r|]; [apply stable_ret|]. apply stable_bind; [by intros db Hg|].
    intros _. apply grows_create_message.
Qed.

Lemma grows_import ws importer request now fresh :
  stable (grows base) (import_legacy_mail ws importer request now fresh).
Proof.
  unfold import_legacy_mail. do 2 (apply stable_bind; [apply stable_lift|intros ?]).
  apply stable_transact. intros db Hg. repeat case_match; try done. by apply grows_import_new.
Qed.

Lemma grows_dispatch_loop accepts now rows n db :
  grows base db -> grows base (dispatch_loop accepts now rows n db).1.2.
Proof.
  revert n db. induction rows as [|row rows IH]; intros n db Hg; [done|]. simpl.
  repeat case_match; try done. simplify_eq/=.
  match goal with H : dispatch_loop _ _ _ _ ?db1 = _ |- _ =>
    specialize (IH (S n) db1); rewrite H in IH; apply IH end.
  by eapply grows_same_rows; [..|exact Hg].
Qed.

Lemma grows_dispatch accepts locked now commits db :
  grows base db -> grows base (dispatch_pending accepts locked now commits db).1.2.
Proof.
  intros Hg. unfold dispatch_pending.
  pose proof (grows_dispatch_loop accepts now (take OUTBOX_BATCH_SIZE (outbox_pending db locked)) 0 db Hg).
  by repeat case_match; simplify_eq/=.
Qed.

(** Acknowledging relies on delivery identifiers being unique. *)
Definition grows_unique (db : Tables) : Prop :=
  grows base db /\ NoDup (dr_delivery_id <$> t_deliveries db).

Lemma mark_ids ws id at_ db :
  dr_delivery_id <$> t_deliveries (mark_acknowledged ws id at_ db).2
  = dr_delivery_id <$> t_deliveries db.
Proof.
  simpl. rewrite <- list_fmap_compose. apply list_fmap_ext. intros i d _. simpl. by case_match.
Qed.

Lemma insert_outbox_rows e db :
  t_deliveries (insert_outbox e db).2 = t_deliveries db.
Proof. unfold insert_outbox, insert_outbox_row. by repeat case_match. Qed.

Lemma unique_row {db d d'} :
  NoDup (dr_delivery_id <$> t_deliveries db) -> d ∈ t_deliveries db -> d' ∈ t_deliveries db ->
  dr_delivery_id d = dr_delivery_id d' -> d = d'.
Proof.
  intros Hnd [i Hi]%list_elem_of_lookup [j Hj]%list_elem_of_lookup He.
  assert (i = j) as ->; [|congruence].
  eapply NoDup_lookup; [done|by rewrite list_lookup_fmap, Hi|rewrite list_lookup_fmap, Hj; simpl; congruence].
Qed.

Lemma grows_acknowledge_one ws principal request rev now fresh acc id :
  stable grows_unique (acknowledge_one ws principal request rev now fresh acc id).
Proof.
  intros db [Hg Hnd]. unfold acknowledge_one. destruct (List.find _ _) as [row|] eqn:Hf; [|done].
  destruct (is_some (dr_acknowledged_at row)) eqn:Ha; [done|].
  apply find_elem in Hf as [Hin Hrow]. unfold owned_delivery in Hrow. bool_hyps.
  assert (grows_unique (mark_acknowledged ws id (rfc3339 now) db).2) as Hm.
  { split; [apply grows_mark; [|done]|by rewrite mark_ids].
    apply Forall_forall. intros d Hd Hdi. rewrite (unique_row Hnd Hd Hin).
    - by destruct (dr_acknowledged_at row).
    - unfold delivery_is in *. bool_hyps. rewrite !str_eqb_eq in *. congruence. }
  assert (forall e, stable grows_unique (insert_outbox e)) as Ho.
  { intros e db2 [Hg2 Hnd2]. split; [by apply grows_insert_outbox|by rewrite insert_outbox_rows]. }
  exact (stable_bind _ _ _ (Ho _) (fun _ => stable_ret _ _) _ Hm).
Qed.

Lemma grows_acknowledge ws principal request rev now fresh db :
  NoDup (dr_delivery_id <$> t_deliveries db) -> grows base db ->
  grows base (acknowledge_with_policy_revision ws principal request rev now fresh db).2.
Proof.
  intros Hnd Hg. assert (grows_unique db) as Hu by done. clear Hnd Hg. revert db Hu.
  assert (stable grows_unique (acknowledge_with_policy_revision ws principal request rev now fresh)) as H;
    [|intros db Hu; by apply H].
  unfold acknowledge_with_policy_revision. do 3 (apply stable_bind; [apply stable_lift|intros ?]).
  apply stable_transact. intros db Hu. repeat case_match; try done. revert db Hu H.
  unfold acknowledge_new. intros db Hu _. revert db Hu.
  apply stable_bind; [apply stable_fold; intros; apply grows_acknowledge_one|]. intros lists.
  apply stable_bind; [apply stable_lift|]. intros v. apply stable_bind; [|intros _; apply stable_ret].
  intros db [Hg Hnd]. split; [by apply grows_insert_ack|].
  unfold insert_ack_operation. by case_match.
Qed.
End growth.

Lemma op_grows db op : NoDup (dr_delivery_id <$> t_deliveries db) -> grows db (apply_op db op).
Proof.
  intros Hnd. pose proof (grows_refl db) as Hg. destruct op; simpl.
  - by apply grows_send.
  - by apply grows_acknowledge.
  - by apply grows_import.
  - by apply grows_dispatch.
Qed.

(** ** A stored message reads the same for ever *)

Lemma find_grows base db ws id :
  grows base db -> message_exists base ws id = true ->
  List.find (message_is ws id) (t_messages db) = List.find (message_is ws id) (t_messages base).
Proof.
  intros [[new ->] _ _ _ _ _] He. rewrite find_app. destruct (List.find _ (t_messages base)) eqn:Hf; [done|].
  apply find_none_iff in Hf. unfold message_exists in He. apply existsb_elem in He as (m & Hm & Hi).
  rewrite Forall_forall in Hf. by rewrite (Hf m Hm) in Hi.
Qed.

Lemma filter_new {X} (p : X -> bool) l : (forall x, x ∈ l -> p x = false) -> List.filter p l = [].
Proof.
  induction l as [|x l IH]; intros H; [done|]. simpl. rewrite (H x) by set_solver.
  apply IH. set_solver.
Qed.

Lemma deliveries_grow base db ws id :
  grows base db -> message_exists base ws id = true ->
  unstamped <$> message_deliveries db ws id = unstamped <$> message_deliveries base ws id.
Proof.
  intros [_ (o & d & Hd & F & N) _ _ _ _] He. unfold message_deliveries.
  rewrite <- !(merge_sort_fmap position_le position_le unstamped) by done. f_equal.
  rewrite Hd, List.filter_app, fmap_app, (filter_new _ d), app_nil_r.
  - clear -F. induction F as [|x y l l' [Hu _] _ IH]; [done|]. simpl.
    assert (delivery_of ws id x = delivery_of ws id y) as ->.
    { unfold delivery_of. by injection Hu as ? -> -> ?. }
    destruct (delivery_of ws id y); [|done]. rewrite !fmap_cons. by f_equal.
  - intros x Hx. rewrite Forall_forall in N. specialize (N x Hx). unfold new_to, delivery_of in *.
    destruct (dr_workspace_id x =s ws) eqn:H1, (dr_message_id x =s id) eqn:H2; try done.
    rewrite !str_eqb_eq in *. subst. congruence.
Qed.

Lemma contexts_grow base db ws id :
  grows base db -> message_exists base ws id = true ->
  message_contexts db ws id = message_contexts base ws id.
Proof.
  intros [_ _ (x & Hx & N) _ _ _] He. unfold message_contexts.
  rewrite Hx, List.filter_app, (filter_new _ x), app_nil_r; [done|].
  intros c Hc. rewrite Forall_forall in N. specialize (N c Hc). unfold new_to, context_of in *.
  destruct (xr_workspace_id c =s ws) eqn:H1, (xr_message_id c =s id) eqn:H2; try done.
  rewrite !str_eqb_eq in *. subst. congruence.
Qed.

Lemma try_collect_fmap {X Y E} (f : Y -> Result X E) {Z'} (g : Z' -> Y) l :
  try_collect f (g <$> l) = try_collect (fun x => f (g x)) l.
Proof. induction l as [|x l IH]; [done|]. rewrite fmap_cons. cbn [try_collect]. by rewrite IH. Qed.

Lemma load_grows base db ws id :
  grows base db -> message_exists base ws id = true -> load_message db ws id = load_message base ws id.
Proof.
  intros Hg He. unfold load_message. rewrite (find_grows _ _ _ _ Hg He), (contexts_grow _ _ _ _ Hg He).
  assert (forall l, try_collect row_recipient l = try_collect row_recipient (unstamped <$> l)) as Hr.
  { intros l. by rewrite try_collect_fmap. }
  by rewrite (Hr (message_deliveries db ws id)), (deliveries_grow _ _ _ _ Hg He), <- Hr.
Qed.

Lemma delivery_ids_grow base db ws id :
  grows base db -> message_exists base ws id = true -> delivery_ids db ws id = delivery_ids base ws id.
Proof.
  intros Hg He. pose proof (deliveries_grow _ _ _ _ Hg He) as H. unfold delivery_ids.
  apply (f_equal (fmap dr_delivery_id)) in H. by rewrite <- !list_fmap_compose in H.
Qed.

(** ** Every operation keeps the invariant *)

Lemma message_is_iff ws id m : message_is ws id m = true <-> row_key m = (ws, id).
Proof. unfold message_is, row_key. rewrite andb_true_iff, !str_eqb_eq. naive_solver. Qed.

Lemma message_exists_key db ws id :
  message_exists db ws id = true <-> (ws, id) ∈ row_key <$> t_messages db.
Proof.
  unfold message_exists. rewrite existsb_elem, list_elem_of_fmap.
  setoid_rewrite message_is_iff. naive_solver.
Qed.

Lemma earlier_app msgs new x : context_is_earlier msgs x -> context_is_earlier (msgs ++ new) x.
Proof.
  intros (i & j & Hij & Hi & Hj). exists i, j.
  apply fmap_Some in Hi as (m & Hm & ?), Hj as (m' & Hm' & ?).
  rewrite !lookup_app_l by (by eapply lookup_lt_Some). by rewrite Hm, Hm'; simpl; split_and!; [done|congruence..].
Qed.

Lemma Forall_snoc {X} (Q : X -> Prop) l x : Forall Q l -> Q x -> Forall Q (l ++ [x]).
Proof. intros Hl Hx. apply Forall_app. by repeat constructor. Qed.

Lemma NoDup_snoc_fmap {X Y} (f : X -> Y) l x :
  NoDup (f <$> l) -> f x ∉ f <$> l -> NoDup (f <$> (l ++ [x])).
Proof.
  intros Hl Hx. rewrite fmap_app. apply NoDup_app. split_and!; [done| |apply NoDup_singleton].
  intros y Hy Hy'. apply list_elem_of_singleton in Hy'. by subst.
Qed.

Lemma refs_grow {X} (db : Tables) (row : MessageRow) (ws id : X -> string) l :
  Forall (fun d => message_exists db (ws d) (id d) = true) l ->
  Forall (fun d => existsb (message_is (ws d) (id d)) (t_messages db ++ [row]) = true) l.
Proof.
  intros H. eapply Forall_impl; [done|]. intros d Hd. simpl in Hd. rewrite existsb_app.
  unfold message_exists in Hd. by rewrite Hd.
Qed.

Lemma ok_insert_message row : readable_message row -> stable store_ok (insert_message row).
Proof.
  intros Hr db [K M D DI DR X I Ak Im O E]. unfold insert_message.
  destruct (message_exists db _ _) eqn:He; [done|]. split; try done; simpl.
  - apply NoDup_snoc_fmap; [done|]. intros H%message_exists_key. congruence.
  - by apply Forall_snoc.
  - by apply refs_grow.
  - eapply Forall_impl; [done|]. intros x. apply earlier_app.
  - by apply refs_grow.
Qed.

Lemma ok_insert_delivery row : readable_delivery row -> stable store_ok (insert_delivery row).
Proof.
  intros Hr db Hok. unfold insert_delivery. case_match; [done|].
  destruct (existsb (delivery_clash row) _) eqn:Hc; [done|].
  destruct (message_exists db _ _) eqn:He; [|done]. destruct Hok as [K M D DI DR X I Ak Im O E].
  split; try done; simpl; try by apply Forall_snoc.
  apply NoDup_snoc_fmap; [done|]. intros (d & Hd & Hin)%list_elem_of_fmap.
  enough (existsb (delivery_clash row) (t_deliveries db) = true) by congruence.
  apply existsb_elem. exists d. split; [done|]. unfold delivery_clash.
  by rewrite (proj2 (str_eqb_eq _ _) (eq_sym Hd)).
Qed.

(** Contexts are inserted while the messages stay as they are. *)
Lemma ok_insert_context msgs row :
  context_is_earlier msgs row ->
  stable (fun db => store_ok db /\ t_messages db = msgs) (insert_context row).
Proof.
  intros Hr db [Hok Hm]. unfold insert_context. repeat case_match; try done.
  split; [|done]. destruct Hok as [K M D DI DR X I Ak Im O E]. split; try done.
  apply Forall_snoc; simpl; [done|by rewrite Hm].
Qed.

Lemma ok_insert_idempotency row : stable store_ok (insert_idempotency row).
Proof.
  intros db Hok. unfold insert_idempotency. case_match; [done|].
  destruct (message_exists db _ _) eqn:He; [|done]. destruct Hok. split; try done. by apply Forall_snoc.
Qed.

Lemma ok_insert_ack row a :
  ack_to_value a = Some (ao_response row) -> stable store_ok (insert_ack_operation row).
Proof.
  intros Ha db Hok. unfold insert_ack_operation. case_match; [done|]. destruct Hok.
  split; try done. apply Forall_snoc; [done|eauto].
Qed.

Lemma ok_insert_import row a :
  import_to_value a = Some (io_response row) -> stable store_ok (insert_import_operation row).
Proof.
  intros Ha db Hok. unfold insert_import_operation. case_match; [done|]. destruct Hok.
  split; try done. apply Forall_snoc; [done|eauto].
Qed.

Lemma ok_insert_outbox e : stable store_ok (insert_outbox e).
Proof.
  intros db Hok. unfold insert_outbox. destruct (envelope_to_value e) as [v|] eqn:Hv; [|done].
  unfold insert_outbox_row. destruct (existsb _ _) eqn:Hx; [done|].
  destruct Hok as [K M D DI DR X I Ak Im O E]. split; try done; simpl.
  - apply Forall_snoc; [done|eauto].
  - apply NoDup_snoc_fmap; [done|]. intros (r & Hr & Hin)%list_elem_of_fmap. simpl in Hr.
    enough (existsb (fun r => ob_event_id r =s ev_event_id e) (t_outbox db) = true) by (simpl in *; congruence).
    apply existsb_elem. exists r. split; [done|]. by apply str_eqb_eq.
Qed.

Lemma ok_mark ws id at_ : printed at_ -> stable store_ok (mark_acknowledged ws id at_).
Proof.
  intros [t ->] db Hok. pose proof (mark_ids ws id (rfc3339 t) db) as Hi.
  destruct Hok as [K M D DI DR X I Ak Im O E]. split; try done; [|by rewrite Hi|]; simpl.
  - apply Forall_fmap. eapply Forall_impl; [exact D|]. intros d (H1 & H2 & H3 & H4). simpl.
    case_match; [|done]. split_and!; try done. by exists (Some t).
  - apply Forall_fmap. eapply Forall_impl; [exact DR|]. intros d Hd. simpl. by case_match.
Qed.

Lemma ok_mark_dispatched id at_ : stable store_ok (mark_dispatched id at_).
Proof.
  intros db [K M D DI DR X I Ak Im O E]. split; try done; simpl.
  - apply Forall_fmap. eapply Forall_impl; [exact O|]. intros d Hd. simpl. by case_match.
  - rewrite <- list_fmap_compose. erewrite list_fmap_ext; [exact E|]. intros i r _. simpl. by case_match.
Qed.

(** The invariant with the messages fixed, as between a message's insert and the next one's. *)
Definition ok_at (msgs : list MessageRow) (db : Tables) : Prop := store_ok db /\ t_messages db = msgs.

Lemma ok_at_of {A} msgs (m : Tx A) :
  stable store_ok m -> (forall db, t_messages (m db).2 = t_messages db) -> stable (ok_at msgs) m.
Proof. intros Hm He db [Hok Hdb]. split; [by apply Hm|by rewrite He]. Qed.

Lemma ok_at_delivery msgs row : readable_delivery row -> stable (ok_at msgs) (insert_delivery row).
Proof.
  intros Hr. apply ok_at_of; [by apply ok_insert_delivery|].
  intros db. unfold insert_delivery. by repeat case_match.
Qed.

Lemma ok_at_idempotency msgs row : stable (ok_at msgs) (insert_idempotency row).
Proof.
  apply ok_at_of; [apply ok_insert_idempotency|]. intros db. unfold insert_idempotency. by repeat case_match.
Qed.

Lemma ok_at_outbox msgs e : stable (ok_at msgs) (insert_outbox e).
Proof.
  apply ok_at_of; [apply ok_insert_outbox|]. intros db. unfold insert_outbox, insert_outbox_row.
  by repeat case_match.
Qed.

(** A message, then what keeps the invariant while the messages stay as they are. *)
Lemma ok_after_message row db {A} (k : Tx A) :
  store_ok db -> readable_message row -> stable (ok_at (t_messages db ++ [row])) k ->
  store_ok ((insert_message row ;! k) db).2.
Proof.
  intros Hok Hr Hk. pose proof (ok_insert_message row Hr db Hok) as Hi.
  unfold st_bind. unfold insert_message in *. destruct (message_exists db _ _); [done|].
  by destruct (Hk _ (conj Hi eq_refl)).
Qed.

Lemma ok_at_deliveries msgs ds :
  Forall readable_delivery ds -> stable (ok_at msgs) (st_for_each insert_delivery ds).
Proof. intros H. apply stable_for_each. eapply Forall_impl; [done|]. intros d. apply ok_at_delivery. Qed.

Lemma ok_at_contexts row cs db :
  Forall (fun c => message_exists db (mr_workspace_id row) c = true) cs ->
  stable (ok_at (t_messages db ++ [row]))
    (st_for_each insert_context (imap (context_row (mr_workspace_id row) (mr_message_id row)) cs)).
Proof.
  intros Hcs. apply stable_for_each, Forall_forall. intros x (i & c & -> & Hc)%elem_of_lookup_imap.
  apply ok_insert_context. simpl. rewrite Forall_forall in Hcs.
  specialize (Hcs c ltac:(by eapply list_elem_of_lookup_2)).
  apply message_exists_key, list_elem_of_lookup in Hcs as [n Hn].
  rewrite list_lookup_fmap in Hn. assert (Hn' := Hn). apply fmap_Some in Hn' as (m & Hm & _).
  exists n, (length (t_messages db)). split; [by eapply lookup_lt_Some|]. split.
  - by rewrite lookup_app_l by (by eapply lookup_lt_Some).
  - by rewrite lookup_app_r, Nat.sub_diag.
Qed.

Lemma readable_sent ws request now fresh recipients :
  Forall readable_delivery (imap (sent_delivery_row ws request now fresh) recipients).
Proof.
  apply Forall_forall. intros row (i & r & -> & _)%elem_of_lookup_imap. split_and!; simpl.
  - by eexists.
  - by eexists.
  - by exists None.
  - by eexists.
Qed.

Lemma ok_create_message ws sender recipients request rev hash now fresh db :
  store_ok db ->
  Forall (fun c => message_exists db ws c = true) (sr_context_ids request) ->
  store_ok (create_message ws sender recipients request rev hash now fresh db).2.
Proof.
  intros Hok Hcs. unfold create_message, st_bind at 1, st_lift.
  destruct (store_source (sr_external_source request)) as [source|e] eqn:Hs; [|done].
  apply ok_after_message; [done|split_and!; simpl; by eexists|].
  apply stable_bind; [apply ok_at_deliveries, readable_sent|]. intros _.
  apply stable_bind; [by apply (ok_at_contexts (mkMessageRow _ _ _ _ _ _ _ _ _ _ _ _ _ _))|]. intros _.
  apply stable_bind; [case_match; [apply ok_at_idempotency|apply stable_ret]|]. intros _.
  apply stable_bind; [apply ok_at_outbox|]. intros _.
  apply stable_bind; [by intros ??|intros m; apply stable_ret].
Qed.

Lemma visible_exists db ws id kind pid :
  message_visible db ws id kind pid = true -> message_exists db ws id = true.
Proof.
  unfold message_visible, message_exists. rewrite !existsb_elem. intros (m & Hm & H). bool_hyps. eauto.
Qed.

Lemma ok_send ws sender recipients request rev checked_at now fresh :
  stable store_ok (send_with_policy_revision ws sender recipients request rev checked_at now fresh).
Proof.
  unfold send_with_policy_revision. do 3 (apply stable_bind; [apply stable_lift|intros ?]).
  apply stable_transact, stable_bind.
  - intros db Hok. unfold replay_send. by repeat case_match.
  - intros [r|]; [apply stable_ret|]. intros db Hok. unfold st_bind, check_contexts.
    destruct (try_for_each _ _) as [[]|e] eqn:Hc; [|done]. apply ok_create_message; [done|].
    apply try_for_each_ok in Hc. eapply Forall_impl; [exact Hc|]. intros c. simpl.
    case_match eqn:Hv; [|done]. intros _. by eapply visible_exists.
Qed.

Lemma ok_acknowledge ws principal request rev now fresh :
  stable store_ok (acknowledge_with_policy_revision ws principal request rev now fresh).
Proof.
  unfold acknowledge_with_policy_revision. do 3 (apply stable_bind; [apply stable_lift|intros ?]).
  apply stable_transact. intros db Hok. case_match; [by repeat case_match|]. revert db Hok H.
  unfold acknowledge_new. intros db Hok _. revert db Hok.
  apply stable_bind; [apply stable_fold|].
  - intros acc id db Hok. unfold acknowledge_one. repeat case_match; try done.
    apply stable_bind; [by apply ok_mark; eexists|intros _|done].
    apply stable_bind; [apply ok_insert_outbox|intros _; apply stable_ret].
  - intros lists. apply stable_lift_bind. intros v Hv.
    apply stable_bind; [|intros _; apply stable_ret].
    destruct (ack_to_value _) as [v'|] eqn:Hv'; simplify_eq/=. by eapply ok_insert_ack.
Qed.

Lemma ok_import_one ws p m : lm_workspace_id m = ws -> stable store_ok (import_one ws p m).
Proof.
  intros <- db Hok. unfold import_one. repeat (case_match; try done). bool_hyps.
  rename select (forallb _ _ = true) into Hc. rewrite forallb_elem in Hc.
  assert (store_ok (insert_legacy_message m db).2) as Hi;
    [|unfold st_bind; by destruct (insert_legacy_message m db) as [[] ?]].
  apply ok_after_message; [done| |].
  - split_and!; simpl; [by eexists..|by exists None|by exists None].
  - apply stable_bind; [apply ok_at_deliveries|intros _].
    + apply Forall_fmap, Forall_true. intros r. split_and!; simpl; [by eexists..|by exists None].
    + apply (ok_at_contexts (mkMessageRow _ _ _ _ _ _ _ _ _ _ _ _ _ _)), Forall_forall. apply Hc.
Qed.

Lemma ok_import ws importer request now fresh :
  stable store_ok (import_legacy_mail ws importer request now fresh).
Proof.
  unfold import_legacy_mail. apply stable_lift_bind. intros [] Hv.
  apply stable_bind; [apply stable_lift|intros hash]. apply stable_transact. intros db Hok.
  case_match; [by repeat case_match|]. revert db Hok H. intros db Hok _. revert db Hok.
  unfold import_new. apply stable_bind.
  - unfold validate_import in Hv. rewrite !guard_ok in Hv. destruct Hv as (_ & _ & Hw).
    assert (forall m, m ∈ ir_messages request -> lm_workspace_id m = ws) as Hws.
    { intros m Hm. destruct (existsb _ _) eqn:He; [done|].
      destruct (lm_workspace_id m =s ws) eqn:Hm'; [by apply str_eqb_eq|].
      enough (existsb (fun m => negb (lm_workspace_id m =s ws)) (ir_messages request) = true) by congruence.
      apply existsb_elem. exists m. by rewrite Hm'. }
    clear Hw. revert Hws. generalize (mkImportProgress 0 0 [] []).
    induction (ir_messages request) as [|m l IH]; intros p Hws; [apply stable_ret|]. simpl.
    apply stable_bind; [apply ok_import_one; set_solver|]. intros p'. apply IH. set_solver.
  - intros p. apply stable_lift_bind. intros v Hv'. apply stable_bind.
    + destruct (import_to_value _) eqn:Hi; simplify_eq/=. by eapply ok_insert_import.
    + intros _. apply stable_bind; [apply ok_insert_outbox|intros _; apply stable_ret].
Qed.

Lemma ok_dispatch_loop accepts now rows n db :
  store_ok db -> store_ok (dispatch_loop accepts now rows n db).1.2.
Proof.
  revert n db. induction rows as [|row rows IH]; intros n db Hok; [done|]. simpl.
  repeat case_match; try done. simplify_eq/=.
  match goal with H : dispatch_loop _ _ _ _ ?db1 = _ |- _ =>
    specialize (IH (S n) db1); rewrite H in IH; apply IH end.
  by apply (ok_mark_dispatched (ob_event_id row) (rfc3339 now)).
Qed.

Lemma op_ok db op : store_ok db -> store_ok (apply_op db op).
Proof.
  intros Hok. destruct op; simpl.
  - by apply ok_send.
  - by apply ok_acknowledge.
  - by apply ok_import.
  - unfold dispatch_pending. pose proof (ok_dispatch_loop accepts now
      (take OUTBOX_BATCH_SIZE (outbox_pending db locked)) 0 db Hok).
    by repeat case_match; simplify_eq/=.
Qed.

Lemma empty_ok : store_ok empty_tables.
Proof. split; constructor. Qed.

Lemma run_ok ops db : store_ok db -> store_ok (run db ops).
Proof. apply stable_run. intros op db'. apply op_ok. Qed.

Lemma run_grows ops db : store_ok db -> grows db (run db ops).
Proof.
  intros Hok. assert (store_ok db /\ grows db db) as H by (split; [done|apply grows_refl]).
  enough (store_ok (run db ops) /\ grows db (run db ops)) as [_ ?] by done.
  revert H. apply (stable_run (fun db' => store_ok db' /\ grows db db')). intros op db' [H1 H2].
  split; [by apply op_ok|]. eapply grows_trans; [done|]. apply op_grows, H1.
Qed.

(** ** What a successful send has stored *)

#[local] Instance position_le_trans : Transitive position_le.
Proof. intros a b c. unfold position_le. lia. Qed.
#[local] Instance position_le_total : Total position_le.
Proof. intros a b. unfold position_le. lia. Qed.

Lemma insert_deliveries_ok ds db db' :
  st_for_each insert_delivery ds db = (Ok tt, db') ->
  db' = mkTables (t_messages db) (t_deliveries db ++ ds) (t_contexts db) (t_idempotency db)
          (t_acks db) (t_imports db) (t_outbox db).
Proof.
  revert db. induction ds as [|d ds IH]; intros db H.
  - injection H as <-. rewrite app_nil_r. by destruct db.
  - apply st_bind_ok_iff in H as (u & db1 & H1 & H2). apply IH in H2 as ->.
    unfold insert_delivery in H1. repeat case_match; simplify_eq/=. by rewrite <- app_assoc.
Qed.

Lemma insert_contexts_ok xs db db' :
  st_for_each insert_context xs db = (Ok tt, db') ->
  db' = mkTables (t_messages db) (t_deliveries db) (t_contexts db ++ xs) (t_idempotency db)
          (t_acks db) (t_imports db) (t_outbox db).
Proof.
  revert db. induction xs as [|x xs IH]; intros db H.
  - injection H as <-. rewrite app_nil_r. by destruct db.
  - apply st_bind_ok_iff in H as (u & db1 & H1 & H2). apply IH in H2 as ->.
    unfold insert_context in H1. repeat case_match; simplify_eq/=. by rewrite <- app_assoc.
Qed.

Lemma insert_outbox_ok e db u db' :
  insert_outbox e db = (Ok u, db') ->
  exists v, envelope_to_value e = Some v /\
  db' = mkTables (t_messages db) (t_deliveries db) (t_contexts db) (t_idempotency db)
          (t_acks db) (t_imports db)
          (t_outbox db ++ [mkOutboxRow (ev_event_id e) (ev_workspace_id e) (ev_action e) v
                             (rfc3339 (ev_occurred_at e)) None 0]).
Proof.
  unfold insert_outbox, insert_outbox_row. destruct (envelope_to_value e) as [v|]; [|done].
  case_match; [done|]. intros [= _ <-]. by exists v.
Qed.

Lemma create_message_ok ws sender recipients request rev hash now fresh db r db1 :
  create_message ws sender recipients request rev hash now fresh db = (Ok r, db1) ->
  exists row v,
    row_key row = (ws, sent_message_id fresh) /\ message_exists db ws (sent_message_id fresh) = false
    /\ envelope_to_value (created_event ws sender recipients request rev now fresh) = Some v
    /\ t_messages db1 = t_messages db ++ [row]
    /\ t_deliveries db1 = t_deliveries db ++ imap (sent_delivery_row ws request now fresh) recipients
    /\ t_contexts db1 = t_contexts db ++ imap (context_row ws (sent_message_id fresh)) (sr_context_ids request)
    /\ t_idempotency db1 = t_idempotency db ++
         match sr_idempotency_key request with
         | Some key => [mkIdempotencyRow ws (kind_as_str (mp_kind sender)) (mp_id sender) key hash
                          (sent_message_id fresh) (rfc3339 now)]
         | None => []
         end
    /\ t_outbox db1 = t_outbox db ++ [mkOutboxRow ("evt_" +:+ fresh (S (length recipients))) ws
                                       "message.created" v (rfc3339 now) None 0]
    /\ load_message db1 ws (sent_message_id fresh) = Ok (sent_message r)
    /\ sent_delivery_ids r = imap (fun i _ => sent_delivery_id fresh i) recipients
    /\ sent_idempotent_replay r = false.
Proof.
  unfold create_message. intros H. apply st_bind_ok_iff in H as (source & db0 & [= Hs <-] & H).
  apply st_bind_ok_iff in H as ([] & da & Ha & H). apply st_bind_ok_iff in H as ([] & db' & Hb & H).
  apply st_bind_ok_iff in H as ([] & dc & Hc & H). apply st_bind_ok_iff in H as ([] & dd & Hd & H).
  apply st_bind_ok_iff in H as ([] & de & He & H). apply st_bind_ok_iff in H as (m & df & [= Hl <-] & [= <- <-]).
  apply insert_deliveries_ok in Hb as ->. apply insert_contexts_ok in Hc as ->.
  apply insert_outbox_ok in He as (v & Hv & ->). unfold insert_message in Ha.
  destruct (message_exists db _ _) eqn:Hex; simplify_eq/=. eexists _, v.
  destruct (sr_idempotency_key request) as [key|]; simpl in Hd.
  - unfold insert_idempotency in Hd. repeat case_match; simplify_eq/=.
    split_and!; try done. done.
  - unfold st_ret in Hd. simplify_eq/=. rewrite app_nil_r. by split_and!.
Qed.

Lemma sent_delivery_ids_stored ws sender recipients request rev hash now fresh db r db1 :
  store_ok db -> create_message ws sender recipients request rev hash now fresh db = (Ok r, db1) ->
  delivery_ids db1 ws (sent_message_id fresh) = sent_delivery_ids r.
Proof.
  intros Hok (row & v & _ & Hnew & _ & _ & Hd & _ & _ & _ & _ & -> & _)%create_message_ok.
  set (rows := imap (sent_delivery_row ws request now fresh) recipients) in *.
  unfold delivery_ids, message_deliveries. rewrite Hd, List.filter_app, (filter_new _ (t_deliveries db)); simpl.
  2: { intros d Hin. destruct (delivery_of _ _ d) eqn:Hof; [|done]. unfold delivery_of in Hof. bool_hyps.
       rewrite !str_eqb_eq in *. pose proof (ok_delivery_refs _ Hok) as Hr. rewrite Forall_forall in Hr.
       specialize (Hr d Hin). simpl in Hr. congruence. }
  assert (List.filter (delivery_of ws (sent_message_id fresh)) rows = rows) as ->.
  { assert (forall d, d ∈ rows -> delivery_of ws (sent_message_id fresh) d = true) as Hall.
    { intros d (i & p & -> & _)%elem_of_lookup_imap. unfold delivery_of. simpl. by rewrite !str_eqb_refl. }
    clear -Hall. induction rows as [|d rows IH]; [done|]. simpl. rewrite Hall by set_solver.
    f_equal. apply IH. set_solver. }
  rewrite (sorted_arrangement position_le rows rows); [|..|done|].
  - unfold rows. apply list_eq. intros i. rewrite list_lookup_fmap, !list_lookup_imap.
    by destruct (recipients !! i).
  - apply StronglySorted_lookup. intros i j x y Hij Hx Hy. unfold rows in *.
    rewrite list_lookup_imap in Hx, Hy. destruct (recipients !! i), (recipients !! j); simplify_eq/=.
    unfold position_le. simpl. lia.
  - intros x y (i & p & -> & Hi)%elem_of_lookup_imap (j & q & -> & Hj)%elem_of_lookup_imap H1 H2.
    unfold position_le in *. simpl in *. assert (i = j) as -> by lia. by simplify_eq.
Qed.

(** A used key: the row that binds it, the message it names and the answer it gave. *)
Lemma send_binds_key ws sender recipients request rev checked_at now fresh db r db1 key hash :
  store_ok db -> sr_idempotency_key request = Some key ->
  request_hash (fingerprint_vec (send_fingerprint sender recipients request)) = Ok hash ->
  send_with_policy_revision ws sender recipients request rev checked_at now fresh db = (Ok r, db1) ->
  exists row, find_idempotency db1 ws sender key = Some row /\ id_request_hash row = hash
    /\ load_message db1 ws (id_message_id row) = Ok (sent_message r)
    /\ delivery_ids db1 ws (id_message_id row) = sent_delivery_ids r.
Proof.
  intros Hok Hkey Hh H. unfold send_with_policy_revision in H.
  apply st_bind_ok_iff in H as ([] & d1 & [= _ <-] & H).
  apply st_bind_ok_iff in H as ([] & d2 & [= _ <-] & H).
  apply st_bind_ok_iff in H as (h & d3 & [= Hh' <-] & H). rewrite Hh in Hh'. injection Hh' as <-.
  unfold transact in H. destruct (st_bind _ _ db) as [[r0|e] db0] eqn:Hb; simplify_eq.
  apply st_bind_ok_iff in Hb as (o & d4 & Hr & Hb). unfold replay_send in Hr. rewrite Hkey in Hr. simpl in Hr.
  destruct (find_idempotency db ws sender key) as [row|] eqn:Hf.
  - destruct (id_request_hash row =s hash) eqn:Hhash; [|done]. simpl in Hr.
    destruct (load_message db ws (id_message_id row)) as [m|e] eqn:Hl; simplify_eq/=.
    injection Hb as <- <-. exists row. simpl. by rewrite <- str_eqb_eq.
  - simplify_eq/=. apply st_bind_ok_iff in Hb as ([] & d5 & [= _ <-] & Hc).
    pose proof (sent_delivery_ids_stored _ _ _ _ _ _ _ _ _ _ _ Hok Hc) as Hd.
    apply create_message_ok in Hc as (row & v & _ & _ & _ & _ & _ & _ & Hi & _ & Hl & _).
    rewrite Hkey in Hi. exists (mkIdempotencyRow ws (kind_as_str (mp_kind sender)) (mp_id sender)
      key hash (sent_message_id fresh) (rfc3339 now)). split_and!; [|done|done|done].
    unfold find_idempotency in *. rewrite Hi, find_app, Hf. simpl. unfold idempotency_is. simpl.
    by rewrite !str_eqb_refl.
Qed.

Lemma find_idempotency_grows base db ws sender key row :
  grows base db -> find_idempotency base ws sender key = Some row ->
  find_idempotency db ws sender key = Some row.
Proof. intros [_ _ _ [new Hn] _ _] H. unfold find_idempotency in *. by rewrite Hn, find_app, H. Qed.

(** C11: An idempotency key is bound for ever by the first send that succeeds with it.  Whatever
    operations follow, in any number, a later valid request of the same sender with that key
    creates nothing: it returns the very message and delivery identifiers of the first send when
    its fingerprint hashes the same, and the conflict error otherwise. *)
Theorem send_is_idempotent ws sender recipients request rev checked_at now fresh key hash db r db1
    ops recipients' request' rev' checked_at' now' fresh' hash' :
  store_ok db -> sr_idempotency_key request = Some key ->
  request_hash (fingerprint_vec (send_fingerprint sender recipients request)) = Ok hash ->
  send_with_policy_revision ws sender recipients request rev checked_at now fresh db = (Ok r, db1) ->
  sr_idempotency_key request' = Some key -> validate_send checked_at' recipients' request' = Ok tt ->
  request_hash (fingerprint_vec (send_fingerprint sender recipients' request')) = Ok hash' ->
  send_with_policy_revision ws sender recipients' request' rev' checked_at' now' fresh' (run db1 ops)
  = (if hash' =s hash
     then Ok (mkSendMessageResponse (sent_message r) (sent_delivery_ids r) true)
     else Err (Contract "message_idempotency_conflict"
                 "idempotency key was already used for a different message"), run db1 ops).
Proof.
  intros Hok Hkey Hh H Hkey' Hv Hh'. assert (store_ok db1) as Hok1.
  { pose proof (ok_send ws sender recipients request rev checked_at now fresh db Hok). by rewrite H in *. }
  pose proof (run_grows ops db1 Hok1) as Hg.
  assert (validate_workspace_and_principal ws sender = Ok tt) as Hw.
  { unfold send_with_policy_revision, st_bind at 1, st_lift in H.
    by destruct (validate_workspace_and_principal ws sender) as [[]|]. }
  destruct (send_binds_key _ _ _ _ _ _ _ _ _ _ _ _ _ Hok Hkey Hh H) as (row & Hf & Hhash & Hl & Hd).
  assert (message_exists db1 ws (id_message_id row) = true) as Hex.
  { unfold load_message in Hl. destruct (List.find _ _) eqn:Hm; [|done].
    apply find_elem in Hm. unfold message_exists. apply existsb_elem. eauto. }
  unfold send_with_policy_revision, st_bind at 1, st_lift at 1. rewrite Hw.
  unfold st_bind at 1, st_lift at 1. rewrite Hv. unfold st_bind at 1, st_lift. rewrite Hh'.
  unfold transact, st_bind, replay_send. rewrite Hkey'. simpl.
  rewrite (find_idempotency_grows _ _ _ _ _ _ Hg Hf), Hhash, (str_eqb_sym hash).
  destruct (hash' =s hash); [|done]. simpl.
  rewrite (load_grows _ _ _ _ Hg Hex), (delivery_ids_grow _ _ _ _ Hg Hex), Hl, Hd. done.
Qed.

(** ** Contexts *)

(** Message [a] names message [b] as context. *)
Definition refers (db : Tables) (ws a b : string) : Prop :=
  exists x, x ∈ t_contexts db /\ xr_workspace_id x = ws /\ xr_message_id x = a
    /\ xr_context_message_id x = b.

(** The place of a message in the order of storage. *)
Definition stored_at (db : Tables) (ws id : string) (n : nat) : Prop :=
  row_key <$> t_messages db !! n = Some (ws, id).

Lemma stored_at_unique db ws id m n :
  store_ok db -> stored_at db ws id m -> stored_at db ws id n -> m = n.
Proof.
  intros Hok Hm Hn. eapply NoDup_lookup; [exact (ok_message_keys _ Hok)|..];
    rewrite list_lookup_fmap; [exact Hm|exact Hn].
Qed.

Lemma refers_earlier db ws a b :
  store_ok db -> tc (refers db ws) a b -> exists i j, (i < j)%nat /\ stored_at db ws b i /\ stored_at db ws a j.
Proof.
  intros Hok. assert (forall a b, refers db ws a b ->
    exists i j, (i < j)%nat /\ stored_at db ws b i /\ stored_at db ws a j) as Hone.
  { intros c d (x & Hx & <- & <- & <-). pose proof (ok_contexts _ Hok) as Hc.
    rewrite Forall_forall in Hc. exact (Hc x Hx). }
  induction 1 as [c d Hr|c d e Hr _ (i & j & Hij & Hi & Hj)]; [by apply Hone|].
  apply Hone in Hr as (i' & j' & Hij' & Hi' & Hj').
  pose proof (stored_at_unique _ _ _ _ _ Hok Hj Hi') as ->. exists i, j'. split_and!; [lia|done|done].
Qed.

(** No history of sends, acknowledgements, imports and dispatches makes a message its own
    context, directly or through other messages: following [context_ids] always ends. *)
Theorem contexts_are_acyclic ops ws id : ~ tc (refers (run empty_tables ops) ws) id id.
Proof.
  intros H. pose proof (run_ok ops _ empty_ok) as Hok.
  apply (refers_earlier _ _ _ _ Hok) in H as (i & j & Hij & Hi & Hj).
  pose proof (stored_at_unique _ _ _ _ _ Hok Hi Hj). lia.
Qed.

(** ** Reading back *)

Lemma kind_from_as_str k : kind_from_str (kind_as_str k) = Some k.
Proof. by destruct k. Qed.

Lemma kind_as_str_inj j k : kind_as_str j = kind_as_str k -> j = k.
Proof. by destruct j, k. Qed.

Definition same_identity (p q : MessagePrincipal) : Prop := mp_kind p = mp_kind q /\ mp_id p = mp_id q.

Section readable.
Context {Laws : MessageLaws}.

Lemma parse_printed s : printed s -> exists t, parse_timestamp s = Ok t /\ s = rfc3339 t.
Proof. intros [t ->]. exists t. unfold parse_timestamp. by rewrite parse_print_time. Qed.

Lemma parse_printed_opt s : printed_opt s -> exists t, parse_optional_timestamp s = Ok t.
Proof.
  intros [[t|] ->]; simpl; [|by eexists]. unfold parse_timestamp. rewrite parse_print_time. by eexists.
Qed.

Lemma load_stored_source s v : store_source s = Ok v -> load_source v = Ok s.
Proof.
  destruct s as [s|]; simpl; [|by intros [= <-]]. destruct (source_to_value s) as [x|] eqn:Hx; [|done].
  intros [= <-]. simpl. by rewrite (source_roundtrip _ _ Hx).
Qed.

Lemma read_recipient d :
  readable_delivery d -> exists r, row_recipient d = Ok r /\ dr_recipient_kind d = kind_as_str (mp_kind r)
    /\ dr_recipient_id d = mp_id r.
Proof.
  intros ([k Hk] & _). unfold row_recipient, principal_from_columns. rewrite Hk, kind_from_as_str.
  simpl. by eexists.
Qed.

Lemma read_message db ws id :
  store_ok db -> message_exists db ws id = true ->
  exists row m, List.find (message_is ws id) (t_messages db) = Some row /\ row_key row = (ws, id)
    /\ load_message db ws id = Ok m /\ cm_workspace_id m = ws /\ cm_message_id m = id
    /\ mr_sender_kind row = kind_as_str (mp_kind (cm_sender m)) /\ mr_sender_id row = mp_id (cm_sender m)
    /\ Forall2 (fun d r => row_recipient d = Ok r) (message_deliveries db ws id) (cm_recipients m).
Proof.
  intros Hok He. destruct (List.find (message_is ws id) (t_messages db)) as [row|] eqn:Hf.
  2: { apply find_none_iff in Hf. rewrite Forall_forall in Hf. unfold message_exists in He.
       apply existsb_elem in He as (m & Hm & Hi). by rewrite Hf in Hi. }
  destruct (find_elem _ _ _ Hf) as [Hin Hk%message_is_iff]. unfold load_message. rewrite Hf. simpl.
  pose proof (ok_messages _ Hok) as HM. rewrite Forall_forall in HM.
  destruct (HM row Hin) as ([k Hkind] & Hc & Hx & [s Hs]). rewrite (load_stored_source _ _ Hs). simpl.
  unfold principal_from_columns at 1. rewrite Hkind, kind_from_as_str. simpl.
  assert (exists rs, try_collect row_recipient (message_deliveries db ws id) = Ok rs) as [rs Hrs].
  { assert (Forall readable_delivery (message_deliveries db ws id)) as Hd.
    { unfold message_deliveries. rewrite merge_sort_Permutation. apply Forall_forall.
      intros d [Hd _]%filter_elem. pose proof (ok_deliveries _ Hok) as HD. rewrite Forall_forall in HD. auto. }
    induction Hd as [|d l (r & Hr & _)%read_recipient _ [rs IH]]; [by eexists|].
    exists (r :: rs). cbn [try_collect]. by rewrite Hr, IH. }
  rewrite Hrs. simpl. destruct (parse_printed _ Hc) as (t & -> & _). simpl.
  destruct (parse_printed_opt _ Hx) as [u ->]. simpl. exists row. eexists. unfold row_key in Hk.
  injection Hk as <- <-. split_and!; try done. simpl. by apply try_collect_ok.
Qed.

Lemma addressed_identity p d r :
  row_recipient d = Ok r ->
  addressed_to (kind_as_str (mp_kind p)) (mp_id p) d = true <-> same_identity p r.
Proof.
  unfold row_recipient, principal_from_columns, addressed_to, same_identity.
  destruct (kind_from_str (dr_recipient_kind d)) as [k|] eqn:Hk; [|done]. intros [= <-]. simpl.
  rewrite andb_true_iff, !str_eqb_eq. assert (dr_recipient_kind d = kind_as_str k) as ->.
  { unfold kind_from_str in Hk. repeat case_match; simplify_eq;
      by match goal with H : (_ =s _) = true |- _ => apply str_eqb_eq in H end. }
  split; intros [H1 H2]; split; try done; [by apply kind_as_str_inj|by f_equal].
Qed.

Definition takes_part (p : MessagePrincipal) (m : CoreMessage) : Prop :=
  same_identity p (cm_sender m) \/ Exists (same_identity p) (cm_recipients m).

Lemma visible_takes_part db ws id p :
  store_ok db -> message_exists db ws id = true ->
  exists m, load_message db ws id = Ok m /\ cm_workspace_id m = ws /\ cm_message_id m = id
    /\ (message_visible db ws id (kind_as_str (mp_kind p)) (mp_id p) = true <-> takes_part p m).
Proof.
  intros Hok He. destruct (read_message _ _ _ Hok He)
    as (row & m & Hf & Hk & Hl & Hw & Hid & Hsk & Hsi & Hr).
  exists m. split_and!; try done. destruct (find_elem _ _ _ Hf) as [Hin _].
  unfold message_visible. rewrite existsb_elem.
  assert (forall m', m' ∈ t_messages db -> message_is ws id m' = true -> m' = row) as Huniq.
  { intros m' Hm' Hk'%message_is_iff. rewrite <- Hk in Hk'.
    apply list_elem_of_lookup in Hm' as [i Hi], Hin as [j Hj]. assert (i = j) as ->; [|congruence].
    eapply NoDup_lookup; [exact (ok_message_keys _ Hok)|by rewrite list_lookup_fmap, Hi|].
    rewrite list_lookup_fmap, Hj. simpl. by rewrite Hk'. }
  assert (participates db (kind_as_str (mp_kind p)) (mp_id p) row = true <-> takes_part p m) as <-.
  2: { split.
       - intros (m' & Hm' & H). bool_hyps. by rewrite <- (Huniq m').
       - intros Hp. exists row. split; [done|]. rewrite Hp.
         by rewrite (proj2 (message_is_iff ws id row) Hk). }
  unfold participates, sent_by, takes_part. rewrite orb_true_iff, existsb_elem, Hsk, Hsi.
  injection Hk as -> ->. apply Morphisms_Prop.or_iff_morphism.
  - unfold same_identity. rewrite andb_true_iff, !str_eqb_eq. split; intros [H1 H2]; split; try done.
    + by apply kind_as_str_inj.
    + by rewrite H1.
  - rewrite Exists_exists. split.
    + intros (d & Hd & [Hof Ha]%andb_prop). assert (d ∈ message_deliveries db ws id) as Hd'.
      { unfold message_deliveries. rewrite merge_sort_Permutation. by apply filter_elem. }
      apply list_elem_of_lookup in Hd' as [i Hi]. destruct (Forall2_lookup_l _ _ _ _ _ Hr Hi) as (r & Hri & Hrow).
      exists r. split; [by eapply list_elem_of_lookup_2|]. by apply (addressed_identity p d).
    + intros (r & [i Hi]%list_elem_of_lookup & Hs). destruct (Forall2_lookup_r _ _ _ _ _ Hr Hi) as (d & Hdi & Hrow).
      exists d. apply list_elem_of_lookup_2 in Hdi. unfold message_deliveries in Hdi.
      rewrite merge_sort_Permutation in Hdi. apply filter_elem in Hdi as [Hd Hof]. split; [done|].
      rewrite Hof. simpl. by apply (addressed_identity p d r).
Qed.

(** Reading a message never finds stored data corrupt, and it never shows a message to a
    stranger: whatever was stored before, [get] returns the message of that workspace and
    identifier exactly when the principal is its sender or one of its recipients, and otherwise
    the same [message_not_found] as for a message that does not exist. *)
Theorem get_is_for_participants ops ws p id :
  let db := run empty_tables ops in
  match get db ws p id with
  | Ok m => load_message db ws id = Ok m /\ cm_workspace_id m = ws /\ cm_message_id m = id /\ takes_part p m
  | Err e => e = Contract "message_not_found" "message does not exist or is not visible"
             /\ forall m, load_message db ws id = Ok m -> ~ takes_part p m
  end.
Proof.
  intros db. pose proof (run_ok ops _ empty_ok : store_ok db) as Hok. unfold get, ensure_visible.
  destruct (message_exists db ws id) eqn:He.
  - destruct (visible_takes_part db ws id p Hok He) as (m & Hl & Hw & Hid & Hv).
    destruct (message_visible _ _ _ _ _) eqn:Hvis; simpl.
    + rewrite Hl. by rewrite <- Hv.
    + split; [done|]. intros m' Hm'. rewrite Hl in Hm'. injection Hm' as <-. by rewrite <- Hv.
  - destruct (message_visible _ _ _ _ _) eqn:Hvis; [apply visible_exists in Hvis; congruence|].
    split; [done|]. intros m Hm. exfalso. unfold load_message in Hm.
    destruct (List.find _ _) eqn:Hf; [|done]. apply find_elem in Hf.
    enough (message_exists db ws id = true) by congruence. unfold message_exists.
    apply existsb_elem. eauto.
Qed.

(** ** Cursors and mailbox scans *)

Definition cursor_id (id : string) : Prop :=
  is_empty id = false /\ str_len id <= 256 /\ valid_utf8 id = true.

Lemma cursor_roundtrip t id : cursor_id id -> decode_cursor (encode_cursor t id) = Ok (t, id).
Proof.
  intros (He & Hl & Hu). unfold decode_cursor, encode_cursor. rewrite base64_roundtrip.
  change (newline +:+ id) with (String "010" id). cbn [ok_or result_bind].
  rewrite valid_utf8_app by apply time_is_utf8.
  change (valid_utf8 (String "010" id)) with (valid_utf8 id). rewrite Hu. cbn [result_bind].
  rewrite split_once_app by apply time_has_no_newline. simpl.
  rewrite He. replace (256 <? str_len id) with false by (symmetry; apply Z.ltb_ge; lia). simpl.
  by rewrite parse_print_time.
Qed.

#[local] Instance key_le_trans : Transitive key_le.
Proof.
  intros [a1 a2] [b1 b2] [c1 c2]. unfold key_le. simpl.
  intros [[H1 H2]|[-> H1]] [[H3 H4]|[-> H3]]; [left| |left|right; split; [done|by etrans]].
  - split; [by etrans|]. intros ->. apply H2. by apply (anti_symm text_le).
  - by left.
  - done.
Qed.
#[local] Instance key_le_total : Total key_le.
Proof.
  intros [a1 a2] [b1 b2]. unfold key_le. simpl. destruct (decide (a1 = b1)) as [->|Hne].
  - destruct (total text_le a2 b2); [left|right]; by right.
  - destruct (total text_le a1 b1); [left|right]; left; split; congruence.
Qed.
#[local] Instance key_le_antisym : AntiSymm (=) key_le.
Proof.
  intros [a1 a2] [b1 b2]. unfold key_le. simpl. intros [[H1 H2]|[-> H1]] [[H3 H4]|[H3 H4]]; try done.
  - exfalso. apply H2. by apply (anti_symm text_le).
  - by f_equal; apply (anti_symm text_le).
Qed.
#[local] Instance delivery_key_le_trans : Transitive delivery_key_le.
Proof. intros a b c. apply (transitivity (R:=key_le)). Qed.
#[local] Instance delivery_key_le_total : Total delivery_key_le.
Proof. intros a b. apply (total key_le). Qed.

Lemma key_lt_iff a b : key_lt a b = true <-> key_le a b /\ a <> b.
Proof. apply bool_decide_eq_true. Qed.

Lemma key_lt_irrefl a : key_lt a a = false.
Proof. apply bool_decide_eq_false. naive_solver. Qed.

Lemma key_lt_trans a b c : key_lt a b = true -> key_lt b c = true -> key_lt a c = true.
Proof.
  rewrite !key_lt_iff. intros [H1 H2] [H3 H4]. split; [by etrans|]. intros ->. apply H2.
  by apply (anti_symm key_le).
Qed.

Lemma key_lt_asym a b : key_lt a b = true -> key_lt b a = false.
Proof.
  intros H. destruct (key_lt b a) eqn:H'; [|done]. pose proof (key_lt_trans _ _ _ H H') as Hc.
  by rewrite key_lt_irrefl in Hc.
Qed.

Section scan.
Context (db : Tables) (Hok : store_ok db) (ws : string) (p : MessagePrincipal) (now : DateTime).

Let box (after : option Key) : list DeliveryRow := mailbox db ws p (rfc3339 now) after.

Lemma rows_distinct x y :
  x ∈ t_deliveries db -> y ∈ t_deliveries db -> delivery_key_le x y -> delivery_key_le y x -> x = y.
Proof.
  intros Hx Hy H1 H2. assert (delivery_key x = delivery_key y) as He by by apply (anti_symm key_le).
  injection He as _ He. by apply (unique_row (ok_delivery_ids _ Hok)).
Qed.

Lemma box_elem after d : d ∈ box after -> d ∈ t_deliveries db.
Proof. unfold box, mailbox. rewrite merge_sort_Permutation. by intros [? _]%filter_elem. Qed.

Lemma filter_narrow {X} (f g : X -> bool) l :
  List.filter (fun x => f x && g x) l = List.filter g (List.filter (fun x => f x && true) l).
Proof.
  induction l as [|x l IH]; [done|]. simpl. destruct (f x); simpl; [|done].
  destruct (g x); by rewrite IH.
Qed.

Lemma box_after k : box (Some k) = List.filter (fun d => key_lt k (delivery_key d)) (box None).
Proof.
  unfold box, mailbox. rewrite <- (merge_sort_filterb delivery_key_le).
  - f_equal. apply filter_narrow.
  - intros x y [Hx _]%filter_elem [Hy _]%filter_elem. by apply rows_distinct.
Qed.

Lemma box_strict after :
  StronglySorted (fun a b => key_lt (delivery_key a) (delivery_key b) = true
                             /\ key_lt (delivery_key b) (delivery_key a) = false) (box after).
Proof.
  apply StronglySorted_lookup. intros i j x y Hij Hx Hy.
  assert (delivery_key_le x y) as Hle.
  { assert (StronglySorted delivery_key_le (box after)) as Hs by (apply StronglySorted_merge_sort; apply _).
    rewrite <- (take_drop_middle _ _ _ Hx) in Hs. apply StronglySorted_app in Hs as (_ & _ & Hs).
    apply StronglySorted_cons in Hs as [Hs _]. rewrite Forall_forall in Hs. apply Hs.
    apply list_elem_of_lookup. exists (j - S i)%nat. rewrite lookup_drop, <- Hy. f_equal. lia. }
  assert (delivery_key x <> delivery_key y) as Hne.
  { intros He. assert (NoDup (box after)) as Hnd.
    { unfold box, mailbox. rewrite merge_sort_Permutation. apply NoDup_filterb.
      eapply NoDup_fmap_1, (ok_delivery_ids _ Hok). }
    assert (x = y) as ->.
    { injection He as _ He. apply (unique_row (ok_delivery_ids _ Hok)); [by eapply box_elem,
        list_elem_of_lookup_2..|done]. }
    pose proof (NoDup_lookup _ _ _ _ Hnd Hx Hy). lia. }
  split; [by apply key_lt_iff|]. apply key_lt_asym. by apply key_lt_iff.
Qed.

(** The rows after the last row of a page are the rest of the mailbox. *)
Lemma box_next after n d :
  last (take n (box after)) = Some d -> box (Some (delivery_key d)) = drop n (box after).
Proof.
  intros Hl. rewrite <- (filter_after_page (fun a b => key_lt (delivery_key a) (delivery_key b))
    (box after) n d (box_strict after) (fun a => key_lt_irrefl _) Hl), box_after.
  destruct after as [k|]; [|done]. rewrite box_after.
  assert (key_lt k (delivery_key d) = true) as Hk.
  { apply last_Some in Hl as [l' Hl]. assert (d ∈ box (Some k)) as Hd.
    { rewrite <- (take_drop n (box (Some k))), Hl. set_solver. }
    rewrite box_after in Hd. by apply filter_elem in Hd as [_ ?]. }
  generalize (box None). intros l. induction l as [|y l IH]; [done|]. simpl.
  destruct (key_lt (delivery_key d) (delivery_key y)) eqn:Hy.
  - rewrite (key_lt_trans _ _ _ Hk Hy). simpl. by rewrite Hy, IH.
  - destruct (key_lt k (delivery_key y)); simpl; by rewrite ?Hy, IH.
Qed.

(** A page: its deliveries are the first rows, and its cursor is the key of the last one. *)
Lemma receive_page limit after :
  exists ds c, receive_now db ws p limit after now now = Ok (mkReceiveMessagesResponse c ds
      (unacknowledged_count db ws p now))
    /\ md_delivery_id <$> ds = dr_delivery_id <$> take (Z.to_nat limit) (box (cursor_key <$> after))
    /\ (is_some (mp_app_endpoint p) || is_some after = true ->
         match last (take (Z.to_nat limit) (box (cursor_key <$> after))) with
         | Some d => exists t, c = Some (encode_cursor t (dr_delivery_id d))
                               /\ cursor_key (t, dr_delivery_id d) = delivery_key d
         | None => c = None
         end).
Proof.
  unfold receive_now. change (mailbox db ws p (rfc3339 now) (cursor_key <$> after)) with (box (cursor_key <$> after)).
  set (rows := take (Z.to_nat limit) (box (cursor_key <$> after))).
  assert (exists ds, try_collect (fun row => let? message := load_message db ws (dr_message_id row) in
    delivery_from_row row message) rows = Ok ds
    /\ Forall2 (fun d m => md_delivery_id m = dr_delivery_id d /\ rfc3339 (md_created_at m) = dr_created_at d)
         rows ds) as (ds & -> & HF).
  { assert (forall d, d ∈ rows -> d ∈ t_deliveries db /\ dr_workspace_id d = ws) as Hrows.
    { intros d Hd. unfold rows in Hd. apply (subseteq_take _ _ d) in Hd.
      split; [by eapply box_elem|]. unfold box, mailbox in Hd. rewrite merge_sort_Permutation in Hd.
      apply filter_elem in Hd as [_ Hd]. unfold pending_for in Hd. bool_hyps. by apply str_eqb_eq. }
    revert Hrows. clearbody rows. induction rows as [|d rows IH]; intros Hrows; [by exists []; split|].
    destruct IH as (ds & IH & HF); [set_solver|]. destruct (Hrows d) as [Hd Hw]; [set_solver|].
    pose proof (ok_delivery_refs _ Hok) as Href. rewrite Forall_forall in Href.
    specialize (Href d Hd). simpl in Href. rewrite Hw in Href.
    destruct (read_message _ _ _ Hok Href) as (row & m & _ & _ & Hl & _).
    pose proof (ok_deliveries _ Hok) as HD. rewrite Forall_forall in HD. pose proof (HD d Hd) as Hread.
    destruct (read_recipient d Hread) as (r & Hr & _). destruct Hread as (_ & Hc & Ha & Hx).
    destruct (parse_printed _ Hc) as (t & Ht & Htt). destruct (parse_printed_opt _ Ha) as [u Hu].
    destruct (parse_printed_opt _ Hx) as [v Hv]. eexists (_ :: ds). cbn [try_collect].
    unfold delivery_from_row at 1. rewrite Hl, Hr. simpl. rewrite Ht. simpl. rewrite Hu. simpl.
    rewrite Hv. simpl. rewrite IH. simpl. split; [done|]. by constructor. }
  simpl. eexists ds, _. split; [done|]. split.
  - clear -HF. induction HF as [|d m l l' [Hm _] _ IH]; [done|]. rewrite !fmap_cons. by f_equal.
  - intros ->. destruct (last rows) as [d|] eqn:Hlast.
    + apply last_Some in Hlast as [l Hl]. rewrite Hl in HF. apply Forall2_app_inv_l in HF as (l1 & l2 & _ & H2 & ->).
      inversion H2 as [|? m ? ? [Hm Ht] Hnil]; subst. inversion Hnil; subst. rewrite last_snoc. simpl.
      exists (md_created_at m). rewrite Hm. split; [done|]. unfold cursor_key, delivery_key. simpl. by rewrite Ht.
    + apply last_None in Hlast. rewrite Hlast in HF. inversion HF. by subst.
Qed.
End scan.

(** A client that follows [next_cursor] until a page has none, with one call per unit of fuel. *)
Fixpoint scan (fuel : nat) (db : Tables) (ws : string) (p : MessagePrincipal) (limit : Z)
    (after : option string) (now : DateTime) : MResult (list string) :=
  match fuel with
  | O => Ok []
  | S fuel' =>
      let? page := receive_after db db ws p limit 0 after now now now now in
      match rc_next_cursor page with
      | None => Ok (md_delivery_id <$> rc_deliveries page)
      | Some c => let? rest := scan fuel' db ws p limit (Some c) now in
                  Ok ((md_delivery_id <$> rc_deliveries page) ++ rest)
      end
  end.

Lemma scan_rest fuel db ws p limit now after c :
  store_ok db -> Forall (fun d => cursor_id (dr_delivery_id d)) (t_deliveries db) ->
  is_some (mp_app_endpoint p) = true -> validate_endpoint_scope (mp_app_endpoint p) = Ok tt ->
  0 < limit <= MAX_MESSAGE_PAGE_SIZE -> decode_optional_cursor after = Ok c ->
  (length (mailbox db ws p (rfc3339 now) (cursor_key <$> c)) < fuel)%nat ->
  scan fuel db ws p limit after now
  = Ok (dr_delivery_id <$> mailbox db ws p (rfc3339 now) (cursor_key <$> c)).
Proof.
  intros Hok Hids Hep Hscope Hlim. unfold MAX_MESSAGE_PAGE_SIZE in Hlim. revert after c.
  induction fuel as [|fuel IH]; intros after c Hc Hfuel; [lia|]. simpl. unfold receive_after.
  assert (validate_page_size limit = Ok tt) as ->.
  { unfold validate_page_size, MAX_MESSAGE_PAGE_SIZE. destruct (limit =? 0) eqn:H1; [lia|].
    by destruct (100 <? limit) eqn:H2; [lia|]. }
  cbn [result_bind]. rewrite Hscope. cbn [result_bind]. rewrite Hc. cbn [result_bind].
  replace (MAX_MESSAGE_WAIT_MILLISECONDS <? 0) with false by done. cbn [result_bind].
  destruct (receive_page db Hok ws p now limit c) as (ds & cur & -> & Hds & Hcur). cbn [result_bind].
  rewrite orb_true_r. cbn [result_bind rc_next_cursor rc_deliveries]. rewrite Hds.
  specialize (Hcur ltac:(by rewrite Hep)).
  set (box := mailbox db ws p (rfc3339 now) (cursor_key <$> c)) in *.
  destruct (last (take (Z.to_nat limit) box)) as [d|] eqn:Hlast.
  - destruct Hcur as (t & -> & Hk). pose proof (box_next db Hok ws p now _ _ _ Hlast) as Hnext.
    assert (d ∈ t_deliveries db) as Hd.
    { apply last_Some in Hlast as [l Hl]. eapply (box_elem db ws p now (cursor_key <$> c)).
      change (d ∈ box). rewrite <- (take_drop (Z.to_nat limit) box), Hl. set_solver. }
    rewrite Forall_forall in Hids. specialize (Hids d Hd). simpl in Hids.
    rewrite (IH (Some _) (Some (t, dr_delivery_id d))); simpl fmap; rewrite ?Hk, ?Hnext.
    + simpl. by rewrite <- fmap_app, take_drop.
    + simpl. by rewrite (cursor_roundtrip _ _ Hids).
    + fold box. rewrite length_drop. assert (0 < length box)%nat; [|lia].
      destruct box; [|simpl; lia]. by rewrite take_nil in Hlast.
  - subst cur. apply last_None in Hlast. rewrite Hlast. destruct box as [|x box']; [done|].
    exfalso. destruct (Z.to_nat limit) eqn:Hz; [lia|]. done.
Qed.

(** C25: Following cursors enumerates a mailbox exactly.  For an App endpoint's mailbox, whatever
    the page size, the pages a client reads until no cursor is returned are together all the
    unacknowledged, unexpired deliveries of the endpoint, each once, in [(created_at,
    delivery_id)] order; [length + 1] calls are enough. *)
Theorem mailbox_scan_is_exact ops ws p limit now fuel :
  let db := run empty_tables ops in
  let pending := List.filter (pending_for ws p (rfc3339 now)) (t_deliveries db) in
  Forall (fun d => cursor_id (dr_delivery_id d)) (t_deliveries db) ->
  is_some (mp_app_endpoint p) = true -> validate_endpoint_scope (mp_app_endpoint p) = Ok tt ->
  0 < limit <= MAX_MESSAGE_PAGE_SIZE -> (length pending < fuel)%nat ->
  exists rows, scan fuel db ws p limit None now = Ok (dr_delivery_id <$> rows)
    /\ rows ≡ₚ pending /\ StronglySorted delivery_key_le rows /\ NoDup (dr_delivery_id <$> rows).
Proof.
  intros db pending Hids Hep Hscope Hlim Hfuel. pose proof (run_ok ops _ empty_ok : store_ok db) as Hok.
  assert (mailbox db ws p (rfc3339 now) None ≡ₚ pending) as Hp.
  { unfold mailbox, pending. rewrite merge_sort_Permutation.
    erewrite (List.filter_ext _ (pending_for ws p (rfc3339 now))); [done|]. intros d. simpl. apply andb_true_r. }
  exists (mailbox db ws p (rfc3339 now) None). split_and!; [|done| |].
  - apply (scan_rest fuel db ws p limit now None None); try done. simpl fmap. by rewrite Hp.
  - apply StronglySorted_merge_sort; apply _.
  - rewrite Hp. apply NoDup_fmap_filter, (ok_delivery_ids _ Hok).
Qed.

(** ** Acknowledgement events *)

(** The delivery whose acknowledgement an outbox row announces. *)
Definition ack_subject (r : OutboxRow) : option string :=
  e ← envelope_from_value (ob_envelope r);
  if ev_action e =s "message.acknowledged" then Some (resource_id (ev_resource e)) else None.
Definition ack_subjects (db : Tables) : list string := omap ack_subject (t_outbox db).
Definition is_acknowledged (db : Tables) (id : string) : Prop :=
  exists d, d ∈ t_deliveries db /\ dr_delivery_id d = id /\ is_some (dr_acknowledged_at d) = true.

Record ack_inv (db : Tables) : Prop := {
  ai_ok : store_ok db;
  ai_once : NoDup (ack_subjects db);
  ai_done : forall id, id ∈ ack_subjects db -> is_acknowledged db id;
  ai_stored : forall r a, r ∈ t_acks db -> ack_from_value (ao_response r) = Some a ->
                forall id, id ∈ ack_acknowledged a -> id ∈ ack_subjects db
}.

(** Steps that add no acknowledgement event and take none back. *)
Lemma ack_inv_step db db' :
  ack_inv db -> store_ok db' -> ack_subjects db' = ack_subjects db ->
  (forall id, is_acknowledged db id -> is_acknowledged db' id) -> t_acks db' = t_acks db -> ack_inv db'.
Proof. intros [H1 H2 H3 H4] Hok He Hd Ha. split; rewrite ?He, ?Ha; eauto. Qed.

Lemma acknowledged_grows base db id : grows base db -> is_acknowledged base id -> is_acknowledged db id.
Proof.
  intros [_ (o & d & Hd & HF & _) _ _ _ _] (x & [i Hi]%list_elem_of_lookup & Hid & Ha).
  destruct (Forall2_lookup_l _ _ _ _ _ HF Hi) as (y & Hy & Hu & Hs). exists y. split_and!.
  - rewrite Hd. apply elem_of_app. left. by eapply list_elem_of_lookup_2.
  - injection Hu as ? ? ? ? ? ? ? ? ? ? ?. congruence.
  - by rewrite (Hs Ha).
Qed.

(** Tables with the acknowledgements of [base]: what every other operation keeps. *)
Definition same_acks (base db : Tables) : Prop :=
  ack_subjects db = ack_subjects base /\ t_acks db = t_acks base.

(** An event of another kind has no subject. *)
Lemma other_event_subjects base e :
  (ev_action e =s "message.acknowledged") = false -> stable (same_acks base) (insert_outbox e).
Proof.
  intros Ha db [H1 H2]. unfold insert_outbox. destruct (envelope_to_value e) as [v|] eqn:Hv; [|done].
  unfold insert_outbox_row. case_match; [done|]. split; [|done]. rewrite <- H1. unfold ack_subjects. simpl.
  rewrite omap_app. simpl. unfold ack_subject at 2. simpl. rewrite (envelope_roundtrip _ _ Hv). simpl.
  by rewrite Ha, app_nil_r.
Qed.

Lemma same_acks_message base row : stable (same_acks base) (insert_message row).
Proof. intros db H. unfold insert_message. by case_match. Qed.

Lemma same_acks_deliveries base ds : stable (same_acks base) (st_for_each insert_delivery ds).
Proof. apply stable_for_each, Forall_true. intros x db H. unfold insert_delivery. by repeat case_match. Qed.

Lemma same_acks_contexts base xs : stable (same_acks base) (st_for_each insert_context xs).
Proof. apply stable_for_each, Forall_true. intros x db H. unfold insert_context. by repeat case_match. Qed.

Lemma send_subjects base ws sender recipients request rev checked_at now fresh :
  stable (same_acks base)
    (send_with_policy_revision ws sender recipients request rev checked_at now fresh).
Proof.
  unfold send_with_policy_revision. do 3 (apply stable_bind; [apply stable_lift|intros ?]).
  apply stable_transact, stable_bind; [intros d Hd; unfold replay_send; by repeat case_match|].
  intros [r|]; [apply stable_ret|]. apply stable_bind; [by intros d Hd|]. intros _.
  unfold create_message. apply stable_bind; [apply stable_lift|]. intros source.
  apply stable_bind; [apply same_acks_message|]. intros _.
  apply stable_bind; [apply same_acks_deliveries|]. intros _.
  apply stable_bind; [apply same_acks_contexts|]. intros _. apply stable_bind.
  { case_match; [|apply stable_ret]. intros d Hd. unfold insert_idempotency. by repeat case_match. }
  intros _. apply stable_bind; [by apply other_event_subjects|]. intros _.
  apply stable_bind; [by intros ??|intros ?; apply stable_ret].
Qed.

Lemma import_subjects base ws importer request now fresh :
  stable (same_acks base) (import_legacy_mail ws importer request now fresh).
Proof.
  unfold import_legacy_mail. do 2 (apply stable_bind; [apply stable_lift|intros ?]).
  apply stable_transact. intros db Hd. destruct (find_import _ _ _); [by repeat case_match|].
  revert db Hd. unfold import_new. apply stable_bind; [apply stable_fold|].
  - intros p m db Hd. unfold import_one. repeat (case_match; try done).
    apply stable_bind; [|intros ?; apply stable_ret|done]. unfold insert_legacy_message.
    apply stable_bind; [apply same_acks_message|]. intros _.
    apply stable_bind; [apply same_acks_deliveries|intros _; apply same_acks_contexts].
  - intros p. apply stable_bind; [apply stable_lift|]. intros v. apply stable_bind.
    + intros d Hd. unfold insert_import_operation. by case_match.
    + intros _. apply stable_bind; [by apply other_event_subjects|intros _; apply stable_ret].
Qed.

Lemma dispatch_subjects base accepts now rows n db :
  same_acks base db -> same_acks base (dispatch_loop accepts now rows n db).1.2.
Proof.
  revert n db. induction rows as [|row rows IH]; intros n db Hs; [done|]. simpl.
  repeat case_match; try done. simplify_eq/=.
  match goal with H : dispatch_loop _ _ _ _ ?db1 = _ |- _ =>
    specialize (IH (S n) db1); rewrite H in IH; apply IH end.
  destruct Hs as [Hs1 Hs2]. split; [|done]. rewrite <- Hs1. unfold ack_subjects. simpl.
  apply list_omap_ext, Forall2_fmap_l, Forall_Forall2_diag, Forall_true. intros ?. simpl. by case_match.
Qed.

(** One turn of an acknowledgement: the identifiers reported so far have their events. *)
Definition ack_progress (base : Tables) (acc : list string * list string) (db : Tables) : Prop :=
  ack_inv db /\ t_acks db = t_acks base /\ (forall id, id ∈ ack_subjects base -> id ∈ ack_subjects db)
  /\ forall id, id ∈ acc.1 -> id ∈ ack_subjects db.

Lemma acknowledge_one_progress base ws principal request rev now fresh acc id db acc' db' :
  ack_progress base acc db ->
  acknowledge_one ws principal request rev now fresh acc id db = (Ok acc', db') ->
  ack_progress base acc' db'.
Proof.
  intros (Hinv & Hacks & Hbase & Hacc) H. unfold acknowledge_one in H.
  destruct (List.find _ _) as [row|] eqn:Hf; [|done].
  destruct (is_some (dr_acknowledged_at row)) eqn:Ha; [by simplify_eq|].
  apply find_elem in Hf as [Hin Hrow]. unfold owned_delivery in Hrow. bool_hyps.
  rename select (delivery_is ws id row = true) into Hdel.
  assert (dr_delivery_id row = id) as Hid by (unfold delivery_is in Hdel; bool_hyps; by apply str_eqb_eq).
  pose proof Hinv as [Hok Honce Hdone Hstored].
  assert (id ∉ ack_subjects db) as Hnew.
  { intros (d & Hd & Hd' & Hda)%Hdone. rewrite (unique_row (ok_delivery_ids _ Hok) Hin Hd) in Ha; congruence. }
  pose proof (ok_mark ws id (rfc3339 now) ltac:(by eexists) db Hok) as Hokm.
  apply st_bind_ok_iff in H as ([] & dm & Hm & H). apply st_bind_ok_iff in H as (u & d1 & Ho & [= <- <-]).
  assert (store_ok d1) as Hok1.
  { rewrite Hm in Hokm. match type of Ho with insert_outbox ?e _ = _ =>
      pose proof (ok_insert_outbox e _ Hokm) as Hx end. simpl in Hx. by rewrite Ho in Hx. }
  apply insert_outbox_ok in Ho as (v & Hv & ->). injection Hm as <-.
  match goal with |- ack_progress _ _ ?d => assert (ack_subjects d = ack_subjects db ++ [id]) as Hs end.
  { unfold ack_subjects. simpl. rewrite omap_app. simpl. unfold ack_subject at 2. simpl.
    by rewrite (envelope_roundtrip _ _ Hv). }
  split; [split|split; [done|split]]; rewrite ?Hs.
  - done.
  - apply NoDup_app. split_and!; [done|set_solver|apply NoDup_singleton].
  - intros i [Hi|Hi%list_elem_of_singleton]%elem_of_app.
    + apply Hdone in Hi as (d & Hd & Hdi & Hda). exists (if delivery_is ws id d then mark_row (rfc3339 now) d else d).
      split_and!; [apply list_elem_of_fmap; by exists d|by case_match|by case_match].
    + subst i. exists (mark_row (rfc3339 now) row). split_and!; [|done|done].
      apply list_elem_of_fmap. exists row. by rewrite Hdel.
  - intros r a Hr Hv' i Hi. apply elem_of_app. left. by eapply Hstored.
  - intros i Hi. apply elem_of_app. left. auto.
  - simpl. intros i [Hi|Hi]%elem_of_app; apply elem_of_app; [left; auto|by right].
Qed.

Lemma st_fold_ind {A B} (Q : B -> Tables -> Prop) (f : B -> A -> Tx B) l :
  (forall b x db b' db', Q b db -> f b x db = (Ok b', db') -> Q b' db') ->
  forall acc db b' db', Q acc db -> st_fold f acc l db = (Ok b', db') -> Q b' db'.
Proof.
  intros Hf. induction l as [|x l IH]; intros acc db b' db' HQ H;
    [by injection H as <- <-|].
  simpl in H. apply st_bind_ok_iff in H as (a & d & H1 & H2). eauto.
Qed.

Lemma acknowledge_events ws principal request rev now fresh db r db' :
  ack_inv db ->
  acknowledge_with_policy_revision ws principal request rev now fresh db = (Ok r, db') ->
  ack_inv db' /\ forall id, id ∈ ack_acknowledged r -> id ∈ ack_subjects db'.
Proof.
  intros Hinv H. pose proof (ok_acknowledge ws principal request rev now fresh db (ai_ok _ Hinv)) as Hok'.
  rewrite H in Hok'. simpl in Hok'. unfold acknowledge_with_policy_revision in H.
  apply st_bind_ok_iff in H as ([] & d1 & [= _ <-] & H). apply st_bind_ok_iff in H as ([] & d2 & [= _ <-] & H).
  apply st_bind_ok_iff in H as (hash & d3 & [= _ <-] & H). unfold transact in H.
  destruct (find_ack _ _ _ _) as [row|] eqn:Hf.
  - destruct (ao_request_hash row =s hash); [|done]. simpl in H.
    destruct (ack_from_value (ao_response row)) as [a|] eqn:Hv; simplify_eq/=. split; [done|].
    apply find_elem in Hf as [Hin _]. by eapply (ai_stored _ Hinv).
  - destruct (acknowledge_new _ _ _ _ _ _ _ db) as [[r0|e] d0] eqn:Hn; simplify_eq.
    unfold acknowledge_new in Hn. apply st_bind_ok_iff in Hn as (lists & d4 & Hl & Hn).
    assert (ack_progress db lists d4) as (Hinv4 & Hacks & Hbase & Hacc).
    { assert (ack_progress db ([], []) db) as H0.
      { unfold ack_progress. split_and!; try done. intros id Hid. by apply elem_of_nil in Hid. }
      eapply (st_fold_ind (ack_progress db)); [|exact H0|exact Hl].
      intros; by eapply acknowledge_one_progress. }
    apply st_bind_ok_iff in Hn as (v & d5 & [= Hv <-] & Hn).
    destruct (ack_to_value _) as [v'|] eqn:Hv'; simplify_eq/=.
    apply st_bind_ok_iff in Hn as (u & d6 & Hi & [= <- <-]). simpl.
    unfold insert_ack_operation in Hi. case_match; simplify_eq/=. split; [|done].
    destruct Hinv4 as [H1 H2 H3 H4]. split; try done.
    intros row a [Hr|Hr%list_elem_of_singleton]%elem_of_app Ha id Hid; [by eapply H4|].
    subst row. simpl in Ha. rewrite (ack_roundtrip _ _ Hv') in Ha. simplify_eq/=. by apply Hacc.
Qed.

Lemma op_ack_inv db op : ack_inv db -> ack_inv (apply_op db op).
Proof.
  intros Hinv. pose proof (ai_ok _ Hinv) as Hok. pose proof (op_ok db op Hok) as Hok'.
  pose proof (op_grows db op (ok_delivery_ids _ Hok)) as Hg.
  assert (same_acks db (apply_op db op) -> ack_inv (apply_op db op)) as Hsame.
  { intros [Hs Ha]. apply (ack_inv_step db); try done. intros id. by apply acknowledged_grows. }
  destruct op; simpl in *.
  - by apply Hsame, send_subjects.
  - destruct (acknowledge_with_policy_revision _ _ _ _ _ _ db) as [[r|e] db'] eqn:H; simpl.
    + by eapply acknowledge_events.
    + enough (db' = db) as -> by done. unfold acknowledge_with_policy_revision, transact, st_bind, st_lift in H.
      by repeat case_match; simplify_eq/=.
  - by apply Hsame, import_subjects.
  - apply Hsame. unfold dispatch_pending. pose proof (dispatch_subjects db accepts now
      (take OUTBOX_BATCH_SIZE (outbox_pending db locked)) 0 db ltac:(done)).
    by repeat case_match; simplify_eq/=.
Qed.

Lemma run_ack_inv ops : ack_inv (run empty_tables ops).
Proof.
  apply stable_run; [intros op db; apply op_ack_inv|]. split; [apply empty_ok|constructor|..]; simpl.
  - intros id Hid. by apply elem_of_nil in Hid.
  - intros r a Hr. by apply elem_of_nil in Hr.
Qed.

(** Acknowledgement events are exact.  After any history, an acknowledgement that succeeds,
    also as a replay, reports only deliveries that have exactly one [message.acknowledged] event
    in the outbox; no delivery ever has two, and none has one without being acknowledged. *)
Theorem acknowledgement_events_are_exact ops ws principal request rev now fresh r db' :
  acknowledge_with_policy_revision ws principal request rev now fresh (run empty_tables ops) = (Ok r, db') ->
  (forall id, id ∈ ack_acknowledged r -> id ∈ ack_subjects db') /\ NoDup (ack_subjects db')
  /\ forall id, id ∈ ack_subjects db' -> is_acknowledged db' id.
Proof.
  intros H. destruct (acknowledge_events _ _ _ _ _ _ _ _ _ (run_ack_inv ops) H) as [[_ H1 H2 _] H3]. done.
Qed.

(** ** The outbox *)

Fixpoint take_while {A} (f : A -> bool) (l : list A) : list A :=
  match l with [] => [] | x :: l' => if f x then x :: take_while f l' else [] end.

Lemma take_while_take {A} (f : A -> bool) l : take_while f l = take (length (take_while f l)) l.
Proof. induction l as [|x l IH]; [done|]. simpl. destruct (f x); simpl; [by f_equal|done]. Qed.

Definition undispatched (locked : string -> bool) (r : OutboxRow) : bool :=
  negb (is_some (ob_dispatched_at r)) && negb (locked (ob_event_id r)).

Lemma mark_undispatched locked id at_ db :
  List.filter (undispatched locked) (t_outbox (mark_dispatched id at_ db).2)
  = List.filter (fun r => undispatched locked r && negb (ob_event_id r =s id)) (t_outbox db).
Proof.
  simpl. induction (t_outbox db) as [|r l IH]; [done|]. rewrite fmap_cons. simpl.
  destruct (ob_event_id r =s id) eqn:He; simpl.
  - unfold undispatched at 1. simpl. by rewrite andb_false_r.
  - rewrite IH. by rewrite andb_true_r.
Qed.

(** The rows of the batch that were published are the ones marked. *)
Lemma dispatch_loop_ok accepts now rows envs n db :
  Forall2 (fun r e => envelope_from_value (ob_envelope r) = Some e) rows envs ->
  exists db', dispatch_loop accepts now rows n db
    = (Ok (n + length (take_while accepts envs))%nat, db', take_while accepts envs)
    /\ forall locked, List.filter (undispatched locked) (t_outbox db')
       = List.filter (fun r => undispatched locked r && negb (bool_decide (ob_event_id r ∈
           ob_event_id <$> take (length (take_while accepts envs)) rows))) (t_outbox db).
Proof.
  intros HF. revert n db. induction HF as [|r e rows envs He HF IH]; intros n db.
  - exists db. split; [simpl; by rewrite Nat.add_0_r|]. intros locked. apply List.filter_ext. intros r.
    rewrite bool_decide_false; [by rewrite andb_true_r|apply not_elem_of_nil].
  - cbn [dispatch_loop take_while]. rewrite He. destruct (accepts e).
    + destruct (IH (S n) (mark_dispatched (ob_event_id r) (rfc3339 now) db).2) as (db' & -> & Hp).
      exists db'. split; [simpl; by rewrite Nat.add_succ_r|]. intros locked. rewrite Hp.
      cbn [length take]. rewrite fmap_cons.
      set (ids := ob_event_id <$> take (length (take_while accepts envs)) rows).
      rewrite (filter_narrow (undispatched locked)).
      rewrite (List.filter_ext (fun x => undispatched locked x && true) (undispatched locked))
        by (intros x; apply andb_true_r).
      rewrite (mark_undispatched locked (ob_event_id r) (rfc3339 now) db).
      induction (t_outbox db) as [|x l IHl]; [done|]. simpl.
      destruct (undispatched locked x); simpl; [|done].
      destruct (ob_event_id x =s ob_event_id r) eqn:Hx; simpl.
      * apply str_eqb_eq in Hx. rewrite (bool_decide_true (_ ∈ _ :: _)) by (rewrite Hx; constructor). done.
      * apply str_eqb_neq in Hx.
        assert (bool_decide (ob_event_id x ∈ ids) = bool_decide (ob_event_id x ∈ ob_event_id r :: ids)) as ->
          by (apply bool_decide_ext; set_solver).
        destruct (bool_decide _); simpl; by rewrite IHl.
    + exists db. split; [simpl; by rewrite Nat.add_0_r|]. intros locked. apply List.filter_ext. intros x.
      rewrite bool_decide_false; [by rewrite andb_true_r|apply not_elem_of_nil].
Qed.

#[local] Instance outbox_key_le_trans : Transitive outbox_key_le.
Proof. intros a b c. apply (transitivity (R:=key_le)). Qed.
#[local] Instance outbox_key_le_total : Total outbox_key_le.
Proof. intros a b. apply (total key_le). Qed.

Lemma NoDup_drop_filter {A B} (g : A -> B) `{!EqDecision B} l n :
  NoDup (g <$> l) -> List.filter (fun x => negb (bool_decide (g x ∈ g <$> take n l))) l = drop n l.
Proof.
  revert n. induction l as [|x l IH]; intros n Hnd; [by destruct n|].
  rewrite fmap_cons in Hnd. apply NoDup_cons in Hnd as [Hx Hnd]. destruct n as [|n].
  - simpl take. rewrite drop_0. rewrite (List.filter_ext _ (fun _ => true)).
    + clear. generalize (x :: l). intros k. induction k as [|y k IH]; [done|]. simpl. by f_equal.
    + intros y. by rewrite bool_decide_false by apply not_elem_of_nil.
  - simpl take. simpl drop. rewrite <- (IH n Hnd). rewrite fmap_cons. simpl.
    rewrite bool_decide_true by set_solver. simpl. clear IH.
    assert (forall y, y ∈ l -> g y <> g x) as Hne.
    { intros y Hy He. apply Hx. rewrite <- He. by apply list_elem_of_fmap_2. }
    generalize (g <$> take n l). intros ids. clear Hnd Hx.
    induction l as [|y l IHl]; [done|]. simpl.
    assert (bool_decide (g y ∈ g x :: ids) = bool_decide (g y ∈ ids)) as ->.
    { apply bool_decide_ext. specialize (Hne y ltac:(set_solver)). set_solver. }
    destruct (bool_decide _); simpl; rewrite IHl; done || set_solver.
Qed.

(** The outbox loses no event and keeps their order.  After any history, a dispatcher run
    that commits publishes the pending events oldest first, up to the first the bus refuses and
    at most 100, and exactly those leave the pending list; when the commit fails the tables are
    unchanged, so what was published is published again rather than lost. *)
Theorem outbox_dispatch_in_order ops accepts locked now :
  let db := run empty_tables ops in
  exists envs, Forall2 (fun r e => envelope_from_value (ob_envelope r) = Some e) (outbox_pending db locked) envs
  /\ let published := take_while accepts (take OUTBOX_BATCH_SIZE envs) in
     (exists db', dispatch_pending accepts locked now true db = (Ok (length published), db', published)
        /\ outbox_pending db' locked = drop (length published) (outbox_pending db locked))
     /\ dispatch_pending accepts locked now false db = (Err (MsgDatabase "commit"), db, published).
Proof.
  intros db. pose proof (run_ok ops _ empty_ok : store_ok db) as Hok.
  assert (Forall (fun r => exists e, envelope_from_value (ob_envelope r) = Some e) (outbox_pending db locked)) as HP.
  { unfold outbox_pending. rewrite merge_sort_Permutation. apply Forall_forall. intros r [Hr _]%filter_elem.
    pose proof (ok_outbox _ Hok) as Ho. rewrite Forall_forall in Ho. destruct (Ho r Hr) as (e & He & _).
    exists e. by apply envelope_roundtrip. }
  apply Forall_exists_Forall2_l in HP as [envs HF]. exists envs. split; [done|]. intros published.
  assert (Forall2 (fun r e => envelope_from_value (ob_envelope r) = Some e)
    (take OUTBOX_BATCH_SIZE (outbox_pending db locked)) (take OUTBOX_BATCH_SIZE envs)) as HF'
    by by apply Forall2_take.
  destruct (dispatch_loop_ok accepts now _ _ 0 db HF') as (db' & Hd & Hp). fold published in Hd, Hp.
  unfold dispatch_pending. rewrite Hd. split; [|done]. exists db'. split; [done|].
  unfold outbox_pending at 1. change (fun r => _ && _) with (undispatched locked). rewrite Hp.
  set (ids := ob_event_id <$> _). rewrite (filter_narrow (undispatched locked)), (merge_sort_filterb outbox_key_le).
  - rewrite (List.filter_ext (fun x => undispatched locked x && true) (undispatched locked))
      by (intros x; apply andb_true_r).
    change (merge_sort outbox_key_le (List.filter (undispatched locked) (t_outbox db))) with (outbox_pending db locked).
    unfold ids. rewrite take_take, Nat.min_l.
    + apply NoDup_drop_filter. unfold outbox_pending. rewrite merge_sort_Permutation.
      apply NoDup_fmap_filter, (ok_event_ids _ Hok).
    + unfold published. rewrite take_while_take, length_take. etrans; [apply Nat.le_min_r|]. rewrite length_take. lia.
  - intros x y [Hx _]%filter_elem [Hy _]%filter_elem H1 H2.
    assert ((ob_created_at x, ob_event_id x) = (ob_created_at y, ob_event_id y)) as He by by apply (anti_symm key_le).
    injection He as _ He. apply list_elem_of_lookup in Hx as [i Hi], Hy as [j Hj].
    assert (i = j) as ->; [|congruence]. eapply NoDup_lookup; [exact (ok_event_ids _ Hok)|..];
      rewrite list_lookup_fmap; [by rewrite Hi|rewrite Hj; simpl; congruence].
Qed.
End readable.
End facts.

(** ** The theorems at concrete inputs *)

Definition op_hello : MessageOp :=
  OpSend "w" sample_agent [sample_app; sample_human] (sample_request "hello" (Some "k") []) None 0 1
    (sample_ids "m1").
Definition op_again : MessageOp :=
  OpSend "w" sample_agent [sample_app; sample_human] (sample_request "again" None ["msg_m1"]) None 0 2
    (sample_ids "m2").
Definition hello_text : string :=
  fingerprint_text (send_fingerprint sample_agent [sample_app; sample_human]
    (sample_request "hello" (Some "k") [])).

(** The first send succeeds; after another message a retry under the same key is a replay. *)
Lemma send_is_idempotent_witness :
  exists r, sample_send "m1" "hello" (Some "k") [] 1 empty_tables = (Ok r, sample_db1)
  /\ (sample_send "m3" "hello" (Some "k") [] 9 (run sample_db1 [op_again])).1
     = Ok (mkSendMessageResponse (sent_message r) (sent_delivery_ids r) true).
Proof.
  destruct (sample_send "m1" "hello" (Some "k") [] 1 empty_tables) as [[r|e] db] eqn:H;
    [|vm_compute in H; discriminate H].
  exists r. assert (db = sample_db1) as -> by (unfold sample_db1; by rewrite H). split; [done|].
  unfold sample_send in H |- *.
  rewrite (send_is_idempotent (Env:=sample_env) "w" sample_agent [sample_app; sample_human]
    (sample_request "hello" (Some "k") []) None 0 1 (sample_ids "m1") "k" hello_text empty_tables r
    sample_db1 [op_again] [sample_app; sample_human] (sample_request "hello" (Some "k") []) None 0 9
    (sample_ids "m3") hello_text empty_ok eq_refl ltac:(vm_compute; reflexivity) H eq_refl
    ltac:(vm_compute; reflexivity) ltac:(vm_compute; reflexivity)).
  reflexivity.
Defined.

Lemma get_is_for_participants_witness :
  exists m, get (run empty_tables [op_hello]) "w" sample_human "msg_m1" = Ok m /\ takes_part sample_human m.
Proof.
  pose proof (get_is_for_participants [op_hello] "w" sample_human "msg_m1") as H.
  cbv zeta in H. destruct (get _ _ _ _) as [m|e] eqn:Hg; [exists m; split; [done|apply H]|].
  vm_compute in Hg. discriminate Hg.
Defined.

Lemma mailbox_scan_is_exact_witness :
  exists rows, scan 3 (run empty_tables [op_hello; op_again]) "w" sample_app 1 None 5
               = Ok (dr_delivery_id <$> rows) /\ length rows = 2%nat.
Proof.
  destruct (mailbox_scan_is_exact [op_hello; op_again] "w" sample_app 1 5 3) as (rows & H1 & H2 & _).
  - repeat (constructor; [by split_and!; [reflexivity|vm_compute; discriminate|reflexivity]|]). constructor.
  - reflexivity.
  - reflexivity.
  - by split; vm_compute.
  - apply Nat.ltb_lt. vm_compute. reflexivity.
  - exists rows. split; [done|]. rewrite H2. vm_compute. reflexivity.
Defined.

Definition ack_hello : AcknowledgeMessagesRequest :=
  mkAcknowledgeMessagesRequest None ["dlv_m11"] "op1".

Lemma acknowledgement_events_are_exact_witness :
  exists r db', acknowledge_with_policy_revision "w" sample_human ack_hello None 7 (sample_ids "m4")
                  (run empty_tables [op_hello]) = (Ok r, db')
  /\ ack_acknowledged r = ["dlv_m11"] /\ is_acknowledged db' "dlv_m11".
Proof.
  destruct (acknowledge_with_policy_revision "w" sample_human ack_hello None 7 (sample_ids "m4")
    (run empty_tables [op_hello])) as [[r|e] db'] eqn:H; [|vm_compute in H; discriminate H].
  exists r, db'. split; [done|]. assert (ack_acknowledged r = ["dlv_m11"]) as Hr.
  { vm_compute in H. by injection H as <- _. }
  split; [done|]. destruct (acknowledgement_events_are_exact _ _ _ _ _ _ _ _ _ H) as (H1 & _ & H3).
  apply H3, H1. rewrite Hr. by constructor.
Defined.

Lemma outbox_dispatch_in_order_witness :
  exists db' published, dispatch_pending (fun _ => true) (fun _ => false) 9 true
      (run empty_tables [op_hello; op_again]) = (Ok 2%nat, db', published)
  /\ outbox_pending db' (fun _ => false) = [].
Proof.
  destruct (outbox_dispatch_in_order [op_hello; op_again] (fun _ => true) (fun _ => false) 9)
    as (envs & HF & (db' & Hd & Hp) & _).
  assert (length envs = 2%nat) as Hl by (rewrite <- (Forall2_length _ _ _ HF); vm_compute; reflexivity).
  destruct envs as [|e1 [|e2 [|]]]; try discriminate Hl. simpl in Hd, Hp.
  exists db', [e1; e2]. split; [exact Hd|]. rewrite Hp. vm_compute. reflexivity.
Defined.
