(* ===== verification/UploadStore.v ===== *)
(** * Durable upload rows (crates/treer-proxy/src/upload_store.rs)

    The [machine_uploads] table: quotas and idempotency when an upload begins, the lease of one
    part, progress, the commit and the terminal states.

    [stamp] prints microseconds with a fixed width, so that its texts order as the instants do;
    a row holds the number of microseconds printed.  The JSON columns hold their values.

    [begin] is a transaction of several statements under an advisory lock of its machine; it is
    split into them ([begin_lookup], [begin_counts], [begin_insert]), and [upload_step]
    interleaves the statements of all the begins in progress with the other operations, which
    are single statements. *)

From S2P Require Import Prelude RustStr.
Local Open Scope Z_scope.

(** ** Limits *)

Definition MACHINE_UPLOAD_MAX_BYTES : Z := 128 * 1024 * 1024.
Definition MACHINE_UPLOAD_RECEIPT_RETENTION_SECONDS : Z := 10 * 60.
Definition UPLOADS_PER_USER : Z := 2.
Definition UPLOADS_PER_WORKSPACE : Z := 8.
Definition UPLOADS_PER_MACHINE : Z := 8.
Definition BEGINS_PER_MINUTE : Z := 10.
Definition DECLARED_BYTES_PER_MACHINE : Z := 8 * MACHINE_UPLOAD_MAX_BYTES.
Definition LEASE_SECONDS : Z := 150.
Definition COMMITTING_RECOVERY_SECONDS : Z := 120.
Definition PENDING_RECOVERY_SECONDS : Z := 300.

(** Instants are in nanoseconds; [to_rfc3339_opts(SecondsFormat::Micros, true)] cuts them. *)
Definition stamp (at_ : Z) : Z := at_ / 1000.

(** [u64 as i64] *)
Definition as_i64 (n : Z) : Z := if n <=? i64_max then n else n - 2 ^ 64.
(** [i64::saturating_add] *)
Definition saturating_add_i64 (a b : Z) : Z := Z.max (- 2 ^ 63) (Z.min (a + b) i64_max).

(** ** Rows *)

Record PartRecord : Type := mkPartRecord { part_offset : Z; part_length : Z; part_sha256 : string }.

Record UploadReceipt : Type := mkUploadReceipt {
  receipt_path : string;
  receipt_bytes_written : Z;
  receipt_sha256 : option string;
  receipt_committed_at : string;
  receipt_cleanup_pending : bool
}.

Inductive UploadState : Type :=
| UPending | UActive | UCommitting | UCommitted | UAborted | UExpired | UFailed.

#[export] Instance UploadState_eq_dec : EqDecision UploadState.
Proof. solve_decision. Defined.

Definition upload_state_as_str (s : UploadState) : string :=
  match s with
  | UPending => "pending" | UActive => "active" | UCommitting => "committing"
  | UCommitted => "committed" | UAborted => "aborted" | UExpired => "expired" | UFailed => "failed"
  end.

Definition upload_state_parse (text : string) : UploadState :=
  if text =s "pending" then UPending else if text =s "active" then UActive
  else if text =s "committing" then UCommitting else if text =s "committed" then UCommitted
  else if text =s "aborted" then UAborted else if text =s "expired" then UExpired else UFailed.

Definition is_terminal (s : UploadState) : bool :=
  match s with UCommitted | UAborted | UExpired | UFailed => true | _ => false end.

Record UploadRow : Type := mkUploadRow {
  up_id : string; up_workspace : string; up_server : string; up_directory : string;
  up_file_name : string; up_overwrite : bool; up_size : Z;
  up_subject_kind : string; up_subject_id : string; up_key : string;
  up_state : UploadState; up_offset : Z; up_parts : list PartRecord;
  up_lease_until : option Z; up_created_at : Z; up_last_part_at : Z;
  up_finished_at : option Z; up_result : option UploadReceipt; up_failure : option string
}.

Definition lease_held (row : UploadRow) (now : Z) : bool :=
  is_some_and (up_lease_until row) (fun until => now <? until).
Definition same_subject (row : UploadRow) (kind id : string) : bool :=
  (up_subject_kind row =s kind) && (up_subject_id row =s id).

(** The columns the updates set. *)
Definition with_state (row : UploadRow) (state : UploadState) (lease : option Z) : UploadRow :=
  mkUploadRow (up_id row) (up_workspace row) (up_server row) (up_directory row) (up_file_name row)
    (up_overwrite row) (up_size row) (up_subject_kind row) (up_subject_id row) (up_key row)
    state (up_offset row) (up_parts row) lease (up_created_at row) (up_last_part_at row)
    (up_finished_at row) (up_result row) (up_failure row).
Definition with_progress (row : UploadRow) (offset : Z) (parts : list PartRecord) (at_ : Z) : UploadRow :=
  mkUploadRow (up_id row) (up_workspace row) (up_server row) (up_directory row) (up_file_name row)
    (up_overwrite row) (up_size row) (up_subject_kind row) (up_subject_id row) (up_key row)
    (up_state row) offset parts (up_lease_until row) (up_created_at row) at_
    (up_finished_at row) (up_result row) (up_failure row).
Definition with_end (row : UploadRow) (state : UploadState) (result : option UploadReceipt)
    (failure : option string) (at_ : Z) : UploadRow :=
  mkUploadRow (up_id row) (up_workspace row) (up_server row) (up_directory row) (up_file_name row)
    (up_overwrite row) (up_size row) (up_subject_kind row) (up_subject_id row) (up_key row)
    state (up_offset row) (up_parts row) None (up_created_at row) (up_last_part_at row)
    (Some at_) result failure.

(** The conversions of the two BIGINT columns. *)
Definition row_from (row : UploadRow) : UploadRow :=
  mkUploadRow (up_id row) (up_workspace row) (up_server row) (up_directory row) (up_file_name row)
    (up_overwrite row) (Z.max (up_size row) 0) (up_subject_kind row) (up_subject_id row) (up_key row)
    (up_state row) (Z.max (up_offset row) 0) (up_parts row) (up_lease_until row) (up_created_at row)
    (up_last_part_at row) (up_finished_at row) (up_result row) (up_failure row).

Definition Rows : Type := list UploadRow.

(** [UPDATE machine_uploads SET .. WHERE p], and the rows it returns. *)
Definition update_where (p : UploadRow -> bool) (f : UploadRow -> UploadRow) (rows : Rows) : Rows :=
  (fun r => if p r then f r else r) <$> rows.
Definition returning (p : UploadRow -> bool) (f : UploadRow -> UploadRow) (rows : Rows)
  : option UploadRow :=
  (fun r => row_from (f r)) <$> List.find p rows.

(** ** Beginning an upload *)

Record BeginParams : Type := mkBeginParams {
  bp_workspace : string; bp_server : string; bp_directory : string; bp_file_name : string;
  bp_overwrite : bool; bp_size : Z; bp_subject_kind : string; bp_subject_id : string;
  bp_key : string; bp_upload_id : string
}.

Inductive BeginOutcome : Type :=
| Created (row : UploadRow)
| Replayed (row : UploadRow)
| BeginConflict
| Refused (code : string).

Definition same_key (p : BeginParams) (r : UploadRow) : bool :=
  same_subject r (bp_subject_kind p) (bp_subject_id p) && (up_workspace r =s bp_workspace p)
  && (up_server r =s bp_server p) && (up_key r =s bp_key p).

(** The row of the key, when there is one. *)
Definition begin_lookup (rows : Rows) (p : BeginParams) : option BeginOutcome :=
  match row_from <$> List.find (same_key p) rows with
  | None => None
  | Some existing =>
      Some (if (up_directory existing =s bp_directory p) && (up_file_name existing =s bp_file_name p)
               && Bool.eqb (up_overwrite existing) (bp_overwrite p) && (up_size existing =? bp_size p)
            then Replayed existing else BeginConflict)
  end.

Definition is_live (r : UploadRow) : bool :=
  match up_state r with UPending | UActive | UCommitting => true | _ => false end.
Definition on_machine (ws server : string) (r : UploadRow) : bool :=
  (up_workspace r =s ws) && (up_server r =s server).

Definition count (p : UploadRow -> bool) (rows : Rows) : Z := Z.of_nat (length (List.filter p rows)).
Definition sum_sizes (rows : Rows) : Z := foldr (fun r n => up_size r + n) 0 rows.

Definition live_of_user (kind id : string) (r : UploadRow) : bool := same_subject r kind id && is_live r.
Definition live_in_workspace (ws : string) (r : UploadRow) : bool := (up_workspace r =s ws) && is_live r.
Definition live_on_machine (ws server : string) (r : UploadRow) : bool := on_machine ws server r && is_live r.

Record BeginCounts : Type := mkBeginCounts {
  bc_by_user : Z; bc_by_workspace : Z; bc_by_machine : Z; bc_declared : Z; bc_recent : Z
}.

(** The one query of the five counts. *)
Definition begin_counts (rows : Rows) (p : BeginParams) (now : Z) : BeginCounts :=
  mkBeginCounts
    (count (live_of_user (bp_subject_kind p) (bp_subject_id p)) rows)
    (count (live_in_workspace (bp_workspace p)) rows)
    (count (live_on_machine (bp_workspace p) (bp_server p)) rows)
    (sum_sizes (List.filter (live_on_machine (bp_workspace p) (bp_server p)) rows))
    (count (fun r => same_subject r (bp_subject_kind p) (bp_subject_id p)
                     && (stamp (now - from_secs 60) <? up_created_at r)) rows).

Definition begin_refused (c : BeginCounts) (p : BeginParams) : option string :=
  if BEGINS_PER_MINUTE <=? bc_recent c then Some "machine_upload_rate_limited"
  else if (UPLOADS_PER_USER <=? bc_by_user c) || (UPLOADS_PER_WORKSPACE <=? bc_by_workspace c)
          || (UPLOADS_PER_MACHINE <=? bc_by_machine c)
          || (DECLARED_BYTES_PER_MACHINE <? saturating_add_i64 (bc_declared c) (as_i64 (bp_size p)))
  then Some "machine_upload_busy"
  else None.

Definition new_row (p : BeginParams) (now : Z) : UploadRow :=
  mkUploadRow (bp_upload_id p) (bp_workspace p) (bp_server p) (bp_directory p) (bp_file_name p)
    (bp_overwrite p) (as_i64 (bp_size p)) (bp_subject_kind p) (bp_subject_id p) (bp_key p)
    UPending 0 [] None (stamp now) (stamp now) None None None.

(** The insert, with the primary key and the unique index of the key. *)
Definition begin_insert (rows : Rows) (p : BeginParams) (now : Z) : Result UploadRow string * Rows :=
  if existsb (fun r => (up_id r =s bp_upload_id p) || same_key p r) rows
  then (Err "unique constraint violated", rows)
  else (Ok (new_row p now), rows ++ [new_row p now]).

(** The whole transaction, when nothing comes between its statements. *)
Definition begin (p : BeginParams) (now : Z) (rows : Rows) : Result BeginOutcome string * Rows :=
  match begin_lookup rows p with
  | Some outcome => (Ok outcome, rows)
  | None =>
      match begin_refused (begin_counts rows p now) p with
      | Some code => (Ok (Refused code), rows)
      | None => let '(r, rows') := begin_insert rows p now in
                (let? row := r in Ok (Created (row_from row)), rows')
      end
  end.

(** ** The other operations: one statement each *)

Definition id_is (id : string) (r : UploadRow) : bool := up_id r =s id.
Definition state_is (s : UploadState) (r : UploadRow) : bool := bool_decide (up_state r = s).
Definition lease_free (now : Z) (r : UploadRow) : bool := is_none_or (up_lease_until r) (fun u => u <? now).

Definition activate (id : string) (rows : Rows) : Rows :=
  update_where (fun r => id_is id r && state_is UPending r)
    (fun r => with_state r UActive (up_lease_until r)) rows.

Definition delete (id : string) (rows : Rows) : Rows := List.filter (fun r => negb (id_is id r)) rows.

Definition get (id : string) (rows : Rows) : option UploadRow := row_from <$> List.find (id_is id) rows.

Definition newest_first (a b : UploadRow) : Prop := up_created_at b <= up_created_at a.
#[export] Instance newest_first_dec : RelDecision newest_first.
Proof. intros a b. unfold newest_first. apply _. Defined.

Definition list_own (ws server kind id : string) (key : option string) (rows : Rows) : Rows :=
  row_from <$> take 16 (merge_sort newest_first (List.filter (fun r =>
    on_machine ws server r && same_subject r kind id && is_none_or key (fun k => up_key r =s k)) rows)).

Definition leasable (id : string) (now : Z) (r : UploadRow) : bool :=
  id_is id r && (state_is UPending r || state_is UActive r) && lease_free (stamp now) r.
Definition take_lease (now : Z) (r : UploadRow) : UploadRow :=
  with_state r (up_state r) (Some (stamp (now + from_secs LEASE_SECONDS))).
Definition acquire_lease (id : string) (now : Z) (rows : Rows) : option UploadRow * Rows :=
  (returning (leasable id now) (take_lease now) rows, update_where (leasable id now) (take_lease now) rows).

Definition release_lease (id : string) (rows : Rows) : Rows :=
  update_where (id_is id) (fun r => with_state r (up_state r) None) rows.

Definition record_progress (id : string) (offset : Z) (parts : list PartRecord) (now : Z) (rows : Rows)
  : Rows :=
  update_where (fun r => id_is id r && (state_is UActive r || state_is UCommitting r))
    (fun r => with_progress r (as_i64 offset) parts (stamp now)) rows.

Definition committable (id : string) (now : Z) (r : UploadRow) : bool :=
  id_is id r && state_is UActive r && (up_offset r =? up_size r) && lease_free (stamp now) r.
Definition to_committing (now : Z) (r : UploadRow) : UploadRow :=
  with_state r UCommitting (Some (stamp (now + from_secs LEASE_SECONDS))).
Definition start_commit (id : string) (now : Z) (rows : Rows) : option UploadRow * Rows :=
  (returning (committable id now) (to_committing now) rows,
   update_where (committable id now) (to_committing now) rows).

Definition set_committed (id : string) (receipt : UploadReceipt) (now : Z) (rows : Rows) : Rows :=
  update_where (fun r => id_is id r && (state_is UActive r || state_is UCommitting r))
    (fun r => with_end r UCommitted (Some receipt) (up_failure r) (stamp now)) rows.

Definition set_terminal (id : string) (state : UploadState) (code : string) (now : Z) (rows : Rows) : Rows :=
  update_where (fun r => id_is id r && is_live r)
    (fun r => with_end r state (up_result r) (Some code) (stamp now)) rows.

Definition oldest_first (a b : UploadRow) : Prop := up_created_at a <= up_created_at b.
#[export] Instance oldest_first_dec : RelDecision oldest_first.
Proof. intros a b. unfold oldest_first. apply _. Defined.

Definition expiry_candidates (idle_seconds lifetime_seconds now : Z) (rows : Rows) : Rows :=
  let idle := stamp (now - from_secs idle_seconds) in
  let overage := stamp (now - from_secs lifetime_seconds) in
  let pending := stamp (now - from_secs PENDING_RECOVERY_SECONDS) in
  let committing := stamp (now - from_secs (COMMITTING_RECOVERY_SECONDS - LEASE_SECONDS)) in
  row_from <$> take 64 (merge_sort oldest_first (List.filter (fun r =>
    state_is UActive r && ((up_last_part_at r <? idle) || (up_created_at r <? overage))
    || state_is UPending r && (up_created_at r <? pending)
    || state_is UCommitting r && (is_none_or (up_lease_until r) (fun u => u <? committing)
                                  || (up_created_at r <? overage))) rows)).

Definition purgeable (now : Z) (r : UploadRow) : bool :=
  is_terminal (up_state r)
  && is_some_and (up_finished_at r)
       (fun f => f <? stamp (now - from_secs MACHINE_UPLOAD_RECEIPT_RETENTION_SECONDS)).
Definition purge_terminal (now : Z) (rows : Rows) : Z * Rows :=
  (count (purgeable now) rows, List.filter (fun r => negb (purgeable now r)) rows).

(** ** Interleavings *)

Inductive UploadOp : Type :=
| Activate (id : string)
| Delete (id : string)
| Acquire (id : string) (now : Z)
| Release (id : string)
| Progress (id : string) (offset : Z) (parts : list PartRecord) (now : Z)
| StartCommit (id : string) (now : Z)
| SetCommitted (id : string) (receipt : UploadReceipt) (now : Z)
| SetTerminal (id : string) (state : UploadState) (code : string) (now : Z)
| Purge (now : Z).

Definition upload_apply (rows : Rows) (op : UploadOp) : Rows :=
  match op with
  | Activate id => activate id rows
  | Delete id => delete id rows
  | Acquire id now => (acquire_lease id now rows).2
  | Release id => release_lease id rows
  | Progress id offset parts now => record_progress id offset parts now rows
  | StartCommit id now => (start_commit id now rows).2
  | SetCommitted id receipt now => set_committed id receipt now rows
  | SetTerminal id state code now => set_terminal id state code now rows
  | Purge now => (purge_terminal now rows).2
  end.

(** A begin in progress: it holds its machine's advisory lock. *)
Record Running : Type := mkRunning { run_params : BeginParams; run_now : Z; run_counted : bool }.

Record UploadSys : Type := mkUploadSys { sys_rows : Rows; sys_running : list Running }.

Inductive UploadLabel : Type :=
| LookUp (p : BeginParams) (now : Z)
| Count (n : nat)
| Insert (n : nat)
| Abandon (n : nat)
| Statement (op : UploadOp).

Definition lock_of (p : BeginParams) : string * string := (bp_workspace p, bp_server p).

Definition drop_running (n : nat) (l : list Running) : list Running := take n l ++ drop (S n) l.

(** One statement of one client.  A label that is not enabled changes nothing. *)
Definition upload_step (s : UploadSys) (l : UploadLabel) : UploadSys :=
  match l with
  | LookUp p now =>
      if bool_decide (lock_of p ∈ (fun r => lock_of (run_params r)) <$> sys_running s) then s
      else if is_some (begin_lookup (sys_rows s) p) then s
      else mkUploadSys (sys_rows s) (sys_running s ++ [mkRunning p now false])
  | Count n =>
      match sys_running s !! n with
      | Some (mkRunning p now false) =>
          if is_some (begin_refused (begin_counts (sys_rows s) p now) p)
          then mkUploadSys (sys_rows s) (drop_running n (sys_running s))
          else mkUploadSys (sys_rows s) (<[n := mkRunning p now true]> (sys_running s))
      | _ => s
      end
  | Insert n =>
      match sys_running s !! n with
      | Some (mkRunning p now true) =>
          mkUploadSys (begin_insert (sys_rows s) p now).2 (drop_running n (sys_running s))
      | _ => s
      end
  | Abandon n => mkUploadSys (sys_rows s) (drop_running n (sys_running s))
  | Statement op => mkUploadSys (upload_apply (sys_rows s) op) (sys_running s)
  end.

Definition upload_run (s : UploadSys) (labels : list UploadLabel) : UploadSys := foldl upload_step s labels.
Definition upload_init : UploadSys := mkUploadSys [] [].

(** ** What a single statement can do to a row *)

(** The steps of an upload's life. *)
Inductive Transition : UploadState -> UploadState -> Prop :=
| TStay s : Transition s s
| TActivate : Transition UPending UActive
| TStart : Transition UActive UCommitting
| TFinish s : s = UActive \/ s = UCommitting -> Transition s UCommitted
| TEnd s t : is_terminal s = false -> t = UAborted \/ t = UExpired \/ t = UFailed -> Transition s t.

(** What a row keeps from its begin. *)
Definition same_upload (r r' : UploadRow) : Prop :=
  up_id r' = up_id r /\ up_workspace r' = up_workspace r /\ up_server r' = up_server r
  /\ up_directory r' = up_directory r /\ up_file_name r' = up_file_name r
  /\ up_overwrite r' = up_overwrite r /\ up_size r' = up_size r
  /\ up_subject_kind r' = up_subject_kind r /\ up_subject_id r' = up_subject_id r
  /\ up_key r' = up_key r /\ up_created_at r' = up_created_at r.

(** What a terminal row keeps: its outcome. *)
Definition same_outcome (r r' : UploadRow) : Prop :=
  up_state r' = up_state r /\ up_result r' = up_result r /\ up_failure r' = up_failure r
  /\ up_finished_at r' = up_finished_at r /\ up_offset r' = up_offset r /\ up_parts r' = up_parts r.

Definition op_wf (op : UploadOp) : Prop :=
  match op with
  | SetTerminal _ state _ _ => state = UAborted \/ state = UExpired \/ state = UFailed
  | _ => True
  end.

Definition evolves (r r' : UploadRow) : Prop :=
  same_upload r r' /\ Transition (up_state r) (up_state r')
  /\ (is_terminal (up_state r) = true -> same_outcome r r').

Lemma evolves_refl r : evolves r r.
Proof. by split; [|split; [constructor|]]. Qed.

Lemma live_not_terminal r : is_live r = negb (is_terminal (up_state r)).
Proof. unfold is_live. by destruct (up_state r). Qed.

Lemma update_rows p f rows r' :
  (forall r, p r = true -> evolves r (f r)) -> r' ∈ update_where p f rows ->
  exists r, r ∈ rows /\ evolves r r'.
Proof.
  intros Hf (r & -> & Hr)%list_elem_of_fmap. exists r. split; [done|].
  destruct (p r) eqn:Hp; [by apply Hf|apply evolves_refl].
Qed.

(** A statement updates some rows, or deletes some. *)
Lemma statement_shape rows op :
  op_wf op ->
  (exists p f, upload_apply rows op = update_where p f rows /\ forall r, p r = true -> evolves r (f r))
  \/ (exists p, upload_apply rows op = List.filter p rows).
Proof.
  intros Hwf. destruct op; simpl.
  - left. eexists _, _. split; [reflexivity|]. intros r H. simpl in H. unfold state_is in H. bool_hyps.
    rewrite bool_decide_eq_true in *. split; [done|]. simpl. rewrite H0. split; [constructor|done].
  - right. eexists. reflexivity.
  - left. eexists _, _. split; [reflexivity|]. intros r H. simpl in H. by split; [|split; [constructor|]].
  - left. eexists _, _. split; [reflexivity|]. intros r H. simpl in H. by split; [|split; [constructor|]].
  - left. eexists _, _. split; [reflexivity|]. intros r H. simpl in H. unfold state_is in H. bool_hyps.
    split; [done|]. split; [constructor|]. simpl. intros Ht.
    apply orb_prop in H0 as [H0|H0]; apply bool_decide_eq_true in H0; by rewrite H0 in Ht.
  - left. eexists _, _. split; [reflexivity|]. intros r H. simpl in H. unfold committable, state_is in H. bool_hyps.
    rewrite bool_decide_eq_true in *. split; [done|]. simpl. rewrite H2. split; [constructor|done].
  - left. eexists _, _. split; [reflexivity|]. intros r H. simpl in H. unfold state_is in H. bool_hyps. split; [done|].
    apply orb_prop in H0 as [H0|H0]; apply bool_decide_eq_true in H0; rewrite H0; simpl;
      (split; [constructor; auto|done]).
  - left. eexists _, _. split; [reflexivity|]. intros r H. simpl in H. bool_hyps. rewrite live_not_terminal in H0.
    bool_hyps. split; [done|]. split; [by constructor|]. simpl. by rewrite H0.
  - right. eexists. reflexivity.
Qed.

Lemma statement_rows rows op r' :
  op_wf op -> r' ∈ upload_apply rows op -> exists r, r ∈ rows /\ evolves r r'.
Proof.
  intros [(p & f & -> & Hf)|[p ->]]%(statement_shape rows); [by apply update_rows|].
  intros [Hr _]%filter_elem. exists r'. by split; [|apply evolves_refl].
Qed.

Lemma transition_live s t : Transition s t -> is_terminal t = false -> is_terminal s = false.
Proof. by intros []. Qed.

Definition label_wf (l : UploadLabel) : Prop :=
  match l with
  | LookUp p _ => 0 <= bp_size p <= MACHINE_UPLOAD_MAX_BYTES
  | Statement op => op_wf op
  | _ => True
  end.

Lemma step_rows s l r' :
  label_wf l -> r' ∈ sys_rows (upload_step s l) ->
  (exists r, r ∈ sys_rows s /\ evolves r r')
  \/ (up_state r' = UPending /\ forall r, r ∈ sys_rows s -> up_id r <> up_id r').
Proof.
  assert (r' ∈ sys_rows s -> (exists r, r ∈ sys_rows s /\ evolves r r')
    \/ (up_state r' = UPending /\ forall r, r ∈ sys_rows s -> up_id r <> up_id r')) as Hsame.
  { intros H. left. exists r'. by split; [|apply evolves_refl]. }
  intros Hwf. destruct l; simpl; try by (repeat case_match).
  - destruct (sys_running s !! n) as [[p now []]|]; simpl; try done. unfold begin_insert.
    destruct (existsb _ _) eqn:Hx; simpl; [done|]. intros [H|H%list_elem_of_singleton]%elem_of_app; [by auto|].
    subst r'. right. split; [done|]. simpl. intros r Hr He.
    enough (existsb (fun r => (up_id r =s bp_upload_id p) || same_key p r) (sys_rows s) = true) by congruence.
    apply existsb_elem. exists r. by rewrite (proj2 (str_eqb_eq _ _) He).
  - intros H. left. by apply (statement_rows _ op).
Qed.

(** Every upload row follows one life, whatever the interleaving of begins, parts, commits
    and expiries of all the Proxy instances.  A row that appears is [pending] under a new
    identifier; afterwards its destination, size and owner never change, its state moves only
    along pending, active, committing, committed or into aborted, expired or failed, and once
    the state is terminal its state, receipt, failure code and progress stay as they are. *)
Theorem uploads_follow_their_life s l r' :
  label_wf l -> r' ∈ sys_rows (upload_step s l) ->
  (exists r, r ∈ sys_rows s /\ same_upload r r' /\ Transition (up_state r) (up_state r')
     /\ (is_terminal (up_state r) = true -> same_outcome r r'))
  \/ (up_state r' = UPending /\ forall r, r ∈ sys_rows s -> up_id r <> up_id r').
Proof. intros Hwf [(r & Hr & Hs & Ht & Ho)|H]%step_rows; [left; by exists r|by right|done]. Qed.

(** ** Quotas of a machine *)

Lemma count_app p l1 l2 : count p (l1 ++ l2) = count p l1 + count p l2.
Proof. unfold count. rewrite List.filter_app, length_app. lia. Qed.

Lemma sum_sizes_app l1 l2 : sum_sizes (l1 ++ l2) = sum_sizes l1 + sum_sizes l2.
Proof. induction l1 as [|r l1 IH]; simpl; [done|]. unfold sum_sizes in *. simpl. lia. Qed.

(** The load of a machine: its live uploads and their declared bytes. *)
Definition machine_count (rows : Rows) (ws server : string) : Z := count (live_on_machine ws server) rows.
Definition machine_bytes (rows : Rows) (ws server : string) : Z :=
  sum_sizes (List.filter (live_on_machine ws server) rows).

Lemma load_cons r rows ws server :
  machine_count (r :: rows) ws server
    = (if live_on_machine ws server r then 1 else 0) + machine_count rows ws server
  /\ machine_bytes (r :: rows) ws server
    = (if live_on_machine ws server r then up_size r else 0) + machine_bytes rows ws server.
Proof.
  unfold machine_count, machine_bytes, count. simpl. destruct (live_on_machine ws server r); simpl; [|lia].
  split; [lia|]. done.
Qed.

Definition lighter (rows rows' : Rows) : Prop :=
  Forall (fun r => 0 <= up_size r) rows' /\ forall ws server,
    machine_count rows' ws server <= machine_count rows ws server
    /\ machine_bytes rows' ws server <= machine_bytes rows ws server.

Lemma lighter_filter p rows :
  Forall (fun r => 0 <= up_size r) rows -> lighter rows (List.filter p rows).
Proof.
  induction 1 as [|r rows Hr _ [IH1 IH2]]; [split; [constructor|done]|]. simpl. split.
  - case_match; [by constructor|done].
  - intros ws server. destruct (load_cons r rows ws server) as [-> ->].
    specialize (IH2 ws server). destruct (p r).
    + destruct (load_cons r (List.filter p rows) ws server) as [-> ->]. case_match; lia.
    + case_match; lia.
Qed.

Lemma lighter_update p f rows :
  (forall r, p r = true -> evolves r (f r)) ->
  Forall (fun r => 0 <= up_size r) rows -> lighter rows (update_where p f rows).
Proof.
  intros Hf. induction 1 as [|r rows Hr _ [IH1 IH2]]; [split; [constructor|done]|].
  assert (evolves r (if p r then f r else r)) as (Hs & Ht & _).
  { destruct (p r) eqn:Hp; [by apply Hf|apply evolves_refl]. }
  unfold update_where in *. rewrite fmap_cons. set (r' := if p r then f r else r) in *.
  destruct Hs as (_ & Hw & Hsv & _ & _ & _ & Hsz & _).
  split; [constructor; [by rewrite Hsz|done]|]. intros ws server. specialize (IH2 ws server).
  destruct (load_cons r rows ws server) as [-> ->].
  match goal with |- context [machine_count (r' :: ?l)] => destruct (load_cons r' l ws server) as [-> ->] end.
  assert (live_on_machine ws server r' = true -> live_on_machine ws server r = true) as Hl.
  { unfold live_on_machine, on_machine. rewrite Hw, Hsv, !live_not_terminal.
    intros [-> H%negb_true_iff]%andb_prop. apply negb_true_iff. by eapply transition_live. }
  destruct (live_on_machine ws server r') eqn:H1; [rewrite (Hl eq_refl); lia|].
  destruct (live_on_machine ws server r); lia.
Qed.

(** No single statement adds to a machine's load. *)
Lemma statement_lighter rows op :
  op_wf op -> Forall (fun r => 0 <= up_size r) rows -> lighter rows (upload_apply rows op).
Proof.
  intros [(p & f & -> & Hf)|[p ->]]%(statement_shape rows); [by apply lighter_update|apply lighter_filter].
Qed.

(** A begin that has counted and not yet inserted still fits on its machine. *)
Definition fits (rows : Rows) (r : Running) : Prop :=
  run_counted r = true ->
  machine_count rows (bp_workspace (run_params r)) (bp_server (run_params r)) + 1 <= UPLOADS_PER_MACHINE
  /\ machine_bytes rows (bp_workspace (run_params r)) (bp_server (run_params r)) + bp_size (run_params r)
     <= DECLARED_BYTES_PER_MACHINE.

Record quota_inv (s : UploadSys) : Prop := {
  qi_sizes : Forall (fun r => 0 <= up_size r) (sys_rows s);
  qi_locks : NoDup ((fun r => lock_of (run_params r)) <$> sys_running s);
  qi_params : Forall (fun r => 0 <= bp_size (run_params r) <= MACHINE_UPLOAD_MAX_BYTES) (sys_running s);
  qi_fits : Forall (fits (sys_rows s)) (sys_running s);
  qi_load : forall ws server, machine_count (sys_rows s) ws server <= UPLOADS_PER_MACHINE
              /\ machine_bytes (sys_rows s) ws server <= DECLARED_BYTES_PER_MACHINE
}.

Lemma as_i64_small n : 0 <= n <= MACHINE_UPLOAD_MAX_BYTES -> as_i64 n = n.
Proof.
  unfold as_i64, MACHINE_UPLOAD_MAX_BYTES, i64_max. intros H. by destruct (Z.leb_spec n (2 ^ 63 - 1)); [|lia].
Qed.

Lemma fits_lighter rows rows' r : lighter rows rows' -> fits rows r -> fits rows' r.
Proof.
  intros [_ Hl] Hf Hc. specialize (Hf Hc). specialize (Hl (bp_workspace (run_params r)) (bp_server (run_params r))).
  lia.
Qed.

(** What the counts of a begin establish about its machine. *)
Lemma counts_fit rows p now :
  0 <= bp_size p <= MACHINE_UPLOAD_MAX_BYTES ->
  machine_bytes rows (bp_workspace p) (bp_server p) <= DECLARED_BYTES_PER_MACHINE ->
  begin_refused (begin_counts rows p now) p = None -> fits rows (mkRunning p now true).
Proof.
  intros Hs Hb H _. unfold begin_refused in H. repeat case_match; try done. simpl in *. bool_hyps.
  rename select ((UPLOADS_PER_MACHINE <=? _) = false) into Hn.
  rename select ((DECLARED_BYTES_PER_MACHINE <? _) = false) into Hd.
  apply Z.leb_gt in Hn. apply Z.ltb_ge in Hd. rewrite (as_i64_small _ Hs) in Hd.
  unfold saturating_add_i64, machine_bytes, machine_count, DECLARED_BYTES_PER_MACHINE,
    UPLOADS_PER_MACHINE, MACHINE_UPLOAD_MAX_BYTES, i64_max in *. lia.
Qed.

Lemma drop_running_elem n l (r : Running) : r ∈ drop_running n l -> r ∈ l.
Proof.
  unfold drop_running. intros [H|H]%elem_of_app; [by apply (subseteq_take n)|by apply (subseteq_drop (S n))].
Qed.

Lemma drop_running_NoDup {B} (g : Running -> B) n l : NoDup (g <$> l) -> NoDup (g <$> drop_running n l).
Proof.
  intros H. unfold drop_running. rewrite fmap_app, fmap_take, fmap_drop.
  eapply sublist_NoDup; [exact H|]. rewrite <- (take_drop n (g <$> l)) at 3. apply sublist_app; [done|].
  assert (drop (S n) (g <$> l) = drop 1 (drop n (g <$> l))) as -> by (rewrite drop_drop; f_equal; lia).
  apply sublist_drop.
Qed.

Lemma drop_running_other n l r r' :
  NoDup ((fun r => lock_of (run_params r)) <$> l) -> l !! n = Some r -> r' ∈ drop_running n l ->
  lock_of (run_params r') <> lock_of (run_params r).
Proof.
  intros Hnd Hn Hin He. rewrite <- (take_drop_middle l n r Hn) in Hnd. rewrite fmap_app, fmap_cons in Hnd.
  apply NoDup_app in Hnd as (_ & H2 & H3). apply NoDup_cons in H3 as [H3 _].
  unfold drop_running in Hin. apply elem_of_app in Hin as [Hin|Hin].
  - apply (H2 (lock_of (run_params r'))); [by apply (list_elem_of_fmap_2 (fun r => lock_of (run_params r)))|].
    rewrite He. constructor.
  - apply H3. rewrite <- He. by apply (list_elem_of_fmap_2 (fun r => lock_of (run_params r))).
Qed.

Lemma load_snoc rows r ws server :
  machine_count (rows ++ [r]) ws server
    = machine_count rows ws server + (if live_on_machine ws server r then 1 else 0)
  /\ machine_bytes (rows ++ [r]) ws server
    = machine_bytes rows ws server + (if live_on_machine ws server r then up_size r else 0).
Proof.
  unfold machine_count, machine_bytes. rewrite count_app, List.filter_app, sum_sizes_app. unfold count. simpl.
  destruct (live_on_machine ws server r); simpl; lia.
Qed.

Lemma live_new p now ws server : live_on_machine ws server (new_row p now) = bool_decide ((ws, server) = lock_of p).
Proof.
  unfold live_on_machine, on_machine, lock_of. simpl. rewrite andb_true_r.
  case_bool_decide as He.
  - injection He as -> ->. by rewrite !str_eqb_refl.
  - destruct (_ =s ws) eqn:H1; [|done]. destruct (_ =s server) eqn:H2; [|done].
    rewrite !str_eqb_eq in *. by subst.
Qed.

Lemma quota_insert s n p now :
  quota_inv s -> sys_running s !! n = Some (mkRunning p now true) ->
  quota_inv (mkUploadSys (begin_insert (sys_rows s) p now).2 (drop_running n (sys_running s))).
Proof.
  intros [Hsz Hl Hp Hf Hq] Hn. assert (mkRunning p now true ∈ sys_running s) as Hin
    by by eapply list_elem_of_lookup_2.
  rewrite Forall_forall in Hp, Hf. pose proof (Hp _ Hin) as Hps. pose proof (Hf _ Hin eq_refl) as Hfit. simpl in *.
  unfold begin_insert. destruct (existsb _ _); simpl.
  { split; simpl; [done|by apply drop_running_NoDup|apply Forall_forall; intros r Hr%drop_running_elem; auto..|done]. }
  assert (as_i64 (bp_size p) = bp_size p) as Hsize by by apply as_i64_small.
  split; simpl.
  - apply Forall_app. split; [done|]. repeat constructor. simpl. lia.
  - by apply drop_running_NoDup.
  - apply Forall_forall. intros r Hr%drop_running_elem. auto.
  - apply Forall_forall. intros r Hr Hc. pose proof (drop_running_other _ _ _ _ Hl Hn Hr) as Hne. simpl in Hne.
    apply drop_running_elem in Hr. specialize (Hf r Hr Hc).
    destruct (load_snoc (sys_rows s) (new_row p now) (bp_workspace (run_params r)) (bp_server (run_params r))) as [-> ->].
    rewrite live_new, bool_decide_false by done. lia.
  - intros ws server. destruct (load_snoc (sys_rows s) (new_row p now) ws server) as [-> ->]. rewrite live_new.
    specialize (Hq ws server). case_bool_decide as He; [|lia]. injection He as -> ->. simpl. rewrite Hsize. lia.
Qed.

Lemma quota_step s l : label_wf l -> quota_inv s -> quota_inv (upload_step s l).
Proof.
  intros Hwf Hi. destruct l as [p now|n|n|n|op]; simpl.
  - case_bool_decide as Hlock; [done|]. case_match; [done|]. destruct Hi as [Hsz Hl Hp Hf Hq]. split; simpl; try done.
    + rewrite fmap_app. apply NoDup_app. split_and!; [done| |apply NoDup_singleton].
      intros x Hx Hx'. apply list_elem_of_singleton in Hx'. by subst.
    + apply Forall_app. split; [done|]. constructor; [done|constructor].
    + apply Forall_app. split; [done|]. constructor; [by intros ?|constructor].
  - destruct (sys_running s !! n) as [[p now []]|] eqn:Hn; try done.
    destruct Hi as [Hsz Hl Hp Hf Hq]. assert (mkRunning p now false ∈ sys_running s) as Hin
      by by eapply list_elem_of_lookup_2.
    destruct (begin_refused _ _) eqn:Hr; simpl; split; simpl; try done.
    + by apply drop_running_NoDup.
    + rewrite Forall_forall in *. intros r Hr'%drop_running_elem. auto.
    + rewrite Forall_forall in *. intros r Hr'%drop_running_elem. auto.
    + rewrite list_fmap_insert. simpl. rewrite list_insert_id; [done|]. by rewrite list_lookup_fmap, Hn.
    + apply Forall_insert; [done|]. simpl. rewrite Forall_forall in Hp. by apply (Hp _ Hin).
    + apply Forall_insert; [done|]. apply counts_fit; [|apply Hq|done]. rewrite Forall_forall in Hp. by apply (Hp _ Hin).
  - destruct (sys_running s !! n) as [[p now []]|] eqn:Hn; try done. by apply quota_insert.
  - destruct Hi as [Hsz Hl Hp Hf Hq]. split; simpl; try done.
    + by apply drop_running_NoDup.
    + rewrite Forall_forall in *. intros r Hr'%drop_running_elem. auto.
    + rewrite Forall_forall in *. intros r Hr'%drop_running_elem. auto.
  - destruct Hi as [Hsz Hl Hp Hf Hq]. pose proof (statement_lighter _ _ Hwf Hsz) as Hlt. split; simpl; try done.
    + apply Hlt.
    + eapply Forall_impl; [exact Hf|]. intros r. by apply fits_lighter.
    + intros ws server. destruct Hlt as [_ Hlt]. specialize (Hlt ws server). specialize (Hq ws server). lia.
Qed.

(** C30: the quotas of a machine hold across all Proxy instances.  Under every interleaving of the
    statements of concurrent begins, each for at most the 128 MiB the HTTP handler lets through, with
    the other operations of the store, no machine ever has more than 8 uploads that are pending,
    active or committing, nor more than 1 GiB of declared bytes in them: the advisory lock of the
    machine covers the look-up, the counts and the insert of a begin. *)
Theorem machine_quota_holds labels ws server :
  Forall label_wf labels ->
  let rows := sys_rows (upload_run upload_init labels) in
  machine_count rows ws server <= UPLOADS_PER_MACHINE
  /\ machine_bytes rows ws server <= DECLARED_BYTES_PER_MACHINE.
Proof.
  intros Hwf rows. enough (quota_inv (upload_run upload_init labels)) as Hi by apply Hi.
  assert (quota_inv upload_init) as Hinit.
  { split; simpl; try constructor; unfold machine_count, machine_bytes, count, UPLOADS_PER_MACHINE,
      DECLARED_BYTES_PER_MACHINE, MACHINE_UPLOAD_MAX_BYTES; simpl; lia. }
  clear rows. revert Hinit. generalize upload_init. unfold upload_run.
  induction Hwf as [|l labels Hl _ IH]; intros s Hi; [done|]. simpl. by apply IH, quota_step.
Qed.

(** ** Quotas of a user *)

Definition params_on (server id : string) : BeginParams :=
  mkBeginParams "w" server "d" "f" false 1 "user" "u" "k" id.
Definition racing_begins : list UploadLabel :=
  [LookUp (params_on "m1" "a") 0; LookUp (params_on "m2" "b") 0; LookUp (params_on "m3" "c") 0;
   Count 0; Count 1; Count 2; Insert 0; Insert 0; Insert 0].

(** The quota of a user does not hold across instances.  Its count is taken under the lock of
    one machine only, so begins of one user for three machines that interleave all see a free
    slot: the user ends with three live uploads although [UPLOADS_PER_USER] is two. *)
Theorem user_quota_can_be_exceeded :
  Forall label_wf racing_begins /\
  count (live_of_user "user" "u") (sys_rows (upload_run upload_init racing_begins)) = 3
  /\ UPLOADS_PER_USER < 3.
Proof. split; [repeat constructor; simpl; unfold MACHINE_UPLOAD_MAX_BYTES; lia|split; [reflexivity|done]]. Qed.

(** ** The lease of a part *)

(** The statements that end a lease before its time. *)
Definition frees (id : string) (op : UploadOp) : bool :=
  match op with
  | Release i | SetCommitted i _ _ | SetTerminal i _ _ _ | Delete i => i =s id
  | Purge _ => true
  | _ => false
  end.

Definition leased (id : string) (until : Z) (rows : Rows) : Prop :=
  forall r, r ∈ rows -> up_id r = id -> exists u, up_lease_until r = Some u /\ until <= u.

Lemma leased_op id until rows op : frees id op = false -> leased id until rows -> leased id until (upload_apply rows op).
Proof.
  intros Hop Hl. assert (forall p f, (forall r, p r = true -> up_id (f r) = up_id r
      /\ (up_id r = id -> (exists u, up_lease_until r = Some u /\ until <= u) ->
          exists u, up_lease_until (f r) = Some u /\ until <= u)) -> leased id until (update_where p f rows)) as Hu.
  { intros p f Hf r' (r & -> & Hr)%list_elem_of_fmap Hid. destruct (p r) eqn:Hp.
    - destruct (Hf r Hp) as [He Hk]. rewrite He in Hid. auto.
    - auto. }
  destruct op; simpl in *; try (apply str_eqb_neq in Hop).
  - by apply Hu.
  - intros r [Hr _]%filter_elem. by apply Hl.
  - apply Hu. intros r Hp. split; [done|]. intros Hid (u & Hu' & Hle). exists (stamp (now + from_secs LEASE_SECONDS)).
    split; [done|]. unfold leasable, lease_free in Hp. bool_hyps. rewrite Hu' in *. simpl in *.
    apply Z.ltb_lt in H0. etrans; [exact Hle|]. etrans; [apply Z.lt_le_incl, H0|]. unfold stamp.
    apply Z.div_le_mono; [lia|]. unfold from_secs, nanos_per_sec, LEASE_SECONDS. lia.
  - apply Hu. intros r Hp. split; [done|]. intros Hid _. unfold id_is in Hp. apply str_eqb_eq in Hp. congruence.
  - by apply Hu.
  - apply Hu. intros r Hp. split; [done|]. intros Hid (u & Hu' & Hle). exists (stamp (now + from_secs LEASE_SECONDS)).
    split; [done|]. unfold committable, lease_free in Hp. bool_hyps. rewrite Hu' in *. simpl in *.
    apply Z.ltb_lt in H0. etrans; [exact Hle|]. etrans; [apply Z.lt_le_incl, H0|]. unfold stamp.
    apply Z.div_le_mono; [lia|]. unfold from_secs, nanos_per_sec, LEASE_SECONDS. lia.
  - apply Hu. intros r Hp. split; [done|]. intros Hid _. unfold id_is in Hp. bool_hyps.
    rewrite str_eqb_eq in *. congruence.
  - apply Hu. intros r Hp. split; [done|]. intros Hid _. unfold id_is in Hp. bool_hyps.
    rewrite str_eqb_eq in *. congruence.
  - done.
Qed.

Lemma acquire_leases id now rows r :
  NoDup (up_id <$> rows) -> (acquire_lease id now rows).1 = Some r ->
  leased id (stamp (now + from_secs LEASE_SECONDS)) (acquire_lease id now rows).2.
Proof.
  intros Hnd Ha r' (x & -> & Hx)%list_elem_of_fmap Hid. simpl in Ha. unfold returning in Ha.
  apply fmap_Some in Ha as (y & [Hy Hp]%find_elem & _).
  assert (x = y) as ->.
  { unfold leasable, id_is in Hp. bool_hyps. rename select ((up_id y =s id) = true) into Hyid.
    apply str_eqb_eq in Hyid.
    assert (up_id x = id) as Hxid by (revert Hid; by destruct (leasable id now x)).
    apply list_elem_of_lookup in Hx as [i Hi], Hy as [j Hj]. assert (i = j) as ->; [|congruence].
    eapply NoDup_lookup; [exact Hnd|..]; rewrite list_lookup_fmap; [by rewrite Hi|rewrite Hj; simpl; congruence]. }
  rewrite Hp. simpl. eexists. split; [done|lia].
Qed.

(** One part of an upload is in flight at a time.  When a request has taken the lease at
    [now1], and whatever other statements run, another request can take it at [now2] only after
    the 150 seconds of the first have passed, unless the lease was released or the upload ended
    or was deleted in between. *)
Theorem lease_is_exclusive id now1 now2 ops rows r1 r2 :
  NoDup (up_id <$> rows) -> (acquire_lease id now1 rows).1 = Some r1 ->
  Forall (fun op => frees id op = false) ops ->
  (acquire_lease id now2 (foldl upload_apply (acquire_lease id now1 rows).2 ops)).1 = Some r2 ->
  stamp (now1 + from_secs LEASE_SECONDS) < stamp now2.
Proof.
  intros Hnd H1 Hops H2. pose proof (acquire_leases _ _ _ _ Hnd H1) as Hl.
  assert (leased id (stamp (now1 + from_secs LEASE_SECONDS))
    (foldl upload_apply (acquire_lease id now1 rows).2 ops)) as Hl'.
  { clear H2. revert Hl. generalize (acquire_lease id now1 rows).2.
    induction Hops as [|op ops Ho _ IH]; intros rows' Hl; [done|]. simpl. by apply IH, leased_op. }
  simpl in H2. unfold returning in H2. apply fmap_Some in H2 as (y & [Hy Hp]%find_elem & _).
  unfold leasable, id_is, lease_free in Hp. bool_hyps. rewrite str_eqb_eq in *.
  destruct (Hl' y Hy ltac:(done)) as (u & Hu & Hle). rewrite Hu in *. simpl in *. apply Z.ltb_lt in H0. lia.
Qed.

(** ** The theorems at concrete inputs *)

Definition one_upload : UploadSys :=
  upload_run upload_init [LookUp (params_on "m1" "a") 0; Count 0; Insert 0; Statement (Activate "a")].

Lemma uploads_follow_their_life_witness :
  exists r', r' ∈ sys_rows (upload_step one_upload (Statement (SetTerminal "a" UAborted "x" 5)))
  /\ up_state r' = UAborted /\ exists r, r ∈ sys_rows one_upload /\ Transition (up_state r) UAborted.
Proof.
  eexists. split; [by left|]. split; [reflexivity|].
  destruct (uploads_follow_their_life one_upload (Statement (SetTerminal "a" UAborted "x" 5))
    (with_end (with_state (new_row (params_on "m1" "a") 0) UActive None) UAborted None (Some "x") 0))
    as [(r & Hr & _ & Ht & _)|[H _]].
  - left. reflexivity.
  - by left.
  - by exists r.
  - discriminate H.
Defined.

Lemma machine_quota_holds_witness :
  Forall label_wf racing_begins
  /\ machine_count (sys_rows (upload_run upload_init racing_begins)) "w" "m1" <= 8.
Proof.
  assert (Forall label_wf racing_begins) as H
    by (repeat constructor; simpl; unfold MACHINE_UPLOAD_MAX_BYTES; lia).
  split; [exact H|]. exact (proj1 (machine_quota_holds racing_begins "w" "m1" H)).
Defined.

Lemma lease_is_exclusive_witness :
  (acquire_lease "a" 0 (sys_rows one_upload)).1 <> None
  /\ forall now2 r2, (acquire_lease "a" now2 (acquire_lease "a" 0 (sys_rows one_upload)).2).1 = Some r2 ->
     150000000 < stamp now2.
Proof.
  split; [discriminate|]. intros now2 r2 H2.
  destruct ((acquire_lease "a" 0 (sys_rows one_upload)).1) as [r1|] eqn:H1; [|discriminate].
  apply (lease_is_exclusive "a" 0 now2 [] (sys_rows one_upload) r1 r2); [|exact H1|constructor|exact H2].
  apply NoDup_singleton.
Defined.
