(* ===== verification/HostProtocol.v ===== *)
(** * Host protocol (crates/treer-host-protocol/src/lib.rs)

    The messages between a Controller and the process Host.  Bytes are integers 0-255,
    timestamps are milliseconds. *)

From S2P Require Import Prelude RustStr.
Local Open Scope Z_scope.

Definition HOST_PROTOCOL_VERSION : Z := 2.
Definition MAX_HOST_FRAME_BYTES : Z := 16 * 1024 * 1024.

Definition bytes : Type := list Z.

Record HostBuildInfo : Type := mkHostBuildInfo {
  hb_version : string;
  hb_git_commit : string
}.

Record HostProcessInfo : Type := mkHostProcessInfo {
  hpi_process_id : string;
  hpi_pid : option Z;
  hpi_cwd : string;
  hpi_running : bool;
  hpi_started_at : Z;
  hpi_last_output_at : Z;
  hpi_exited_at : option Z;
  hpi_exit_code : option Z;
  hpi_stream_epoch : string;
  hpi_first_revision : Z;
  hpi_next_revision : Z;
  hpi_bracketed_paste : bool;
  hpi_metadata : string
}.

Record HostOutputChunk : Type := mkHostOutputChunk {
  oc_process_id : string;
  oc_stream_epoch : string;
  oc_revision : Z;
  oc_data : bytes;
  oc_bracketed_paste : bool;
  oc_emitted_at : Z
}.

Record HostOutputReplay : Type := mkHostOutputReplay {
  or_process_id : string;
  or_stream_epoch : string;
  or_first_available_revision : Z;
  or_next_revision : Z;
  or_gap : bool;
  or_chunks : list HostOutputChunk
}.

Record OutputCursor : Type := mkOutputCursor {
  cur_stream_epoch : string;
  cur_revision : Z
}.

Record HostSpawnRequest : Type := mkHostSpawnRequest {
  hsr_process_id : string;
  hsr_command : string;
  hsr_args : list string;
  hsr_cwd : string;
  hsr_env : gmap string string;
  hsr_cols : Z;
  hsr_rows : Z;
  hsr_metadata : string
}.

Record HostWrite : Type := mkHostWrite {
  hw_data : bytes;
  hw_delay_ms : Z
}.

Inductive HostCommand : Type :=
| CmdSync (cursors : gmap string OutputCursor)
| CmdSpawn (request : HostSpawnRequest)
| CmdRead (process_id : string) (cursor : option OutputCursor)
| CmdWrite (process_id : string) (writes : list HostWrite)
| CmdResize (process_id : string) (cols rows : Z)
| CmdStop (process_id : string)
| CmdRestartController.

(** [HostCommand::is_mutating] *)
Definition is_mutating (c : HostCommand) : bool :=
  match c with
  | CmdSpawn _ | CmdWrite _ _ | CmdResize _ _ _ | CmdStop _ | CmdRestartController => true
  | CmdSync _ | CmdRead _ _ => false
  end.

Record HostRequest : Type := mkHostRequest {
  hr_protocol : Z;
  hr_request_id : string;
  hr_operation_id : option string;
  hr_command : HostCommand
}.

Inductive HostResponse : Type :=
| RespSynced (host_epoch : string) (host_build : HostBuildInfo)
    (processes : list HostProcessInfo) (replay : list HostOutputReplay)
| RespProcess (process : HostProcessInfo)
| RespOutput (replay : HostOutputReplay)
| RespAck.

Record HostError : Type := mkHostError {
  he_code : string;
  he_message : string
}.

Inductive HostMessage : Type :=
| MsgResponse (request_id : string) (response : option HostResponse) (error : option HostError)
| MsgOutput (chunk : HostOutputChunk)
| MsgProcess (process : HostProcessInfo).

#[export] Instance HostProcessInfo_eq_dec : EqDecision HostProcessInfo.
Proof. solve_decision. Defined.
#[export] Instance HostOutputChunk_eq_dec : EqDecision HostOutputChunk.
Proof. solve_decision. Defined.

(** ** The codec

    bincode is third-party code: [encode_to_vec], and [decode_from_slice], which returns the
    value and the number of bytes consumed. *)
Section codec.
Context {T : Type}
  (encode_to_vec : T -> Result bytes string)
  (decode_from_slice : bytes -> Result (T * nat) string).

Definition encode_message (value : T) : Result bytes string := encode_to_vec value.

Definition decode_message (encoded : bytes) : Result T string :=
  let? decoded := decode_from_slice encoded in
  let '(value, consumed) := decoded in
  if negb (Nat.eqb consumed (length encoded))
  then Err "host frame contains trailing bytes" else Ok value.
End codec.
