(* ===== verification/OutputBuffer.v ===== *)
(** * Terminal output buffering (crates/treer-agent-runtime/src/lib.rs)

    [OutputBuffer]: the bounded replay buffer of one process, with its bracketed-paste scanner,
    and [ConPtyCursorQuery], the recogniser of the initial cursor query. *)

From S2P Require Import Prelude RustStr HostProtocol.
Local Open Scope Z_scope.

Definition OUTPUT_LIMIT_BYTES : Z := 512 * 1024.

(** [b"\x1b[?2004h"] and [b"\x1b[?2004l"] *)
Definition BRACKETED_PASTE_ENABLE : bytes := [27; 91; 63; 50; 48; 48; 52; 104].
Definition BRACKETED_PASTE_DISABLE : bytes := [27; 91; 63; 50; 48; 48; 52; 108].

Record OutputBuffer : Type := mkOutputBuffer {
  ob_stream_epoch : string;
  ob_chunks : list HostOutputChunk;
  ob_byte_len : Z;
  ob_next_revision : Z;
  ob_mode_tail : bytes;
  ob_bracketed_paste : bool
}.

(** [OutputBuffer::new]; the epoch is generated. *)
Definition buffer_new (epoch : string) : OutputBuffer := mkOutputBuffer epoch [] 0 1 [] false.

Definition blen (b : bytes) : Z := Z.of_nat (length b).

(** [slice::starts_with] *)
Fixpoint bytes_start_with (prefix b : bytes) : bool :=
  match prefix, b with
  | [], _ => true
  | x :: prefix', y :: b' => (x =? y) && bytes_start_with prefix' b'
  | _ :: _, [] => false
  end.

(** One turn of the scan, at the start of [remaining]. *)
Definition mode_step (mode : bool) (remaining : bytes) : bool :=
  if bytes_start_with BRACKETED_PASTE_ENABLE remaining then true
  else if bytes_start_with BRACKETED_PASTE_DISABLE remaining then false
  else mode.

(** [for index in 0..scan.len()] *)
Fixpoint mode_scan (mode : bool) (scan : bytes) : bool :=
  match scan with
  | [] => mode
  | _ :: rest => mode_scan (mode_step mode scan) rest
  end.

Definition MODE_TAIL : nat := 7%nat.
(** The last bytes of the scan that a sequence split over two reads could begin in. *)
Definition tail_of (scan : bytes) : bytes := drop (length scan - min MODE_TAIL (length scan)) scan.

(** [OutputBuffer::update_terminal_modes] *)
Definition update_terminal_modes (b : OutputBuffer) (data : bytes) : OutputBuffer :=
  let scan := ob_mode_tail b ++ data in
  mkOutputBuffer (ob_stream_epoch b) (ob_chunks b) (ob_byte_len b) (ob_next_revision b)
    (tail_of scan) (mode_scan (ob_bracketed_paste b) scan).

(** The eviction loop: it pops until the limit holds or nothing is left. *)
Fixpoint evict (chunks : list HostOutputChunk) (byte_len : Z) : list HostOutputChunk * Z :=
  if OUTPUT_LIMIT_BYTES <? byte_len then
    match chunks with
    | [] => ([], byte_len)
    | removed :: rest => evict rest (saturating_sub byte_len (blen (oc_data removed)))
    end
  else (chunks, byte_len).

(** [OutputBuffer::push] *)
Definition buffer_push (b : OutputBuffer) (process_id : string) (data : bytes) (now : Z)
    : HostOutputChunk * OutputBuffer :=
  let b := update_terminal_modes b data in
  let chunk :=
    mkHostOutputChunk process_id (ob_stream_epoch b) (ob_next_revision b) data
      (ob_bracketed_paste b) now in
  let '(chunks, byte_len) :=
    evict (ob_chunks b ++ [chunk]) (saturating_add (ob_byte_len b) (blen data)) in
  (chunk,
   mkOutputBuffer (ob_stream_epoch b) chunks byte_len (saturating_add (ob_next_revision b) 1)
     (ob_mode_tail b) (ob_bracketed_paste b)).

Definition first_revision (b : OutputBuffer) : Z :=
  match ob_chunks b with
  | chunk :: _ => oc_revision chunk
  | [] => ob_next_revision b
  end.

(** [OutputBuffer::replay] *)
Definition buffer_replay (b : OutputBuffer) (process_id : string) (cursor : option OutputCursor)
    : HostOutputReplay :=
  let first := first_revision b in
  let matching_revision :=
    match opt_filter (fun c => cur_stream_epoch c =s ob_stream_epoch b) cursor with
    | Some c => cur_revision c
    | None => 0
    end in
  let gap :=
    is_some_and cursor (fun c => negb (cur_stream_epoch c =s ob_stream_epoch b)
                                 || (saturating_add (cur_revision c) 1 <? first)) in
  mkHostOutputReplay process_id (ob_stream_epoch b) first (ob_next_revision b) gap
    (List.filter (fun chunk => matching_revision <? oc_revision chunk) (ob_chunks b)).

(** ** [ConPtyCursorQuery] *)

Definition CURSOR_QUERY : bytes := [27; 91; 54; 110].

Record ConPtyCursorQuery : Type := mkConPtyCursorQuery {
  cq_matched : nat;
  cq_answered : bool
}.

Fixpoint observe_loop (matched : nat) (data : bytes) : bool * ConPtyCursorQuery :=
  match data with
  | [] => (false, mkConPtyCursorQuery matched false)
  | byte :: rest =>
      if bool_decide (CURSOR_QUERY !! matched = Some byte) then
        if Nat.eqb (matched + 1) (length CURSOR_QUERY)
        then (true, mkConPtyCursorQuery (matched + 1) true)
        else observe_loop (matched + 1) rest
      else observe_loop (if byte =? 27 then 1%nat else 0%nat) rest
  end.

(** [ConPtyCursorQuery::observe] *)
Definition observe (q : ConPtyCursorQuery) (data : bytes) : bool * ConPtyCursorQuery :=
  if cq_answered q then (false, q) else observe_loop (cq_matched q) data.

(** ** Streams: the pushes a reader thread makes *)

Definition push_all (b : OutputBuffer) (process_id : string) (reads : list (bytes * Z)) : OutputBuffer :=
  foldl (fun b '(data, now) => (buffer_push b process_id data now).2) b reads.

(** The chunks a reader emits: [sent] is what it sent before, [revision] the next revision. *)
Fixpoint stream_chunks (epoch process_id : string) (sent : bytes) (revision : Z)
    (reads : list (bytes * Z)) : list HostOutputChunk :=
  match reads with
  | [] => []
  | (data, now) :: rest =>
      mkHostOutputChunk process_id epoch revision data (mode_scan false (sent ++ data)) now
      :: stream_chunks epoch process_id (sent ++ data) (revision + 1) rest
  end.

Definition observe_all (q : ConPtyCursorQuery) (reads : list bytes) : bool * ConPtyCursorQuery :=
  foldl (fun '(answer, q) data => let '(a, q') := observe q data in (answer || a, q')) (false, q) reads.

(** A sequence occurs in a stream. *)
Definition occurs (pattern stream : bytes) : Prop := exists before after, stream = before ++ pattern ++ after.

(** The reader's buffer is 8192 bytes. *)
Definition READ_BUFFER : Z := 8192.

Definition total (chunks : list HostOutputChunk) : Z :=
  foldr (fun c n => blen (oc_data c) + n) 0 chunks.

(** The buffer [b] holds what is left of the chunks [all], the data of which is [sent]. *)
Record buffer_holds (b : OutputBuffer) (all : list HostOutputChunk) (sent : bytes) : Prop := {
  bh_suffix : exists evicted, all = evicted ++ ob_chunks b /\
    (forall c, last evicted = Some c -> OUTPUT_LIMIT_BYTES < blen (oc_data c) + ob_byte_len b);
  bh_revisions : forall i c, all !! i = Some c -> oc_revision c = Z.of_nat i + 1;
  bh_next : ob_next_revision b = Z.of_nat (length all) + 1;
  bh_bytes : ob_byte_len b = total (ob_chunks b);
  bh_limit : ob_byte_len b <= OUTPUT_LIMIT_BYTES;
  bh_mode : ob_bracketed_paste b = mode_scan false sent;
  bh_tail : ob_mode_tail b = tail_of sent
}.

(** ** Lemmas: the mode scanner *)

Lemma tail_of_short u : (length u <= MODE_TAIL)%nat -> tail_of u = u.
Proof. intros H. unfold tail_of. rewrite Nat.min_r, Nat.sub_diag by done. done. Qed.

Lemma tail_of_cons x u : (MODE_TAIL <= length u)%nat -> tail_of (x :: u) = tail_of u.
Proof.
  intros H. unfold tail_of. rewrite !Nat.min_l by (simpl; lia). simpl length.
  destruct (S (length u) - MODE_TAIL)%nat as [|k] eqn:Hk; [lia|]. simpl. f_equal. lia.
Qed.

Lemma start_with_length p b : bytes_start_with p b = true -> (length p <= length b)%nat.
Proof.
  revert b. induction p as [|x p IH]; intros [|y b]; simpl; try done; try lia.
  intros [_ ?%IH]%andb_prop. lia.
Qed.

Lemma start_with_app p b c :
  (length p <= length b)%nat -> bytes_start_with p (b ++ c) = bytes_start_with p b.
Proof.
  revert b. induction p as [|x p IH]; intros [|y b] Hl; simpl in *; try done; try lia.
  rewrite IH by lia. done.
Qed.

Lemma mode_step_short m b : (length b <= MODE_TAIL)%nat -> mode_step m b = m.
Proof.
  intros Hl. unfold mode_step.
  destruct (bytes_start_with BRACKETED_PASTE_ENABLE b) eqn:H1.
  { apply start_with_length in H1. simpl in H1. unfold MODE_TAIL in Hl. lia. }
  destruct (bytes_start_with BRACKETED_PASTE_DISABLE b) eqn:H2; [|done].
  apply start_with_length in H2. simpl in H2. unfold MODE_TAIL in Hl. lia.
Qed.

Lemma mode_scan_short m b : (length b <= MODE_TAIL)%nat -> mode_scan m b = m.
Proof.
  revert m. induction b as [|x b IH]; intros m Hl; [done|].
  cbn [mode_scan]. rewrite mode_step_short by done. apply IH. simpl in Hl. lia.
Qed.

(** Scanning in two reads, the second time with the kept tail, is scanning once. *)
Lemma mode_scan_app m u v : mode_scan m (u ++ v) = mode_scan (mode_scan m u) (tail_of u ++ v).
Proof.
  revert m. induction u as [|x u IH]; intros m; [done|].
  destruct (decide (length (x :: u) <= MODE_TAIL)%nat) as [Hs|Hs].
  - by rewrite tail_of_short, (mode_scan_short m (x :: u)) by done.
  - simpl in Hs. rewrite tail_of_cons by lia. cbn [mode_scan app].
    assert (mode_step m (x :: u ++ v) = mode_step m (x :: u)) as ->.
    { unfold mode_step. change (x :: u ++ v) with ((x :: u) ++ v).
      rewrite !start_with_app by (simpl; unfold MODE_TAIL in Hs; lia). done. }
    apply IH.
Qed.

Lemma tail_of_length u : length (tail_of u) = min MODE_TAIL (length u).
Proof. unfold tail_of. rewrite length_drop. lia. Qed.

Lemma tail_of_app u v : tail_of (tail_of u ++ v) = tail_of (u ++ v).
Proof.
  induction u as [|x u IH]; [done|].
  destruct (decide (length (x :: u) <= MODE_TAIL)%nat) as [Hs|Hs]; [by rewrite (tail_of_short (x :: u))|].
  simpl in Hs. rewrite tail_of_cons by lia. rewrite IH. cbn [app].
  rewrite tail_of_cons; [done|]. rewrite length_app. lia.
Qed.

(** ** Lemmas: eviction and the stream *)

Lemma total_app l1 l2 : total (l1 ++ l2) = total l1 + total l2.
Proof. induction l1 as [|c l1 IH]; simpl; [done|]. unfold total in *. simpl. lia. Qed.

Lemma total_nonneg l : 0 <= total l.
Proof. induction l as [|c l IH]; simpl; [done|]. unfold blen. lia. Qed.

Lemma evict_spec chunks n :
  n = total chunks ->
  exists evicted, chunks = evicted ++ (evict chunks n).1 /\
    (evict chunks n).2 = total (evict chunks n).1 /\ (evict chunks n).2 <= OUTPUT_LIMIT_BYTES /\
    (forall c, last evicted = Some c -> OUTPUT_LIMIT_BYTES < blen (oc_data c) + (evict chunks n).2).
Proof.
  revert n. induction chunks as [|c chunks IH]; intros n Hn; simpl.
  - simpl in Hn. subst. destruct (Z.ltb_spec OUTPUT_LIMIT_BYTES 0); [by exists []|].
    exists []. split_and!; [done|done|done|done].
  - destruct (Z.ltb_spec OUTPUT_LIMIT_BYTES n) as [Hlt|Hle].
    + simpl in Hn. assert (saturating_sub n (blen (oc_data c)) = total chunks) as Hs.
      { unfold saturating_sub. pose proof (total_nonneg chunks). lia. }
      destruct (IH _ Hs) as (ev & Hch & Hb & Hlim & Hlast). exists (c :: ev). split_and!.
      * simpl. by f_equal.
      * done.
      * done.
      * intros d. destruct ev as [|e ev]; [|rewrite last_cons_cons; apply Hlast].
        simpl. intros [= <-]. rewrite Hb. simpl in Hch. rewrite <- Hch. lia.
    + exists []. split_and!; done.
Qed.

Lemma buffer_new_holds epoch : buffer_holds (buffer_new epoch) [] [].
Proof. split; simpl; try done. exists []. done. Qed.

(** One read keeps the buffer in step with the stream. *)
Lemma push_holds b all sent process_id data now :
  buffer_holds b all sent -> blen data <= READ_BUFFER ->
  Z.of_nat (length all) + 2 <= u64_max ->
  (buffer_push b process_id data now).1 =
    mkHostOutputChunk process_id (ob_stream_epoch b) (Z.of_nat (length all) + 1) data
      (mode_scan false (sent ++ data)) now /\
  buffer_holds (buffer_push b process_id data now).2
    (all ++ [(buffer_push b process_id data now).1]) (sent ++ data).
Proof.
  intros [(ev & Hall & Hold) Hrev Hnext Hbytes Hlim Hmode Htail] Hdata Hlen.
  unfold buffer_push, update_terminal_modes. cbn [ob_chunks ob_byte_len ob_next_revision
    ob_stream_epoch ob_mode_tail ob_bracketed_paste].
  set (chunk := mkHostOutputChunk _ _ _ _ _ _).
  assert (saturating_add (ob_byte_len b) (blen data) = total (ob_chunks b ++ [chunk])) as Hsum.
  { rewrite total_app, Hbytes. unfold saturating_add. subst chunk. simpl.
    unfold OUTPUT_LIMIT_BYTES, READ_BUFFER, u64_max in *. lia. }
  destruct (evict_spec _ _ Hsum) as (ev' & Hch & Hb & Hl & Hlast).
  destruct (evict _ _) as [chunks n] eqn:He. simpl in Hch, Hb, Hl, Hlast. simpl.
  assert (mode_scan (ob_bracketed_paste b) (ob_mode_tail b ++ data) = mode_scan false (sent ++ data)) as Hm.
  { by rewrite Hmode, Htail, <- mode_scan_app. }
  split.
  { subst chunk. by rewrite Hnext, Hm. }
  split; simpl.
  - exists (ev ++ ev'). split; [by rewrite Hall, <- (assoc_L (++)), Hch, (assoc_L (++))|].
    intros c Hc. rewrite last_app in Hc. destruct (last ev') as [d|] eqn:Hd.
    + simplify_eq. by apply Hlast.
    + apply last_None in Hd as ->. simpl in Hch. specialize (Hold c Hc).
      rewrite Hb, <- Hch, <- Hsum. unfold saturating_add. pose proof (Nat2Z.is_nonneg (length data)).
      unfold blen, OUTPUT_LIMIT_BYTES, READ_BUFFER, u64_max in *. lia.
  - intros i c. rewrite lookup_app_Some. intros [Hi|[Hi Hc]]; [by apply Hrev|].
    apply list_lookup_singleton_Some in Hc as [Hz <-]. subst chunk. simpl. lia.
  - rewrite length_app. simpl. unfold saturating_add. unfold u64_max in *. lia.
  - done.
  - done.
  - done.
  - by rewrite Htail, tail_of_app.
Qed.

Lemma push_epoch b process_id data now :
  ob_stream_epoch (buffer_push b process_id data now).2 = ob_stream_epoch b.
Proof. unfold buffer_push. by destruct (evict _ _). Qed.

Lemma push_all_holds reads b all sent process_id :
  buffer_holds b all sent -> Forall (fun r => blen r.1 <= READ_BUFFER) reads ->
  Z.of_nat (length all) + Z.of_nat (length reads) + 1 <= u64_max ->
  let b' := push_all b process_id reads in
  ob_stream_epoch b' = ob_stream_epoch b /\
  buffer_holds b' (all ++ stream_chunks (ob_stream_epoch b) process_id sent
                            (Z.of_nat (length all) + 1) reads) (sent ++ concat reads.*1).
Proof.
  revert b all sent. induction reads as [|[data now] reads IH]; intros b all sent Hb Hr Hlen; simpl.
  { by rewrite !app_nil_r. }
  apply Forall_cons in Hr as [Hd Hr]. simpl in Hd, Hlen.
  destruct (push_holds b all sent process_id data now Hb Hd ltac:(lia)) as [Hc Hb'].
  rewrite Hc in Hb'.
  destruct (IH _ _ _ Hb' Hr) as [He Hh]; [rewrite length_app; simpl; lia|].
  rewrite push_epoch in *. split; [done|].
  rewrite length_app in Hh. simpl in Hh.
  replace (Z.of_nat (length all + 1) + 1) with (Z.of_nat (length all) + 1 + 1) in Hh by lia.
  by rewrite <- (assoc_L (++)), <- (assoc_L (++)) in Hh.
Qed.

Lemma stream_chunks_length epoch process_id sent revision reads :
  length (stream_chunks epoch process_id sent revision reads) = length reads.
Proof. revert sent revision. induction reads as [|[d n] reads IH]; intros; simpl; [done|by rewrite IH]. Qed.

(** A buffer that holds a stream, as the reader thread leaves it. *)
Lemma reader_holds epoch process_id reads :
  Forall (fun r => blen r.1 <= READ_BUFFER) reads ->
  Z.of_nat (length reads) + 1 <= u64_max ->
  let b := push_all (buffer_new epoch) process_id reads in
  ob_stream_epoch b = epoch /\
  buffer_holds b (stream_chunks epoch process_id [] 1 reads) (concat reads.*1).
Proof.
  intros Hr Hlen. exact (push_all_holds reads (buffer_new epoch) [] [] process_id (buffer_new_holds epoch) Hr Hlen).
Qed.

(** Chunks after a revision are a suffix: revisions increase by one. *)
Lemma filter_revision_drop all k r :
  (forall i c, all !! i = Some c -> oc_revision c = Z.of_nat (k + i) + 1) ->
  List.filter (fun c => Z.of_nat r <? oc_revision c) all = drop (r - k) all.
Proof.
  revert k. induction all as [|c all IH]; intros k Hrev; simpl; [by rewrite drop_nil|].
  rewrite (Hrev 0%nat c eq_refl). rewrite (IH (S k)).
  - destruct (Z.ltb_spec (Z.of_nat r) (Z.of_nat (k + 0) + 1)).
    + replace (r - k)%nat with 0%nat by lia. replace (r - S k)%nat with 0%nat by lia. done.
    + replace (r - k)%nat with (S (r - S k)) by lia. done.
  - intros i d Hi. rewrite (Hrev (S i) d Hi). lia.
Qed.

Lemma first_revision_holds b all sent evicted :
  buffer_holds b all sent -> all = evicted ++ ob_chunks b ->
  first_revision b = Z.of_nat (length evicted) + 1.
Proof.
  intros [_ Hrev Hnext _ _ _ _] Hall. unfold first_revision. destruct (ob_chunks b) as [|c cs].
  - rewrite Hnext, Hall, app_nil_r. done.
  - apply Hrev. rewrite Hall. by rewrite lookup_app_r, Nat.sub_diag by done.
Qed.

(** A replay from a cursor of the stream has no gap exactly when it is complete. *)
Lemma replay_no_gap b all sent process_id r :
  buffer_holds b all sent -> Z.of_nat r < u64_max ->
  let replay := buffer_replay b process_id (Some (mkOutputCursor (ob_stream_epoch b) (Z.of_nat r))) in
  or_gap replay = false <-> or_chunks replay = drop r all.
Proof.
  intros Hh Hr. pose proof Hh as [(evicted & Hall & _) Hrev _ _ _ _ _].
  pose proof (first_revision_holds b all _ evicted Hh Hall) as Hfirst.
  unfold buffer_replay; simpl. rewrite String.eqb_refl; simpl.
  rewrite (filter_revision_drop (ob_chunks b) (length evicted)).
  - rewrite Hfirst. unfold saturating_add. rewrite Z.ltb_ge, Z.min_l by lia.
    rewrite Hall, drop_app. split.
    + intros Hle. rewrite (drop_ge evicted) by lia. done.
    + intros Heq%(f_equal length). rewrite length_app, !length_drop in Heq. lia.
  - intros i c Hi. apply Hrev. rewrite Hall.
    by rewrite lookup_app_r, (Nat.add_comm (length evicted)), Nat.add_sub by lia.
Qed.

(** Revisions of a stream count from one. *)
Lemma stream_chunks_lookup epoch process_id sent revision reads i c :
  stream_chunks epoch process_id sent revision reads !! i = Some c ->
  oc_process_id c = process_id /\ oc_stream_epoch c = epoch /\ oc_revision c = revision + Z.of_nat i.
Proof.
  revert sent revision i. induction reads as [|[d n] reads IH]; intros sent revision [|i]; simpl; try done.
  - intros [= <-]. simpl. split_and!; [done|done|lia].
  - intros (? & ? & Hr)%IH. split_and!; [done|done|lia].
Qed.

Lemma stream_chunks_take epoch process_id sent revision reads k :
  stream_chunks epoch process_id sent revision (take k reads)
  = take k (stream_chunks epoch process_id sent revision reads).
Proof.
  revert sent revision k. induction reads as [|[d n] reads IH]; intros sent revision [|k]; simpl; try done.
  by rewrite IH.
Qed.

(** Reconnecting loses no output silently.  After any sequence of reads, a replay from a
    cursor of the current stream reports no gap exactly when it returns every chunk emitted
    after the cursor, in order; the buffer never exceeds 512 KiB, and gives up a chunk only when
    it would not fit with the newer ones. *)
Theorem replay_is_lossless epoch process_id reads r :
  Forall (fun read => blen read.1 <= READ_BUFFER) reads ->
  Z.of_nat (length reads) + 1 <= u64_max -> Z.of_nat r < u64_max ->
  let b := push_all (buffer_new epoch) process_id reads in
  let all := stream_chunks epoch process_id [] 1 reads in
  let replay := buffer_replay b process_id (Some (mkOutputCursor epoch (Z.of_nat r))) in
  (or_gap replay = false <-> or_chunks replay = drop r all) /\
  or_next_revision replay = Z.of_nat (length reads) + 1 /\
  total (ob_chunks b) <= OUTPUT_LIMIT_BYTES /\
  (exists evicted, all = evicted ++ ob_chunks b /\
     forall c, last evicted = Some c -> OUTPUT_LIMIT_BYTES < blen (oc_data c) + total (ob_chunks b)).
Proof.
  intros Hreads Hlen Hr b all replay.
  destruct (reader_holds epoch process_id reads Hreads Hlen) as [Hep Hh]. fold b all in Hep, Hh.
  pose proof Hh as [Hsuffix _ Hnext Hbytes Hlim _ _]. rewrite <- Hbytes.
  subst replay. rewrite <- Hep. split_and!; [|simpl; rewrite Hnext; unfold all; by rewrite stream_chunks_length|done|done].
  by eapply replay_no_gap.
Qed.

Lemma replay_is_lossless_witness :
  or_chunks (buffer_replay (push_all (buffer_new "s") "p" [([1], 0); ([2; 3], 5)]) "p"
    (Some (mkOutputCursor "s" 1)))
  = drop 1 (stream_chunks "s" "p" [] 1 [([1], 0); ([2; 3], 5)]).
Proof.
  apply (replay_is_lossless "s" "p" [([1], 0); ([2; 3], 5)] 1).
  - repeat (constructor; [vm_compute; intros [=]|]). constructor.
  - vm_compute. intros [=].
  - reflexivity.
  - vm_compute. reflexivity.
Defined.

(** ** The mode the terminal is in *)

Lemma start_with_iff p s : bytes_start_with p s = true <-> exists after, s = p ++ after.
Proof.
  revert s. induction p as [|x p IH]; intros s; simpl; [split; [eauto|done]|].
  destruct s as [|y s]; [split; [done|by intros [? [=]]]|].
  rewrite andb_true_iff, Z.eqb_eq, IH. split.
  - intros [-> [after ->]]. by exists after.
  - intros [after [= -> ->]]. eauto.
Qed.

Lemma occurs_cons p x s : occurs p (x :: s) <-> bytes_start_with p (x :: s) = true \/ occurs p s.
Proof.
  rewrite start_with_iff. split.
  - intros ([|y before] & after & He); [left; eauto|]. injection He as -> ->. right. by exists before, after.
  - intros [[after He]|(before & after & ->)]; [by exists [], after|by exists (x :: before), after].
Qed.

Lemma occurs_short p s : (length s < length p)%nat -> ~ occurs p s.
Proof. intros Hl (before & after & ->). rewrite !length_app in Hl. lia. Qed.

Lemma occurs_suffix p u s : occurs p s -> occurs p (u ++ s).
Proof. intros (before & after & ->). exists (u ++ before), after. by rewrite (assoc_L (++)). Qed.

(** A sequence that starts with ESC does not start at another byte. *)
Lemma occurs_skip p x s : p !! 0%nat = Some 27 -> x <> 27 -> occurs p (x :: s) -> occurs p s.
Proof.
  intros Hp Hx. rewrite occurs_cons. intros [Hs|]; [|done].
  destruct p as [|y p]; [done|]. simpl in *. apply andb_prop in Hs as [?%Z.eqb_eq _]. naive_solver.
Qed.

Definition paste_enabled (m : bool) (s : bytes) : Prop :=
  (exists before after, s = before ++ BRACKETED_PASTE_ENABLE ++ after /\
     ~ occurs BRACKETED_PASTE_DISABLE after) \/
  (m = true /\ ~ occurs BRACKETED_PASTE_DISABLE s).

Lemma enabled_in_rest x s :
  bytes_start_with BRACKETED_PASTE_ENABLE (x :: s) = false ->
  (exists before after, x :: s = before ++ BRACKETED_PASTE_ENABLE ++ after /\
     ~ occurs BRACKETED_PASTE_DISABLE after) <->
  (exists before after, s = before ++ BRACKETED_PASTE_ENABLE ++ after /\
     ~ occurs BRACKETED_PASTE_DISABLE after).
Proof.
  intros Hs. split.
  - intros ([|y before] & after & He & Hd).
    + assert (bytes_start_with BRACKETED_PASTE_ENABLE (x :: s) = true); [|congruence].
      apply start_with_iff. by exists after.
    + injection He as -> ->. by exists before, after.
  - intros (before & after & -> & Hd). by exists (x :: before), after.
Qed.

Lemma mode_scan_spec m s : mode_scan m s = true <-> paste_enabled m s.
Proof.
  revert m. induction s as [|x s IH]; intros m.
  { simpl. unfold paste_enabled. split.
    - intros ->. right. split; [done|by apply occurs_short; simpl; lia].
    - intros [(before & after & He & _)|[-> _]]; [|done]. by destruct before. }
  cbn [mode_scan]. rewrite IH. unfold paste_enabled, mode_step.
  destruct (bytes_start_with BRACKETED_PASTE_ENABLE (x :: s)) eqn:He.
  - pose proof He as [after Hs]%start_with_iff. injection Hs as -> Hs. split.
    + intros [(b & a & -> & Hd)|[_ Hd]]; left; [by exists (27 :: b), a|].
      exists [], after. simpl. rewrite Hs. split; [done|]. intros Ho. apply Hd. rewrite Hs.
      by apply (occurs_suffix _ [91; 63; 50; 48; 48; 52; 104]).
    + intros [([|y b] & a & Heq & Hd)|[-> Hd]].
      * right. split; [done|]. simpl in Heq. injection Heq as ->. intros Ho. apply Hd.
        by repeat (apply occurs_skip in Ho; [|done|done]).
      * injection Heq as <- ->. left. by exists b, a.
      * right. split; [done|]. intros Ho. apply Hd. apply occurs_cons. by right.
  - rewrite (enabled_in_rest x s He).
    destruct (bytes_start_with BRACKETED_PASTE_DISABLE (x :: s)) eqn:Hd.
    + split; [intros [?|[? _]]; [by left|done]|]. intros [?|[_ Hn]]; [by left|].
      exfalso. apply Hn, occurs_cons. by left.
    + rewrite (occurs_cons BRACKETED_PASTE_DISABLE). rewrite Hd. intuition congruence.
Qed.

(** The bracketed-paste flag is right however the output is cut into reads.  After any
    sequence of reads, the flag is set exactly when the enabling sequence occurs in the
    concatenated output with no disabling sequence after it. *)
Theorem paste_mode_ignores_chunking epoch process_id reads :
  Forall (fun read => blen read.1 <= READ_BUFFER) reads ->
  Z.of_nat (length reads) + 1 <= u64_max ->
  ob_bracketed_paste (push_all (buffer_new epoch) process_id reads) = true <->
  exists before after, concat reads.*1 = before ++ BRACKETED_PASTE_ENABLE ++ after /\
    ~ occurs BRACKETED_PASTE_DISABLE after.
Proof.
  intros Hr Hlen. destruct (reader_holds epoch process_id reads Hr Hlen) as [_ [_ _ _ _ _ Hm _]].
  rewrite Hm, mode_scan_spec. unfold paste_enabled. naive_solver.
Qed.

Lemma paste_mode_ignores_chunking_witness :
  ob_bracketed_paste (push_all (buffer_new "s") "p" [([27; 91; 63], 0); ([50; 48; 48; 52; 104], 1)]) = true.
Proof.
  apply (paste_mode_ignores_chunking "s" "p" [([27; 91; 63], 0); ([50; 48; 48; 52; 104], 1)]).
  - repeat (constructor; [vm_compute; intros [=]|]). constructor.
  - vm_compute. intros [=].
  - exists [], []. split; [reflexivity|]. apply occurs_short. simpl. lia.
Defined.

(** ** The cursor query *)

Lemma observe_loop_occurs s : forall m, (m < 4)%nat ->
  (observe_loop m s).1 = true <-> occurs CURSOR_QUERY (take m CURSOR_QUERY ++ s).
Proof.
  induction s as [|byte s IH]; intros m Hm.
  { simpl. rewrite app_nil_r. split; [done|]. intros H. exfalso. revert H. apply occurs_short.
    rewrite length_take. simpl. lia. }
  cbn [observe_loop]. case_bool_decide as Hb.
  - assert (take m CURSOR_QUERY ++ byte :: s = take (m + 1) CURSOR_QUERY ++ s) as ->.
    { rewrite Nat.add_1_r, (take_S_r _ _ byte), <- (assoc_L (++)) by done. done. }
    destruct (Nat.eqb_spec (m + 1) (length CURSOR_QUERY)) as [He|Hne]; simpl in *.
    + split; [|done]. intros _. rewrite He. by exists [], s.
    + apply IH. lia.
  - assert (occurs CURSOR_QUERY (take m CURSOR_QUERY ++ byte :: s) <-> occurs CURSOR_QUERY (byte :: s)) as ->.
    { split; [|apply occurs_suffix]. intros Ho. destruct m as [|[|[|[|]]]]; [done| | | |lia]; simpl in *.
      - apply occurs_cons in Ho as [Ho|Ho]; [|done].
        apply start_with_iff in Ho as [after Ho]. by simplify_eq/=.
      - apply occurs_cons in Ho as [Ho|Ho]; [apply start_with_iff in Ho as [after Ho]; by simplify_eq/=|].
        by apply occurs_skip in Ho.
      - apply occurs_cons in Ho as [Ho|Ho]; [apply start_with_iff in Ho as [after Ho]; by simplify_eq/=|].
        apply occurs_skip in Ho; [|done|done]. by apply occurs_skip in Ho. }
    destruct (Z.eqb_spec byte 27) as [->|Hne]; rewrite IH by lia; simpl; [done|].
    split; [|by apply occurs_skip]. intros Ho. apply occurs_cons. by right.
Qed.

Lemma observe_loop_state m s :
  (m < 4)%nat -> let '(a, q) := observe_loop m s in
  cq_answered q = a /\ (a = false -> (cq_matched q < 4)%nat).
Proof.
  revert m. induction s as [|byte s IH]; intros m Hm; simpl; [done|]. case_bool_decide.
  - destruct (Nat.eqb_spec (m + 1) 4); [done|]. apply IH. lia.
  - apply IH. case_match; lia.
Qed.

Lemma observe_loop_app m s t :
  observe_loop m (s ++ t) =
  if (observe_loop m s).1 then observe_loop m s
  else observe_loop (cq_matched (observe_loop m s).2) t.
Proof.
  revert m. induction s as [|byte s IH]; intros m; simpl; [done|].
  case_bool_decide; [|apply IH]. case_match; [done|apply IH].
Qed.

(** The terminal's initial cursor query is answered once, however it arrives.  Over any
    sequence of reads, some read asks for an answer exactly when the query sequence occurs in
    the concatenated output, and afterwards no further read does. *)
Theorem cursor_query_answered_once reads :
  ((observe_all (mkConPtyCursorQuery 0 false) reads).1 = true <-> occurs CURSOR_QUERY (concat reads)) /\
  forall more, occurs CURSOR_QUERY (concat reads) ->
    (observe (observe_all (mkConPtyCursorQuery 0 false) reads).2 more).1 = false.
Proof.
  assert (forall m answer, (m < 4)%nat ->
    foldl (fun '(answer, q) data => let '(a, q') := observe q data in (answer || a, q'))
      (answer, mkConPtyCursorQuery m false) reads
    = let '(a, q) := observe_loop m (concat reads) in (answer || a, q)) as Hloop.
  { induction reads as [|data reads IH]; intros m answer Hm; simpl; [by rewrite orb_false_r|].
    rewrite observe_loop_app. unfold observe at 2. simpl.
    pose proof (observe_loop_state m data Hm) as Hst.
    destruct (observe_loop m data) as [a q]. destruct Hst as [Ha Hlt]. simpl. destruct a.
    - assert (forall l an, foldl (fun '(answer, q) data => let '(a, q') := observe q data in (answer || a, q'))
        (an, q) l = (an, q)) as Hdone.
      { induction l as [|d l IHl]; intros an; simpl; [done|]. unfold observe at 2. rewrite Ha.
        by rewrite orb_false_r, IHl. }
      by rewrite Hdone.
    - destruct q as [m' a']. simpl in *. subst a'. rewrite IH by auto. by rewrite orb_false_r. }
  unfold observe_all. rewrite Hloop by lia.
  pose proof (observe_loop_occurs (concat reads) 0 ltac:(lia)) as Hocc. simpl in Hocc.
  pose proof (observe_loop_state 0 (concat reads) ltac:(lia)) as Hst.
  destruct (observe_loop 0 (concat reads)) as [a q]. destruct Hst as [Ha _]. simpl in *.
  split; [done|]. intros more Ho. apply Hocc in Ho as ->. unfold observe. by rewrite Ha.
Qed.
