(* ===== verification/HostRuntime.v ===== *)
(** * The process runtime (crates/treer-agent-runtime/src/lib.rs, [HostRuntime])

    The registry of processes.  Each process has a reader thread (output) and a monitor thread
    (exit).  A step of the model is one critical section of a thread or of a caller, and the
    steps interleave in any order.  The shared process objects ([Arc<HostProcess>]) are cells of
    a heap, so a thread may hold an object that the registry has replaced; a cell also has the
    position of its two threads.  The three handles a clean-up drops one after another are dropped
    in one step: the process is already marked as not running, so no new caller uses them.  The
    operating system's answers (canonical paths, PTY and process creation, kill, terminal
    writes) are inputs. *)

From S2P Require Import Prelude RustStr Protocol HostProtocol OutputBuffer.
Local Open Scope Z_scope.

Definition COMPLETED_PROCESS_LIMIT : nat := 256%nat.

Inductive RuntimeError : Type :=
| ProcessExists (id : string)
| ProcessNotFound (id : string)
| ProcessNotRunning (id : string)
| InvalidCwd (message : string)
| InvalidRequest (message : string)
| SpawnFailed (message : string)
| TerminalError (message : string).

(** [RuntimeError::code] *)
Definition runtime_error_code (e : RuntimeError) : string :=
  match e with
  | ProcessExists _ => "process_exists"
  | ProcessNotFound _ => "process_not_found"
  | ProcessNotRunning _ => "process_not_running"
  | InvalidCwd _ => "invalid_cwd"
  | InvalidRequest _ => "invalid_request"
  | SpawnFailed _ => "spawn_failed"
  | TerminalError _ => "terminal_error"
  end.
(** Its [Display]. *)
Definition runtime_error_message (e : RuntimeError) : string :=
  match e with
  | ProcessExists id => "process " +:+ id +:+ " already exists"
  | ProcessNotFound id => "process " +:+ id +:+ " was not found"
  | ProcessNotRunning id => "process " +:+ id +:+ " is no longer running"
  | InvalidCwd m => "invalid working directory: " +:+ m
  | InvalidRequest m => "invalid process request: " +:+ m
  | SpawnFailed m => "failed to start process: " +:+ m
  | TerminalError m => "terminal operation failed: " +:+ m
  end.

(** How far the monitor thread of a process is: polling, after it recorded the exit, after
    [finish_process] dropped the handles, and after it updated the registry. *)
Inductive MonitorState : Type := Watching | Reported | Released | Retired.

(** What the reader thread holds between its two critical sections: the chunk it pushed and the
    buffer's bounds and mode as it read them. *)
Record PendingChunk : Type := mkPendingChunk {
  pc_chunk : HostOutputChunk;
  pc_first_revision : Z;
  pc_next_revision : Z;
  pc_bracketed_paste : bool
}.

(** A process object with the position of its two threads.  [hp_input], [hp_child] and
    [hp_master] say whether the option still holds its handle. *)
Record HostProcess : Type := mkHostProcess {
  hp_info : HostProcessInfo;
  hp_input : bool;
  hp_child : bool;
  hp_master : bool;
  hp_output : OutputBuffer;
  hp_stopping : bool;
  hp_monitor : MonitorState;
  hp_pending : option PendingChunk
}.

(** A path is the list of its components. *)
Record HostRuntime : Type := mkHostRuntime {
  rt_root : list string;
  rt_heap : list HostProcess;
  rt_processes : gmap string nat;
  rt_completed : list string;
  rt_process_events : list HostProcessInfo;
  rt_output_events : list HostOutputChunk
}.

Definition runtime_new (root : list string) : HostRuntime := mkHostRuntime root [] ∅ [] [] [].

(** ** Helpers *)

Definition set_info (p : HostProcess) (info : HostProcessInfo) : HostProcess :=
  mkHostProcess info (hp_input p) (hp_child p) (hp_master p) (hp_output p) (hp_stopping p)
    (hp_monitor p) (hp_pending p).
Definition set_stopping (p : HostProcess) : HostProcess :=
  mkHostProcess (hp_info p) (hp_input p) (hp_child p) (hp_master p) (hp_output p) true
    (hp_monitor p) (hp_pending p).
Definition set_monitor (p : HostProcess) (m : MonitorState) : HostProcess :=
  mkHostProcess (hp_info p) (hp_input p) (hp_child p) (hp_master p) (hp_output p) (hp_stopping p)
    m (hp_pending p).
Definition set_output (p : HostProcess) (output : OutputBuffer) (pending : option PendingChunk)
    : HostProcess :=
  mkHostProcess (hp_info p) (hp_input p) (hp_child p) (hp_master p) output (hp_stopping p)
    (hp_monitor p) pending.
(** [take] on the three handles. *)
Definition drop_handles (p : HostProcess) : HostProcess :=
  mkHostProcess (hp_info p) false false false (hp_output p) (hp_stopping p) (hp_monitor p)
    (hp_pending p).

Definition put (rt : HostRuntime) (ptr : nat) (p : HostProcess) : HostRuntime :=
  mkHostRuntime (rt_root rt) (<[ptr := p]> (rt_heap rt)) (rt_processes rt) (rt_completed rt)
    (rt_process_events rt) (rt_output_events rt).

Definition send_process (rt : HostRuntime) (info : HostProcessInfo) : HostRuntime :=
  mkHostRuntime (rt_root rt) (rt_heap rt) (rt_processes rt) (rt_completed rt)
    (rt_process_events rt ++ [info]) (rt_output_events rt).
Definition send_output (rt : HostRuntime) (chunk : HostOutputChunk) : HostRuntime :=
  mkHostRuntime (rt_root rt) (rt_heap rt) (rt_processes rt) (rt_completed rt)
    (rt_process_events rt) (rt_output_events rt ++ [chunk]).
Definition set_registry (rt : HostRuntime) (processes : gmap string nat) (completed : list string)
    : HostRuntime :=
  mkHostRuntime (rt_root rt) (rt_heap rt) processes completed (rt_process_events rt)
    (rt_output_events rt).

(** [RuntimeInner::update_process] on the process object [ptr]. *)
Definition update_process (rt : HostRuntime) (ptr : nat) (p : HostProcess)
    (mutation : HostProcessInfo -> HostProcessInfo) : HostProcessInfo * HostRuntime :=
  let info := mutation (hp_info p) in
  (info, send_process (put rt ptr (set_info p info)) info).

Definition push_bounded (completed : list string) (process_id : string) (limit : nat)
    : option string * list string :=
  let completed := completed ++ [process_id] in
  if Nat.ltb limit (length completed) then (head completed, tail completed) else (None, completed).

(** [HostRuntime::get] and [get_running] *)
Definition get (rt : HostRuntime) (process_id : string) : Result (nat * HostProcess) RuntimeError :=
  ok_or (ptr ← rt_processes rt !! process_id; p ← rt_heap rt !! ptr; Some (ptr, p))
    (ProcessNotFound process_id).
Definition get_running (rt : HostRuntime) (process_id : string)
    : Result (nat * HostProcess) RuntimeError :=
  let? found := get rt process_id in
  if hpi_running (hp_info found.2) then Ok found else Err (ProcessNotRunning process_id).

(** [HostRuntime::list]: the registry's keys are the processes' IDs. *)
Definition runtime_list (rt : HostRuntime) : list HostProcessInfo :=
  omap (fun '(_, ptr) => hp_info <$> rt_heap rt !! ptr) (btree_iter (rt_processes rt)).

(** ** Working directories *)

Definition resolve_cwd (canonicalize : list string -> string -> Result (list string) string)
    (rt : HostRuntime) (requested : string) : Result (list string) RuntimeError :=
  let requested := if is_empty (trim requested) then "." else requested in
  if starts_with "/" requested
  then Err (InvalidCwd "cwd must be relative to the host root")
  else
    let? cwd := map_err InvalidCwd (canonicalize (rt_root rt) requested) in
    if bool_decide (rt_root rt `prefix_of` cwd) then Ok cwd
    else Err (InvalidCwd "cwd resolves outside the host root").

Definition relative_display (root cwd : list string) : string :=
  let rest := drop (length root) cwd in
  if bool_decide (root `prefix_of` cwd) && negb (bool_decide (rest = [])) then join "/" rest else ".".

(** ** Operations *)

(** What the operating system answers to a spawn: paths, the result of creating the PTY and the
    child (its pid), the clock and the generated stream epoch. *)
Record SpawnEnv : Type := mkSpawnEnv {
  se_canonicalize : list string -> string -> Result (list string) string;
  se_start : Result (option Z) RuntimeError;
  se_now : Z;
  se_epoch : string
}.

(** The registry check of [HostRuntime::spawn]: an exited process of the same ID is taken off
    the completed queue. *)
Definition reclaim (rt : HostRuntime) (process_id : string) : Result HostRuntime RuntimeError :=
  match rt_processes rt !! process_id with
  | None => Ok rt
  | Some ptr =>
      if is_some_and (rt_heap rt !! ptr) (fun p => hpi_running (hp_info p))
      then Err (ProcessExists process_id)
      else Ok (set_registry rt (rt_processes rt)
                 (List.filter (fun id => negb (id =s process_id)) (rt_completed rt)))
  end.

Definition new_process (rt : HostRuntime) (env : SpawnEnv) (request : HostSpawnRequest)
    (cwd : list string) (pid : option Z) : HostProcess :=
  let output := buffer_new (se_epoch env) in
  let info :=
    mkHostProcessInfo (hsr_process_id request) pid (relative_display (rt_root rt) cwd) true
      (se_now env) (se_now env) None None (ob_stream_epoch output) (first_revision output)
      (ob_next_revision output) false (hsr_metadata request) in
  mkHostProcess info true true true output false Watching None.

(** [HostRuntime::spawn] *)
Definition runtime_spawn (env : SpawnEnv) (request : HostSpawnRequest) (rt : HostRuntime)
    : Result HostProcessInfo RuntimeError * HostRuntime :=
  if is_empty (trim (hsr_process_id request)) || is_empty (trim (hsr_command request))
  then (Err (InvalidRequest "process_id and command must not be empty"), rt)
  else
    match reclaim rt (hsr_process_id request) with
    | Err e => (Err e, rt)
    | Ok rt =>
        match (let? cwd := resolve_cwd (se_canonicalize env) rt (hsr_cwd request) in
               let? pid := se_start env in Ok (cwd, pid)) with
        | Err e => (Err e, rt)
        | Ok (cwd, pid) =>
            let process := new_process rt env request cwd pid in
            let rt' :=
              mkHostRuntime (rt_root rt) (rt_heap rt ++ [process])
                (<[hsr_process_id request := length (rt_heap rt)]> (rt_processes rt))
                (rt_completed rt) (rt_process_events rt) (rt_output_events rt) in
            (Ok (hp_info process), send_process rt' (hp_info process))
        end
    end.

(** [HostRuntime::read] *)
Definition runtime_read (rt : HostRuntime) (process_id : string) (cursor : option OutputCursor)
    : Result HostOutputReplay RuntimeError :=
  let? found := get rt process_id in
  Ok (buffer_replay (hp_output found.2) process_id cursor).

(** [HostRuntime::write]; [results] are the writer thread's answers, in order. *)
Fixpoint write_loop (process_id : string) (input : bool) (writes : list HostWrite)
    (results : list (Result unit string)) : Result unit RuntimeError :=
  match writes with
  | [] => Ok tt
  | _ :: writes' =>
      (if input then Ok tt else Err (ProcessNotRunning process_id)) ;?
      match results with
      | [] => Err (TerminalError "terminal input writer stopped")
      | result :: results' =>
          map_err TerminalError result ;?
          write_loop process_id input writes' results'
      end
  end.
Definition runtime_write (rt : HostRuntime) (process_id : string) (writes : list HostWrite)
    (results : list (Result unit string)) : Result HostProcessInfo RuntimeError :=
  match writes with
  | [] => Err (InvalidRequest "writes must not be empty")
  | _ =>
      let? found := get_running rt process_id in
      write_loop process_id (hp_input found.2) writes results ;?
      Ok (hp_info found.2)
  end.

(** [HostRuntime::resize]; [resized] is the terminal's answer for the clamped size. *)
Definition runtime_resize (rt : HostRuntime) (process_id : string) (cols rows : Z)
    (resized : Z -> Z -> Result unit string) : Result HostProcessInfo RuntimeError :=
  let? found := get_running rt process_id in
  (if hp_master found.2 then Ok tt else Err (ProcessNotRunning process_id)) ;?
  map_err TerminalError (resized (Z.max cols 1) (Z.max rows 1)) ;?
  Ok (hp_info found.2).

(** [HostRuntime::stop], up to the kill; [killed] is its result.  Returns the process object. *)
Definition stop_kill (killed : Result unit string) (process_id : string) (rt : HostRuntime)
    : Result nat RuntimeError * HostRuntime :=
  match get_running rt process_id with
  | Err e => (Err e, rt)
  | Ok (ptr, p) =>
      let rt := put rt ptr (set_stopping p) in
      ((if hp_child p then map_err TerminalError killed
        else Err (ProcessNotRunning process_id)) ;? Ok ptr, rt)
  end.

Definition mark_stopped (now : Z) (i : HostProcessInfo) : HostProcessInfo :=
  mkHostProcessInfo (hpi_process_id i) (hpi_pid i) (hpi_cwd i) false (hpi_started_at i)
    (hpi_last_output_at i) (Some now) (hpi_exit_code i) (hpi_stream_epoch i)
    (hpi_first_revision i) (hpi_next_revision i) (hpi_bracketed_paste i) (hpi_metadata i).

(** The rest of [HostRuntime::stop], on the object it killed. *)
Definition stop_mark (now : Z) (ptr : nat) (rt : HostRuntime)
    : Result HostProcessInfo RuntimeError * HostRuntime :=
  match rt_heap rt !! ptr with
  | None => (Err (TerminalError "process state lock poisoned"), rt)
  | Some p => let '(info, rt) := update_process rt ptr p (mark_stopped now) in (Ok info, rt)
  end.

(** [HostRuntime::stop] when no thread runs in between. *)
Definition runtime_stop (now : Z) (killed : Result unit string) (process_id : string)
    (rt : HostRuntime) : Result HostProcessInfo RuntimeError * HostRuntime :=
  match stop_kill killed process_id rt with
  | (Err e, rt) => (Err e, rt)
  | (Ok ptr, rt) => stop_mark now ptr rt
  end.

(** ** Threads *)

(** [spawn_output_reader], one read: the buffer's critical section. *)
Definition reader_push (now : Z) (ptr : nat) (data : bytes) (rt : HostRuntime) : HostRuntime :=
  match rt_heap rt !! ptr with
  | Some p =>
      if is_some (hp_pending p) then rt
      else
        let '(chunk, output) := buffer_push (hp_output p) (hpi_process_id (hp_info p)) data now in
        put rt ptr (set_output p output
          (Some (mkPendingChunk chunk (first_revision output) (ob_next_revision output)
                   (ob_bracketed_paste output))))
  | None => rt
  end.

Definition mark_output (o : PendingChunk) (i : HostProcessInfo) : HostProcessInfo :=
  mkHostProcessInfo (hpi_process_id i) (hpi_pid i) (hpi_cwd i) (hpi_running i) (hpi_started_at i)
    (oc_emitted_at (pc_chunk o)) (hpi_exited_at i) (hpi_exit_code i) (hpi_stream_epoch i)
    (pc_first_revision o) (pc_next_revision o) (pc_bracketed_paste o) (hpi_metadata i).

(** The rest of the turn: the record's critical section, then the broadcast. *)
Definition reader_publish (ptr : nat) (rt : HostRuntime) : HostRuntime :=
  match rt_heap rt !! ptr with
  | Some p =>
      match hp_pending p with
      | Some o =>
          send_output
            (put rt ptr (set_output (set_info p (mark_output o (hp_info p))) (hp_output p) None))
            (pc_chunk o)
      | None => rt
      end
  | None => rt
  end.

Definition mark_exited (now : Z) (exit_code : option Z) (i : HostProcessInfo) : HostProcessInfo :=
  mkHostProcessInfo (hpi_process_id i) (hpi_pid i) (hpi_cwd i) false (hpi_started_at i)
    (hpi_last_output_at i) (Some now) exit_code (hpi_stream_epoch i)
    (hpi_first_revision i) (hpi_next_revision i) (hpi_bracketed_paste i) (hpi_metadata i).

(** [spawn_process_monitor] when [try_wait] reports the exit of the child it still holds. *)
Definition monitor_exit (now : Z) (exit_code : option Z) (ptr : nat) (rt : HostRuntime)
    : HostRuntime :=
  match rt_heap rt !! ptr with
  | Some p =>
      match hp_monitor p with
      | Watching =>
          if hp_child p
          then (update_process rt ptr (set_monitor p Reported) (mark_exited now exit_code)).2
          else rt
      | _ => rt
      end
  | None => rt
  end.

(** [RuntimeInner::finish_process], which the monitor runs next: the handles, each under its own
    lock. *)
Definition finish_release (ptr : nat) (rt : HostRuntime) : HostRuntime :=
  match rt_heap rt !! ptr with
  | Some p =>
      match hp_monitor p with
      | Reported => put rt ptr (set_monitor (drop_handles p) Released)
      | _ => rt
      end
  | None => rt
  end.

(** Then the registry, under its write lock. *)
Definition finish_retire (ptr : nat) (rt : HostRuntime) : HostRuntime :=
  match rt_heap rt !! ptr with
  | Some p =>
      match hp_monitor p with
      | Released =>
          let rt := put rt ptr (set_monitor p Retired) in
          let process_id := hpi_process_id (hp_info p) in
          if bool_decide (rt_processes rt !! process_id = Some ptr) then
            let '(evicted, completed) :=
              push_bounded (rt_completed rt) process_id COMPLETED_PROCESS_LIMIT in
            set_registry rt
              (match evicted with
               | Some id => delete id (rt_processes rt)
               | None => rt_processes rt
               end) completed
          else rt
      | _ => rt
      end
  | None => rt
  end.

(** ** Histories *)

(** Each event is one critical section; a caller's [stop] that has killed a process marks it at
    any later point. *)
Inductive RuntimeEvent : Type :=
| EvSpawn (env : SpawnEnv) (request : HostSpawnRequest)
| EvKill (killed : Result unit string) (process_id : string)
| EvMarkStopped (now : Z) (ptr : nat)
| EvRead (now : Z) (ptr : nat) (data : bytes)
| EvPublish (ptr : nat)
| EvExit (now : Z) (exit_code : option Z) (ptr : nat)
| EvRelease (ptr : nat)
| EvRetire (ptr : nat).

Definition runtime_step (rt : HostRuntime) (event : RuntimeEvent) : HostRuntime :=
  match event with
  | EvSpawn env request => (runtime_spawn env request rt).2
  | EvKill killed id => (stop_kill killed id rt).2
  | EvMarkStopped now ptr => (stop_mark now ptr rt).2
  | EvRead now ptr data => reader_push now ptr data rt
  | EvPublish ptr => reader_publish ptr rt
  | EvExit now code ptr => monitor_exit now code ptr rt
  | EvRelease ptr => finish_release ptr rt
  | EvRetire ptr => finish_retire ptr rt
  end.

(** ** Invariant *)

(** The process object that the registry has for an ID. *)
Definition registered (rt : HostRuntime) (id : string) : option HostProcess :=
  ptr ← rt_processes rt !! id; rt_heap rt !! ptr.

(** The record's bounds and mode, or those about to be published, are the buffer's. *)
Definition mirrors (p : HostProcess) : Prop :=
  hpi_stream_epoch (hp_info p) = ob_stream_epoch (hp_output p) /\
  let '(first, next, paste) :=
    match hp_pending p with
    | Some o => (pc_first_revision o, pc_next_revision o, pc_bracketed_paste o)
    | None => (hpi_first_revision (hp_info p), hpi_next_revision (hp_info p),
               hpi_bracketed_paste (hp_info p))
    end in
  first = first_revision (hp_output p) /\ next = ob_next_revision (hp_output p) /\
  paste = ob_bracketed_paste (hp_output p).

(** Past the exit a process is not running, and it holds its child until the release. *)
Definition monitored (p : HostProcess) : Prop :=
  match hp_monitor p with
  | Watching => hp_child p = true
  | Reported => hp_child p = true /\ hpi_running (hp_info p) = false
  | Released | Retired => hp_child p = false /\ hpi_running (hp_info p) = false
  end.

Record runtime_ok (rt : HostRuntime) : Prop := {
  rok_registered : forall id ptr, rt_processes rt !! id = Some ptr ->
    exists p, rt_heap rt !! ptr = Some p /\ hpi_process_id (hp_info p) = id;
  rok_monitored : forall ptr p, rt_heap rt !! ptr = Some p -> monitored p;
  rok_mirrors : forall ptr p, rt_heap rt !! ptr = Some p -> mirrors p;
  rok_completed : forall id, id ∈ rt_completed rt ->
    exists p, registered rt id = Some p /\ hp_monitor p = Retired;
  rok_completed_unique : NoDup (rt_completed rt);
  rok_completed_bounded : (length (rt_completed rt) <= COMPLETED_PROCESS_LIMIT)%nat
}.

Definition is_running (rt : HostRuntime) (ptr : nat) : bool :=
  is_some_and (rt_heap rt !! ptr) (fun p => hpi_running (hp_info p)).

(** ** Sample histories *)

Definition sample_spawn_request (cwd : string) : HostSpawnRequest :=
  mkHostSpawnRequest "p1" "bash" [] cwd ∅ 80 24 "".
Definition sample_spawn_env : SpawnEnv :=
  mkSpawnEnv (fun root cwd => if cwd =s "." then Ok root else Err "No such file or directory")
    (Ok (Some 42)) 1000 "stream_1".
Definition sample_runtime : HostRuntime :=
  foldl runtime_step (runtime_new ["srv"])
    [EvSpawn sample_spawn_env (sample_spawn_request ""); EvRead 1001 0 [104; 105]; EvPublish 0;
     EvExit 1002 (Some 0) 0; EvRelease 0; EvRetire 0].

(** ** Lemmas *)

(** The invariant is about the heap and the registry only. *)
Lemma runtime_ok_same rt rt' :
  rt_heap rt = rt_heap rt' -> rt_processes rt = rt_processes rt' -> rt_completed rt = rt_completed rt' ->
  runtime_ok rt -> runtime_ok rt'.
Proof.
  intros Hh Hp Hc [H1 H2 H3 H4 H5 H6]. unfold registered in *. rewrite Hh, Hp, Hc in *.
  split; unfold registered; done.
Qed.

Lemma send_process_ok rt info : runtime_ok rt -> runtime_ok (send_process rt info).
Proof. by apply runtime_ok_same. Qed.
Lemma send_output_ok rt chunk : runtime_ok rt -> runtime_ok (send_output rt chunk).
Proof. by apply runtime_ok_same. Qed.

Lemma registered_put rt ptr p p' id :
  rt_heap rt !! ptr = Some p ->
  registered (put rt ptr p') id =
    if bool_decide (rt_processes rt !! id = Some ptr) then Some p' else registered rt id.
Proof.
  intros Hp. unfold registered; simpl. apply lookup_lt_Some in Hp.
  case_bool_decide as Hb; [rewrite Hb; simpl; by rewrite list_lookup_insert_eq|].
  destruct (rt_processes rt !! id) as [q|] eqn:Hq; [|done]. simpl.
  rewrite list_lookup_insert_ne; [done|]. congruence.
Qed.

(** A process object may change as long as it keeps its ID, stays in order, and a retired one
    stays retired. *)
Lemma put_ok rt ptr p p' :
  runtime_ok rt -> rt_heap rt !! ptr = Some p ->
  hpi_process_id (hp_info p') = hpi_process_id (hp_info p) ->
  monitored p' -> mirrors p' -> (hp_monitor p = Retired -> hp_monitor p' = Retired) ->
  runtime_ok (put rt ptr p').
Proof.
  intros [H1 H2 H3 H4 H5 H6] Hp Hid Hmon Hmir Hret.
  pose proof (lookup_lt_Some _ _ _ Hp) as Hlt. split; simpl; [| | | |done|done].
  - intros id q Hq. destruct (H1 id q Hq) as (pq & Hpq & Hidq).
    destruct (decide (ptr = q)) as [<-|Hne].
    + exists p'. rewrite list_lookup_insert_eq by done. split; [done|]. simplify_eq. congruence.
    + exists pq. by rewrite list_lookup_insert_ne by done.
  - intros q pq. rewrite list_lookup_insert_Some. intros [(-> & <- & _)|[_ Hpq]]; [done|eauto].
  - intros q pq. rewrite list_lookup_insert_Some. intros [(-> & <- & _)|[_ Hpq]]; [done|eauto].
  - intros id Hin. destruct (H4 id Hin) as (pc & Hpc & Hch).
    rewrite (registered_put rt ptr p) by done. case_bool_decide as Hb; [|eauto].
    exists p'. split; [done|]. apply Hret. unfold registered in Hpc. rewrite Hb in Hpc.
    simpl in Hpc. congruence.
Qed.

Lemma get_running_spec rt id ptr p :
  get_running rt id = Ok (ptr, p) ->
  rt_processes rt !! id = Some ptr /\ rt_heap rt !! ptr = Some p /\ hpi_running (hp_info p) = true.
Proof.
  unfold get_running, get. destruct (rt_processes rt !! id) as [q|]; simpl; [|done].
  destruct (rt_heap rt !! q) as [pq|] eqn:Hq; simpl; [|done]. case_match; [|done]. by intros [= <- <-].
Qed.

(** Every step but a spawn and the registry part of a clean-up changes at most one process
    object, which keeps its ID and stays retired if it was. *)
Definition object_step (rt rt' : HostRuntime) : Prop :=
  rt_processes rt' = rt_processes rt /\ rt_completed rt' = rt_completed rt /\
  (rt_heap rt' = rt_heap rt \/
   exists ptr p p', rt_heap rt !! ptr = Some p /\ rt_heap rt' = <[ptr := p']> (rt_heap rt) /\
     hpi_process_id (hp_info p') = hpi_process_id (hp_info p) /\
     (monitored p -> monitored p') /\ (mirrors p -> mirrors p') /\
     (hp_monitor p = Retired -> hp_monitor p' = Retired)).

Definition is_object_event (event : RuntimeEvent) : bool :=
  match event with EvSpawn _ _ | EvRetire _ => false | _ => true end.

Lemma object_step_same rt rt' :
  rt_heap rt' = rt_heap rt -> rt_processes rt' = rt_processes rt ->
  rt_completed rt' = rt_completed rt -> object_step rt rt'.
Proof. by intros; split_and!; auto. Qed.

Lemma object_step_put rt ptr p p' rt' :
  rt_heap rt !! ptr = Some p -> rt_heap rt' = <[ptr := p']> (rt_heap rt) ->
  rt_processes rt' = rt_processes rt -> rt_completed rt' = rt_completed rt ->
  hpi_process_id (hp_info p') = hpi_process_id (hp_info p) ->
  (monitored p -> monitored p') -> (mirrors p -> mirrors p') ->
  (hp_monitor p = Retired -> hp_monitor p' = Retired) -> object_step rt rt'.
Proof. intros. split_and!; [done|done|]. right. by exists ptr, p, p'. Qed.

Lemma runtime_step_object rt event :
  is_object_event event = true -> object_step rt (runtime_step rt event).
Proof.
  destruct event as [env request|killed id|now ptr|now ptr data|ptr|now code ptr|ptr|ptr];
    intros Hev; try discriminate Hev; clear Hev; simpl.
  - unfold stop_kill. destruct (get_running rt id) as [[ptr p]|] eqn:Hg; [|by apply object_step_same].
    apply get_running_spec in Hg as (_ & Hp & _).
    by apply (object_step_put rt ptr p (set_stopping p)).
  - unfold stop_mark. destruct (rt_heap rt !! ptr) as [p|] eqn:Hp; [|by apply object_step_same].
    apply (object_step_put rt ptr p (set_info p (mark_stopped now (hp_info p)))); try done.
    unfold monitored. simpl. destruct (hp_monitor p); naive_solver.
  - unfold reader_push. destruct (rt_heap rt !! ptr) as [p|] eqn:Hp; [|by apply object_step_same].
    case_match; [by apply object_step_same|].
    pose proof (push_epoch (hp_output p) (hpi_process_id (hp_info p)) data now) as Hep.
    destruct (buffer_push _ _ _ _) as [chunk output]. simpl in Hep.
    eapply (object_step_put rt ptr p); try done. unfold mirrors. simpl. rewrite Hep. naive_solver.
  - unfold reader_publish. destruct (rt_heap rt !! ptr) as [p|] eqn:Hp; [|by apply object_step_same].
    destruct (hp_pending p) as [o|] eqn:Ho; [|by apply object_step_same].
    eapply (object_step_put rt ptr p); try done. unfold mirrors. simpl. by rewrite Ho.
  - unfold monitor_exit. destruct (rt_heap rt !! ptr) as [p|] eqn:Hp; [|by apply object_step_same].
    destruct (hp_monitor p) eqn:Hm; try by apply object_step_same.
    case_match; [|by apply object_step_same]. eapply (object_step_put rt ptr p); try done; by rewrite Hm.
  - unfold finish_release. destruct (rt_heap rt !! ptr) as [p|] eqn:Hp; [|by apply object_step_same].
    destruct (hp_monitor p) eqn:Hm; try by apply object_step_same.
    eapply (object_step_put rt ptr p); try done; [|by rewrite Hm].
    unfold monitored. rewrite Hm. simpl. naive_solver.
Qed.

Lemma object_step_ok rt rt' : object_step rt rt' -> runtime_ok rt -> runtime_ok rt'.
Proof.
  intros (Hpr & Hco & [Hh|(ptr & p & p' & Hp & Hh & Hid & Hmon & Hmir & Hret)]) Hok.
  - by apply (runtime_ok_same rt).
  - apply (runtime_ok_same (put rt ptr p')); [done..|].
    apply (put_ok rt ptr p); auto; [apply Hmon|apply Hmir]; by eapply Hok.
Qed.

Lemma reclaim_ok rt id rt' :
  runtime_ok rt -> reclaim rt id = Ok rt' ->
  runtime_ok rt' /\ id ∉ rt_completed rt' /\ rt_heap rt' = rt_heap rt /\ rt_processes rt' = rt_processes rt.
Proof.
  intros Hok. unfold reclaim. destruct (rt_processes rt !! id) as [ptr|] eqn:Hid.
  - case_match; [done|]. intros [= <-]. simpl. split_and!; [|by intros [_ ?%negb_true_iff%String.eqb_neq]%filter_elem|done|done].
    destruct Hok as [H1 H2 H3 H4 H5 H6]. split; simpl; [done|done|done| | |].
    + intros x [Hx _]%filter_elem. by apply H4.
    + by apply NoDup_filterb.
    + etrans; [apply length_filterb|done].
  - intros [= <-]. split_and!; [done| |done|done]. intros Hc.
    destruct (rok_completed _ Hok _ Hc) as (p & Hp & _). unfold registered in Hp. by rewrite Hid in Hp.
Qed.

Lemma spawn_ok env request rt : runtime_ok rt -> runtime_ok (runtime_spawn env request rt).2.
Proof.
  intros Hok. unfold runtime_spawn. case_match; [done|].
  destruct (reclaim rt _) as [rt1|] eqn:Hr; [|done].
  destruct (reclaim_ok _ _ _ Hok Hr) as (Hok1 & Hni & _ & _).
  destruct (result_bind _ _) as [[cwd pid]|]; [|done]. simpl. apply send_process_ok.
  destruct Hok1 as [H1 H2 H3 H4 H5 H6].
  assert (forall q p, (rt_heap rt1 ++ [new_process rt1 env request cwd pid]) !! q = Some p ->
    rt_heap rt1 !! q = Some p \/ p = new_process rt1 env request cwd pid) as Hnew.
  { intros q p. rewrite lookup_app_Some. intros [?|[_ Hp]]; [by left|right].
    by apply list_lookup_singleton_Some in Hp as [_ <-]. }
  split; simpl; [| | | |done|done].
  - intros id ptr. destruct (decide (hsr_process_id request = id)) as [<-|Hne].
    + rewrite lookup_insert_eq. intros [= <-]. exists (new_process rt1 env request cwd pid).
      by rewrite lookup_app_r, Nat.sub_diag by done.
    + rewrite lookup_insert_ne by done. intros (p & Hp & ?)%H1. exists p.
      by rewrite lookup_app_l by by eapply lookup_lt_Some.
  - intros ptr p [Hp| ->]%Hnew; [by eapply H2|done].
  - intros ptr p [Hp| ->]%Hnew; [by eapply H3|done].
  - intros id Hid. destruct (H4 id Hid) as (p & Hp & Hc). exists p. split; [|done].
    unfold registered in *; simpl. rewrite lookup_insert_ne by congruence.
    destruct (rt_processes rt1 !! id) as [q|]; [|done]. simpl in *.
    by rewrite lookup_app_l by by eapply lookup_lt_Some.
Qed.

(** Pushing on the bounded queue keeps it bounded and evicts its oldest entry. *)
Lemma push_bounded_spec completed id limit :
  (0 < limit)%nat -> (length completed <= limit)%nat ->
  let '(evicted, completed') := push_bounded completed id limit in
  (length completed' <= limit)%nat /\
  match evicted with
  | Some e => completed ++ [id] = e :: completed' /\ e ∈ completed
  | None => completed' = completed ++ [id]
  end.
Proof.
  intros Hlim Hlen. unfold push_bounded. destruct (Nat.ltb_spec limit (length (completed ++ [id]))) as [Hl|Hl].
  - destruct completed as [|e completed]; simpl in *; [lia|]. rewrite length_app in *. simpl in *.
    split; [lia|]. split; [done|left].
  - split; [lia|done].
Qed.

Lemma retire_ok ptr rt : runtime_ok rt -> runtime_ok (finish_retire ptr rt).
Proof.
  intros Hok. unfold finish_retire. destruct (rt_heap rt !! ptr) as [p|] eqn:Hp; [|done].
  destruct (hp_monitor p) eqn:Hm; try done.
  set (p' := set_monitor p Retired). pose proof Hok as [_ H2 H3 H4 _ _].
  assert (runtime_ok (put rt ptr p')) as Hok'.
  { eapply put_ok; [done|done|done| |exact (H3 ptr p Hp)|done].
    specialize (H2 ptr p Hp). unfold monitored in *. by rewrite Hm in H2. }
  set (id := hpi_process_id (hp_info p)). simpl rt_processes. case_bool_decide as Hid; [|done].
  assert (id ∉ rt_completed rt) as Hni.
  { intros (q & Hq & Hqr)%H4. unfold registered in Hq. rewrite Hid in Hq. simpl in Hq. congruence. }
  pose proof (push_bounded_spec (rt_completed rt) id COMPLETED_PROCESS_LIMIT
    ltac:(unfold COMPLETED_PROCESS_LIMIT; lia) (rok_completed_bounded _ Hok)) as Hpb.
  simpl rt_completed. destruct (push_bounded _ _ _) as [evicted completed]. destruct Hpb as [Hlen Hev].
  destruct Hok' as [R1 R2 R3 R4 R5 R6]. simpl in R1, R5.
  assert (NoDup (rt_completed rt ++ [id])) as Hnd.
  { apply NoDup_app. split_and!; [done| |apply NoDup_singleton].
    intros x Hx ->%list_elem_of_singleton. done. }
  assert (forall x, x ∈ rt_completed rt ++ [id] ->
    exists q, registered (put rt ptr p') x = Some q /\ hp_monitor q = Retired) as Hreg.
  { intros x [Hx| ->%list_elem_of_singleton]%elem_of_app; [by apply R4|].
    exists p'. rewrite (registered_put rt ptr p) by done. by rewrite bool_decide_true. }
  destruct evicted as [e|].
  - destruct Hev as [Heq _]. rewrite Heq in Hnd, Hreg. apply NoDup_cons in Hnd as [He Hnd].
    split; simpl; [|exact R2|exact R3| |done|done].
    + intros x q [_ Hq]%lookup_delete_Some. by apply R1.
    + intros x Hx. destruct (Hreg x) as (q & Hq & Hqc); [by right|]. exists q. split; [|done].
      unfold registered in *; simpl in *. rewrite lookup_delete_ne by congruence. done.
  - subst completed. split; simpl; [done|exact R2|exact R3|done|done|done].
Qed.

Lemma runtime_step_ok rt event : runtime_ok rt -> runtime_ok (runtime_step rt event).
Proof.
  intros Hok. destruct (is_object_event event) eqn:He.
  - by apply (object_step_ok rt), Hok; apply runtime_step_object.
  - destruct event; try discriminate He; simpl; [by apply spawn_ok|by apply retire_ok].
Qed.

Lemma runtime_new_ok root : runtime_ok (runtime_new root).
Proof. split; unfold registered; simpl; try set_solver; [constructor|unfold COMPLETED_PROCESS_LIMIT; lia]. Qed.

(** What the registry part of a clean-up may change. *)
Lemma retire_spec rt ptr :
  runtime_ok rt ->
  rt_processes (finish_retire ptr rt) = rt_processes rt /\
    rt_completed (finish_retire ptr rt) = rt_completed rt \/
  exists p, rt_heap rt !! ptr = Some p /\ hp_monitor p = Released /\
    rt_processes rt !! hpi_process_id (hp_info p) = Some ptr /\
    (forall id, id ∉ rt_completed rt ->
       rt_processes (finish_retire ptr rt) !! id = rt_processes rt !! id) /\
    (forall id, id ∈ rt_completed (finish_retire ptr rt) ->
       id ∈ rt_completed rt \/ id = hpi_process_id (hp_info p)).
Proof.
  intros Hok. unfold finish_retire. destruct (rt_heap rt !! ptr) as [p|] eqn:Hp; [|by left].
  destruct (hp_monitor p) eqn:Hm; try by left. case_bool_decide as Hb; [|by left]. simpl in Hb.
  right. exists p. simpl rt_completed.
  pose proof (push_bounded_spec (rt_completed rt) (hpi_process_id (hp_info p)) COMPLETED_PROCESS_LIMIT
    ltac:(unfold COMPLETED_PROCESS_LIMIT; lia) (rok_completed_bounded _ Hok)) as Hpb.
  destruct (push_bounded _ _ _) as [evicted completed]. destruct Hpb as [_ Hpb]. split_and!; [done..| |].
  - intros id Hid. destruct evicted as [e|]; [|done]. destruct Hpb as [_ He]. simpl.
    rewrite lookup_delete_ne; [done|congruence].
  - intros id Hid. simpl in Hid.
    assert (id ∈ rt_completed rt ++ [hpi_process_id (hp_info p)]) as Hin.
    { destruct evicted as [e|]; [destruct Hpb as [-> _]; by right|by subst]. }
    apply elem_of_app in Hin as [?|?%list_elem_of_singleton]; auto.
Qed.

Lemma spawn_heap env request rt :
  exists l, rt_heap (runtime_spawn env request rt).2 = rt_heap rt ++ l.
Proof.
  unfold runtime_spawn. case_match; [by exists []; rewrite app_nil_r|].
  destruct (reclaim rt _) as [rt1|] eqn:Hr; [|by exists []; rewrite app_nil_r].
  assert (rt_heap rt1 = rt_heap rt) as Hh by (unfold reclaim in Hr; repeat case_match; by simplify_eq/=).
  destruct (result_bind _ _) as [[cwd pid]|]; simpl; rewrite Hh; [by eexists|].
  by exists []; rewrite app_nil_r.
Qed.

(** A spawn leaves other IDs alone, and its own while its process is running. *)
Lemma spawn_registry env request rt :
  (forall id, id <> hsr_process_id request ->
     rt_processes (runtime_spawn env request rt).2 !! id = rt_processes rt !! id) /\
  (forall id, id ∈ rt_completed (runtime_spawn env request rt).2 -> id ∈ rt_completed rt) /\
  (forall ptr, rt_processes rt !! hsr_process_id request = Some ptr -> is_running rt ptr = true ->
     (runtime_spawn env request rt).2 = rt).
Proof.
  unfold runtime_spawn. case_match; [by split_and!|].
  destruct (reclaim rt _) as [rt1|] eqn:Hr; [|by split_and!].
  assert (rt_processes rt1 = rt_processes rt /\ forall id, id ∈ rt_completed rt1 -> id ∈ rt_completed rt)
    as [Hpr Hco].
  { unfold reclaim in Hr. repeat case_match; simplify_eq/=; (split; [done|]); [|done].
    by intros id [? _]%filter_elem. }
  assert (forall ptr, rt_processes rt !! hsr_process_id request = Some ptr -> is_running rt ptr = true ->
    False) as Hrun.
  { intros ptr Hptr Hrun. unfold reclaim in Hr. rewrite Hptr in Hr. unfold is_running in Hrun.
    by rewrite Hrun in Hr. }
  destruct (result_bind _ _) as [[cwd pid]|]; simpl; rewrite Hpr; split_and!; try done;
    try (by intros ptr Hptr Hr'; destruct (Hrun ptr)).
  intros id Hne. by rewrite lookup_insert_ne.
Qed.

(** A step keeps the entry of an ID that is not on the completed queue, unless it spawns it. *)
Lemma registry_kept rt event id ptr :
  runtime_ok rt -> rt_processes rt !! id = Some ptr -> id ∉ rt_completed rt ->
  (forall env request, event = EvSpawn env request -> hsr_process_id request = id ->
     is_running rt ptr = true) ->
  rt_processes (runtime_step rt event) !! id = Some ptr.
Proof.
  intros Hok Hid Hni Hsp. destruct (is_object_event event) eqn:He.
  { destruct (runtime_step_object rt event He) as (-> & _). done. }
  destruct event as [env request| | | | | | |q]; try discriminate He; simpl.
  - destruct (spawn_registry env request rt) as (Hother & _ & Hsame).
    destruct (decide (id = hsr_process_id request)) as [->|Hne]; [|by rewrite Hother].
    by rewrite (Hsame ptr) by (done || by eapply Hsp).
  - destruct (retire_spec rt q Hok) as [[-> _]|(p & _ & _ & _ & -> & _)]; done.
Qed.

(** C22: the registry is consistent whatever the threads do.  Over any interleaving of the
    critical sections of spawns, stops, output readers and exit monitors: every registered ID
    names its own process object; a process whose exit was recorded is not running and loses its
    child at the release; every process record agrees with its output buffer, up to the chunk
    its reader is about to publish; the completed queue has at most 256 distinct entries, each a
    registered process that is cleaned up; and a step never drops or replaces the entry of a
    running process. *)
Theorem registry_is_consistent root events event id ptr :
  let rt := foldl runtime_step (runtime_new root) events in
  runtime_ok rt /\
  (rt_processes rt !! id = Some ptr -> is_running rt ptr = true ->
   rt_processes (runtime_step rt event) !! id = Some ptr).
Proof.
  intros rt. assert (runtime_ok rt) as Hok.
  { subst rt. generalize (runtime_new_ok root). generalize (runtime_new root).
    induction events as [|e events IH]; intros rt Hrt; simpl; [done|]. by apply IH, runtime_step_ok. }
  split; [done|]. intros Hid Hrun. apply registry_kept; [done|done| |done].
  intros (p & Hp & Hr)%(rok_completed _ Hok). unfold registered in Hp. rewrite Hid in Hp. simpl in Hp.
  unfold is_running in Hrun. rewrite Hp in Hrun. simpl in Hrun.
  pose proof (rok_monitored _ Hok ptr p Hp) as Hm. unfold monitored in Hm. rewrite Hr in Hm.
  destruct Hm; congruence.
Qed.

(** A cleaned-up object stays one. *)
Lemma retired_kept rt event ptr p :
  rt_heap rt !! ptr = Some p -> hp_monitor p = Retired ->
  exists p', rt_heap (runtime_step rt event) !! ptr = Some p' /\ hp_monitor p' = Retired.
Proof.
  intros Hp Hr. destruct (is_object_event event) eqn:He.
  { destruct (runtime_step_object rt event He) as (_ & _ & [->|(q & pq & pq' & Hq & -> & _ & _ & _ & Hk)]);
      [by eauto|]. destruct (decide (q = ptr)) as [->|Hne].
    - exists pq'. rewrite list_lookup_insert_eq by by eapply lookup_lt_Some. split; [done|].
      apply Hk. congruence.
    - exists p. by rewrite list_lookup_insert_ne. }
  destruct event as [env request| | | | | | |q]; try discriminate He; simpl.
  - destruct (spawn_heap env request rt) as [l ->]. exists p. split; [|done]. by apply lookup_app_l_Some.
  - unfold finish_retire. destruct (rt_heap rt !! q) as [pq|] eqn:Hq; [|by eauto].
    destruct (hp_monitor pq) eqn:Hm; try by eauto.
    assert (q <> ptr) by congruence.
    case_bool_decide; [destruct (push_bounded _ _ _)|]; simpl; exists p;
      by rewrite list_lookup_insert_ne.
Qed.

(** An ID enters the completed queue only when its current process is cleaned up. *)
Lemma completed_enters rt event id :
  runtime_ok rt -> id ∈ rt_completed (runtime_step rt event) ->
  id ∈ rt_completed rt \/
  exists ptr p, rt_processes rt !! id = Some ptr /\ rt_heap rt !! ptr = Some p /\
    hp_monitor p = Released.
Proof.
  intros Hok. destruct (is_object_event event) eqn:He.
  { destruct (runtime_step_object rt event He) as (_ & -> & _). by left. }
  destruct event as [env request| | | | | | |q]; try discriminate He; simpl.
  - intros Hin. left. by eapply spawn_registry.
  - destruct (retire_spec rt q Hok) as [[_ ->]|(p & Hp & Hm & Hreg & _ & Hin)]; [by left|].
    intros [?| ->]%Hin; [by left|right]. by exists q, p.
Qed.

(** A failed restart leaves a record that is never reclaimed.  When a completed process's ID
    is spawned again and the new process cannot be started (a bad working directory, a PTY or
    exec failure), the ID has left the completed queue but the old record stays registered; no
    later exit or clean-up of any process, in any order, evicts it, until that ID is spawned
    again. *)
Theorem failed_restart_leaks rt env request e rt' events ptr :
  runtime_ok rt -> hsr_process_id request ∈ rt_completed rt ->
  rt_processes rt !! hsr_process_id request = Some ptr ->
  runtime_spawn env request rt = (Err e, rt') ->
  is_empty (trim (hsr_process_id request)) || is_empty (trim (hsr_command request)) = false ->
  Forall (fun event => forall env' request', event = EvSpawn env' request' ->
    hsr_process_id request' <> hsr_process_id request) events ->
  let rt'' := foldl runtime_step rt' events in
  rt_processes rt'' !! hsr_process_id request = Some ptr /\
  hsr_process_id request ∉ rt_completed rt''.
Proof.
  intros Hok Hin Hptr Hsp Hvalid Hevents. set (id := hsr_process_id request) in *.
  assert (runtime_ok rt' /\ rt_processes rt' !! id = Some ptr /\ id ∉ rt_completed rt' /\
    (exists p, rt_heap rt' !! ptr = Some p /\ hp_monitor p = Retired)) as Hstart.
  { pose proof (spawn_ok env request rt Hok) as Hok'. rewrite Hsp in Hok'. simpl in Hok'.
    unfold runtime_spawn in Hsp. fold id in Hsp. rewrite Hvalid in Hsp.
    destruct (rok_completed _ Hok id Hin) as (p & Hp & Hr).
    unfold registered in Hp. rewrite Hptr in Hp. simpl in Hp.
    destruct (reclaim rt id) as [rt1|] eqn:Hrec.
    - destruct (reclaim_ok _ _ _ Hok Hrec) as (_ & Hni & Hh & Hpr).
      destruct (result_bind _ _) as [[cwd pid]|]; simplify_eq. rewrite Hpr, Hh. eauto 10.
    - exfalso. unfold reclaim in Hrec. rewrite Hptr, Hp in Hrec. simpl in Hrec.
      pose proof (rok_monitored _ Hok ptr p Hp) as Hm. unfold monitored in Hm. rewrite Hr in Hm.
      destruct Hm as [_ Hm]. by rewrite Hm in Hrec. }
  clear Hsp Hok Hin Hptr. revert rt' Hstart.
  induction Hevents as [|event events Hevent _ IH]; intros rt' (Hok & Hptr & Hni & p & Hp & Hr); [done|].
  simpl. apply IH. split_and!.
  - by apply runtime_step_ok.
  - apply registry_kept; [done|done|done|].
    intros env' request' -> He. by specialize (Hevent env' request' eq_refl).
  - intros [?|(q & pq & Hq & Hpq & Hqr)]%completed_enters; [done| |done]. simplify_eq. congruence.
  - by eapply retired_kept.
Qed.

Lemma failed_restart_leaks_witness :
  let rt' := (runtime_spawn sample_spawn_env (sample_spawn_request "missing") sample_runtime).2 in
  let rt'' := foldl runtime_step rt' [EvRetire 0; EvExit 1003 None 0] in
  rt_processes rt'' !! "p1" = Some 0%nat /\ "p1" ∉ rt_completed rt''.
Proof.
  apply (failed_restart_leaks sample_runtime sample_spawn_env (sample_spawn_request "missing")
    (InvalidCwd "No such file or directory") _ [EvRetire 0; EvExit 1003 None 0] 0).
  - repeat (apply runtime_step_ok). apply runtime_new_ok.
  - vm_compute. left.
  - vm_compute. reflexivity.
  - vm_compute. reflexivity.
  - vm_compute. reflexivity.
  - repeat constructor; intros env' request' [=].
Defined.
