(* ===== verification/HostDaemon.v ===== *)
(** * The Host daemon (crates/treer-agent-host/src/main.rs)

    The result cache that makes operations idempotent, request execution, the synchronisation
    of a Controller with the running processes, one connection's message flow, and framing. *)

From S2P Require Import Prelude RustStr Protocol HostProtocol OutputBuffer HostRuntime.
Local Open Scope Z_scope.

Definition RESULT_CACHE_LIMIT : nat := 1024%nat.

(** ** The result cache *)

Record ResultCache : Type := mkResultCache {
  rc_values : gmap string (Result HostResponse HostError);
  rc_order : list string
}.

Definition cache_new : ResultCache := mkResultCache ∅ [].

(** [while self.order.len() >= RESULT_CACHE_LIMIT]: each turn pops one entry. *)
Fixpoint cache_trim (values : gmap string (Result HostResponse HostError)) (order : list string)
    : gmap string (Result HostResponse HostError) * list string :=
  if Nat.leb RESULT_CACHE_LIMIT (length order) then
    match order with
    | oldest :: rest => cache_trim (delete oldest values) rest
    | [] => (values, [])
    end
  else (values, order).

(** [ResultCache::insert] *)
Definition cache_insert (cache : ResultCache) (operation_id : string)
    (response : Result HostResponse HostError) : ResultCache :=
  match rc_values cache !! operation_id with
  | Some _ => cache
  | None =>
      let '(values, order) := cache_trim (rc_values cache) (rc_order cache) in
      mkResultCache (<[operation_id := response]> values) (order ++ [operation_id])
  end.

(** ** Requests *)

(** [hs_restarts] counts the restarts sent to the supervisor. *)
Record HostState : Type := mkHostState {
  hs_runtime : HostRuntime;
  hs_results : ResultCache;
  hs_restarts : nat
}.

(** The operating system's answers to one request. *)
Record ExecEnv : Type := mkExecEnv {
  ee_spawn : SpawnEnv;
  ee_written : list (Result unit string);
  ee_resized : Z -> Z -> Result unit string;
  ee_now : Z;
  ee_killed : Result unit string;
  ee_supervised : bool
}.

Definition host_runtime_error (e : RuntimeError) : HostError :=
  mkHostError (runtime_error_code e) (runtime_error_message e).

Definition with_runtime (st : HostState) (rt : HostRuntime) : HostState :=
  mkHostState rt (hs_results st) (hs_restarts st).

(** The [match] of [execute_request].  The branch of a [Sync] is [unreachable!] in the code: the
    connection answers it before ([on_request]), so its value here is never used. *)
Definition run_command (env : ExecEnv) (command : HostCommand) (st : HostState)
    : Result HostResponse HostError * HostState :=
  let rt := hs_runtime st in
  match command with
  | CmdSync _ => (Ok RespAck, st)
  | CmdSpawn request =>
      let '(r, rt') := runtime_spawn (ee_spawn env) request rt in
      (let? process := map_err host_runtime_error r in Ok (RespProcess process),
       with_runtime st rt')
  | CmdRead process_id cursor =>
      (let? replay := map_err host_runtime_error (runtime_read rt process_id cursor) in
       Ok (RespOutput replay), st)
  | CmdWrite process_id writes =>
      (let? process := map_err host_runtime_error
                         (runtime_write rt process_id writes (ee_written env)) in
       Ok (RespProcess process), st)
  | CmdResize process_id cols rows =>
      (let? process := map_err host_runtime_error
                         (runtime_resize rt process_id cols rows (ee_resized env)) in
       Ok (RespProcess process), st)
  | CmdStop process_id =>
      let '(r, rt') := runtime_stop (ee_now env) (ee_killed env) process_id rt in
      (let? process := map_err host_runtime_error r in Ok (RespProcess process),
       with_runtime st rt')
  | CmdRestartController =>
      if ee_supervised env
      then (Ok RespAck, mkHostState rt (hs_results st) (S (hs_restarts st)))
      else (Err (mkHostError "supervisor_stopped" "controller supervisor stopped"), st)
  end.

Definition remember (request : HostRequest) (response : Result HostResponse HostError)
    (st : HostState) : HostState :=
  match hr_operation_id request with
  | Some operation_id =>
      mkHostState (hs_runtime st) (cache_insert (hs_results st) operation_id response)
        (hs_restarts st)
  | None => st
  end.

(** [execute_request], under the operation gate when the command is mutating. *)
Definition execute_request (env : ExecEnv) (request : HostRequest) (st : HostState)
    : Result HostResponse HostError * HostState :=
  let run :=
    let '(response, st') := run_command env (hr_command request) st in
    (response, remember request response st') in
  if is_mutating (hr_command request) then
    match hr_operation_id request with
    | None => (Err (mkHostError "operation_id_required" "mutating commands need operation_id"), st)
    | Some operation_id =>
        match rc_values (hs_results st) !! operation_id with
        | Some response => (response, st)
        | None => run
        end
    end
  else run.

(** ** Synchronisation *)

(** [sync_runtime] *)
Definition sync_runtime (host_epoch : string) (build : HostBuildInfo) (rt : HostRuntime)
    (cursors : gmap string OutputCursor) : Result HostResponse RuntimeError :=
  let processes := runtime_list rt in
  let? replay :=
    try_collect (fun p => runtime_read rt (hpi_process_id p) (cursors !! hpi_process_id p)) processes in
  Ok (RespSynced host_epoch build processes replay).

(** The cursors after which live output is new: the end of each replay. *)
Definition live_cursors (replay : list HostOutputReplay) : gmap string OutputCursor :=
  foldl (fun m r => <[or_process_id r :=
           mkOutputCursor (or_stream_epoch r) (saturating_sub (or_next_revision r) 1)]> m) ∅ replay.

(** ** One connection *)

Record Connection : Type := mkConnection {
  cn_synced : bool;
  cn_live_after : gmap string OutputCursor;
  cn_outgoing : list HostMessage
}.

Definition connection_new : Connection := mkConnection false ∅ [].

Definition send (cn : Connection) (message : HostMessage) : Connection :=
  mkConnection (cn_synced cn) (cn_live_after cn) (cn_outgoing cn ++ [message]).

Definition response_message (request_id : string) (result : Result HostResponse HostError)
    : HostMessage :=
  match result with
  | Ok response => MsgResponse request_id (Some response) None
  | Err error => MsgResponse request_id None (Some error)
  end.

(** What the [select!] of [handle_connection] may receive. *)
Inductive ConnectionInput : Type :=
| InRequest (env : ExecEnv) (request : HostRequest)
| InOutput (chunk : HostOutputChunk)
| InProcess (process : HostProcessInfo)
| InLagged
| InClosed.

(** How the connection goes on. *)
Inductive Flow : Type :=
| Continue
| Break
| Bail (error : string).

Definition should_send (live_after : gmap string OutputCursor) (chunk : HostOutputChunk) : bool :=
  is_none_or (live_after !! oc_process_id chunk) (fun cursor =>
    negb (cur_stream_epoch cursor =s oc_stream_epoch chunk)
    || (cur_revision cursor <? oc_revision chunk)).

(** The branch of a received output chunk. *)
Definition on_output (cn : Connection) (chunk : HostOutputChunk) : Connection :=
  if should_send (cn_live_after cn) chunk then
    mkConnection (cn_synced cn)
      (<[oc_process_id chunk := mkOutputCursor (oc_stream_epoch chunk) (oc_revision chunk)]>
         (cn_live_after cn))
      (cn_outgoing cn ++ [MsgOutput chunk])
  else cn.

Section connection.
Context (host_epoch : string) (build : HostBuildInfo).

(** The branch of a received request. *)
Definition on_request (env : ExecEnv) (request : HostRequest) (cn : Connection) (st : HostState)
    : Flow * Connection * HostState :=
  if negb (hr_protocol request =? HOST_PROTOCOL_VERSION) then
    (Bail "host protocol mismatch",
     send cn (response_message (hr_request_id request)
                (Err (mkHostError "protocol_mismatch" "host protocol is 2"))), st)
  else
    match hr_command request with
    | CmdSync cursors =>
        match sync_runtime host_epoch build (hs_runtime st) cursors with
        | Err e => (Bail (runtime_error_message e), cn, st)
        | Ok response =>
            let live_after :=
              match response with
              | RespSynced _ _ _ replay => live_cursors replay
              | _ => cn_live_after cn
              end in
            (Continue,
             send (mkConnection true live_after (cn_outgoing cn))
               (response_message (hr_request_id request) (Ok response)), st)
        end
    | _ =>
        let '(result, st') := execute_request env request st in
        (Continue, send cn (response_message (hr_request_id request) result), st')
    end.

(** One turn of the loop; the event branches are polled only once synced. *)
Definition connection_step (input : ConnectionInput) (cn : Connection) (st : HostState)
    : Flow * Connection * HostState :=
  match input with
  | InRequest env request => on_request env request cn st
  | InOutput chunk => (Continue, if cn_synced cn then on_output cn chunk else cn, st)
  | InProcess process => (Continue, if cn_synced cn then send cn (MsgProcess process) else cn, st)
  | InLagged => (if cn_synced cn then Bail "host subscriber lagged" else Continue, cn, st)
  | InClosed => (if cn_synced cn then Break else Continue, cn, st)
  end.
End connection.

(** ** Frames *)

(** [write_u32]: four bytes, most significant first. *)
Definition u32_bytes (n : Z) : bytes :=
  [(n / 2 ^ 24) mod 256; (n / 2 ^ 16) mod 256; (n / 2 ^ 8) mod 256; n mod 256].
Definition u32_of_bytes (a b c d : Z) : Z := a * 2 ^ 24 + b * 2 ^ 16 + c * 2 ^ 8 + d.

Section frames.
Context {T : Type}
  (encode_to_vec : T -> Result bytes string)
  (decode_from_slice : bytes -> Result (T * nat) string).

(** [write_frame]: the bytes put on the stream. *)
Definition write_frame (value : T) : Result bytes string :=
  let? encoded := encode_message encode_to_vec value in
  if MAX_HOST_FRAME_BYTES <? blen encoded then Err "host frame exceeds 16777216 bytes"
  else if u32_max <? blen encoded then Err "host frame length exceeds u32"
  else Ok (u32_bytes (blen encoded) ++ encoded).

(** [read_frame] on the bytes of a closed stream: the value and what is left; the stream's end
    inside the length is the end of the connection. *)
Definition read_frame (stream : bytes) : Result (option T * bytes) string :=
  match stream with
  | a :: b :: c :: d :: rest =>
      let length := u32_of_bytes a b c d in
      if MAX_HOST_FRAME_BYTES <? length then Err "host frame exceeds 16777216 bytes"
      else if blen rest <? length then Err "early eof"
      else
        let? value := decode_message decode_from_slice (take (Z.to_nat length) rest) in
        Ok (Some value, drop (Z.to_nat length) rest)
  | _ => Ok (None, [])
  end.

(** Reading frames until the stream ends; a frame takes at least four bytes. *)
Fixpoint read_frames (fuel : nat) (stream : bytes) : Result (list T) string :=
  match fuel with
  | O => Err "out of fuel"
  | S fuel' =>
      let? frame := read_frame stream in
      match frame with
      | (None, _) => Ok []
      | (Some value, rest) =>
          let? values := read_frames fuel' rest in Ok (value :: values)
      end
  end.
End frames.

(** ** Invariants and helpers of the theorems *)

Record cache_ok (cache : ResultCache) : Prop := {
  cok_unique : NoDup (rc_order cache);
  cok_values : forall op, op ∈ rc_order cache <-> is_Some (rc_values cache !! op);
  cok_bounded : (length (rc_order cache) <= RESULT_CACHE_LIMIT)%nat
}.

(** A sequence of requests, each with its environment. *)
Definition execute_all (st : HostState) (requests : list (ExecEnv * HostRequest)) : HostState :=
  foldl (fun st '(env, request) => (execute_request env request st).2) st requests.

(** The output a connection sends for one process, in order. *)
Definition sent_output (process_id : string) (outgoing : list HostMessage) : list HostOutputChunk :=
  omap (fun m => match m with
                 | MsgOutput chunk => if oc_process_id chunk =s process_id then Some chunk else None
                 | _ => None
                 end) outgoing.

Definition of_process (process_id : string) (chunks : list HostOutputChunk) : list HostOutputChunk :=
  List.filter (fun c => oc_process_id c =s process_id) chunks.

Definition sample_env : ExecEnv :=
  mkExecEnv sample_spawn_env [Ok tt] (fun _ _ => Ok tt) 2000 (Ok tt) true.
Definition sample_host : HostState := mkHostState (runtime_new ["srv"]) cache_new 0.
Definition sample_stop : HostRequest := mkHostRequest 2 "req_2" (Some "op_2") (CmdStop "p1").
Definition sample_start : HostRequest :=
  mkHostRequest 2 "req_1" (Some "op_1") (CmdSpawn (sample_spawn_request "")).

(** ** Lemmas: the result cache *)

Lemma limit_positive : (0 < RESULT_CACHE_LIMIT)%nat.
Proof. unfold RESULT_CACHE_LIMIT. lia. Qed.

#[local] Opaque RESULT_CACHE_LIMIT.

(** A bounded cache gives up at most its oldest entry. *)
Lemma cache_trim_bounded values order :
  (length order <= RESULT_CACHE_LIMIT)%nat ->
  cache_trim values order = (values, order) /\ (length order < RESULT_CACHE_LIMIT)%nat \/
  exists oldest rest, order = oldest :: rest /\ length order = RESULT_CACHE_LIMIT /\
    cache_trim values order = (delete oldest values, rest).
Proof.
  intros Hlen. destruct order as [|oldest rest].
  - left. pose proof limit_positive. split; [|done]. cbn [cache_trim length].
    destruct (Nat.leb_spec RESULT_CACHE_LIMIT 0); [lia|done].
  - cbn [cache_trim]. destruct (Nat.leb_spec RESULT_CACHE_LIMIT (length (oldest :: rest))) as [Hl|Hl].
    + right. exists oldest, rest. split_and!; [done|lia|]. destruct rest as [|x rest]; cbn [cache_trim].
      * pose proof limit_positive. destruct (Nat.leb_spec RESULT_CACHE_LIMIT (length (@nil string))); simpl in *; [lia|done].
      * destruct (Nat.leb_spec RESULT_CACHE_LIMIT (length (x :: rest))); [simpl in *; lia|done].
    + left. done.
Qed.

Lemma cache_insert_ok cache op r : cache_ok cache -> cache_ok (cache_insert cache op r).
Proof.
  intros [Hu Hv Hb]. unfold cache_insert. destruct (rc_values cache !! op) eqn:Hop; [done|].
  assert (op ∉ rc_order cache) as Hni by (rewrite Hv, Hop; by intros [? ?]).
  destruct (cache_trim_bounded (rc_values cache) (rc_order cache) Hb)
    as [[-> Hlt]|(oldest & rest & Ho & Hfull & ->)].
  - split; simpl.
    + apply NoDup_app. split_and!; [done| |apply NoDup_singleton]. by intros x Hx ->%list_elem_of_singleton.
    + intros x. rewrite elem_of_app, list_elem_of_singleton, Hv.
      destruct (decide (op = x)) as [->|Hne]; [rewrite lookup_insert_eq; naive_solver|].
      rewrite lookup_insert_ne by done. naive_solver.
    + rewrite length_app. simpl. lia.
  - rewrite Ho in *. apply NoDup_cons in Hu as [Hold Hu]. apply not_elem_of_cons in Hni as [Hne Hni].
    split; simpl.
    + apply NoDup_app. split_and!; [done| |apply NoDup_singleton]. by intros x Hx ->%list_elem_of_singleton.
    + intros x. rewrite elem_of_app, list_elem_of_singleton.
      destruct (decide (op = x)) as [->|Hne']; [rewrite lookup_insert_eq; naive_solver|].
      rewrite lookup_insert_ne by done. specialize (Hv x). rewrite elem_of_cons in Hv.
      destruct (decide (oldest = x)) as [->|Hnx].
      * rewrite lookup_delete_eq. split; [naive_solver|by intros [? ?]].
      * rewrite lookup_delete_ne by done. naive_solver.
    + rewrite length_app. simpl in *. lia.
Qed.

(** The entry of [op] with at most [m] younger ones. *)
Definition kept (cache : ResultCache) (op : string) (r : Result HostResponse HostError) (m : nat) : Prop :=
  cache_ok cache /\ rc_values cache !! op = Some r /\
  exists pre post, rc_order cache = pre ++ op :: post /\ (length post <= m)%nat.

Lemma kept_insert cache op r m op' r' :
  (S m < RESULT_CACHE_LIMIT)%nat -> kept cache op r m -> kept (cache_insert cache op' r') op r (S m).
Proof.
  intros Hm (Hok & Hval & pre & post & Ho & Hlen). split; [by apply cache_insert_ok|].
  unfold cache_insert. destruct (rc_values cache !! op') eqn:Hop'.
  { split; [done|]. exists pre, post. split; [done|lia]. }
  assert (op' <> op) as Hne by congruence.
  destruct (cache_trim_bounded (rc_values cache) (rc_order cache) (cok_bounded _ Hok))
    as [[-> Hlt]|(oldest & rest & Hcons & Hfull & ->)]; simpl.
  - rewrite lookup_insert_ne by done. split; [done|]. exists pre, (post ++ [op']).
    rewrite length_app, Ho, <- (assoc_L (++)). simpl. split; [done|lia].
  - rewrite lookup_insert_ne by done. destruct pre as [|x pre].
    + exfalso. rewrite Ho in Hfull. simpl in Hfull. lia.
    + rewrite Ho in Hcons. simpl in Hcons. injection Hcons as <- <-.
      assert (x <> op) as Hx.
      { intros ->. pose proof (cok_unique _ Hok) as Hu. rewrite Ho in Hu. simpl in Hu.
        apply NoDup_cons in Hu as [Hu _]. apply Hu. set_solver. }
      rewrite lookup_delete_ne by done. split; [done|]. exists pre, (post ++ [op']).
      rewrite length_app, <- (assoc_L (++)). simpl. split; [done|lia].
Qed.

Lemma run_command_results env command st : hs_results (run_command env command st).2 = hs_results st.
Proof.
  destruct command; simpl; try done.
  - by destruct (runtime_spawn _ _ _).
  - by destruct (runtime_stop _ _ _ _).
  - by case_match.
Qed.

(** A request adds at most one entry to the cache. *)
Lemma execute_results env request st :
  hs_results (execute_request env request st).2 = hs_results st \/
  exists op r, hs_results (execute_request env request st).2 = cache_insert (hs_results st) op r.
Proof.
  assert (let '(response, st') := run_command env (hr_command request) st in
    hs_results (remember request response st') = hs_results st \/
    exists op r, hs_results (remember request response st') = cache_insert (hs_results st) op r) as Hrun.
  { pose proof (run_command_results env (hr_command request) st) as Hr.
    destruct (run_command _ _ _) as [response st']. simpl in Hr. unfold remember.
    destruct (hr_operation_id request); simpl; [right; rewrite Hr; eauto|by left]. }
  unfold execute_request. destruct (run_command _ _ _) as [response st'].
  destruct (is_mutating _); [|done]. destruct (hr_operation_id request) as [op|] eqn:Hop; [|by left].
  destruct (rc_values (hs_results st) !! op); [by left|done].
Qed.

Lemma execute_all_kept requests st op r m :
  (m + length requests < RESULT_CACHE_LIMIT)%nat -> kept (hs_results st) op r m ->
  kept (hs_results (execute_all st requests)) op r (m + length requests).
Proof.
  unfold execute_all. revert st m. induction requests as [|[env request] requests IH]; intros st m Hm Hk; simpl in *.
  { by rewrite Nat.add_0_r. }
  rewrite Nat.add_succ_r, <- Nat.add_succ_l. apply IH; [lia|].
  destruct (execute_results env request st) as [->|(op' & r' & ->)].
  - destruct Hk as (? & ? & pre & post & ? & ?). split_and!; [done|done|]. exists pre, post. split; [done|lia].
  - apply kept_insert; [lia|done].
Qed.

(** C9: a retried operation takes effect once.  A mutating request whose operation ID is new is
    executed; sending it again, after fewer than 1024 other requests of any kind, returns the
    very same response and changes nothing, neither the processes nor the cache. *)
Theorem operation_is_idempotent env request op response st st1 between env' :
  cache_ok (hs_results st) ->
  is_mutating (hr_command request) = true -> hr_operation_id request = Some op ->
  rc_values (hs_results st) !! op = None ->
  execute_request env request st = (response, st1) ->
  (length between < RESULT_CACHE_LIMIT)%nat ->
  execute_request env' request (execute_all st1 between) = (response, execute_all st1 between).
Proof.
  intros Hok Hmut Hop Hnew Hex Hlen.
  assert (kept (hs_results st1) op response 0) as Hk.
  { unfold execute_request in Hex. rewrite Hmut, Hop, Hnew in Hex.
    pose proof (run_command_results env (hr_command request) st) as Hr.
    destruct (run_command _ _ _) as [response' st']. simpl in Hr. unfold remember in Hex. rewrite Hop in Hex.
    injection Hex as <- <-. simpl. rewrite Hr. split; [by apply cache_insert_ok|].
    unfold cache_insert. rewrite Hnew. destruct (cache_trim _ _) as [values order]. simpl.
    rewrite lookup_insert_eq. split; [done|]. exists order, []. done. }
  apply (execute_all_kept between) in Hk; [|done]. destruct Hk as (_ & Hval & _).
  unfold execute_request at 1. by rewrite Hmut, Hop, Hval.
Qed.

Lemma operation_is_idempotent_witness :
  let st1 := (execute_request sample_env sample_start sample_host).2 in
  execute_request sample_env sample_start (execute_all st1 [(sample_env, sample_stop)])
  = ((execute_request sample_env sample_start sample_host).1, execute_all st1 [(sample_env, sample_stop)]).
Proof.
  apply (operation_is_idempotent sample_env sample_start "op_1" _ sample_host).
  - split; simpl; [apply NoDup_nil_2| |apply Nat.le_0_l].
    intros op. split; [by intros ?%elem_of_nil|by intros [? ?]].
  - reflexivity.
  - reflexivity.
  - reflexivity.
  - apply surjective_pairing.
  - vm_compute. repeat constructor.
Defined.

(** ** Lemmas: live output *)

Lemma sent_output_app process_id l1 l2 :
  sent_output process_id (l1 ++ l2) = sent_output process_id l1 ++ sent_output process_id l2.
Proof. apply omap_app. Qed.

(** The events of a stream that follow chunk [j] are sent from chunk [k] on. *)
Lemma live_output_sent events : forall cn process_id epoch reads j k,
  let all := stream_chunks epoch process_id [] 1 reads in
  of_process process_id events = drop j all -> (j <= k)%nat ->
  cn_live_after cn !! process_id = Some (mkOutputCursor epoch (Z.of_nat k)) ->
  sent_output process_id (cn_outgoing (foldl on_output cn events))
  = sent_output process_id (cn_outgoing cn) ++ drop k all.
Proof.
  induction events as [|c events IH]; intros cn process_id epoch reads j k all Hev Hjk Hlive; simpl in *.
  { assert (length all <= j)%nat by (apply (f_equal length) in Hev; rewrite length_drop in Hev; simpl in Hev; lia).
    rewrite drop_ge by lia. by rewrite app_nil_r. }
  unfold of_process in Hev. simpl in Hev. destruct (String.eqb_spec (oc_process_id c) process_id) as [Hpid|Hpid].
  - assert (all !! j = Some c) as Hj.
    { rewrite <- (Nat.add_0_r j), <- lookup_drop, <- Hev. done. }
    assert (List.filter (fun c => oc_process_id c =s process_id) events = drop (S j) all) as Hrest.
    { rewrite (drop_S all c j Hj) in Hev. by injection Hev. }
    destruct (stream_chunks_lookup _ _ _ _ _ _ _ Hj) as (_ & Hep & Hrev).
    unfold on_output at 2, should_send. rewrite Hpid, Hlive. simpl. rewrite Hep, String.eqb_refl, Hrev. simpl.
    destruct (Z.ltb_spec (Z.of_nat k) (1 + Z.of_nat j)) as [Hlt|Hge].
    + assert (j = k) as -> by lia.
      rewrite (IH _ process_id epoch reads (S k) (S k)); [|done|done|].
      * simpl. rewrite sent_output_app. simpl. rewrite Hpid, String.eqb_refl. simpl.
        rewrite <- (assoc_L (++)). simpl. fold all. by rewrite <- (drop_S all c k Hj).
      * simpl. rewrite lookup_insert_eq. do 2 f_equal. lia.
    + apply (IH cn process_id epoch reads (S j) k); [done|lia|done].
  - assert (cn_live_after (on_output cn c) !! process_id = cn_live_after cn !! process_id /\
      sent_output process_id (cn_outgoing (on_output cn c)) = sent_output process_id (cn_outgoing cn)) as [Hl Hs].
    { unfold on_output. case_match; [|done]. simpl. rewrite lookup_insert_ne by done. split; [done|].
      rewrite sent_output_app. simpl. apply String.eqb_neq in Hpid. rewrite Hpid. simpl. by rewrite app_nil_r. }
    rewrite (IH (on_output cn c) process_id epoch reads j k); [by rewrite Hs|done|done|by rewrite Hl].
Qed.

(** C21: a Controller that reconnects sees every chunk of a process once, in order.  Let a
    process have produced [k] reads when the Controller synchronises with a cursor at chunk [r]
    of the stream, and let the replay report no gap.  If afterwards the connection receives the
    broadcast chunks of the process from some chunk [j] no later than [k] on (it subscribed
    before synchronising, so some of them are already in the replay), mixed in any way with the
    output of other processes, then the replay followed by what the connection sends is exactly
    the stream after [r]: nothing is missing and nothing is repeated. *)
Theorem resynchronised_output_is_complete epoch process_id reads r j k cn events :
  Forall (fun read => blen read.1 <= READ_BUFFER) reads ->
  Z.of_nat (length reads) + 1 <= u64_max ->
  (r <= k)%nat -> (j <= k)%nat -> (k <= length reads)%nat ->
  let all := stream_chunks epoch process_id [] 1 reads in
  let b := push_all (buffer_new epoch) process_id (take k reads) in
  let replay := buffer_replay b process_id (Some (mkOutputCursor epoch (Z.of_nat r))) in
  or_gap replay = false ->
  cn_outgoing cn = [] ->
  cn_live_after cn !! process_id = live_cursors [replay] !! process_id ->
  of_process process_id events = drop j all ->
  or_chunks replay ++ sent_output process_id (cn_outgoing (foldl on_output cn events)) = drop r all.
Proof.
  intros Hreads Hlen Hrk Hjk Hk all b replay Hgap Hout Hlive Hev.
  destruct (reader_holds epoch process_id (take k reads)) as [Hep Hh].
  { by apply Forall_take. }
  { rewrite length_take. lia. }
  fold b in Hep, Hh. subst replay.
  assert (ob_next_revision b = Z.of_nat k + 1) as Hnext.
  { rewrite (bh_next _ _ _ Hh), stream_chunks_length, length_take. lia. }
  assert (or_chunks (buffer_replay b process_id (Some (mkOutputCursor epoch (Z.of_nat r))))
          = drop r (take k all)) as ->.
  { rewrite <- Hep in Hgap |- *. rewrite stream_chunks_take in Hh.
    apply (replay_no_gap b (take k all) _ process_id r Hh); [lia|done]. }
  rewrite (live_output_sent events cn process_id epoch reads j k Hev Hjk).
  - rewrite Hout. simpl. fold all. rewrite <- (take_drop k all) at 3. rewrite drop_app.
    f_equal. assert (length (take k all) = k) as Hl.
    { rewrite length_take. unfold all. rewrite stream_chunks_length. lia. }
    rewrite Hl. replace (r - k)%nat with 0%nat by lia. done.
  - rewrite Hlive. unfold live_cursors. simpl. rewrite lookup_insert_eq, Hep, Hnext.
    unfold saturating_sub. do 2 f_equal. lia.
Qed.

Lemma resynchronised_output_is_complete_witness :
  let reads := [([1], 0); ([2], 1); ([3], 2)] in
  let all := stream_chunks "s" "p" [] 1 reads in
  let replay := buffer_replay (push_all (buffer_new "s") "p" (take 2 reads)) "p"
                  (Some (mkOutputCursor "s" 1)) in
  or_chunks replay ++ sent_output "p" (cn_outgoing (foldl on_output
    (mkConnection true (live_cursors [replay]) []) (drop 1 all))) = drop 1 all.
Proof.
  apply (resynchronised_output_is_complete "s" "p" [([1], 0); ([2], 1); ([3], 2)] 1 1 2
    (mkConnection true (live_cursors [buffer_replay (push_all (buffer_new "s") "p"
       [([1], 0); ([2], 1)]) "p" (Some (mkOutputCursor "s" 1))]) [])
    (drop 1 (stream_chunks "s" "p" [] 1 [([1], 0); ([2], 1); ([3], 2)]))).
  - repeat (constructor; [vm_compute; intros [=]|]). constructor.
  - vm_compute. intros [=].
  - lia.
  - lia.
  - simpl. lia.
  - vm_compute. reflexivity.
  - reflexivity.
  - reflexivity.
  - vm_compute. reflexivity.
Defined.

(** ** Lemmas: frames *)

Lemma u32_roundtrip n : 0 <= n <= u32_max ->
  exists a b c d, u32_bytes n = [a; b; c; d] /\ u32_of_bytes a b c d = n.
Proof.
  intros Hn. unfold u32_bytes. do 4 eexists. split; [done|]. unfold u32_of_bytes, u32_max in *.
  Z.div_mod_to_equations. lia.
Qed.

Section frame_property.
Context {T : Type}
  (encode_to_vec : T -> Result bytes string)
  (decode_from_slice : bytes -> Result (T * nat) string).
(** bincode decodes what it encoded, consuming all of it. *)
Context (codec : forall v b, encode_to_vec v = Ok b -> decode_from_slice b = Ok (v, length b)).

Lemma read_written v frame rest :
  write_frame encode_to_vec v = Ok frame ->
  read_frame decode_from_slice (frame ++ rest) = Ok (Some v, rest).
Proof.
  unfold write_frame, encode_message. destruct (encode_to_vec v) as [b|] eqn:Hb; cbn [result_bind]; [|done].
  destruct (Z.ltb_spec MAX_HOST_FRAME_BYTES (blen b)) as [|Hmax]; [done|].
  destruct (Z.ltb_spec u32_max (blen b)) as [|Hu]; [done|]. intros Hframe.
  assert (frame = u32_bytes (blen b) ++ b) as -> by congruence. clear Hframe.
  destruct (u32_roundtrip (blen b)) as (x & y & z & w & Hbytes & Hval); [unfold blen in *; lia|].
  rewrite Hbytes. simpl. rewrite Hval.
  destruct (Z.ltb_spec MAX_HOST_FRAME_BYTES (blen b)); [lia|].
  destruct (Z.ltb_spec (blen (b ++ rest)) (blen b)) as [Hl|_].
  { unfold blen in Hl. rewrite length_app in Hl. lia. }
  unfold blen. rewrite Nat2Z.id, take_app_length, drop_app_length.
  unfold decode_message. rewrite (codec v b Hb). simpl. by rewrite Nat.eqb_refl.
Qed.

(** The frame stream is a faithful channel.  Whatever messages were accepted by
    [write_frame], reading the concatenation of their frames gives back exactly those messages
    in order and then the end of the stream: no frame is misparsed at another's boundary. *)
Theorem frames_roundtrip values frames :
  Forall2 (fun v frame => write_frame encode_to_vec v = Ok frame) values frames ->
  read_frames decode_from_slice (S (length values)) (concat frames) = Ok values.
Proof.
  induction 1 as [|v frame values frames Hf _ IH]; [done|].
  cbn [length read_frames concat]. rewrite (read_written v frame (concat frames) Hf). cbn [result_bind].
  cbn [read_frames] in IH. by rewrite IH.
Qed.
End frame_property.

Lemma frames_roundtrip_witness :
  read_frames (fun b => Ok (b, length b)) 3
    (concat [[0; 0; 0; 2; 7; 8]; [0; 0; 0; 1; 9]]) = Ok [[7; 8]; [9]].
Proof.
  apply (frames_roundtrip Ok (fun b => Ok (b, length b))) with (values := [[7; 8]; [9]]).
  - intros v b [= <-]. reflexivity.
  - repeat (constructor; [vm_compute; reflexivity|]). constructor.
Defined.
