(* ===== verification/UploadGate.v ===== *)
(** * Upload admission (crates/treer-proxy/src/upload_gate.rs)

    The slots for part bodies in flight on one Proxy instance, and the fixed-window rate limit
    per key.  [Instant::now] is an argument of the operation that reads it; the clock is
    monotonic, which the theorems state as an order on the times of a run. *)

From S2P Require Import Prelude RustStr.
Local Open Scope Z_scope.

Definition PART_BODIES_PER_INSTANCE : nat := 32.
Definition PARTS_PER_UPLOAD_PER_MINUTE : nat := 160.
Definition STATUS_PER_UPLOAD_PER_MINUTE : nat := 60.
Definition WINDOW : Z := from_secs 60.
(** The table size above which expired windows are swept. *)
Definition SWEEP_ABOVE : nat := Z.to_nat 4096.

Record GateInner : Type := mkGateInner {
  in_flight : nat;
  windows : gmap string (Z * nat)
}.

Definition gate_default : GateInner := mkGateInner 0 ∅.

(** [UploadGate::acquire_body]: [true] stands for the permit. *)
Definition acquire_body (inner : GateInner) : bool * GateInner :=
  if Nat.leb PART_BODIES_PER_INSTANCE (in_flight inner) then (false, inner)
  else (true, mkGateInner (S (in_flight inner)) (windows inner)).

(** [Drop for BodyPermit]: [saturating_sub]. *)
Definition drop_permit (inner : GateInner) : GateInner :=
  mkGateInner (in_flight inner - 1) (windows inner).

Definition live_at (now : Z) (w : Z * nat) : bool := duration_since now w.1 <? WINDOW.

Definition sweep (now : Z) (ws : gmap string (Z * nat)) : gmap string (Z * nat) :=
  if Nat.ltb SWEEP_ABOVE (size ws) then filter (fun kw => live_at now kw.2 = true) ws else ws.

(** [UploadGate::allow] *)
Definition allow (key : string) (limit : nat) (now : Z) (inner : GateInner) : bool * GateInner :=
  let ws := sweep now (windows inner) in
  let entry := default (now, 0%nat) (ws !! key) in
  let entry := if live_at now entry then entry else (now, 0%nat) in
  if Nat.leb limit entry.2 then (false, mkGateInner (in_flight inner) (<[key := entry]> ws))
  else (true, mkGateInner (in_flight inner) (<[key := (entry.1, S entry.2)]> ws)).

(** ** Runs

    The mutex serialises the calls, so a use of the gate is a sequence of them.  A permit can
    be dropped only while it exists: [live] counts the permits handed out and not dropped. *)

Inductive GateCall : Type :=
| CallAcquire
| CallDrop
| CallAllow (key : string) (limit : nat) (now : Z).

Record GateRun : Type := mkGateRun {
  gate : GateInner;
  live : nat;
  (** Granted events, newest first. *)
  grants : list (string * Z)
}.

Definition run_init : GateRun := mkGateRun gate_default 0 [].

Definition gate_call (r : GateRun) (c : GateCall) : GateRun :=
  match c with
  | CallAcquire =>
      let '(ok, g) := acquire_body (gate r) in
      mkGateRun g (if ok then S (live r) else live r) (grants r)
  | CallDrop =>
      match live r with
      | O => r
      | S n => mkGateRun (drop_permit (gate r)) n (grants r)
      end
  | CallAllow key limit now =>
      let '(ok, g) := allow key limit now (gate r) in
      mkGateRun g (live r) (if ok then (key, now) :: grants r else grants r)
  end.

Definition gate_run (calls : list GateCall) : GateRun := foldl gate_call run_init calls.

Definition call_time (c : GateCall) : option Z :=
  match c with CallAllow _ _ now => Some now | _ => None end.

(** The clock readings of a run, oldest first, never decrease. *)
Definition clock_monotone (calls : list GateCall) : Prop :=
  StronglySorted Z.le (omap call_time calls).

Definition limit_of (key : string) (c : GateCall) : nat :=
  match c with CallAllow k limit _ => if k =s key then limit else 0 | _ => 0 end.

(** Events granted to [key] in the minute that starts at [t]. *)
Definition in_minute (t g : Z) : bool := (t <=? g) && (g <? t + WINDOW).
Definition granted_in (key : string) (t : Z) (gs : list (string * Z)) : nat :=
  length (List.filter (fun kg : string * Z => (kg.1 =s key) && in_minute t kg.2) gs).

(** ** Slots *)

Lemma gate_call_slots r c :
  in_flight (gate r) = live r -> (live r <= PART_BODIES_PER_INSTANCE)%nat ->
  in_flight (gate (gate_call r c)) = live (gate_call r c) /\
  (live (gate_call r c) <= PART_BODIES_PER_INSTANCE)%nat.
Proof.
  intros Hf Hl. destruct c as [| |key limit now]; simpl.
  - unfold acquire_body. destruct (Nat.leb_spec PART_BODIES_PER_INSTANCE (in_flight (gate r))); simpl; lia.
  - destruct (live r) eqn:E; simpl; lia.
  - unfold allow. case_match eqn:Hm; case_match; simplify_eq/=; done.
Qed.

Lemma gate_run_slots calls :
  in_flight (gate (gate_run calls)) = live (gate_run calls) /\
  (live (gate_run calls) <= PART_BODIES_PER_INSTANCE)%nat.
Proof.
  induction calls as [|c calls [IH1 IH2]] using rev_ind; [simpl; unfold PART_BODIES_PER_INSTANCE; lia|].
  unfold gate_run in *. rewrite foldl_app. by apply gate_call_slots.
Qed.

(** Whatever the order of calls, the counter equals the number of permits that exist, it
    never passes 32, and the next request for a permit is refused exactly when 32 exist; a
    refusal changes nothing. *)
Theorem body_slots_bounded calls :
  let r := gate_run calls in
  in_flight (gate r) = live r /\
  (live r <= PART_BODIES_PER_INSTANCE)%nat /\
  (live (gate_call r CallAcquire) = live r <-> live r = PART_BODIES_PER_INSTANCE) /\
  (live r = PART_BODIES_PER_INSTANCE -> gate_call r CallAcquire = r).
Proof.
  intros r. destruct (gate_run_slots calls) as [Hf Hl]. fold r in Hf, Hl.
  destruct r as [[f ws] n gs]; simpl in *; subst f.
  unfold acquire_body; cbn [in_flight windows].
  destruct (Nat.leb_spec PART_BODIES_PER_INSTANCE n); cbn [live].
  - split_and!; [done|done|lia|done].
  - split_and!; [done|done|lia|lia].
Qed.

(** ** Rate windows

    The granted events of a key split into the windows they were counted in. *)

Definition win_ok (limit : nat) (w : Z * list Z) : Prop :=
  (length w.2 <= limit)%nat /\ Forall (fun g => w.1 <= g < w.1 + WINDOW) w.2.

(** Newest first, window starts lie at least one [WINDOW] apart. *)
Fixpoint spaced (ws : list (Z * list Z)) : Prop :=
  match ws with
  | [] => True
  | w :: ws' => Forall (fun w' : Z * list Z => w'.1 + WINDOW <= w.1) ws' /\ spaced ws'
  end.

Definition events (ws : list (Z * list Z)) : list Z := concat (snd <$> ws).
Definition count_minute (t : Z) (l : list Z) : nat := length (List.filter (in_minute t) l).

Lemma events_cons w ws : events (w :: ws) = w.2 ++ events ws.
Proof. done. Qed.

Lemma count_minute_app t l1 l2 :
  count_minute t (l1 ++ l2) = (count_minute t l1 + count_minute t l2)%nat.
Proof. unfold count_minute. by rewrite List.filter_app, length_app. Qed.

Lemma count_minute_none t l :
  Forall (fun g => g < t \/ t + WINDOW <= g) l -> count_minute t l = 0%nat.
Proof.
  unfold count_minute, in_minute. induction 1 as [|g l Hg _ IH]; simpl; [done|].
  destruct (Z.leb_spec t g), (Z.ltb_spec g (t + WINDOW)); simpl; lia.
Qed.

Lemma count_win limit t w : win_ok limit w -> (count_minute t w.2 <= limit)%nat.
Proof.
  intros [Hl _]. unfold count_minute. pose proof (length_filterb (in_minute t) w.2). lia.
Qed.

Lemma count_win_far limit t w :
  win_ok limit w -> w.1 + WINDOW <= t \/ t + WINDOW <= w.1 -> count_minute t w.2 = 0%nat.
Proof.
  intros [_ Hw] Hfar. apply count_minute_none. eapply Forall_impl; [exact Hw|]. simpl. lia.
Qed.

Lemma count_old limit t ws :
  Forall (win_ok limit) ws -> Forall (fun w : Z * list Z => w.1 + WINDOW <= t) ws ->
  count_minute t (events ws) = 0%nat.
Proof.
  intros Hok. induction Hok as [|w ws Hw _ IH]; [done|]. intros [Hs Hss]%Forall_cons.
  rewrite events_cons, count_minute_app, IH, (count_win_far limit) by auto. done.
Qed.

Lemma count_before limit t ws :
  Forall (win_ok limit) ws -> spaced ws -> Forall (fun w : Z * list Z => w.1 < t) ws ->
  (count_minute t (events ws) <= limit)%nat.
Proof.
  destruct ws as [|w ws]; [simpl; unfold count_minute; simpl; lia|].
  intros [Hw Hws]%Forall_cons [Hsp _] [Hs _]%Forall_cons.
  rewrite events_cons, count_minute_app. rewrite (count_old limit); [|done|].
  - pose proof (count_win limit t w Hw). lia.
  - eapply Forall_impl; [exact Hsp|]. simpl. lia.
Qed.

Lemma count_two limit t ws :
  Forall (win_ok limit) ws -> spaced ws -> (count_minute t (events ws) <= 2 * limit)%nat.
Proof.
  intros Hok. induction Hok as [|w ws Hw Hws IH]; [simpl; unfold count_minute; simpl; lia|].
  intros [Hsp Hsps]. rewrite events_cons, count_minute_app.
  destruct (decide (t + WINDOW <= w.1)) as [Hfar|Hnear].
  - rewrite (count_win_far limit) by auto. apply IH in Hsps. lia.
  - assert (count_minute t (events ws) <= limit)%nat.
    { apply (count_before limit); [done|done|]. eapply Forall_impl; [exact Hsp|]. simpl. lia. }
    pose proof (count_win limit t w Hw). lia.
Qed.

Definition key_events (key : string) (gs : list (string * Z)) : list Z :=
  snd <$> List.filter (fun kg : string * Z => kg.1 =s key) gs.

Lemma granted_in_events key t gs : granted_in key t gs = count_minute t (key_events key gs).
Proof.
  unfold granted_in, count_minute, key_events. induction gs as [|[k g] gs IH]; simpl; [done|].
  destruct (k =s key); simpl; [|done]. destruct (in_minute t g); simpl; [f_equal|]; exact IH.
Qed.

(** What ties the table to the granted events of [key], [now] being the last clock reading. *)
Definition tracked (limit : nat) (key : string) (now : option Z) (r : GateRun) : Prop :=
  exists ws, key_events key (grants r) = events ws /\ Forall (win_ok limit) ws /\ spaced ws /\
    Forall (fun w : Z * list Z => exists n, now = Some n /\ w.1 <= n) ws /\
    match windows (gate r) !! key with
    | Some (s, n) => exists gs ws', ws = (s, gs) :: ws' /\ length gs = n
    | None => Forall (fun w : Z * list Z => exists n, now = Some n /\ w.1 + WINDOW <= n) ws
    end.

Definition later (now : option Z) (t : Z) : Prop := forall n, now = Some n -> n <= t.

(** Sweeping forgets only windows that have expired. *)
Lemma sweep_lookup now ws key :
  sweep now ws !! key = ws !! key \/
  sweep now ws !! key = None /\ exists w, ws !! key = Some w /\ live_at now w = false.
Proof.
  unfold sweep. case_match; [|by left]. rewrite map_lookup_filter.
  destruct (ws !! key) as [w|] eqn:E; simpl; [|by left]. case_guard as Hl; simpl; [by left|].
  right. split; [done|]. exists w. split; [done|]. by apply not_true_is_false.
Qed.

(** The entry [allow] counts in, seen from the table before the sweep. *)
Lemma allow_entry now ws key :
  (let entry := default (now, 0%nat) (sweep now ws !! key) in
   if live_at now entry then entry else (now, 0%nat)) =
  match ws !! key with
  | Some w => if live_at now w then w else (now, 0%nat)
  | None => (now, 0%nat)
  end.
Proof.
  assert (Hnow : live_at now (now, 0%nat) = true).
  { unfold live_at, duration_since, WINDOW. simpl. apply Z.ltb_lt. unfold from_secs, nanos_per_sec. lia. }
  destruct (sweep_lookup now ws key) as [->|(-> & w & -> & Hl)]; simpl.
  - destruct (ws !! key) as [w|]; simpl; [done|]. by rewrite Hnow.
  - by rewrite Hnow, Hl.
Qed.

Lemma live_at_false now w : live_at now w = false <-> w.1 + WINDOW <= now.
Proof.
  unfold live_at, duration_since. rewrite Z.ltb_ge. unfold WINDOW, from_secs, nanos_per_sec. lia.
Qed.
Lemma live_at_true now w : live_at now w = true <-> now < w.1 + WINDOW.
Proof.
  unfold live_at, duration_since. rewrite Z.ltb_lt. unfold WINDOW, from_secs, nanos_per_sec. lia.
Qed.

Lemma tracked_advance now t (ws : list (Z * list Z)) :
  later now t -> Forall (fun w : Z * list Z => exists n, now = Some n /\ w.1 <= n) ws ->
  Forall (fun w : Z * list Z => exists n, Some t = Some n /\ w.1 <= n) ws.
Proof.
  intros Ht Hws. eapply Forall_impl; [exact Hws|]. intros w (n & -> & Hn). exists t. split; [done|].
  specialize (Ht n eq_refl). lia.
Qed.

Lemma allow_shape k limit now inner :
  exists ok e, allow k limit now inner =
    (ok, mkGateInner (in_flight inner) (<[k := e]> (sweep now (windows inner)))).
Proof. unfold allow. case_match; eauto. Qed.

Section rate.
Context (limit : nat) (key : string).

Lemma key_events_cons k g gs :
  key_events key ((k, g) :: gs) =
  if k =s key then g :: key_events key gs else key_events key gs.
Proof. unfold key_events. simpl. by destruct (k =s key). Qed.

Lemma expired_all s gs t (ws : list (Z * list Z)) :
  Forall (fun w : Z * list Z => w.1 + WINDOW <= s) ws -> s + WINDOW <= t ->
  Forall (fun w : Z * list Z => exists n, Some t = Some n /\ w.1 + WINDOW <= n) ((s, gs) :: ws).
Proof.
  intros Hsp Hs. constructor; [by exists t|]. eapply Forall_impl; [exact Hsp|].
  intros w Hw. exists t. split; [done|]. unfold WINDOW, from_secs, nanos_per_sec in *. lia.
Qed.

(** A call for another key only lets time pass, and may sweep the key's expired window. *)
Lemma tracked_other now r k lim t :
  later now t -> (k =s key) = false -> tracked limit key now r ->
  tracked limit key (Some t) (gate_call r (CallAllow k lim t)).
Proof.
  intros Ht Hk (ws & Hg & Hok & Hsp & Hold & Hw). exists ws.
  assert (Hold' := tracked_advance now t ws Ht Hold).
  assert (Hlook : forall e, <[k := e]> (sweep t (windows (gate r))) !! key =
                            sweep t (windows (gate r)) !! key).
  { intros e. apply lookup_insert_ne. by apply str_eqb_neq. }
  simpl. destruct (allow_shape k lim t (gate r)) as (ok & e & ->). simpl.
  assert (He : key_events key (if ok then (k, t) :: grants r else grants r) = events ws).
  { destruct ok; [|done]. by rewrite key_events_cons, Hk. }
  rewrite Hlook. split_and!; try done.
  destruct (sweep_lookup t (windows (gate r)) key) as [->|(-> & [s n] & Hl & Hlive)].
  - destruct (windows (gate r) !! key) as [[s n]|]; [done|].
    eapply Forall_impl; [exact Hw|]. intros w (n & -> & Hn). exists t. split; [done|].
    specialize (Ht n eq_refl). lia.
  - rewrite Hl in Hw. destruct Hw as (gs & ws' & -> & _). apply live_at_false in Hlive.
    destruct Hsp as [Hsp _]. apply expired_all; done.
Qed.

(** An empty window opened at [t], later than every other window's end. *)
Lemma open_window t (ws : list (Z * list Z)) :
  Forall (fun w : Z * list Z => exists n, Some t = Some n /\ w.1 + WINDOW <= n) ws ->
  Forall (win_ok limit) ws -> spaced ws ->
  Forall (fun w : Z * list Z => exists n, Some t = Some n /\ w.1 <= n) ws ->
  (t, 0%nat) = (t, length (@nil Z)) /\ events ((t, []) :: ws) = events ws /\
  Forall (win_ok limit) ((t, []) :: ws) /\ spaced ((t, []) :: ws) /\
  Forall (fun w : Z * list Z => exists n, Some t = Some n /\ w.1 <= n) ((t, []) :: ws) /\
  t <= t < t + WINDOW.
Proof.
  intros He Hok Hsp Hold. split_and!; try done.
  - constructor; [|done]. split; simpl; [lia|done].
  - split; [|done]. eapply Forall_impl; [exact He|]. by intros w (n & [= <-] & Hn).
  - constructor; [by exists t|done].
  - unfold WINDOW, from_secs, nanos_per_sec. lia.
Qed.

(** A call for the key counts in its live window or opens the next one. *)
Lemma tracked_same now r lim t :
  later now t -> (lim <= limit)%nat -> tracked limit key now r ->
  tracked limit key (Some t) (gate_call r (CallAllow key lim t)).
Proof.
  intros Ht Hlim (ws & Hg & Hok & Hsp & Hold & Hw).
  assert (Hold' := tracked_advance now t ws Ht Hold).
  (* the entry counted in is the newest window of an extended partition *)
  assert (Hentry : exists s gs ws',
    (match windows (gate r) !! key with
     | Some w => if live_at t w then w else (t, 0%nat)
     | None => (t, 0%nat)
     end) = (s, length gs) /\ events ((s, gs) :: ws') = events ws /\
    Forall (win_ok limit) ((s, gs) :: ws') /\ spaced ((s, gs) :: ws') /\
    Forall (fun w : Z * list Z => exists n, Some t = Some n /\ w.1 <= n) ((s, gs) :: ws') /\
    s <= t < s + WINDOW).
  { destruct (windows (gate r) !! key) as [[s n]|].
    - destruct Hw as (gs & ws' & -> & <-). destruct (live_at t (s, length gs)) eqn:Hl.
      + apply live_at_true in Hl. exists s, gs, ws'. split_and!; try done.
        by apply Forall_cons in Hold' as [(n & [= <-] & Hn) _].
      + apply live_at_false in Hl. exists t, [], ((s, gs) :: ws'). destruct Hsp as [Hsp Hsps].
        apply open_window; [|done|done|done]. by apply expired_all.
    - exists t, [], ws. apply open_window; [|done|done|done].
      eapply Forall_impl; [exact Hw|]. intros w (n & -> & Hn). exists t. split; [done|].
      specialize (Ht n eq_refl). lia. }
  destruct Hentry as (s & gs & ws' & He & Hev & Hok' & Hsp' & Hold'' & Hst).
  simpl. unfold allow. rewrite allow_entry, He. simpl.
  destruct (Nat.leb_spec lim (length gs)); simpl.
  - exists ((s, gs) :: ws'). simpl. rewrite Hev, lookup_insert_eq. destruct Hsp'. split_and!; try done.
    by exists gs, ws'.
  - exists ((s, t :: gs) :: ws'). simpl. rewrite key_events_cons, str_eqb_refl, Hg, lookup_insert_eq.
    destruct Hsp'. split_and!; [by rewrite <- Hev| |done|done| |by exists (t :: gs), ws'].
    + apply Forall_cons in Hok' as [[Hlen Hall] Hok']. constructor; [|done].
      split; simpl in *; [lia|]. by constructor.
    + by inversion Hold''; simplify_eq; constructor.
Qed.

Lemma tracked_quiet now r c :
  call_time c = None -> tracked limit key now r -> tracked limit key now (gate_call r c).
Proof.
  destruct c as [| |k lim t]; [| |done]; intros _ (ws & Hws); exists ws; simpl.
  - unfold acquire_body. destruct (Nat.leb PART_BODIES_PER_INSTANCE (in_flight (gate r))); done.
  - by destruct (live r).
Qed.

Lemma tracked_run calls :
  clock_monotone calls -> Forall (fun c => (limit_of key c <= limit)%nat) calls ->
  tracked limit key (last (omap call_time calls)) (gate_run calls).
Proof.
  unfold clock_monotone, gate_run.
  induction calls as [|c calls IH] using rev_ind; intros Hs Hl.
  { exists []. simpl. rewrite lookup_empty. split_and!; by try constructor. }
  rewrite foldl_app, omap_app in *. apply Forall_app in Hl as [Hl Hc].
  rewrite Forall_singleton in Hc. simpl in *. destruct (call_time c) as [t|] eqn:Ht.
  - rewrite last_snoc. apply StronglySorted_app in Hs as (Hs1 & Hs & Hle).
    assert (Hlater : later (last (omap call_time calls)) t).
    { intros n (l & Hn)%last_Some. apply Hs1; [|set_solver]. rewrite Hn. set_solver. }
    destruct c as [| |k lim t']; simplify_eq/=. destruct (k =s key) eqn:Hk.
    + apply str_eqb_eq in Hk as ->. by apply (tracked_same _ _ _ _ Hlater), IH.
    + by apply (tracked_other _ _ _ _ _ Hlater), IH.
  - rewrite app_nil_r in *. apply tracked_quiet; auto.
Qed.
End rate.

(** In any use of the gate whose clock never goes back, and whatever calls for other keys
    come between and make the table be swept, a key asked for with limits of at most [limit] is
    granted at most twice [limit] events in any minute: an upload sends at most 320 parts in any
    60 seconds, not only in the gate's own fixed windows. *)
Theorem rate_is_bounded calls key limit t :
  clock_monotone calls ->
  Forall (fun c => (limit_of key c <= limit)%nat) calls ->
  (granted_in key t (grants (gate_run calls)) <= 2 * limit)%nat.
Proof.
  intros Hs Hl. destruct (tracked_run limit key calls Hs Hl) as (ws & Hg & Hok & Hsp & _).
  rewrite granted_in_events, Hg. by apply count_two.
Qed.

Definition sample_calls : list GateCall :=
  [CallAllow "parts:u" 2 0; CallAllow "parts:u" 2 (from_secs 59);
   CallAllow "parts:u" 2 (from_secs 59); CallAcquire; CallAllow "status:u" 60 (from_secs 60);
   CallAllow "parts:u" 2 (from_secs 60); CallAllow "parts:u" 2 (from_secs 61)].

(** Three grants of a limit of two fall in one minute across two of the gate's windows. *)
Lemma rate_is_bounded_witness :
  granted_in "parts:u" (from_secs 59) (grants (gate_run sample_calls)) = 3%nat /\
  (granted_in "parts:u" (from_secs 59) (grants (gate_run sample_calls)) <= 2 * 2)%nat.
Proof.
  split; [vm_compute; reflexivity|]. apply (rate_is_bounded sample_calls "parts:u" 2).
  - unfold clock_monotone. simpl.
    repeat first [apply SSorted_nil | apply SSorted_cons | apply Forall_nil_2 | apply Forall_cons_2];
      unfold from_secs, nanos_per_sec; lia.
  - repeat constructor.
Defined.
