(* ===== verification/Activity.v ===== *)
(** * Terminal activity (crates/treer-agent-server/src/controller_activity.rs)

    The hysteresis that turns output chunks and clock ticks of a terminal into a Working, Idle
    or Blocked status, with [recent_text] and [detect_status] of controller_output.rs and
    [AgentStatus] of the protocol.  The Unicode lower-casing of [str::to_lowercase] and the
    unspecified algorithm of [DefaultHasher] are parameters; no theorem constrains them. *)

From S2P Require Import Prelude RustStr.
Local Open Scope Z_scope.

(** ** [AgentStatus] *)

Inductive AgentStatus : Type :=
| Starting | Working | Idle | Blocked | Exited | Failed | Unknown.

#[export] Instance AgentStatus_eq_dec : EqDecision AgentStatus.
Proof. solve_decision. Defined.

(** [AgentStatus::is_terminal] *)
Definition is_terminal (s : AgentStatus) : bool :=
  match s with Exited | Failed => true | _ => false end.

(** ** Constants *)

Definition ACTIVITY_WINDOW : Z := from_secs 3.
Definition ACTIVITY_ENTER_UPDATES : nat := 3.
Definition QUIET_IDLE_AFTER : Z := from_millis 4500.
Definition PROMPT_IDLE_GRACE : Z := from_secs 1.
Definition MIN_STATUS_DWELL : Z := from_secs 2.
Definition WORKING_MARKER_TTL : Z := from_secs 3.
Definition INLINE_MEANINGFUL_CHARS : nat := 256.
Definition REDRAW_MEMORY : nat := 8.
Definition STATUS_TAIL_LINES : nat := 12.
Definition STATUS_TAIL_BYTES : nat := Z.to_nat (4 * 1024).
Definition INPUT_ECHO_WINDOW : Z := from_millis 500.
Definition MARKER_CARRY_BYTES : nat := 64.

Definition BLOCKED_PATTERNS : list string :=
  ["allow command?"; "do you want to proceed"; "press enter to confirm";
   "enter to submit answer"; "[y/n]"; "action required"].
Definition SHELL_QUESTIONS : list string := ["[y/n]"].
Definition WORKING_MARKERS : list string :=
  ["esc to interrupt"; "working ("; "thinking ("; "running tool"].

Definition newline : ascii := "010"%char.
Definition carriage_return : ascii := "013"%char.

(** ** Text *)

(** [&text[n..]] *)
Fixpoint str_from (n : nat) (s : string) : string :=
  match n, s with
  | S n', String _ s' => str_from n' s'
  | _, _ => s
  end.

(** [while split < text.len() && !text.is_char_boundary(split) { split += 1 }], on the text
    from [split] on. *)
Fixpoint to_boundary (s : string) : string :=
  match s with
  | String a s' => if is_continuation a then to_boundary s' else s
  | EmptyString => EmptyString
  end.

(** [recent_text] *)
Definition recent_text (text : string) (limit : nat) : string :=
  if Nat.leb (String.length text) limit then text
  else to_boundary (str_from (String.length text - limit) text).

(** [last_match]: the offset just past the last occurrence of any pattern. *)
Definition last_match (haystack : string) (patterns : list string) : option nat :=
  foldr (fun pattern acc =>
    match rfind pattern haystack with
    | Some index =>
        let e := (index + String.length pattern)%nat in
        Some (match acc with Some m => Nat.max e m | None => e end)
    | None => acc
    end) None patterns.

(** The byte offsets of [d], last first ([rmatch_indices]). *)
Fixpoint rmatch_indices_from (d : ascii) (at_ : nat) (s : string) (acc : list nat) : list nat :=
  match s with
  | EmptyString => acc
  | String a s' => rmatch_indices_from d (S at_) s' (if Ascii.eqb a d then at_ :: acc else acc)
  end.
Definition rmatch_indices (d : ascii) (s : string) : list nat := rmatch_indices_from d 0 s [].

(** The loop of [tail]: stops at the [lines]-th line feed from the end. *)
Fixpoint tail_start (lines count : nat) (indices : list nat) : nat :=
  match indices with
  | [] => 0
  | index :: rest => if Nat.leb lines (count + 1) then index + 1 else tail_start lines (S count) rest
  end%nat.

(** [tail] *)
Definition tail_text (text : string) (lines limit : nat) : string :=
  let text := recent_text text limit in
  let trimmed := trim_end_matches newline text in
  str_from (tail_start lines 0 (rmatch_indices newline trimmed)) text.

(** [str::lines]: a line feed ends a line, with a carriage return before it. *)
Definition strip_cr (l : string) : string :=
  if ends_with_char carriage_return l then String.substring 0 (String.length l - 1) l else l.
Fixpoint lines_of (pieces : list string) : list string :=
  match pieces with
  | [] => []
  | [p] => if is_empty p then [] else [p]
  | p :: rest => strip_cr p :: lines_of rest
  end.
Definition lines (text : string) : list string := lines_of (split_on newline text).

(** [str::ends_with] of a character. *)
Definition ends_with_chr (c s : string) : bool :=
  match last (chars s) with Some d => d =s c | None => false end.

(** [visible]: the characters that are neither white space nor control. *)
Definition visible (chunk : string) : list string :=
  List.filter (fun c => negb (is_whitespace c) && negb (is_control c)) (chars chunk).

Record TailSignals : Type := mkTailSignals {
  ts_blocked : bool;
  ts_marker : bool;
  ts_prompt : bool
}.

Definition opt_nat_eqb (a b : option nat) : bool := bool_decide (a = b).

Section text.
Context (to_lowercase : string -> string).

(** [tail_signals] *)
Definition tail_signals (text : string) : TailSignals :=
  let last_line := default EmptyString (last (lines (recent_text text STATUS_TAIL_BYTES))) in
  let trimmed := trim_end last_line in
  let prompt := ends_with_chr "❯" trimmed || ends_with_chr "›" trimmed
                || ends_with_chr "$" trimmed || ends_with_chr "#" trimmed in
  let tail := to_lowercase (tail_text text STATUS_TAIL_LINES STATUS_TAIL_BYTES) in
  let blocked_at := last_match tail BLOCKED_PATTERNS in
  let marker_at := last_match tail WORKING_MARKERS in
  let prompt_after_question :=
    prompt && is_some blocked_at
    && opt_nat_eqb (last_match tail SHELL_QUESTIONS) blocked_at
    && negb (contains_str "[y/n]" (to_lowercase last_line)) in
  let blocked :=
    match blocked_at, marker_at with
    | Some blocked, Some marker => Nat.leb marker blocked
    | Some _, None => true
    | _, _ => false
    end && negb prompt_after_question in
  mkTailSignals blocked (is_some marker_at && negb blocked) prompt.

(** [detect_status] *)
Definition detect_status (text : string) : option AgentStatus :=
  let signals := tail_signals text in
  if ts_blocked signals then Some Blocked
  else if ts_marker signals then Some Working
  else if ts_prompt signals then Some Idle
  else None.
End text.

(** ** The state machine *)

Record TerminalActivity : Type := mkTerminalActivity {
  ta_status : AgentStatus;
  since : Z;
  updates : list Z;
  last_meaningful : option Z;
  marker_drawn : bool;
  last_marker : option Z;
  last_input : option Z;
  redraws : list Z;
  signals : TailSignals
}.

(** [TerminalActivity::new] *)
Definition activity_new (status : AgentStatus) (now : Z) : TerminalActivity :=
  mkTerminalActivity status now [] None false None None [] (mkTailSignals false false false).

Definition set_status (status : AgentStatus) (now : Z) (a : TerminalActivity) : TerminalActivity :=
  mkTerminalActivity status now (updates a) (last_meaningful a) (marker_drawn a) (last_marker a)
    (last_input a) (redraws a) (signals a).
Definition set_updates (u : list Z) (a : TerminalActivity) : TerminalActivity :=
  mkTerminalActivity (ta_status a) (since a) u (last_meaningful a) (marker_drawn a) (last_marker a)
    (last_input a) (redraws a) (signals a).

(** [TerminalActivity::adopt] *)
Definition adopt (current : AgentStatus) (now : Z) (a : TerminalActivity) : TerminalActivity :=
  if bool_decide (current = ta_status a) then a
  else if bool_decide (current = Starting) then activity_new current now
  else set_status current now a.

(** [TerminalActivity::input] *)
Definition input (now : Z) (a : TerminalActivity) : TerminalActivity :=
  mkTerminalActivity (ta_status a) (since a) (updates a) (last_meaningful a) (marker_drawn a)
    (last_marker a) (Some now) (redraws a) (signals a).

(** The loop of [sustained]. *)
Fixpoint expire_updates (now : Z) (u : list Z) : list Z :=
  match u with
  | t :: rest => if ACTIVITY_WINDOW <? duration_since now t then expire_updates now rest else u
  | [] => []
  end.

(** [TerminalActivity::sustained] *)
Definition sustained (now : Z) (a : TerminalActivity) : bool * TerminalActivity :=
  let u := expire_updates now (updates a) in
  (Nat.leb ACTIVITY_ENTER_UPDATES (length u), set_updates u a).

(** [TerminalActivity::quiet]: the time since the latest of the three instants. *)
Definition quiet (now : Z) (a : TerminalActivity) : Z :=
  duration_since now
    (Z.max (Z.max (default (since a) (last_meaningful a)) (default (since a) (last_marker a))) (since a)).

Definition marker_live (now : Z) (a : TerminalActivity) : bool :=
  marker_drawn a && is_some_and (last_marker a) (fun t => duration_since now t <? WORKING_MARKER_TTL).

Definition settled (now : Z) (a : TerminalActivity) : bool :=
  (QUIET_IDLE_AFTER <=? quiet now a) || (ts_prompt (signals a) && (PROMPT_IDLE_GRACE <=? quiet now a)).

(** [TerminalActivity::decide].  [self.sustained(now)] runs, and forgets old updates, only when
    the screen is neither blocked nor shows a live marker. *)
Definition decide_status (now : Z) (a : TerminalActivity) : AgentStatus * TerminalActivity :=
  if is_terminal (ta_status a) then (ta_status a, a)
  else
    let live := marker_live now a in
    let is_settled := settled now a in
    let '(desired, a) :=
      if ts_blocked (signals a) then (Blocked, a)
      else if live then (Working, a)
      else
        let '(s, a) := sustained now a in
        (if s then Working
         else match ta_status a with
              | Working | Starting => if negb is_settled then ta_status a else Idle
              | Blocked => Idle
              | other => other
              end, a) in
    if bool_decide (desired = ta_status a) then (desired, a)
    else
      let immediate := bool_decide (desired = Blocked) || (bool_decide (desired = Working) && live) in
      let a := if immediate || (MIN_STATUS_DWELL <=? duration_since now (since a))
               then set_status desired now a else a in
      (ta_status a, a).

(** [TerminalActivity::tick] *)
Definition tick (now : Z) (current : AgentStatus) (a : TerminalActivity)
    : AgentStatus * TerminalActivity :=
  decide_status now (adopt current now a).

Section observe.
Context (to_lowercase : string -> string) (hash : list string -> Z).

(** What [observe] does with a chunk before it decides. *)
Definition mark_screen (chunk text : string) (a : TerminalActivity) : TerminalActivity :=
  let sg := tail_signals to_lowercase text in
  let window := to_lowercase (recent_text text (String.length chunk + MARKER_CARRY_BYTES)) in
  let drawn :=
    if ts_blocked sg then false
    else if is_some (last_match window WORKING_MARKERS) then true
    else if contains_char newline chunk then ts_marker sg
    else marker_drawn a in
  mkTerminalActivity (ta_status a) (since a) (updates a) (last_meaningful a) drawn
    (last_marker a) (last_input a) (redraws a) sg.

(** [self.redraws.retain(..); push_back; pop_front] *)
Definition remember (h : Z) (seen : list Z) : list Z :=
  let kept := List.filter (fun x => negb (x =? h)) seen ++ [h] in
  if Nat.ltb REDRAW_MEMORY (length kept) then List.tl kept else kept.

Definition count_content (now : Z) (chunk : string) (a : TerminalActivity) : TerminalActivity :=
  let content := visible chunk in
  let echo := is_some_and (last_input a) (fun t => duration_since now t <? INPUT_ECHO_WINDOW) in
  if negb (bool_decide (content = [])) && negb echo then
    let lm := if marker_drawn a then Some now else last_marker a in
    let h := hash content in
    let redraw := existsb (Z.eqb h) (redraws a) in
    let advances := contains_char newline chunk || Nat.leb INLINE_MEANINGFUL_CHARS (length content) in
    let meaningful := advances && negb redraw in
    mkTerminalActivity (ta_status a) (since a)
      (if meaningful then updates a ++ [now] else updates a)
      (if meaningful then Some now else last_meaningful a)
      (marker_drawn a) lm (last_input a) (remember h (redraws a)) (signals a)
  else a.

(** [TerminalActivity::observe] *)
Definition observe (now : Z) (current : AgentStatus) (chunk text : string) (a : TerminalActivity)
    : AgentStatus * TerminalActivity :=
  decide_status now (count_content now chunk (mark_screen chunk text (adopt current now a))).
End observe.

(** ** Runs of one terminal *)

Inductive ActivityEvent : Type :=
| EInput (now : Z)
| EObserve (now : Z) (current : AgentStatus) (chunk text : string)
| ETick (now : Z) (current : AgentStatus).

Definition event_time (e : ActivityEvent) : Z :=
  match e with EInput now | EObserve now _ _ _ | ETick now _ => now end.

(** The clock starts at [t0] and never goes back. *)
Definition clock_from (t0 : Z) (es : list ActivityEvent) : Prop :=
  StronglySorted Z.le (t0 :: (event_time <$> es)).

Section runs.
Context (to_lowercase : string -> string) (hash : list string -> Z).

(** The state an event leaves for [decide]. *)
Definition absorb (e : ActivityEvent) (a : TerminalActivity) : TerminalActivity :=
  match e with
  | EInput now => input now a
  | EObserve now current chunk text =>
      count_content hash now chunk (mark_screen to_lowercase chunk text (adopt current now a))
  | ETick now current => adopt current now a
  end.

Definition activity_step (e : ActivityEvent) (a : TerminalActivity)
    : AgentStatus * TerminalActivity :=
  match e with
  | EInput now => (ta_status a, input now a)
  | EObserve now current chunk text => observe to_lowercase hash now current chunk text a
  | ETick now current => tick now current a
  end.

Definition activity_run (a : TerminalActivity) (es : list ActivityEvent) : TerminalActivity :=
  foldl (fun a e => (activity_step e a).2) a es.

(** ** The invariant of a run *)

Definition upto (t : Z) (o : option Z) : Prop := forall x, o = Some x -> x <= t.

Definition activity_inv (t : Z) (a : TerminalActivity) : Prop :=
  StronglySorted Z.le (updates a) /\
  Forall (fun u => exists m, last_meaningful a = Some m /\ u <= m) (updates a) /\
  since a <= t /\ upto t (last_meaningful a) /\ upto t (last_marker a).

Lemma upto_weaken t t' o : t <= t' -> upto t o -> upto t' o.
Proof. intros Ht H x Hx. specialize (H x Hx). lia. Qed.
Lemma upto_some t : upto t (Some t).
Proof. intros x [= <-]. lia. Qed.
Hint Resolve upto_weaken upto_some : treer.

Lemma activity_new_inv s t : activity_inv t (activity_new s t).
Proof. repeat split; simpl; try constructor; try lia; by intros x. Qed.

Lemma activity_inv_weaken t t' a : t <= t' -> activity_inv t a -> activity_inv t' a.
Proof. intros Ht (H1 & H2 & H3 & H4 & H5). split_and!; eauto with treer. lia. Qed.

Lemma adopt_inv t now current a :
  t <= now -> activity_inv t a -> activity_inv now (adopt current now a).
Proof.
  intros Ht Ha. unfold adopt. repeat case_bool_decide; [by eapply activity_inv_weaken| |].
  - apply activity_new_inv.
  - destruct (activity_inv_weaken t now a Ht Ha) as (H1 & H2 & H3 & H4 & H5).
    split_and!; simpl; auto. lia.
Qed.

Lemma expire_updates_suffix now u : exists old, u = old ++ expire_updates now u.
Proof.
  induction u as [|t u [old IH]]; simpl; [by exists []|].
  case_match; [|by exists []]. exists (t :: old). simpl. by rewrite <- IH.
Qed.

Lemma set_updates_inv t now a :
  activity_inv t a -> activity_inv t (set_updates (expire_updates now (updates a)) a).
Proof.
  intros (H1 & H2 & H3). destruct (expire_updates_suffix now (updates a)) as [old Hold].
  rewrite Hold in H1, H2. apply StronglySorted_app in H1 as (_ & _ & H1).
  apply Forall_app in H2 as [_ H2]. done.
Qed.

Lemma set_status_inv now s a : activity_inv now a -> activity_inv now (set_status s now a).
Proof. intros (H1 & H2 & H3 & H4 & H5). split_and!; simpl; auto. lia. Qed.

Lemma decide_inv now a : activity_inv now a -> activity_inv now (decide_status now a).2.
Proof.
  intros Ha. unfold decide_status, sustained. repeat case_match; simplify_eq/=;
    auto using set_updates_inv, set_status_inv.
Qed.

Lemma count_content_inv now chunk a :
  activity_inv now a -> activity_inv now (count_content hash now chunk a).
Proof.
  intros Ha. unfold count_content. case_match; [|done]. destruct Ha as (H1 & H2 & H3 & H4 & H5).
  assert (Hle : Forall (fun u => u <= now) (updates a)).
  { eapply Forall_impl; [exact H2|]. intros u (m & Hm & Hu). specialize (H4 m Hm). lia. }
  split_and!; simpl; auto.
  - case_match; [|done]. apply StronglySorted_app. split_and!; [|done|repeat constructor].
    intros x1 x2 Hx1 ->%list_elem_of_singleton. by eapply Forall_forall in Hle.
  - case_match; [|done]. apply Forall_app. split; [|repeat constructor; exists now; split; [done|lia]].
    eapply Forall_impl; [exact Hle|]. intros u Hu. by exists now.
  - case_match; auto with treer.
  - case_match; auto with treer.
Qed.

Lemma absorb_inv t e a :
  t <= event_time e -> activity_inv t a -> activity_inv (event_time e) (absorb e a).
Proof.
  intros Ht Ha. destruct e as [now|now current chunk text|now current]; simpl in *.
  - by apply (activity_inv_weaken _ _ a Ht).
  - apply count_content_inv. apply (adopt_inv _ _ current a Ht) in Ha. exact Ha.
  - by eapply adopt_inv.
Qed.

Lemma last_default_elem t0 (ts : list Z) : default t0 (last ts) ∈ t0 :: ts.
Proof.
  destruct (last ts) as [x|] eqn:Hl; simpl; [|set_solver].
  apply last_Some_elem_of in Hl. set_solver.
Qed.

(** [tick] and [observe] are [decide] after what the event brings. *)
Lemma activity_step_decide e a :
  activity_step e a = match e with
                      | EInput _ => (ta_status a, absorb e a)
                      | _ => decide_status (event_time e) (absorb e a)
                      end.
Proof. by destruct e. Qed.

Lemma activity_run_inv t0 es a :
  clock_from t0 es -> activity_inv t0 a ->
  activity_inv (default t0 (last (event_time <$> es))) (activity_run a es).
Proof.
  unfold clock_from, activity_run. induction es as [|e es IH] using rev_ind; [done|].
  rewrite fmap_app, foldl_app, last_app. simpl. intros Hs Ha. rewrite app_comm_cons in Hs.
  apply StronglySorted_app in Hs as (Hle & Hs & _). specialize (IH Hs Ha).
  assert (Ht : default t0 (last (event_time <$> es)) <= event_time e).
  { apply Hle; [apply last_default_elem|set_solver]. }
  apply (absorb_inv _ e) in IH; [|done]. rewrite activity_step_decide.
  destruct e; simpl in *; auto using decide_inv.
Qed.

(** ** Why a status changes *)

Lemma expire_keeps now u :
  StronglySorted Z.le u ->
  expire_updates now u = List.filter (fun t => now - t <=? ACTIVITY_WINDOW) u.
Proof.
  induction 1 as [|t u Hs IH Hle]; simpl; [done|]. unfold duration_since.
  assert (0 <= ACTIVITY_WINDOW) by done.
  destruct (Z.ltb_spec ACTIVITY_WINDOW (Z.max 0 (now - t))), (Z.leb_spec (now - t) ACTIVITY_WINDOW);
    try lia; [done|]. f_equal. symmetry. clear IH.
  induction Hle as [|x u Hx Hu IH]; simpl; [done|]. rewrite (proj2 (Z.leb_le _ _)) by lia.
  f_equal. apply IH. by inversion Hs.
Qed.

(** The reasons for which [decide] may leave the status of [b] for [s]. *)
Definition justified (now : Z) (b : TerminalActivity) (s : AgentStatus) : Prop :=
  is_terminal (ta_status b) = false /\
  if ts_blocked (signals b) then s = Blocked
  else if marker_live now b then s = Working
  else MIN_STATUS_DWELL <= now - since b /\
       let recent := List.filter (fun t => now - t <=? ACTIVITY_WINDOW) (updates b) in
       (s = Working /\ (ACTIVITY_ENTER_UPDATES <= length recent)%nat \/
        s = Idle /\ (length recent < ACTIVITY_ENTER_UPDATES)%nat /\
        (ta_status b = Blocked \/
         (ta_status b = Working \/ ta_status b = Starting) /\ settled now b = true)).

Lemma decide_justified now b :
  StronglySorted Z.le (updates b) ->
  let '(s, a) := decide_status now b in
  s = ta_status a /\
  (s = ta_status b /\ since a = since b \/ s <> ta_status b /\ since a = now /\ justified now b s).
Proof.
  intros Hs. unfold decide_status, justified, sustained. rewrite (expire_keeps _ _ Hs).
  destruct (is_terminal (ta_status b)) eqn:Ht; [auto|].
  destruct (ts_blocked (signals b)) eqn:Hb.
  { case_bool_decide; simpl; auto 10. }
  destruct (marker_live now b) eqn:Hm.
  { case_bool_decide; simpl; auto 10. }
  assert (Hdwell : (MIN_STATUS_DWELL <=? duration_since now (since b)) = true ->
                   MIN_STATUS_DWELL <= now - since b).
  { intros Hd%Z.leb_le. unfold duration_since in Hd.
    assert (0 < MIN_STATUS_DWELL) by done. lia. }
  set (recent := List.filter _ (updates b)).
  destruct (Nat.leb_spec ACTIVITY_ENTER_UPDATES (length recent)) as [Hu|Hu].
  - case_bool_decide as Hst; simpl; [auto|].
    destruct (MIN_STATUS_DWELL <=? duration_since now (since b)); simpl; auto 10.
  - simpl. destruct (ta_status b) eqn:Hst; try discriminate; simpl.
    all: try (destruct (settled now b) eqn:Hset); simpl; rewrite ?Hst; simpl.
    all: try (destruct (MIN_STATUS_DWELL <=? duration_since now (since b)) eqn:Hd; simpl).
    all: rewrite ?Hst; split; auto.
    all: right; split_and!; auto 10.
Qed.

(** Long after everything recorded, no marker is live, no update is recent, and the output
    has settled. *)
Lemma long_quiet t now a :
  activity_inv t a -> t + QUIET_IDLE_AFTER <= now ->
  marker_live now a = false /\ settled now a = true /\
  List.filter (fun u => now - u <=? ACTIVITY_WINDOW) (updates a) = [] /\
  (MIN_STATUS_DWELL <=? duration_since now (since a)) = true.
Proof.
  unfold marker_live, settled, quiet, duration_since, QUIET_IDLE_AFTER, WORKING_MARKER_TTL,
    ACTIVITY_WINDOW, MIN_STATUS_DWELL, from_secs, from_millis, nanos_per_sec.
  intros (_ & Hu & Hs & Hm & Hk) Hnow. split_and!.
  - destruct (last_marker a) as [k|]; simpl; [|by rewrite andb_false_r].
    specialize (Hk k eq_refl). rewrite (proj2 (Z.ltb_ge _ _)) by lia. apply andb_false_r.
  - rewrite (proj2 (Z.leb_le _ _)); [done|].
    destruct (last_meaningful a) as [m|], (last_marker a) as [k|]; simpl;
      try specialize (Hm m eq_refl); try specialize (Hk k eq_refl); lia.
  - induction Hu as [|u us (m & Hm' & Hle) _ IH]; simpl; [done|].
    specialize (Hm m Hm'). by rewrite (proj2 (Z.leb_gt _ _)) by lia.
  - apply Z.leb_le. lia.
Qed.

Lemma decide_quiet t now a :
  activity_inv t a -> t + QUIET_IDLE_AFTER <= now ->
  (decide_status now a).1 =
    if is_terminal (ta_status a) then ta_status a
    else if ts_blocked (signals a) then Blocked
    else match ta_status a with
         | Working | Starting | Blocked => Idle
         | other => other
         end.
Proof.
  intros Ha Hnow. destruct (long_quiet t now a Ha Hnow) as (Hlive & Hset & Hup & Hdwell).
  destruct Ha as (Hsorted & _). unfold decide_status, sustained.
  rewrite (expire_keeps _ _ Hsorted), Hup, Hlive, Hset. simpl.
  destruct (ta_status a) eqn:Hst, (ts_blocked (signals a)); simpl; rewrite ?Hst; simpl;
    rewrite ?Hdwell; done.
Qed.

(** C36: In every history of a terminal with a clock that never goes back, each answer is the
    stored status, and it leaves the status held (or adopted) before the event only for a
    reason: a blocking question on screen gives Blocked and nothing else; without one, a live
    working marker gives Working; otherwise at least two seconds have passed since the last
    change, and either three meaningful updates lie in the last three seconds (Working), or a
    held Working, Starting or Blocked gives way to Idle, the first two only once output has
    settled.  A terminal status never changes. *)
Theorem status_changes_are_justified s0 t0 es e :
  clock_from t0 (es ++ [e]) ->
  let a := activity_run (activity_new s0 t0) es in
  let b := absorb e a in
  let '(s, a') := activity_step e a in
  s = ta_status a' /\
  (s = ta_status b /\ since a' = since b \/
   s <> ta_status b /\ since a' = event_time e /\ justified (event_time e) b s).
Proof.
  intros Hclock a b.
  assert (Hb : activity_inv (event_time e) b).
  { unfold clock_from in Hclock. rewrite fmap_app, app_comm_cons in Hclock.
    apply StronglySorted_app in Hclock as (Hle & Hs & _).
    eapply absorb_inv, (activity_run_inv t0 es _ Hs), activity_new_inv.
    apply Hle; [|set_solver]. apply last_default_elem. }
  rewrite activity_step_decide. fold b. destruct Hb as (Hsorted & _).
  destruct e; [by auto|apply decide_justified, Hsorted|apply decide_justified, Hsorted].
Qed.

(** C39: However a terminal got there, once 4.5 seconds have passed since the last event of
    its history a tick settles it: a status Working, Starting or Blocked becomes Idle, except
    that a blocking question still on screen makes every non-terminal status Blocked; no other
    status changes. *)
Theorem quiet_becomes_idle s0 t0 es now :
  clock_from t0 es ->
  default t0 (last (event_time <$> es)) + QUIET_IDLE_AFTER <= now ->
  let a := activity_run (activity_new s0 t0) es in
  (tick now (ta_status a) a).1 =
    if is_terminal (ta_status a) then ta_status a
    else if ts_blocked (signals a) then Blocked
    else match ta_status a with
         | Working | Starting | Blocked => Idle
         | other => other
         end.
Proof.
  intros Hclock Hnow a.
  pose proof (activity_run_inv t0 es _ Hclock (activity_new_inv s0 t0)) as Ha. fold a in Ha.
  unfold tick, adopt. rewrite bool_decide_eq_true_2 by done. by eapply decide_quiet.
Qed.
End runs.

(** ** Concrete histories *)

(** Lower-casing of ASCII letters, and a hash, to instantiate the parameters. *)
Fixpoint ascii_lowercase (s : string) : string :=
  match s with
  | EmptyString => EmptyString
  | String a s' =>
      let v := byte_val a in
      String (if between 65 v 90 then Ascii.ascii_of_N (Z.to_N (v + 32)) else a) (ascii_lowercase s')
  end.
Definition sample_hash (content : list string) : Z := Z.of_nat (length content).

Definition line (s : string) : string := s +:+ String newline EmptyString.

(** Three different lines printed within 200 ms, 2.1 seconds after the start. *)
Definition sample_output : list ActivityEvent :=
  [EObserve (from_millis 2100) Starting (line "a") (line "a");
   EObserve (from_millis 2200) Starting (line "bb") (line "a" +:+ line "bb")].
Definition sample_third : ActivityEvent :=
  EObserve (from_millis 2300) Starting (line "ccc") (line "a" +:+ line "bb" +:+ line "ccc").

Lemma status_changes_are_justified_witness :
  (activity_step ascii_lowercase sample_hash sample_third
     (activity_run ascii_lowercase sample_hash (activity_new Starting 0) sample_output)).1 = Working /\
  let a := activity_run ascii_lowercase sample_hash (activity_new Starting 0) sample_output in
  let b := absorb ascii_lowercase sample_hash sample_third a in
  let '(s, a') := activity_step ascii_lowercase sample_hash sample_third a in
  s = ta_status a' /\
  (s = ta_status b /\ since a' = since b \/
   s <> ta_status b /\ since a' = event_time sample_third /\ justified (event_time sample_third) b s).
Proof.
  split; [vm_compute; reflexivity|].
  apply (status_changes_are_justified ascii_lowercase sample_hash Starting 0 sample_output sample_third).
  repeat constructor; vm_compute; discriminate.
Defined.

Lemma quiet_becomes_idle_witness :
  (tick (from_millis 6900) Working
     (activity_run ascii_lowercase sample_hash (activity_new Starting 0)
        (sample_output ++ [sample_third]))).1 = Idle.
Proof.
  etransitivity;
    [apply (quiet_becomes_idle ascii_lowercase sample_hash Starting 0 (sample_output ++ [sample_third])
              (from_millis 6900))|].
  - repeat constructor; vm_compute; discriminate.
  - vm_compute. discriminate.
  - vm_compute. reflexivity.
Defined.

(** A question drawn after the working marker blocks; the same question answered at a shell
    prompt does not. *)
Example tail_signals_samples :
  detect_status ascii_lowercase ("Working (3s) " +:+ line "esc to interrupt" +:+ "Allow command?")
    = Some Blocked /\
  detect_status ascii_lowercase (line "Allow command?" +:+ "Working (3s)") = Some Working /\
  detect_status ascii_lowercase (line "Overwrite? [y/n]" +:+ "$ ") = Some Idle /\
  detect_status ascii_lowercase (line "plain output") = None.
Proof. vm_compute. auto. Qed.
