(* ===== verification/BinaryFrames.v ===== *)
(** * Binary frames of the Controller socket
      (crates/treer-protocol/src/network.rs and terminal.rs)

    The byte format of network-stream and terminal frames: a fixed header with a version, a
    kind, a big-endian length of the identifier (and, for terminals, a revision), then the
    identifier and the payload.  Bytes are integers 0-255.  The two exactness theorems say that
    a sequence of bytes decodes to a frame just when the frame encodes to it. *)

From stdpp Require Import pretty.
From S2P Require Import Prelude RustStr Protocol HostProtocol.
Local Open Scope Z_scope.

(** ** Bytes and strings *)

Fixpoint str_bytes (s : string) : bytes :=
  match s with
  | EmptyString => []
  | String a s' => byte_val a :: str_bytes s'
  end.

Definition bytes_str (l : bytes) : string :=
  foldr (fun b s => String (Ascii.ascii_of_N (Z.to_N b)) s) EmptyString l.

(** [std::str::from_utf8] *)
Definition from_utf8 (l : bytes) : option string :=
  let s := bytes_str l in if valid_utf8 s then Some s else None.

(** [to_be_bytes] of an [n]-byte integer, and [from_be_bytes]. *)
Fixpoint to_be_bytes (n : nat) (z : Z) : bytes :=
  match n with
  | O => []
  | S n' => to_be_bytes n' (z / 256) ++ [z mod 256]
  end.
Definition from_be_bytes (l : bytes) : Z := foldl (fun acc b => acc * 256 + b) 0 l.

Definition blen (l : bytes) : Z := Z.of_nat (length l).
Definition byte_at (l : bytes) (i : nat) : Z := default 0 (l !! i).
(** The slice [l[a..b]]. *)
Definition slice (l : bytes) (a b : nat) : bytes := take (b - a) (drop a l).

Definition u16_max : Z := 2 ^ 16 - 1.

(** ** Network frames (network.rs) *)

Definition NETWORK_BINARY_VERSION : Z := 1.
Definition NETWORK_BINARY_MAGIC : bytes := [78; 69; 84].
Definition NETWORK_BINARY_HEADER_LEN : nat := 7.
Definition MAX_NETWORK_STREAM_ID_BYTES : Z := 128.
Definition MAX_NETWORK_PAYLOAD_BYTES : Z := 64 * 1024.

Inductive NetworkBinaryKind : Type :=
| NOpen | NOpened | NData | NWindowUpdate | NHalfClose | NReset | NDirect | NUsage
| NOpenDatagram | NUsageAck.

#[export] Instance NetworkBinaryKind_eq_dec : EqDecision NetworkBinaryKind.
Proof. solve_decision. Defined.

(** [self.kind as u8] *)
Definition network_kind_byte (k : NetworkBinaryKind) : Z :=
  match k with
  | NOpen => 1 | NOpened => 2 | NData => 3 | NWindowUpdate => 4 | NHalfClose => 5 | NReset => 6
  | NDirect => 7 | NUsage => 8 | NOpenDatagram => 9 | NUsageAck => 10
  end.

Definition network_error (message : string) : ProtocolError :=
  protocol_error "invalid_network_frame" message.

Definition network_kind_try_from (value : Z) : Result NetworkBinaryKind ProtocolError :=
  match value with
  | 1 => Ok NOpen | 2 => Ok NOpened | 3 => Ok NData | 4 => Ok NWindowUpdate | 5 => Ok NHalfClose
  | 6 => Ok NReset | 7 => Ok NDirect | 8 => Ok NUsage | 9 => Ok NOpenDatagram | 10 => Ok NUsageAck
  | _ => Err (network_error ("unknown network binary frame kind " +:+ pretty value))
  end.

Record NetworkBinaryFrame : Type := mkNetworkBinaryFrame {
  nf_kind : NetworkBinaryKind;
  nf_stream_id : string;
  nf_payload : bytes
}.

#[export] Instance NetworkBinaryFrame_eq_dec : EqDecision NetworkBinaryFrame.
Proof. solve_decision. Defined.

Definition is_network_frame (encoded : bytes) : bool :=
  bool_decide (take 3 encoded = NETWORK_BINARY_MAGIC).

Definition network_encode (f : NetworkBinaryFrame) : Result bytes ProtocolError :=
  let stream := str_bytes (nf_stream_id f) in
  (if u16_max <? blen stream then Err (network_error "network stream id is too long") else Ok tt) ;?
  (if blen stream =? 0 then Err (network_error "network stream id is empty") else Ok tt) ;?
  (if (MAX_NETWORK_STREAM_ID_BYTES <? blen stream)
      || (MAX_NETWORK_PAYLOAD_BYTES <? blen (nf_payload f))
   then Err (network_error "network frame exceeds its size limit") else Ok tt) ;?
  Ok (NETWORK_BINARY_MAGIC ++ [NETWORK_BINARY_VERSION] ++ [network_kind_byte (nf_kind f)]
      ++ to_be_bytes 2 (blen stream) ++ stream ++ nf_payload f).

Definition network_decode (encoded : bytes) : Result NetworkBinaryFrame ProtocolError :=
  (if (length encoded <? NETWORK_BINARY_HEADER_LEN)%nat
   then Err (network_error "network binary frame is shorter than its header") else Ok tt) ;?
  (if negb (is_network_frame encoded)
   then Err (network_error "network binary frame has an invalid magic value") else Ok tt) ;?
  (if negb (byte_at encoded 3 =? NETWORK_BINARY_VERSION)
   then Err (protocol_error "network_binary_version_mismatch"
               ("network binary frame uses version " +:+ pretty (byte_at encoded 3)
                +:+ ", expected " +:+ pretty NETWORK_BINARY_VERSION)) else Ok tt) ;?
  let? kind := network_kind_try_from (byte_at encoded 4) in
  let stream_len := from_be_bytes [byte_at encoded 5; byte_at encoded 6] in
  let payload_offset := Z.of_nat NETWORK_BINARY_HEADER_LEN + stream_len in
  (if blen encoded <? payload_offset
   then Err (network_error "network stream id exceeds the binary frame") else Ok tt) ;?
  (if stream_len =? 0 then Err (network_error "network stream id is empty") else Ok tt) ;?
  (if (MAX_NETWORK_STREAM_ID_BYTES <? stream_len)
      || (MAX_NETWORK_PAYLOAD_BYTES <? saturating_sub (blen encoded) payload_offset)
   then Err (network_error "network frame exceeds its size limit") else Ok tt) ;?
  let? stream_id := ok_or (from_utf8 (slice encoded 7 (Z.to_nat payload_offset)))
                      (network_error "network stream id is not UTF-8") in
  Ok (mkNetworkBinaryFrame kind stream_id (drop (Z.to_nat payload_offset) encoded)).

(** ** Terminal frames (terminal.rs) *)

Definition TERMINAL_BINARY_VERSION : Z := 1.
Definition TERMINAL_BINARY_HEADER_LEN : nat := 12.

Inductive TerminalBinaryKind : Type := TReady | TOutput | TInput.

#[export] Instance TerminalBinaryKind_eq_dec : EqDecision TerminalBinaryKind.
Proof. solve_decision. Defined.

Definition terminal_kind_byte (k : TerminalBinaryKind) : Z :=
  match k with TReady => 1 | TOutput => 2 | TInput => 3 end.

Definition terminal_error (message : string) : ProtocolError :=
  protocol_error "invalid_terminal_frame" message.

Definition terminal_kind_try_from (value : Z) : Result TerminalBinaryKind ProtocolError :=
  match value with
  | 1 => Ok TReady | 2 => Ok TOutput | 3 => Ok TInput
  | _ => Err (terminal_error ("unknown terminal binary frame kind " +:+ pretty value))
  end.

Record TerminalBinaryFrame : Type := mkTerminalBinaryFrame {
  tf_kind : TerminalBinaryKind;
  tf_session_id : string;
  tf_revision : Z;
  tf_payload : bytes
}.

#[export] Instance TerminalBinaryFrame_eq_dec : EqDecision TerminalBinaryFrame.
Proof. solve_decision. Defined.

Definition terminal_encode (f : TerminalBinaryFrame) : Result bytes ProtocolError :=
  let session := str_bytes (tf_session_id f) in
  (if u16_max <? blen session then Err (terminal_error "terminal session id is too long")
   else Ok tt) ;?
  (if blen session =? 0 then Err (terminal_error "terminal session id is empty") else Ok tt) ;?
  Ok ([TERMINAL_BINARY_VERSION] ++ [terminal_kind_byte (tf_kind f)] ++ to_be_bytes 2 (blen session)
      ++ to_be_bytes 8 (tf_revision f) ++ session ++ tf_payload f).

Definition terminal_decode (encoded : bytes) : Result TerminalBinaryFrame ProtocolError :=
  (if (length encoded <? TERMINAL_BINARY_HEADER_LEN)%nat
   then Err (terminal_error "terminal binary frame is shorter than its header") else Ok tt) ;?
  (if negb (byte_at encoded 0 =? TERMINAL_BINARY_VERSION)
   then Err (protocol_error "terminal_binary_version_mismatch"
               ("terminal binary frame uses version " +:+ pretty (byte_at encoded 0)
                +:+ ", expected " +:+ pretty TERMINAL_BINARY_VERSION)) else Ok tt) ;?
  let? kind := terminal_kind_try_from (byte_at encoded 1) in
  let session_len := from_be_bytes [byte_at encoded 2; byte_at encoded 3] in
  let payload_offset := Z.of_nat TERMINAL_BINARY_HEADER_LEN + session_len in
  (if blen encoded <? payload_offset
   then Err (terminal_error "terminal session id exceeds the binary frame") else Ok tt) ;?
  (if session_len =? 0 then Err (terminal_error "terminal session id is empty") else Ok tt) ;?
  let revision := from_be_bytes (slice encoded 4 12) in
  let? session_id := ok_or (from_utf8 (slice encoded 12 (Z.to_nat payload_offset)))
                       (terminal_error "terminal session id is not UTF-8") in
  Ok (mkTerminalBinaryFrame kind session_id revision (drop (Z.to_nat payload_offset) encoded)).

(** Takes the branch of a size check that arithmetic leaves. *)
Ltac pass_guards :=
  cbn [negb result_bind ok_or];
  repeat (match goal with
          | |- context [?a <? ?b] => destruct (Z.ltb_spec a b); [exfalso; lia|]
          | |- context [?a =? ?b] => destruct (Z.eqb_spec a b); [exfalso; lia|]
          end; cbn [orb negb result_bind ok_or]).

(** ** Bytes, strings and integers round-trip *)

Definition byte_ok (b : Z) : Prop := 0 <= b < 256.
#[export] Instance byte_ok_dec b : Decision (byte_ok b).
Proof. unfold byte_ok. apply _. Defined.

Lemma byte_val_ok a : byte_ok (byte_val a).
Proof. unfold byte_ok, byte_val. pose proof (Ascii.N_ascii_bounded a). lia. Qed.

Lemma str_bytes_ok s : Forall byte_ok (str_bytes s).
Proof. induction s; simpl; constructor; auto using byte_val_ok. Qed.

Lemma bytes_str_bytes s : bytes_str (str_bytes s) = s.
Proof.
  induction s as [|a s IH]; [done|]. simpl. f_equal; [|done].
  unfold byte_val. by rewrite N2Z.id, Ascii.ascii_N_embedding.
Qed.

Lemma str_bytes_str l : Forall byte_ok l -> str_bytes (bytes_str l) = l.
Proof.
  induction 1 as [|b l Hb _ IH]; [done|]. simpl. f_equal; [|done].
  unfold byte_val, byte_ok in *. rewrite Ascii.N_ascii_embedding by lia. lia.
Qed.

Lemma from_utf8_iff l s : Forall byte_ok l ->
  from_utf8 l = Some s <-> l = str_bytes s /\ valid_utf8 s = true.
Proof.
  intros Hl. unfold from_utf8. split.
  - case_match eqn:E; intros H; simplify_eq. by rewrite str_bytes_str.
  - intros [-> H]. by rewrite bytes_str_bytes, H.
Qed.

Lemma length_to_be_bytes n z : length (to_be_bytes n z) = n.
Proof. revert z. induction n; intros z; simpl; [done|]. rewrite length_app, IHn. simpl. lia. Qed.

Lemma from_be_bytes_snoc l b : from_be_bytes (l ++ [b]) = from_be_bytes l * 256 + b.
Proof. unfold from_be_bytes. by rewrite foldl_app. Qed.

Lemma from_to_be_bytes n z : 0 <= z < 256 ^ Z.of_nat n -> from_be_bytes (to_be_bytes n z) = z.
Proof.
  revert z. induction n as [|n IH]; intros z Hz.
  { change (256 ^ Z.of_nat 0) with 1 in Hz. assert (z = 0) as -> by lia. done. }
  simpl. rewrite from_be_bytes_snoc, IH.
  - pose proof (Z.div_mod z 256). lia.
  - rewrite Nat2Z.inj_succ, Z.pow_succ_r in Hz by lia.
    split; [apply Z.div_pos; lia|]. apply Z.div_lt_upper_bound; lia.
Qed.

Lemma to_from_be_bytes l : Forall byte_ok l -> to_be_bytes (length l) (from_be_bytes l) = l.
Proof.
  induction l as [|b l IH] using rev_ind; [done|]. intros [Hl Hb]%Forall_app.
  apply Forall_cons_1 in Hb as [Hb _]. unfold byte_ok in Hb.
  rewrite length_app, Nat.add_comm. simpl. rewrite from_be_bytes_snoc.
  rewrite Z.div_add_l by done.
  rewrite (Z.div_small b), Z.add_0_r by done.
  rewrite IH by done. f_equal. f_equal.
  rewrite Z.add_comm, Z.mod_add by done. by rewrite Z.mod_small.
Qed.

Lemma from_be_bytes_bound l : Forall byte_ok l -> 0 <= from_be_bytes l < 256 ^ Z.of_nat (length l).
Proof.
  induction l as [|b l IH] using rev_ind; [intros; cbv; done|]. intros [Hl Hb]%Forall_app.
  apply Forall_cons_1 in Hb as [Hb _]. unfold byte_ok in Hb. specialize (IH Hl).
  rewrite from_be_bytes_snoc, length_app, Nat.add_comm. simpl length.
  rewrite Nat2Z.inj_succ, Z.pow_succ_r; lia.
Qed.

Lemma to_be_bytes_ok n z : Forall byte_ok (to_be_bytes n z).
Proof.
  revert z. induction n; intros z; simpl; [constructor|].
  apply Forall_app. split; [done|]. constructor; [|constructor].
  unfold byte_ok. pose proof (Z.mod_pos_bound z 256). lia.
Qed.

Lemma slice_middle (h s p : bytes) :
  slice (h ++ s ++ p) (length h) (length h + length s) = s.
Proof.
  unfold slice. replace (length h + length s - length h)%nat with (length s) by lia.
  by rewrite drop_app_length, take_app_length.
Qed.

Lemma drop_middle (h s p : bytes) : drop (length h + length s) (h ++ s ++ p) = p.
Proof. by rewrite app_assoc, drop_app_length' by (rewrite length_app; lia). Qed.

(** A sequence cut at a header of known length and an identifier of announced length. *)
Lemma split_at (b : bytes) n m : (n + m <= length b)%nat ->
  exists h s p, b = h ++ s ++ p /\ length h = n /\ length s = m.
Proof.
  intros H. exists (take n b), (take m (drop n b)), (drop m (drop n b)).
  rewrite take_drop, take_drop, !length_take, length_drop. split_and!; [done|lia|lia].
Qed.

Lemma network_kind_iff v k : network_kind_try_from v = Ok k <-> v = network_kind_byte k.
Proof.
  split.
  - unfold network_kind_try_from. intros H. repeat case_match; simplify_eq; done.
  - intros ->. by destruct k.
Qed.

Lemma terminal_kind_iff v k : terminal_kind_try_from v = Ok k <-> v = terminal_kind_byte k.
Proof.
  split.
  - unfold terminal_kind_try_from. intros H. repeat case_match; simplify_eq; done.
  - intros ->. by destruct k.
Qed.

Lemma two_be_bytes a b : byte_ok a -> byte_ok b -> to_be_bytes 2 (from_be_bytes [a; b]) = [a; b].
Proof. intros Ha Hb. apply (to_from_be_bytes [a; b]). by constructor; [|constructor]. Qed.

Lemma u16_round n : 0 <= n <= u16_max ->
  exists a b, to_be_bytes 2 n = [a; b] /\ from_be_bytes [a; b] = n.
Proof.
  intros Hn. pose proof (from_to_be_bytes 2 n) as H. pose proof (length_to_be_bytes 2 n) as L.
  destruct (to_be_bytes 2 n) as [|a [|b [|]]] eqn:E; try done. exists a, b. split; [done|].
  apply H. unfold u16_max in Hn. change (256 ^ Z.of_nat 2) with (2 ^ 16). lia.
Qed.

Definition network_frame_ok (f : NetworkBinaryFrame) : Prop :=
  valid_utf8 (nf_stream_id f) = true /\ Forall byte_ok (nf_payload f).
Definition terminal_frame_ok (f : TerminalBinaryFrame) : Prop :=
  valid_utf8 (tf_session_id f) = true /\ 0 <= tf_revision f <= u64_max
  /\ Forall byte_ok (tf_payload f).

Lemma network_encode_iff f b :
  network_encode f = Ok b <->
  0 < blen (str_bytes (nf_stream_id f)) <= MAX_NETWORK_STREAM_ID_BYTES
  /\ blen (nf_payload f) <= MAX_NETWORK_PAYLOAD_BYTES
  /\ b = NETWORK_BINARY_MAGIC ++ [NETWORK_BINARY_VERSION] ++ [network_kind_byte (nf_kind f)]
         ++ to_be_bytes 2 (blen (str_bytes (nf_stream_id f))) ++ str_bytes (nf_stream_id f)
         ++ nf_payload f.
Proof.
  unfold network_encode, result_bind, u16_max, MAX_NETWORK_STREAM_ID_BYTES.
  set (n := blen (str_bytes (nf_stream_id f))). set (m := blen (nf_payload f)).
  destruct (Z.ltb_spec (2 ^ 16 - 1) n); [split; [done|lia]|].
  destruct (Z.eqb_spec n 0); [split; [done|lia]|].
  destruct (Z.ltb_spec 128 n); [split; [done|lia]|].
  destruct (Z.ltb_spec MAX_NETWORK_PAYLOAD_BYTES m); [split; [done|lia]|]. cbn [orb].
  assert (0 <= n) by (unfold n, blen; lia).
  split; [intros [= <-]; split_and!; lia || done|by intros (_ & _ & ->)].
Qed.

Lemma network_decode_encoded f b :
  network_frame_ok f -> network_encode f = Ok b -> network_decode b = Ok f.
Proof.
  intros [Hid Hp] (Hn & Hm & ->)%network_encode_iff.
  set (stream := str_bytes (nf_stream_id f)) in *.
  destruct (u16_round (blen stream)) as (hi & lo & Hbe & Hlen);
    [unfold u16_max, MAX_NETWORK_STREAM_ID_BYTES in *; lia|].
  rewrite Hbe.
  set (h := NETWORK_BINARY_MAGIC ++ [NETWORK_BINARY_VERSION]
            ++ [network_kind_byte (nf_kind f)] ++ [hi; lo]).
  change (network_decode (h ++ stream ++ nf_payload f) = Ok f). unfold network_decode.
  assert (length (h ++ stream ++ nf_payload f) = 7 + length stream + length (nf_payload f))%nat as Hl
    by (rewrite !length_app; simpl; lia).
  replace (length _ <? NETWORK_BINARY_HEADER_LEN)%nat with false
    by (symmetry; apply Nat.ltb_ge; unfold NETWORK_BINARY_HEADER_LEN; lia).
  change (is_network_frame _) with true. change (byte_at _ 3) with 1.
  change (byte_at _ 4) with (network_kind_byte (nf_kind f)).
  change (byte_at _ 5) with hi. change (byte_at _ 6) with lo. rewrite Hlen. cbn [negb result_bind].
  rewrite (proj2 (network_kind_iff _ _) eq_refl). cbn [result_bind].
  assert (Z.to_nat (Z.of_nat NETWORK_BINARY_HEADER_LEN + blen stream)
          = (length h + length stream)%nat) as ->
    by (change (length h) with 7%nat; unfold blen, NETWORK_BINARY_HEADER_LEN; lia).
  change 7%nat with (length h). rewrite slice_middle, drop_middle.
  unfold saturating_sub, NETWORK_BINARY_HEADER_LEN. unfold blen in *. rewrite Hl.
  rewrite (proj2 (from_utf8_iff stream (nf_stream_id f) (str_bytes_ok _))) by done.
  unfold MAX_NETWORK_STREAM_ID_BYTES, MAX_NETWORK_PAYLOAD_BYTES in *.
  change (1 =? NETWORK_BINARY_VERSION) with true. pass_guards. by destruct f.
Qed.

Lemma network_decode_sound b f :
  Forall byte_ok b -> network_decode b = Ok f ->
  network_encode f = Ok b /\ network_frame_ok f.
Proof.
  intros Hb. unfold network_decode.
  destruct (Nat.ltb_spec (length b) NETWORK_BINARY_HEADER_LEN) as [?|Hl]; [done|]. cbn [result_bind].
  destruct b as [|b0 [|b1 [|b2 [|b3 [|b4 [|b5 [|b6 rest]]]]]]];
    try (unfold NETWORK_BINARY_HEADER_LEN in Hl; simpl in Hl; lia). clear Hl.
  change (byte_at _ 3) with b3. change (byte_at _ 4) with b4.
  change (byte_at _ 5) with b5. change (byte_at _ 6) with b6.
  destruct (is_network_frame _) eqn:Hmagic; [|done].
  apply bool_decide_eq_true in Hmagic. injection Hmagic as -> -> ->.
  destruct (Z.eqb_spec b3 NETWORK_BINARY_VERSION) as [->|]; [|done]. cbn [negb result_bind].
  intros (kind & ->%network_kind_iff & Hk)%bind_ok_iff. revert Hk.
  rewrite !Forall_cons in Hb. destruct Hb as (_ & _ & _ & _ & _ & Hb5 & Hb6 & Hrest).
  set (n := from_be_bytes [b5; b6]). assert (0 <= n) as Hn.
  { apply (from_be_bytes_bound [b5; b6]). by constructor; [|constructor]. }
  set (all := 78 :: 69 :: 84 :: NETWORK_BINARY_VERSION :: network_kind_byte kind :: b5 :: b6 :: rest).
  assert (blen all = 7 + blen rest) as Hall by (unfold blen, all; cbn [length]; lia).
  destruct (Z.ltb_spec (blen all) (Z.of_nat NETWORK_BINARY_HEADER_LEN + n)) as [|Hfit]; [done|].
  destruct (Z.eqb_spec n 0); [done|].
  destruct (Z.ltb_spec MAX_NETWORK_STREAM_ID_BYTES n); [done|].
  destruct (Z.ltb_spec MAX_NETWORK_PAYLOAD_BYTES
              (saturating_sub (blen all) (Z.of_nat NETWORK_BINARY_HEADER_LEN + n))) as [|Hsz]; [done|].
  cbn [orb negb result_bind]. unfold NETWORK_BINARY_HEADER_LEN, saturating_sub in *.
  destruct (split_at rest 0 (Z.to_nat n)) as (h0 & s & p & -> & Hh0 & Hs);
    [unfold blen in *; lia|]. destruct h0; [|done]. simpl in *.
  apply Forall_app in Hrest as [Hrs Hrp].
  set (h := [78; 69; 84; NETWORK_BINARY_VERSION; network_kind_byte kind; b5; b6]).
  change all with (h ++ s ++ p).
  replace (Z.to_nat (Z.of_nat 7 + n)) with (length h + length s)%nat
    by (change (length h) with 7%nat; lia).
  change 7%nat with (length h). rewrite slice_middle, drop_middle.
  destruct (from_utf8 s) as [id|] eqn:Hu; [|done]. intros [= <-].
  apply from_utf8_iff in Hu as [-> Hv]; [|done]. split; [|done].
  apply network_encode_iff. cbn [nf_stream_id nf_payload nf_kind].
  assert (blen (str_bytes id) = n) as -> by (unfold blen; lia).
  unfold n. rewrite two_be_bytes by done. fold n.
  split_and!; [lia|lia|unfold blen in *; rewrite ?length_app in *; lia|done].
Qed.

(** The network frame format is exact: a sequence of bytes decodes to a frame (with a UTF-8
    stream identifier) just when the frame encodes to that sequence; decoding therefore accepts
    nothing but encodings, and no two byte sequences carry the same frame. *)
Theorem network_frame_exact b f :
  Forall byte_ok b -> network_frame_ok f -> network_decode b = Ok f <-> network_encode f = Ok b.
Proof.
  intros Hb Hf. split; [by intros [? _]%network_decode_sound|by apply network_decode_encoded].
Qed.

Lemma network_frame_exact_witness :
  network_decode [78; 69; 84; 1; 3; 0; 1; 97; 255] = Ok (mkNetworkBinaryFrame NData "a" [255]).
Proof.
  apply network_frame_exact; [|split; [reflexivity|]|vm_compute; reflexivity];
    apply (bool_decide_eq_true_1 _); vm_compute; reflexivity.
Defined.

Lemma terminal_encode_iff f b :
  terminal_encode f = Ok b <->
  0 < blen (str_bytes (tf_session_id f)) <= u16_max
  /\ b = [TERMINAL_BINARY_VERSION] ++ [terminal_kind_byte (tf_kind f)]
         ++ to_be_bytes 2 (blen (str_bytes (tf_session_id f))) ++ to_be_bytes 8 (tf_revision f)
         ++ str_bytes (tf_session_id f) ++ tf_payload f.
Proof.
  unfold terminal_encode, result_bind. set (n := blen (str_bytes (tf_session_id f))).
  destruct (Z.ltb_spec u16_max n); [split; [done|lia]|].
  destruct (Z.eqb_spec n 0); [split; [done|lia]|].
  assert (0 <= n) by (unfold n, blen; lia).
  split; [intros [= <-]; split; lia || done|by intros (_ & ->)].
Qed.

Lemma terminal_decode_encoded f b :
  terminal_frame_ok f -> terminal_encode f = Ok b -> terminal_decode b = Ok f.
Proof.
  intros (Hid & Hrev & Hp) (Hn & ->)%terminal_encode_iff.
  set (session := str_bytes (tf_session_id f)) in *.
  destruct (u16_round (blen session)) as (hi & lo & Hbe & Hlen); [lia|]. rewrite Hbe.
  pose proof (from_to_be_bytes 8 (tf_revision f)) as Hr.
  pose proof (length_to_be_bytes 8 (tf_revision f)) as Hr8.
  set (rev := to_be_bytes 8 (tf_revision f)) in *.
  set (h := [TERMINAL_BINARY_VERSION] ++ [terminal_kind_byte (tf_kind f)] ++ [hi; lo] ++ rev).
  assert (length h = 12%nat) as Hh by (simpl; lia).
  replace ([TERMINAL_BINARY_VERSION] ++ _) with (h ++ session ++ tf_payload f)
    by (unfold h; by rewrite <- !app_assoc).
  assert (length (h ++ session ++ tf_payload f) = 12 + length session + length (tf_payload f))%nat
    as Hl by (rewrite !length_app, Hh; lia).
  unfold terminal_decode.
  replace (length _ <? TERMINAL_BINARY_HEADER_LEN)%nat with false
    by (symmetry; apply Nat.ltb_ge; unfold TERMINAL_BINARY_HEADER_LEN; lia).
  change (byte_at _ 0) with 1. change (byte_at _ 1) with (terminal_kind_byte (tf_kind f)).
  change (byte_at _ 2) with hi. change (byte_at _ 3) with lo. rewrite Hlen.
  change (1 =? TERMINAL_BINARY_VERSION) with true. cbn [negb result_bind].
  rewrite (proj2 (terminal_kind_iff _ _) eq_refl). cbn [result_bind].
  replace (Z.to_nat (Z.of_nat TERMINAL_BINARY_HEADER_LEN + blen session))
    with (length h + length session)%nat by (rewrite Hh; unfold blen, TERMINAL_BINARY_HEADER_LEN; lia).
  assert (slice (h ++ session ++ tf_payload f) 4 12 = rev) as ->.
  { change (h ++ session ++ tf_payload f)
      with ([TERMINAL_BINARY_VERSION; terminal_kind_byte (tf_kind f); hi; lo]
            ++ rev ++ (session ++ tf_payload f)).
    replace 12%nat with (4 + length rev)%nat by lia. apply slice_middle. }
  rewrite Hr by (change (256 ^ Z.of_nat 8) with (2 ^ 64); unfold u64_max in *; lia).
  assert (slice (h ++ session ++ tf_payload f) 12 (length h + length session) = session) as ->
    by (rewrite <- (slice_middle h session (tf_payload f)) at 3; by rewrite Hh).
  rewrite drop_middle.
  rewrite (proj2 (from_utf8_iff session (tf_session_id f) (str_bytes_ok _))) by done.
  unfold TERMINAL_BINARY_HEADER_LEN. unfold blen in *. rewrite Hl. pass_guards. by destruct f.
Qed.

Lemma terminal_decode_sound b f :
  Forall byte_ok b -> terminal_decode b = Ok f ->
  terminal_encode f = Ok b /\ terminal_frame_ok f.
Proof.
  intros Hb. unfold terminal_decode.
  destruct (Nat.ltb_spec (length b) TERMINAL_BINARY_HEADER_LEN) as [?|Hl]; [done|]. cbn [result_bind].
  destruct b as [|b0 [|b1 [|b2 [|b3 rest]]]];
    try (unfold TERMINAL_BINARY_HEADER_LEN in Hl; simpl in Hl; lia).
  change (byte_at _ 0) with b0. change (byte_at _ 1) with b1.
  change (byte_at _ 2) with b2. change (byte_at _ 3) with b3.
  destruct (Z.eqb_spec b0 TERMINAL_BINARY_VERSION) as [->|]; [|done]. cbn [negb result_bind].
  intros (kind & ->%terminal_kind_iff & Hk)%bind_ok_iff. revert Hk.
  rewrite !Forall_cons in Hb. destruct Hb as (_ & _ & Hb2 & Hb3 & Hrest).
  set (n := from_be_bytes [b2; b3]).
  assert (0 <= n <= u16_max) as Hn.
  { unfold u16_max. pose proof (from_be_bytes_bound [b2; b3]) as H. simpl length in H.
    change (256 ^ Z.of_nat 2) with (2 ^ 16) in H. fold n in H.
    enough (0 <= n < 2 ^ 16) by lia. apply H. by constructor; [|constructor]. }
  set (all := TERMINAL_BINARY_VERSION :: terminal_kind_byte kind :: b2 :: b3 :: rest) in *.
  assert (blen all = 4 + blen rest) as Hall by (unfold blen, all; cbn [length]; lia).
  destruct (Z.ltb_spec (blen all) (Z.of_nat TERMINAL_BINARY_HEADER_LEN + n)) as [|Hfit]; [done|].
  destruct (Z.eqb_spec n 0); [done|]. cbn [negb result_bind].
  unfold TERMINAL_BINARY_HEADER_LEN in *.
  destruct (split_at rest 8 (Z.to_nat n)) as (rev & s & p & -> & Hrev & Hs);
    [unfold blen in *; lia|].
  rewrite !Forall_app in Hrest. destruct Hrest as (Hrr & Hrs & Hrp).
  set (h := [TERMINAL_BINARY_VERSION; terminal_kind_byte kind; b2; b3] ++ rev).
  assert (length h = 12%nat) as Hh by (simpl; lia).
  assert (slice all 4 12 = rev) as ->.
  { change all with ([TERMINAL_BINARY_VERSION; terminal_kind_byte kind; b2; b3] ++ rev ++ (s ++ p)).
    replace 12%nat with (4 + length rev)%nat by lia. apply slice_middle. }
  change all with (h ++ s ++ p).
  replace (Z.to_nat (Z.of_nat 12 + n)) with (length h + length s)%nat by lia.
  assert (slice (h ++ s ++ p) 12 (length h + length s) = s) as ->
    by (rewrite <- (slice_middle h s p) at 3; by rewrite Hh).
  rewrite drop_middle.
  destruct (from_utf8 s) as [id|] eqn:Hu; [|done]. intros [= <-].
  apply from_utf8_iff in Hu as [-> Hv]; [|done]. split.
  - apply terminal_encode_iff. cbn [tf_session_id tf_payload tf_kind tf_revision].
    assert (blen (str_bytes id) = n) as -> by (unfold blen; lia). split; [lia|].
    unfold n. rewrite two_be_bytes, <- Hrev, to_from_be_bytes by done. done.
  - unfold terminal_frame_ok. simpl. split_and!; [done| | |done].
    all: pose proof (from_be_bytes_bound rev Hrr) as H; rewrite Hrev in H;
      change (256 ^ Z.of_nat 8) with (2 ^ 64) in H; unfold u64_max; lia.
Qed.

(** The terminal frame format is exact: a sequence of bytes decodes to a frame (with a UTF-8
    session identifier and a 64-bit revision) just when the frame encodes to that sequence. *)
Theorem terminal_frame_exact b f :
  Forall byte_ok b -> terminal_frame_ok f -> terminal_decode b = Ok f <-> terminal_encode f = Ok b.
Proof.
  intros Hb Hf. split; [by intros [? _]%terminal_decode_sound|by apply terminal_decode_encoded].
Qed.

Lemma terminal_frame_exact_witness :
  terminal_decode [1; 2; 0; 1; 0; 0; 0; 0; 0; 0; 1; 2; 97; 255]
  = Ok (mkTerminalBinaryFrame TOutput "a" 258 [255]).
Proof.
  apply terminal_frame_exact; [|split; [reflexivity|split]|vm_compute; reflexivity];
    try (vm_compute; split; discriminate); apply (bool_decide_eq_true_1 _); vm_compute; reflexivity.
Defined.
