(* ===== verification/ProxyTypes.v ===== *)
(** * What the Proxy keeps and exchanges about machines and Agents
      (crates/treer-protocol/src/inventory.rs, transport.rs, workloads.rs; the types of
      crates/treer-proxy/src/state.rs and cluster.rs)

    Records have the source's fields.  A [serde_json::Value] the Proxy forwards without reading
    it is its text; a text frame holds the message that was serialised into it. *)

From S2P Require Import Prelude RustStr Protocol HostProtocol Activity BinaryFrames.
Local Open Scope Z_scope.

(** A JSON value that is only passed on. *)
Definition Value : Type := string.
(** [DateTime<Utc>] and [Instant], in nanoseconds. *)
Definition Time : Type := Z.
(** A [Uuid], as its simple form. *)
Definition Uuid : Type := string.

(** ** Inventory (inventory.rs) *)

Inductive ServerStatus : Type := Online | Offline.
#[export] Instance ServerStatus_eq_dec : EqDecision ServerStatus.
Proof. solve_decision. Defined.

Record WorkspaceInfo : Type := mkWorkspaceInfo {
  wi_workspace_id : string; wi_name : string; wi_created_at : Time
}.
#[export] Instance WorkspaceInfo_eq_dec : EqDecision WorkspaceInfo.
Proof. solve_decision. Defined.

Record BuildInfo : Type := mkBuildInfo { bi_version : string; bi_git_commit : string }.
#[export] Instance BuildInfo_eq_dec : EqDecision BuildInfo.
Proof. solve_decision. Defined.

Inductive MachineSupervisionMode : Type := SystemdUser | Launchd | Nohup | Foreground | Detached.
#[export] Instance MachineSupervisionMode_eq_dec : EqDecision MachineSupervisionMode.
Proof. solve_decision. Defined.

Record MachineSupervision : Type := mkMachineSupervision {
  su_mode : MachineSupervisionMode; su_fallback_reason : option string
}.
#[export] Instance MachineSupervision_eq_dec : EqDecision MachineSupervision.
Proof. solve_decision. Defined.

Record ServerInfo : Type := mkServerInfo {
  si_server_id : string;
  si_workspace_id : string;
  si_name : string;
  si_hostname : string;
  si_root : string;
  si_controller_build : BuildInfo;
  si_host_build : BuildInfo;
  si_supervision : option MachineSupervision;
  si_labels : gmap string string;
  si_available_agents : option (list string);
  si_status : ServerStatus;
  si_connected_at : Time;
  si_last_seen_at : Time;
  si_capabilities : list string
}.

Record AgentInterfaceDescriptor : Type := mkAgentInterfaceDescriptor {
  ai_protocol : string;
  ai_instance_id : string;
  ai_port : Z;
  ai_capabilities : list string;
  ai_ui_path : option string;
  ai_registered_at : Time;
  ai_origin_url : option string
}.

(** [AgentInterfaceDescriptor::supports] *)
Definition supports (d : AgentInterfaceDescriptor) (capability : string) : bool :=
  existsb (fun value => value =s capability) (ai_capabilities d).

Record AgentInfo : Type := mkAgentInfo {
  ag_path : option string;
  ag_agent_id : string;
  ag_run_generation : Z;
  ag_workspace_id : string;
  ag_server_id : string;
  ag_kind : string;
  ag_name : string;
  ag_cwd : string;
  ag_status : AgentStatus;
  ag_pid : option Z;
  ag_started_at : Time;
  ag_updated_at : Time;
  ag_exited_at : option Time;
  ag_exit_code : option Z;
  ag_output_revision : Z;
  ag_interface : option AgentInterfaceDescriptor
}.

Record WorkspaceSnapshot : Type := mkWorkspaceSnapshot {
  ws_snap_revision : Z;
  ws_snap_workspace : WorkspaceInfo;
  ws_snap_servers : list ServerInfo;
  ws_snap_agents : list AgentInfo
}.

(** Assignments to single fields. *)
Definition server_with_name (s : ServerInfo) (name : string) : ServerInfo :=
  mkServerInfo (si_server_id s) (si_workspace_id s) name (si_hostname s) (si_root s)
    (si_controller_build s) (si_host_build s) (si_supervision s) (si_labels s)
    (si_available_agents s) (si_status s) (si_connected_at s) (si_last_seen_at s) (si_capabilities s).
Definition server_with_status (s : ServerInfo) (status : ServerStatus) (seen : Time) : ServerInfo :=
  mkServerInfo (si_server_id s) (si_workspace_id s) (si_name s) (si_hostname s) (si_root s)
    (si_controller_build s) (si_host_build s) (si_supervision s) (si_labels s)
    (si_available_agents s) status (si_connected_at s) seen (si_capabilities s).
Definition server_with_connected (s : ServerInfo) (at_ : Time) : ServerInfo :=
  mkServerInfo (si_server_id s) (si_workspace_id s) (si_name s) (si_hostname s) (si_root s)
    (si_controller_build s) (si_host_build s) (si_supervision s) (si_labels s)
    (si_available_agents s) (si_status s) at_ (si_last_seen_at s) (si_capabilities s).
Definition server_with_capabilities (s : ServerInfo) (capabilities : list string) : ServerInfo :=
  mkServerInfo (si_server_id s) (si_workspace_id s) (si_name s) (si_hostname s) (si_root s)
    (si_controller_build s) (si_host_build s) (si_supervision s) (si_labels s)
    (si_available_agents s) (si_status s) (si_connected_at s) (si_last_seen_at s) capabilities.
Definition agent_with_name (a : AgentInfo) (name : string) : AgentInfo :=
  mkAgentInfo (ag_path a) (ag_agent_id a) (ag_run_generation a) (ag_workspace_id a) (ag_server_id a)
    (ag_kind a) name (ag_cwd a) (ag_status a) (ag_pid a) (ag_started_at a) (ag_updated_at a)
    (ag_exited_at a) (ag_exit_code a) (ag_output_revision a) (ag_interface a).
Definition agent_updated_at (a : AgentInfo) (at_ : Time) : AgentInfo :=
  mkAgentInfo (ag_path a) (ag_agent_id a) (ag_run_generation a) (ag_workspace_id a) (ag_server_id a)
    (ag_kind a) (ag_name a) (ag_cwd a) (ag_status a) (ag_pid a) (ag_started_at a) at_
    (ag_exited_at a) (ag_exit_code a) (ag_output_revision a) (ag_interface a).

(** ** Commands (workloads.rs) *)

Record AgentServerSnapshot : Type := mkAgentServerSnapshot {
  as_server : ServerInfo; as_agents : list AgentInfo
}.

Inductive AgentCommand : Type :=
| AppEnsureLifecycle (agent_id : string) (workload_credential : option string) (request : Value)
    (enabled start_missing : bool) (revision : Z)
| AppStartupCheck (agent_id : string) (request : Value)
| AppStartupUpdate (agent_id : string) (request : Value) (revision : Z)
| ControllerUpdateStart (version : string)
| ControllerUpdateStatus
| StartupAdminGet (agent_id : string)
| StartupAdminSet (agent_id : string) (request : Value)
| RestartWithStartup (agent_id : string) (request : Value)
| RestoreRuntime
| EnsureLifecycle (agent_id : string) (workload_credential : option string) (request : Value)
    (enabled start_missing : bool)
| Start (agent_id : string)
| Restart (agent_id : string)
| Create (agent_id workload_credential : string) (request : Value)
| CreationPlacementCheck
| FenceAbsentAgentReservation (agent_id : string)
| Prompt (agent_id text : string)
| SubmitPrompt (agent_id : string) (request : Value) (sender : option Value)
| QueueRead (agent_id : string)
| InterfaceStatus (agent_id : string)
| SubmissionRead (agent_id submission_id : string)
| QueueCancel (agent_id submission_id : string)
| Input (agent_id : string) (data : bytes)
| Read (agent_id : string) (lines : option Z)
| Transcript (agent_id : string) (cursor : option string) (limit : option Z)
| Stop (agent_id : string)
| AbortAgent (agent_id : string)
| StartupSet (agent_id : string) (request : Value)
| StartupGet (agent_id : string)
| StartupClear (agent_id : string)
| ProbeNetwork (host : string) (port timeout_ms : Z) (target_agent_id : option string)
| FetchServiceHttp (policy_schema_version : option Z) (port : Z) (path : string)
    (max_bytes timeout_ms : Z)
| Exec (request : Value)
| UploadBegin (upload_id directory file_name : string) (overwrite : bool) (size : option Z)
| UploadChunk (upload_id content_base64 : string) (offset : option Z)
| UploadPartCommit (upload_id : string) (offset length : Z) (sha256 : string)
| UploadResult (upload_id : string)
| UploadCommit (upload_id : string)
| UploadAbort (upload_id : string)
| FileTransfer (actor : Value) (authorized_path : string) (request : Value)
| FileTransferInfo
| MachineMetrics (window_seconds : Z)
| ShutdownMachine.

Definition CAPABILITY_WORKLOAD_CREATE_PLACEMENT : string := "workload.create-placement.v1".
Definition CAPABILITY_AGENT_RESERVATION_FENCE : string := "agent.reservation-fence.v1".
Definition CAPABILITY_AGENT_ABORT : string := "agent.abort.v1".
Definition CAPABILITY_AGENT_STARTUP : string := "agent.startup.v1".
Definition CAPABILITY_AGENT_STARTUP_ADMIN : string := "agent.startup-admin.v1".
Definition CAPABILITY_APP_UPDATE : string := "app.update.v1".
Definition CAPABILITY_AGENT_PROMPT_DELIVERY : string := "agent.prompt-delivery.v1".
Definition CAPABILITY_AGENT_LIFECYCLE : string := "agent.lifecycle.v1".
Definition CAPABILITY_MACHINE_EXEC : string := "machine.exec.v1".
Definition CAPABILITY_MACHINE_UPLOAD : string := "machine.upload.v1".
Definition CAPABILITY_MACHINE_UPLOAD_V3 : string := "machine.upload.v3".
Definition CAPABILITY_RUNTIME_RESTORE : string := "runtime.restore.v1".
Definition CAPABILITY_SERVICE_HTTP_FETCH : string := "service.http-fetch.v1".
Definition CAPABILITY_POLICY_PATH_RULES : string := "policy.path-rules.v2".
Definition CAPABILITY_MACHINE_FILE_TRANSFER : string := "machine.file-transfer.v1".
Definition CAPABILITY_MACHINE_METRICS : string := "machine.metrics.v1".
(** [controller_update::CAPABILITY] *)
Definition CAPABILITY_CONTROLLER_UPDATE : string := "machine.controller-update.v2".

Definition required_capability (c : AgentCommand) : option string :=
  match c with
  | FenceAbsentAgentReservation _ => Some CAPABILITY_AGENT_RESERVATION_FENCE
  | AppStartupCheck _ _ | AppStartupUpdate _ _ _ | AppEnsureLifecycle _ _ _ _ _ _ =>
      Some CAPABILITY_APP_UPDATE
  | Create _ _ _ | CreationPlacementCheck => Some CAPABILITY_WORKLOAD_CREATE_PLACEMENT
  | SubmitPrompt _ _ _ | QueueRead _ | InterfaceStatus _ | SubmissionRead _ _ | QueueCancel _ _ =>
      Some CAPABILITY_AGENT_PROMPT_DELIVERY
  | StartupAdminGet _ | StartupAdminSet _ _ | RestartWithStartup _ _ =>
      Some CAPABILITY_AGENT_STARTUP_ADMIN
  | EnsureLifecycle _ _ _ _ _ | Start _ | Restart _ => Some CAPABILITY_AGENT_LIFECYCLE
  | RestoreRuntime => Some CAPABILITY_RUNTIME_RESTORE
  | AbortAgent _ => Some CAPABILITY_AGENT_ABORT
  | StartupSet _ _ | StartupGet _ | StartupClear _ => Some CAPABILITY_AGENT_STARTUP
  | Exec _ => Some CAPABILITY_MACHINE_EXEC
  | ControllerUpdateStart _ | ControllerUpdateStatus => Some CAPABILITY_CONTROLLER_UPDATE
  | FileTransfer _ _ _ | FileTransferInfo => Some CAPABILITY_MACHINE_FILE_TRANSFER
  | MachineMetrics _ => Some CAPABILITY_MACHINE_METRICS
  | UploadBegin _ _ _ _ (Some _) | UploadChunk _ _ (Some _) | UploadPartCommit _ _ _ _
  | UploadResult _ => Some CAPABILITY_MACHINE_UPLOAD_V3
  | UploadBegin _ _ _ _ None | UploadChunk _ _ None | UploadCommit _ | UploadAbort _ =>
      Some CAPABILITY_MACHINE_UPLOAD
  | FetchServiceHttp (Some 2) _ _ _ _ => Some CAPABILITY_POLICY_PATH_RULES
  | FetchServiceHttp _ _ _ _ _ => Some CAPABILITY_SERVICE_HTTP_FETCH
  | Prompt _ _ | Input _ _ | Read _ _ | Transcript _ _ _ | Stop _ | ProbeNetwork _ _ _ _
  | ShutdownMachine => None
  end.

(** The Agent a command would create, which [send_local_command] looks up. *)
Definition creation_agent_id (c : AgentCommand) : option string :=
  match c with
  | Create agent_id _ _ | EnsureLifecycle agent_id _ _ _ _
  | AppEnsureLifecycle agent_id _ _ _ _ _ => Some agent_id
  | _ => None
  end.

Record CommandEnvelope : Type := mkCommandEnvelope {
  ce_command_id : string; ce_workspace_id : string; ce_command : AgentCommand
}.

(** ** Messages on the sockets (transport.rs) *)

Record CommandResult : Type := mkCommandResult {
  cr_command_id : string; cr_data : option Value; cr_error : option ProtocolError
}.
(** [CommandResult::failure] *)
Definition command_failure (command_id : string) (error : ProtocolError) : CommandResult :=
  mkCommandResult command_id None (Some error).

Record TerminalCursor : Type := mkTerminalCursor { tc_stream_epoch : string; tc_revision : Z }.

Inductive ProxyMessage : Type :=
| PMRegistered (protocol : Z) (capabilities : list string) (workspace_revision : Z)
| PMVirtualNetworkHosts (snapshot : Value)
| PMCommand (envelope : CommandEnvelope)
| PMTerminalAttach (session_id agent_id : string) (cols rows : Z) (cursor : option TerminalCursor)
| PMTerminalResize (session_id : string) (cols rows : Z)
| PMTerminalDetach (session_id : string)
| PMError (error : ProtocolError).

Inductive TerminalServerMessage : Type :=
| TMReady (session_id : string) (stream_epoch : option string) (revision : option Z) (gap : bool)
    (replay_chunks : option Z)
| TMCursor (stream_epoch : string) (revision : Z)
| TMClosed (reason : option string) (exit_code : option Z)
| TMError (error : ProtocolError).

(** The JSON data of a workspace event, by what is serialised. *)
Inductive EventData : Type :=
| EDWorkspace (info : WorkspaceInfo)
| EDServer (server : ServerInfo)
| EDAgent (agent : AgentInfo)
| EDServerDeleted (server : ServerInfo) (agent_ids : list string)
| EDServerId (server_id : string)
| EDServerStatus (server_id status : string)
| EDAgentId (agent_id : string)
| EDSignal (data : Value).

Record WorkspaceEvent : Type := mkWorkspaceEvent {
  we_revision : Z; we_workspace_id : string; we_event : string; we_data : EventData
}.

(** ** Cluster messages (cluster.rs) *)

Inductive TextMessage : Type :=
| TextProxy (m : ProxyMessage)
| TextTerminal (m : TerminalServerMessage).

Inductive SocketFrame : Type :=
| FText (text : TextMessage)
| FBinary (data : bytes)
| FPing (data : bytes)
| FPong (data : bytes)
| FClose.

Record ConnectionOwner : Type := mkConnectionOwner { co_proxy_id : string; co_connection_id : Uuid }.
#[export] Instance ConnectionOwner_eq_dec : EqDecision ConnectionOwner.
Proof. solve_decision. Defined.

Record ClusterServerSnapshot : Type := mkClusterServerSnapshot {
  cs_owner : ConnectionOwner; cs_revision : Z; cs_snapshot : AgentServerSnapshot
}.

Inductive ClusterSessionKind : Type := SessionTerminal.

Record ClusterSessionDelivery : Type := mkClusterSessionDelivery {
  sd_kind : ClusterSessionKind;
  sd_workspace_id : string;
  sd_server_id : string;
  sd_session_id : string;
  sd_revision : option Z;
  sd_cursor : bool;
  sd_close : bool;
  sd_frame : SocketFrame
}.

Inductive ClusterProjectionUpdate : Type :=
| WorkspaceUpsert (workspace : WorkspaceInfo)
| WorkspaceDeleted (workspace_id : string)
| ServerRenamed (workspace_id server_id name : string)
| AgentRenamed (workspace_id agent_id name : string)
| ServerDeleted (workspace_id server_id : string)
| AgentDeleted (workspace_id agent_id : string).
