(* ===== verification/ProxyState.v ===== *)
(** * The Proxy's live state (crates/treer-proxy/src/state.rs, state/core.rs, state/cluster.rs)

    Connected machines, their Agents and the workspace projections of one Proxy process.  Every
    field of [Inner] is behind its own lock in the source; a definition named [atom_...] is what
    one handler does while it holds one lock (or one channel operation), and a handler is the
    sequence of its atoms.  [World] holds what the process does to the outside: frames put on
    sockets, events published, command results handed out, calls to the cluster backplane.
    Timestamps and the backplane's answers are arguments. *)

From stdpp Require Import gmap sorting.
From S2P Require Import Prelude RustStr Protocol HostProtocol Activity BinaryFrames ProxyTypes.
Local Open Scope Z_scope.

(** ** State (state.rs) *)

(** Workspace and server identifier. *)
Definition ServerKey : Type := string * string.
(** The receiving end of a socket's or browser's queue. *)
Definition Channel : Type := string.
(** A [oneshot] receiver: the handler that waits for a command's result. *)
Definition Waiter : Type := nat.

Record ServerConnection : Type := mkServerConnection {
  sc_connection_id : Uuid;
  sc_controller_instance_id : string;
  sc_capabilities : gset string;
  sc_outgoing : Channel
}.

Record PendingCommand : Type := mkPendingCommand {
  pc_server : ServerKey;
  pc_encoded : CommandEnvelope;
  pc_required_capability : option string;
  pc_creation_agent_id : option string;
  pc_result : Waiter
}.

Record TerminalSession : Type := mkTerminalSession {
  ts_workspace_id : string;
  ts_server_id : string;
  ts_process_id : string;
  ts_outgoing : Channel;
  ts_last_revision : option Z;
  ts_stream_epoch : option string
}.

Record WorkspaceState : Type := mkWorkspaceState {
  w_info : WorkspaceInfo;
  w_revision : Z;
  w_servers : gmap string ServerInfo;
  w_agents : gmap string AgentInfo;
  w_server_names : gmap string string;
  w_agent_names : gmap string string;
  w_deleted_servers : gset string;
  w_deleted_agents : gset string
}.

(** Workspace, server and stream identifier. *)
Definition NetworkStreamKey : Type := string * string * string.

Record Inner : Type := mkInner {
  in_workspaces : gmap string WorkspaceState;
  in_connections : gmap ServerKey ServerConnection;
  in_snapshot_revisions : gmap ServerKey Z;
  in_leases : gmap ServerKey (Z * option Time);
  in_pending : gmap string PendingCommand;
  in_sessions : gmap string TerminalSession;
  in_streams : gmap NetworkStreamKey Channel
}.

(** A browser's bounded queue: what it has not received yet. *)
Record BrowserQueue : Type := mkBrowserQueue { bq_capacity : nat; bq_frames : list SocketFrame }.

(** A call to the cluster backplane. *)
Inductive ClusterCall : Type :=
| CallClaim (key : ServerKey) (connection_id : Uuid) (snapshot : AgentServerSnapshot)
| CallPublish (key : ServerKey) (connection_id : Uuid) (snapshot : AgentServerSnapshot)
| CallRelease (key : ServerKey) (connection_id : Uuid)
| CallProjection (update : ClusterProjectionUpdate)
| CallDeliver (target : string) (delivery : ClusterSessionDelivery)
| CallSocket (owner : ConnectionOwner) (key : ServerKey) (frame : SocketFrame)
| CallBroadcast (workspace_id : string) (frame : SocketFrame)
| CallNetwork (target : string) (key : ServerKey) (encoded : bytes).

(** What a handler of commands.rs holds between two of its locks: the socket it looked up and
    the command it is about to record, to send, or to send again. *)
Inductive Flight : Type :=
| FlightChecked (key : ServerKey) (channel : Channel) (envelope : CommandEnvelope)
| FlightPending (key : ServerKey) (channel : Channel) (envelope : CommandEnvelope)
| FlightTake (key : ServerKey) (channel : Channel) (capabilities : gset string)
| FlightResend (key : ServerKey) (channel : Channel) (envelope : CommandEnvelope)
    (creation : option string).

Record World : Type := mkWorld {
  wd_closed : gset Channel;                  (* receivers that were dropped *)
  wd_advertised : list (Channel * gset string);  (* capabilities registered for each socket *)
  wd_sent : list (Channel * SocketFrame);    (* frames put on machine sockets *)
  wd_queues : gmap Channel BrowserQueue;     (* browser queues; absent when dropped *)
  wd_events : list WorkspaceEvent;           (* the broadcast channel *)
  wd_bus : list WorkspaceEvent;              (* events handed to the event bus *)
  wd_results : list (Waiter * CommandResult);
  wd_calls : list ClusterCall;
  wd_flights : list Flight;
  wd_stream_frames : list (Channel * NetworkBinaryFrame)  (* frames put on network streams *)
}.

Record Proxy : Type := mkProxy { px_inner : Inner; px_world : World }.

Definition set_in_workspaces (s : Inner) v : Inner :=
  mkInner v (in_connections s) (in_snapshot_revisions s) (in_leases s) (in_pending s) (in_sessions s) (in_streams s).
Definition set_in_connections (s : Inner) v : Inner :=
  mkInner (in_workspaces s) v (in_snapshot_revisions s) (in_leases s) (in_pending s) (in_sessions s) (in_streams s).
Definition set_in_snapshot_revisions (s : Inner) v : Inner :=
  mkInner (in_workspaces s) (in_connections s) v (in_leases s) (in_pending s) (in_sessions s) (in_streams s).
Definition set_in_leases (s : Inner) v : Inner :=
  mkInner (in_workspaces s) (in_connections s) (in_snapshot_revisions s) v (in_pending s) (in_sessions s) (in_streams s).
Definition set_in_pending (s : Inner) v : Inner :=
  mkInner (in_workspaces s) (in_connections s) (in_snapshot_revisions s) (in_leases s) v (in_sessions s) (in_streams s).
Definition set_in_sessions (s : Inner) v : Inner :=
  mkInner (in_workspaces s) (in_connections s) (in_snapshot_revisions s) (in_leases s) (in_pending s) v (in_streams s).
Definition set_in_streams (s : Inner) v : Inner :=
  mkInner (in_workspaces s) (in_connections s) (in_snapshot_revisions s) (in_leases s) (in_pending s) (in_sessions s) v.
Definition set_wd_closed (s : World) v : World :=
  mkWorld v (wd_advertised s) (wd_sent s) (wd_queues s) (wd_events s) (wd_bus s) (wd_results s) (wd_calls s) (wd_flights s) (wd_stream_frames s).
Definition set_wd_advertised (s : World) v : World :=
  mkWorld (wd_closed s) v (wd_sent s) (wd_queues s) (wd_events s) (wd_bus s) (wd_results s) (wd_calls s) (wd_flights s) (wd_stream_frames s).
Definition set_wd_sent (s : World) v : World :=
  mkWorld (wd_closed s) (wd_advertised s) v (wd_queues s) (wd_events s) (wd_bus s) (wd_results s) (wd_calls s) (wd_flights s) (wd_stream_frames s).
Definition set_wd_queues (s : World) v : World :=
  mkWorld (wd_closed s) (wd_advertised s) (wd_sent s) v (wd_events s) (wd_bus s) (wd_results s) (wd_calls s) (wd_flights s) (wd_stream_frames s).
Definition set_wd_events (s : World) v : World :=
  mkWorld (wd_closed s) (wd_advertised s) (wd_sent s) (wd_queues s) v (wd_bus s) (wd_results s) (wd_calls s) (wd_flights s) (wd_stream_frames s).
Definition set_wd_bus (s : World) v : World :=
  mkWorld (wd_closed s) (wd_advertised s) (wd_sent s) (wd_queues s) (wd_events s) v (wd_results s) (wd_calls s) (wd_flights s) (wd_stream_frames s).
Definition set_wd_results (s : World) v : World :=
  mkWorld (wd_closed s) (wd_advertised s) (wd_sent s) (wd_queues s) (wd_events s) (wd_bus s) v (wd_calls s) (wd_flights s) (wd_stream_frames s).
Definition set_wd_calls (s : World) v : World :=
  mkWorld (wd_closed s) (wd_advertised s) (wd_sent s) (wd_queues s) (wd_events s) (wd_bus s) (wd_results s) v (wd_flights s) (wd_stream_frames s).
Definition set_wd_flights (s : World) v : World :=
  mkWorld (wd_closed s) (wd_advertised s) (wd_sent s) (wd_queues s) (wd_events s) (wd_bus s) (wd_results s) (wd_calls s) v (wd_stream_frames s).
Definition set_wd_stream_frames (s : World) v : World :=
  mkWorld (wd_closed s) (wd_advertised s) (wd_sent s) (wd_queues s) (wd_events s) (wd_bus s) (wd_results s) (wd_calls s) (wd_flights s) v.

Definition empty_inner : Inner := mkInner ∅ ∅ ∅ ∅ ∅ ∅ ∅.
Definition empty_world : World := mkWorld ∅ [] [] ∅ [] [] [] [] [] [].
(** [AppState::build] *)
Definition proxy_new : Proxy := mkProxy empty_inner empty_world.

(** What the cluster backplane answers while a handler runs ([ClusterBus]); without a backplane
    ([bp_distributed] false) claims, renewals and projections succeed. *)
Record Backplane : Type := mkBackplane {
  bp_distributed : bool;
  bp_instance_id : string;
  bp_owner : ServerKey -> Result (option ConnectionOwner) ProtocolError;
  bp_claim : Result unit ProtocolError;
  bp_publish : Result unit ProtocolError;
  bp_renew : Result bool ProtocolError;
  bp_projection : Result unit ProtocolError;
  bp_socket : Result unit ProtocolError;
  bp_deliver : Result unit ProtocolError
}.

Definition standalone (instance_id : string) : Backplane :=
  mkBackplane false instance_id (fun _ => Ok None) (Ok tt) (Ok tt) (Ok true) (Ok tt) (Ok tt) (Ok tt).

(** ** Programs on the state *)

Definition PM (A : Type) : Type := StM Proxy A ProtocolError.
Definition gets {A} (f : Inner -> A) : PM A := fun s => (Ok (f (px_inner s)), s).
Definition modify (f : Inner -> Inner) : PM unit := fun s => (Ok tt, mkProxy (f (px_inner s)) (px_world s)).
Definition effect (f : World -> World) : PM unit := fun s => (Ok tt, mkProxy (px_inner s) (f (px_world s))).
(** [let _ = m] on a result. *)
Definition ignore {A} (m : PM A) : PM unit := fun s => (Ok tt, (m s).2).
Fixpoint for_each {A} (f : A -> PM unit) (l : list A) : PM unit :=
  match l with
  | [] => st_ret tt
  | x :: l' => f x ;! for_each f l'
  end.

(** [UnboundedSender::send]: fails when the receiver is gone. *)
Definition atom_send (channel : Channel) (frame : SocketFrame) : PM bool := fun s =>
  if bool_decide (channel ∈ wd_closed (px_world s)) then (Ok false, s)
  else (Ok true, mkProxy (px_inner s)
                   (set_wd_sent (px_world s) (wd_sent (px_world s) ++ [(channel, frame)]))).

Inductive TrySend : Type := Sent | Full | Closed.

(** [Sender::try_send] of a bounded queue. *)
Definition try_send (channel : Channel) (frame : SocketFrame) (w : World) : TrySend * World :=
  match wd_queues w !! channel with
  | None => (Closed, w)
  | Some q =>
      if (bq_capacity q <=? length (bq_frames q))%nat then (Full, w)
      else (Sent, set_wd_queues w
                    (<[channel := mkBrowserQueue (bq_capacity q) (bq_frames q ++ [frame])]> (wd_queues w)))
  end.

Definition atom_send_terminal_to_browser (channel : Channel) (message : TerminalServerMessage) : PM unit :=
  effect (fun w => (try_send channel (FText (TextTerminal message)) w).2).

Definition atom_call (c : ClusterCall) : PM unit :=
  effect (fun w => set_wd_calls w (wd_calls w ++ [c])).

(** Sending on the broadcast channel of the process alone. *)
Definition atom_notify (event : WorkspaceEvent) : PM unit :=
  effect (fun w => set_wd_events w (wd_events w ++ [event])).

(** [publish_workspace_event]: also to the event bus. *)
Definition atom_publish_workspace_event (event : WorkspaceEvent) : PM unit :=
  effect (fun w => set_wd_bus (set_wd_events w (wd_events w ++ [event])) (wd_bus w ++ [event])).

(** ** Workspaces *)

Definition set_w_info (s : WorkspaceState) v : WorkspaceState :=
  mkWorkspaceState v (w_revision s) (w_servers s) (w_agents s) (w_server_names s) (w_agent_names s) (w_deleted_servers s) (w_deleted_agents s).
Definition set_w_revision (s : WorkspaceState) v : WorkspaceState :=
  mkWorkspaceState (w_info s) v (w_servers s) (w_agents s) (w_server_names s) (w_agent_names s) (w_deleted_servers s) (w_deleted_agents s).
Definition set_w_servers (s : WorkspaceState) v : WorkspaceState :=
  mkWorkspaceState (w_info s) (w_revision s) v (w_agents s) (w_server_names s) (w_agent_names s) (w_deleted_servers s) (w_deleted_agents s).
Definition set_w_agents (s : WorkspaceState) v : WorkspaceState :=
  mkWorkspaceState (w_info s) (w_revision s) (w_servers s) v (w_server_names s) (w_agent_names s) (w_deleted_servers s) (w_deleted_agents s).
Definition set_w_server_names (s : WorkspaceState) v : WorkspaceState :=
  mkWorkspaceState (w_info s) (w_revision s) (w_servers s) (w_agents s) v (w_agent_names s) (w_deleted_servers s) (w_deleted_agents s).
Definition set_w_agent_names (s : WorkspaceState) v : WorkspaceState :=
  mkWorkspaceState (w_info s) (w_revision s) (w_servers s) (w_agents s) (w_server_names s) v (w_deleted_servers s) (w_deleted_agents s).
Definition set_w_deleted_servers (s : WorkspaceState) v : WorkspaceState :=
  mkWorkspaceState (w_info s) (w_revision s) (w_servers s) (w_agents s) (w_server_names s) (w_agent_names s) v (w_deleted_agents s).
Definition set_w_deleted_agents (s : WorkspaceState) v : WorkspaceState :=
  mkWorkspaceState (w_info s) (w_revision s) (w_servers s) (w_agents s) (w_server_names s) (w_agent_names s) (w_deleted_servers s) v.

Definition workspace_new (info : WorkspaceInfo) : WorkspaceState :=
  mkWorkspaceState info 0 ∅ ∅ ∅ ∅ ∅ ∅.

Definition server_id_le (a b : ServerInfo) : Prop := String.le (si_server_id a) (si_server_id b).
#[export] Instance server_id_le_dec : RelDecision server_id_le.
Proof. intros a b. unfold server_id_le. apply _. Defined.
Definition agent_id_le (a b : AgentInfo) : Prop := String.le (ag_agent_id a) (ag_agent_id b).
#[export] Instance agent_id_le_dec : RelDecision agent_id_le.
Proof. intros a b. unfold agent_id_le. apply _. Defined.

(** [HashMap::values], in the order the map happens to have. *)
Definition values {V} (m : gmap string V) : list V := (map_to_list m).*2.

(** [WorkspaceState::snapshot] *)
Definition workspace_snapshot (w : WorkspaceState) : WorkspaceSnapshot :=
  mkWorkspaceSnapshot (w_revision w) (w_info w)
    (merge_sort server_id_le (values (w_servers w)))
    (merge_sort agent_id_le (values (w_agents w))).

(** The next revision, and the event that announces a change under it. *)
Definition bump (w : WorkspaceState) : WorkspaceState := set_w_revision w (saturating_add (w_revision w) 1).
Definition event_of (w : WorkspaceState) (workspace_id name : string) (data : EventData) : WorkspaceEvent :=
  mkWorkspaceEvent (w_revision w) workspace_id name data.

Definition not_found_workspace (workspace_id : string) : ProtocolError :=
  protocol_error "workspace_not_found" workspace_id.

(** A change of one workspace while the lock on the workspaces is held. *)
Definition with_workspace {A} (workspace_id : string)
    (f : WorkspaceState -> Result A ProtocolError * WorkspaceState) : PM A := fun s =>
  match in_workspaces (px_inner s) !! workspace_id with
  | None => (Err (not_found_workspace workspace_id), s)
  | Some w =>
      let '(r, w') := f w in
      (r, mkProxy (set_in_workspaces (px_inner s) (<[workspace_id := w']> (in_workspaces (px_inner s))))
            (px_world s))
  end.

(** The locked part of [mutate_workspace]. *)
Definition atom_mutate_workspace (workspace_id event_name : string) (payload : EventData)
    (mutation : WorkspaceState -> WorkspaceState) : PM WorkspaceEvent :=
  with_workspace workspace_id (fun w =>
    let w' := bump (mutation w) in (Ok (event_of w' workspace_id event_name payload), w')).

Definition mutate_workspace (workspace_id event_name : string) (payload : EventData)
    (mutation : WorkspaceState -> WorkspaceState) : PM WorkspaceEvent :=
  let! event := atom_mutate_workspace workspace_id event_name payload mutation in
  atom_publish_workspace_event event ;! st_ret event.

Definition workspace_revision (workspace_id : string) : PM (option Z) :=
  gets (fun i => w_revision <$> in_workspaces i !! workspace_id).

(** [publish_workspace_signal]: the revision under the lock, then the event. *)
Definition atom_signal (workspace_id : string) : PM (option Z) := fun s =>
  match in_workspaces (px_inner s) !! workspace_id with
  | None => (Ok None, s)
  | Some w =>
      (Ok (Some (w_revision (bump w))),
       mkProxy (set_in_workspaces (px_inner s) (<[workspace_id := bump w]> (in_workspaces (px_inner s))))
         (px_world s))
  end.

Definition publish_workspace_signal (workspace_id event : string) (data : Z -> Value) : PM (option Z) :=
  let! revision := atom_signal workspace_id in
  match revision with
  | None => st_ret None
  | Some r =>
      atom_publish_workspace_event (mkWorkspaceEvent r workspace_id event (EDSignal (data r))) ;!
      st_ret (Some r)
  end.

Definition allow_server_reenrollment (workspace_id server_id : string) : PM unit :=
  modify (fun i => set_in_workspaces i
    (alter (fun w => set_w_deleted_servers w (w_deleted_servers w ∖ {[server_id]})) workspace_id
       (in_workspaces i))).

(** The locked part of [upsert_workspace_info]. *)
Definition atom_upsert_workspace (info : WorkspaceInfo) (publish_change : bool)
  : PM (WorkspaceInfo * option WorkspaceEvent) := fun s =>
  let id := wi_workspace_id info in
  let w := default (workspace_new info) (in_workspaces (px_inner s) !! id) in
  let changed := publish_change && negb (bool_decide (w_info w = info)) in
  let w' := if changed then bump (set_w_info w info) else w in
  let event := if changed then Some (event_of w' id "workspace.renamed" (EDWorkspace info)) else None in
  (Ok (w_info w', event),
   mkProxy (set_in_workspaces (px_inner s) (<[id := w']> (in_workspaces (px_inner s)))) (px_world s)).

Definition upsert_workspace_info (info : WorkspaceInfo) (publish_change : bool) : PM WorkspaceInfo :=
  let! r := atom_upsert_workspace info publish_change in
  match r.2 with
  | Some event => atom_publish_workspace_event event
  | None => st_ret tt
  end ;!
  st_ret r.1.

Definition ensure_workspace_info (info : WorkspaceInfo) : PM WorkspaceInfo :=
  upsert_workspace_info info false.
Definition ensure_workspace (workspace_id name : string) (now : Time) : PM WorkspaceInfo :=
  ensure_workspace_info (mkWorkspaceInfo workspace_id name now).

Definition broadcast_projection (B : Backplane) (update : ClusterProjectionUpdate) : PM unit :=
  atom_call (CallProjection update) ;! st_lift (bp_projection B).

Definition atom_create_workspace (info : WorkspaceInfo) : PM unit := fun s =>
  let id := wi_workspace_id info in
  match in_workspaces (px_inner s) !! id with
  | Some _ => (Err (protocol_error "workspace_exists" ("workspace " +:+ id +:+ " already exists")), s)
  | None =>
      (Ok tt, mkProxy (set_in_workspaces (px_inner s)
                         (<[id := workspace_new info]> (in_workspaces (px_inner s)))) (px_world s))
  end.

Definition create_workspace_info (B : Backplane) (info : WorkspaceInfo) : PM WorkspaceInfo :=
  atom_create_workspace info ;!
  broadcast_projection B (WorkspaceUpsert info) ;! st_ret info.

Definition rename_workspace_info (B : Backplane) (info : WorkspaceInfo) : PM WorkspaceInfo :=
  upsert_workspace_info info true ;!
  broadcast_projection B (WorkspaceUpsert info) ;! st_ret info.

Definition snapshot (workspace_id : string) : PM WorkspaceSnapshot := fun s =>
  (ok_or (workspace_snapshot <$> in_workspaces (px_inner s) !! workspace_id)
     (protocol_error "workspace_not_found" ("workspace " +:+ workspace_id +:+ " does not exist")), s).

Definition platform_agent_count : PM Z :=
  gets (fun i => foldr (fun w n => Z.of_nat (size (w_agents w)) + n) 0 (values (in_workspaces i))).

(** [handle_cluster_workspace_broadcast]: the sockets of the workspace, then a send on each. *)
Definition workspace_sockets (workspace_id : string) (i : Inner) : list Channel :=
  (fun kc : ServerKey * ServerConnection => sc_outgoing kc.2)
    <$> List.filter (fun kc => kc.1.1 =s workspace_id) (map_to_list (in_connections i)).

Definition handle_cluster_workspace_broadcast (workspace_id : string) (frame : SocketFrame) : PM unit :=
  let! outgoing := gets (workspace_sockets workspace_id) in
  for_each (fun channel => ignore (atom_send channel frame)) outgoing.

Definition broadcast_proxy_message (workspace_id : string) (message : ProxyMessage) : PM unit :=
  let frame := FText (TextProxy message) in
  handle_cluster_workspace_broadcast workspace_id frame ;!
  atom_call (CallBroadcast workspace_id frame).

(** ** Connections (state/cluster.rs) *)

Definition server_outgoing (key : ServerKey) : PM (option Channel) :=
  gets (fun i => sc_outgoing <$> in_connections i !! key).

Definition require_current_connection (workspace_id server_id : string) (connection_id : Uuid) : PM unit :=
  fun s =>
  match in_connections (px_inner s) !! (workspace_id, server_id) with
  | Some connection =>
      if sc_connection_id connection =s connection_id then (Ok tt, s)
      else (Err (protocol_error "duplicate_machine_connection"
                   ("Controller " +:+ sc_controller_instance_id connection
                    +:+ " currently owns machine " +:+ server_id)), s)
  | None =>
      (Err (protocol_error "stale_connection"
              ("connection for " +:+ server_id +:+ " is no longer current")), s)
  end.

Definition server_offline (server_id : string) : ProtocolError :=
  protocol_error "server_offline" server_id.

Definition local_server_frame (workspace_id server_id : string) (expected_connection_id : option Uuid)
    (frame : SocketFrame) : PM unit :=
  let! connection := gets (fun i => opt_filter (fun c =>
      is_none_or expected_connection_id (fun expected => expected =s sc_connection_id c))
      (in_connections i !! (workspace_id, server_id))) in
  match connection with
  | None => st_throw (server_offline server_id)
  | Some c =>
      let! sent := atom_send (sc_outgoing c) frame in
      if (sent : bool) then st_ret tt else st_throw (server_offline server_id)
  end.

Definition handle_cluster_socket (workspace_id server_id : string) (connection_id : Uuid)
    (frame : SocketFrame) : PM unit :=
  local_server_frame workspace_id server_id (Some connection_id) frame.

Definition send_server_frame (B : Backplane) (workspace_id server_id : string) (frame : SocketFrame)
  : PM unit :=
  if negb (bp_distributed B) then local_server_frame workspace_id server_id None frame
  else
    let! owner := st_lift (bp_owner B (workspace_id, server_id)) in
    match owner with
    | None => st_throw (server_offline server_id)
    | Some owner =>
        if co_proxy_id owner =s bp_instance_id B
        then local_server_frame workspace_id server_id (Some (co_connection_id owner)) frame
        else atom_call (CallSocket owner (workspace_id, server_id) frame) ;! st_lift (bp_socket B)
    end.

(** [ClusterBus::release] *)
Definition cluster_release (key : ServerKey) (connection_id : Uuid) : PM unit :=
  atom_call (CallRelease key connection_id).

(** ** Closing what belongs to a machine or an Agent *)

Definition stream_of (key : ServerKey) (k : NetworkStreamKey) : bool := bool_decide (k.1 = key).

Definition atom_take_streams (key : ServerKey) : PM (list (NetworkStreamKey * Channel)) := fun s =>
  let streams := in_streams (px_inner s) in
  (Ok (map_to_list (filter (fun kc => stream_of key kc.1 = true) streams)),
   mkProxy (set_in_streams (px_inner s) (filter (fun kc => stream_of key kc.1 = false) streams))
     (px_world s)).

Definition atom_send_stream (channel : Channel) (frame : NetworkBinaryFrame) : PM unit :=
  effect (fun w => if bool_decide (channel ∈ wd_closed w) then w
                   else set_wd_stream_frames w (wd_stream_frames w ++ [(channel, frame)])).

(** The JSON text of a [ProtocolError] in a reset frame ([serde_json::to_vec]). *)
Class ErrorCodec : Type := error_bytes : ProtocolError -> bytes.

Section Handlers.
Context {Codec : ErrorCodec}.

Definition close_server_network_streams (workspace_id server_id : string) : PM unit :=
  let! streams := atom_take_streams (workspace_id, server_id) in
  for_each (fun kc : NetworkStreamKey * Channel =>
    atom_send_stream kc.2 (mkNetworkBinaryFrame NReset kc.1.2
      (error_bytes (protocol_error "server_offline" "agent server disconnected")))) streams.

(** Removing the sessions of a machine; their senders are returned. *)
Definition session_of (key : ServerKey) (t : TerminalSession) : bool :=
  bool_decide ((ts_workspace_id t, ts_server_id t) = key).

Definition atom_take_sessions (key : ServerKey) : PM (list TerminalSession) := fun s =>
  let sessions := in_sessions (px_inner s) in
  (Ok (values (filter (fun kt => session_of key kt.2 = true) sessions)),
   mkProxy (set_in_sessions (px_inner s) (filter (fun kt => session_of key kt.2 = false) sessions))
     (px_world s)).

Definition close_terminals (reason : string) (terminals : list TerminalSession) : PM unit :=
  for_each (fun t => atom_send_terminal_to_browser (ts_outgoing t) (TMClosed (Some reason) None)) terminals.

Definition close_server_sessions (workspace_id server_id reason : string) : PM unit :=
  let! disconnected := atom_take_sessions (workspace_id, server_id) in
  close_terminals reason disconnected ;!
  close_server_network_streams workspace_id server_id.

Definition atom_remove_session (session_id : string) : PM (option TerminalSession) := fun s =>
  (Ok (in_sessions (px_inner s) !! session_id),
   mkProxy (set_in_sessions (px_inner s) (delete session_id (in_sessions (px_inner s)))) (px_world s)).

Definition detach_terminal (B : Backplane) (session_id : string) : PM unit :=
  let! session := atom_remove_session session_id in
  match session with
  | None => st_ret tt
  | Some t =>
      ignore (send_server_frame B (ts_workspace_id t) (ts_server_id t)
                (FText (TextProxy (PMTerminalDetach session_id))))
  end.

Definition agent_sessions (workspace_id agent_id : string) (i : Inner) : list (string * Channel) :=
  (fun kt : string * TerminalSession => (kt.1, ts_outgoing kt.2)) <$>
    List.filter (fun kt => (ts_workspace_id kt.2 =s workspace_id) && (ts_process_id kt.2 =s agent_id))
      (map_to_list (in_sessions i)).

Definition close_agent_terminals (B : Backplane) (workspace_id agent_id : string) : PM unit :=
  let! sessions := gets (agent_sessions workspace_id agent_id) in
  for_each (fun kc : string * Channel =>
    atom_send_terminal_to_browser kc.2 (TMClosed (Some "agent deleted") None) ;!
    detach_terminal B kc.1) sessions.

Definition atom_remove_connection (key : ServerKey) : PM (option ServerConnection) := fun s =>
  (Ok (in_connections (px_inner s) !! key),
   mkProxy (set_in_connections (px_inner s) (delete key (in_connections (px_inner s)))) (px_world s)).

(** Removing the pending commands of a machine; their waiters get [error].  (The handler owns the
    removed senders, so it does not matter that it sends after it has released the lock.) *)
Definition pending_of (key : ServerKey) (c : PendingCommand) : bool := bool_decide (pc_server c = key).

Definition fail_all (error : PendingCommand -> ProtocolError) (gone : gmap string PendingCommand)
  : list (Waiter * CommandResult) :=
  (fun ic : string * PendingCommand => (pc_result ic.2, command_failure ic.1 (error ic.2)))
    <$> map_to_list gone.

Definition push_results (new : list (Waiter * CommandResult)) (w : World) : World :=
  set_wd_results w (wd_results w ++ new).

Definition atom_cancel_pending (key : ServerKey) (error : ProtocolError) : PM unit := fun s =>
  let pending := in_pending (px_inner s) in
  (Ok tt, mkProxy (set_in_pending (px_inner s) (filter (fun kc => pending_of key kc.2 = false) pending))
            (push_results (fail_all (fun _ => error) (filter (fun kc => pending_of key kc.2 = true) pending))
               (px_world s))).

Definition release_connection (key : ServerKey) : PM unit :=
  let! connection := atom_remove_connection key in
  match connection with
  | None => st_ret tt
  | Some c => cluster_release key (sc_connection_id c) ;! ignore (atom_send (sc_outgoing c) FClose)
  end.

Definition release_server_runtime (workspace_id server_id terminal_reason pending_error : string)
  : PM unit :=
  let key := (workspace_id, server_id) in
  release_connection key ;!
  atom_cancel_pending key (protocol_error pending_error server_id) ;!
  let! terminals := atom_take_sessions key in
  close_terminals terminal_reason terminals ;!
  close_server_network_streams workspace_id server_id.

(** ** Machines (state/core.rs) *)

Definition READ_MODEL_CAPABILITIES : list string :=
  [CAPABILITY_CONTROLLER_UPDATE; CAPABILITY_MACHINE_UPLOAD; CAPABILITY_MACHINE_UPLOAD_V3;
   CAPABILITY_MACHINE_METRICS].

(** [Vec::dedup] *)
Fixpoint dedup (l : list string) : list string :=
  match l with
  | [] => []
  | x :: l' =>
      match l' with
      | [] => [x]
      | y :: _ => if x =s y then dedup l' else x :: dedup l'
      end
  end.

Definition read_model_capabilities (capabilities : list string) : list string :=
  dedup (merge_sort String.le
    (List.filter (fun c => bool_decide (c ∈ READ_MODEL_CAPABILITIES)) capabilities)).

(** [server_snapshot]: the machine and its Agents as the Proxy knows them. *)
Definition server_snapshot (workspace_id server_id : string) : PM AgentServerSnapshot := fun s =>
  (match in_workspaces (px_inner s) !! workspace_id with
   | None => Err (not_found_workspace workspace_id)
   | Some w =>
       let? server := ok_or (w_servers w !! server_id) (protocol_error "server_not_found" server_id) in
       Ok (mkAgentServerSnapshot server
             (List.filter (fun a => ag_server_id a =s server_id) (values (w_agents w))))
   end, s).

(** The first check of a registration. *)
Definition check_not_deleted (workspace_id server_id : string) : PM unit := fun s =>
  (if is_some_and (in_workspaces (px_inner s) !! workspace_id)
        (fun w => bool_decide (server_id ∈ w_deleted_servers w))
   then Err (protocol_error "server_deleted" ("server " +:+ server_id +:+ " was deleted"))
   else Ok tt, s).

Definition atom_connect (key : ServerKey) (connection : ServerConnection) : PM (option ServerConnection) :=
  fun s =>
  (Ok (in_connections (px_inner s) !! key),
   mkProxy (set_in_connections (px_inner s) (<[key := connection]> (in_connections (px_inner s))))
     (set_wd_advertised (px_world s)
        (wd_advertised (px_world s) ++ [(sc_outgoing connection, sc_capabilities connection)]))).

Definition registered_server (server : ServerInfo) (capabilities : list string) (now : Time) : ServerInfo :=
  server_with_capabilities
    (server_with_connected (server_with_status server Online now) now)
    (read_model_capabilities capabilities).

(** The previous connection of a machine is told that it was replaced. *)
Definition notify_replaced (replaced : option ServerConnection) (controller_instance_id server_id : string)
  : PM unit :=
  match replaced with
  | None => st_ret tt
  | Some r =>
      ignore (atom_send (sc_outgoing r) (FText (TextProxy (PMError
        (protocol_error "duplicate_machine_connection"
           ("Controller " +:+ controller_instance_id +:+ " replaced this connection for " +:+ server_id)))))) ;!
      ignore (atom_send (sc_outgoing r) FClose)
  end.

(** The last part of a registration: the claim of the machine's lease. *)
Definition claim_server (B : Backplane) (key : ServerKey) (connection_id : Uuid) : PM unit :=
  let! snap := server_snapshot key.1 key.2 in
  atom_call (CallClaim key connection_id snap) ;!
  match bp_claim B with
  | Ok _ => st_ret tt
  | Err error => atom_remove_connection key ;! st_throw error
  end.

(** The first part of a registration: the workspace, and the check of the tombstone. *)
Definition register_check (server : ServerInfo) (created : Time) : PM unit :=
  ensure_workspace (si_workspace_id server) (si_workspace_id server) created ;!
  check_not_deleted (si_workspace_id server) (si_server_id server).

(** The second part: the connection, and the machine in the inventory. *)
Definition register_connect (server : ServerInfo) (connection_id : Uuid) (controller_instance_id : string)
    (capabilities : list string) (outgoing : Channel) (now : Time) : PM WorkspaceEvent :=
  let workspace_id := si_workspace_id server in
  let server_id := si_server_id server in
  let server := registered_server server capabilities now in
  let! replaced := atom_connect (workspace_id, server_id)
    (mkServerConnection connection_id controller_instance_id (list_to_set capabilities) outgoing) in
  notify_replaced replaced controller_instance_id server_id ;!
  mutate_workspace workspace_id "server.updated" (EDServer server)
    (fun w => set_w_servers w (<[server_id := server]> (w_servers w))).

Definition register_server_instance_with_capabilities (B : Backplane) (server : ServerInfo)
    (connection_id : Uuid) (controller_instance_id : string) (capabilities : list string)
    (outgoing : Channel) (created now : Time) : PM Z :=
  register_check server created ;!
  let! event := register_connect server connection_id controller_instance_id capabilities outgoing now in
  claim_server B (si_workspace_id server, si_server_id server) connection_id ;!
  st_ret (we_revision event).

(** ** Snapshots and Agent events of a Controller (state/core.rs) *)

(** The names the Proxy keeps for the Agents of a machine (an Agent is stored under its own
    identifier). *)
Definition known_names (server_id : string) (w : WorkspaceState) : gmap string string :=
  ag_name <$> filter (fun ka => ag_server_id ka.2 = server_id) (w_agents w).

(** [agents.retain(|_, agent| agent.server_id != server_id)] *)
Definition drop_agents_of (server_id : string) (w : WorkspaceState) : WorkspaceState :=
  set_w_agents w (filter (fun ka => ag_server_id ka.2 <> server_id) (w_agents w)).

Definition put_agent (w : WorkspaceState) (agent : AgentInfo) : WorkspaceState :=
  set_w_agents w (<[ag_agent_id agent := agent]> (w_agents w)).

(** One Agent of a Controller's snapshot. *)
Definition take_snapshot_agent (workspace_id server_id : string) (names : gmap string string)
    (w : WorkspaceState) (agent : AgentInfo) : WorkspaceState :=
  if (ag_workspace_id agent =s workspace_id) && (ag_server_id agent =s server_id)
     && negb (bool_decide (ag_agent_id agent ∈ w_deleted_agents w))
  then put_agent w (agent_with_name agent (default (ag_name agent) (names !! ag_agent_id agent)))
  else w.

Definition snapshot_server (w : WorkspaceState) (server : ServerInfo) (live : option (list string))
  : ServerInfo :=
  let server := match w_servers w !! si_server_id server with
                | Some current =>
                    let server := server_with_name server (si_name current) in
                    if is_some live then server
                    else server_with_capabilities server (si_capabilities current)
                | None => server
                end in
  match live with
  | Some capabilities => server_with_capabilities server capabilities
  | None => server
  end.

Definition atom_apply_snapshot (server : ServerInfo) (agents : list AgentInfo)
    (live : option (list string)) : PM WorkspaceEvent :=
  let workspace_id := si_workspace_id server in
  let server_id := si_server_id server in
  with_workspace workspace_id (fun w =>
    if bool_decide (server_id ∈ w_deleted_servers w)
    then (Err (protocol_error "server_deleted" server_id), w)
    else
      let server := snapshot_server w server live in
      let w1 := set_w_servers w (<[server_id := server]> (w_servers w)) in
      let names := known_names server_id w1 in
      let w2 := foldl (take_snapshot_agent workspace_id server_id names) (drop_agents_of server_id w1) agents in
      let w3 := bump w2 in
      (Ok (event_of w3 workspace_id "server.snapshot" (EDServer server)), w3)).

Definition live_capabilities (key : ServerKey) : PM (option (list string)) :=
  gets (fun i => (fun c => read_model_capabilities (elements (sc_capabilities c)))
                   <$> in_connections i !! key).

(** [publish_snapshot] of the cluster, with what the Proxy now knows of the machine. *)
Definition cluster_publish (B : Backplane) (workspace_id server_id : string) (connection_id : Uuid) : PM unit :=
  let! snap := server_snapshot workspace_id server_id in
  atom_call (CallPublish (workspace_id, server_id) connection_id snap) ;!
  st_lift (bp_publish B).

Definition atom_heartbeat (workspace_id server_id : string) (now : Time) : PM unit :=
  with_workspace workspace_id (fun w =>
    match w_servers w !! server_id with
    | None => (Err (protocol_error "server_not_found" server_id), w)
    | Some server =>
        (Ok tt, set_w_servers w (<[server_id := server_with_status server Online now]> (w_servers w)))
    end).

Definition heartbeat (B : Backplane) (workspace_id server_id : string) (connection_id : Uuid) (now : Time)
  : PM unit :=
  require_current_connection workspace_id server_id connection_id ;!
  atom_heartbeat workspace_id server_id now ;!
  let! renewed := st_lift (bp_renew B) in
  if (renewed : bool) then st_ret tt
  else st_throw (protocol_error "duplicate_machine_connection"
                   ("another Controller currently owns machine " +:+ server_id
                    +:+ "; stopping this duplicate connection")).

Definition atom_agent_event (agent : AgentInfo) : PM (option WorkspaceEvent) :=
  with_workspace (ag_workspace_id agent) (fun w =>
    if bool_decide (ag_server_id agent ∈ w_deleted_servers w)
    then (Err (protocol_error "server_deleted" (ag_server_id agent)), w)
    else if bool_decide (ag_agent_id agent ∈ w_deleted_agents w) then (Ok None, w)
    else
      let agent := match w_agents w !! ag_agent_id agent with
                   | Some current => agent_with_name agent (ag_name current)
                   | None => agent
                   end in
      let w' := bump (put_agent w agent) in
      (Ok (Some (event_of w' (ag_workspace_id agent) "agent.updated" (EDAgent agent))), w')).

Definition apply_agent_event (B : Backplane) (connection_id : Uuid) (agent : AgentInfo) : PM unit :=
  require_current_connection (ag_workspace_id agent) (ag_server_id agent) connection_id ;!
  let! event := atom_agent_event agent in
  match event with
  | None => st_ret tt
  | Some event =>
      atom_publish_workspace_event event ;!
      cluster_publish B (ag_workspace_id agent) (ag_server_id agent) connection_id
  end.


(** ** Deleting, renaming and resolving (state/core.rs) *)

Definition remove_agent (w : WorkspaceState) (agent_id : string) : WorkspaceState :=
  set_w_agent_names (set_w_agents w (delete agent_id (w_agents w))) (delete agent_id (w_agent_names w)).
Definition bury_agent (w : WorkspaceState) (agent_id : string) : WorkspaceState :=
  set_w_deleted_agents (remove_agent w agent_id) ({[agent_id]} ∪ w_deleted_agents w).

Definition restore_deleted_agents (workspace_id : string) (agent_ids : list string) : PM unit :=
  with_workspace workspace_id (fun w => (Ok tt, foldl bury_agent w agent_ids)).

Definition atom_delete_agent (workspace_id agent_id : string) : PM (AgentInfo * WorkspaceEvent) :=
  with_workspace workspace_id (fun w =>
    match w_agents w !! agent_id with
    | None => (Err (protocol_error "agent_not_found" agent_id), w)
    | Some agent =>
        let w' := bump (bury_agent w agent_id) in
        (Ok (agent, event_of w' workspace_id "agent.deleted" (EDAgent agent)), w')
    end).

Definition delete_agent (B : Backplane) (workspace_id agent_id : string) : PM AgentInfo :=
  let! r := atom_delete_agent workspace_id agent_id in
  atom_publish_workspace_event r.2 ;!
  broadcast_projection B (AgentDeleted workspace_id agent_id) ;!
  close_agent_terminals B workspace_id agent_id ;!
  st_ret r.1.

(** Resolving a machine or an Agent: by identifier, else by a name only one of them has. *)
Definition resolve_named {V} (m : gmap string V) (name_of : V -> string) (target : string)
    (missing ambiguous : ProtocolError) : Result V ProtocolError :=
  match m !! target with
  | Some v => Ok v
  | None =>
      match List.filter (fun v => name_of v =s target) (values m) with
      | [] => Err missing
      | [v] => Ok v
      | _ => Err ambiguous
      end
  end.

Definition resolve_server (workspace_id target : string) : PM ServerInfo := fun s =>
  (let? w := ok_or (in_workspaces (px_inner s) !! workspace_id) (not_found_workspace workspace_id) in
   resolve_named (w_servers w) si_name target (protocol_error "server_not_found" target)
     (protocol_error "server_ambiguous"
        ("more than one machine is named " +:+ target +:+ "; use a server id")), s).

Definition resolve_agent (workspace_id target : string) : PM AgentInfo := fun s =>
  (let? w := ok_or (in_workspaces (px_inner s) !! workspace_id) (not_found_workspace workspace_id) in
   resolve_named (w_agents w) ag_name target (protocol_error "agent_not_found" target)
     (protocol_error "agent_ambiguous"
        ("more than one agent is named " +:+ target +:+ "; use an agent id")), s).

Definition atom_rename_server (workspace_id server_id name : string) : PM (ServerInfo * WorkspaceEvent) :=
  with_workspace workspace_id (fun w =>
    match w_servers w !! server_id with
    | None => (Err (protocol_error "server_not_found" server_id), w)
    | Some server =>
        let server := server_with_name server name in
        let w' := bump (set_w_server_names (set_w_servers w (<[server_id := server]> (w_servers w)))
                          (<[server_id := name]> (w_server_names w))) in
        (Ok (server, event_of w' workspace_id "server.renamed" (EDServer server)), w')
    end).

Definition rename_server (B : Backplane) (workspace_id server_id name : string) : PM ServerInfo :=
  let! r := atom_rename_server workspace_id server_id name in
  atom_publish_workspace_event r.2 ;!
  broadcast_projection B (ServerRenamed workspace_id server_id (si_name r.1)) ;!
  st_ret r.1.

Definition atom_delete_server (workspace_id server_id : string)
  : PM (ServerInfo * list AgentInfo * WorkspaceEvent) :=
  with_workspace workspace_id (fun w =>
    match w_servers w !! server_id with
    | None => (Err (protocol_error "server_not_found" server_id), w)
    | Some server =>
        let w1 := set_w_deleted_servers
                    (set_w_server_names (set_w_servers w (delete server_id (w_servers w)))
                       (delete server_id (w_server_names w)))
                    ({[server_id]} ∪ w_deleted_servers w) in
        let agent_ids := ag_agent_id <$>
              List.filter (fun a => ag_server_id a =s server_id) (values (w_agents w1)) in
        let agents := omap (fun id => w_agents w1 !! id) agent_ids in
        let w2 := bump (foldl bury_agent w1 agent_ids) in
        (Ok (server, agents,
             event_of w2 workspace_id "server.deleted" (EDServerDeleted server agent_ids)), w2)
    end).

Definition delete_server (B : Backplane) (workspace_id server_id : string)
  : PM (ServerInfo * list AgentInfo) :=
  let! r := atom_delete_server workspace_id server_id in
  atom_publish_workspace_event r.2 ;!
  release_server_runtime workspace_id server_id "machine deleted" "server_deleted" ;!
  broadcast_projection B (ServerDeleted workspace_id server_id) ;!
  st_ret r.1.

Definition atom_remove_workspace (workspace_id : string) : PM (option WorkspaceState) := fun s =>
  (Ok (in_workspaces (px_inner s) !! workspace_id),
   mkProxy (set_in_workspaces (px_inner s) (delete workspace_id (in_workspaces (px_inner s)))) (px_world s)).

(** Announcing a deleted workspace and releasing its machines. *)
Definition bury_workspace (workspace_id : string) (w : WorkspaceState) : PM unit :=
  atom_publish_workspace_event (event_of (bump w) workspace_id "workspace.deleted" (EDWorkspace (w_info w))) ;!
  for_each (fun server_id =>
    release_server_runtime workspace_id server_id "workspace deleted" "workspace_deleted")
    (map_to_list (w_servers w)).*1.

Definition delete_workspace (B : Backplane) (workspace_id : string) : PM unit :=
  let! removed := atom_remove_workspace workspace_id in
  match removed with
  | None => st_ret tt
  | Some w => bury_workspace workspace_id w
  end ;!
  broadcast_projection B (WorkspaceDeleted workspace_id).

Definition atom_rename_agent (workspace_id agent_id name : string) (now : Time)
  : PM (AgentInfo * WorkspaceEvent) :=
  with_workspace workspace_id (fun w =>
    match w_agents w !! agent_id with
    | None => (Err (protocol_error "agent_not_found" agent_id), w)
    | Some agent =>
        let agent := agent_updated_at (agent_with_name agent name) now in
        let w' := bump (set_w_agent_names (set_w_agents w (<[agent_id := agent]> (w_agents w)))
                          (<[agent_id := name]> (w_agent_names w))) in
        (Ok (agent, event_of w' workspace_id "agent.renamed" (EDAgent agent)), w')
    end).

Definition rename_agent (B : Backplane) (workspace_id agent_id name : string) (now : Time) : PM AgentInfo :=
  let! r := atom_rename_agent workspace_id agent_id name now in
  atom_publish_workspace_event r.2 ;!
  broadcast_projection B (AgentRenamed workspace_id agent_id (ag_name r.1)) ;!
  st_ret r.1.

Definition is_online (s : ServerInfo) : bool := bool_decide (si_status s = Online).

Definition select_server (workspace_id : string) (requested : option string) : PM string := fun s =>
  (let? w := ok_or (in_workspaces (px_inner s) !! workspace_id) (not_found_workspace workspace_id) in
   match requested with
   | Some server_id =>
       let? server := ok_or (w_servers w !! server_id) (protocol_error "server_not_found" server_id) in
       if is_online server then Ok server_id else Err (server_offline server_id)
   | None =>
       ok_or (head (merge_sort String.le (si_server_id <$> List.filter is_online (values (w_servers w)))))
         (protocol_error "no_online_server"
            ("workspace " +:+ workspace_id +:+ " has no online agent server"))
   end, s).

Definition atom_disconnect (key : ServerKey) (connection_id : Uuid) : PM bool := fun s =>
  if is_some_and (in_connections (px_inner s) !! key) (fun c => sc_connection_id c =s connection_id)
  then (Ok true, mkProxy (set_in_connections (px_inner s) (delete key (in_connections (px_inner s)))) (px_world s))
  else (Ok false, s).

Definition set_server_status (server_id : string) (status : ServerStatus) (now : Time) (w : WorkspaceState)
  : WorkspaceState :=
  set_w_servers w (alter (fun s => server_with_status s status now) server_id (w_servers w)).

(** [disconnect_server] (state/terminal.rs) *)
Definition disconnect_server (workspace_id server_id : string) (connection_id : Uuid) (now : Time) : PM unit :=
  let! removed := atom_disconnect (workspace_id, server_id) connection_id in
  if negb removed then st_ret tt
  else
    cluster_release (workspace_id, server_id) connection_id ;!
    ignore (mutate_workspace workspace_id "server.offline" (EDServerStatus server_id "offline")
              (set_server_status server_id Offline now)) ;!
    close_server_sessions workspace_id server_id "agent server disconnected".

End Handlers.
