(* ===== verification/ProxyReplica.v ===== *)
(** * Updates from the other Proxies (crates/treer-proxy/src/state/cluster.rs)

    Machine snapshots, leases and control projections that a Proxy receives from the cluster
    backplane and applies to its own copy of the inventory. *)

From stdpp Require Import gmap.
From S2P Require Import Prelude RustStr Protocol HostProtocol Activity BinaryFrames ProxyTypes ProxyState.
Local Open Scope Z_scope.

Section Replica.
Context {Codec : ErrorCodec}.

(** ** Snapshots *)

(** Whether a snapshot is newer than the last one of its machine, which it then becomes. *)
Definition atom_note_snapshot (key : ServerKey) (revision : Z) : PM bool := fun s =>
  if is_some_and (in_snapshot_revisions (px_inner s) !! key) (fun r => revision <=? r)
  then (Ok false, s)
  else (Ok true, mkProxy (set_in_snapshot_revisions (px_inner s)
                            (<[key := revision]> (in_snapshot_revisions (px_inner s)))) (px_world s)).

(** The machine of a snapshot under its known name, and with its known capabilities when the
    snapshot carries none. *)
Definition replica_server (w : WorkspaceState) (server : ServerInfo) : ServerInfo :=
  let id := si_server_id server in
  let server := match w_server_names w !! id, w_servers w !! id with
                | Some name, _ => server_with_name server name
                | None, Some current => server_with_name server (si_name current)
                | None, None => server
                end in
  match si_capabilities server, w_servers w !! id with
  | [], Some current => server_with_capabilities server (si_capabilities current)
  | _, _ => server
  end.

Definition take_replica_agent (names : gmap string string) (w : WorkspaceState) (agent : AgentInfo)
  : WorkspaceState :=
  if bool_decide (ag_agent_id agent ∈ w_deleted_agents w) then w
  else
    let name := match w_agent_names w !! ag_agent_id agent, names !! ag_agent_id agent with
                | Some name, _ => name
                | None, Some name => name
                | None, None => ag_name agent
                end in
    put_agent w (agent_with_name agent name).

Definition atom_replica_snapshot (snap : AgentServerSnapshot) : PM (option WorkspaceEvent) := fun s =>
  let workspace_id := si_workspace_id (as_server snap) in
  let server_id := si_server_id (as_server snap) in
  match in_workspaces (px_inner s) !! workspace_id with
  | None => (Ok None, s)
  | Some w =>
      let w1 := set_w_deleted_servers w (w_deleted_servers w ∖ {[server_id]}) in
      let w2 := set_w_servers w1 (<[server_id := replica_server w1 (as_server snap)]> (w_servers w1)) in
      let names := known_names server_id w2 in
      let w3 := foldl (take_replica_agent names) (drop_agents_of server_id w2) (as_agents snap) in
      let w4 := bump w3 in
      (Ok (Some (event_of w4 workspace_id "server.snapshot" (EDServerId server_id))),
       mkProxy (set_in_workspaces (px_inner s) (<[workspace_id := w4]> (in_workspaces (px_inner s))))
         (px_world s))
  end.

Definition notify_opt (event : option WorkspaceEvent) : PM unit :=
  match event with Some e => atom_notify e | None => st_ret tt end.

Definition apply_cluster_snapshot (update : ClusterServerSnapshot) (now : Time) : PM unit :=
  let server := as_server (cs_snapshot update) in
  let! newer := atom_note_snapshot (si_workspace_id server, si_server_id server) (cs_revision update) in
  if negb newer then st_ret tt
  else
    ensure_workspace (si_workspace_id server) (si_workspace_id server) now ;!
    let! event := atom_replica_snapshot (cs_snapshot update) in
    notify_opt event.

(** ** Leases *)

Definition atom_end_lease (key : ServerKey) (revision : Z) : PM bool := fun s =>
  if is_some_and (in_leases (px_inner s) !! key) (fun l => revision <? l.1)
  then (Ok false, s)
  else (Ok true, mkProxy (set_in_leases (px_inner s) (<[key := (revision, None)]> (in_leases (px_inner s))))
                   (px_world s)).

(** The outcome of the locked part of [apply_cluster_disconnect]: whether the machine is known,
    and the event when it was online. *)
Definition atom_mark_offline (workspace_id server_id : string) (now : Time)
  : PM (option (option WorkspaceEvent)) := fun s =>
  match in_workspaces (px_inner s) !! workspace_id with
  | None => (Ok None, s)
  | Some w =>
      match w_servers w !! server_id with
      | None => (Ok None, s)
      | Some server =>
          if negb (is_online server) then (Ok (Some None), s)
          else
            let w' := bump (set_server_status server_id Offline now w) in
            (Ok (Some (Some (event_of w' workspace_id "server.offline"
                               (EDServerStatus server_id "offline")))),
             mkProxy (set_in_workspaces (px_inner s) (<[workspace_id := w']> (in_workspaces (px_inner s))))
               (px_world s))
      end
  end.

Definition apply_cluster_disconnect (workspace_id server_id : string) (revision : Z) (now : Time) : PM unit :=
  let! outgoing := server_outgoing (workspace_id, server_id) in
  if is_some outgoing then st_ret tt
  else
    let! accepted := atom_end_lease (workspace_id, server_id) revision in
    if negb accepted then st_ret tt
    else
      let! r := atom_mark_offline workspace_id server_id now in
      match r with
      | None => st_ret tt
      | Some event =>
          notify_opt event ;!
          close_server_sessions workspace_id server_id "agent server disconnected"
      end.

Definition atom_note_lease (key : ServerKey) (revision : Z) (now : Time) : PM bool := fun s =>
  if is_some_and (in_leases (px_inner s) !! key) (fun l => revision <? l.1)
  then (Ok false, s)
  else (Ok true, mkProxy (set_in_leases (px_inner s) (<[key := (revision, Some now)]> (in_leases (px_inner s))))
                   (px_world s)).

Definition atom_mark_online (workspace_id server_id : string) (now : Time) : PM (option WorkspaceEvent) :=
  fun s =>
  match in_workspaces (px_inner s) !! workspace_id with
  | None => (Ok None, s)
  | Some w =>
      match w_servers w !! server_id with
      | None => (Ok None, s)
      | Some server =>
          if is_online server then (Ok None, s)
          else
            let w' := bump (set_server_status server_id Online now w) in
            (Ok (Some (event_of w' workspace_id "server.online" (EDServerStatus server_id "online"))),
             mkProxy (set_in_workspaces (px_inner s) (<[workspace_id := w']> (in_workspaces (px_inner s))))
               (px_world s))
      end
  end.

Definition note_cluster_lease (workspace_id server_id : string) (revision : Z) (now : Time) : PM unit :=
  let! accepted := atom_note_lease (workspace_id, server_id) revision now in
  if negb accepted then st_ret tt
  else
    let! event := atom_mark_online workspace_id server_id now in
    notify_opt event.

Definition expired_leases (max_age now : Time) (leases : gmap ServerKey (Z * option Time))
  : gmap ServerKey (Z * option Time) :=
  filter (fun kl => is_some_and kl.2.2 (fun seen => max_age <=? duration_since now seen) = true) leases.

Definition expire_cluster_lease_entries (max_age now : Time) : PM (list (ServerKey * Z)) := fun s =>
  let leases := in_leases (px_inner s) in
  let expired := expired_leases max_age now leases in
  (Ok ((fun kl : ServerKey * (Z * option Time) => (kl.1, kl.2.1)) <$> map_to_list expired),
   mkProxy (set_in_leases (px_inner s)
              (((fun l : Z * option Time => (l.1, None)) <$> expired) ∪ leases)) (px_world s)).

Definition expire_cluster_leases (max_age now : Time) : PM unit :=
  let! expired := expire_cluster_lease_entries max_age now in
  for_each (fun kr : ServerKey * Z => apply_cluster_disconnect kr.1.1 kr.1.2 kr.2 now) expired.

(** ** Control projections *)

(** A change of a workspace that may turn out to be none; an unknown workspace is left alone. *)
Definition with_known_workspace (workspace_id : string)
    (f : WorkspaceState -> option WorkspaceEvent * WorkspaceState) : PM (option WorkspaceEvent) := fun s =>
  match in_workspaces (px_inner s) !! workspace_id with
  | None => (Ok None, s)
  | Some w =>
      let '(r, w') := f w in
      (Ok r, mkProxy (set_in_workspaces (px_inner s) (<[workspace_id := w']> (in_workspaces (px_inner s))))
               (px_world s))
  end.

Definition project_server_renamed (workspace_id server_id name : string) (w : WorkspaceState)
  : option WorkspaceEvent * WorkspaceState :=
  let w1 := set_w_server_names (set_w_deleted_servers w (w_deleted_servers w ∖ {[server_id]}))
              (<[server_id := name]> (w_server_names w)) in
  match w_servers w1 !! server_id with
  | None => (None, w1)
  | Some server =>
      if si_name server =s name then (None, w1)
      else
        let w2 := bump (set_w_servers w1 (<[server_id := server_with_name server name]> (w_servers w1))) in
        (Some (event_of w2 workspace_id "server.renamed" (EDServerId server_id)), w2)
  end.

Definition project_agent_renamed (workspace_id agent_id name : string) (now : Time) (w : WorkspaceState)
  : option WorkspaceEvent * WorkspaceState :=
  let w1 := set_w_agent_names (set_w_deleted_agents w (w_deleted_agents w ∖ {[agent_id]}))
              (<[agent_id := name]> (w_agent_names w)) in
  match w_agents w1 !! agent_id with
  | None => (None, w1)
  | Some agent =>
      if ag_name agent =s name then (None, w1)
      else
        let agent := agent_updated_at (agent_with_name agent name) now in
        let w2 := bump (set_w_agents w1 (<[agent_id := agent]> (w_agents w1))) in
        (Some (event_of w2 workspace_id "agent.renamed" (EDAgentId agent_id)), w2)
  end.

Definition project_agent_deleted (workspace_id agent_id : string) (w : WorkspaceState)
  : option WorkspaceEvent * WorkspaceState :=
  let removed := is_some (w_agents w !! agent_id) in
  let inserted := negb (bool_decide (agent_id ∈ w_deleted_agents w)) in
  let w1 := bury_agent w agent_id in
  if negb removed && negb inserted then (None, w1)
  else (Some (event_of (bump w1) workspace_id "agent.deleted" (EDAgentId agent_id)), bump w1).

Definition project_server_deleted (workspace_id server_id : string) (w : WorkspaceState)
  : option WorkspaceEvent * WorkspaceState :=
  let removed := is_some (w_servers w !! server_id) in
  let inserted := negb (bool_decide (server_id ∈ w_deleted_servers w)) in
  let w1 := set_w_deleted_servers
              (set_w_server_names (set_w_servers w (delete server_id (w_servers w)))
                 (delete server_id (w_server_names w)))
              ({[server_id]} ∪ w_deleted_servers w) in
  if negb removed && negb inserted then (None, w1)
  else
    let w2 := bump (drop_agents_of server_id w1) in
    (Some (event_of w2 workspace_id "server.deleted" (EDServerId server_id)), w2).

Definition apply_cluster_projection (B : Backplane) (update : ClusterProjectionUpdate) (now : Time) : PM unit :=
  match update with
  | WorkspaceUpsert workspace => upsert_workspace_info workspace true ;! st_ret tt
  | WorkspaceDeleted workspace_id =>
      let! removed := atom_remove_workspace workspace_id in
      match removed with
      | None => st_ret tt
      | Some w => bury_workspace workspace_id w
      end
  | ServerRenamed workspace_id server_id name =>
      let! event := with_known_workspace workspace_id (project_server_renamed workspace_id server_id name) in
      notify_opt event
  | AgentRenamed workspace_id agent_id name =>
      let! event := with_known_workspace workspace_id (project_agent_renamed workspace_id agent_id name now) in
      notify_opt event
  | AgentDeleted workspace_id agent_id =>
      let! event := with_known_workspace workspace_id (project_agent_deleted workspace_id agent_id) in
      match event with
      | None => st_ret tt
      | Some e => atom_notify e ;! close_agent_terminals B workspace_id agent_id
      end
  | ServerDeleted workspace_id server_id =>
      let! event := with_known_workspace workspace_id (project_server_deleted workspace_id server_id) in
      match event with
      | None => st_ret tt
      | Some e =>
          atom_notify e ;!
          release_connection (workspace_id, server_id) ;!
          let! terminals := atom_take_sessions (workspace_id, server_id) in
          close_terminals "machine deleted" terminals ;!
          close_server_network_streams workspace_id server_id
      end
  end.

End Replica.
