(* ===== verification/ProxyCommands.v ===== *)
(** * Commands to machines (crates/treer-proxy/src/state/commands.rs) and a Controller's snapshot,
      which makes the Proxy send the machine's pending commands again

    A handler that sends a command takes four steps between which other handlers run: it looks
    up the socket and its capabilities, asks the database whether the Agent to create was
    deleted, records the command as pending, and sends it.  What it holds between two steps is
    an entry of [wd_flights].  The answer of the database is an argument. *)

From stdpp Require Import gmap.
From S2P Require Import Prelude RustStr Protocol HostProtocol Activity BinaryFrames ProxyTypes ProxyState.
Local Open Scope Z_scope.

(** The answer of the query on [deleted_agents]. *)
Definition Tombstones : Type := string -> Result bool ProtocolError.

(** [require_creation_not_deleted], with the database's answer for the workspace. *)
Definition require_creation_not_deleted (db : Tombstones) (agent_id : option string)
  : Result unit ProtocolError :=
  match agent_id with
  | None => Ok tt
  | Some id =>
      let? deleted := map_err (fun _ => protocol_error "identity_check_unavailable"
                                          "Agent identity could not be checked") (db id) in
      if (deleted : bool)
      then Err (protocol_error "agent_identity_denied" "Agent identity was permanently denied")
      else Ok tt
  end.

Definition flights (s : Proxy) : list Flight := wd_flights (px_world s).
Definition push_flights (new : list Flight) (w : World) : World := set_wd_flights w (wd_flights w ++ new).
Definition drop_flight (n : nat) (w : World) : World :=
  set_wd_flights w (take n (wd_flights w) ++ drop (S n) (wd_flights w)).
Definition put_flight (n : nat) (f : Flight) (w : World) : World :=
  set_wd_flights w (<[n := f]> (wd_flights w)).

Definition unsupported (server_id required : string) : ProtocolError :=
  protocol_error "unsupported_command"
    ("machine " +:+ server_id +:+ " does not advertise capability " +:+ required).

(** ** Sending *)

(** The socket of the machine and the check of its capabilities. *)
Definition atom_lookup (key : ServerKey) (expected : option Uuid) (command_id : string)
    (command : AgentCommand) : PM unit := fun s =>
  match opt_filter (fun c => is_none_or expected (fun e => e =s sc_connection_id c))
          (in_connections (px_inner s) !! key) with
  | None => (Err (server_offline key.2), s)
  | Some c =>
      match required_capability command with
      | Some required =>
          if bool_decide (required ∈ sc_capabilities c)
          then (Ok tt, mkProxy (px_inner s) (push_flights
                  [FlightChecked key (sc_outgoing c) (mkCommandEnvelope command_id key.1 command)] (px_world s)))
          else (Err (unsupported key.2 required), s)
      | None =>
          (Ok tt, mkProxy (px_inner s) (push_flights
             [FlightChecked key (sc_outgoing c) (mkCommandEnvelope command_id key.1 command)] (px_world s)))
      end
  end.

(** The database's answer, then the insertion among the pending commands. *)
Definition atom_pend (n : nat) (db : Tombstones) (waiter : Waiter) : PM unit := fun s =>
  match flights s !! n with
  | Some (FlightChecked key channel envelope) =>
      let creation := creation_agent_id (ce_command envelope) in
      match require_creation_not_deleted db creation with
      | Err e => (Err e, mkProxy (px_inner s) (drop_flight n (px_world s)))
      | Ok _ =>
          let command := mkPendingCommand key envelope (required_capability (ce_command envelope))
                           creation waiter in
          (Ok tt, mkProxy
             (set_in_pending (px_inner s) (<[ce_command_id envelope := command]> (in_pending (px_inner s))))
             (put_flight n (FlightPending key channel envelope) (px_world s)))
      end
  | _ => (Ok tt, s)
  end.

Definition push_sent (channel : Channel) (frame : SocketFrame) (w : World) : World :=
  set_wd_sent w (wd_sent w ++ [(channel, frame)]).
Definition command_frame (envelope : CommandEnvelope) : SocketFrame := FText (TextProxy (PMCommand envelope)).

(** Sending; a dropped socket takes the command back. *)
Definition atom_launch (n : nat) : PM unit := fun s =>
  match flights s !! n with
  | Some (FlightPending key channel envelope) =>
      if bool_decide (channel ∈ wd_closed (px_world s))
      then (Err (server_offline key.2),
            mkProxy (set_in_pending (px_inner s) (delete (ce_command_id envelope) (in_pending (px_inner s))))
              (drop_flight n (px_world s)))
      else (Ok tt, mkProxy (px_inner s)
                     (push_sent channel (command_frame envelope) (drop_flight n (px_world s))))
  | _ => (Ok tt, s)
  end.

(** [send_local_command] up to the wait for the result. *)
Definition send_local_command (db : Tombstones) (workspace_id server_id : string)
    (expected_connection_id : option Uuid) (command_id : string) (command : AgentCommand)
    (waiter : Waiter) : PM unit :=
  let! n := (fun s => (Ok (length (flights s)), s)) in
  atom_lookup (workspace_id, server_id) expected_connection_id command_id command ;!
  atom_pend n db waiter ;!
  atom_launch n.

(** How the wait ends: the result, the sender dropped, or the time is up. *)
Inductive Waited : Type := WaitResult (result : CommandResult) | WaitCancelled | WaitTimeout.

Definition atom_forget (command_id : string) : PM unit :=
  modify (fun i => set_in_pending i (delete command_id (in_pending i))).

(** The rest of [send_local_command]. *)
Definition finish_command (command_id : string) (waited : Waited) : PM Value :=
  match waited with
  | WaitResult result =>
      match cr_error result with
      | Some error => st_throw error
      | None => st_ret (default "null" (cr_data result))
      end
  | WaitCancelled =>
      atom_forget command_id ;!
      st_throw (protocol_error "command_cancelled" "agent server disconnected before returning a result")
  | WaitTimeout =>
      atom_forget command_id ;!
      st_throw (protocol_error "command_timeout" ("command " +:+ command_id +:+ " timed out"))
  end.

(** [send_command]: where the command goes. *)
Inductive CommandRoute : Type :=
| RouteLocal (expected : option Uuid)
| RouteRemote (owner : ConnectionOwner).

Definition command_route (B : Backplane) (workspace_id server_id : string)
  : Result CommandRoute ProtocolError :=
  if negb (bp_distributed B) then Ok (RouteLocal None)
  else
    let? owner := bp_owner B (workspace_id, server_id) in
    let? owner := ok_or owner (server_offline server_id) in
    if co_proxy_id owner =s bp_instance_id B then Ok (RouteLocal (Some (co_connection_id owner)))
    else Ok (RouteRemote owner).

Definition handle_cluster_command (db : Tombstones) (workspace_id server_id : string) (connection_id : Uuid)
    (command_id : string) (command : AgentCommand) (waiter : Waiter) : PM unit :=
  send_local_command db workspace_id server_id (Some connection_id) command_id command waiter.

Definition server_capabilities (workspace_id server_id : string) : PM (gset string) := fun s =>
  (ok_or (sc_capabilities <$> in_connections (px_inner s) !! (workspace_id, server_id))
     (server_offline server_id), s).

(** ** Results *)

(** The locked part of [complete_command_from]. *)
Definition atom_complete (workspace_id server_id : string) (result : CommandResult) : PM unit := fun s =>
  match in_pending (px_inner s) !! cr_command_id result with
  | None => (Ok tt, s)
  | Some command =>
      if bool_decide (pc_server command = (workspace_id, server_id))
      then (Ok tt, mkProxy
              (set_in_pending (px_inner s) (delete (cr_command_id result) (in_pending (px_inner s))))
              (push_results [(pc_result command, result)] (px_world s)))
      else (Err (protocol_error "command_identity_mismatch"
                   "command result does not belong to this machine"), s)
  end.

Definition complete_command_from (workspace_id server_id : string) (connection_id : Uuid)
    (result : CommandResult) : PM unit :=
  require_current_connection workspace_id server_id connection_id ;!
  atom_complete workspace_id server_id result.

(** ** Sending again *)

Definition unreplayable (capability : string) : bool :=
  (capability =s CAPABILITY_MACHINE_FILE_TRANSFER) || (capability =s CAPABILITY_CONTROLLER_UPDATE).

(** A pending command that a new connection must not or cannot get. *)
Definition rejected (key : ServerKey) (capabilities : gset string) (c : PendingCommand) : bool :=
  pending_of key c
  && is_some_and (pc_required_capability c) (fun required =>
       unreplayable required || negb (bool_decide (required ∈ capabilities))).

Definition rejection (server_id : string) (c : PendingCommand) : ProtocolError :=
  let required := default "unknown" (pc_required_capability c) in
  if required =s CAPABILITY_MACHINE_FILE_TRANSFER then
    protocol_error "machine_transfer_stale"
      "Controller connection changed; transfer commands are not replayed, inspect the destination before retrying"
  else if required =s CAPABILITY_CONTROLLER_UPDATE then
    protocol_error "controller_update_dispatch_stale"
      "Controller connection changed; update commands are never replayed"
  else unsupported server_id required.

Definition atom_resend_lookup (key : ServerKey) : PM bool := fun s =>
  match in_connections (px_inner s) !! key with
  | None => (Ok false, s)
  | Some c =>
      (Ok true, mkProxy (px_inner s)
                  (push_flights [FlightTake key (sc_outgoing c) (sc_capabilities c)] (px_world s)))
  end.

Definition resend_flight (channel : Channel) (ic : string * PendingCommand) : Flight :=
  FlightResend (pc_server ic.2) channel (pc_encoded ic.2) (pc_creation_agent_id ic.2).

(** The lock on the pending commands: the rejected ones are removed and their waiters told, the
    others of the machine become flights. *)
Definition atom_reject (n : nat) : PM unit := fun s =>
  match flights s !! n with
  | Some (FlightTake key channel capabilities) =>
      let pending := in_pending (px_inner s) in
      let gone := filter (fun ic => rejected key capabilities ic.2 = true) pending in
      let kept := filter (fun ic => rejected key capabilities ic.2 = false) pending in
      let again := filter (fun ic => pending_of key ic.2 = true) kept in
      (Ok tt,
       mkProxy (set_in_pending (px_inner s) kept)
         (push_results (fail_all (rejection key.2) gone)
            (push_flights (resend_flight channel <$> map_to_list again) (drop_flight n (px_world s)))))
  | _ => (Ok tt, s)
  end.

(** One command to send again: the database's answer, then the send or the refusal. *)
Definition atom_resend (n : nat) (db : Tombstones) : PM unit := fun s =>
  match flights s !! n with
  | Some (FlightResend key channel envelope creation) =>
      let w := drop_flight n (px_world s) in
      match require_creation_not_deleted db creation with
      | Ok _ =>
          if bool_decide (channel ∈ wd_closed w) then (Ok tt, mkProxy (px_inner s) w)
          else (Ok tt, mkProxy (px_inner s) (push_sent channel (command_frame envelope) w))
      | Err error =>
          match in_pending (px_inner s) !! ce_command_id envelope with
          | None => (Ok tt, mkProxy (px_inner s) w)
          | Some command =>
              (Ok tt, mkProxy
                 (set_in_pending (px_inner s) (delete (ce_command_id envelope) (in_pending (px_inner s))))
                 (push_results [(pc_result command, command_failure (ce_command_id envelope) error)] w))
          end
      end
  | _ => (Ok tt, s)
  end.

Fixpoint repeat_atom (k : nat) (m : PM unit) : PM unit :=
  match k with
  | O => st_ret tt
  | S k' => m ;! repeat_atom k' m
  end.

Definition resend_pending (db : Tombstones) (workspace_id server_id : string) : PM unit :=
  let! n := (fun s => (Ok (length (flights s)), s)) in
  let! found := atom_resend_lookup (workspace_id, server_id) in
  if negb found then st_ret tt
  else
    atom_reject n ;!
    let! k := (fun s => (Ok (length (flights s) - n)%nat, s)) in
    repeat_atom k (atom_resend n db).

(** ** A Controller's snapshot (state/core.rs) *)

Section Snapshot.
Context {Codec : ErrorCodec}.

Definition apply_snapshot (B : Backplane) (db : Tombstones) (connection_id : Uuid)
    (snap : AgentServerSnapshot) (now : Time) : PM unit :=
  let workspace_id := si_workspace_id (as_server snap) in
  let server_id := si_server_id (as_server snap) in
  require_current_connection workspace_id server_id connection_id ;!
  let server := server_with_status (as_server snap) Online now in
  let! live := live_capabilities (workspace_id, server_id) in
  let! event := atom_apply_snapshot server (as_agents snap) live in
  atom_publish_workspace_event event ;!
  cluster_publish B workspace_id server_id connection_id ;!
  resend_pending db workspace_id server_id.

End Snapshot.
