(* ===== verification/ClusterKeys.v ===== *)
(** * Names on the cluster backplane (crates/treer-proxy/src/cluster.rs)

    Session and stream identifiers that name the Proxy they live on, the keys of the three
    key-value buckets and the subjects of the Proxies.  Base64 (URL-safe, without padding) is a
    parameter: it round-trips and its alphabet has no dot. *)

From stdpp Require Import gmap.
From S2P Require Import Prelude RustStr Protocol HostProtocol Activity BinaryFrames ProxyTypes.

Class Base64 : Type := {
  b64_encode : string -> string;
  b64_decode : string -> option string
}.

Class Base64Laws {C : Base64} : Prop := {
  b64_roundtrip s : b64_decode (b64_encode s) = Some s;
  b64_no_dot s : contains_char "." (b64_encode s) = false
}.

Section Keys.
Context {C : Base64}.

(** [ClusterBus::routed_id], with the fresh identifier. *)
Definition routed_id (instance_id kind unique : string) : string :=
  kind +:+ "." +:+ b64_encode instance_id +:+ "." +:+ unique.

(** [String::from_utf8] of a decoded string. *)
Definition decode_text (encoded : string) : option string :=
  match b64_decode encoded with
  | Some s => if valid_utf8 s then Some s else None
  | None => None
  end.

Definition route_target (id : string) : option string :=
  match split_on "." id with
  | [_; encoded; _] => decode_text encoded
  | _ => None
  end.

Definition server_key (workspace_id server_id : string) : string :=
  b64_encode workspace_id +:+ "." +:+ b64_encode server_id.

Definition decode_server_key (key : string) : option (string * string) :=
  match split_once "." key with
  | None => None
  | Some (workspace, server) =>
      match decode_text workspace with
      | None => None
      | Some w => match decode_text server with Some s => Some (w, s) | None => None end
      end
  end.

Definition projection_key (update : ClusterProjectionUpdate) : string :=
  match update with
  | WorkspaceUpsert workspace => "workspace." +:+ b64_encode (wi_workspace_id workspace)
  | WorkspaceDeleted workspace_id => "workspace." +:+ b64_encode workspace_id
  | ServerRenamed workspace_id server_id _ | ServerDeleted workspace_id server_id =>
      "server." +:+ b64_encode workspace_id +:+ "." +:+ b64_encode server_id
  | AgentRenamed workspace_id agent_id _ | AgentDeleted workspace_id agent_id =>
      "agent." +:+ b64_encode workspace_id +:+ "." +:+ b64_encode agent_id
  end.

Definition proxy_subject (subject_prefix proxy_id : string) : string :=
  subject_prefix +:+ ".proxy." +:+ b64_encode proxy_id.
Definition broadcast_subject (subject_prefix : string) : string := subject_prefix +:+ ".broadcast".

Definition subject_byte (a : ascii) : bool := ascii_alphanumeric a || Ascii.eqb a "-" || Ascii.eqb a "_".

Definition validate_subject_prefix (prefix : string) : Result unit string :=
  if is_empty prefix
     || negb (forallb (fun token => negb (is_empty token) && all_bytes subject_byte token)
                (split_on "." prefix))
  then Err "NATS cluster subject prefix must contain only non-empty alphanumeric, '-', or '_' tokens"
  else Ok tt.

(** What an update is about: a workspace, or a machine or an Agent of one. *)
Inductive Projected : Type :=
| ProjectedWorkspace (workspace_id : string)
| ProjectedServer (workspace_id server_id : string)
| ProjectedAgent (workspace_id agent_id : string).

Definition projected (update : ClusterProjectionUpdate) : Projected :=
  match update with
  | WorkspaceUpsert workspace => ProjectedWorkspace (wi_workspace_id workspace)
  | WorkspaceDeleted workspace_id => ProjectedWorkspace workspace_id
  | ServerRenamed workspace_id server_id _ | ServerDeleted workspace_id server_id =>
      ProjectedServer workspace_id server_id
  | AgentRenamed workspace_id agent_id _ | AgentDeleted workspace_id agent_id =>
      ProjectedAgent workspace_id agent_id
  end.

Context {Laws : Base64Laws}.

Lemma b64_inj s t : b64_encode s = b64_encode t -> s = t.
Proof. intros H. pose proof (b64_roundtrip s) as Hs. rewrite H, b64_roundtrip in Hs. congruence. Qed.

Lemma decode_text_encode s : valid_utf8 s = true -> decode_text (b64_encode s) = Some s.
Proof. intros H. unfold decode_text. by rewrite b64_roundtrip, H. Qed.

Lemma two_parts a b c d :
  b64_encode a +:+ String "." (b64_encode b) = b64_encode c +:+ String "." (b64_encode d) ->
  a = c /\ b = d.
Proof.
  intros H. apply (f_equal (split_once ".")) in H.
  pose proof (split_once_app "." (b64_encode a) (b64_encode b) (b64_no_dot a)) as H1.
  pose proof (split_once_app "." (b64_encode c) (b64_encode d) (b64_no_dot c)) as H2.
  rewrite H1, H2 in H. simplify_eq. split; by apply b64_inj.
Qed.

(** A session identifier leads back to the Proxy that issued it. *)
Lemma route_target_routed_id instance_id kind unique :
  contains_char "." kind = false -> contains_char "." unique = false -> valid_utf8 instance_id = true ->
  route_target (routed_id instance_id kind unique) = Some instance_id.
Proof.
  intros Hk Hu Hv. unfold route_target, routed_id.
  change ("." +:+ b64_encode instance_id +:+ "." +:+ unique)
    with (String "." (b64_encode instance_id +:+ String "." unique)).
  rewrite split_on_app_sep, (split_on_none "." kind Hk).
  rewrite split_on_app_sep, (split_on_none "." _ (b64_no_dot _)), (split_on_none "." unique Hu).
  simpl. by apply decode_text_encode.
Qed.

Lemma decode_server_key_key workspace_id server_id :
  valid_utf8 workspace_id = true -> valid_utf8 server_id = true ->
  decode_server_key (server_key workspace_id server_id) = Some (workspace_id, server_id).
Proof.
  intros Hw Hs. unfold decode_server_key, server_key.
  change ("." +:+ b64_encode server_id) with (String "." (b64_encode server_id)).
  rewrite (split_once_app "." _ _ (b64_no_dot _)).
  by rewrite !decode_text_encode.
Qed.

(** Two control projections are stored under the same key of the bucket, so that the later
    one replaces the earlier, just when they are about the same workspace, machine or Agent. *)
Theorem projection_key_identifies u v :
  projection_key u = projection_key v <-> projected u = projected v.
Proof.
  split.
  - destruct u, v; simpl; intros H; try discriminate H; apply str_app_inj in H;
      first [by apply two_parts in H as [-> ->]|apply b64_inj in H; congruence].
  - destruct u, v; simpl; congruence.
Qed.

(** The names on the backplane lead back: a session or stream identifier names the Proxy that
    issued it, and the key of a lease names its workspace and machine. *)
Theorem cluster_names_roundtrip instance_id kind unique workspace_id server_id :
  contains_char "." kind = false -> contains_char "." unique = false ->
  valid_utf8 instance_id = true -> valid_utf8 workspace_id = true -> valid_utf8 server_id = true ->
  route_target (routed_id instance_id kind unique) = Some instance_id
  /\ decode_server_key (server_key workspace_id server_id) = Some (workspace_id, server_id).
Proof. intros. split; [by apply route_target_routed_id|by apply decode_server_key_key]. Qed.

End Keys.

(** ** A codec with the required laws: two letters per byte *)

Definition nibble_char (n : N) : ascii := Ascii.ascii_of_N (97 + n).
Definition char_nibble (a : ascii) : N := Ascii.N_of_ascii a - 97.

Fixpoint letters_encode (s : string) : string :=
  match s with
  | EmptyString => EmptyString
  | String a s' => String (nibble_char (Ascii.N_of_ascii a / 16))
                     (String (nibble_char (Ascii.N_of_ascii a mod 16)) (letters_encode s'))
  end.
Fixpoint letters_decode (s : string) : option string :=
  match s with
  | EmptyString => Some EmptyString
  | String a (String b s') =>
      String (Ascii.ascii_of_N (16 * char_nibble a + char_nibble b)) <$> letters_decode s'
  | _ => None
  end.

#[export] Instance letters : Base64 := { b64_encode := letters_encode; b64_decode := letters_decode }.

Lemma letters_ok a :
  Ascii.ascii_of_N (16 * char_nibble (nibble_char (Ascii.N_of_ascii a / 16))
                    + char_nibble (nibble_char (Ascii.N_of_ascii a mod 16))) = a
  /\ nibble_char (Ascii.N_of_ascii a / 16) <> "."%char
  /\ nibble_char (Ascii.N_of_ascii a mod 16) <> "."%char.
Proof. destruct a as [[] [] [] [] [] [] [] []]; vm_compute; split_and!; congruence. Qed.

#[export] Instance letters_laws : Base64Laws.
Proof.
  split.
  - induction s as [|a s IH]; [done|]. cbn -[nibble_char char_nibble Ascii.ascii_of_N] in *.
    rewrite IH. simpl. f_equal. f_equal. apply letters_ok.
  - induction s as [|a s IH]; [done|]. destruct (letters_ok a) as (_ & H1 & H2).
    cbn -[nibble_char] in *. rewrite IH.
    by rewrite (proj2 (Ascii.eqb_neq _ _) H1), (proj2 (Ascii.eqb_neq _ _) H2).
Qed.

Lemma cluster_names_roundtrip_witness :
  route_target (routed_id "proxy-1" "term" "u") = Some "proxy-1"
  /\ decode_server_key (server_key "ws" "m") = Some ("ws", "m").
Proof. apply cluster_names_roundtrip; vm_compute; reflexivity. Defined.

(** A new name of a machine replaces the old one, and so does its deletion. *)
Lemma projection_key_identifies_witness :
  projection_key (ServerRenamed "ws" "m" "name") = projection_key (ServerDeleted "ws" "m")
  /\ projection_key (ServerDeleted "ws" "m") <> projection_key (AgentDeleted "ws" "m").
Proof.
  split; [apply projection_key_identifies; reflexivity|].
  intros H. by apply projection_key_identifies in H.
Defined.
