(* ===== verification/ProxyTerminal.v ===== *)
(** * Browser terminals (crates/treer-proxy/src/state/terminal.rs and the session deliveries of
      state/cluster.rs)

    A browser terminal is a session with a bounded queue; output of its process arrives with
    revisions, from the machine's socket or from the Proxy that holds it. *)

From stdpp Require Import gmap.
From S2P Require Import Prelude RustStr Protocol HostProtocol Activity BinaryFrames ProxyTypes ProxyState.
From S2P Require Import ClusterKeys.
Local Open Scope Z_scope.

Definition TERMINAL_BROWSER_QUEUE_CAPACITY : nat := 1024.
Definition TERMINAL_REPLAY_CHUNK_BYTES : nat := (32 * 1024)%nat.

Record TerminalReadyPayload : Type := mkTerminalReadyPayload {
  tr_revision : Z; tr_replay : bytes; tr_stream_epoch : option string; tr_gap : bool
}.

Section Terminal.
Context {C : Base64}.

(** ** Delivering a frame to a session *)

(** The [Ready] message a text frame holds, if it does. *)
Definition ready_message (frame : SocketFrame) : option (string * option string) :=
  match frame with
  | FText (TextTerminal (TMReady session_id stream_epoch _ _ _)) => Some (session_id, stream_epoch)
  | _ => None
  end.

Definition with_epoch (t : TerminalSession) (epoch : option string) : TerminalSession :=
  mkTerminalSession (ts_workspace_id t) (ts_server_id t) (ts_process_id t) (ts_outgoing t)
    (ts_last_revision t) epoch.
Definition with_revision (t : TerminalSession) (revision : option Z) : TerminalSession :=
  mkTerminalSession (ts_workspace_id t) (ts_server_id t) (ts_process_id t) (ts_outgoing t)
    revision (ts_stream_epoch t).

(** Output the session has already seen. *)
Definition is_stale (t : TerminalSession) (revision : option Z) : bool :=
  is_some_and revision (fun r => is_some_and (ts_last_revision t) (fun last => r <=? last)).

Definition cursor_frame (t : TerminalSession) (d : ClusterSessionDelivery) : option SocketFrame :=
  if sd_cursor d then
    match ts_stream_epoch t, sd_revision d with
    | Some epoch, Some revision => Some (FText (TextTerminal (TMCursor epoch revision)))
    | _, _ => None
    end
  else None.

(** The frame, then its cursor. *)
Definition send_with_cursor (channel : Channel) (frame : SocketFrame) (cursor : option SocketFrame)
    (w : World) : TrySend * World :=
  match try_send channel frame w with
  | (Sent, w') => match cursor with Some c => try_send channel c w' | None => (Sent, w') end
  | r => r
  end.

(** The locked part of [handle_cluster_session_delivery]; the machine to tell when the browser's
    queue is full. *)
Definition atom_deliver (d : ClusterSessionDelivery) : PM (option ServerKey) := fun s =>
  let id := sd_session_id d in
  let sessions := in_sessions (px_inner s) in
  let put t := set_in_sessions (px_inner s) (<[id := t]> sessions) in
  let gone := set_in_sessions (px_inner s) (delete id sessions) in
  match sessions !! id with
  | None => (Err (protocol_error "terminal_not_found" id), s)
  | Some t =>
      if negb (session_of (sd_workspace_id d, sd_server_id d) t)
         || is_some_and (ready_message (sd_frame d)) (fun r => negb (r.1 =s id))
      then (Err (protocol_error "terminal_identity_mismatch" id), s)
      else
        let t := match ready_message (sd_frame d) with Some r => with_epoch t r.2 | None => t end in
        if is_stale t (sd_revision d) then (Ok None, mkProxy (put t) (px_world s))
        else
          match send_with_cursor (ts_outgoing t) (sd_frame d) (cursor_frame t d) (px_world s) with
          | (Sent, w) =>
              let t := match sd_revision d with Some r => with_revision t (Some r) | None => t end in
              (Ok None, mkProxy (if sd_close d then gone else put t) w)
          | (Full, w) => (Ok (Some (ts_workspace_id t, ts_server_id t)), mkProxy gone w)
          | (Closed, w) => (Err (protocol_error "terminal_closed" id), mkProxy gone w)
          end
  end.

Definition handle_cluster_session_delivery (B : Backplane) (d : ClusterSessionDelivery) : PM unit :=
  let! overloaded := atom_deliver d in
  match overloaded with
  | None => st_ret tt
  | Some route =>
      ignore (send_server_frame B route.1 route.2
                (FText (TextProxy (PMTerminalDetach (sd_session_id d)))))
  end.

Definition terminal_session_route (session_id : string) : PM ServerKey := fun s =>
  (ok_or ((fun t => (ts_workspace_id t, ts_server_id t)) <$> in_sessions (px_inner s) !! session_id)
     (protocol_error "terminal_not_found" session_id), s).

Definition session_not_found (session_id : string) : ProtocolError :=
  protocol_error "session_not_found" session_id.

Definition deliver_session_frame (B : Backplane) (d : ClusterSessionDelivery) : PM unit :=
  let! local := gets (fun i => is_some (in_sessions i !! sd_session_id d)) in
  if (local : bool) then handle_cluster_session_delivery B d
  else
    match route_target (sd_session_id d) with
    | None => st_throw (session_not_found (sd_session_id d))
    | Some target =>
        if target =s bp_instance_id B then st_throw (session_not_found (sd_session_id d))
        else atom_call (CallDeliver target d) ;! st_lift (bp_deliver B)
    end.

Definition relay_terminal (B : Backplane) (workspace_id server_id session_id : string)
    (message : TerminalServerMessage) (close : bool) : PM unit :=
  deliver_session_frame B
    (mkClusterSessionDelivery SessionTerminal workspace_id server_id session_id None false close
       (FText (TextTerminal message))).

(** ** Operations of the browser *)

Definition atom_open_session (session_id : string) (t : TerminalSession) : PM unit :=
  modify (fun i => set_in_sessions i (<[session_id := t]> (in_sessions i))).

Definition attach_terminal (B : Backplane) (workspace_id agent_id : string) (cols rows : Z)
    (cursor : option TerminalCursor) (outgoing : Channel) (unique : string) : PM string :=
  let! agent := resolve_agent workspace_id agent_id in
  let server_id := ag_server_id agent in
  let session_id := routed_id (bp_instance_id B) "term" unique in
  atom_open_session session_id
    (mkTerminalSession workspace_id server_id (ag_agent_id agent) outgoing None
       (tc_stream_epoch <$> cursor)) ;!
  let message := PMTerminalAttach session_id (ag_agent_id agent) (Z.max cols 1) (Z.max rows 1) cursor in
  fun s =>
    match send_server_frame B workspace_id server_id (FText (TextProxy message)) s with
    | (Ok _, s') => (Ok session_id, s')
    | (Err error, s') => (atom_remove_session session_id ;! st_throw error) s'
    end.

Definition terminal_input (B : Backplane) (session_id : string) (data : bytes) : PM unit :=
  let! route := terminal_session_route session_id in
  let! encoded := st_lift (terminal_encode (mkTerminalBinaryFrame TInput session_id 0 data)) in
  send_server_frame B route.1 route.2 (FBinary encoded).

Definition terminal_resize (B : Backplane) (session_id : string) (cols rows : Z) : PM unit :=
  let! route := terminal_session_route session_id in
  send_server_frame B route.1 route.2
    (FText (TextProxy (PMTerminalResize session_id (Z.max cols 1) (Z.max rows 1)))).

(** ** Messages of the machine *)

(** [slice::chunks]; the fuel is the length, a chunk takes at least one byte. *)
Fixpoint chunks_fuel (fuel n : nat) (l : bytes) : list bytes :=
  match fuel, l with
  | O, _ | _, [] => []
  | S fuel', _ => take n l :: chunks_fuel fuel' n (drop n l)
  end.
Definition chunks (n : nat) (l : bytes) : list bytes := chunks_fuel (length l) n l.

Definition div_ceil (a b : Z) : Z := (a + b - 1) / b.

Definition ready_delivery (workspace_id server_id session_id : string) (revision : option Z)
    (frame : SocketFrame) : ClusterSessionDelivery :=
  mkClusterSessionDelivery SessionTerminal workspace_id server_id session_id revision false false frame.

(** The chunks of a replay, the last one with the revision. *)
Definition replay_deliveries (workspace_id server_id session_id : string) (revision : Z)
    (replay_chunks : Z) (replay : bytes) : list ClusterSessionDelivery :=
  imap (fun index chunk =>
    ready_delivery workspace_id server_id session_id
      (if Z.of_nat (S index) =? replay_chunks then Some revision else None) (FBinary chunk))
    (chunks TERMINAL_REPLAY_CHUNK_BYTES replay).

Definition terminal_ready (B : Backplane) (workspace_id server_id : string) (connection_id : Uuid)
    (session_id : string) (ready : TerminalReadyPayload) : PM unit :=
  require_current_connection workspace_id server_id connection_id ;!
  let replay_chunks := div_ceil (blen (tr_replay ready)) (Z.of_nat TERMINAL_REPLAY_CHUNK_BYTES) in
  (if u32_max <? replay_chunks
   then st_throw (protocol_error "terminal_replay_too_large" "terminal replay has too many chunks")
   else st_ret tt) ;!
  deliver_session_frame B
    (ready_delivery workspace_id server_id session_id
       (if replay_chunks =? 0 then Some (tr_revision ready) else None)
       (FText (TextTerminal (TMReady session_id (tr_stream_epoch ready) (Some (tr_revision ready))
                               (tr_gap ready) (Some replay_chunks))))) ;!
  for_each (deliver_session_frame B)
    (replay_deliveries workspace_id server_id session_id (tr_revision ready) replay_chunks (tr_replay ready)).

Definition terminal_output (B : Backplane) (workspace_id server_id : string) (connection_id : Uuid)
    (session_id : string) (revision : Z) (data : bytes) : PM unit :=
  require_current_connection workspace_id server_id connection_id ;!
  deliver_session_frame B
    (mkClusterSessionDelivery SessionTerminal workspace_id server_id session_id (Some revision) true false
       (FBinary data)).

Definition terminal_closed (B : Backplane) (workspace_id server_id : string) (connection_id : Uuid)
    (session_id : string) (reason : option string) (exit_code : option Z) : PM unit :=
  require_current_connection workspace_id server_id connection_id ;!
  relay_terminal B workspace_id server_id session_id (TMClosed reason exit_code) true.

End Terminal.
