(* ===== verification/ProxySteps.v ===== *)
(** * Interleavings of the Proxy's handlers

    The handlers of state/*.rs run concurrently; each holds a lock only for one of its atoms.
    [step] is one atom of some handler, with any arguments it may have computed before, or an
    action of a socket or browser; [reachable] states are those after any sequence of steps.
    [sectional] programs are sequences of steps, and each operation of [Handler] is one.  The
    operations of the network streams are in [ProxyNetwork]. *)

From stdpp Require Import gmap.
From S2P Require Import Prelude RustStr Protocol HostProtocol Activity BinaryFrames ProxyTypes ProxyState.
From S2P Require Import ProxyReplica ProxyCommands ClusterKeys ProxyTerminal.
Local Open Scope Z_scope.

(** ** Steps *)

Section Steps.
Context {Codec : ErrorCodec} {C : Base64}.

(** A workspace mutation by [mutate_workspace] in the sources. *)
Inductive Mutation : Type :=
| MutPutServer (server : ServerInfo)
| MutOffline (server_id : string) (now : Time).

Definition mutation_of (m : Mutation) (w : WorkspaceState) : WorkspaceState :=
  match m with
  | MutPutServer server => set_w_servers w (<[si_server_id server := server]> (w_servers w))
  | MutOffline server_id now => set_server_status server_id Offline now w
  end.

(** A projection of one workspace ([ServerRenamed], [AgentRenamed], ...). *)
Definition projection_of (u : ClusterProjectionUpdate) (now : Time) (w : WorkspaceState)
  : option WorkspaceEvent * WorkspaceState :=
  match u with
  | ServerRenamed ws id name => project_server_renamed ws id name w
  | AgentRenamed ws id name => project_agent_renamed ws id name now w
  | AgentDeleted ws id => project_agent_deleted ws id w
  | ServerDeleted ws id => project_server_deleted ws id w
  | WorkspaceUpsert _ | WorkspaceDeleted _ => (None, w)
  end.
Definition projection_workspace (u : ClusterProjectionUpdate) : string :=
  match u with
  | ServerRenamed ws _ _ | AgentRenamed ws _ _ | AgentDeleted ws _ | ServerDeleted ws _
  | WorkspaceDeleted ws => ws
  | WorkspaceUpsert i => wi_workspace_id i
  end.

(** The atoms whose arguments are unrestricted. *)
Inductive Atomic : forall {A : Type}, PM A -> Prop :=
| at_send channel frame : (forall e, frame <> command_frame e) -> Atomic (atom_send channel frame)
| at_browser channel r c : Atomic (atom_send_terminal_to_browser channel (TMClosed r c))
| at_call c : Atomic (atom_call c)
| at_notify e : Atomic (atom_notify e)
| at_publish e : Atomic (atom_publish_workspace_event e)
| at_signal ws : Atomic (atom_signal ws)
| at_reenroll ws id : Atomic (allow_server_reenrollment ws id)
| at_upsert i b : Atomic (atom_upsert_workspace i b)
| at_create i : Atomic (atom_create_workspace i)
| at_mutate ws name d m : Atomic (atom_mutate_workspace ws name d (mutation_of m))
| at_streams k : Atomic (atom_take_streams k)
| at_stream channel f : Atomic (atom_send_stream channel f)
| at_sessions k : Atomic (atom_take_sessions k)
| at_session id : Atomic (atom_remove_session id)
| at_open_session id t : Atomic (atom_open_session id t)
| at_unconnect k : Atomic (atom_remove_connection k)
| at_connect k c : Atomic (atom_connect k c)
| at_disconnect k c : Atomic (atom_disconnect k c)
| at_cancel k e : Atomic (atom_cancel_pending k e)
| at_snapshot s l c : Atomic (atom_apply_snapshot s l c)
| at_heartbeat ws id t : Atomic (atom_heartbeat ws id t)
| at_agent a : Atomic (atom_agent_event a)
| at_restore ws l : Atomic (restore_deleted_agents ws l)
| at_delete_agent ws id : Atomic (atom_delete_agent ws id)
| at_rename_agent ws id n t : Atomic (atom_rename_agent ws id n t)
| at_rename_server ws id n : Atomic (atom_rename_server ws id n)
| at_delete_server ws id : Atomic (atom_delete_server ws id)
| at_delete_workspace ws : Atomic (atom_remove_workspace ws)
| at_note_snapshot k r : Atomic (atom_note_snapshot k r)
| at_replica s : Atomic (atom_replica_snapshot s)
| at_end_lease k r : Atomic (atom_end_lease k r)
| at_offline ws id t : Atomic (atom_mark_offline ws id t)
| at_note_lease k r t : Atomic (atom_note_lease k r t)
| at_online ws id t : Atomic (atom_mark_online ws id t)
| at_expire a t : Atomic (expire_cluster_lease_entries a t)
| at_project u t : Atomic (with_known_workspace (projection_workspace u) (projection_of u t))
| at_launch n : Atomic (atom_launch n)
| at_forget id : Atomic (atom_forget id)
| at_complete ws id r : Atomic (atom_complete ws id r)
| at_resend_lookup k : Atomic (atom_resend_lookup k)
| at_reject n : Atomic (atom_reject n)
| at_resend n db : Atomic (atom_resend n db)
| at_deliver d : Atomic (atom_deliver d).

(** Actions of the other ends of the channels. *)
Inductive External : Type :=
| SocketDropped (channel : Channel)
| BrowserOpened (channel : Channel) (capacity : nat)
| BrowserDropped (channel : Channel)
| BrowserReceives (channel : Channel).

Definition external (e : External) : World -> World := fun w =>
  match e with
  | SocketDropped channel => set_wd_closed w ({[channel]} ∪ wd_closed w)
  | BrowserOpened channel capacity => set_wd_queues w (<[channel := mkBrowserQueue capacity []]> (wd_queues w))
  | BrowserDropped channel => set_wd_queues w (delete channel (wd_queues w))
  | BrowserReceives channel =>
      set_wd_queues w (alter (fun q => mkBrowserQueue (bq_capacity q) (tail (bq_frames q))) channel (wd_queues w))
  end.

(** Identifiers of commands anywhere in the state. *)
Definition flight_ids (f : Flight) : list string :=
  match f with
  | FlightChecked _ _ e | FlightPending _ _ e | FlightResend _ _ e _ => [ce_command_id e]
  | FlightTake _ _ _ => []
  end.
Definition frame_ids (cf : Channel * SocketFrame) : list string :=
  match cf.2 with FText (TextProxy (PMCommand e)) => [ce_command_id e] | _ => [] end.

Definition fresh_command (id : string) (s : Proxy) : Prop :=
  in_pending (px_inner s) !! id = None
  /\ id ∉ (flights s ≫= flight_ids) /\ id ∉ (wd_sent (px_world s) ≫= frame_ids).
Definition fresh_waiter (waiter : Waiter) (s : Proxy) : Prop :=
  waiter ∉ pc_result <$> (map_to_list (in_pending (px_inner s))).*2
  /\ waiter ∉ (wd_results (px_world s)).*1.

(** A command gets a new identifier ([Uuid::new_v4]), a wait a new channel. *)
Inductive step (s : Proxy) : Proxy -> Prop :=
| step_atom {A} (m : PM A) : Atomic m -> step s (m s).2
| step_external e : step s (mkProxy (px_inner s) (external e (px_world s)))
| step_lookup key expected id command :
    fresh_command id s -> step s (atom_lookup key expected id command s).2
| step_pend n db waiter : fresh_waiter waiter s -> step s (atom_pend n db waiter s).2.

Definition steps : relation Proxy := rtc step.
Definition reachable (s : Proxy) : Prop := steps proxy_new s.

(** ** Sectional programs *)

Definition sectional {A} (m : PM A) : Prop := forall s, steps s (m s).2.

Lemma sectional_atom {A} (m : PM A) : Atomic m -> sectional m.
Proof. intros Hm s. apply rtc_once. by constructor. Qed.

Lemma sectional_read {A} (f : Proxy -> Result A ProtocolError) : sectional (fun s => (f s, s)).
Proof. intros s. constructor. Qed.

Lemma sectional_bind {A B} (m : PM A) (k : A -> PM B) :
  sectional m -> (forall a, sectional (k a)) -> sectional (st_bind m k).
Proof.
  intros Hm Hk s. specialize (Hm s). unfold st_bind. destruct (m s) as [[a|e] s1]; [|done].
  simpl in *. etrans; [exact Hm|apply Hk].
Qed.

Lemma sectional_ignore {A} (m : PM A) : sectional m -> sectional (ignore m).
Proof. intros Hm s. apply Hm. Qed.

Lemma sectional_for_each {A} (f : A -> PM unit) l :
  (forall a, sectional (f a)) -> sectional (for_each f l).
Proof.
  intros Hf. induction l as [|x l IH]; simpl; [intros s; constructor|]. by apply sectional_bind.
Qed.

Lemma sectional_repeat k m : sectional m -> sectional (repeat_atom k m).
Proof.
  intros Hm. induction k as [|k IH]; simpl; [intros s; constructor|]. by apply sectional_bind.
Qed.

End Steps.

Create HintDb sectional.
#[export] Hint Constructors Atomic : sectional.
#[export] Hint Resolve sectional_atom sectional_ignore sectional_for_each sectional_repeat : sectional.

(** Splits a program into its atoms. *)
Ltac sectional :=
  repeat first
    [ progress intros
    | match goal with
      | |- sectional (fun s => (_, s)) => apply sectional_read
      | |- sectional (st_bind _ _) => apply sectional_bind
      | |- sectional (ignore _) => apply sectional_ignore
      | |- sectional (for_each _ _) => apply sectional_for_each
      | |- sectional (repeat_atom _ _) => apply sectional_repeat
      | |- sectional (st_ret _) => intros ?; constructor
      | |- sectional (st_throw _) => intros ?; constructor
      | |- sectional (st_lift _) => intros ?; constructor
      | |- sectional (gets _) => intros ?; constructor
      | |- sectional (match ?x with _ => _ end) => destruct x
      | |- sectional (if ?x then _ else _) => destruct x
      | |- sectional _ => apply sectional_atom; by constructor
      | |- sectional _ => solve [auto with sectional nocore]
      end ].

(** ** Handlers are sectional *)

Section HandlerSteps.
Context {Codec : ErrorCodec} {C : Base64}.

Lemma mutate_sectional ws name d m : sectional (mutate_workspace ws name d (mutation_of m)).
Proof. unfold mutate_workspace. sectional.
Qed.

Lemma local_frame_sectional ws id expected frame :
  (forall e, frame <> command_frame e) -> sectional (local_server_frame ws id expected frame).
Proof. intros Hf. unfold local_server_frame. sectional. Qed.

Lemma server_frame_sectional B ws id frame :
  (forall e, frame <> command_frame e) -> sectional (send_server_frame B ws id frame).
Proof. intros Hf. unfold send_server_frame. sectional; by apply local_frame_sectional. Qed.

Lemma broadcast_sectional B u : sectional (broadcast_projection B u).
Proof. unfold broadcast_projection. sectional. Qed.

Lemma upsert_sectional i b : sectional (upsert_workspace_info i b).
Proof. unfold upsert_workspace_info. sectional. Qed.

Lemma ensure_sectional ws name now : sectional (ensure_workspace ws name now).
Proof. apply upsert_sectional. Qed.

Lemma close_streams_sectional ws id : sectional (close_server_network_streams ws id).
Proof. unfold close_server_network_streams. sectional. Qed.

Lemma close_terminals_sectional r l : sectional (close_terminals r l).
Proof. unfold close_terminals. sectional. Qed.

Lemma close_sessions_sectional ws id r : sectional (close_server_sessions ws id r).
Proof.
  unfold close_server_sessions. sectional; [apply close_terminals_sectional|apply close_streams_sectional].
Qed.

Lemma detach_sectional B id : sectional (detach_terminal B id).
Proof. unfold detach_terminal. sectional. by apply server_frame_sectional. Qed.

Lemma close_agent_sectional B ws id : sectional (close_agent_terminals B ws id).
Proof. unfold close_agent_terminals. sectional. apply detach_sectional. Qed.

Lemma release_connection_sectional k : sectional (release_connection k).
Proof. unfold release_connection, cluster_release. sectional. Qed.

Lemma release_runtime_sectional ws id r e : sectional (release_server_runtime ws id r e).
Proof.
  unfold release_server_runtime.
  sectional; auto using release_connection_sectional, close_terminals_sectional, close_streams_sectional.
Qed.

Lemma bury_workspace_sectional ws w : sectional (bury_workspace ws w).
Proof. unfold bury_workspace. sectional. apply release_runtime_sectional. Qed.

Lemma publish_sectional B ws id c : sectional (cluster_publish B ws id c).
Proof. unfold cluster_publish, server_snapshot. sectional. Qed.

Lemma notify_replaced_sectional r c id : sectional (notify_replaced r c id).
Proof. unfold notify_replaced. sectional. Qed.

Lemma claim_sectional B k c : sectional (claim_server B k c).
Proof. unfold claim_server, server_snapshot. sectional. Qed.

Lemma require_current_sectional ws id c : sectional (require_current_connection ws id c).
Proof. intros s. unfold require_current_connection. repeat case_match; constructor. Qed.

Lemma resend_sectional db ws id : sectional (resend_pending db ws id).
Proof. unfold resend_pending. sectional. Qed.

Lemma disconnect_replica_sectional ws id r t : sectional (apply_cluster_disconnect ws id r t).
Proof.
  unfold apply_cluster_disconnect, server_outgoing, notify_opt.
  sectional; apply close_sessions_sectional.
Qed.

Lemma session_delivery_sectional B d : sectional (handle_cluster_session_delivery B d).
Proof. unfold handle_cluster_session_delivery. sectional. by apply server_frame_sectional. Qed.

Lemma deliver_sectional B d : sectional (deliver_session_frame B d).
Proof. unfold deliver_session_frame. sectional. apply session_delivery_sectional. Qed.

End HandlerSteps.

#[export] Hint Resolve mutate_sectional local_frame_sectional server_frame_sectional broadcast_sectional
  upsert_sectional ensure_sectional close_streams_sectional close_terminals_sectional
  close_sessions_sectional detach_sectional close_agent_sectional release_connection_sectional
  release_runtime_sectional bury_workspace_sectional publish_sectional notify_replaced_sectional
  claim_sectional require_current_sectional resend_sectional disconnect_replica_sectional
  session_delivery_sectional deliver_sectional : sectional.

(** ** The handlers *)

Section Handler.
Context {Codec : ErrorCodec} {C : Base64}.

(** A call of an operation of [AppState] that may change the state, with its arguments. *)
Inductive Handler : Type :=
| HSignal (ws event : string) (data : Z -> Value)
| HReenroll (ws id : string)
| HBroadcast (ws : string) (message : ProxyMessage)
| HEnsureWorkspace (ws name : string) (now : Time)
| HCreateWorkspace (B : Backplane) (info : WorkspaceInfo)
| HRenameWorkspace (B : Backplane) (info : WorkspaceInfo)
| HRegister (B : Backplane) (server : ServerInfo) (connection : Uuid) (controller : string)
    (capabilities : list string) (outgoing : Channel) (created now : Time)
| HSnapshot (B : Backplane) (db : Tombstones) (connection : Uuid) (snap : AgentServerSnapshot) (now : Time)
| HHeartbeat (B : Backplane) (ws id : string) (connection : Uuid) (now : Time)
| HAgentEvent (B : Backplane) (connection : Uuid) (agent : AgentInfo)
| HRestoreDeleted (ws : string) (ids : list string)
| HDeleteAgent (B : Backplane) (ws id : string)
| HRenameServer (B : Backplane) (ws id name : string)
| HDeleteServer (B : Backplane) (ws id : string)
| HDeleteWorkspace (B : Backplane) (ws : string)
| HRenameAgent (B : Backplane) (ws id name : string) (now : Time)
| HDisconnect (ws id : string) (connection : Uuid) (now : Time)
| HClusterSocket (ws id : string) (connection : Uuid) (frame : SocketFrame)
| HClusterSnapshot (update : ClusterServerSnapshot) (now : Time)
| HClusterDisconnect (ws id : string) (revision : Z) (now : Time)
| HClusterLease (ws id : string) (revision : Z) (now : Time)
| HExpireLeases (max_age now : Time)
| HProjection (B : Backplane) (update : ClusterProjectionUpdate) (now : Time)
| HSessionDelivery (B : Backplane) (d : ClusterSessionDelivery)
| HSendCommand (db : Tombstones) (ws id : string) (expected : option Uuid) (command_id : string)
    (command : AgentCommand) (waiter : Waiter)
| HFinishCommand (command_id : string) (waited : Waited)
| HComplete (ws id : string) (connection : Uuid) (result : CommandResult)
| HAttach (B : Backplane) (ws agent : string) (cols rows : Z) (cursor : option TerminalCursor)
    (outgoing : Channel) (unique : string)
| HInput (B : Backplane) (session : string) (data : bytes)
| HResize (B : Backplane) (session : string) (cols rows : Z)
| HDetach (B : Backplane) (session : string)
| HReady (B : Backplane) (ws id : string) (connection : Uuid) (session : string) (ready : TerminalReadyPayload)
| HOutput (B : Backplane) (ws id : string) (connection : Uuid) (session : string) (revision : Z) (data : bytes)
| HClosed (B : Backplane) (ws id : string) (connection : Uuid) (session : string) (reason : option string)
    (exit_code : option Z).

Definition run_handler (h : Handler) (s : Proxy) : Proxy :=
  match h with
  | HSignal ws event data => (publish_workspace_signal ws event data s).2
  | HReenroll ws id => (allow_server_reenrollment ws id s).2
  | HBroadcast ws message => (broadcast_proxy_message ws message s).2
  | HEnsureWorkspace ws name now => (ensure_workspace ws name now s).2
  | HCreateWorkspace B info => (create_workspace_info B info s).2
  | HRenameWorkspace B info => (rename_workspace_info B info s).2
  | HRegister B server connection controller capabilities outgoing created now =>
      (register_server_instance_with_capabilities B server connection controller capabilities outgoing
         created now s).2
  | HSnapshot B db connection snap now => (apply_snapshot B db connection snap now s).2
  | HHeartbeat B ws id connection now => (heartbeat B ws id connection now s).2
  | HAgentEvent B connection agent => (apply_agent_event B connection agent s).2
  | HRestoreDeleted ws ids => (restore_deleted_agents ws ids s).2
  | HDeleteAgent B ws id => (delete_agent B ws id s).2
  | HRenameServer B ws id name => (rename_server B ws id name s).2
  | HDeleteServer B ws id => (delete_server B ws id s).2
  | HDeleteWorkspace B ws => (delete_workspace B ws s).2
  | HRenameAgent B ws id name now => (rename_agent B ws id name now s).2
  | HDisconnect ws id connection now => (disconnect_server ws id connection now s).2
  | HClusterSocket ws id connection frame => (handle_cluster_socket ws id connection frame s).2
  | HClusterSnapshot update now => (apply_cluster_snapshot update now s).2
  | HClusterDisconnect ws id revision now => (apply_cluster_disconnect ws id revision now s).2
  | HClusterLease ws id revision now => (note_cluster_lease ws id revision now s).2
  | HExpireLeases max_age now => (expire_cluster_leases max_age now s).2
  | HProjection B update now => (apply_cluster_projection B update now s).2
  | HSessionDelivery B d => (handle_cluster_session_delivery B d s).2
  | HSendCommand db ws id expected command_id command waiter =>
      (send_local_command db ws id expected command_id command waiter s).2
  | HFinishCommand command_id waited => (finish_command command_id waited s).2
  | HComplete ws id connection result => (complete_command_from ws id connection result s).2
  | HAttach B ws agent cols rows cursor outgoing unique =>
      (attach_terminal B ws agent cols rows cursor outgoing unique s).2
  | HInput B session data => (terminal_input B session data s).2
  | HResize B session cols rows => (terminal_resize B session cols rows s).2
  | HDetach B session => (detach_terminal B session s).2
  | HReady B ws id connection session ready => (terminal_ready B ws id connection session ready s).2
  | HOutput B ws id connection session revision data =>
      (terminal_output B ws id connection session revision data s).2
  | HClosed B ws id connection session reason exit_code =>
      (terminal_closed B ws id connection session reason exit_code s).2
  end.

(** A command's identifier and waiter are new; frames forwarded for other Proxies and broadcasts
    are not commands. *)
Definition handler_ok (h : Handler) (s : Proxy) : Prop :=
  match h with
  | HSendCommand _ _ _ _ command_id _ waiter => fresh_command command_id s /\ fresh_waiter waiter s
  | HClusterSocket _ _ _ frame => forall e, frame <> command_frame e
  | HBroadcast _ message => forall e, message <> PMCommand e
  | _ => True
  end.

Lemma register_sectional B server connection controller capabilities outgoing created now :
  sectional (register_server_instance_with_capabilities B server connection controller capabilities
               outgoing created now).
Proof.
  unfold register_server_instance_with_capabilities, register_check, register_connect, check_not_deleted.
  sectional.
  apply (mutate_sectional _ _ _ (MutPutServer (registered_server server capabilities now))).
Qed.

Lemma project_sectional u now :
  sectional (with_known_workspace (projection_workspace u) (projection_of u now)).
Proof. apply sectional_atom. constructor. Qed.

Lemma projection_sectional B u now : sectional (apply_cluster_projection B u now).
Proof.
  destruct u as [i|ws|ws id n|ws id n|ws id|ws id]; unfold apply_cluster_projection, notify_opt; sectional.
  - apply (project_sectional (ServerRenamed ws id n) now).
  - apply (project_sectional (AgentRenamed ws id n) now).
  - apply (project_sectional (ServerDeleted ws id) now).
  - apply (project_sectional (AgentDeleted ws id) now).
Qed.

Lemma attach_sectional B ws agent cols rows cursor outgoing unique :
  sectional (attach_terminal B ws agent cols rows cursor outgoing unique).
Proof.
  unfold attach_terminal, resolve_agent. sectional. intros s.
  assert (sectional (send_server_frame B ws (ag_server_id a) (FText (TextProxy
    (PMTerminalAttach (routed_id (bp_instance_id B) "term" unique) (ag_agent_id a)
       (Z.max cols 1) (Z.max rows 1) cursor))))) as Hs by (by apply server_frame_sectional).
  specialize (Hs s). destruct (send_server_frame _ _ _ _ s) as [[u|e] s']; [done|].
  etrans; [exact Hs|]. apply sectional_bind; sectional.
Qed.

Lemma disconnect_sectional ws id c now : sectional (disconnect_server ws id c now).
Proof.
  unfold disconnect_server, cluster_release. sectional.
  apply (mutate_sectional _ _ _ (MutOffline id now)).
Qed.

Lemma send_command_steps db ws id expected command_id command waiter s :
  fresh_command command_id s -> fresh_waiter waiter s ->
  steps s (send_local_command db ws id expected command_id command waiter s).2.
Proof.
  intros Hc Hw. unfold send_local_command. unfold st_bind at 1.
  pose proof (step_lookup s (ws, id) expected command_id command Hc) as H1.
  unfold st_bind at 1.
  destruct (atom_lookup _ _ _ _ s) as [[[]|e] s1] eqn:E1; [|by apply rtc_once].
  assert (fresh_waiter waiter s1) as Hw1.
  { revert E1 Hw. unfold atom_lookup. repeat case_match; intros; by simplify_eq. }
  etrans; [by apply rtc_once|]. simpl. unfold st_bind.
  pose proof (step_pend s1 (length (flights s)) db waiter Hw1) as H2.
  destruct (atom_pend _ _ _ s1) as [[[]|e] s2]; [|by apply rtc_once].
  etrans; [by apply rtc_once|]. apply (sectional_atom (atom_launch (length (flights s)))). constructor.
Qed.

(** The atomic steps account for the handlers: running an operation of [Handler], on any state in
    which its fresh identifiers are fresh and whatever the backplane and the database answer, is a
    sequence of steps.  The operations of the network streams (state/network.rs), which are in
    [ProxyNetwork], are not among them. *)
Theorem handlers_are_step_sequences h s : handler_ok h s -> steps s (run_handler h s).
Proof.
  destruct h; cbn [run_handler handler_ok]; intros Hok; try (destruct Hok; by apply send_command_steps);
    match goal with |- steps _ (?m _).2 => enough (sectional m) as H by apply H end;
    auto using register_sectional, projection_sectional, attach_sectional, disconnect_sectional
      with sectional.
  - unfold publish_workspace_signal. sectional.
  - unfold broadcast_proxy_message, handle_cluster_workspace_broadcast. sectional.
    apply sectional_atom, at_send. intros e [= ->]. by eapply Hok.
  - unfold create_workspace_info. sectional.
  - unfold rename_workspace_info. sectional.
  - unfold apply_snapshot, live_capabilities. sectional.
  - unfold heartbeat. sectional.
  - unfold apply_agent_event. sectional.
  - unfold delete_agent. sectional.
  - unfold rename_server. sectional.
  - unfold delete_server. sectional.
  - unfold delete_workspace. sectional.
  - unfold rename_agent. sectional.
  - by apply local_frame_sectional.
  - unfold apply_cluster_snapshot, notify_opt. sectional.
  - unfold note_cluster_lease, notify_opt. sectional.
  - unfold expire_cluster_leases. sectional.
  - unfold finish_command. sectional.
  - unfold complete_command_from. sectional.
  - unfold terminal_input, terminal_session_route. sectional. by apply server_frame_sectional.
  - unfold terminal_resize, terminal_session_route. sectional. by apply server_frame_sectional.
  - unfold terminal_ready. sectional.
  - unfold terminal_output. sectional.
  - unfold terminal_closed, relay_terminal. sectional.
Qed.

End Handler.
