(* ===== verification/ProxyInventory.v ===== *)
(** * The inventory in every interleaving

    What one atom does to one workspace, the invariant of a workspace, and the fate of deleted
    Agents. *)

From stdpp Require Import gmap.
From S2P Require Import Prelude RustStr Protocol HostProtocol Activity BinaryFrames ProxyTypes ProxyState.
From S2P Require Import ProxyReplica ProxyCommands ClusterKeys ProxyTerminal ProxySteps.
Local Open Scope Z_scope.

(** Agents and machines are stored under their own identifiers, and a deleted Agent is not
    among the Agents. *)
Record inventory_ok (w : WorkspaceState) : Prop := {
  agents_keyed : forall id a, w_agents w !! id = Some a -> ag_agent_id a = id;
  servers_keyed : forall id s, w_servers w !! id = Some s -> si_server_id s = id;
  deleted_absent : forall id, id ∈ w_deleted_agents w -> w_agents w !! id = None
}.

(** From [w] to [w']: the invariant is kept, and only Agents of [R] lose their tombstone. *)
Definition wgood (R : string -> Prop) (w w' : WorkspaceState) : Prop :=
  (inventory_ok w -> inventory_ok w')
  /\ forall id, id ∈ w_deleted_agents w -> id ∈ w_deleted_agents w' \/ R id.

Definition none : string -> Prop := fun _ => False.

Section Changes.
Implicit Types w : WorkspaceState.

Lemma wgood_refl R w : wgood R w w.
Proof. split; auto. Qed.

Lemma wgood_trans R w1 w2 w3 : wgood none w1 w2 -> wgood R w2 w3 -> wgood R w1 w3.
Proof.
  intros [H1 H2] [H3 H4]. split; [auto|]. intros id Hid. destruct (H2 id Hid) as [?|[]]. auto.
Qed.

Lemma wgood_trans_r R w1 w2 w3 : wgood R w1 w2 -> wgood none w2 w3 -> wgood R w1 w3.
Proof.
  intros [H1 H2] [H3 H4]. split; [auto|]. intros id Hid.
  destruct (H2 id Hid) as [Hid2|?]; [|by right]. by destruct (H4 id Hid2) as [?|[]]; left.
Qed.

(** Fields the invariant does not look at. *)
Lemma wgood_same w w' :
  w_agents w' = w_agents w -> w_servers w' = w_servers w -> w_deleted_agents w' = w_deleted_agents w ->
  wgood none w w'.
Proof.
  intros Ha Hs Hd. split; [|rewrite Hd; auto].
  intros [H1 H2 H3]. split; rewrite ?Ha, ?Hs, ?Hd; auto.
Qed.

Lemma wgood_servers w m :
  (forall id s, m !! id = Some s -> si_server_id s = id \/ w_servers w !! id = Some s) ->
  wgood none w (set_w_servers w m).
Proof.
  intros Hm. split; [|auto]. intros [H1 H2 H3]. split; simpl; [done| |done].
  intros id s Hid. destruct (Hm id s Hid) as [?|?]; auto.
Qed.

Lemma wgood_put_server w id s : si_server_id s = id -> wgood none w (set_w_servers w (<[id := s]> (w_servers w))).
Proof.
  intros Hs. apply wgood_servers. intros id' s'. rewrite lookup_insert_Some. intros [[-> ->]|[_ ?]]; auto.
Qed.

Lemma wgood_delete_server w id : wgood none w (set_w_servers w (delete id (w_servers w))).
Proof. apply wgood_servers. intros id' s' [_ ?]%lookup_delete_Some. auto. Qed.

(** An assignment to a machine that is there. *)
Lemma wgood_alter_server w id f :
  (forall s, si_server_id (f s) = si_server_id s) -> (inventory_ok w -> True) ->
  wgood none w (set_w_servers w (alter f id (w_servers w))).
Proof.
  intros Hf _. split; [|auto]. intros [H1 H2 H3]. split; simpl; [done| |done].
  intros id' s. rewrite lookup_alter_Some. intros [(-> & s0 & Hs0 & ->)|[_ ?]]; [|auto].
  rewrite Hf. auto.
Qed.

Lemma wgood_replace_server w id s s' :
  w_servers w !! id = Some s -> si_server_id s' = si_server_id s ->
  wgood none w (set_w_servers w (<[id := s']> (w_servers w))).
Proof.
  intros Hs He. split; [|auto]. intros [H1 H2 H3]. split; simpl; [done| |done].
  intros id' s''. rewrite lookup_insert_Some. specialize (H2 _ _ Hs) as Hid.
  intros [[? ?]|[_ ?]]; [congruence|auto].
Qed.

(** Fewer Agents. *)
Lemma wgood_fewer_agents w m : m ⊆ w_agents w -> wgood none w (set_w_agents w m).
Proof.
  intros Hm. split; [|auto]. intros [H1 H2 H3]. split; simpl; [|done|].
  - intros id a Hid. eapply H1, lookup_weaken; eauto.
  - intros id Hid. apply eq_None_not_Some. intros [a Ha].
    specialize (H3 id Hid). rewrite (lookup_weaken _ _ _ _ Ha Hm) in H3. done.
Qed.

Lemma wgood_drop_agents w id : wgood none w (drop_agents_of id w).
Proof. apply wgood_fewer_agents, map_filter_subseteq. Qed.

Lemma wgood_put_agent w a : ag_agent_id a ∉ w_deleted_agents w -> wgood none w (put_agent w a).
Proof.
  intros Ha. split; [|auto]. intros [H1 H2 H3]. split; simpl; [|done|].
  - intros id a'. rewrite lookup_insert_Some. intros [[<- ->]|[_ ?]]; auto.
  - intros id Hid. rewrite lookup_insert_ne by (intros <-; done). auto.
Qed.

Lemma wgood_replace_agent w id a a' :
  w_agents w !! id = Some a -> ag_agent_id a' = ag_agent_id a ->
  wgood none w (set_w_agents w (<[id := a']> (w_agents w))).
Proof.
  intros Ha He. split; [|auto]. intros [H1 H2 H3]. split; simpl; [|done|].
  - intros id' a''. rewrite lookup_insert_Some. specialize (H1 _ _ Ha) as Hid.
    intros [[? ?]|[_ ?]]; [congruence|auto].
  - intros id' Hid. destruct (decide (id' = id)) as [->|].
    + specialize (H3 id Hid). congruence.
    + rewrite lookup_insert_ne by done. auto.
Qed.

Lemma wgood_bump R w w' : wgood R w w' -> wgood R w (bump w').
Proof. intros H. split; [|apply H]. intros Hw. destruct (proj1 H Hw). by split. Qed.

Lemma wgood_bury w id : wgood none w (bury_agent w id).
Proof.
  split; [|simpl; set_solver]. intros [H1 H2 H3]. split; simpl; [|done|].
  - intros id' a [_ ?]%lookup_delete_Some. auto.
  - intros id' [->%elem_of_singleton|Hid]%elem_of_union; [by rewrite lookup_delete_eq|].
    apply lookup_delete_None. auto.
Qed.

Lemma wgood_foldl {A} (f : WorkspaceState -> A -> WorkspaceState) l :
  (forall w a, wgood none w (f w a)) -> forall w, wgood none w (foldl f w l).
Proof.
  intros Hf. induction l as [|a l IH]; intros w; simpl; [apply wgood_refl|].
  eapply wgood_trans; [apply Hf|apply IH].
Qed.

Lemma wgood_snapshot_agent ws id names w a : wgood none w (take_snapshot_agent ws id names w a).
Proof.
  unfold take_snapshot_agent. case_match eqn:E; [|apply wgood_refl].
  apply wgood_put_agent. simpl. apply andb_true_iff in E as [_ E].
  apply negb_true_iff, bool_decide_eq_false in E. done.
Qed.

Lemma wgood_replica_agent names w a : wgood none w (take_replica_agent names w a).
Proof.
  unfold take_replica_agent. case_bool_decide; [apply wgood_refl|]. by apply wgood_put_agent.
Qed.

Lemma wgood_lift R w w' : wgood none w w' -> wgood R w w'.
Proof. intros [H1 H2]. split; [done|]. intros id Hid. by destruct (H2 id Hid) as [?|[]]; left. Qed.
End Changes.

#[export] Hint Resolve wgood_refl wgood_bump wgood_put_server wgood_delete_server wgood_drop_agents
  wgood_bury wgood_foldl wgood_snapshot_agent wgood_replica_agent wgood_lift : wgood.

(** ** What an atom does to the workspaces *)

Definition workspaces (s : Proxy) : gmap string WorkspaceState := in_workspaces (px_inner s).

Definition changes (R : string -> string -> Prop) (m m' : gmap string WorkspaceState) : Prop :=
  forall ws,
  match m !! ws, m' !! ws with
  | Some w, Some w' => wgood (R ws) w w'
  | None, Some w' => inventory_ok w' /\ w_deleted_agents w' = ∅
  | Some _, None => forall id, R ws id
  | None, None => True
  end.

Lemma changes_refl R m : changes R m m.
Proof. intros ws. case_match; [apply wgood_refl|done]. Qed.

Lemma changes_insert (R : string -> string -> Prop) m ws w w' :
  m !! ws = Some w -> wgood (R ws) w w' -> changes R m (<[ws := w']> m).
Proof.
  intros Hw Hg ws'. destruct (decide (ws' = ws)) as [->|].
  - by rewrite Hw, lookup_insert_eq.
  - rewrite lookup_insert_ne by done. case_match; [apply wgood_refl|done].
Qed.

Lemma changes_with_workspace {A} (R : string -> string -> Prop) ws
    (f : WorkspaceState -> Result A ProtocolError * WorkspaceState) s :
  (forall w, wgood (R ws) w (f w).2) -> changes R (workspaces s) (workspaces (with_workspace ws f s).2).
Proof.
  intros Hf. unfold with_workspace, workspaces. case_match eqn:E; [|apply changes_refl].
  specialize (Hf w). destruct (f w) as [r w']. simpl in *. by eapply changes_insert.
Qed.

Lemma changes_known (R : string -> string -> Prop) ws f s :
  (forall w, wgood (R ws) w (f w).2) ->
  changes R (workspaces s) (workspaces (with_known_workspace ws f s).2).
Proof.
  intros Hf. unfold with_known_workspace, workspaces. case_match eqn:E; [|apply changes_refl].
  specialize (Hf w). destruct (f w) as [r w']. simpl in *. by eapply changes_insert.
Qed.

Lemma new_ok i : inventory_ok (workspace_new i).
Proof. split; simpl; intros *; rewrite ?lookup_empty; done || set_solver. Qed.

(** The atoms that lift a tombstone or forget a workspace. *)
Inductive Revives (ws id : string) : forall {A : Type}, PM A -> Prop :=
| rv_rename name t :
    Revives ws id (with_known_workspace (projection_workspace (AgentRenamed ws id name))
                     (projection_of (AgentRenamed ws id name) t))
| rv_remove : Revives ws id (atom_remove_workspace ws).

Lemma wgood_server_renamed R ws id n w : wgood R w (project_server_renamed ws id n w).2.
Proof.
  apply wgood_lift. unfold project_server_renamed. cbv zeta. set (w1 := set_w_server_names _ _).
  assert (wgood none w w1) as H1 by (by apply wgood_same).
  repeat case_match; simpl; [done| |done].
  apply wgood_bump. eapply wgood_trans; [exact H1|]. by eapply (wgood_replace_server w1).
Qed.

Lemma wgood_agent_renamed ws id n t w :
  wgood (fun id' => id' = id) w (project_agent_renamed ws id n t w).2.
Proof.
  set (w1 := set_w_agent_names (set_w_deleted_agents w (w_deleted_agents w ∖ {[id]}))
               (<[id := n]> (w_agent_names w))).
  assert (wgood (fun id' => id' = id) w w1) as H1.
  { split.
    - intros [? ? H3]. split; simpl; auto. intros id' Hid. apply H3. set_solver.
    - simpl. intros id' Hid. destruct (decide (id' = id)); [by right|left; set_solver]. }
  unfold project_agent_renamed. cbv zeta. fold w1.
  repeat case_match; simpl snd; [done| |done].
  apply wgood_bump. eapply wgood_trans_r; [exact H1|]. by eapply (wgood_replace_agent w1).
Qed.

Lemma wgood_agent_deleted R ws id w : wgood R w (project_agent_deleted ws id w).2.
Proof.
  apply wgood_lift. unfold project_agent_deleted. case_match; simpl; auto with wgood.
Qed.

Lemma wgood_server_deleted R ws id w : wgood R w (project_server_deleted ws id w).2.
Proof.
  apply wgood_lift. unfold project_server_deleted. cbv zeta.
  set (w1 := set_w_deleted_servers _ _).
  assert (wgood none w w1) as H1.
  { eapply wgood_trans; [apply (wgood_delete_server w id)|]. by apply wgood_same. }
  case_match; simpl; [done|]. apply wgood_bump. eapply wgood_trans; [exact H1|].
  apply wgood_drop_agents.
Qed.

Lemma wgood_projection u t w :
  wgood (fun id' => Revives (projection_workspace u) id' (A := option WorkspaceEvent)
                      (with_known_workspace (projection_workspace u) (projection_of u t)))
    w (projection_of u t w).2.
Proof.
  destruct u; simpl; try apply wgood_refl.
  - apply wgood_server_renamed.
  - destruct (wgood_agent_renamed workspace_id agent_id name t w) as [H1 H2]. split; [done|].
    intros id' Hid. destruct (H2 id' Hid) as [?| ->]; [by left|right]. constructor.
  - apply wgood_server_deleted.
  - apply wgood_agent_deleted.
Qed.

Section Atoms.

(** Splits off the workspace atoms; the rest leave the workspaces alone. *)
Ltac with_ws := first [apply changes_with_workspace | apply changes_known]; intros w.

Lemma wgood_upsert_info w i : wgood none w (bump (set_w_info w i)).
Proof. apply wgood_bump. by apply wgood_same. Qed.

Lemma changes_upsert R i b s :
  changes R (workspaces s) (workspaces (atom_upsert_workspace i b s).2).
Proof.
  unfold atom_upsert_workspace, workspaces. simpl.
  set (id := wi_workspace_id i). intros ws. destruct (decide (ws = id)) as [->|].
  - rewrite lookup_insert_eq. destruct (in_workspaces (px_inner s) !! id) as [w|]; simpl.
    + case_match; [apply wgood_lift, wgood_upsert_info|apply wgood_refl].
    + case_match; split; try apply new_ok; done.
  - rewrite lookup_insert_ne by done. case_match; [apply wgood_refl|done].
Qed.

Lemma wgood_mutation m w : wgood none w (mutation_of m w).
Proof.
  destruct m; simpl; [by apply wgood_put_server|]. by apply wgood_alter_server.
Qed.

Lemma snapshot_server_id w server live : si_server_id (snapshot_server w server live) = si_server_id server.
Proof. unfold snapshot_server. repeat case_match; done. Qed.

Lemma replica_server_id w server : si_server_id (replica_server w server) = si_server_id server.
Proof. unfold replica_server. repeat case_match; done. Qed.

Lemma changes_apply_snapshot R server agents live s :
  changes R (workspaces s) (workspaces (atom_apply_snapshot server agents live s).2).
Proof.
  with_ws. apply wgood_lift. case_bool_decide; simpl; [apply wgood_refl|].
  apply wgood_bump. eapply wgood_trans.
  { apply (wgood_put_server w (si_server_id server)). apply snapshot_server_id. }
  eapply wgood_trans; [apply (wgood_drop_agents _ (si_server_id server))|].
  apply wgood_foldl. intros. apply wgood_snapshot_agent.
Qed.

Lemma changes_replica R snap s :
  changes R (workspaces s) (workspaces (atom_replica_snapshot snap s).2).
Proof.
  unfold atom_replica_snapshot, workspaces. case_match eqn:E; [|apply changes_refl].
  simpl. eapply changes_insert; [exact E|]. apply wgood_lift, wgood_bump.
  set (w1 := set_w_deleted_servers w _).
  eapply (wgood_trans _ _ w1); [by apply wgood_same|].
  eapply wgood_trans; [apply (wgood_put_server w1 _ _ (replica_server_id w1 (as_server snap)))|].
  eapply wgood_trans; [apply (wgood_drop_agents _ (si_server_id (as_server snap)))|].
  apply wgood_foldl. intros. apply wgood_replica_agent.
Qed.

Lemma changes_agent_event R a s :
  changes R (workspaces s) (workspaces (atom_agent_event a s).2).
Proof.
  with_ws. apply wgood_lift. case_bool_decide; [apply wgood_refl|]. case_bool_decide; [apply wgood_refl|].
  simpl. apply wgood_bump, wgood_put_agent. by case_match.
Qed.

Lemma changes_delete_server R ws id s :
  changes R (workspaces s) (workspaces (atom_delete_server ws id s).2).
Proof.
  with_ws. apply wgood_lift. case_match; simpl; [|apply wgood_refl].
  apply wgood_bump. eapply wgood_trans; [|apply wgood_foldl; intros; apply wgood_bury].
  eapply wgood_trans; [apply (wgood_delete_server w id)|]. by apply wgood_same.
Qed.

Lemma changes_same R s s' : workspaces s' = workspaces s -> changes R (workspaces s) (workspaces s').
Proof. intros ->. apply changes_refl. Qed.

Lemma changes_alter (R : string -> string -> Prop) m ws f :
  (forall w, wgood (R ws) w (f w)) -> changes R m (alter f ws m).
Proof.
  intros Hf ws'. destruct (decide (ws' = ws)) as [->|].
  - rewrite lookup_alter_eq. destruct (m !! ws); simpl; [apply Hf|done].
  - rewrite lookup_alter_ne by done. case_match; [apply wgood_refl|done].
Qed.

Lemma changes_status R ws id st t s :
  changes R (workspaces s) (workspaces (match st with Online => atom_mark_online ws id t s
                                        | Offline => let r := atom_mark_offline ws id t s in (Ok None, r.2) end).2).
Proof.
  destruct st; unfold atom_mark_online, atom_mark_offline, workspaces; repeat case_match;
    try apply changes_refl; simpl; (eapply changes_insert; [done|]);
    apply wgood_lift, wgood_bump; by apply wgood_alter_server.
Qed.

Lemma atom_changes {A} (m : PM A) s :
  Atomic m -> changes (fun ws id => Revives ws id m) (workspaces s) (workspaces (m s).2).
Proof.
  intros Hm. destruct Hm;
    try apply changes_refl; try apply changes_upsert; try apply changes_apply_snapshot;
    try apply changes_agent_event; try apply changes_delete_server; try apply changes_replica;
    try (apply changes_same; unfold atom_send, atom_disconnect, atom_note_snapshot, atom_end_lease,
           atom_note_lease, atom_launch, atom_complete, atom_resend_lookup, atom_reject, atom_resend,
           atom_deliver; cbv zeta; repeat case_match; reflexivity).
  - unfold atom_signal, workspaces. case_match eqn:E; [|apply changes_refl].
    eapply changes_insert; [exact E|]. auto with wgood.
  - apply changes_alter. intros w. apply wgood_lift. by apply wgood_same.
  - unfold atom_create_workspace, workspaces. case_match eqn:E; [apply changes_refl|]. simpl.
    intros ws. destruct (decide (ws = wi_workspace_id i)) as [->|].
    + rewrite E, lookup_insert_eq. split; [apply new_ok|done].
    + rewrite lookup_insert_ne by done. case_match; [apply wgood_refl|done].
  - with_ws. apply wgood_lift, wgood_bump, wgood_mutation.
  - with_ws. apply wgood_lift. case_match; [|apply wgood_refl]. by eapply wgood_replace_server.
  - with_ws. apply wgood_lift, wgood_foldl. intros. apply wgood_bury.
  - with_ws. apply wgood_lift. case_match; [|apply wgood_refl]. apply wgood_bump, wgood_bury.
  - with_ws. apply wgood_lift. case_match; [|apply wgood_refl]. simpl. apply wgood_bump.
    eapply (wgood_trans _ _ (set_w_agents w (<[id := agent_updated_at (agent_with_name a n) t]> (w_agents w))));
      [by eapply wgood_replace_agent|by apply wgood_same].
  - with_ws. apply wgood_lift. case_match; [|apply wgood_refl]. simpl. apply wgood_bump.
    eapply (wgood_trans _ _ (set_w_servers w (<[id := server_with_name s0 n]> (w_servers w))));
      [by eapply wgood_replace_server|by apply wgood_same].
  - unfold atom_remove_workspace, workspaces. simpl. intros ws'.
    destruct (decide (ws' = ws)) as [->|].
    + rewrite lookup_delete_eq. case_match; [constructor|done].
    + rewrite lookup_delete_ne by done. case_match; [apply wgood_refl|done].
  - apply (changes_status _ ws id Offline t s).
  - apply (changes_status _ ws id Online t s).
  - apply changes_known. intros w. apply wgood_projection.
Qed.

Lemma step_changes s s' :
  step s s' ->
  changes (fun ws id => exists A (m : PM A), Revives ws id m /\ s' = (m s).2)
    (workspaces s) (workspaces s').
Proof.
  destruct 1 as [A m Hm|e|key expected id command _|n db waiter _].
  - pose proof (atom_changes m s Hm) as H. intros ws. specialize (H ws).
    repeat case_match; try done; [|intros id; eauto].
    destruct H as [Hi Hd]. split; [done|]. intros id Hid. destruct (Hd id Hid); eauto.
  - apply changes_refl.
  - apply changes_same. unfold atom_lookup. repeat case_match; reflexivity.
  - apply changes_same. unfold atom_pend. cbv zeta. repeat case_match; reflexivity.
Qed.

End Atoms.

(** ** Reachable states *)

Definition all_inventories_ok (s : Proxy) : Prop :=
  forall ws w, workspaces s !! ws = Some w -> inventory_ok w.

Lemma step_inventories s s' : step s s' -> all_inventories_ok s -> all_inventories_ok s'.
Proof.
  intros Hs Hok ws w' Hw'. pose proof (step_changes s s' Hs ws) as H. rewrite Hw' in H.
  destruct (workspaces s !! ws) as [w|] eqn:Hw; [|apply H]. apply H. by eapply Hok.
Qed.

Lemma steps_inventories s s' : steps s s' -> all_inventories_ok s -> all_inventories_ok s'.
Proof. induction 1; eauto using step_inventories. Qed.

Lemma new_inventories : all_inventories_ok proxy_new.
Proof. intros ws w. unfold workspaces. simpl. by rewrite lookup_empty. Qed.

(** C26: in every interleaving of the Proxy's operations, with any answers of the backplane and any
    updates from other Proxies, a workspace stores Agents and machines under their own
    identifiers and lists no Agent that is marked as deleted. *)
Theorem inventory_is_consistent s ws w :
  reachable s -> in_workspaces (px_inner s) !! ws = Some w -> inventory_ok w.
Proof. intros Hr Hw. by eapply (steps_inventories _ _ Hr new_inventories). Qed.

(** An Agent that was deleted from a known workspace. *)
Definition buried (ws id : string) (s : Proxy) : Prop :=
  exists w, in_workspaces (px_inner s) !! ws = Some w /\ id ∈ w_deleted_agents w.

(** Steps other than a rename projection of that very Agent and the removal of the workspace. *)
Inductive quiet (ws id : string) (s : Proxy) : Proxy -> Prop :=
| quiet_atom {A} (m : PM A) : Atomic m -> ~ Revives ws id m -> quiet ws id s (m s).2
| quiet_other s' : step s s' -> workspaces s' = workspaces s -> quiet ws id s s'.

Lemma quiet_step ws id s s' : quiet ws id s s' -> step s s'.
Proof. destruct 1; [by constructor|done]. Qed.

Lemma quiet_buried ws id s s' : quiet ws id s s' -> buried ws id s -> buried ws id s'.
Proof.
  destruct 1 as [A m Hm Hn|s' _ Heq]; intros (w & Hw & Hid).
  - pose proof (atom_changes m s Hm ws) as H. unfold workspaces in H. rewrite Hw in H.
    destruct (in_workspaces (px_inner (m s).2) !! ws) as [w1|] eqn:Hw1.
    + exists w1. split; [done|]. by destruct (proj2 H id Hid).
    + by destruct Hn.
  - exists w. unfold workspaces in Heq. by rewrite Heq.
Qed.

(** A deleted Agent stays deleted: whatever Controllers report and other Proxies announce, it
    does not come back into the inventory unless its workspace is removed or another Proxy
    announces a name for it. *)
Theorem deleted_agent_stays_deleted ws id s s' :
  reachable s -> buried ws id s -> rtc (quiet ws id) s s' ->
  exists w, in_workspaces (px_inner s') !! ws = Some w
            /\ id ∈ w_deleted_agents w /\ w_agents w !! id = None.
Proof.
  intros Hr Hb Hq. pose proof (steps_inventories _ _ Hr new_inventories) as Hok. clear Hr.
  induction Hq as [s|s s1 s2 Hs _ IH].
  - destruct Hb as (w & Hw & Hid). exists w. split_and!; [done|done|]. by eapply (Hok ws w Hw).
  - apply IH; [by eapply quiet_buried|eauto using step_inventories, quiet_step].
Qed.
