(* ===== verification/ProxyRaces.v ===== *)
(** * Races between the Proxy's operations, on a concrete machine

    A sample machine and Agent, evaluated witnesses of the inventory theorems, and three
    interleavings whose outcome the code does not intend. *)

From stdpp Require Import gmap.
From S2P Require Import Prelude RustStr Protocol HostProtocol Activity BinaryFrames ProxyTypes ProxyState.
From S2P Require Import ProxyReplica ProxyCommands ClusterKeys ProxyTerminal ProxySteps ProxyInventory.
Local Open Scope Z_scope.

#[export] Instance sample_codec : ErrorCodec := fun _ => [].

Definition sample_build : BuildInfo := mkBuildInfo "1.0.0" "abc".
Definition sample_server : ServerInfo :=
  mkServerInfo "m1" "ws" "machine" "host" "/root" sample_build sample_build None ∅ None Offline 0 0 [].
Definition sample_agent : AgentInfo :=
  mkAgentInfo None "a1" 1 "ws" "m1" "shell" "agent" "/" Idle None 0 0 None None 0 None.
Definition sample_plane : Backplane := standalone "proxy-1".
Definition failing_plane : Backplane :=
  mkBackplane true "proxy-1" (fun _ => Ok None) (Err (protocol_error "cluster_unavailable" ""))
    (Ok tt) (Ok true) (Ok tt) (Ok tt) (Ok tt).
Definition no_tombstones : Tombstones := fun _ => Ok false.

Definition sample_register (B : Backplane) (connection : Uuid) (channel : Channel) : PM Z :=
  register_server_instance_with_capabilities B sample_server connection "controller" [] channel 0 1.

(** A registered machine with one Agent. *)
Definition sample_state : Proxy :=
  ((sample_register sample_plane "c1" "socket-1" ;!
    apply_agent_event sample_plane "c1" sample_agent) proxy_new).2.

Lemma sample_reachable : reachable sample_state.
Proof.
  unfold reachable, sample_state. apply sectional_bind; [apply register_sectional|].
  intros _. unfold apply_agent_event. sectional.
Qed.

Definition known (s : Proxy) (ws id : string) : bool :=
  is_some (in_workspaces (px_inner s) !! ws ≫= fun w => w_agents w !! id).

Lemma inventory_is_consistent_witness :
  exists w, in_workspaces (px_inner sample_state) !! "ws" = Some w /\ inventory_ok w.
Proof.
  eexists. split; [vm_compute; reflexivity|].
  apply (inventory_is_consistent sample_state "ws"); [apply sample_reachable|vm_compute; reflexivity].
Defined.

(** A command for the registered machine. *)
Lemma handlers_are_step_sequences_witness :
  steps sample_state
    (run_handler (HSendCommand no_tombstones "ws" "m1" None "cmd1" RestoreRuntime 0%nat) sample_state).
Proof.
  apply (handlers_are_step_sequences
           (HSendCommand no_tombstones "ws" "m1" None "cmd1" RestoreRuntime 0%nat) sample_state).
  split; [split_and!; [vm_compute; reflexivity|..]|split]; apply (bool_decide_eq_true_1 _);
    vm_compute; reflexivity.
Defined.

Definition after_delete : Proxy := (delete_agent sample_plane "ws" "a1" sample_state).2.

(** The Controller reports the deleted Agent again. *)
Lemma deleted_agent_stays_deleted_witness :
  known (apply_agent_event sample_plane "c1" sample_agent after_delete).2 "ws" "a1" = false.
Proof.
  destruct (deleted_agent_stays_deleted "ws" "a1" after_delete
              (atom_agent_event sample_agent after_delete).2) as (w & Hw & _ & Ha).
  - unfold reachable. etrans; [apply sample_reachable|]. unfold after_delete, delete_agent.
    apply sectional_bind; [|intros]; sectional.
  - eexists. split; [vm_compute; reflexivity|]. apply (bool_decide_eq_true_1 _). vm_compute. reflexivity.
  - apply rtc_once, quiet_other; [apply step_atom; constructor|vm_compute; reflexivity].
  - revert Hw Ha. vm_compute. congruence.
Defined.

(** ** Interleavings with an unintended outcome *)

Definition connection_of (s : Proxy) : option Uuid :=
  sc_connection_id <$> in_connections (px_inner s) !! ("ws", "m1").

(** A registration whose claim of the lease fails removes the machine's connection whoever
    owns it: when a newer connection has replaced it meanwhile, that one, which was told it is
    registered, is dropped from the table and refused from then on as stale. *)
Theorem failed_claim_drops_newer_connection :
  let key := ("ws", "m1") in
  let s1 := ((register_check sample_server 0 ;!
              register_connect sample_server "old" "controller" [] "socket-1" 1) proxy_new).2 in
  let '(r2, s2) := sample_register sample_plane "new" "socket-2" s1 in
  let '(r3, s3) := claim_server failing_plane key "old" s2 in
  is_ok r2 = true /\ connection_of s2 = Some "new"
  /\ r3 = Err (protocol_error "cluster_unavailable" "") /\ connection_of s3 = None
  /\ (heartbeat sample_plane "ws" "m1" "new" 2 s3).1
     = Err (protocol_error "stale_connection" "connection for m1 is no longer current").
Proof. vm_compute. repeat split. Qed.

(** The tombstone of a machine is checked only before the registration's other steps: a
    deletion that comes between leaves the machine listed as online and marked as deleted at
    once; its heartbeats are accepted while its snapshots are refused. *)
Theorem registration_survives_deletion :
  let s1 := (register_check sample_server 0 sample_state).2 in
  let '(r2, s2) := delete_server sample_plane "ws" "m1" s1 in
  let s3 := (register_connect sample_server "c2" "controller" [] "socket-2" 1 s2).2 in
  (register_check sample_server 0 sample_state).1 = Ok tt /\ is_ok r2 = true
  /\ (exists w, in_workspaces (px_inner s3) !! "ws" = Some w
        /\ "m1" ∈ w_deleted_servers w /\ (is_online <$> w_servers w !! "m1") = Some true)
  /\ (heartbeat sample_plane "ws" "m1" "c2" 2 s3).1 = Ok tt
  /\ (apply_snapshot sample_plane no_tombstones "c2" (mkAgentServerSnapshot sample_server []) 2 s3).1
     = Err (protocol_error "server_deleted" "m1").
Proof.
  vm_compute. split_and!; try reflexivity. eexists. split_and!; [reflexivity| |reflexivity].
  apply (bool_decide_eq_true_1 _). vm_compute. reflexivity.
Qed.

(** A deleted Agent can come back: a registration that read the Agent before it was deleted
    announces its name after the deletion, the announcement lifts the tombstone on every Proxy,
    and the next report of the Controller lists the Agent again. *)
Theorem registration_revives_deleted_agent :
  let s1 := (sample_register sample_plane "c2" "socket-2" sample_state).2 in
  let '(r2, s2) := delete_agent sample_plane "ws" "a1" s1 in
  let s3 := (apply_cluster_projection sample_plane (AgentRenamed "ws" "a1" "agent") 3 s2).2 in
  let s4 := (apply_agent_event sample_plane "c2" sample_agent s3).2 in
  (exists server, last (wd_calls (px_world s1))
     = Some (CallClaim ("ws", "m1") "c2" (mkAgentServerSnapshot server [sample_agent])))
  /\ is_ok r2 = true /\ known s2 "ws" "a1" = false /\ known s4 "ws" "a1" = true.
Proof. vm_compute. split_and!; try reflexivity. eexists. reflexivity. Qed.
