(* ===== verification/ProxyCommandFacts.v ===== *)
(** * Commands in every interleaving

    A command is sent only to a connection that advertised the capability it needs, transfer and
    update commands are sent at most once, and a command gets at most one result. *)

From stdpp Require Import gmap.
From S2P Require Import Prelude RustStr Protocol HostProtocol Activity BinaryFrames ProxyTypes ProxyState.
From S2P Require Import ProxyReplica ProxyCommands ClusterKeys ProxyTerminal ProxySteps ProxyInventory ProxyRaces.
Local Open Scope Z_scope.

(** ** Lists and maps *)

Lemma map_to_list_split {V} (p : string * V -> bool) (m : gmap string V) :
  map_to_list m ≡ₚ map_to_list (filter (fun x => p x = true) m)
                   ++ map_to_list (filter (fun x => p x = false) m).
Proof.
  apply NoDup_Permutation.
  - apply NoDup_map_to_list.
  - apply NoDup_app. split_and!; try apply NoDup_map_to_list.
    intros [i v] H1 H2. apply elem_of_map_to_list, map_lookup_filter_Some in H1, H2.
    destruct H1, H2. congruence.
  - intros [i v]. rewrite elem_of_app, !elem_of_map_to_list, !map_lookup_filter_Some.
    destruct (p (i, v)); naive_solver.
Qed.

Lemma map_to_list_put {V} (m : gmap string V) i v :
  map_to_list (<[i := v]> m) ≡ₚ (i, v) :: map_to_list (delete i m).
Proof.
  rewrite <- insert_delete_eq. apply map_to_list_insert, lookup_delete_eq.
Qed.

Lemma map_to_list_drop {V} (m : gmap string V) i : map_to_list (delete i m) ⊆+ map_to_list m.
Proof.
  destruct (m !! i) as [v|] eqn:E.
  - rewrite <- (map_to_list_delete m i v E). by apply submseteq_cons.
  - by rewrite delete_id.
Qed.

Lemma drop_nth_Permutation {A} (l : list A) n x :
  l !! n = Some x -> l ≡ₚ x :: take n l ++ drop (S n) l.
Proof.
  intros H. rewrite <- (take_drop_middle l n x H) at 1. by rewrite Permutation_middle.
Qed.

Lemma put_nth_Permutation {A} (l : list A) n x y :
  l !! n = Some x -> <[n := y]> l ≡ₚ y :: take n l ++ drop (S n) l.
Proof.
  intros H. apply lookup_lt_Some in H.
  rewrite insert_take_drop by done. by rewrite Permutation_middle.
Qed.

(** ** Capabilities *)

Definition advertised (s : Proxy) (channel : Channel) (command : AgentCommand) : Prop :=
  forall required, required_capability command = Some required ->
  exists capabilities, (channel, capabilities) ∈ wd_advertised (px_world s) /\ required ∈ capabilities.

Definition flight_ok (s : Proxy) (f : Flight) : Prop :=
  match f with
  | FlightChecked _ channel e | FlightPending _ channel e | FlightResend _ channel e _ =>
      advertised s channel (ce_command e)
  | FlightTake _ channel capabilities => (channel, capabilities) ∈ wd_advertised (px_world s)
  end.

Record commands_ok (s : Proxy) : Prop := {
  pending_ok : forall id p, in_pending (px_inner s) !! id = Some p ->
    ce_command_id (pc_encoded p) = id
    /\ pc_required_capability p = required_capability (ce_command (pc_encoded p));
  connections_ok : forall key c, in_connections (px_inner s) !! key = Some c ->
    (sc_outgoing c, sc_capabilities c) ∈ wd_advertised (px_world s);
  flights_ok : forall f, f ∈ flights s -> flight_ok s f;
  sent_ok : forall channel e, (channel, command_frame e) ∈ wd_sent (px_world s) ->
    advertised s channel (ce_command e)
}.

(** ** Transfers and updates *)

Definition once (command : AgentCommand) : bool :=
  match command with
  | FileTransfer _ _ _ | FileTransferInfo | ControllerUpdateStart _ | ControllerUpdateStatus => true
  | _ => false
  end.

(** The code recognises them by the capability they need. *)
Lemma once_unreplayable command :
  once command = is_some_and (required_capability command) unreplayable.
Proof. destruct command; try reflexivity; simpl; repeat case_match; reflexivity. Qed.

Definition once_ids (e : CommandEnvelope) : list string :=
  if once (ce_command e) then [ce_command_id e] else [].
Definition flight_once (f : Flight) : list string :=
  match f with
  | FlightChecked _ _ e | FlightPending _ _ e | FlightResend _ _ e _ => once_ids e
  | FlightTake _ _ _ => []
  end.
Definition frame_once (cf : Channel * SocketFrame) : list string :=
  match cf.2 with FText (TextProxy (PMCommand e)) => once_ids e | _ => [] end.

(** The identifiers of transfers and updates that were sent or are about to be. *)
Definition launched (s : Proxy) : list string :=
  (flights s ≫= flight_once) ++ (wd_sent (px_world s) ≫= frame_once).

(** ** Results *)

Definition pending_waiters (m : gmap string PendingCommand) : list Waiter := pc_result <$> (map_to_list m).*2.

(** Who has or may still get a result. *)
Definition waiters (s : Proxy) : list Waiter :=
  (wd_results (px_world s)).*1 ++ pending_waiters (in_pending (px_inner s)).

(** ** The invariant of one step *)

Record command_inv (s : Proxy) : Prop := {
  inv_ok : commands_ok s;
  inv_once : NoDup (launched s);
  inv_waiters : NoDup (waiters s)
}.

(** States that agree on everything about commands. *)
Definition same_commands (s s' : Proxy) : Prop :=
  in_pending (px_inner s') = in_pending (px_inner s)
  /\ in_connections (px_inner s') ⊆ in_connections (px_inner s)
  /\ wd_advertised (px_world s') = wd_advertised (px_world s)
  /\ flights s' = flights s
  /\ wd_results (px_world s') = wd_results (px_world s)
  /\ ((wd_sent (px_world s') = wd_sent (px_world s))
      \/ exists channel frame, (forall e, frame <> command_frame e)
         /\ wd_sent (px_world s') = wd_sent (px_world s) ++ [(channel, frame)]).

Lemma frame_once_other channel frame :
  (forall e, frame <> command_frame e) -> frame_once (channel, frame) = [].
Proof. intros H. destruct frame as [[[] |]| | | |]; try done. by destruct (H envelope). Qed.

Lemma same_commands_inv s s' : same_commands s s' -> command_inv s -> command_inv s'.
Proof.
  intros (Hp & Hc & Ha & Hf & Hr & Hs) [[I1 I2 I3 I4] I5 I6].
  assert (forall ch c, advertised s ch c -> advertised s' ch c) as Hadv.
  { intros ch c H r Hr'. rewrite Ha. auto. }
  split; [split| |].
  - by rewrite Hp.
  - intros key c Hk. rewrite Ha. eapply I2, lookup_weaken; eauto.
  - intros f. rewrite Hf. intros Hin. specialize (I3 f Hin). destruct f; simpl in *; auto. by rewrite Ha.
  - intros ch e Hin. apply Hadv, I4. destruct Hs as [Hs|(c & fr & Hfr & Hs)]; rewrite Hs in Hin; [done|].
    apply elem_of_app in Hin as [?|Hin%list_elem_of_singleton]; [done|].
    destruct (Hfr e). congruence.
  - unfold launched. rewrite Hf. destruct Hs as [-> |(c & fr & Hfr & ->)]; [done|].
    rewrite bind_app. simpl. by rewrite frame_once_other, !app_nil_r.
  - unfold waiters. by rewrite Hr, Hp.
Qed.

(** ** Atoms that handle commands *)

(** Fewer pending commands; some of their waiters got a result. *)
Lemma inv_fewer_pending s m results :
  m ⊆ in_pending (px_inner s) ->
  results.*1 ++ pending_waiters m ⊆+ pending_waiters (in_pending (px_inner s)) ->
  command_inv s ->
  command_inv (mkProxy (set_in_pending (px_inner s) m) (push_results results (px_world s))).
Proof.
  intros Hm Hw [[I1 I2 I3 I4] I5 I6]. split; [split| |]; try done.
  - intros id p Hid. eapply I1, lookup_weaken; eauto.
  - unfold waiters. simpl. rewrite fmap_app, <- app_assoc.
    assert ((wd_results (px_world s)).*1 ++ (results.*1 ++ pending_waiters m) ⊆+ waiters s) as Hs
      by (by apply submseteq_app).
    destruct (submseteq_Permutation _ _ Hs) as [k Hk]. rewrite Hk in I6. by apply NoDup_app in I6 as [? _].
Qed.

Lemma waiters_put m i p : pending_waiters (<[i := p]> m) ≡ₚ pc_result p :: pending_waiters (delete i m).
Proof. unfold pending_waiters. by rewrite map_to_list_put. Qed.

Lemma waiters_take m i p : m !! i = Some p -> pc_result p :: pending_waiters (delete i m) ≡ₚ pending_waiters m.
Proof. intros H. unfold pending_waiters. by rewrite <- (map_to_list_delete m i p H). Qed.

Lemma waiters_drop m i : pending_waiters (delete i m) ⊆+ pending_waiters m.
Proof.
  unfold pending_waiters. destruct (m !! i) as [p|] eqn:E.
  - rewrite <- (map_to_list_delete m i p E). simpl. by apply submseteq_cons.
  - by rewrite delete_id.
Qed.

Lemma waiters_split error (q : string * PendingCommand -> bool) m :
  (fail_all error (filter (fun x => q x = true) m)).*1 ++ pending_waiters (filter (fun x => q x = false) m)
  ⊆+ pending_waiters m.
Proof.
  apply Permutation_submseteq. unfold pending_waiters, fail_all.
  rewrite (map_to_list_split q m), !fmap_app, <- !list_fmap_compose. done.
Qed.

Lemma inv_cancel key e s : command_inv s -> command_inv (atom_cancel_pending key e s).2.
Proof.
  intros H. unfold atom_cancel_pending. simpl.
  apply inv_fewer_pending; [apply map_filter_subseteq| |done].
  apply (waiters_split (fun _ => e) (fun kc => pending_of key kc.2)).
Qed.

Lemma push_no_results w : push_results [] w = w.
Proof. unfold push_results. rewrite app_nil_r. by destruct w. Qed.

Lemma inv_forget id s : command_inv s -> command_inv (atom_forget id s).2.
Proof.
  intros H. unfold atom_forget, modify. simpl. rewrite <- (push_no_results (px_world s)).
  apply inv_fewer_pending; [apply delete_subseteq|apply waiters_drop|done].
Qed.

Lemma inv_complete ws id r s : command_inv s -> command_inv (atom_complete ws id r s).2.
Proof.
  intros H. unfold atom_complete. case_match eqn:E; [|done]. case_bool_decide; [|done]. simpl.
  apply inv_fewer_pending; [apply delete_subseteq| |done].
  simpl. by rewrite waiters_take.
Qed.

(** A flight that ends, or is replaced by another of the same command. *)
Lemma flights_drop s n f : flights s !! n = Some f ->
  flights s ≡ₚ f :: wd_flights (drop_flight n (px_world s)).
Proof. intros H. by apply drop_nth_Permutation. Qed.

Lemma flight_ok_world s i w f :
  wd_advertised w = wd_advertised (px_world s) -> flight_ok s f -> flight_ok (mkProxy i w) f.
Proof. intros Ha. destruct f; unfold flight_ok, advertised; simpl; by rewrite Ha. Qed.

Lemma inv_drop_flight n s : command_inv s -> command_inv (mkProxy (px_inner s) (drop_flight n (px_world s))).
Proof.
  intros H. pose proof H as [[I1 I2 I3 I4] I5 I6].
  destruct (flights s !! n) as [f|] eqn:Hf.
  - pose proof (flights_drop s n f Hf) as Hp. split; [split| |]; try done.
    + intros f' Hf'. eapply (flight_ok_world s); [done|]. apply I3. rewrite Hp. by right.
    + unfold launched in *. rewrite Hp in I5. simpl in I5. rewrite <- app_assoc in I5.
      by apply NoDup_app in I5 as (_ & _ & ?).
  - enough (drop_flight n (px_world s) = px_world s) as -> by (by destruct s).
    unfold drop_flight. unfold flights in Hf. rewrite take_ge, drop_ge, app_nil_r
      by (apply lookup_ge_None in Hf; lia). by destruct (px_world s).
Qed.

(** Putting the frame of a flight on its socket. *)
Lemma inv_launch n channel e s f :
  flights s !! n = Some f -> flight_once f = once_ids e -> advertised s channel (ce_command e) ->
  command_inv s ->
  command_inv (mkProxy (px_inner s) (push_sent channel (command_frame e) (drop_flight n (px_world s)))).
Proof.
  intros Hf Ho Hadv [[I1 I2 I3 I4] I5 I6]. pose proof (flights_drop s n f Hf) as Hp.
  split; [split| |]; try done.
  - intros f' Hf'. eapply (flight_ok_world s); [done|]. apply I3. rewrite Hp. by right.
  - simpl. intros ch e'. rewrite elem_of_app, list_elem_of_singleton.
    intros [?|[= -> ->]]; [by apply I4|done].
  - enough (launched (mkProxy (px_inner s)
      (push_sent channel (command_frame e) (drop_flight n (px_world s)))) ≡ₚ launched s) as -> by done.
    unfold launched. rewrite Hp.
    change (flights _) with (wd_flights (drop_flight n (px_world s))).
    change (wd_sent _) with (wd_sent (px_world s) ++ [(channel, command_frame e)]) at 1.
    rewrite bind_app. change ([_] ≫= frame_once) with (once_ids e ++ []).
    rewrite bind_cons, Ho, app_nil_r, app_assoc, (Permutation_app_comm _ (once_ids e)).
    by rewrite app_assoc.
Qed.

Lemma inv_push_flights l s :
  (forall f, f ∈ l -> flight_ok s f) -> NoDup ((l ≫= flight_once) ++ launched s) ->
  command_inv s -> command_inv (mkProxy (px_inner s) (push_flights l (px_world s))).
Proof.
  intros Hl Hn [[I1 I2 I3 I4] I5 I6]. split; [split| |]; try done.
  - unfold flights. simpl. intros f Hf. eapply (flight_ok_world s); [done|].
    apply elem_of_app in Hf as [?|?]; auto.
  - revert Hn. unfold launched, flights. simpl. rewrite bind_app, <- app_assoc.
    rewrite !app_assoc, (Permutation_app_comm (l ≫= flight_once)). done.
Qed.

Lemma inv_launch_atom n s : command_inv s -> command_inv (atom_launch n s).2.
Proof.
  intros H. unfold atom_launch. destruct (flights s !! n) as [[| key channel e | |]|] eqn:Hf; try done.
  case_bool_decide; simpl.
  - by apply (inv_drop_flight n (mkProxy _ (px_world s))), (inv_forget (ce_command_id e)).
  - eapply inv_launch; [exact Hf|done| |done].
    apply (flights_ok _ (inv_ok _ H) (FlightPending key channel e)). by eapply list_elem_of_lookup_2.
Qed.

Lemma inv_resend_atom n db s : command_inv s -> command_inv (atom_resend n db s).2.
Proof.
  intros H. unfold atom_resend. destruct (flights s !! n) as [[| | | key channel e cr]|] eqn:Hf; try done.
  cbv zeta. case_match.
  - case_bool_decide; simpl; [by apply inv_drop_flight|].
    eapply inv_launch; [exact Hf|done| |done].
    apply (flights_ok _ (inv_ok _ H) (FlightResend key channel e cr)). by eapply list_elem_of_lookup_2.
  - case_match eqn:Hp; simpl; [|by apply inv_drop_flight].
    apply (inv_fewer_pending (mkProxy (px_inner s) (drop_flight n (px_world s))));
      [apply delete_subseteq| |by apply inv_drop_flight].
    simpl. by rewrite waiters_take.
Qed.

(** A pending command that is sent again is neither a transfer nor an update, and the new
    connection has its capability. *)
Lemma again_flight s key channel capabilities id p :
  commands_ok s -> (channel, capabilities) ∈ wd_advertised (px_world s) ->
  in_pending (px_inner s) !! id = Some p -> pending_of key p = true ->
  rejected key capabilities p = false ->
  flight_ok s (resend_flight channel (id, p)) /\ flight_once (resend_flight channel (id, p)) = [].
Proof.
  intros Hok Hadv Hp Hk Hr. destruct (pending_ok _ Hok id p Hp) as [_ Hcap].
  unfold rejected in Hr. rewrite Hk, Hcap in Hr. simpl in *. unfold once_ids. rewrite once_unreplayable.
  destruct (required_capability (ce_command (pc_encoded p))) as [r|] eqn:E; simpl in *.
  - apply orb_false_iff in Hr as [Hu Hc]. rewrite Hu. split; [|done].
    apply negb_false_iff, bool_decide_eq_true in Hc. intros r' Hr'. rewrite E in Hr'. simplify_eq. eauto.
  - split; [|done]. intros r Hr'. by rewrite E in Hr'.
Qed.

Lemma inv_reject n s : command_inv s -> command_inv (atom_reject n s).2.
Proof.
  intros H. unfold atom_reject. destruct (flights s !! n) as [[| | key channel caps |]|] eqn:Hf; try done.
  cbv zeta. simpl.
  set (kept := filter (fun ic : string * PendingCommand => rejected key caps ic.2 = false)
                 (in_pending (px_inner s))).
  set (again := filter (fun ic : string * PendingCommand => pending_of key ic.2 = true) kept).
  set (s1 := mkProxy (px_inner s) (drop_flight n (px_world s))).
  assert (command_inv s1) as H1 by (by apply inv_drop_flight).
  assert ((channel, caps) ∈ wd_advertised (px_world s)) as Hadv.
  { apply (flights_ok _ (inv_ok _ H) (FlightTake key channel caps)). by eapply list_elem_of_lookup_2. }
  assert (forall f, f ∈ resend_flight channel <$> map_to_list again -> flight_ok s1 f /\ flight_once f = [])
    as Hagain.
  { intros f ([id p] & -> & Hin)%list_elem_of_fmap. apply elem_of_map_to_list in Hin.
    apply map_lookup_filter_Some in Hin as [[Hin Hr]%map_lookup_filter_Some Hk]. simpl in *.
    by eapply (again_flight s1 key channel caps id p); [apply H1| | | |]. }
  apply (inv_fewer_pending (mkProxy (px_inner s1)
           (push_flights (resend_flight channel <$> map_to_list again) (px_world s1)))).
  - apply map_filter_subseteq.
  - apply (waiters_split (rejection key.2) (fun ic => rejected key caps ic.2)).
  - apply inv_push_flights; [intros f Hf'; by apply Hagain| |done].
    enough ((resend_flight channel <$> map_to_list again) ≫= flight_once = []) as -> by apply H1.
    induction (resend_flight channel <$> map_to_list again) as [|f l IH]; [done|].
    rewrite bind_cons. rewrite (proj2 (Hagain f ltac:(by left))). apply IH. intros f' Hf'. apply Hagain. by right.
Qed.

Lemma inv_resend_lookup key s : command_inv s -> command_inv (atom_resend_lookup key s).2.
Proof.
  intros H. unfold atom_resend_lookup. case_match eqn:E; [|done]. simpl.
  apply inv_push_flights; [|apply H|done].
  intros f ->%list_elem_of_singleton. simpl. by apply (connections_ok _ (inv_ok _ H) key).
Qed.

Lemma inv_connect key c s : command_inv s -> command_inv (atom_connect key c s).2.
Proof.
  intros [[I1 I2 I3 I4] I5 I6].
  assert (forall ch cmd, advertised s ch cmd -> advertised (atom_connect key c s).2 ch cmd) as Hadv.
  { intros ch cmd H r Hr. destruct (H r Hr) as (caps & ? & ?). exists caps. split; [|done].
    simpl. apply elem_of_app. by left. }
  split; [split| |]; try done.
  - simpl. intros k c'. rewrite lookup_insert_Some, elem_of_app, list_elem_of_singleton.
    intros [[_ ->]|[_ ?]]; [by right|left; by eapply I2].
  - intros f Hf. specialize (I3 f Hf). destruct f; simpl in *; auto. apply elem_of_app. by left.
  - intros ch e He. by apply Hadv, I4.
Qed.

Lemma fresh_launched id s : fresh_command id s -> id ∉ launched s.
Proof.
  intros (_ & Hf & Hs). unfold launched. intros [H|H]%elem_of_app.
  - apply Hf. apply list_elem_of_bind in H as (f & Hid & Hin). apply list_elem_of_bind. exists f. split; [|done].
    destruct f; simpl in *; unfold once_ids in *; repeat case_match; set_solver.
  - apply Hs. apply list_elem_of_bind in H as (f & Hid & Hin). apply list_elem_of_bind. exists f. split; [|done].
    unfold frame_once, frame_ids in *. repeat case_match; unfold once_ids in *; repeat case_match; set_solver.
Qed.

Lemma inv_checked key channel id command s :
  fresh_command id s -> advertised s channel command -> command_inv s ->
  command_inv (mkProxy (px_inner s)
    (push_flights [FlightChecked key channel (mkCommandEnvelope id key.1 command)] (px_world s))).
Proof.
  intros Hfr Hadv H. apply inv_push_flights; [by intros f ->%list_elem_of_singleton| |done].
  simpl. rewrite app_nil_r. unfold once_ids. simpl. case_match; [|apply H].
  simpl. apply NoDup_cons. split; [by apply fresh_launched|apply H].
Qed.

Lemma inv_lookup key expected id command s :
  fresh_command id s -> command_inv s -> command_inv (atom_lookup key expected id command s).2.
Proof.
  intros Hfr H. unfold atom_lookup.
  destruct (in_connections (px_inner s) !! key) as [c|] eqn:Hc; simpl; [|done].
  destruct (is_none_or expected _); [|done].
  pose proof (connections_ok _ (inv_ok _ H) key c Hc) as Hadv.
  destruct (required_capability command) as [r|] eqn:Hr.
  - case_bool_decide; [|done]. simpl. apply inv_checked; [done| |done].
    intros r' Hr'. rewrite Hr in Hr'. simplify_eq. eauto.
  - simpl. apply inv_checked; [done| |done]. intros r' Hr'. by rewrite Hr in Hr'.
Qed.

Lemma inv_pend n db waiter s :
  fresh_waiter waiter s -> command_inv s -> command_inv (atom_pend n db waiter s).2.
Proof.
  intros [Hw1 Hw2] H. unfold atom_pend.
  destruct (flights s !! n) as [[key channel e| | |]|] eqn:Hf; try done. cbv zeta.
  case_match; simpl; [|by apply inv_drop_flight]. destruct H as [[I1 I2 I3 I4] I5 I6].
  pose proof (flights_drop s n _ Hf) as Hp.
  assert (<[n := FlightPending key channel e]> (flights s)
          ≡ₚ FlightPending key channel e :: wd_flights (drop_flight n (px_world s))) as Hput
    by (by eapply put_nth_Permutation).
  split; [split| |]; try done.
  - simpl. intros id p. rewrite lookup_insert_Some. intros [[<- <-]|[_ ?]]; [done|by apply I1].
  - unfold flights at 1. simpl. intros f. fold (flights s). rewrite Hput. intros Hin.
    eapply (flight_ok_world s); [done|].
    apply elem_of_cons in Hin as [->|Hin].
    + apply (I3 (FlightChecked key channel e)). by eapply list_elem_of_lookup_2.
    + apply I3. rewrite Hp. by right.
  - enough (launched s ≡ₚ launched (mkProxy
      (set_in_pending (px_inner s) (<[ce_command_id e := mkPendingCommand key e
         (required_capability (ce_command e)) (creation_agent_id (ce_command e)) waiter]>
         (in_pending (px_inner s)))) (put_flight n (FlightPending key channel e) (px_world s))))
      as <- by done.
    unfold launched. simpl. unfold flights at 2. simpl. fold (flights s). by rewrite Hput, Hp.
  - unfold waiters. simpl. rewrite waiters_put. simpl.
    assert (waiter ∉ waiters s) as Hnew.
    { unfold waiters. intros [?|?]%elem_of_app; [done|]. by apply Hw1. }
    assert ((wd_results (px_world s)).*1 ++ pending_waiters (delete (ce_command_id e) (in_pending (px_inner s)))
            ⊆+ waiters s) as Hsub.
    { apply submseteq_app; [done|]. apply waiters_drop. }
    rewrite <- Permutation_middle. apply NoDup_cons.
    destruct (submseteq_Permutation _ _ Hsub) as [k Hk]. split.
    + intros Hin. apply Hnew. rewrite Hk. apply elem_of_app. by left.
    + rewrite Hk in I6. by apply NoDup_app in I6 as [? _].
Qed.

Lemma same_refl s : same_commands s s.
Proof. unfold same_commands. split_and!; auto. Qed.

Lemma same_with_workspace {A} ws (f : WorkspaceState -> Result A ProtocolError * WorkspaceState) s :
  same_commands s (with_workspace ws f s).2.
Proof.
  unfold with_workspace. case_match; [|apply same_refl]. destruct (f w).
  unfold same_commands. split_and!; auto.
Qed.

Lemma same_known ws f s : same_commands s (with_known_workspace ws f s).2.
Proof.
  unfold with_known_workspace. case_match; [|apply same_refl]. destruct (f w).
  unfold same_commands. split_and!; auto.
Qed.

Lemma same_send channel frame s :
  (forall e, frame <> command_frame e) -> same_commands s (atom_send channel frame s).2.
Proof.
  intros Hf. unfold atom_send. case_bool_decide; [apply same_refl|].
  unfold same_commands. split_and!; simpl; eauto.
Qed.

Lemma try_send_frame channel frame w :
  let w' := (try_send channel frame w).2 in
  wd_advertised w' = wd_advertised w /\ wd_flights w' = wd_flights w /\ wd_results w' = wd_results w
  /\ wd_sent w' = wd_sent w.
Proof. unfold try_send. repeat case_match; done. Qed.

Lemma same_deliver d s : same_commands s (atom_deliver d s).2.
Proof.
  unfold atom_deliver. cbv zeta. repeat case_match; try apply same_refl;
    try (unfold same_commands; split_and!; by auto);
    match goal with E : send_with_cursor ?c ?f ?k ?w = (?r, ?w') |- _ =>
      unfold send_with_cursor in E; destruct (try_send c f w) as [r1 w1] eqn:E1;
      pose proof (try_send_frame c f w) as (? & ? & ? & ?); rewrite E1 in *; simpl in * end;
    repeat case_match; simplify_eq;
    try match goal with E2 : try_send ?c ?f ?w1 = (_, ?w2) |- _ =>
      pose proof (try_send_frame c f w1) as (? & ? & ? & ?); rewrite E2 in *; simpl in * end;
    unfold same_commands, flights; simpl; split_and!; try done; try congruence; left; congruence.
Qed.

Lemma same_browser channel r c s :
  same_commands s (atom_send_terminal_to_browser channel (TMClosed r c) s).2.
Proof.
  unfold atom_send_terminal_to_browser, effect, same_commands, flights. simpl.
  pose proof (try_send_frame channel (FText (TextTerminal (TMClosed r c))) (px_world s)) as (-> & -> & -> & ->).
  split_and!; auto.
Qed.

Lemma atom_commands {A} (m : PM A) s : Atomic m -> command_inv s -> command_inv (m s).2.
Proof.
  intros Hm H. destruct Hm; auto using inv_cancel, inv_forget, inv_complete, inv_launch_atom,
    inv_resend_atom, inv_reject, inv_resend_lookup, inv_connect;
    (apply (same_commands_inv s); [|done]);
    try apply same_with_workspace; try apply same_known; auto using same_send, same_deliver, same_browser;
    unfold atom_call, atom_notify, atom_publish_workspace_event, atom_signal, allow_server_reenrollment,
      atom_upsert_workspace, atom_create_workspace, atom_take_streams, atom_send_stream,
      atom_take_sessions, atom_remove_session, atom_open_session, atom_remove_connection, atom_disconnect,
      atom_remove_workspace, atom_note_snapshot, atom_replica_snapshot, atom_end_lease, atom_mark_offline,
      atom_note_lease, atom_mark_online, expire_cluster_lease_entries, effect, modify; cbv zeta;
    repeat case_match; try apply same_refl; unfold same_commands, flights; simpl; split_and!;
    first [done|by left|apply delete_subseteq|case_bool_decide; first [done|by left]].
Qed.

Lemma step_commands s s' : step s s' -> command_inv s -> command_inv s'.
Proof.
  destruct 1 as [A m Hm|e|key expected id command Hf|n db waiter Hw]; intros H.
  - by apply atom_commands.
  - apply (same_commands_inv s); [|done].
    destruct e; unfold same_commands, flights; simpl; split_and!; first [done|by left].
  - by apply inv_lookup.
  - by apply inv_pend.
Qed.

Lemma new_commands : command_inv proxy_new.
Proof. split; [split| |]; simpl; try done; try (intros *; rewrite ?lookup_empty; done); set_solver || constructor. Qed.

Lemma reachable_commands s : reachable s -> command_inv s.
Proof.
  intros H. unfold reachable in H. revert H. generalize new_commands. generalize proxy_new.
  intros s0 H0 H. induction H; eauto using step_commands.
Qed.

(** In every interleaving, a command is put only on sockets whose Controller advertised the
    capability the command needs, when it is first sent and when it is sent again after a
    reconnection. *)
Theorem commands_match_capabilities s channel e required :
  reachable s -> (channel, command_frame e) ∈ wd_sent (px_world s) ->
  required_capability (ce_command e) = Some required ->
  exists capabilities, (channel, capabilities) ∈ wd_advertised (px_world s) /\ required ∈ capabilities.
Proof. intros Hr Hs Hc. by apply (sent_ok _ (inv_ok _ (reachable_commands s Hr)) channel e). Qed.

Lemma bind_once {A B} (f : A -> list B) l i j x y b :
  NoDup (l ≫= f) -> l !! i = Some x -> l !! j = Some y -> b ∈ f x -> b ∈ f y -> i = j.
Proof.
  revert i j. induction l as [|z l IH]; intros i j; [done|].
  rewrite bind_cons. intros (H1 & H2 & H3)%NoDup_app Hi Hj Hx Hy.
  assert (forall k w, l !! k = Some w -> b ∈ f w -> b ∈ l ≫= f) as Hin.
  { intros k w Hk Hw. apply list_elem_of_bind. exists w. split; [done|]. by eapply list_elem_of_lookup_2. }
  destruct i as [|i], j as [|j]; simpl in *; simplify_eq; try done.
  - destruct (H2 b Hx). by eapply Hin.
  - destruct (H2 b Hy). by eapply Hin.
  - f_equal. by eapply IH.
Qed.

(** C28: a machine-file transfer or a Controller update is never sent twice: in every interleaving
    of sends, reconnections, snapshots, time-outs and results, the frame of such a command is put
    on a socket at most once. *)
Theorem transfers_are_sent_once s e i j ci cj :
  reachable s -> once (ce_command e) = true ->
  wd_sent (px_world s) !! i = Some (ci, command_frame e) ->
  wd_sent (px_world s) !! j = Some (cj, command_frame e) -> i = j.
Proof.
  intros Hr Ho Hi Hj. pose proof (inv_once _ (reachable_commands s Hr)) as H.
  apply NoDup_app in H as (_ & _ & H).
  eapply (bind_once frame_once _ _ _ _ _ (ce_command_id e) H Hi Hj);
    unfold frame_once, once_ids; simpl; rewrite Ho; by left.
Qed.

(** C29: whoever waits for a command gets at most one result, in every interleaving of results,
    cancelled machines, refused replays and time-outs. *)
Theorem command_answered_once s i j w ri rj :
  reachable s -> wd_results (px_world s) !! i = Some (w, ri) ->
  wd_results (px_world s) !! j = Some (w, rj) -> i = j.
Proof.
  intros Hr Hi Hj. pose proof (inv_waiters _ (reachable_commands s Hr)) as H.
  apply NoDup_app in H as (H & _ & _). eapply (NoDup_lookup _ i j w H);
    by rewrite list_lookup_fmap, ?Hi, ?Hj.
Qed.

(** A Controller answers only for itself: [complete_command_from] hands a result to a waiter
    only when the connection is the machine's current one and the command was sent to that
    machine, and then the command is no longer pending; otherwise nothing changes. *)
Theorem results_come_from_their_machine ws id connection result s r s' :
  complete_command_from ws id connection result s = (r, s') ->
  s' = s
  \/ exists c p, in_connections (px_inner s) !! (ws, id) = Some c /\ sc_connection_id c = connection
     /\ in_pending (px_inner s) !! cr_command_id result = Some p /\ pc_server p = (ws, id)
     /\ in_pending (px_inner s') = delete (cr_command_id result) (in_pending (px_inner s))
     /\ wd_results (px_world s') = wd_results (px_world s) ++ [(pc_result p, result)] /\ r = Ok tt.
Proof.
  unfold complete_command_from, st_bind, require_current_connection.
  destruct (in_connections (px_inner s) !! (ws, id)) as [c|] eqn:Hc; [|intros [= <- <-]; by left].
  destruct (String.eqb_spec (sc_connection_id c) connection) as [He|]; [|intros [= <- <-]; by left].
  unfold atom_complete. destruct (in_pending (px_inner s) !! cr_command_id result) as [p|] eqn:Hp;
    [|intros [= <- <-]; by left].
  case_bool_decide as Hs; intros [= <- <-]; [|by left]. right. exists c, p. by split_and!.
Qed.

(** ** A transfer command on the sample machine *)

Definition transfer_envelope : CommandEnvelope := mkCommandEnvelope "cmd1" "ws" FileTransferInfo.
Definition transfer_ready : Proxy :=
  (register_server_instance_with_capabilities sample_plane sample_server "c1" "controller"
     [CAPABILITY_MACHINE_FILE_TRANSFER] "socket-1" 0 1 proxy_new).2.
Definition transfer_sent : Proxy :=
  (send_local_command no_tombstones "ws" "m1" None "cmd1" FileTransferInfo 0%nat transfer_ready).2.
Definition transfer_result : CommandResult := mkCommandResult "cmd1" (Some "{}") None.
Definition transfer_done : Proxy := (complete_command_from "ws" "m1" "c1" transfer_result transfer_sent).2.

Lemma transfer_sent_reachable : reachable transfer_sent.
Proof.
  unfold reachable. etrans; [apply register_sectional|]. apply send_command_steps.
  - split_and!; [vm_compute; reflexivity|..]; apply (bool_decide_eq_true_1 _); vm_compute; reflexivity.
  - split; apply (bool_decide_eq_true_1 _); vm_compute; reflexivity.
Qed.

Lemma transfer_done_reachable : reachable transfer_done.
Proof.
  unfold reachable. etrans; [apply transfer_sent_reachable|].
  unfold transfer_done, complete_command_from. apply sectional_bind; [|intros]; sectional.
Qed.

Lemma commands_match_capabilities_witness :
  exists capabilities, ("socket-1", capabilities) ∈ wd_advertised (px_world transfer_sent)
                       /\ CAPABILITY_MACHINE_FILE_TRANSFER ∈ capabilities.
Proof.
  apply (commands_match_capabilities transfer_sent "socket-1" transfer_envelope);
    [apply transfer_sent_reachable| |reflexivity].
  eapply (list_elem_of_lookup_2 _ 0%nat). vm_compute. reflexivity.
Defined.

Lemma transfers_are_sent_once_witness :
  wd_sent (px_world transfer_sent) !! 0%nat = Some ("socket-1", command_frame transfer_envelope)
  /\ 0%nat = 0%nat.
Proof.
  split; [vm_compute; reflexivity|].
  apply (transfers_are_sent_once transfer_sent transfer_envelope 0%nat 0%nat "socket-1" "socket-1");
    [apply transfer_sent_reachable|reflexivity|vm_compute; reflexivity|vm_compute; reflexivity].
Defined.

Lemma command_answered_once_witness :
  wd_results (px_world transfer_done) !! 0%nat = Some (0%nat, transfer_result) /\ 0%nat = 0%nat.
Proof.
  split; [vm_compute; reflexivity|].
  apply (command_answered_once transfer_done 0%nat 0%nat 0%nat transfer_result transfer_result);
    [apply transfer_done_reachable|vm_compute; reflexivity|vm_compute; reflexivity].
Defined.

Lemma results_come_from_their_machine_witness :
  exists r s', complete_command_from "ws" "m1" "c1" transfer_result transfer_sent = (r, s')
    /\ (s' = transfer_sent \/ wd_results (px_world s') = [(0%nat, transfer_result)]).
Proof.
  destruct (complete_command_from "ws" "m1" "c1" transfer_result transfer_sent) as [r s'] eqn:E.
  exists r, s'. split; [reflexivity|].
  destruct (results_come_from_their_machine _ _ _ _ _ _ _ E) as [H|(c & p & _ & _ & Hp & _ & _ & Hw & _)];
    [left; exact H|right].
  rewrite Hw. vm_compute in Hp. injection Hp as Hp. subst p. vm_compute. reflexivity.
Defined.
