(* ===== verification/ProxyTerminalFacts.v ===== *)
(** * Terminal output reaches the browser in order *)

From stdpp Require Import gmap sorting.
From S2P Require Import Prelude RustStr Protocol HostProtocol Activity BinaryFrames ProxyTypes ProxyState.
From S2P Require Import ClusterKeys ProxyTerminal ProxyRaces.
Local Open Scope Z_scope.

(** ** What a session should pass on *)

(** The session after it learned the epoch of a [Ready] message, and after the delivery. *)
Definition learn (t : TerminalSession) (d : ClusterSessionDelivery) : TerminalSession :=
  match ready_message (sd_frame d) with Some r => with_epoch t r.2 | None => t end.
Definition advance (t : TerminalSession) (d : ClusterSessionDelivery) : TerminalSession :=
  match sd_revision d with Some r => with_revision t (Some r) | None => t end.

Definition frames_of (t : TerminalSession) (d : ClusterSessionDelivery) : list SocketFrame :=
  sd_frame d :: option_list (cursor_frame t d).

(** The deliveries that are new when they arrive, with the session as it then is. *)
Fixpoint accepted (t : TerminalSession) (ds : list ClusterSessionDelivery)
  : list (TerminalSession * ClusterSessionDelivery) :=
  match ds with
  | [] => []
  | d :: ds' =>
      let t := learn t d in
      if is_stale t (sd_revision d) then accepted t ds' else (t, d) :: accepted (advance t d) ds'
  end.

Definition in_order (t : TerminalSession) (ds : list ClusterSessionDelivery) : list SocketFrame :=
  accepted t ds ≫= fun td => frames_of td.1 td.2.

(** ** One browser and the deliveries to its session *)

Inductive TerminalEvent : Type :=
| Deliver (d : ClusterSessionDelivery)
| Receives.

(** The Proxy and what the browser has received. *)
Definition terminal_step (B : Backplane) (channel : Channel) (st : Proxy * list SocketFrame)
    (e : TerminalEvent) : Proxy * list SocketFrame :=
  let '(s, received) := st in
  match e with
  | Deliver d => ((handle_cluster_session_delivery B d s).2, received)
  | Receives =>
      match wd_queues (px_world s) !! channel with
      | Some (mkBrowserQueue capacity (f :: fs)) =>
          (mkProxy (px_inner s) (set_wd_queues (px_world s)
             (<[channel := mkBrowserQueue capacity fs]> (wd_queues (px_world s)))), received ++ [f])
      | _ => (s, received)
      end
  end.

Definition terminal_run (B : Backplane) (channel : Channel) (s : Proxy) (events : list TerminalEvent)
  : Proxy * list SocketFrame := foldl (terminal_step B channel) (s, []) events.

Definition offered (events : list TerminalEvent) : list ClusterSessionDelivery :=
  omap (fun e => match e with Deliver d => Some d | Receives => None end) events.

(** What the browser got or will get. *)
Definition passed (channel : Channel) (st : Proxy * list SocketFrame) : list SocketFrame :=
  st.2 ++ match wd_queues (px_world st.1) !! channel with Some q => bq_frames q | None => [] end.

(** A delivery of the session's machine that does not end the session. *)
Definition delivery_for (id : string) (t : TerminalSession) (d : ClusterSessionDelivery) : Prop :=
  sd_session_id d = id /\ sd_workspace_id d = ts_workspace_id t /\ sd_server_id d = ts_server_id t
  /\ sd_close d = false
  /\ (forall r, ready_message (sd_frame d) = Some r -> r.1 = id).

(** ** Lemmas *)

Lemma learn_key t d : ts_workspace_id (learn t d) = ts_workspace_id t
  /\ ts_server_id (learn t d) = ts_server_id t /\ ts_outgoing (learn t d) = ts_outgoing t.
Proof. unfold learn. by case_match. Qed.

Lemma advance_key t d : ts_workspace_id (advance t d) = ts_workspace_id t
  /\ ts_server_id (advance t d) = ts_server_id t /\ ts_outgoing (advance t d) = ts_outgoing t.
Proof. unfold advance. by case_match. Qed.

(** Frames put into a browser queue one by one, until one does not fit. *)
Lemma try_send_queue channel frame w q :
  wd_queues w !! channel = Some q ->
  (exists w', try_send channel frame w = (Sent, w')
     /\ wd_queues w' !! channel = Some (mkBrowserQueue (bq_capacity q) (bq_frames q ++ [frame])))
  \/ try_send channel frame w = (Full, w).
Proof.
  intros Hq. unfold try_send. rewrite Hq. case_match; [by right|left]. eexists. split; [done|].
  simpl. by rewrite lookup_insert_eq.
Qed.

Lemma send_frames channel frame cursor w q :
  wd_queues w !! channel = Some q ->
  exists r w' k, send_with_cursor channel frame cursor w = (r, w')
    /\ wd_queues w' !! channel
       = Some (mkBrowserQueue (bq_capacity q) (bq_frames q ++ take k (frame :: option_list cursor)))
    /\ (r = Sent /\ take k (frame :: option_list cursor) = frame :: option_list cursor \/ r = Full).
Proof.
  intros Hq. unfold send_with_cursor.
  destruct (try_send_queue channel frame w q Hq) as [(w1 & -> & Hw1)| ->].
  - destruct cursor as [c|].
    + destruct (try_send_queue channel c w1 _ Hw1) as [(w2 & -> & Hw2)| ->].
      * exists Sent, w2, 2%nat. split_and!; [done| |by left]. rewrite Hw2. simpl. by rewrite <- app_assoc.
      * exists Full, w1, 1%nat. split_and!; [done|by rewrite Hw1|by right].
    + exists Sent, w1, 1%nat. split_and!; [done|by rewrite Hw1|by left].
  - exists Full, w, 0%nat. split_and!; [done| |by right]. simpl. rewrite app_nil_r. by destruct q.
Qed.

Definition sessions (s : Proxy) : gmap string TerminalSession := in_sessions (px_inner s).
Definition queues (s : Proxy) : gmap Channel BrowserQueue := wd_queues (px_world s).

(** A program that leaves sessions and browser queues alone. *)
Definition keeps_terminals {A} (m : PM A) : Prop :=
  forall s, sessions (m s).2 = sessions s /\ queues (m s).2 = queues s.

Lemma session_keeps_bind {A D} (m : PM A) (k : A -> PM D) :
  keeps_terminals m -> (forall a, keeps_terminals (k a)) -> keeps_terminals (st_bind m k).
Proof.
  intros Hm Hk s. specialize (Hm s). unfold st_bind. destruct (m s) as [[a|e] s1]; [|done].
  destruct (Hk a s1) as [-> ->]. done.
Qed.

Lemma keeps_send channel frame : keeps_terminals (atom_send channel frame).
Proof. intros s. unfold atom_send. by case_bool_decide. Qed.

Lemma keeps_server_frame B ws id frame : keeps_terminals (send_server_frame B ws id frame).
Proof.
  assert (forall c, keeps_terminals (local_server_frame ws id c frame)) as Hl.
  { intros c. unfold local_server_frame. apply session_keeps_bind; [done|]. intros [c'|]; [|done].
    apply session_keeps_bind; [apply keeps_send|]. by intros []. }
  unfold send_server_frame. case_match; [done|]. apply session_keeps_bind; [done|].
  intros [o|]; [|done]. case_match; [done|]. by apply session_keeps_bind.
Qed.

(** A delivery to a session that is there. *)
Lemma deliver_step B id t d s q res s' :
  sessions s !! id = Some t -> queues s !! ts_outgoing t = Some q -> delivery_for id t d ->
  handle_cluster_session_delivery B d s = (res, s') ->
  (is_stale (learn t d) (sd_revision d) = true
   /\ sessions s' !! id = Some (learn t d) /\ queues s' !! ts_outgoing t = Some q)
  \/ (is_stale (learn t d) (sd_revision d) = false /\ exists k,
      queues s' !! ts_outgoing t
        = Some (mkBrowserQueue (bq_capacity q) (bq_frames q ++ take k (frames_of (learn t d) d)))
      /\ (sessions s' !! id = None
          \/ (take k (frames_of (learn t d) d) = frames_of (learn t d) d
              /\ sessions s' !! id = Some (advance (learn t d) d)))).
Proof.
  intros Ht Hq (Hid & Hws & Hsrv & Hclose & Hready).
  destruct (learn_key t d) as (_ & _ & Hout).
  assert (negb (session_of (sd_workspace_id d, sd_server_id d) t)
          || is_some_and (ready_message (sd_frame d)) (fun r => negb (r.1 =s id)) = false) as Hguard.
  { apply orb_false_iff. split.
    - unfold session_of. by rewrite Hws, Hsrv, bool_decide_true.
    - destruct (ready_message _) as [r|] eqn:E; [|done]. simpl. by rewrite (Hready r), String.eqb_refl. }
  unfold handle_cluster_session_delivery, st_bind, atom_deliver.
  rewrite Hid. unfold sessions in Ht. rewrite Ht, Hguard. cbv zeta. fold (learn t d).
  destruct (is_stale (learn t d) (sd_revision d)) eqn:Hstale.
  { intros [= <- <-]. left. unfold sessions, queues. simpl. by rewrite lookup_insert_eq. }
  rewrite Hout.
  destruct (send_frames (ts_outgoing t) (sd_frame d) (cursor_frame (learn t d) d) (px_world s) q Hq)
    as (r & w' & k & Hsend & Hq' & Hr). rewrite Hsend. intros E. right. split; [done|]. exists k.
  destruct Hr as [[-> Hall]| ->].
  - rewrite Hclose in E. injection E as <- <-. unfold sessions, queues. simpl. split; [done|right].
    split; [done|]. by rewrite lookup_insert_eq.
  - unfold ignore in E. injection E as <- <-. simpl.
    match goal with |- context [send_server_frame B ?a ?b ?f ?s0] =>
      destruct (keeps_server_frame B a b f s0) as [-> ->] end.
    unfold sessions, queues. simpl. split; [done|]. left. apply lookup_delete_eq.
Qed.

(** The browser takes a frame out of its queue: what it got or will get is the same. *)
Lemma receives_step B channel s received :
  let st := terminal_step B channel (s, received) Receives in
  passed channel st = passed channel (s, received) /\ sessions st.1 = sessions s
  /\ (is_Some (queues s !! channel) -> is_Some (queues st.1 !! channel)).
Proof.
  unfold terminal_step, passed, queues. simpl.
  destruct (wd_queues (px_world s) !! channel) as [[c [|f fs]]|] eqn:E; simpl; rewrite ?E; try done.
  rewrite lookup_insert_eq. simpl. by rewrite <- app_assoc.
Qed.

(** Deliveries to a session that is gone change nothing. *)
Lemma run_gone B channel id events : forall s received,
  sessions s !! id = None -> (forall d, d ∈ offered events -> sd_session_id d = id) ->
  let st := foldl (terminal_step B channel) (s, received) events in
  passed channel st = passed channel (s, received) /\ sessions st.1 !! id = None.
Proof.
  induction events as [|[d|] events IH]; intros s received Hs Hd; [done| |].
  - simpl in Hd. assert (sd_session_id d = id) as Hid by (apply Hd; by left).
    assert ((handle_cluster_session_delivery B d s).2 = s) as E.
    { unfold handle_cluster_session_delivery, st_bind, atom_deliver. rewrite Hid.
      unfold sessions in Hs. by rewrite Hs. }
    cbn [foldl terminal_step]. rewrite E. apply IH; [done|]. intros d' Hd'. apply Hd. by right.
  - destruct (receives_step B channel s received) as (Hp & Hss & _).
    cbn [foldl]. destruct (terminal_step B channel (s, received) Receives) as [s1 r1] eqn:E.
    simpl in Hss. rewrite <- Hp. apply IH; [by rewrite Hss|done].
Qed.

Lemma run_passed B channel id events : forall s received t,
  sessions s !! id = Some t -> is_Some (queues s !! channel) -> ts_outgoing t = channel ->
  (forall d, d ∈ offered events -> delivery_for id t d) ->
  let st := foldl (terminal_step B channel) (s, received) events in
  exists rest, passed channel (s, received) ++ in_order t (offered events) = passed channel st ++ rest
               /\ (is_Some (sessions st.1 !! id) -> rest = []).
Proof.
  induction events as [|[d|] events IH]; intros s received t Ht [q Hq] Hch Hd.
  { exists []. simpl. by rewrite !app_nil_r. }
  - subst channel. cbn [offered omap list_omap] in *. cbn [foldl terminal_step].
    destruct (handle_cluster_session_delivery B d s) as [res s'] eqn:E. simpl snd.
    destruct (learn_key t d) as (L1 & L2 & L3). destruct (advance_key (learn t d) d) as (A1 & A2 & A3).
    assert (forall t' d', ts_workspace_id t' = ts_workspace_id t -> ts_server_id t' = ts_server_id t ->
              d' ∈ offered events -> delivery_for id t' d') as Hd'.
    { intros t' d' E1 E2 Hin. unfold delivery_for. rewrite E1, E2. apply Hd. by right. }
    assert (passed (ts_outgoing t) (s, received) = received ++ bq_frames q) as Hp0
      by (unfold passed, queues in *; simpl; by rewrite Hq).
    destruct (deliver_step B id t d s q res s' Ht Hq (Hd d ltac:(by left)) E)
      as [(Hst & Hs' & Hq')|(Hst & k & Hq' & [Hs'|[Hall Hs']])].
    + unfold in_order. cbn [accepted]. cbv zeta. rewrite Hst. fold (in_order (learn t d) (offered events)).
      assert (passed (ts_outgoing t) (s', received) = received ++ bq_frames q) as Hp1
        by (unfold passed, queues in *; simpl; by rewrite Hq').
      rewrite Hp0, <- Hp1. apply IH; [done|by rewrite Hq'|done|]. intros d' Hin. by apply Hd'.
    + unfold in_order. cbn [accepted]. cbv zeta. rewrite Hst.
      edestruct (run_gone B (ts_outgoing t) id events s' received Hs') as [Hpg Hsg].
      { intros d' Hin. apply (Hd' t d'); done. }
      rewrite Hpg, Hsg. rewrite Hp0, bind_cons.
      assert (passed (ts_outgoing t) (s', received)
              = received ++ bq_frames q ++ take k (frames_of (learn t d) d)) as ->
        by (unfold passed, queues in *; simpl; by rewrite Hq').
      exists (drop k (frames_of (learn t d) d)
              ++ (accepted (advance (learn t d) d) (offered events) ≫= fun td => frames_of td.1 td.2)).
      split; [|by intros []]. cbn [fst snd].
      rewrite <- (take_drop k (frames_of (learn t d) d)) at 1. by rewrite <- !app_assoc.
    + unfold in_order. cbn [accepted]. cbv zeta. rewrite Hst, bind_cons. cbn [fst snd].
      fold (in_order (advance (learn t d) d) (offered events)).
      assert (passed (ts_outgoing t) (s', received)
              = received ++ bq_frames q ++ frames_of (learn t d) d) as Hp1
        by (unfold passed, queues in *; simpl; rewrite Hq'; simpl; by rewrite Hall).
      rewrite Hp0. rewrite app_assoc, <- (app_assoc received), <- Hp1.
      apply IH; [done|by rewrite Hq'|congruence|]. intros d' Hin. apply Hd'; [congruence|congruence|done].
  - destruct (receives_step B channel s received) as (Hp & Hss & Hqs).
    cbn [foldl]. destruct (terminal_step B channel (s, received) Receives) as [s1 r1] eqn:E.
    simpl in Hss, Hqs. rewrite <- Hp. apply IH; [by rewrite Hss|by apply Hqs|done|done].
Qed.

(** Accepted deliveries carry growing revisions. *)
Lemma accepted_sorted ds : forall t,
  (forall last, ts_last_revision t = Some last ->
     Forall (fun r => last < r) (omap (fun td => sd_revision td.2) (accepted t ds)))
  /\ StronglySorted Z.lt (omap (fun td => sd_revision td.2) (accepted t ds)).
Proof.
  induction ds as [|d ds IH]; intros t; simpl; [split; constructor|].
  assert (ts_last_revision (learn t d) = ts_last_revision t) as Hl by (unfold learn; by case_match).
  destruct (is_stale (learn t d) (sd_revision d)) eqn:Hst.
  - destruct (IH (learn t d)) as [H1 H2]. split; [|done]. intros last Hlast. apply H1. congruence.
  - destruct (IH (advance (learn t d) d)) as [H1 H2]. simpl. unfold advance in *.
    destruct (sd_revision d) as [r|] eqn:Hr.
    + simpl in *. specialize (H1 r eq_refl). split.
      * intros last Hlast. unfold is_stale in Hst. simpl in Hst. rewrite Hl, Hlast in Hst. simpl in Hst.
        apply Z.leb_gt in Hst. constructor; [lia|]. eapply Forall_impl; [exact H1|]. simpl. lia.
      * by constructor.
    + split; [|done]. intros last Hlast. apply H1. congruence.
Qed.

(** Terminal output reaches the browser in order, once, and without holes: of the deliveries
    offered to a session exactly those with a new revision are passed on, each followed by its
    cursor, so revisions grow strictly; and what the browser gets is that sequence, or, when its
    queue overflowed, a prefix of it, after which the session no longer exists. *)
Theorem terminal_output_in_order B id t s events :
  in_sessions (px_inner s) !! id = Some t ->
  wd_queues (px_world s) !! ts_outgoing t = Some (mkBrowserQueue TERMINAL_BROWSER_QUEUE_CAPACITY []) ->
  (forall d, d ∈ offered events -> delivery_for id t d) ->
  let st := terminal_run B (ts_outgoing t) s events in
  StronglySorted Z.lt (omap (fun td => sd_revision td.2) (accepted t (offered events)))
  /\ exists rest, in_order t (offered events) = passed (ts_outgoing t) st ++ rest
       /\ (is_Some (in_sessions (px_inner st.1) !! id) -> rest = []).
Proof.
  intros Ht Hq Hd st. split; [apply accepted_sorted|].
  destruct (run_passed B (ts_outgoing t) id events s [] t Ht) as (rest & H1 & H2);
    [unfold queues; by rewrite Hq|done|done|].
  exists rest. split; [|exact H2]. unfold st, terminal_run. etrans; [|exact H1].
  unfold passed. simpl. by rewrite Hq.
Qed.

(** ** The sample machine's Agent in a browser *)

Definition sample_session : TerminalSession := mkTerminalSession "ws" "m1" "a1" "browser-1" None (Some "epoch").
Definition sample_terminal : Proxy :=
  mkProxy (set_in_sessions empty_inner {[ "term" := sample_session ]})
    (set_wd_queues empty_world {[ "browser-1" := mkBrowserQueue TERMINAL_BROWSER_QUEUE_CAPACITY [] ]}).
Definition sample_output (revision : Z) : ClusterSessionDelivery :=
  mkClusterSessionDelivery SessionTerminal "ws" "m1" "term" (Some revision) true false (FBinary [revision]).
(** The second chunk arrives twice. *)
Definition sample_events : list TerminalEvent :=
  [Deliver (sample_output 1); Deliver (sample_output 2); Receives; Deliver (sample_output 2);
   Deliver (sample_output 3)].

Lemma terminal_output_in_order_witness :
  exists rest, in_order sample_session (offered sample_events)
               = passed "browser-1" (terminal_run sample_plane "browser-1" sample_terminal sample_events) ++ rest
    /\ rest = [].
Proof.
  destruct (terminal_output_in_order sample_plane "term" sample_session sample_terminal sample_events)
    as [_ (rest & H & Hr)].
  - vm_compute. reflexivity.
  - vm_compute. reflexivity.
  - intros d Hd. apply list_elem_of_fmap_2 in Hd || idtac.
    repeat (apply elem_of_cons in Hd as [->|Hd]; [repeat split; intros r Hr; vm_compute in Hr; discriminate|]).
    by apply elem_of_nil in Hd.
  - exists rest. split; [exact H|]. apply Hr. vm_compute. eexists. reflexivity.
Defined.
