(* ===== verification/StreamBridge.v ===== *)
(** * The two ends of a service stream

    A client stream opened through a Proxy is carried over the Controller's socket to a service on
    the machine.  The Proxy's end is [bridge_browser_network_stream]
    (crates/treer-proxy/src/state/network.rs), the Controller's end [bridge_stream]
    (crates/treer-agent-server/src/network.rs); both are loops over what they read locally and what
    frames arrive, with a credit window for what they may send.  Each arm of the two loops is a
    definition here; [StreamLink] connects them.

    A bridge keeps what it has written to its local stream and what frames it has sent.  The result
    of a local write or of a send is an input ([Io]); of a write that fails, so is how much of it got
    out. *)

From stdpp Require Import gmap pretty.
From S2P Require Import Prelude RustStr Protocol HostProtocol BinaryFrames.
Local Open Scope Z_scope.

Definition NETWORK_INITIAL_WINDOW : Z := 256 * 1024.
Definition NETWORK_MAX_CHUNK : Z := 16 * 1024.
Definition INITIAL_WINDOW : Z := 256 * 1024.
Definition MAX_CHUNK : Z := 16 * 1024.
Definition STREAM_CHANNEL_CAPACITY : nat := 32.

Definition StreamFrame : Type := NetworkBinaryKind * bytes.

Record Bridge : Type := mkBridge {
  br_send_window : Z;
  br_local_closed : bool;
  br_remote_closed : bool;
  br_written : bytes;             (* written to the local stream *)
  br_shutdown : bool;             (* the local stream was shut down for writing *)
  br_sent : list StreamFrame      (* sent to the other end *)
}.

Definition bridge_new (window : Z) : Bridge := mkBridge window false false [] false [].
(** The condition of the loops. *)
Definition running (b : Bridge) : bool := negb (br_local_closed b) || negb (br_remote_closed b).
(** The guard of the reading arm. *)
Definition may_read (b : Bridge) : bool := negb (br_local_closed b) && (0 <? br_send_window b).

Record Io (E : Type) : Type := mkIo { io_local : Result unit string; io_part : nat; io_send : Result unit E }.
Arguments mkIo {E} io_local io_part io_send.
Arguments io_local {E} i.
Arguments io_part {E} i.
Arguments io_send {E} i.
Definition io_fine {E} : Io E := mkIo (Ok tt) 0 (Ok tt).

Definition BM (E A : Type) : Type := StM Bridge A E.

Definition b_window (f : Z -> Z) {E} : BM E unit := fun b =>
  (Ok tt, mkBridge (f (br_send_window b)) (br_local_closed b) (br_remote_closed b) (br_written b)
            (br_shutdown b) (br_sent b)).
Definition b_close_local {E} : BM E unit := fun b =>
  (Ok tt, mkBridge (br_send_window b) true (br_remote_closed b) (br_written b) (br_shutdown b) (br_sent b)).
Definition b_close_remote {E} : BM E unit := fun b =>
  (Ok tt, mkBridge (br_send_window b) (br_local_closed b) true (br_written b) (br_shutdown b) (br_sent b)).
(** [writer.write_all] and [writer.shutdown]. *)
Definition b_write {E} (io : Io E) (wrap : string -> E) (data : bytes) : BM E unit := fun b =>
  match io_local io with
  | Ok _ => (Ok tt, mkBridge (br_send_window b) (br_local_closed b) (br_remote_closed b)
                      (br_written b ++ data) (br_shutdown b) (br_sent b))
  | Err text => (Err (wrap text), mkBridge (br_send_window b) (br_local_closed b) (br_remote_closed b)
                      (br_written b ++ take (io_part io) data) (br_shutdown b) (br_sent b))
  end.
Definition b_shutdown {E} (io : Io E) (wrap : string -> E) : BM E unit := fun b =>
  match io_local io with
  | Ok _ => (Ok tt, mkBridge (br_send_window b) (br_local_closed b) (br_remote_closed b) (br_written b)
                      true (br_sent b))
  | Err text => (Err (wrap text), b)
  end.
Definition b_send {E} (io : Io E) (kind : NetworkBinaryKind) (payload : bytes) : BM E unit := fun b =>
  match io_send io with
  | Ok _ => (Ok tt, mkBridge (br_send_window b) (br_local_closed b) (br_remote_closed b) (br_written b)
                      (br_shutdown b) (br_sent b ++ [(kind, payload)]))
  | Err e => (Err e, b)
  end.

Definition usize_max : Z := 2 ^ 64 - 1.
(** [u32::try_from(n).unwrap_or(u32::MAX)] and [n as u32]. *)
Definition to_u32 (n : Z) : Z := if n <=? u32_max then n else u32_max.
Definition as_u32 (n : Z) : Z := n mod 2 ^ 32.

(** ** The Proxy's end *)

(** [serde_json::from_slice] of a reset frame. *)
Class ErrorReader : Type := read_error : bytes -> option ProtocolError.

Section ProxyEnd.
Context {Reader : ErrorReader}.

Definition decode_network_reset (payload : bytes) : ProtocolError :=
  default (protocol_error "network_stream_reset" "network stream was reset") (read_error payload).

Definition network_io_error (text : string) : ProtocolError := protocol_error "network_io_error" text.

(** The reading arm: [read] is what the local stream gave, nothing at its end. *)
Definition proxy_on_read (io : Io ProtocolError) (read : Result bytes string) : BM ProtocolError unit :=
  let! data := st_lift (map_err network_io_error read) in
  if bool_decide (data = []) then
    b_close_local ;!
    b_send io NHalfClose []
  else
    b_window (fun w => w - blen data) ;!
    b_send io NData data.

(** The receiving arm; no frame when the channel is closed. *)
Definition proxy_on_frame (io : Io ProtocolError) (frame : option StreamFrame) : BM ProtocolError unit :=
  match frame with
  | None => st_throw (protocol_error "network_stream_closed" "network stream receiver closed")
  | Some (NData, payload) =>
      b_write io network_io_error payload ;!
      b_send io NWindowUpdate (to_be_bytes 4 (to_u32 (blen payload)))
  | Some (NWindowUpdate, payload) =>
      if bool_decide (length payload = 4)%nat
      then b_window (fun w => Z.min (w + from_be_bytes payload) usize_max)
      else st_throw (network_error "invalid network window update")
  | Some (NHalfClose, _) => fun b =>
      if br_remote_closed b then (Ok tt, b)
      else (b_shutdown io network_io_error ;! b_close_remote) b
  | Some (NReset, payload) => st_throw (decode_network_reset payload)
  | Some (kind, _) => st_throw (network_error ("unexpected network stream frame " +:+ pretty (network_kind_byte kind)))
  end.

End ProxyEnd.

(** ** The Controller's end *)

Definition ctrl_on_read (io : Io string) (read : Result bytes string) : BM string unit :=
  let! data := st_lift read in
  if bool_decide (data = []) then
    b_close_local ;!
    b_send io NHalfClose []
  else
    b_window (fun w => w - blen data) ;!
    b_send io NData data.

Definition ctrl_on_frame (io : Io string) (frame : option StreamFrame) : BM string unit :=
  match frame with
  | None => st_throw "service stream receiver closed"
  | Some (NData, payload) => fun b =>
      if negb (br_remote_closed b) && (blen payload <=? MAX_CHUNK) then
        (b_write io id payload ;!
         b_send io NWindowUpdate (to_be_bytes 4 (as_u32 (blen payload)))) b
      else (Err "invalid service data frame", b)
  | Some (NWindowUpdate, payload) => fun b =>
      if bool_decide (length payload = 4)%nat then
        let credit := from_be_bytes payload in
        if (0 <? credit) && (credit <=? INITIAL_WINDOW - br_send_window b)
        then b_window (fun w => w + credit) b
        else (Err "invalid service window credit", b)
      else (Err "invalid service window update", b)
  | Some (NHalfClose, _) => fun b =>
      if br_remote_closed b then (Ok tt, b)
      else (b_shutdown io id ;! b_close_remote) b
  | Some (NReset, _) => st_throw "service stream reset"
  | Some (kind, _) => st_throw ("unexpected service stream frame " +:+ pretty (network_kind_byte kind))
  end.

(** ** Bounds at one end *)

(** The inputs of a bridge loop. *)
Inductive BridgeInput : Type :=
| LocalRead (io : Io string) (read : Result bytes string)
| RemoteFrame (io : Io string) (frame : option StreamFrame).

(** One turn of the Controller's loop: the reading arm only under its guard, and with at most as
    much as the buffer holds; after an error or when both directions are closed the loop ends. *)
Definition ctrl_step (b : Bridge) (i : BridgeInput) : option Bridge :=
  if negb (running b) then None else
  match i with
  | LocalRead io read =>
      if may_read b && (match read with Ok data => blen data <=? Z.min (br_send_window b) MAX_CHUNK | Err _ => true end)
      then let '(r, b') := ctrl_on_read io read b in if is_ok r then Some b' else None
      else Some b
  | RemoteFrame io frame => let '(r, b') := ctrl_on_frame io frame b in if is_ok r then Some b' else None
  end.

Fixpoint ctrl_loop (b : Bridge) (inputs : list BridgeInput) : option Bridge :=
  match inputs with
  | [] => Some b
  | i :: inputs => match ctrl_step b i with Some b' => ctrl_loop b' inputs | None => None end
  end.

Lemma ctrl_step_window b i b' :
  0 <= br_send_window b <= INITIAL_WINDOW -> ctrl_step b i = Some b' ->
  0 <= br_send_window b' <= INITIAL_WINDOW.
Proof.
  intros Hb. unfold ctrl_step. case_match; [done|]. destruct i as [io read|io frame].
  - case_match eqn:Hg; [|intros [= <-]; done]. bool_hyps. unfold ctrl_on_read, st_bind, st_lift.
    destruct read as [data|text]; [|done]. case_bool_decide; simpl.
    + unfold b_send. destruct (io_send io); simpl; intros [= <-]; simpl; lia.
    + unfold b_send. destruct (io_send io); simpl; intros [= <-]; simpl.
      assert (0 <= blen data) by (unfold blen; lia). lia.
  - destruct (ctrl_on_frame io frame b) as [r b1] eqn:E. destruct r as [[]|]; [|done]. intros [= <-].
    unfold ctrl_on_frame, st_bind, b_write, b_send, b_shutdown, b_close_remote, b_window, st_throw in E.
    destruct frame as [[[] payload]|]; repeat case_match; simplify_eq/=; bool_hyps; lia.
Qed.

(** The Controller's window stays within its initial size whatever frames the Proxy sends, so
    neither the subtraction of what was read nor that of the window from its initial size wraps
    around. *)
Theorem controller_window_bounded inputs b :
  ctrl_loop (bridge_new INITIAL_WINDOW) inputs = Some b -> 0 <= br_send_window b <= INITIAL_WINDOW.
Proof.
  assert (0 <= br_send_window (bridge_new INITIAL_WINDOW) <= INITIAL_WINDOW) as H
    by (unfold INITIAL_WINDOW; simpl; lia).
  revert H. generalize (bridge_new INITIAL_WINDOW).
  induction inputs as [|i inputs IH]; simpl; intros b0 H0; [intros [= <-]; done|].
  destruct (ctrl_step b0 i) as [b1|] eqn:E; [|done]. apply IH. by eapply ctrl_step_window.
Qed.

(** Three bytes are read, and two of them acknowledged. *)
Lemma controller_window_bounded_witness :
  exists b, ctrl_loop (bridge_new INITIAL_WINDOW)
    [LocalRead io_fine (Ok [1; 2; 3]); RemoteFrame io_fine (Some (NWindowUpdate, [0; 0; 0; 2]))] = Some b
  /\ 0 <= br_send_window b <= INITIAL_WINDOW.
Proof.
  eexists. split; [vm_compute; reflexivity|].
  apply (controller_window_bounded
           [LocalRead io_fine (Ok [1; 2; 3]); RemoteFrame io_fine (Some (NWindowUpdate, [0; 0; 0; 2]))]).
  vm_compute. reflexivity.
Defined.
