(* ===== verification/StreamLink.v ===== *)
(** * A service stream from client to service

    The two bridges of [StreamBridge], the queues between them and the tables in which the streams
    are registered: [relay_network_frame_inner] and the socket loop of agent_socket.rs on the
    Proxy, [NetworkRuntime::handle_incoming] and the end of [spawn_destination] on the Controller.
    Every event is one step of one task; what the local streams and the sends answer is part of the
    event, so they may fail at any step.  A task can be told to stop while it waits within a step;
    it then does what it does when that wait fails.  [SocketLost] is the end of the Controller's
    connection ([NetworkRuntime::reset_all]): what was on the socket is lost, and the sends of the
    stream's task are refused from then on, since they carry the old transport epoch. *)

From stdpp Require Import gmap.
From S2P Require Import Prelude RustStr Protocol HostProtocol BinaryFrames StreamBridge.
Local Open Scope Z_scope.

(** The JSON of a [ProtocolError] in a reset frame. *)
Class ResetCodec : Type := reset_bytes : string -> bytes.

Record Link : Type := mkLink {
  lk_proxy : Bridge;                               (* the Proxy's bridge *)
  lk_proxy_end : option (Result unit ProtocolError);  (* how its loop ended *)
  lk_proxy_open : bool;                            (* registered in browser_network_streams *)
  lk_proxy_queue : list StreamFrame;               (* its channel *)
  lk_proxy_read : bytes;                           (* what the client has sent *)
  lk_proxy_left : bool;                            (* its task is over *)
  lk_ctrl : Bridge;
  lk_ctrl_end : option (Result unit string);
  lk_ctrl_open : bool;                             (* registered in NetworkInner::streams *)
  lk_ctrl_queue : list StreamFrame;
  lk_ctrl_read : bytes;                            (* what the service has sent *)
  lk_ctrl_cancelled : bool;                        (* the task was told to stop *)
  lk_up : list StreamFrame;                        (* on the socket, to the Controller *)
  lk_down : list StreamFrame;                      (* on the socket, to the Proxy *)
  lk_live : bool                                   (* the connection is the one of the stream *)
}.

Definition link_new : Link :=
  mkLink (bridge_new NETWORK_INITIAL_WINDOW) None true [] [] false (bridge_new INITIAL_WINDOW) None true [] [] false
    [] [] true.

Definition set_proxy (l : Link) b e : Link :=
  mkLink b e (lk_proxy_open l) (lk_proxy_queue l) (lk_proxy_read l) (lk_proxy_left l) (lk_ctrl l)
    (lk_ctrl_end l) (lk_ctrl_open l) (lk_ctrl_queue l) (lk_ctrl_read l)
    (lk_ctrl_cancelled l) (lk_up l) (lk_down l) (lk_live l).
Definition set_proxy_table (l : Link) open queue read : Link :=
  mkLink (lk_proxy l) (lk_proxy_end l) open queue read (lk_proxy_left l) (lk_ctrl l)
    (lk_ctrl_end l) (lk_ctrl_open l) (lk_ctrl_queue l) (lk_ctrl_read l)
    (lk_ctrl_cancelled l) (lk_up l) (lk_down l) (lk_live l).
Definition set_proxy_left (l : Link) : Link :=
  mkLink (lk_proxy l) (lk_proxy_end l) false (lk_proxy_queue l) (lk_proxy_read l) true
    (lk_ctrl l) (lk_ctrl_end l) (lk_ctrl_open l) (lk_ctrl_queue l) (lk_ctrl_read l)
    (lk_ctrl_cancelled l) (lk_up l) (lk_down l) (lk_live l).
Definition set_ctrl (l : Link) b e : Link :=
  mkLink (lk_proxy l) (lk_proxy_end l) (lk_proxy_open l) (lk_proxy_queue l) (lk_proxy_read l)
    (lk_proxy_left l) b e (lk_ctrl_open l) (lk_ctrl_queue l) (lk_ctrl_read l)
    (lk_ctrl_cancelled l) (lk_up l) (lk_down l) (lk_live l).
Definition set_ctrl_table (l : Link) open queue read cancelled : Link :=
  mkLink (lk_proxy l) (lk_proxy_end l) (lk_proxy_open l) (lk_proxy_queue l) (lk_proxy_read l)
    (lk_proxy_left l) (lk_ctrl l) (lk_ctrl_end l) open queue read cancelled (lk_up l)
    (lk_down l) (lk_live l).
Definition set_socket (l : Link) up down : Link :=
  mkLink (lk_proxy l) (lk_proxy_end l) (lk_proxy_open l) (lk_proxy_queue l) (lk_proxy_read l)
    (lk_proxy_left l) (lk_ctrl l) (lk_ctrl_end l) (lk_ctrl_open l) (lk_ctrl_queue l)
    (lk_ctrl_read l) (lk_ctrl_cancelled l) up down (lk_live l).
Definition set_lost (l : Link) cancelled : Link :=
  mkLink (lk_proxy l) (lk_proxy_end l) (lk_proxy_open l) (lk_proxy_queue l) (lk_proxy_read l)
    (lk_proxy_left l) (lk_ctrl l) (lk_ctrl_end l) false (lk_ctrl_queue l)
    (lk_ctrl_read l) cancelled [] [] false.

Inductive LinkEvent : Type :=
(** The reading arms, with what the local stream gave: nothing at its end. *)
| ClientReads (io : Io ProtocolError) (read : Result bytes string)
| ServiceReads (io : Io string) (read : Result bytes string)
(** The receiving arms. *)
| ProxyTakesWith (io : Io ProtocolError)
| CtrlTakesWith (io : Io string)
| ProxyRelays                  (* the Proxy handles a frame of the socket *)
| CtrlDelivers                 (* the Controller handles a frame of the socket *)
| ProxyLeavesWith (io : Io ProtocolError)  (* the task of an ended bridge removes the stream *)
| CtrlLeaves
| ProxyCancelled               (* the client's task is told to stop *)
| CtrlCancelled                (* the Controller's task notices that it was told to stop *)
| SocketLost.

(** Events at which nothing fails. *)
Definition ClientSends (data : bytes) : LinkEvent := ClientReads io_fine (Ok data).
Definition ServiceSends (data : bytes) : LinkEvent := ServiceReads io_fine (Ok data).
Definition ProxyTakes : LinkEvent := ProxyTakesWith io_fine.
Definition CtrlTakes : LinkEvent := CtrlTakesWith io_fine.
Definition ProxyLeaves : LinkEvent := ProxyLeavesWith io_fine.

Section Link.
Context {Reader : ErrorReader} {Codec : ResetCodec}.

Definition new_frames (b b' : Bridge) : list StreamFrame := drop (length (br_sent b)) (br_sent b').
Definition loop_end {E} (r : Result unit E) (b : Bridge) : option (Result unit E) :=
  match r with
  | Err e => Some (Err e)
  | Ok _ => if running b then None else Some (Ok tt)
  end.

(** One turn of a loop. *)
Definition proxy_turn (m : BM ProtocolError unit) (l : Link) : Link :=
  let '(r, b) := m (lk_proxy l) in
  set_proxy (set_socket l (lk_up l ++ new_frames (lk_proxy l) b) (lk_down l)) b (loop_end r b).
Definition ctrl_turn (m : BM string unit) (l : Link) : Link :=
  let '(r, b) := m (lk_ctrl l) in
  set_ctrl (set_socket l (lk_up l) (lk_down l ++ new_frames (lk_ctrl l) b)) b (loop_end r b).

Definition reset (code : string) : StreamFrame := (NReset, reset_bytes code).
Definition up_reset (code : string) (l : Link) : Link := set_socket l (lk_up l ++ [reset code]) (lk_down l).
Definition down_reset (code : string) (l : Link) : Link := set_socket l (lk_up l) (lk_down l ++ [reset code]).

(** [relay_network_frame_inner] of the Proxy the client is connected to; the socket loop answers
    an error with a reset.  A full channel makes the socket loop wait. *)
Definition proxy_relay (frame : StreamFrame) (rest : list StreamFrame) (l : Link) : Link :=
  let l1 := set_socket l (lk_up l) rest in
  if lk_proxy_open l then
    match lk_proxy_end l with
    | None =>
        if (length (lk_proxy_queue l) <? 32)%nat
        then set_proxy_table l1 true (lk_proxy_queue l ++ [frame]) (lk_proxy_read l)
        else l
    | Some _ => up_reset "network_stream_closed" (set_proxy_table l1 false (lk_proxy_queue l) (lk_proxy_read l))
    end
  else up_reset "network_stream_not_found" l1.

(** [NetworkRuntime::handle_incoming] for the frames of a stream that exists. *)
Definition ctrl_deliver (frame : StreamFrame) (rest : list StreamFrame) (l : Link) : Link :=
  let l1 := set_socket l rest (lk_down l) in
  let removed := set_ctrl_table l1 false (lk_ctrl_queue l) (lk_ctrl_read l) true in
  if bool_decide (frame.1 = NReset) then (if lk_ctrl_open l then removed else l1)
  else if lk_ctrl_open l then
    if bool_decide (lk_ctrl_end l = None) && (length (lk_ctrl_queue l) <? STREAM_CHANNEL_CAPACITY)%nat
    then set_ctrl_table l1 true (lk_ctrl_queue l ++ [frame]) (lk_ctrl_read l) (lk_ctrl_cancelled l)
    else down_reset "stream_backpressure" removed
  else down_reset "stream_not_found" l1.

(** At most as much as the buffer of the reading arm holds. *)
Definition fits (b : Bridge) (read : Result bytes string) (chunk : Z) : bool :=
  may_read b && (match read with Ok data => blen data <=? Z.min (br_send_window b) chunk | Err _ => true end).
Definition got (read : Result bytes string) : bytes := match read with Ok data => data | Err _ => [] end.

(** [NetworkRuntime::send] compares the transport epochs. *)
Definition ctrl_io (l : Link) (io : Io string) : Io string :=
  if lk_live l then io else mkIo (io_local io) (io_part io) (Err "service transport offline or superseded").

Definition service_stream_cancelled : ProtocolError :=
  protocol_error "service_stream_cancelled" "service forwarding was cancelled or authorization revoked".

Definition link_step (l : Link) (e : LinkEvent) : Link :=
  match e with
  | ClientReads io read =>
      if bool_decide (lk_proxy_end l = None) && fits (lk_proxy l) read NETWORK_MAX_CHUNK
      then proxy_turn (proxy_on_read io read)
             (set_proxy_table l (lk_proxy_open l) (lk_proxy_queue l) (lk_proxy_read l ++ got read))
      else l
  | ServiceReads io read =>
      if bool_decide (lk_ctrl_end l = None) && fits (lk_ctrl l) read MAX_CHUNK
      then ctrl_turn (ctrl_on_read (ctrl_io l io) read)
             (set_ctrl_table l (lk_ctrl_open l) (lk_ctrl_queue l) (lk_ctrl_read l ++ got read) (lk_ctrl_cancelled l))
      else l
  | ProxyTakesWith io =>
      match lk_proxy_end l, lk_proxy_queue l with
      | None, frame :: queue =>
          proxy_turn (proxy_on_frame io (Some frame))
            (set_proxy_table l (lk_proxy_open l) queue (lk_proxy_read l))
      | _, _ => l
      end
  | CtrlTakesWith io =>
      match lk_ctrl_end l, lk_ctrl_queue l with
      | None, frame :: queue =>
          ctrl_turn (ctrl_on_frame (ctrl_io l io) (Some frame))
            (set_ctrl_table l (lk_ctrl_open l) queue (lk_ctrl_read l) (lk_ctrl_cancelled l))
      | _, _ => l
      end
  | ProxyRelays => match lk_down l with frame :: rest => proxy_relay frame rest l | [] => l end
  | CtrlDelivers => match lk_up l with frame :: rest => ctrl_deliver frame rest l | [] => l end
  | ProxyLeavesWith io =>
      if lk_proxy_left l then l else
      match lk_proxy_end l with
      | Some (Ok _) => set_proxy_left l
      | Some (Err error) =>
          if is_ok (io_send io) then up_reset (pe_code error) (set_proxy_left l) else set_proxy_left l
      | None => l
      end
  | CtrlLeaves =>
      match lk_ctrl_end l with
      | Some r =>
          if lk_ctrl_open l && negb (lk_ctrl_cancelled l)
          then down_reset (if is_ok r then "stream_closed" else "stream_failed")
                 (set_ctrl_table l false (lk_ctrl_queue l) (lk_ctrl_read l) false)
          else l
      | None => l
      end
  | ProxyCancelled =>
      if bool_decide (lk_proxy_end l = None) then set_proxy l (lk_proxy l) (Some (Err service_stream_cancelled)) else l
  | CtrlCancelled =>
      if lk_ctrl_cancelled l && bool_decide (lk_ctrl_end l = None)
      then set_ctrl l (lk_ctrl l) (Some (Err "cancelled")) else l
  | SocketLost => set_lost l (lk_ctrl_cancelled l || lk_ctrl_open l)
  end.

Definition link_run (events : list LinkEvent) : Link := foldl link_step link_new events.

End Link.
