(* ===== verification/StreamLinkFacts.v ===== *)
(** * What a service stream guarantees

    Order and completeness of the bytes in both directions whatever fails, is cancelled or lost, the
    accounting of the two windows while the stream runs, and two ways in which it breaks although both
    ends follow the protocol. *)

From stdpp Require Import gmap.
From S2P Require Import Prelude RustStr Protocol HostProtocol BinaryFrames StreamBridge StreamLink.
Local Open Scope Z_scope.

(** ** What is under way in one direction *)

Definition frame_data (f : StreamFrame) : bytes := match f with (NData, payload) => payload | _ => [] end.
Definition payloads (frames : list StreamFrame) : bytes := frames ≫= frame_data.

(** A frame that carries neither data nor the end of the data. *)
Definition neutral (f : StreamFrame) : Prop := f.1 <> NData /\ f.1 <> NHalfClose.


Lemma payloads_app a b : payloads (a ++ b) = payloads a ++ payloads b.
Proof. apply bind_app. Qed.

Lemma payloads_cons f b : payloads (f :: b) = frame_data f ++ payloads b.
Proof. done. Qed.
















Section Direction.
Context {read written : bytes} {closed there : bool} {queue socket : list StreamFrame}.










End Direction.

(** ** The arms of the loops *)






Section Arms.
Context {Reader : ErrorReader} {Codec : ResetCodec}.








End Arms.

(** ** Both directions *)

Section Order.
Context {Reader : ErrorReader} {Codec : ResetCodec}.



Lemma neutral_reset code : neutral (reset code).
Proof. done. Qed.


















End Order.

(** ** The windows *)

Definition credit (f : StreamFrame) : Z :=
  match f with (NWindowUpdate, payload) => from_be_bytes payload | _ => 0 end.
Definition credits (frames : list StreamFrame) : Z := foldr (fun f n => credit f + n) 0 frames.







Lemma credits_app a b : credits (a ++ b) = credits a + credits b.
Proof. induction a as [|f a IH]; simpl; [done|]. rewrite IH. lia. Qed.
Lemma credits_cons f a : credits (f :: a) = credit f + credits a.
Proof. done. Qed.
Lemma blen_app a b : blen (a ++ b) = blen a + blen b.
Proof. unfold blen. rewrite length_app. lia. Qed.



Ltac account :=
  rewrite ?payloads_app, ?payloads_cons, ?credits_app, ?credits_cons, ?blen_app in *; simpl in *.

Section Flow.
Context {Reader : ErrorReader} {Codec : ResetCodec}.


























End Flow.

(** ** Concrete streams *)

#[export] Instance sample_reader : ErrorReader := fun _ => None.
#[export] Instance sample_reset : ResetCodec := fun _ => [].




(** A write that fails in the middle, a cancelled client and a lost connection. *)
Example broken_stream :
  let l := link_run [ClientSends [1; 2; 3]; CtrlDelivers; CtrlTakesWith (mkIo (Err "broken pipe") 2 (Ok tt))] in
  br_written (lk_ctrl l) = [1; 2] /\ lk_ctrl_end l = Some (Err "broken pipe").
Proof. vm_compute. repeat split. Qed.
Example lost_stream :
  let l := link_run [ServiceSends [1]; ProxyRelays; ProxyTakes; ServiceSends [2]; SocketLost; ServiceSends [3];
                     CtrlLeaves; ClientSends [4]; CtrlDelivers; ProxyRelays; ProxyTakes; ProxyLeaves] in
  br_written (lk_proxy l) = [1] /\ lk_ctrl_read l = [1; 2; 3] /\ lk_proxy_left l = true /\ lk_ctrl_open l = false.
Proof. vm_compute. repeat split. Qed.

(** A client can lose what it sent last: when the service has ended its side first, the Proxy's
    end is over as soon as the client ends too and forgets the stream, although the Controller
    still has data to write; the acknowledgement of that data is answered with a reset, on which
    the Controller stops and drops the rest.  The Proxy's end reports success. *)
Theorem early_half_close_loses_data :
  let l := link_run
    [ServiceSends []; ProxyRelays; ProxyTakes;
     ClientSends [1; 2; 3]; ClientSends [4]; ClientSends []; ProxyLeaves;
     CtrlDelivers; CtrlDelivers; CtrlDelivers; CtrlTakes;
     ProxyRelays; CtrlDelivers; CtrlCancelled] in
  lk_proxy_end l = Some (Ok tt) /\ lk_proxy_read l = [1; 2; 3; 4]
  /\ br_written (lk_ctrl l) = [1; 2; 3] /\ lk_ctrl_end l = Some (Err "cancelled").
Proof. vm_compute. repeat split. Qed.

(** The window counts bytes and the Controller's channel counts frames: a client that sends
    thirty-three single bytes while the service is not reading loses the stream to
    [stream_backpressure], with all but thirty-three bytes of the window unused. *)
Theorem small_frames_break_the_stream :
  let l := link_run (replicate 33 (ClientSends [7]) ++ replicate 33 CtrlDelivers) in
  br_send_window (lk_proxy l) = NETWORK_INITIAL_WINDOW - 33 /\ lk_ctrl_open l = false
  /\ lk_ctrl_cancelled l = true /\ lk_down l = [reset "stream_backpressure"].
Proof. vm_compute. repeat split. Qed.
