(* ===== verification/NetworkRuntime.v ===== *)
(** * Service streams on the Controller (crates/treer-agent-server/src/network.rs)

    The table of streams of the Controller's socket, the transport epoch that separates one socket
    from the next, and the queue of outgoing frames.  A stream's channel is named by a number, as
    [mpsc::Sender::same_channel] identifies it; the tasks of the streams are the pairs of epoch and
    channel they hold.  JSON is a parameter.  The bridge that a task runs is [StreamBridge]. *)

From stdpp Require Import gmap.
From S2P Require Import Prelude RustStr Protocol HostProtocol BinaryFrames StreamBridge.
Local Open Scope Z_scope.

Definition OUTGOING_CHANNEL_CAPACITY : nat := 128.
Definition MAX_STREAMS : nat := Z.to_nat 4096.

(** A spawned task: its epoch, stream and channel. *)
Record Task : Type := mkTask { tk_epoch : Z; tk_stream_id : string; tk_channel : nat }.
#[export] Instance Task_eq_dec : EqDecision Task.
Proof. solve_decision. Defined.

Record NetworkInner : Type := mkNetworkInner {
  ni_outgoing : list (Z * NetworkBinaryFrame);
  ni_proxy_connected : bool;
  ni_transport_epoch : Z;
  ni_streams : gmap string nat;                       (* the channel of each stream *)
  ni_channels : gmap nat (list NetworkBinaryFrame);   (* what each open channel holds *)
  ni_cancelled : gset nat;                            (* tasks that were told to stop *)
  ni_tasks : list Task;                               (* every task that was spawned *)
  ni_sent : list (Z * NetworkBinaryFrame)             (* taken for the socket, with the epoch then *)
}.

Definition set_outgoing (s : NetworkInner) v :=
  mkNetworkInner v (ni_proxy_connected s) (ni_transport_epoch s) (ni_streams s) (ni_channels s) (ni_cancelled s)
    (ni_tasks s) (ni_sent s).
Definition set_transport (s : NetworkInner) connected epoch :=
  mkNetworkInner (ni_outgoing s) connected epoch (ni_streams s) (ni_channels s) (ni_cancelled s)
    (ni_tasks s) (ni_sent s).
Definition set_streams (s : NetworkInner) streams cancelled :=
  mkNetworkInner (ni_outgoing s) (ni_proxy_connected s) (ni_transport_epoch s) streams (ni_channels s) cancelled
    (ni_tasks s) (ni_sent s).
Definition set_channels (s : NetworkInner) v :=
  mkNetworkInner (ni_outgoing s) (ni_proxy_connected s) (ni_transport_epoch s) (ni_streams s) v (ni_cancelled s)
    (ni_tasks s) (ni_sent s).

Definition runtime_new : NetworkInner := mkNetworkInner [] false 0 ∅ ∅ ∅ [] [].

Definition NM (A : Type) : Type := StM NetworkInner A string.

Class NetworkCodec : Type := {
  request_ok : bytes -> Result unit string;           (* serde_json::from_slice of the request *)
  error_payload : string -> string -> bytes           (* the JSON of a ProtocolError *)
}.

Section Runtime.
Context {Codec : NetworkCodec}.

(** [NetworkRuntime::send] with the epoch of the runtime; the wait for room in the queue is the
    guard of the step that calls it. *)
Definition send (epoch : option Z) (frame : NetworkBinaryFrame) : NM unit := fun s =>
  let epoch := default (ni_transport_epoch s) epoch in
  if ni_proxy_connected s && (epoch =? ni_transport_epoch s)
  then (Ok tt, set_outgoing s (ni_outgoing s ++ [(epoch, frame)]))
  else (Err "service transport offline or superseded", s).

Definition reject (epoch : option Z) (stream_id code message : string) : NM unit :=
  send epoch (mkNetworkBinaryFrame NReset stream_id (error_payload code message)).

(** [next_outgoing]: frames of earlier epochs are dropped. *)
Fixpoint skip_stale (epoch : Z) (queue : list (Z * NetworkBinaryFrame))
  : option (NetworkBinaryFrame * list (Z * NetworkBinaryFrame)) :=
  match queue with
  | [] => None
  | (e, frame) :: queue => if e =? epoch then Some (frame, queue) else skip_stale epoch queue
  end.
Definition next_outgoing : NM (option NetworkBinaryFrame) := fun s =>
  match skip_stale (ni_transport_epoch s) (ni_outgoing s) with
  | Some (frame, queue) =>
      (Ok (Some frame),
       mkNetworkInner queue (ni_proxy_connected s) (ni_transport_epoch s) (ni_streams s) (ni_channels s)
         (ni_cancelled s) (ni_tasks s) (ni_sent s ++ [(ni_transport_epoch s, frame)]))
  | None => (Ok None, set_outgoing s [])
  end.

Definition set_proxy_connected : NM unit := fun s => (Ok tt, set_transport s true (ni_transport_epoch s)).

(** [streams.remove] and the cancellation of the task. *)
Definition remove_stream (stream_id : string) : NM unit := fun s =>
  match ni_streams s !! stream_id with
  | Some channel => (Ok tt, set_streams s (delete stream_id (ni_streams s)) ({[channel]} ∪ ni_cancelled s))
  | None => (Ok tt, s)
  end.

(** [try_send]: the receiver lives as long as its channel is in the table of channels. *)
Definition try_send (channel : nat) (frame : NetworkBinaryFrame) (s : NetworkInner) : option NetworkInner :=
  match ni_channels s !! channel with
  | Some queue =>
      if (length queue <? STREAM_CHANNEL_CAPACITY)%nat
      then Some (set_channels s (<[channel := queue ++ [frame]]> (ni_channels s)))
      else None
  | None => None
  end.

(** The checks of [spawn_destination] and the insertion under its lock, with the number of a new
    channel; the task it spawns is recorded. *)
Definition spawn_destination (channel : nat) (frame : NetworkBinaryFrame) : NM unit := fun s =>
  if negb (ni_proxy_connected s) then (Err "service transport offline", s) else
  match request_ok (nf_payload frame) with
  | Err _ => (Err "invalid service connect request", s)
  | Ok _ =>
      let stream_id := nf_stream_id frame in
      if is_some (ni_streams s !! stream_id) || (MAX_STREAMS <=? size (ni_streams s))%nat
      then reject None stream_id "stream_unavailable" "Service stream already exists or limit reached" s
      else (Ok tt,
            mkNetworkInner (ni_outgoing s) (ni_proxy_connected s) (ni_transport_epoch s)
              (<[stream_id := channel]> (ni_streams s)) (<[channel := []]> (ni_channels s)) (ni_cancelled s)
              (ni_tasks s ++ [mkTask (ni_transport_epoch s) stream_id channel]) (ni_sent s))
  end.

Definition is_route (kind : NetworkBinaryKind) : bool :=
  bool_decide (kind = NOpenDatagram) || bool_decide (kind = NDirect) || bool_decide (kind = NUsage)
  || bool_decide (kind = NUsageAck).

Definition handle_incoming (channel : nat) (frame : NetworkBinaryFrame) : NM unit := fun s =>
  if bool_decide (nf_kind frame = NOpen) then spawn_destination channel frame s
  else if is_route (nf_kind frame)
  then reject None (nf_stream_id frame) "unsupported_transport"
         "Only explicit registered TCP service streams are supported" s
  else if bool_decide (nf_kind frame = NReset) then remove_stream (nf_stream_id frame) s
  else match ni_streams s !! nf_stream_id frame with
       | Some stream =>
           match try_send stream frame s with
           | Some s' => (Ok tt, s')
           | None =>
               (remove_stream (nf_stream_id frame) ;!
                reject None (nf_stream_id frame) "stream_backpressure" "Service stream stopped accepting frames") s
           end
       | None => reject None (nf_stream_id frame) "stream_not_found" "Service stream does not exist" s
       end.

(** [reset_all]: a new epoch, and every task is told to stop.  The counter wraps around. *)
Definition reset_all : NM unit := fun s =>
  (Ok tt,
   mkNetworkInner (ni_outgoing s) false ((ni_transport_epoch s + 1) mod 2 ^ 64) ∅ (ni_channels s)
     (list_to_set (map_to_list (ni_streams s)).*2 ∪ ni_cancelled s) (ni_tasks s) (ni_sent s)).

(** The end of a task's transfer that was not cancelled. *)
Definition finish_task (t : Task) (result : Result unit string) : NM unit := fun s =>
  if tk_epoch t =? ni_transport_epoch s then
    if bool_decide (ni_streams s !! tk_stream_id t = Some (tk_channel t)) then
      let s1 := set_streams s (delete (tk_stream_id t) (ni_streams s)) (ni_cancelled s) in
      let '(code, message) := match result with
                              | Ok _ => ("stream_closed", "Service stream completed")
                              | Err error => ("stream_failed", error)
                              end in
      (Ok tt, (reject (Some (tk_epoch t)) (tk_stream_id t) code message s1).2)
    else (Ok tt, s)
  else (Ok tt, s).

(** ** Steps *)

Inductive NetStep : Type :=
| Connected
| Incoming (channel : nat) (frame : NetworkBinaryFrame)
| TaskSends (t : Task) (frame : NetworkBinaryFrame)
| TaskTakes (channel : nat)
| TaskEnds (t : Task) (result : Result unit string)
| SocketTakes
| Disconnected.

Definition net_step (s : NetworkInner) (e : NetStep) : NetworkInner :=
  match e with
  | Connected => (set_proxy_connected s).2
  | Incoming channel frame =>
      if bool_decide (channel ∉ tk_channel <$> ni_tasks s) then (handle_incoming channel frame s).2 else s
  | TaskSends t frame =>
      if bool_decide (t ∈ ni_tasks s) then (send (Some (tk_epoch t)) frame s).2 else s
  | TaskTakes channel =>
      match ni_channels s !! channel with
      | Some (_ :: queue) => set_channels s (<[channel := queue]> (ni_channels s))
      | _ => s
      end
  | TaskEnds t result =>
      if bool_decide (t ∈ ni_tasks s) && negb (bool_decide (tk_channel t ∈ ni_cancelled s))
      then let s1 := set_channels s (delete (tk_channel t) (ni_channels s)) in (finish_task t result s1).2
      else s
  | SocketTakes => (next_outgoing s).2
  | Disconnected => (reset_all s).2
  end.

Definition net_run (steps : list NetStep) : NetworkInner := foldl net_step runtime_new steps.

(** ** The stream table *)

Record net_ok (s : NetworkInner) : Prop := {
  streams_bounded : (size (ni_streams s) <= MAX_STREAMS)%nat;
  streams_live : forall id channel, ni_streams s !! id = Some channel ->
    mkTask (ni_transport_epoch s) id channel ∈ ni_tasks s /\ channel ∉ ni_cancelled s;
  channels_unique : NoDup (tk_channel <$> ni_tasks s);
  cancelled_tasks : forall channel, channel ∈ ni_cancelled s -> channel ∈ tk_channel <$> ni_tasks s
}.

(** Two streams never share a channel. *)
Lemma channels_distinct s id1 id2 channel :
  net_ok s -> ni_streams s !! id1 = Some channel -> ni_streams s !! id2 = Some channel -> id1 = id2.
Proof.
  intros H H1 H2. destruct (streams_live s H _ _ H1) as [T1 _], (streams_live s H _ _ H2) as [T2 _].
  apply list_elem_of_lookup_1 in T1 as [i Hi], T2 as [j Hj]. pose proof (channels_unique s H) as Hn.
  assert (i = j) as -> by (eapply (NoDup_lookup _ i j channel Hn); by rewrite list_lookup_fmap, ?Hi, ?Hj).
  rewrite Hi in Hj. congruence.
Qed.

(** A change that leaves the table alone. *)
Lemma net_ok_same s s' :
  ni_streams s' = ni_streams s -> ni_transport_epoch s' = ni_transport_epoch s ->
  ni_cancelled s' = ni_cancelled s -> ni_tasks s' = ni_tasks s -> net_ok s -> net_ok s'.
Proof. intros E1 E2 E3 E4 [H1 H2 H3 H4]. split; rewrite ?E1, ?E2, ?E3, ?E4; auto. Qed.

Lemma send_ok epoch frame s : net_ok s -> net_ok (send epoch frame s).2.
Proof. intros H. unfold send. case_match; [|done]. by apply (net_ok_same s). Qed.

Lemma remove_ok s id channel cancelled :
  net_ok s -> ni_streams s !! id = Some channel -> (cancelled ⊆ {[channel]} ∪ ni_cancelled s) ->
  net_ok (set_streams s (delete id (ni_streams s)) cancelled).
Proof.
  intros H Hid Hc. split; simpl.
  - pose proof (streams_bounded s H). rewrite map_size_delete, Hid. lia.
  - intros id' channel' Hid'. apply lookup_delete_Some in Hid' as [Hne Hid'].
    destruct (streams_live s H _ _ Hid') as [Ht Hn]. split; [done|]. intros Hin%Hc.
    apply elem_of_union in Hin as [Hin|Hin]; [|done]. apply elem_of_singleton in Hin as ->.
    by destruct Hne, (channels_distinct s id id' channel).
  - apply H.
  - intros ch Hin%Hc. apply elem_of_union in Hin as [->%elem_of_singleton|Hin]; [|by apply H].
    destruct (streams_live s H _ _ Hid) as [Ht _]. by apply (list_elem_of_fmap_2 tk_channel) in Ht.
Qed.

Lemma remove_stream_ok id s : net_ok s -> net_ok (remove_stream id s).2.
Proof.
  intros H. unfold remove_stream. destruct (ni_streams s !! id) as [channel|] eqn:Hid; [|done].
  by apply (remove_ok s id channel).
Qed.

Lemma spawn_stream_ok channel frame s :
  net_ok s -> channel ∉ tk_channel <$> ni_tasks s -> net_ok (spawn_destination channel frame s).2.
Proof.
  intros H Hnew. unfold spawn_destination. case_match; [done|]. case_match; [|done].
  destruct (is_some _ || _) eqn:Hg; [by apply send_ok|]. apply orb_false_iff in Hg as [Hid Hsize].
  apply Nat.leb_gt in Hsize. destruct (ni_streams s !! nf_stream_id frame) eqn:Hf; [done|]. split; simpl.
  - rewrite map_size_insert, Hf. lia.
  - intros id ch Hch. apply lookup_insert_Some in Hch as [[<- <-]|[Hne Hch]].
    + split; [apply elem_of_app; right; by left|]. by intros Hin%(cancelled_tasks s H).
    + destruct (streams_live s H _ _ Hch). split; [apply elem_of_app; by left|done].
  - rewrite fmap_app. apply NoDup_app. split_and!; [apply H| |apply NoDup_singleton].
    by intros x Hx ->%list_elem_of_singleton.
  - intros ch Hch%(cancelled_tasks s H). rewrite fmap_app. apply elem_of_app. by left.
Qed.

Lemma incoming_ok channel frame s :
  net_ok s -> channel ∉ tk_channel <$> ni_tasks s -> net_ok (handle_incoming channel frame s).2.
Proof.
  intros H Hnew. unfold handle_incoming. case_bool_decide; [by apply spawn_stream_ok|]. case_match; [by apply send_ok|].
  case_bool_decide; [by apply remove_stream_ok|].
  destruct (ni_streams s !! nf_stream_id frame) as [stream|]; [|by apply send_ok].
  destruct (try_send stream frame s) as [s'|] eqn:Ht.
  - unfold try_send in Ht. repeat case_match; simplify_eq. by apply (net_ok_same s).
  - unfold st_bind. pose proof (remove_stream_ok (nf_stream_id frame) s H) as Hr.
    destruct (remove_stream _ s) as [[] s1]; [by apply send_ok|done].
Qed.

Lemma finish_ok t result s : net_ok s -> net_ok (finish_task t result s).2.
Proof.
  intros H. unfold finish_task. case_match; [|done]. case_bool_decide as Hid; [|done].
  destruct result; simpl; apply send_ok; apply (remove_ok s _ (tk_channel t)); set_solver.
Qed.

Lemma net_step_ok s e : net_ok s -> net_ok (net_step s e).
Proof.
  intros H. destruct e; simpl.
  - by apply (net_ok_same s).
  - case_bool_decide; [by apply incoming_ok|done].
  - case_bool_decide; [by apply send_ok|done].
  - repeat case_match; try done. by apply (net_ok_same s).
  - case_match; [|done]. apply finish_ok. by apply (net_ok_same s).
  - unfold next_outgoing. case_match; [destruct p|]; by apply (net_ok_same s).
  - split; simpl; [rewrite map_size_empty; apply Nat.le_0_l|by intros id ch ?%lookup_empty_Some|apply H|].
    intros ch Hin. apply elem_of_union in Hin as [Hin|Hin]; [|by apply H].
    apply elem_of_list_to_set, list_elem_of_fmap in Hin as ([id ch'] & -> & Hin).
    apply elem_of_map_to_list in Hin. destruct (streams_live s H _ _ Hin) as [Ht _].
    by apply (list_elem_of_fmap_2 tk_channel) in Ht.
Qed.

Lemma net_run_ok steps : net_ok (net_run steps).
Proof.
  unfold net_run. assert (net_ok runtime_new) as H.
  { split; cbn; [apply Nat.le_0_l|done|constructor|set_solver]. }
  revert H. generalize runtime_new. induction steps as [|e steps IH]; intros s Hs; [done|].
  simpl. by apply IH, net_step_ok.
Qed.

(** The Controller's stream table is consistent in every interleaving of socket frames, tasks
    that end, lost connections and reconnections: there are at most 4096 streams, every registered
    stream has its own channel and a task of the current connection that was not told to stop, and
    the end of a task, also of one left from an earlier connection, removes no stream but its own. *)
Theorem streams_belong_to_live_tasks steps t result id channel :
  let s := net_run steps in
  ni_streams s !! id = Some channel ->
  (size (ni_streams s) <= MAX_STREAMS)%nat
  /\ mkTask (ni_transport_epoch s) id channel ∈ ni_tasks s /\ channel ∉ ni_cancelled s
  /\ (forall id', ni_streams s !! id' = Some channel -> id' = id)
  /\ (ni_streams (net_step s (TaskEnds t result)) !! id = Some channel
      \/ t = mkTask (ni_transport_epoch s) id channel).
Proof.
  intros s Hid. pose proof (net_run_ok steps) as H. fold s in H.
  destruct (streams_live s H _ _ Hid) as [Ht Hn]. split_and!; [apply H|done|done| |].
  - intros id' Hid'. by eapply channels_distinct.
  - simpl. destruct (_ && _); [|by left]. unfold finish_task. simpl. destruct (_ =? _) eqn:He; [|by left].
    case_bool_decide as Hown; [|by left]. apply Z.eqb_eq in He. destruct t as [epoch stream ch]. simpl in *. subst epoch.
    destruct (decide (stream = id)) as [->|Hne]; [right; rewrite Hid in Hown; by simplify_eq|left].
    destruct result; simpl; unfold reject, send; cbn; destruct (_ && _); cbn; by rewrite lookup_delete_ne.
Qed.

End Runtime.

#[export] Instance sample_network : NetworkCodec := {
  request_ok _ := Ok tt;
  error_payload _ _ := []
}.

(** A stream of an earlier connection ends after the same stream was opened on the next one. *)
Definition reopened : list NetStep :=
  [Connected; Incoming 0 (mkNetworkBinaryFrame NOpen "s" []); Disconnected;
   Connected; Incoming 1 (mkNetworkBinaryFrame NOpen "s" [])].

Lemma streams_belong_to_live_tasks_witness :
  ni_streams (net_step (net_run reopened) (TaskEnds (mkTask 0 "s" 0) (Ok tt))) !! "s" = Some 1%nat
  \/ mkTask 0 "s" 0 = mkTask 1 "s" 1.
Proof.
  destruct (streams_belong_to_live_tasks reopened (mkTask 0 "s" 0) (Ok tt) "s" 1) as (_ & _ & _ & _ & H).
  - vm_compute. reflexivity.
  - exact H.
Defined.
