(* ===== verification/ProxyNetwork.v ===== *)
(** * Client streams through the Proxy (crates/treer-proxy/src/state/network.rs)

    Opening a stream to a machine, relaying the frames of its Controller to the client's bridge or
    to the Proxy the client is connected to, and closing it.  The bridge itself is
    [StreamBridge.proxy_on_read] and [StreamBridge.proxy_on_frame].  What the bridge's channel
    holds is [wd_stream_frames]. *)

From stdpp Require Import gmap pretty.
From S2P Require Import Prelude RustStr Protocol HostProtocol Activity BinaryFrames ProxyTypes ProxyState ClusterKeys.
From S2P Require Import StreamBridge.
Local Open Scope Z_scope.

Record NetworkConnectRequest : Type := mkNetworkConnectRequest {
  nc_source_server_id : string;
  nc_source_agent_id : option string;
  nc_destination_agent_id : option string;
  nc_host : string;
  nc_port : Z
}.

(** [serde_json::to_vec] of a request. *)
Class RequestCodec : Type := request_bytes : NetworkConnectRequest -> Result bytes string.

Section Network.
Context {C : Base64} {Codec : ErrorCodec} {Requests : RequestCodec} {Reader : ErrorReader}.

Definition stream_key (workspace_id server_id stream_id : string) : NetworkStreamKey :=
  (workspace_id, server_id, stream_id).

Definition atom_open_stream (key : NetworkStreamKey) (channel : Channel) : PM unit :=
  modify (fun i => set_in_streams i (<[key := channel]> (in_streams i))).
Definition atom_close_stream (key : NetworkStreamKey) : PM unit :=
  modify (fun i => set_in_streams i (delete key (in_streams i))).
(** [browser.send(frame)]: whether the receiver still exists. *)
Definition atom_offer_stream (channel : Channel) (frame : NetworkBinaryFrame) : PM bool := fun s =>
  (Ok (negb (bool_decide (channel ∈ wd_closed (px_world s)))), (atom_send_stream channel frame s).2).

Definition send_browser_network_frame (B : Backplane) (key : NetworkStreamKey) (kind : NetworkBinaryKind)
    (payload : bytes) : PM unit :=
  let! encoded := st_lift (network_encode (mkNetworkBinaryFrame kind key.2 payload)) in
  send_server_frame B key.1.1 key.1.2 (FBinary encoded).

Definition reset_browser_network_stream (B : Backplane) (key : NetworkStreamKey) (error : ProtocolError) : PM unit :=
  atom_close_stream key ;!
  ignore (send_browser_network_frame B key NReset (error_bytes error)).

(** The first part of [open_client_network_stream_cancellable]: up to the request. *)
Definition request_stream (B : Backplane) (workspace_id server_id : string) (request : NetworkConnectRequest)
    (channel : Channel) (unique : string) : PM NetworkStreamKey :=
  let key := stream_key workspace_id server_id (routed_id (bp_instance_id B) "browser" unique) in
  atom_open_stream key channel ;!
  let! payload := st_lift (map_err (fun error =>
                    protocol_error "encode_error" ("failed to encode network request: " +:+ error))
                    (request_bytes request)) in
  let! encoded := st_lift (network_encode (mkNetworkBinaryFrame NOpen key.2 payload)) in
  fun s =>
    match send_server_frame B workspace_id server_id (FBinary encoded) s with
    | (Ok _, s1) => (Ok key, s1)
    | (Err _, s1) => (atom_close_stream key ;! st_throw (server_offline server_id)) s1
    end.

(** What the wait for the first frame ends with. *)
Inductive Opening : Type :=
| FirstFrame (frame : NetworkBinaryFrame)
| ChannelClosed
| OpenTimeout.

(** The second part: the answer of the machine. *)
Definition await_opened (B : Backplane) (key : NetworkStreamKey) (opened : Opening) : PM unit :=
  match opened with
  | FirstFrame frame =>
      match nf_kind frame with
      | NOpened => st_ret tt
      | NReset => atom_close_stream key ;! st_throw (decode_network_reset (nf_payload frame))
      | kind => atom_close_stream key ;!
                st_throw (network_error ("expected opened frame, received " +:+ pretty (network_kind_byte kind)))
      end
  | ChannelClosed =>
      atom_close_stream key ;!
      st_throw (protocol_error "network_stream_closed" "network stream closed before it opened")
  | OpenTimeout =>
      reset_browser_network_stream B key (protocol_error "network_open_timeout" "network connection timed out") ;!
      st_throw (protocol_error "network_open_timeout" "network connection timed out")
  end.

(** The end of the bridge's task. *)
Definition bridge_ended (B : Backplane) (key : NetworkStreamKey) (result : Result unit ProtocolError) : PM unit :=
  match result with
  | Err error => reset_browser_network_stream B key error
  | Ok _ => atom_close_stream key
  end.

Definition is_route_kind (kind : NetworkBinaryKind) : bool :=
  bool_decide (kind = NOpen) || bool_decide (kind = NOpenDatagram) || bool_decide (kind = NDirect)
  || bool_decide (kind = NUsage) || bool_decide (kind = NUsageAck).

Definition stream_not_found (stream_id : string) : ProtocolError :=
  protocol_error "network_stream_not_found" stream_id.

(** [reply] is what [ClusterBus::deliver_network] answers. *)
Definition relay_network_frame_inner (B : Backplane) (reply : Result unit ProtocolError)
    (workspace_id server_id : string) (frame : NetworkBinaryFrame) : PM unit :=
  if is_route_kind (nf_kind frame)
  then st_throw (network_error "route frame cannot be relayed as an existing stream") else
  let key := stream_key workspace_id server_id (nf_stream_id frame) in
  let! browser := gets (fun i => in_streams i !! key) in
  match browser with
  | Some channel =>
      let! alive := atom_offer_stream channel frame in
      if (alive : bool) then st_ret tt
      else atom_close_stream key ;!
           st_throw (protocol_error "network_stream_closed" "browser network stream closed")
  | None =>
      match route_target (nf_stream_id frame) with
      | None => st_throw (stream_not_found (nf_stream_id frame))
      | Some target =>
          if target =s bp_instance_id B then st_throw (stream_not_found (nf_stream_id frame)) else
          let! encoded := st_lift (network_encode frame) in
          atom_call (CallNetwork target (workspace_id, server_id) encoded) ;!
          st_lift reply
      end
  end.

Definition relay_network_frame (B : Backplane) (reply : Result unit ProtocolError) (workspace_id server_id : string)
    (connection_id : Uuid) (frame : NetworkBinaryFrame) : PM unit :=
  require_current_connection workspace_id server_id connection_id ;!
  relay_network_frame_inner B reply workspace_id server_id frame.

Definition handle_cluster_network_delivery (B : Backplane) (reply : Result unit ProtocolError)
    (workspace_id server_id : string) (encoded : bytes) : PM unit :=
  let! frame := st_lift (network_decode encoded) in
  relay_network_frame_inner B reply workspace_id server_id frame.

(** ** One hop *)

Context {Laws : Base64Laws}.

(** The frame a Proxy put on a stream or handed to another Proxy. *)
Definition offered (s : Proxy) : list (Channel * NetworkBinaryFrame) := wd_stream_frames (px_world s).
Definition forwarded (s : Proxy) : list (string * ServerKey * bytes) :=
  omap (fun c => match c with CallNetwork target key encoded => Some (target, key, encoded) | _ => None end)
    (wd_calls (px_world s)).

Lemma forwarded_call c s :
  forwarded (atom_call c s).2
  = forwarded s ++ match c with CallNetwork target key encoded => [(target, key, encoded)] | _ => [] end.
Proof. unfold forwarded. simpl. rewrite omap_app. by destruct c. Qed.

Lemma forwarded_offer channel frame s : forwarded (atom_offer_stream channel frame s).2 = forwarded s.
Proof. unfold forwarded, atom_offer_stream, atom_send_stream, effect. simpl. by case_bool_decide. Qed.

(** On the Proxy that opened the stream a frame is never handed on. *)
Lemma home_keeps_frames home reply ws id frame unique s :
  nf_stream_id frame = routed_id (bp_instance_id home) "browser" unique ->
  valid_utf8 (bp_instance_id home) = true -> contains_char "." unique = false ->
  forwarded (relay_network_frame_inner home reply ws id frame s).2 = forwarded s.
Proof.
  intros Hid Hv Hu. unfold relay_network_frame_inner. case_match; [done|]. cbv zeta.
  unfold st_bind at 1. simpl. destruct (_ !! _) as [channel|].
  - unfold st_bind at 1. pose proof (forwarded_offer channel frame s) as Hf.
    destruct (atom_offer_stream channel frame s) as [[b|e] s1]; simpl in Hf; [|exact Hf].
    destruct b; [exact Hf|]. unfold forwarded in *. simpl. exact Hf.
  - rewrite Hid, route_target_routed_id by done. by rewrite String.eqb_refl.
Qed.

(** A frame of a Controller takes at most one hop between Proxies.  On the Proxy that opened
    the stream it is never handed on.  On any other, where the stream is not registered, it is
    handed to the Proxy that opened the stream and to nobody else, in a form which that Proxy
    decodes to the same frame and offers to the client's bridge. *)
Theorem network_frames_take_one_hop home other reply reply' ws id frame encoded unique s s' channel :
  nf_stream_id frame = routed_id (bp_instance_id home) "browser" unique ->
  valid_utf8 (bp_instance_id home) = true -> contains_char "." unique = false ->
  network_frame_ok frame -> network_encode frame = Ok encoded -> is_route_kind (nf_kind frame) = false ->
  bp_instance_id home <> bp_instance_id other ->
  in_streams (px_inner s) !! stream_key ws id (nf_stream_id frame) = None ->
  in_streams (px_inner s') !! stream_key ws id (nf_stream_id frame) = Some channel ->
  channel ∉ wd_closed (px_world s') ->
  let there := relay_network_frame_inner other reply ws id frame s in
  let here := handle_cluster_network_delivery home reply' ws id encoded s' in
  forwarded there.2 = forwarded s ++ [(bp_instance_id home, (ws, id), encoded)] /\ offered there.2 = offered s
  /\ here.1 = Ok tt /\ offered here.2 = offered s' ++ [(channel, frame)]
  /\ (forall t, forwarded (relay_network_frame_inner home reply' ws id frame t).2 = forwarded t).
Proof.
  intros Hid Hv Hu Hok Henc Hkind Hne Hs Hs' Hopen. cbv zeta.
  pose proof (network_decode_encoded _ _ Hok Henc) as Hdec. split_and!.
  - unfold relay_network_frame_inner. rewrite Hkind. cbv zeta. unfold st_bind at 1. simpl. rewrite Hs.
    rewrite Hid, route_target_routed_id by done. rewrite (proj2 (String.eqb_neq _ _) Hne).
    unfold st_bind. simpl. rewrite Henc. simpl. apply (forwarded_call (CallNetwork _ _ _)).
  - unfold relay_network_frame_inner. rewrite Hkind. cbv zeta. unfold st_bind at 1. simpl. rewrite Hs.
    rewrite Hid, route_target_routed_id by done. rewrite (proj2 (String.eqb_neq _ _) Hne).
    unfold st_bind. simpl. by rewrite Henc.
  - unfold handle_cluster_network_delivery, st_bind at 1. simpl. rewrite Hdec.
    unfold relay_network_frame_inner. rewrite Hkind. cbv zeta. unfold st_bind. simpl. rewrite Hs'.
    unfold atom_offer_stream. by rewrite bool_decide_eq_false_2.
  - unfold handle_cluster_network_delivery, st_bind at 1. simpl. rewrite Hdec.
    unfold relay_network_frame_inner. rewrite Hkind. cbv zeta. unfold st_bind. simpl. rewrite Hs'.
    unfold atom_offer_stream, atom_send_stream, effect, offered. simpl. by rewrite bool_decide_eq_false_2.
  - intros t. by eapply home_keeps_frames.
Qed.

End Network.

(** ** Two Proxies and one stream *)

Definition home_plane : Backplane := standalone "p1".
Definition other_plane : Backplane := standalone "p2".
#[export] Instance plain_errors : ErrorCodec := fun _ => [].
Definition sample_data : NetworkBinaryFrame := mkNetworkBinaryFrame NData (routed_id "p1" "browser" "u") [1; 2; 3].
Definition with_stream : Proxy := (atom_open_stream (stream_key "ws" "m1" (nf_stream_id sample_data)) "bridge" proxy_new).2.

Lemma network_frames_take_one_hop_witness :
  exists encoded, network_encode sample_data = Ok encoded
  /\ offered (handle_cluster_network_delivery home_plane (Ok tt) "ws" "m1" encoded with_stream).2
     = [("bridge", sample_data)].
Proof.
  eexists. split; [vm_compute; reflexivity|].
  eapply (network_frames_take_one_hop home_plane other_plane (Ok tt) (Ok tt) "ws" "m1" sample_data _ "u"
            proxy_new with_stream "bridge"); try (vm_compute; reflexivity).
  - split; [vm_compute; reflexivity|].
    repeat (apply Forall_cons; split; [unfold byte_ok; lia|]). apply Forall_nil. exact I.
  - vm_compute. congruence.
  - vm_compute. intros H. discriminate H.
Defined.
