(* ===== verification/ClusterLease.v ===== *)
(** * Ownership leases between Proxies (crates/treer-proxy/src/cluster.rs)

    A Controller is connected to one Proxy, and a lease in a shared key-value bucket says to which.
    [claim], [renew], [publish_snapshot], [release] and [owner] are programs over the buckets; every
    request to the store is one step of them, so programs of several Proxies interleave between any
    two requests, a reply can be lost after the write took effect, and a lease can expire at any
    time.

    The store (JetStream's key-value API) is the class [KeyValue]: the operations the code calls
    and, in [KeyValueLaws], what their documentation promises.  MessagePack is the class [Wire]. *)

From stdpp Require Import gmap.
From S2P Require Import Prelude RustStr Protocol HostProtocol Activity BinaryFrames ProxyTypes ClusterKeys.
Local Open Scope Z_scope.

(** ** The store and the encodings *)

Inductive Operation : Type := OpPut | OpDelete | OpPurge.
#[export] Instance Operation_eq_dec : EqDecision Operation.
Proof. solve_decision. Defined.

Record Entry : Type := mkEntry { en_operation : Operation; en_value : bytes; en_revision : Z }.

Inductive WriteError : Type :=
| Conflict
| OtherError (text : string).

(** [put] and the like answer the revision of the new entry; [update] needs the last revision of
    the key, [create] a key without a value, [delete_expect_revision] again the last revision. *)
Class KeyValue (Store : Type) : Type := {
  kv_entry : string -> Store -> option Entry;
  kv_put : string -> bytes -> Store -> Z * Store;
  kv_update : string -> bytes -> Z -> Store -> option (Z * Store);
  kv_create : string -> bytes -> Store -> option (Z * Store);
  kv_delete : string -> Z -> Store -> option (Z * Store);
  kv_expire : string -> Store -> Store;
  kv_last : Store -> Z
}.

Definition is_put (e : Entry) : bool := bool_decide (en_operation e = OpPut).

(** One entry is written, with a revision that was never used before. *)
Definition written `{KeyValue Store} (key : string) (op : Operation) (value : bytes) (s : Store)
    (rs : Z * Store) : Prop :=
  kv_entry key rs.2 = Some (mkEntry op value rs.1)
  /\ (forall key', key' <> key -> kv_entry key' rs.2 = kv_entry key' s)
  /\ kv_last s < rs.1 /\ kv_last rs.2 = rs.1.

Class KeyValueLaws (Store : Type) `{KeyValue Store} : Prop := {
  entry_bound key s e : kv_entry key s = Some e -> 0 < en_revision e <= kv_last s;
  put_written key value s : written key OpPut value s (kv_put key value s);
  update_written key value revision s rs :
    kv_update key value revision s = Some rs ->
    en_revision <$> kv_entry key s = Some revision /\ written key OpPut value s rs;
  update_current key value s e :
    kv_entry key s = Some e -> is_Some (kv_update key value (en_revision e) s);
  create_written key value s rs :
    kv_create key value s = Some rs ->
    is_some_and (kv_entry key s) is_put = false /\ written key OpPut value s rs;
  create_free key value s :
    is_some_and (kv_entry key s) is_put = false -> is_Some (kv_create key value s);
  delete_written key revision s rs :
    kv_delete key revision s = Some rs ->
    en_revision <$> kv_entry key s = Some revision /\ written key OpDelete [] s rs;
  delete_current key s e :
    kv_entry key s = Some e -> is_Some (kv_delete key (en_revision e) s);
  expire_entry key s : kv_entry key (kv_expire key s) = None;
  expire_other key key' s : key' <> key -> kv_entry key' (kv_expire key s) = kv_entry key' s;
  expire_last key s : kv_last s <= kv_last (kv_expire key s)
}.

Class Wire : Type := {
  encode_owner : ConnectionOwner -> Result bytes string;
  decode_owner : bytes -> Result ConnectionOwner string;
  encode_snapshot : ClusterServerSnapshot -> Result bytes string;
  decode_snapshot : bytes -> Result ClusterServerSnapshot string;
  encode_projection : ClusterProjectionUpdate -> Result bytes string;
  decode_projection : bytes -> Result ClusterProjectionUpdate string
}.

(** What is encoded is decoded again; the empty value of a delete marker is no owner. *)
Class WireLaws {W : Wire} : Prop := {
  owner_roundtrip o b : encode_owner o = Ok b -> decode_owner b = Ok o;
  empty_is_no_owner : is_ok (decode_owner []) = false
}.

Definition encode_protocol {A} (r : Result A string) : Result A ProtocolError :=
  map_err (protocol_error "cluster_encode_error") r.
Definition decode_protocol {A} (r : Result A string) : Result A ProtocolError :=
  map_err (protocol_error "cluster_decode_error") r.
Definition cluster_error (text : string) : ProtocolError := protocol_error "cluster_error" text.

(** ** Programs over the buckets *)

Inductive Bucket : Type := Leases | Snapshots | Projections.
#[export] Instance Bucket_eq_dec : EqDecision Bucket.
Proof. solve_decision. Defined.

Inductive Prog (A : Type) : Type :=
| Done (a : A)
| GetEntry (b : Bucket) (key : string) (k : Result (option Entry) string -> Prog A)
| PutKey (b : Bucket) (key : string) (value : bytes) (k : Result Z string -> Prog A)
| UpdateKey (b : Bucket) (key : string) (value : bytes) (revision : Z) (k : Result Z WriteError -> Prog A)
| CreateKey (b : Bucket) (key : string) (value : bytes) (k : Result Z WriteError -> Prog A)
| DeleteKey (b : Bucket) (key : string) (revision : Z) (k : Result unit WriteError -> Prog A).
Arguments Done {A} a.
Arguments GetEntry {A} b key k.
Arguments PutKey {A} b key value k.
Arguments UpdateKey {A} b key value revision k.
Arguments CreateKey {A} b key value k.
Arguments DeleteKey {A} b key revision k.

Fixpoint prog_bind {A B} (p : Prog A) (f : A -> Prog B) : Prog B :=
  match p with
  | Done a => f a
  | GetEntry b key k => GetEntry b key (fun r => prog_bind (k r) f)
  | PutKey b key value k => PutKey b key value (fun r => prog_bind (k r) f)
  | UpdateKey b key value revision k => UpdateKey b key value revision (fun r => prog_bind (k r) f)
  | CreateKey b key value k => CreateKey b key value (fun r => prog_bind (k r) f)
  | DeleteKey b key revision k => DeleteKey b key revision (fun r => prog_bind (k r) f)
  end.

Definition ProgR (A : Type) : Type := Prog (Result A ProtocolError).
(** The [?] operator on a program. *)
Definition prog_try {A B} (p : ProgR A) (f : A -> ProgR B) : ProgR B :=
  prog_bind p (fun r => match r with Ok a => f a | Err e => Done (Err e) end).
Notation "'let*' x := e 'in' k" := (prog_try e (fun x => k))
  (at level 10, x binder, e at level 100, k at level 200) : rust_scope.

Definition get_entry (b : Bucket) (key : string) : ProgR (option Entry) :=
  GetEntry b key (fun r => Done (map_err cluster_error r)).
Definition put_key (b : Bucket) (key : string) (value : bytes) : ProgR Z :=
  PutKey b key value (fun r => Done (map_err cluster_error r)).

(** ** The operations of [ClusterBus] *)

Record ClusterBus : Type := mkClusterBus { cb_instance_id : string; cb_distributed : bool }.

Section Operations.
Context {C : Base64} {W : Wire} (self : ClusterBus).

Definition owner_of_connection (connection_id : Uuid) : ConnectionOwner :=
  mkConnectionOwner (cb_instance_id self) connection_id.

(** [ClusterBus::broadcast_projection] *)
Definition cluster_projection (update : ClusterProjectionUpdate) : ProgR unit :=
  if negb (cb_distributed self) then Done (Ok tt) else
  let* payload := Done (encode_protocol (encode_projection update)) in
  let* _ := put_key Projections (projection_key update) payload in
  Done (Ok tt).

Definition release (workspace_id server_id : string) (connection_id : Uuid) : Prog unit :=
  if negb (cb_distributed self) then Done tt else
  let key := server_key workspace_id server_id in
  GetEntry Leases key (fun r =>
    match r with
    | Ok (Some entry) =>
        match decode_owner (en_value entry) with
        | Ok record =>
            if negb (co_proxy_id record =s cb_instance_id self)
               || negb (co_connection_id record =s connection_id)
            then Done tt else
            DeleteKey Leases key (en_revision entry) (fun r =>
              match r with
              | Err _ => Done tt
              | Ok _ =>
                  GetEntry Snapshots key (fun r =>
                    match r with
                    | Ok (Some snapshot_entry) =>
                        match decode_snapshot (en_value snapshot_entry) with
                        | Ok snapshot =>
                            if bool_decide (cs_owner snapshot <> record) then Done tt else
                            DeleteKey Snapshots key (en_revision snapshot_entry) (fun _ => Done tt)
                        | Err _ => Done tt
                        end
                    | _ => Done tt
                    end)
              end)
        | Err _ => Done tt
        end
    | _ => Done tt
    end).

(** A failed announcement gives the lease back. *)
Definition announce_or_release (workspace_id server_id : string) (connection_id : Uuid)
    (update : ClusterProjectionUpdate) : ProgR unit :=
  prog_bind (cluster_projection update) (fun r =>
    match r with
    | Ok _ => Done (Ok tt)
    | Err error => prog_bind (release workspace_id server_id connection_id) (fun _ => Done (Err error))
    end).

Fixpoint announce_agents (workspace_id server_id : string) (connection_id : Uuid)
    (agents : list AgentInfo) : ProgR unit :=
  match agents with
  | [] => Done (Ok tt)
  | agent :: agents =>
      let* _ := announce_or_release workspace_id server_id connection_id
                  (AgentRenamed workspace_id (ag_agent_id agent) (ag_name agent)) in
      announce_agents workspace_id server_id connection_id agents
  end.

Definition claim (workspace_id server_id : string) (connection_id : Uuid)
    (snapshot : AgentServerSnapshot) : ProgR unit :=
  if negb (cb_distributed self) then Done (Ok tt) else
  let key := server_key workspace_id server_id in
  let owner := owner_of_connection connection_id in
  let* encoded := Done (encode_protocol (encode_owner owner)) in
  let* _ := put_key Leases key encoded in
  let* _ := announce_or_release workspace_id server_id connection_id
              (ServerRenamed workspace_id server_id (si_name (as_server snapshot))) in
  let* _ := announce_agents workspace_id server_id connection_id (as_agents snapshot) in
  let* payload := Done (encode_protocol (encode_snapshot (mkClusterServerSnapshot owner 0 snapshot))) in
  let* _ := put_key Snapshots key payload in
  Done (Ok tt).

Fixpoint renew_loop (key server_id : string) (owner : ConnectionOwner) (encoded : bytes) (attempts : nat)
  : ProgR bool :=
  match attempts with
  | O => Done (Err (protocol_error "cluster_unavailable"
                      ("ownership lease for " +:+ server_id +:+ " kept changing; retry renewal")))
  | S attempts =>
      let* entry := get_entry Leases key in
      match opt_filter is_put entry with
      | Some entry =>
          let* current := Done (decode_protocol (decode_owner (en_value entry))) in
          if bool_decide (current <> owner) then Done (Ok false) else
          UpdateKey Leases key encoded (en_revision entry) (fun r =>
            match r with
            | Ok _ => Done (Ok true)
            | Err Conflict => renew_loop key server_id owner encoded attempts
            | Err (OtherError text) => Done (Err (cluster_error text))
            end)
      | None =>
          CreateKey Leases key encoded (fun r =>
            match r with
            | Ok _ => Done (Ok true)
            | Err Conflict => renew_loop key server_id owner encoded attempts
            | Err (OtherError text) => Done (Err (cluster_error text))
            end)
      end
  end.

Definition renew (workspace_id server_id : string) (connection_id : Uuid) : ProgR bool :=
  if negb (cb_distributed self) then Done (Ok true) else
  let key := server_key workspace_id server_id in
  let owner := owner_of_connection connection_id in
  let* encoded := Done (encode_protocol (encode_owner owner)) in
  renew_loop key server_id owner encoded 3.

Definition publish_snapshot (workspace_id server_id : string) (connection_id : Uuid)
    (snapshot : AgentServerSnapshot) : ProgR unit :=
  if negb (cb_distributed self) then Done (Ok tt) else
  let key := server_key workspace_id server_id in
  let* entry := get_entry Leases key in
  let* entry := Done (ok_or entry (protocol_error "server_offline" ("server " +:+ server_id +:+ " has no owner"))) in
  let* current := Done (decode_protocol (decode_owner (en_value entry))) in
  if negb (co_proxy_id current =s cb_instance_id self) || negb (co_connection_id current =s connection_id)
  then Done (Err (protocol_error "stale_connection"
                    ("connection for " +:+ server_id +:+ " is no longer current"))) else
  let* payload := Done (encode_protocol (encode_snapshot (mkClusterServerSnapshot current 0 snapshot))) in
  let* _ := put_key Snapshots key payload in
  Done (Ok tt).

(** [Store::get] of a key answers its value unless it was deleted. *)
Definition owner (workspace_id server_id : string) : ProgR (option ConnectionOwner) :=
  if negb (cb_distributed self) then Done (Ok None) else
  let* record := get_entry Leases (server_key workspace_id server_id) in
  match opt_filter is_put record with
  | None => Done (Ok None)
  | Some entry =>
      let* owner := Done (decode_protocol (decode_owner (en_value entry))) in Done (Ok (Some owner))
  end.

End Operations.

(** ** Interleaving *)

(** What can happen to a request: it is answered, it fails without an effect, or its effect takes
    place and the reply is lost. *)
Inductive Fault : Type := Fine | Refused (text : string) | Lost (text : string).

(** What the Proxies do to the cluster, one call of [ClusterBus] each. *)
Inductive Job : Type :=
| JobClaim (self : ClusterBus) (workspace_id server_id : string) (connection_id : Uuid)
    (snapshot : AgentServerSnapshot)
| JobRenew (self : ClusterBus) (workspace_id server_id : string) (connection_id : Uuid)
| JobPublish (self : ClusterBus) (workspace_id server_id : string) (connection_id : Uuid)
    (snapshot : AgentServerSnapshot)
| JobRelease (self : ClusterBus) (workspace_id server_id : string) (connection_id : Uuid)
| JobOwner (self : ClusterBus) (workspace_id server_id : string)
| JobProject (self : ClusterBus) (update : ClusterProjectionUpdate).

Inductive Outcome : Type :=
| Released
| Finished (r : Result unit ProtocolError)
| Renewed (r : Result bool ProtocolError)
| Owned (r : Result (option ConnectionOwner) ProtocolError).

Inductive Event : Type :=
| Launch (j : Job)
| Run (n : nat) (f : Fault)
| Expire (b : Bucket) (key : string).

Section System.
Context {C : Base64} {W : Wire} {Store : Type} {KV : KeyValue Store}.

Record Buckets : Type := mkBuckets { bk_leases : Store; bk_snapshots : Store; bk_projections : Store }.

Definition bucket (b : Bucket) (s : Buckets) : Store :=
  match b with Leases => bk_leases s | Snapshots => bk_snapshots s | Projections => bk_projections s end.
Definition set_bucket (b : Bucket) (st : Store) (s : Buckets) : Buckets :=
  match b with
  | Leases => mkBuckets st (bk_snapshots s) (bk_projections s)
  | Snapshots => mkBuckets (bk_leases s) st (bk_projections s)
  | Projections => mkBuckets (bk_leases s) (bk_snapshots s) st
  end.

(** The reply to a conditional write and its effect. *)
Definition attempt (f : Fault) (b : Bucket) (w : option (Z * Store)) (s : Buckets)
  : Result Z WriteError * Buckets :=
  match f, w with
  | Fine, Some (revision, st) => (Ok revision, set_bucket b st s)
  | Fine, None => (Err Conflict, s)
  | Lost text, Some (_, st) => (Err (OtherError text), set_bucket b st s)
  | Lost text, None | Refused text, _ => (Err (OtherError text), s)
  end.

Definition other_text (e : WriteError) : string :=
  match e with Conflict => EmptyString | OtherError text => text end.
Definition forget_revision (r : Result Z WriteError) : Result unit WriteError :=
  match r with Ok _ => Ok tt | Err e => Err e end.

(** One request of a program. *)
Definition exec {A} (f : Fault) (p : Prog A) (s : Buckets) : Prog A * Buckets :=
  match p with
  | Done a => (Done a, s)
  | GetEntry b key k =>
      (k (match f with Fine => Ok (kv_entry key (bucket b s)) | Refused t | Lost t => Err t end), s)
  | PutKey b key value k =>
      let '(r, s') := attempt f b (Some (kv_put key value (bucket b s))) s in (k (map_err other_text r), s')
  | UpdateKey b key value revision k =>
      let '(r, s') := attempt f b (kv_update key value revision (bucket b s)) s in (k r, s')
  | CreateKey b key value k =>
      let '(r, s') := attempt f b (kv_create key value (bucket b s)) s in (k r, s')
  | DeleteKey b key revision k =>
      let '(r, s') := attempt f b (kv_delete key revision (bucket b s)) s in (k (forget_revision r), s')
  end.

(** A program that nothing disturbs. *)
Fixpoint run_alone {A} (p : Prog A) (s : Buckets) : A * Buckets :=
  match p with
  | Done a => (a, s)
  | GetEntry b key k => run_alone (k (Ok (kv_entry key (bucket b s)))) s
  | PutKey b key value k =>
      let '(revision, st) := kv_put key value (bucket b s) in
      run_alone (k (Ok revision)) (set_bucket b st s)
  | UpdateKey b key value revision k =>
      let '(r, s') := attempt Fine b (kv_update key value revision (bucket b s)) s in run_alone (k r) s'
  | CreateKey b key value k =>
      let '(r, s') := attempt Fine b (kv_create key value (bucket b s)) s in run_alone (k r) s'
  | DeleteKey b key revision k =>
      let '(r, s') := attempt Fine b (kv_delete key revision (bucket b s)) s in
      run_alone (k (forget_revision r)) s'
  end.

Definition job_prog (j : Job) : Prog Outcome :=
  match j with
  | JobClaim self ws id conn snap => prog_bind (claim self ws id conn snap) (fun r => Done (Finished r))
  | JobRenew self ws id conn => prog_bind (renew self ws id conn) (fun r => Done (Renewed r))
  | JobPublish self ws id conn snap =>
      prog_bind (publish_snapshot self ws id conn snap) (fun r => Done (Finished r))
  | JobRelease self ws id conn => prog_bind (release self ws id conn) (fun _ => Done Released)
  | JobOwner self ws id => prog_bind (owner self ws id) (fun r => Done (Owned r))
  | JobProject self update => prog_bind (cluster_projection self update) (fun r => Done (Finished r))
  end.

Record Cluster : Type := mkCluster { cl_threads : list (Job * Prog Outcome); cl_buckets : Buckets }.

Definition cluster_step (c : Cluster) (e : Event) : Cluster :=
  match e with
  | Launch j => mkCluster (cl_threads c ++ [(j, job_prog j)]) (cl_buckets c)
  | Run n f =>
      match cl_threads c !! n with
      | Some (j, p) =>
          let '(p', s') := exec f p (cl_buckets c) in mkCluster (<[n := (j, p')]> (cl_threads c)) s'
      | None => c
      end
  | Expire b key =>
      mkCluster (cl_threads c) (set_bucket b (kv_expire key (bucket b (cl_buckets c))) (cl_buckets c))
  end.

Definition cluster_run (s : Buckets) (events : list Event) : Cluster := foldl cluster_step (mkCluster [] s) events.

(** Who holds the lease of a machine. *)
Definition lease_in (s : Store) (key : string) : option ConnectionOwner :=
  match opt_filter is_put (kv_entry key s) with
  | Some e => match decode_owner (en_value e) with Ok o => Some o | Err _ => None end
  | None => None
  end.
Definition lease (c : Cluster) (key : string) : option ConnectionOwner :=
  lease_in (bk_leases (cl_buckets c)) key.

End System.
