(* ===== verification/ClusterLeaseFacts.v ===== *)
(** * What the leases guarantee

    A small program logic for the programs of [ClusterLease]: [safe] follows a program through all
    replies and collects the revisions of the lease it has read and found its own; conditional
    writes must name one of them.  As revisions are never reused, what was read stays true of the
    entry as long as it is the entry, whatever the other Proxies do in between. *)

From stdpp Require Import gmap.
From S2P Require Import Prelude RustStr Protocol HostProtocol Activity BinaryFrames ProxyTypes ClusterKeys.
From S2P Require Import ClusterLease.
Local Open Scope Z_scope.

(** ** The logic *)

(** What a job may do to the lease of its machine. *)
Record Rights : Type := mkRights { may_put : bool; may_renew : bool; may_delete : bool }.

Section Facts.
Context {C : Base64} {W : Wire}.

Definition job_key (j : Job) : string :=
  match j with
  | JobClaim _ ws id _ _ | JobRenew _ ws id _ | JobPublish _ ws id _ _ | JobRelease _ ws id _
  | JobOwner _ ws id => server_key ws id
  | JobProject _ _ => EmptyString
  end.
Definition job_owner (j : Job) : ConnectionOwner :=
  match j with
  | JobClaim self _ _ conn _ | JobRenew self _ _ conn | JobPublish self _ _ conn _
  | JobRelease self _ _ conn => owner_of_connection self conn
  | JobOwner self _ _ | JobProject self _ => owner_of_connection self EmptyString
  end.
Definition job_rights (j : Job) : Rights :=
  match j with
  | JobClaim _ _ _ _ _ => mkRights true false true
  | JobRenew _ _ _ _ => mkRights false true false
  | JobRelease _ _ _ _ => mkRights false false true
  | _ => mkRights false false false
  end.

Section Logic.
Context (o : ConnectionOwner) (lease_key : string) (rights : Rights).

(** The entry is the program's own lease. *)
Definition own_entry (b : Bucket) (key : string) (e : Entry) : Prop :=
  b = Leases /\ key = lease_key /\ decode_owner (en_value e) = Ok o.

Fixpoint safe {A} (K : list Z) (p : Prog A) : Prop :=
  match p with
  | Done _ => True
  | GetEntry b key k =>
      (forall text, safe K (k (Err text))) /\ safe K (k (Ok None))
      /\ (forall e, own_entry b key e -> safe (en_revision e :: K) (k (Ok (Some e))))
      /\ (forall e, ~ own_entry b key e -> safe K (k (Ok (Some e))))
  | PutKey b key value k =>
      (b = Leases -> key = lease_key /\ encode_owner o = Ok value /\ may_put rights = true)
      /\ forall r, safe K (k r)
  | UpdateKey b key value revision k =>
      (b = Leases -> key = lease_key /\ encode_owner o = Ok value /\ may_renew rights = true
                     /\ revision ∈ K)
      /\ forall r, safe K (k r)
  | CreateKey b key value k =>
      (b = Leases -> key = lease_key /\ encode_owner o = Ok value /\ may_renew rights = true)
      /\ forall r, safe K (k r)
  | DeleteKey b key revision k =>
      (b = Leases -> key = lease_key /\ may_delete rights = true /\ revision ∈ K)
      /\ forall r, safe K (k r)
  end.

Lemma safe_mono {A} (p : Prog A) : forall K K', K ⊆ K' -> safe K p -> safe K' p.
Proof.
  induction p; intros K K' HK; simpl; [done| | | | |];
    [|intros [Hs Hk]; split; [intros Hb; specialize (Hs Hb); naive_solver|by eauto]..].
  intros (H1 & H2 & H3 & H4). split_and!; eauto.
  intros e He. eapply H; [|by apply H3]. set_solver.
Qed.

Lemma safe_bind {A B} (p : Prog A) (f : A -> Prog B) : forall K,
  safe K p -> (forall K' a, K ⊆ K' -> safe K' (f a)) -> safe K (prog_bind p f).
Proof.
  induction p; intros K; simpl; [intros _ Hf; by apply Hf| | | | |];
    [|intros [Hs Hk] Hf; split; [done|]; intros r; by eauto..].
  intros (H1 & H2 & H3 & H4) Hf. split_and!; eauto.
  intros e He. apply H; [by apply H3|]. intros K' a HK. apply Hf. set_solver.
Qed.

Lemma safe_try {A B} (p : ProgR A) (f : A -> ProgR B) K :
  safe K p -> (forall K' a, K ⊆ K' -> safe K' (f a)) -> safe K (prog_try p f).
Proof. intros Hp Hf. apply safe_bind; [done|]. intros K' [a|e] HK; [by apply Hf|done]. Qed.

Lemma safe_done_try {A B} (r : Result A ProtocolError) (f : A -> ProgR B) K :
  (forall a, r = Ok a -> safe K (f a)) -> safe K (prog_try (Done r) f).
Proof. unfold prog_try. simpl. destruct r; [auto|done]. Qed.

Lemma safe_put_other (b : Bucket) key value K : b <> Leases -> safe K (put_key b key value).
Proof. intros Hb. by split. Qed.

End Logic.

(** ** The programs of the jobs *)

Lemma projection_safe o key rights K self update : safe o key rights K (cluster_projection self update).
Proof.
  unfold cluster_projection. case_match; [done|]. apply safe_done_try. intros payload _.
  apply safe_try; [by apply safe_put_other|done].
Qed.

Lemma release_safe self ws id conn K put :
  safe (owner_of_connection self conn) (server_key ws id) (mkRights put false true) K
    (release self ws id conn).
Proof.
  unfold release. case_match; [done|]. cbv zeta. split_and!; [done..|intros e He|intros e He].
  - destruct He as (_ & _ & He). cbv beta iota. rewrite He. cbv beta iota. simpl co_proxy_id.
    case_match; [done|].
    split; [intros _; split_and!; [done..|by left]|]. intros [[]|]; [|done].
    split_and!; [done..| |]; intros e' _; case_match; try done; case_bool_decide; done.
  - cbv beta iota. destruct (decode_owner (en_value e)) as [[proxy conn']|] eqn:Hd; [|done]. simpl.
    destruct (String.eqb_spec proxy (cb_instance_id self)) as [->|]; [|done].
    destruct (String.eqb_spec conn' conn) as [->|]; [|done]. by destruct He.
Qed.

Lemma announce_safe self ws id conn update K put :
  safe (owner_of_connection self conn) (server_key ws id) (mkRights put false true) K
    (announce_or_release self ws id conn update).
Proof.
  unfold announce_or_release. apply safe_bind; [apply projection_safe|]. intros K' [?|error] _; [done|].
  apply safe_bind; [apply release_safe|done].
Qed.

Lemma announce_agents_safe self ws id conn put agents : forall K,
  safe (owner_of_connection self conn) (server_key ws id) (mkRights put false true) K
    (announce_agents self ws id conn agents).
Proof.
  induction agents as [|agent agents IH]; intros K; [done|]. simpl.
  apply safe_try; [apply announce_safe|]. intros K' _ _. apply IH.
Qed.

Lemma claim_safe self ws id conn snap K :
  safe (owner_of_connection self conn) (server_key ws id) (mkRights true false true) K
    (claim self ws id conn snap).
Proof.
  unfold claim. case_match; [done|]. cbv zeta. apply safe_done_try. intros encoded Henc.
  apply safe_try.
  { split; [|done]. intros _. split_and!; [done| |done].
    by destruct (encode_owner (owner_of_connection self conn)); simplify_eq/=. }
  intros K1 _ _. apply safe_try; [apply announce_safe|].
  intros K2 _ _. apply safe_try; [apply announce_agents_safe|].
  intros K3 _ _. apply safe_done_try. intros payload _. apply safe_try; [by apply safe_put_other|done].
Qed.

Lemma renew_loop_safe key id o encoded attempts : forall K,
  encode_owner o = Ok encoded ->
  safe o key (mkRights false true false) K (renew_loop key id o encoded attempts).
Proof.
  induction attempts as [|attempts IH]; intros K Henc; [done|].
  cbn [renew_loop get_entry prog_try prog_bind]. unfold prog_try, get_entry. cbn [prog_bind].
  assert (forall K' (r : Result Z WriteError), safe o key (mkRights false true false) K'
    (match r with
     | Ok _ => Done (Ok true)
     | Err Conflict => renew_loop key id o encoded attempts
     | Err (OtherError text) => Done (Err (cluster_error text))
     end)) as Hretry by (intros K' [z|[|text]]; simpl; auto).
  split_and!; [done| |intros e He|intros e He]; cbn [map_err opt_filter].
  - split; [by intros _|apply Hretry].
  - destruct He as (_ & _ & He). destruct (is_put e); cbn [prog_bind].
    + rewrite He. cbn. case_bool_decide; [done|]. split; [|apply Hretry].
      intros _. split_and!; [done..|by left].
    + split; [by intros _|apply Hretry].
  - destruct (is_put e); cbn [prog_bind].
    + destruct (decode_owner (en_value e)) as [o'|] eqn:Hd; [|done]. cbn.
      case_bool_decide as Ho; [done|]. destruct He. unfold own_entry. split_and!; [done..|].
      by rewrite Hd, Ho.
    + split; [by intros _|apply Hretry].
Qed.

Lemma renew_safe self ws id conn K :
  safe (owner_of_connection self conn) (server_key ws id) (mkRights false true false) K
    (renew self ws id conn).
Proof.
  unfold renew. case_match; [done|]. cbv zeta. apply safe_done_try. intros encoded Henc.
  apply renew_loop_safe. by destruct (encode_owner (owner_of_connection self conn)); simplify_eq/=.
Qed.

Lemma get_safe o key rights K b k : safe o key rights K (get_entry b k).
Proof. by split_and!. Qed.

Lemma publish_safe o key rights self ws id conn snap K :
  safe o key rights K (publish_snapshot self ws id conn snap).
Proof.
  unfold publish_snapshot. case_match; [done|]. cbv zeta. apply safe_try; [apply get_safe|].
  intros K1 entry _. apply safe_done_try. intros e _. apply safe_done_try. intros current _.
  case_match; [done|]. apply safe_done_try. intros payload _. apply safe_try; [by apply safe_put_other|done].
Qed.

Lemma owner_safe o key rights self ws id K : safe o key rights K (owner self ws id).
Proof.
  unfold owner. case_match; [done|]. apply safe_try; [apply get_safe|].
  intros K1 entry _. case_match; [|done]. by apply safe_done_try.
Qed.

Lemma job_safe j : safe (job_owner j) (job_key j) (job_rights j) [] (job_prog j).
Proof.
  destruct j; simpl; (apply safe_bind; [|done]);
    auto using claim_safe, renew_safe, publish_safe, release_safe, owner_safe, projection_safe.
Qed.

(** ** The invariant of the cluster *)

Context {WL : WireLaws} {Store : Type} {KV : KeyValue Store} {KL : KeyValueLaws Store}.

(** The program read these revisions of the lease and found them its own. *)
Definition known (o : ConnectionOwner) (key : string) (s : Store) (K : list Z) : Prop :=
  forall r, r ∈ K -> r <= kv_last s
    /\ forall e, kv_entry key s = Some e -> en_revision e = r -> decode_owner (en_value e) = Ok o.

Definition thread_ok (s : Store) (t : Job * Prog Outcome) : Prop :=
  exists K, known (job_owner t.1) (job_key t.1) s K /\ safe (job_owner t.1) (job_key t.1) (job_rights t.1) K t.2.

Definition cluster_ok (c : Cluster (Store := Store)) : Prop :=
  forall n t, cl_threads c !! n = Some t -> thread_ok (bk_leases (cl_buckets c)) t.

(** How the lease bucket may change so that what was read stays true. *)
Definition fresh_entries (s s' : Store) : Prop :=
  kv_last s <= kv_last s'
  /\ forall key e, kv_entry key s' = Some e -> kv_entry key s = Some e \/ kv_last s < en_revision e.

Lemma known_fresh o key s s' K : fresh_entries s s' -> known o key s K -> known o key s' K.
Proof.
  intros [Hl He] Hk r Hr. destruct (Hk r Hr) as [Hb Hd]. split; [lia|].
  intros e Hs' Hrev. destruct (He key e Hs') as [Hs|Hs]; [by eapply Hd|lia].
Qed.

Lemma fresh_refl s : fresh_entries s s.
Proof. split; [lia|auto]. Qed.

Lemma fresh_written key op value s rs : written key op value s rs -> fresh_entries s rs.2.
Proof.
  intros (He & Ho & Hl & Hl'). split; [lia|]. intros key' e. destruct (decide (key' = key)) as [->|Hne].
  - rewrite He. intros [= <-]. right. simpl. lia.
  - rewrite Ho by done. auto.
Qed.

Lemma fresh_expire key s : fresh_entries s (kv_expire key s).
Proof.
  split; [apply expire_last|]. intros key' e. destruct (decide (key' = key)) as [->|Hne].
  - by rewrite expire_entry.
  - rewrite expire_other by done. auto.
Qed.

(** What one request of a program does to the lease bucket: nothing, or one write the program may
    make. *)
Inductive lease_effect (j : Job) (K : list Z) (s s' : Store) : Prop :=
| effect_none : s' = s -> lease_effect j K s s'
| effect_put value r :
    may_put (job_rights j) = true -> encode_owner (job_owner j) = Ok value ->
    written (job_key j) OpPut value s (r, s') -> lease_effect j K s s'
| effect_renew value r :
    may_renew (job_rights j) = true -> encode_owner (job_owner j) = Ok value ->
    (forall e, kv_entry (job_key j) s = Some e -> is_put e = true -> en_revision e ∈ K) ->
    written (job_key j) OpPut value s (r, s') -> lease_effect j K s s'
| effect_delete r :
    may_delete (job_rights j) = true ->
    (forall e, kv_entry (job_key j) s = Some e -> en_revision e ∈ K) ->
    written (job_key j) OpDelete [] s (r, s') -> lease_effect j K s s'.

Lemma attempt_effect f b w s j K :
  (forall rs, b = Leases -> w = Some rs -> lease_effect j K (bk_leases s) rs.2) ->
  lease_effect j K (bk_leases s) (bk_leases (attempt f b w s).2).
Proof.
  intros H. destruct f, w as [[r st]|], b; simpl; try (by apply effect_none); by apply (H (r, st)).
Qed.

Lemma exec_ok {A} f (p : Prog A) s K j :
  known (job_owner j) (job_key j) (bk_leases s) K ->
  safe (job_owner j) (job_key j) (job_rights j) K p ->
  lease_effect j K (bk_leases s) (bk_leases (exec f p s).2)
  /\ exists K', known (job_owner j) (job_key j) (bk_leases s) K'
             /\ safe (job_owner j) (job_key j) (job_rights j) K' (exec f p s).1.
Proof.
  intros Hk Hs. destruct p as [a|b key k|b key v k|b key v rev k|b key v k|b key rev k]; cbn [exec safe] in *.
  - split; [by apply effect_none|eauto].
  - destruct Hs as (H1 & H2 & H3 & H4). split; [by apply effect_none|]. destruct f; [|by eauto..].
    destruct (kv_entry key (bucket b s)) as [e|] eqn:He; [|by eauto].
    destruct b; try (exists K; split; [done|apply H4; by intros (? & _ & _)]). simpl in *.
    destruct (decide (key = job_key j)) as [->|Hne];
      [|exists K; split; [done|apply H4; by intros (_ & ? & _)]].
    destruct (decode_owner (en_value e)) as [o|err] eqn:Hd;
      [|exists K; split; [done|apply H4; intros (_ & _ & ?); congruence]].
    destruct (decide (o = job_owner j)) as [->|Hne];
      [|exists K; split; [done|apply H4; intros (_ & _ & ?); congruence]].
    exists (en_revision e :: K). split; [|by apply H3]. intros r [->|Hr]%elem_of_cons; [|by apply Hk].
    split; [by apply (entry_bound _ _ _ He)|]. intros e' He' _. congruence.
  - destruct Hs as [Hw Hk']. rewrite (surjective_pairing (attempt f b _ s)). cbn [fst snd]. split; [|by eauto].
    apply attempt_effect. intros rs -> [= <-]. destruct (Hw eq_refl) as (-> & Henc & Hput).
    eapply effect_put; [done..|]. simpl. rewrite <- surjective_pairing. apply put_written.
  - destruct Hs as [Hw Hk']. rewrite (surjective_pairing (attempt f b _ s)). cbn [fst snd]. split; [|by eauto].
    apply attempt_effect. intros [r s'] -> Hu. destruct (Hw eq_refl) as (-> & Henc & Hput & Hrev).
    apply update_written in Hu as [Hlast Hwr]. eapply effect_renew; [done..| |done]. intros e He _.
    simpl in *. rewrite He in Hlast. by simplify_eq/=.
  - destruct Hs as [Hw Hk']. rewrite (surjective_pairing (attempt f b _ s)). cbn [fst snd]. split; [|by eauto].
    apply attempt_effect. intros [r s'] -> Hu. destruct (Hw eq_refl) as (-> & Henc & Hput).
    apply create_written in Hu as [Hlast Hwr]. eapply effect_renew; [done..| |done]. intros e He Hp.
    simpl in *. rewrite He in Hlast. simpl in Hlast. congruence.
  - destruct Hs as [Hw Hk']. rewrite (surjective_pairing (attempt f b _ s)). cbn [fst snd]. split; [|by eauto].
    apply attempt_effect. intros [r s'] -> Hu. destruct (Hw eq_refl) as (-> & Hdel & Hrev).
    apply delete_written in Hu as [Hlast Hwr]. eapply effect_delete; [done| |done]. intros e He.
    simpl in *. rewrite He in Hlast. by simplify_eq/=.
Qed.

Lemma effect_fresh j K s s' : lease_effect j K s s' -> fresh_entries s s'.
Proof.
  intros [->|value r _ _ H|value r _ _ _ H|r _ _ H]; [apply fresh_refl|..]; by apply fresh_written in H.
Qed.

Lemma thread_fresh s s' t : fresh_entries s s' -> thread_ok s t -> thread_ok s' t.
Proof. intros Hf (K & Hk & Hs). exists K. split; [by eapply known_fresh|done]. Qed.

Lemma cluster_step_ok c e : cluster_ok c -> cluster_ok (cluster_step c e).
Proof.
  intros Hc. destruct e as [j|n f|b key]; simpl.
  - intros n t Ht. simpl in *. apply lookup_app_Some in Ht as [Ht|[_ Ht]]; [by eapply Hc|].
    apply list_lookup_singleton_Some in Ht as [_ <-]. exists []. split; [|apply job_safe].
    intros r Hr. by apply elem_of_nil in Hr.
  - destruct (cl_threads c !! n) as [[j p]|] eqn:Hn; [|done].
    destruct (Hc n _ Hn) as (K & Hk & Hs). destruct (exec_ok f p _ K j Hk Hs) as [He (K' & Hk' & Hs')].
    destruct (exec f p (cl_buckets c)) as [p' s'] eqn:Ex. simpl in *. apply effect_fresh in He.
    intros m t Ht. simpl in Ht |- *. destruct (decide (m = n)) as [->|Hne].
    + rewrite list_lookup_insert_eq in Ht by (by eapply lookup_lt_Some). simplify_eq.
      exists K'. split; [by eapply known_fresh|done].
    + rewrite list_lookup_insert_ne in Ht by done. eapply thread_fresh; [done|by eapply Hc].
  - intros n t Ht. simpl in Ht. eapply thread_fresh; [|by eapply Hc].
    destruct b; simpl; [apply fresh_expire|apply fresh_refl..].
Qed.

Lemma cluster_run_ok s events : cluster_ok (cluster_run s events).
Proof.
  unfold cluster_run. assert (cluster_ok (mkCluster [] s)) as H by (intros n t Ht; by destruct n).
  revert H. generalize (mkCluster [] s). induction events as [|e events IH]; intros c Hc; [done|].
  simpl. by apply IH, cluster_step_ok.
Qed.

(** ** Who holds the lease *)

Lemma lease_written key op value s rs :
  written key op value s rs ->
  (forall key', key' <> key -> lease_in rs.2 key' = lease_in s key')
  /\ lease_in rs.2 key = match op, decode_owner value with OpPut, Ok o => Some o | _, _ => None end.
Proof.
  intros (He & Ho & _). split.
  - intros key' Hne. unfold lease_in. by rewrite Ho.
  - unfold lease_in. rewrite He. simpl. unfold is_put. simpl. destruct op; simpl; [by destruct (decode_owner value)|done..].
Qed.

Lemma lease_entry s key o :
  lease_in s key = Some o -> exists e, kv_entry key s = Some e /\ is_put e = true /\ decode_owner (en_value e) = Ok o.
Proof.
  unfold lease_in. destruct (kv_entry key s) as [e|]; simpl; [|done]. destruct (is_put e) eqn:Hp; [|done].
  destruct (decode_owner (en_value e)) eqn:Hd; [|done]. intros [= ->]. eauto.
Qed.

(** A write to a lease and what it means for its holder. *)
Lemma effect_lease j K s s' key o :
  known (job_owner j) (job_key j) s K -> lease_effect j K s s' ->
  lease_in s key = Some o -> lease_in s' key <> Some o ->
  job_key j = key
  /\ (may_put (job_rights j) = true /\ lease_in s' key = Some (job_owner j)
     \/ may_delete (job_rights j) = true /\ job_owner j = o /\ lease_in s' key = None).
Proof.
  intros Hk He Hl Hl'. apply lease_entry in Hl as Hl0. destruct Hl0 as (e & Hent & Hput & Hdec).
  assert (forall r, r ∈ K -> en_revision e = r -> job_key j = key -> job_owner j = o) as Hown.
  { intros r Hr Hrev <-. destruct (Hk r Hr) as [_ Hd]. specialize (Hd e Hent Hrev). congruence. }
  destruct He as [->|value r Hp Henc Hw|value r Hp Henc Hread Hw|r Hp Hread Hw]; [done| | |];
    destruct (lease_written _ _ _ _ _ Hw) as [Hother Hself]; simpl in *;
    (destruct (decide (key = job_key j)) as [->|Hne]; [|by rewrite Hother in Hl']);
    (split; [done|]); rewrite Hself in *.
  - left. split; [done|]. by rewrite (owner_roundtrip _ _ Henc).
  - destruct Hl'. rewrite (owner_roundtrip _ _ Henc). f_equal. eauto.
  - right. eauto.
Qed.

(** C31: leases are not stolen: whatever claims, renewals, publications, releases and look-ups of
    all Proxies interleave, and whichever requests fail or lose their reply, a machine's lease
    passes from its holder only when it expires, to a connection that is claiming this machine, or
    because the holder's own claim or release gives it up.  In particular a renewal never
    overwrites the lease of another connection. *)
Theorem leases_are_not_stolen s events e key o :
  let c := cluster_run s events in
  lease c key = Some o -> lease (cluster_step c e) key <> Some o ->
  e = Expire Leases key
  \/ exists n f j p, e = Run n f /\ cl_threads c !! n = Some (j, p) /\ job_key j = key
     /\ (may_put (job_rights j) = true /\ lease (cluster_step c e) key = Some (job_owner j)
         \/ may_delete (job_rights j) = true /\ job_owner j = o /\ lease (cluster_step c e) key = None).
Proof.
  intros c Hl Hl'. pose proof (cluster_run_ok s events) as Hc. fold c in Hc.
  destruct e as [j|n f|b key']; simpl in Hl' |- *; [done| |].
  - right. destruct (cl_threads c !! n) as [[j p]|] eqn:Hn; [|done]. exists n, f, j, p.
    destruct (Hc n _ Hn) as (K & Hk & Hs). destruct (exec_ok f p _ K j Hk Hs) as [He _].
    destruct (exec f p (cl_buckets c)) as [p' s'] eqn:Ex. unfold lease in *. simpl in *.
    destruct (effect_lease j K _ _ key o Hk He Hl Hl') as [Hkey H]. by split_and!.
  - destruct b; [|done..]. left. unfold lease in *. simpl in *.
    destruct (decide (key = key')) as [->|Hne]; [done|]. destruct Hl'. rewrite <- Hl. unfold lease_in.
    by rewrite expire_other.
Qed.

(** ** What a renewal answers *)

(** A renewal answers [true] right after a successful write of its owner, and [false] right after
    it read another owner. *)
Fixpoint answers (key : string) (o : ConnectionOwner) (p : Prog Outcome) : Prop :=
  match p with
  | Done _ => True
  | GetEntry b key' k =>
      b = Leases /\ key' = key /\ forall r, answers key o (k r)
      /\ forall a, k r = Done (Renewed (Ok a)) ->
           a = false /\ exists e o', r = Ok (Some e) /\ is_put e = true
                                 /\ decode_owner (en_value e) = Ok o' /\ o' <> o
  | UpdateKey b key' value _ k | CreateKey b key' value k =>
      b = Leases /\ key' = key /\ encode_owner o = Ok value /\ forall r, answers key o (k r)
      /\ forall a, k r = Done (Renewed (Ok a)) -> a = true /\ is_ok r = true
  | _ => False
  end.

Lemma renew_loop_answers key id o encoded attempts :
  encode_owner o = Ok encoded ->
  answers key o (prog_bind (renew_loop key id o encoded attempts) (fun r => Done (Renewed r))).
Proof.
  intros Henc. induction attempts as [|attempts IH]; [done|].
  cbn [renew_loop]. unfold prog_try, get_entry. cbn [prog_bind answers]. split_and!; [done..|].
  assert (forall r : Result Z WriteError,
    let p := prog_bind (match r with
             | Ok _ => Done (Ok true)
             | Err Conflict => renew_loop key id o encoded attempts
             | Err (OtherError text) => Done (Err (cluster_error text))
             end) (fun r => Done (Renewed r)) in
    answers key o p /\ forall a, p = Done (Renewed (Ok a)) -> a = true /\ is_ok r = true) as Hretry.
  { intros [z|[|text]]; simpl; [by split; [|intros a [= <-]]| |done]. split; [done|].
    destruct attempts; [done|]. by intros a Ha. }
  intros [[e|]|text]; cbn [map_err opt_filter]; [destruct (is_put e) eqn:Hp| |done]; cbn [prog_bind].
  - destruct (decode_owner (en_value e)) as [o'|] eqn:Hd; [|done]. cbn [decode_protocol map_err].
    case_bool_decide; cbn [prog_bind answers]; [split; [done|]; intros a [= <-]; by eauto 10|].
    split; [|done]. by split_and!.
  - split; [|done]. by split_and!.
  - split; [|done]. by split_and!.
Qed.

Lemma renew_answers self ws id conn :
  cb_distributed self = true ->
  answers (server_key ws id) (owner_of_connection self conn) (job_prog (JobRenew self ws id conn)).
Proof.
  intros Hd. unfold job_prog, renew. rewrite Hd. cbn [negb]. cbv zeta. unfold prog_try. cbn [prog_bind].
  destruct (encode_owner (owner_of_connection self conn)) as [encoded|] eqn:He; cbn [encode_protocol map_err prog_bind];
    [by apply renew_loop_answers|done].
Qed.

Lemma answers_exec key o f p s : answers key o p -> answers key o (exec f p s).1.
Proof.
  destruct p as [a|b k' k|b k' v k|b k' v rev k|b k' v k|b k' rev k]; cbn [answers exec]; try done.
  - intros (_ & _ & H). apply H.
  - intros (_ & _ & _ & H). rewrite (surjective_pairing (attempt f b _ s)). apply H.
  - intros (_ & _ & _ & H). rewrite (surjective_pairing (attempt f b _ s)). apply H.
Qed.

Definition renewals_ok (c : Cluster (Store := Store)) : Prop :=
  forall n self ws id conn p, cl_threads c !! n = Some (JobRenew self ws id conn, p) ->
    cb_distributed self = true -> answers (server_key ws id) (owner_of_connection self conn) p.

Lemma renewals_step c e : renewals_ok c -> renewals_ok (cluster_step c e).
Proof.
  intros Hc. destruct e as [j|n f|b key]; simpl; [| |done].
  - intros n self ws id conn p Hn Hd. simpl in Hn. apply lookup_app_Some in Hn as [Hn|[_ Hn]]; [by eapply Hc|].
    apply list_lookup_singleton_Some in Hn as [_ Hn]. simplify_eq. by apply renew_answers.
  - destruct (cl_threads c !! n) as [[j p]|] eqn:Hn; [|done].
    destruct (exec f p (cl_buckets c)) as [p' s'] eqn:Ex.
    intros m self ws id conn q Hm Hd. simpl in Hm. destruct (decide (m = n)) as [->|Hne].
    + rewrite list_lookup_insert_eq in Hm by (by eapply lookup_lt_Some). simplify_eq.
      pose proof (answers_exec _ _ f p (cl_buckets c) (Hc n self ws id conn p Hn Hd)). by rewrite Ex in H.
    + rewrite list_lookup_insert_ne in Hm by done. by eapply Hc.
Qed.

Lemma renewals_run s events : renewals_ok (cluster_run s events).
Proof.
  unfold cluster_run. assert (renewals_ok (mkCluster [] s)) as H by (intros n; by destruct n).
  revert H. generalize (mkCluster [] s). induction events as [|e events IH]; intros c Hc; [done|].
  simpl. by apply IH, renewals_step.
Qed.

(** A renewal tells the truth: at the moment it answers [true] the connection holds the lease,
    and at the moment it answers [false] another connection does, whatever else is going on. *)
Theorem renewal_is_truthful s events n f self ws id conn p a :
  let c := cluster_run s events in
  let c' := cluster_step c (Run n f) in
  cb_distributed self = true ->
  cl_threads c !! n = Some (JobRenew self ws id conn, p) -> p <> Done (Renewed (Ok a)) ->
  cl_threads c' !! n = Some (JobRenew self ws id conn, Done (Renewed (Ok a))) ->
  if a then lease c' (server_key ws id) = Some (owner_of_connection self conn)
  else exists o, lease c' (server_key ws id) = Some o /\ o <> owner_of_connection self conn.
Proof.
  intros c c' Hd Hn Hp Hn'. pose proof (renewals_run s events n self ws id conn p Hn Hd) as Ha.
  subst c'. simpl in *. rewrite Hn in *. destruct (exec f p (cl_buckets c)) as [p' s'] eqn:Ex.
  simpl in Hn'. rewrite list_lookup_insert_eq in Hn' by (by eapply lookup_lt_Some). simplify_eq.
  unfold lease. cbn [cl_buckets].
  destruct p as [x|b k' k|b k' v k|b k' v rev k|b k' v k|b k' rev k]; cbn [answers exec] in *; try done.
  - congruence.
  - destruct Ha as (-> & -> & Ha). simplify_eq/=.
    match goal with H : k _ = _ |- _ =>
      destruct (proj2 (Ha _) a H) as (-> & e & o & He & Hput & Hdec & Hne) end. destruct f; simplify_eq/=.
    exists o. split; [|done]. unfold lease_in. rewrite He. simpl. by rewrite Hput, Hdec.
  - destruct Ha as (-> & -> & Henc & Ha). destruct (attempt f Leases _ _) as [r s1] eqn:Hat. simplify_eq/=.
    destruct (proj2 (Ha r) a ltac:(done)) as [-> Hok]. unfold attempt in Hat.
    destruct f; [|by simplify_eq/=|repeat case_match; by simplify_eq/=].
    destruct (kv_update _ _ _ _) as [[z st]|] eqn:Hu; simplify_eq/=.
    apply update_written in Hu as [_ Hw]. destruct (lease_written _ _ _ _ _ Hw) as [_ Hl]. simpl in Hl.
    by rewrite Hl, (owner_roundtrip _ _ Henc).
  - destruct Ha as (-> & -> & Henc & Ha). destruct (attempt f Leases _ _) as [r s1] eqn:Hat. simplify_eq/=.
    destruct (proj2 (Ha r) a ltac:(done)) as [-> Hok]. unfold attempt in Hat.
    destruct f; [|by simplify_eq/=|repeat case_match; by simplify_eq/=].
    destruct (kv_create _ _ _) as [[z st]|] eqn:Hu; simplify_eq/=.
    apply create_written in Hu as [_ Hw]. destruct (lease_written _ _ _ _ _ Hw) as [_ Hl]. simpl in Hl.
    by rewrite Hl, (owner_roundtrip _ _ Henc).
Qed.

(** A renewal that nothing disturbs succeeds for the holder of the lease and for a lease that
    has expired or was given up, and the connection then holds it; it fails just when another
    connection holds the lease, which it leaves alone. *)
Theorem renewal_alone self ws id conn encoded s :
  let key := server_key ws id in
  let o := owner_of_connection self conn in
  cb_distributed self = true -> encode_owner o = Ok encoded ->
  (forall e, kv_entry key (bk_leases s) = Some e -> is_put e = true -> is_ok (decode_owner (en_value e)) = true) ->
  let '(r, s') := run_alone (renew self ws id conn) s in
  match lease_in (bk_leases s) key with
  | Some o' => if decide (o' = o) then r = Ok true /\ lease_in (bk_leases s') key = Some o
               else r = Ok false /\ s' = s
  | None => r = Ok true /\ lease_in (bk_leases s') key = Some o
  end.
Proof.
  intros key o Hd Henc Hgood. unfold renew. rewrite Hd. cbn [negb]. cbv zeta. fold o key.
  unfold prog_try at 1. cbn [prog_bind]. rewrite Henc. cbn [encode_protocol map_err renew_loop].
  unfold prog_try at 1, get_entry at 1. cbn [prog_bind run_alone map_err bucket].
  unfold lease_in at 1. destruct (kv_entry key (bk_leases s)) as [e|] eqn:He; cbn [opt_filter];
    [destruct (is_put e) eqn:Hput|].
  2: assert (is_some_and (kv_entry key (bk_leases s)) is_put = false) as Hfree by (by rewrite He).
  3: assert (is_some_and (kv_entry key (bk_leases s)) is_put = false) as Hfree by (by rewrite He).
  2,3: cbn [run_alone bucket]; destruct (create_free key encoded (bk_leases s) Hfree) as [[z st] Hc];
    rewrite Hc; cbn [attempt run_alone]; split; [done|];
    apply create_written in Hc as [_ Hw]; destruct (lease_written _ _ _ _ _ Hw) as [_ Hl]; simpl in *;
    by rewrite Hl, (owner_roundtrip _ _ Henc).
  specialize (Hgood e eq_refl Hput). destruct (decode_owner (en_value e)) as [o'|] eqn:Hdec; [|done].
  unfold prog_try at 1. cbn [prog_bind decode_protocol map_err].
  destruct (decide (o' = o)) as [->|Hne].
  - rewrite bool_decide_eq_false_2 by (by intros Hn). cbn [run_alone bucket].
    destruct (update_current key encoded (bk_leases s) e He) as [[z st] Hu]. rewrite Hu. cbn [attempt run_alone].
    split; [done|]. apply update_written in Hu as [_ Hw]. destruct (lease_written _ _ _ _ _ Hw) as [_ Hl].
    simpl in *. by rewrite Hl, (owner_roundtrip _ _ Henc).
  - by rewrite bool_decide_eq_true_2.
Qed.

End Facts.

(** ** A store in memory *)

(** The writes and expiries, newest first; the revision of a write is its position. *)
Inductive LogItem : Type :=
| Wrote (key : string) (op : Operation) (value : bytes)
| Gone (key : string).

Definition log_last (log : list LogItem) : Z := Z.of_nat (length log).
Fixpoint log_entry (key : string) (log : list LogItem) : option Entry :=
  match log with
  | [] => None
  | Wrote key' op value :: rest =>
      if key' =s key then Some (mkEntry op value (log_last rest + 1)) else log_entry key rest
  | Gone key' :: rest => if key' =s key then None else log_entry key rest
  end.
Definition log_write (key : string) (op : Operation) (value : bytes) (log : list LogItem) : Z * list LogItem :=
  (log_last log + 1, Wrote key op value :: log).

#[export] Instance log_store : KeyValue (list LogItem) := {
  kv_entry := log_entry;
  kv_put key value log := log_write key OpPut value log;
  kv_update key value revision log :=
    if bool_decide (en_revision <$> log_entry key log = Some revision)
    then Some (log_write key OpPut value log) else None;
  kv_create key value log :=
    if is_some_and (log_entry key log) is_put then None else Some (log_write key OpPut value log);
  kv_delete key revision log :=
    if bool_decide (en_revision <$> log_entry key log = Some revision)
    then Some (log_write key OpDelete [] log) else None;
  kv_expire key log := Gone key :: log;
  kv_last := log_last
}.

Lemma log_written key op value log : written key op value log (log_write key op value log).
Proof.
  unfold written, log_write. simpl. rewrite String.eqb_refl. split_and!; [done| | |].
  - intros key' Hne. by rewrite (proj2 (String.eqb_neq _ _)).
  - unfold log_last. lia.
  - unfold log_last. simpl length. lia.
Qed.

#[export] Instance log_store_laws : KeyValueLaws (list LogItem).
Proof.
  split; simpl.
  - intros key log e. induction log as [|[key' op value|key'] log IH]; simpl; [done|..];
      destruct (key' =s key); try (intros [= <-]; simpl); try (intros H; apply IH in H);
      unfold log_last in *; simpl length in *; try lia; done.
  - intros key value s. apply log_written.
  - intros key value revision s rs. case_bool_decide; [|done]. intros [= <-]. split; [done|apply log_written].
  - intros key value s e He. rewrite He, bool_decide_eq_true_2 by done. eauto.
  - intros key value s rs. destruct (is_some_and _ _); [done|]. intros [= <-]. split; [done|apply log_written].
  - intros key value s ->. eauto.
  - intros key revision s rs. case_bool_decide; [|done]. intros [= <-]. split; [done|apply log_written].
  - intros key s e He. rewrite He, bool_decide_eq_true_2 by done. eauto.
  - intros key s. by rewrite String.eqb_refl.
  - intros key key' s Hne. by rewrite (proj2 (String.eqb_neq _ _)).
  - intros key s. unfold log_last. simpl length. lia.
Qed.

Definition encode_sample (o : ConnectionOwner) : bytes :=
  Z.of_nat (length (str_bytes (co_proxy_id o))) :: str_bytes (co_proxy_id o) ++ str_bytes (co_connection_id o).
Definition decode_sample (b : bytes) : Result ConnectionOwner string :=
  match b with
  | [] => Err "empty"
  | n :: rest => Ok (mkConnectionOwner (bytes_str (take (Z.to_nat n) rest)) (bytes_str (drop (Z.to_nat n) rest)))
  end.

Definition sample_build : BuildInfo := mkBuildInfo "1.0.0" "abc".
Definition sample_machine : AgentServerSnapshot :=
  mkAgentServerSnapshot
    (mkServerInfo "m1" "ws" "machine" "host" "/root" sample_build sample_build None ∅ None Offline 0 0 []) [].

(** A codec that keeps the owner of a snapshot. *)
#[export] Instance sample_wire : Wire := {
  encode_owner o := Ok (encode_sample o);
  decode_owner := decode_sample;
  encode_snapshot s := Ok (encode_sample (cs_owner s));
  decode_snapshot b :=
    match decode_sample b with Ok o => Ok (mkClusterServerSnapshot o 0 sample_machine) | Err e => Err e end;
  encode_projection _ := Ok [];
  decode_projection _ := Err "opaque"
}.

#[export] Instance sample_wire_laws : WireLaws.
Proof.
  split; [|done]. intros [proxy conn] b [= <-]. simpl. rewrite Nat2Z.id, take_app_length, drop_app_length.
  by rewrite !bytes_str_bytes.
Qed.

(** ** Two Proxies *)

Definition proxy_a : ClusterBus := mkClusterBus "a" true.
Definition proxy_b : ClusterBus := mkClusterBus "b" true.
Definition no_buckets : Buckets (Store := list LogItem) := mkBuckets [] [] [].
Definition machine_key : string := server_key "ws" "m1".

(** Proxy a claims the machine with connection 1; then b claims it with connection 2 while a
    renews. *)
Definition takeover : list Event :=
  [Launch (JobClaim proxy_a "ws" "m1" "1" sample_machine); Run 0 Fine; Run 0 Fine; Run 0 Fine;
   Launch (JobRenew proxy_a "ws" "m1" "1"); Run 1 Fine;
   Launch (JobClaim proxy_b "ws" "m1" "2" sample_machine)].

Lemma leases_are_not_stolen_witness :
  lease (cluster_run no_buckets (takeover ++ [Run 2 Fine])) machine_key = Some (mkConnectionOwner "b" "2")
  /\ exists n f j p, Run 2 Fine = Run n f
       /\ cl_threads (cluster_run no_buckets takeover) !! n = Some (j, p) /\ may_put (job_rights j) = true.
Proof.
  split; [vm_compute; reflexivity|].
  destruct (leases_are_not_stolen no_buckets takeover (Run 2 Fine) machine_key (mkConnectionOwner "a" "1"))
    as [H|(n & f & j & p & H1 & H2 & _ & [[H3 _]|(_ & _ & H3)])].
  - vm_compute. reflexivity.
  - vm_compute. discriminate.
  - discriminate H.
  - exists n, f, j, p. split; [exact H1|]. split; [exact H2|exact H3].
  - vm_compute in H3. discriminate H3.
Defined.

(** The renewal that read its own lease before b took it fails to update, reads again and gives
    up. *)
Lemma renewal_is_truthful_witness :
  exists o, lease (cluster_run no_buckets (takeover ++ [Run 2 Fine; Run 1 Fine; Run 1 Fine])) machine_key = Some o
            /\ o <> mkConnectionOwner "a" "1".
Proof.
  eapply (renewal_is_truthful no_buckets (takeover ++ [Run 2 Fine; Run 1 Fine]) 1 Fine proxy_a "ws" "m1" "1" _ false).
  - reflexivity.
  - vm_compute. reflexivity.
  - discriminate.
  - vm_compute. reflexivity.
Defined.

Lemma renewal_alone_witness :
  let '(r, s') := run_alone (renew proxy_a "ws" "m1" "1") no_buckets in
  r = Ok true /\ lease_in (bk_leases s') machine_key = Some (mkConnectionOwner "a" "1").
Proof.
  refine (renewal_alone proxy_a "ws" "m1" "1" _ no_buckets _ _ _).
  - reflexivity.
  - reflexivity.
  - intros e He. vm_compute in He. discriminate He.
Defined.

(** [publish_snapshot] checks the lease and then writes unconditionally: when another Proxy
    claims the machine in between, the old owner's snapshot replaces the new owner's in the bucket.
    Every watcher skips the stale one, so a Proxy that starts then does not learn of the machine
    until the new owner publishes again. *)
Theorem stale_publish_replaces_snapshot :
  let c := cluster_run no_buckets
    [Launch (JobClaim proxy_a "ws" "m1" "1" sample_machine); Run 0 Fine; Run 0 Fine; Run 0 Fine;
     Launch (JobPublish proxy_a "ws" "m1" "1" sample_machine); Run 1 Fine;
     Launch (JobClaim proxy_b "ws" "m1" "2" sample_machine); Run 2 Fine; Run 2 Fine; Run 2 Fine;
     Run 1 Fine] in
  lease c machine_key = Some (mkConnectionOwner "b" "2")
  /\ (exists e, kv_entry machine_key (bk_snapshots (cl_buckets c)) = Some e
        /\ decode_owner (en_value e) = Ok (mkConnectionOwner "a" "1"))
  /\ (snd <$> cl_threads c) = [Done (Finished (Ok tt)); Done (Finished (Ok tt)); Done (Finished (Ok tt))].
Proof. vm_compute. split_and!; [reflexivity|eexists; split; reflexivity|reflexivity]. Qed.
