(* ===== verification/ClusterLoop.v ===== *)
(** * The message loops of the cluster (crates/treer-proxy/src/cluster.rs, [ClusterBus::start])

    What a Proxy does with a message on its own subject, with a broadcast, and with an entry of
    the three watched buckets.  Decoding is an input ([Result _ string]); the reply to a request is
    the result of the handler. *)

From stdpp Require Import gmap.
From S2P Require Import Prelude RustStr Protocol HostProtocol Activity BinaryFrames ProxyTypes ProxyState.
From S2P Require Import ProxyReplica ProxyCommands ClusterKeys ProxyTerminal StreamBridge ProxyNetwork ClusterLease.
Local Open Scope Z_scope.

Inductive ClusterRequest : Type :=
| ReqCommand (workspace_id server_id : string) (connection_id : Uuid) (command_id : string) (command : AgentCommand)
| ReqSocket (workspace_id server_id : string) (connection_id : Uuid) (frame : SocketFrame)
| ReqSessionDelivery (delivery : ClusterSessionDelivery)
| ReqNetworkDelivery (workspace_id server_id : string) (encoded : bytes)
| ReqWorkspaceBroadcast (origin_proxy workspace_id : string) (frame : SocketFrame).

(** What the task of a request does next: a command waits for its result, everything else is
    acknowledged at once. *)
Inductive Replying : Type :=
| AwaitCommand (r : Result unit ProtocolError)
| ReplyAck (r : Result unit ProtocolError).

(** A delivered entry of a watched bucket. *)
Record Watched : Type := mkWatched { wt_key : string; wt_entry : Entry }.

Section Loops.
Context {C : Base64} {Codec : ErrorCodec}.

Definition invalid_message (text : string) : ProtocolError := protocol_error "invalid_cluster_message" text.

(** The result of a handler as a reply. *)
Definition replied (wrap : Result unit ProtocolError -> Replying) (m : PM unit) (s : Proxy) : Replying * Proxy :=
  let '(r, s') := m s in (wrap r, s').

(** A message on the Proxy's own subject. *)
Definition on_direct (B : Backplane) (network : Result unit ProtocolError) (db : Tombstones) (waiter : Waiter)
    (request : Result ClusterRequest string) (s : Proxy) : Replying * Proxy :=
  match request with
  | Ok (ReqCommand ws id connection command_id command) =>
      replied AwaitCommand (handle_cluster_command db ws id connection command_id command waiter) s
  | Ok (ReqSocket ws id connection frame) => replied ReplyAck (handle_cluster_socket ws id connection frame) s
  | Ok (ReqSessionDelivery delivery) => replied ReplyAck (handle_cluster_session_delivery B delivery) s
  | Ok (ReqNetworkDelivery ws id encoded) =>
      replied ReplyAck (handle_cluster_network_delivery B network ws id encoded) s
  | Ok (ReqWorkspaceBroadcast _ _ _) =>
      (ReplyAck (Err (invalid_message "workspace broadcasts must use the broadcast subject")), s)
  | Err error => (ReplyAck (Err (invalid_message error)), s)
  end.

(** A message on the broadcast subject; a Proxy skips its own. *)
Definition on_broadcast (instance : string) (request : Result ClusterRequest string) : PM unit :=
  match request with
  | Ok (ReqWorkspaceBroadcast origin ws frame) =>
      if negb (origin =s instance) then handle_cluster_workspace_broadcast ws frame else st_ret tt
  | _ => st_ret tt
  end.

(** An entry of the snapshot bucket; [current] is what the lease of the machine says then. *)
Definition on_snapshot (instance : string) (current : option ConnectionOwner)
    (decoded : Result ClusterServerSnapshot string) (e : Watched) (now : Time) : PM unit :=
  if negb (is_put (wt_entry e)) then st_ret tt else
  match decoded with
  | Ok snapshot =>
      if co_proxy_id (cs_owner snapshot) =s instance then st_ret tt
      else if bool_decide (current <> Some (cs_owner snapshot)) then st_ret tt
      else apply_cluster_snapshot
             (mkClusterServerSnapshot (cs_owner snapshot) (en_revision (wt_entry e)) (cs_snapshot snapshot)) now
  | Err _ => st_ret tt
  end.

(** An entry of the lease bucket. *)
Definition on_lease (e : Watched) (now : Time) : PM unit :=
  match decode_server_key (wt_key e) with
  | None => st_ret tt
  | Some (ws, id) =>
      if is_put (wt_entry e) then note_cluster_lease ws id (en_revision (wt_entry e)) now
      else apply_cluster_disconnect ws id (en_revision (wt_entry e)) now
  end.

(** An entry of the projection bucket. *)
Definition on_projection (B : Backplane) (decoded : Result ClusterProjectionUpdate string) (e : Watched) (now : Time)
  : PM unit :=
  if negb (is_put (wt_entry e)) then st_ret tt else
  match decoded with
  | Ok update => apply_cluster_projection B update now
  | Err _ => st_ret tt
  end.

Definition LIVE_STATE_TTL : Z := from_secs 30.
(** The tick of the expiry loop. *)
Definition on_expiry (now : Time) : PM unit := expire_cluster_leases LIVE_STATE_TTL now.

(** The lease watch handles its entries one after the other. *)
Definition watch_leases (entries : list (Watched * Time)) (s : Proxy) : Proxy :=
  foldl (fun s en => (on_lease en.1 en.2 s).2) s entries.

(** ** A replica follows the lease *)

(** What the lease watch reads and writes. *)
Definition core (s : Proxy) := (in_workspaces (px_inner s), in_connections (px_inner s), in_leases (px_inner s)).
Definition keeps_core {A} (m : PM A) : Prop := forall s, core (m s).2 = core s.

Lemma keeps_core_bind {A B} (m : PM A) (k : A -> PM B) :
  keeps_core m -> (forall a, keeps_core (k a)) -> keeps_core (st_bind m k).
Proof.
  intros Hm Hk s. unfold st_bind. specialize (Hm s). destruct (m s) as [[a|e] s1]; simpl in *; [|done].
  by rewrite Hk.
Qed.

Lemma keeps_core_each {A} (f : A -> PM unit) l : (forall a, keeps_core (f a)) -> keeps_core (for_each f l).
Proof. intros Hf. induction l as [|a l IH]; [done|]. simpl. by apply keeps_core_bind. Qed.

Lemma keeps_core_browser channel message : keeps_core (atom_send_terminal_to_browser channel message).
Proof.
  intros s. unfold atom_send_terminal_to_browser, ProxyState.try_send. by repeat case_match.
Qed.

Lemma keeps_core_stream channel frame : keeps_core (atom_send_stream channel frame).
Proof. intros s. unfold atom_send_stream, effect. simpl. by case_bool_decide. Qed.

Lemma keeps_core_close ws id reason : keeps_core (close_server_sessions ws id reason).
Proof.
  unfold close_server_sessions. apply keeps_core_bind; [done|]. intros l.
  apply keeps_core_bind; [apply keeps_core_each; intros t; apply keeps_core_browser|]. intros _.
  unfold close_server_network_streams. apply keeps_core_bind; [done|]. intros streams.
  apply keeps_core_each. intros kc. apply keeps_core_stream.
Qed.

Lemma keeps_core_notify event : keeps_core (notify_opt event).
Proof. by destruct event. Qed.

(** The machine is known, not connected to this Proxy, and no later entry of its lease was seen. *)
Definition follows (ws id : string) (revision : Z) (s : Proxy) : Prop :=
  in_connections (px_inner s) !! (ws, id) = None
  /\ (exists w server, in_workspaces (px_inner s) !! ws = Some w /\ w_servers w !! id = Some server)
  /\ (forall r t, in_leases (px_inner s) !! (ws, id) = Some (r, t) -> r <= revision).

Definition online_in (ws id : string) (s : Proxy) : option bool :=
  in_workspaces (px_inner s) !! ws ≫= fun w => is_online <$> w_servers w !! id.

(** Both properties depend on the core only. *)
Lemma follows_core ws id revision s s' : core s' = core s -> follows ws id revision s -> follows ws id revision s'.
Proof. unfold core, follows. intros [= -> -> ->]. done. Qed.
Lemma online_core ws id s s' : core s' = core s -> online_in ws id s' = online_in ws id s.
Proof. unfold core, online_in. by intros [= -> _ _]. Qed.

Lemma follows_new_lease ws id revision entry s :
  follows ws id revision s -> entry.1 = revision ->
  follows ws id revision
    (mkProxy (set_in_leases (px_inner s) (<[(ws, id) := entry]> (in_leases (px_inner s)))) (px_world s)).
Proof.
  intros (H1 & H2 & H3) He. split_and!; [done..|]. simpl. intros r t. rewrite lookup_insert_eq. intros [= ->].
  simpl in He. lia.
Qed.

(** The locked part of both handlers: the status of a known machine. *)
Lemma follows_status ws id revision status now w server s :
  follows ws id revision s -> in_workspaces (px_inner s) !! ws = Some w -> w_servers w !! id = Some server ->
  let s' := mkProxy (set_in_workspaces (px_inner s)
              (<[ws := bump (set_server_status id status now w)]> (in_workspaces (px_inner s)))) (px_world s) in
  follows ws id revision s' /\ online_in ws id s' = Some (bool_decide (status = Online)).
Proof.
  intros (H1 & _ & H3) Hw Hs. cbv zeta. split.
  - split_and!; [done| |done]. exists (bump (set_server_status id status now w)), (server_with_status server status now).
    simpl. rewrite lookup_insert_eq, lookup_alter_eq, Hs. done.
  - unfold online_in. simpl. rewrite lookup_insert_eq. simpl. by rewrite lookup_alter_eq, Hs.
Qed.

Lemma lease_not_newer ws id revision s :
  follows ws id revision s -> is_some_and (in_leases (px_inner s) !! (ws, id)) (fun l => revision <? l.1) = false.
Proof.
  intros (_ & _ & H). destruct (in_leases (px_inner s) !! (ws, id)) as [[r t]|] eqn:E; [|done]. simpl.
  specialize (H r t eq_refl). apply Z.ltb_ge. lia.
Qed.

Lemma note_follows ws id revision now s :
  follows ws id revision s ->
  follows ws id revision (note_cluster_lease ws id revision now s).2
  /\ online_in ws id (note_cluster_lease ws id revision now s).2 = Some true.
Proof.
  intros Hf. destruct (note_cluster_lease ws id revision now s) as [r s'] eqn:E. cbn [snd].
  unfold note_cluster_lease, st_bind, atom_note_lease in E. pose proof (lease_not_newer _ _ _ _ Hf) as Hn.
  unfold ServerKey in *. rewrite Hn in E. cbn [negb] in E.
  match type of E with context [atom_mark_online _ _ _ ?x] =>
    assert (follows ws id revision x) as H1 by (by apply (follows_new_lease ws id revision (revision, Some now)));
    revert H1 E; generalize x; intros s1 H1 E end.
  pose proof H1 as (Hc & (w & server & Hw & Hs) & Hl). unfold atom_mark_online in E. rewrite Hw, Hs in E.
  destruct (is_online server) eqn:Ho; injection E as <- <-.
  - split; [done|]. unfold online_in. rewrite Hw. simpl. rewrite Hs. simpl. by rewrite Ho.
  - by apply (follows_status _ _ _ Online now w server).
Qed.

Lemma disconnect_follows ws id revision now s :
  follows ws id revision s ->
  follows ws id revision (apply_cluster_disconnect ws id revision now s).2
  /\ online_in ws id (apply_cluster_disconnect ws id revision now s).2 = Some false.
Proof.
  intros Hf. destruct (apply_cluster_disconnect ws id revision now s) as [r s'] eqn:E. cbn [snd].
  unfold apply_cluster_disconnect in E. unfold st_bind at 1 in E. unfold server_outgoing in E.
  assert (in_connections (px_inner s) !! (ws, id) = None) as Hnone by apply Hf.
  pose proof (lease_not_newer _ _ _ _ Hf) as Hn. unfold ServerKey, gets in *.
  rewrite Hnone in E. cbn [fmap option_fmap option_map is_some] in E.
  unfold st_bind at 1 in E. unfold atom_end_lease in E. unfold ServerKey in E. rewrite Hn in E. cbn [negb] in E.
  unfold st_bind at 1 in E.
  match type of E with context [atom_mark_offline _ _ _ ?x] =>
    assert (follows ws id revision x) as H1 by (by apply (follows_new_lease ws id revision (revision, None)));
    revert H1 E; generalize x; intros s1 H1 E end.
  pose proof H1 as (Hc & (w & server & Hw & Hs) & Hl).
  unfold atom_mark_offline in E. rewrite Hw, Hs in E.
  assert (forall event s2, follows ws id revision s2 -> online_in ws id s2 = Some false ->
    (notify_opt event ;! close_server_sessions ws id "agent server disconnected") s2 = (r, s') ->
    follows ws id revision s' /\ online_in ws id s' = Some false) as Htail.
  { intros event s2 Hf2 Ho2 E2.
    assert (keeps_core (notify_opt event ;! close_server_sessions ws id "agent server disconnected")) as Hk
      by (apply keeps_core_bind; [apply keeps_core_notify|intros _; apply keeps_core_close]).
    specialize (Hk s2). rewrite E2 in Hk. cbn [snd] in Hk. split; [by eapply follows_core|by rewrite (online_core ws id _ _ Hk)]. }
  destruct (is_online server) eqn:Ho; cbn [negb] in E.
  - destruct (follows_status ws id revision Offline now w server s1 H1 Hw Hs) as [Hf2 Ho2]. by eapply Htail.
  - eapply Htail; [done| |done]. unfold online_in. rewrite Hw. simpl. rewrite Hs. simpl. by rewrite Ho.
Qed.

Lemma on_lease_follows ws id e now s :
  wt_key e = server_key ws id -> decode_server_key (server_key ws id) = Some (ws, id) ->
  follows ws id (en_revision (wt_entry e)) s ->
  follows ws id (en_revision (wt_entry e)) (on_lease e now s).2
  /\ online_in ws id (on_lease e now s).2 = Some (is_put (wt_entry e)).
Proof.
  intros Hk Hdec Hf. unfold on_lease. rewrite Hk, Hdec.
  destruct (is_put (wt_entry e)); [by apply note_follows|by apply disconnect_follows].
Qed.

Lemma follows_later ws id r r' s : r <= r' -> follows ws id r s -> follows ws id r' s.
Proof. intros Hr (H1 & H2 & H3). split_and!; [done..|]. intros x t Hx. specialize (H3 x t Hx). lia. Qed.

Context {Laws : Base64Laws}.

(** C34: a replica follows the lease: after the watch delivered any number of entries of a
    machine's lease in the order of their revisions, the replica shows the machine as online just
    when the last entry is a live lease. *)
Theorem replica_follows_lease ws id entries last now s :
  valid_utf8 ws = true -> valid_utf8 id = true ->
  Forall (fun en => wt_key en.1 = server_key ws id) (entries ++ [(last, now)]) ->
  StronglySorted Z.le ((fun en : Watched * Time => en_revision (wt_entry en.1)) <$> (entries ++ [(last, now)])) ->
  (forall en, head (entries ++ [(last, now)]) = Some en -> follows ws id (en_revision (wt_entry en.1)) s) ->
  online_in ws id (watch_leases (entries ++ [(last, now)]) s) = Some (is_put (wt_entry last)).
Proof.
  intros Hw Hi. pose proof (decode_server_key_key ws id Hw Hi) as Hdec.
  revert s. induction entries as [|[e t] entries IH]; intros s Hkey Hsort Hfirst.
  - simpl. apply Forall_cons in Hkey as [Hkey _]. apply (on_lease_follows ws id last now s Hkey Hdec (Hfirst (last, now) eq_refl)).
  - simpl in *. apply Forall_cons in Hkey as [Hk Hkey]. apply StronglySorted_inv in Hsort as [Hsort Hle].
    destruct (on_lease_follows ws id e t s Hk Hdec (Hfirst _ eq_refl)) as [Hf _].
    apply IH; [done|done|]. intros en Hen. eapply follows_later; [|exact Hf].
    destruct (entries ++ [(last, now)]) as [|en' l]; simplify_eq/=. by apply Forall_cons in Hle as [Hle _].
Qed.

End Loops.

(** ** A machine that leaves and returns *)

Definition lease_entry_of (op : Operation) (revision : Z) : Watched :=
  mkWatched (server_key "ws" "m1") (mkEntry op [] revision).
Definition knows_machine : Proxy :=
  (apply_cluster_snapshot
     (mkClusterServerSnapshot (mkConnectionOwner "b" "1") 1
        (mkAgentServerSnapshot
           (mkServerInfo "m1" "ws" "machine" "host" "/root" (mkBuildInfo "1" "a") (mkBuildInfo "1" "a") None ∅ None
              Offline 0 0 []) [])) 0 proxy_new).2.

Lemma replica_follows_lease_witness :
  online_in "ws" "m1"
    (watch_leases ([(lease_entry_of OpPut 2, 1); (lease_entry_of OpDelete 3, 2)] ++ [(lease_entry_of OpPut 4, 3)])
       knows_machine) = Some true.
Proof.
  apply (replica_follows_lease "ws" "m1" [(lease_entry_of OpPut 2, 1); (lease_entry_of OpDelete 3, 2)]
           (lease_entry_of OpPut 4) 3 knows_machine).
  - reflexivity.
  - reflexivity.
  - repeat constructor.
  - cbn. repeat constructor; lia.
  - intros en [= <-]. split_and!.
    + vm_compute. reflexivity.
    + eexists _, _. split; vm_compute; reflexivity.
    + intros r t H. vm_compute in H. discriminate H.
Defined.
