(* ===== verification/MachineFile.v ===== *)
(** * Root-relative files (crates/treer-platform/src/machine_file.rs, Unix)

    The boundary every file transfer goes through: portable path validation, the reserved
    namespace, a root whose directories are opened one component at a time without following
    symbolic links, and staged files that are published atomically.

    System calls are the operations of the class [Posix]; [PosixLaws] states what their
    documentation promises about directory entries.  A file handle is the device and inode it
    refers to.  Unicode normalization and upper-casing is the parameter [reserved_name].
    Functions that call the system are in [StM Fs], which keeps the file system on an error. *)

From S2P Require Import Prelude RustStr.
Local Open Scope Z_scope.

(** ** [std::io::Error] *)

Inductive ErrorKind : Type :=
| AlreadyExists | NotFound | PermissionDenied | InvalidInput | Unsupported | OtherKind.
#[export] Instance ErrorKind_eq_dec : EqDecision ErrorKind.
Proof. solve_decision. Defined.

(** [io_uncertain]: the error wraps [PublishedButUnconfirmed]. *)
Record IoError : Type := mkIoError { io_kind : ErrorKind; io_uncertain : bool }.

Definition io_error (kind : ErrorKind) : IoError := mkIoError kind false.
Definition publication_uncertain : IoError := mkIoError OtherKind true.
Definition is_publication_uncertain (error : IoError) : bool := io_uncertain error.
Definition protected_error : IoError := io_error PermissionDenied.

(** ** Portable paths *)

Definition starts_with_digit (s : string) : bool :=
  match s with String a _ => between 48 (byte_val a) 57 | EmptyString => false end.

Definition quote : string := String (Ascii.ascii_of_N 34) EmptyString.
Definition forbidden_char (c : string) : bool :=
  is_control c || bool_decide (c ∈ ["\"; ":"; "<"; ">"; quote; "|"; "?"; "*"]%string).

Definition device_names : list string := ["CON"; "PRN"; "AUX"; "NUL"; "CLOCK$"; "CONIN$"; "CONOUT$"]%string.
Definition device_suffixes : list string :=
  ["1"; "2"; "3"; "4"; "5"; "6"; "7"; "8"; "9"; "¹"; "²"; "³"]%string.

Definition numbered_device (base prefix : string) : bool :=
  is_some_and (strip_prefix prefix base) (fun suffix => bool_decide (suffix ∈ device_suffixes)).

(** The closure of [validate_relative_path]: is the component one of those refused? *)
Definition invalid_part (part : string) : bool :=
  let base := to_ascii_uppercase (default EmptyString (head (split_on "." part))) in
  is_empty part
  || ends_with_char " " base
  || (part =s ".") || (part =s "..")
  || (255 <? str_len part)
  || (ends_with_char "." part || ends_with_char " " part)
  || existsb forbidden_char (chars part)
  || bool_decide (base ∈ device_names)
  || existsb (numbered_device base) ["COM"; "LPT"]%string
  || is_some_and (split_once "~" part) (fun '(_, tail) => starts_with_digit tail).

Definition validate_relative_path (path : string) : Result (list string) IoError :=
  let parts := split_on slash path in
  if (4096 <? str_len path) || (128 <? Z.of_nat (length parts)) || existsb invalid_part parts
  then Err (io_error InvalidInput)
  else Ok parts.

Definition validate_mode (mode : Z) : Result unit IoError :=
  if negb (Z.land mode (Z.lnot 511) =? 0) || negb (Z.land mode 18 =? 0)
  then Err (io_error InvalidInput)
  else Ok tt.

(** ** System calls *)

Inductive Errno : Type := NOENT | EXIST | ACCES | PERM | INVAL | NOSYS | NOTSUP | OtherErrno (n : Z).
#[export] Instance Errno_eq_dec : EqDecision Errno.
Proof. solve_decision. Defined.

(** [From<Errno> for io::Error], by the kind the standard library gives each code. *)
Definition io_of_errno (e : Errno) : IoError :=
  io_error
    match e with
    | NOENT => NotFound | EXIST => AlreadyExists | ACCES | PERM => PermissionDenied
    | INVAL => InvalidInput | NOSYS | NOTSUP => Unsupported | OtherErrno _ => OtherKind
    end.

Record Identity : Type := mkIdentity { id_device : Z; id_inode : Z }.
#[export] Instance Identity_eq_dec : EqDecision Identity.
Proof. solve_decision. Defined.

Inductive FileType : Type := RegularFile | Directory | OtherType.
#[export] Instance FileType_eq_dec : EqDecision FileType.
Proof. solve_decision. Defined.

Record Stat : Type := mkStat {
  st_id : Identity; st_type : FileType; st_perm : Z; st_uid : Z; st_nlink : Z
}.

(** The calls the code makes.  Directories are opened with [O_DIRECTORY | O_NOFOLLOW], entries
    examined with [AT_SYMLINK_NOFOLLOW], staging files created with [O_CREAT | O_EXCL].
    [sys_child] is not a call: it is the file a name stands for in a directory. *)
Class Posix (Fs : Type) : Type := {
  sys_child : Fs -> Identity -> string -> option Identity;
  sys_type : Fs -> Identity -> option FileType;
  sys_open_root : string -> StM Fs Identity Errno;
  sys_open_path : list string -> StM Fs Identity Errno;
  sys_dup : Identity -> StM Fs Identity Errno;
  sys_open_dir : Identity -> string -> StM Fs Identity Errno;
  sys_open_read : Identity -> string -> StM Fs Identity Errno;
  sys_create : Identity -> string -> StM Fs Identity Errno;
  sys_mkdir : Identity -> string -> StM Fs unit Errno;
  sys_fstat : Identity -> StM Fs Stat Errno;
  sys_statat : Identity -> string -> StM Fs Stat Errno;
  sys_fchmod : Identity -> Z -> StM Fs unit Errno;
  sys_fsync : Identity -> StM Fs unit Errno;
  sys_flush : Identity -> StM Fs unit Errno;
  sys_available : Identity -> StM Fs Z Errno;
  sys_rename : Identity -> string -> string -> StM Fs unit Errno;
  sys_rename_noreplace : Identity -> string -> string -> StM Fs unit Errno;
  sys_link : Identity -> string -> string -> StM Fs unit Errno;
  sys_unlink : Identity -> string -> StM Fs unit Errno;
  sys_euid : Z
}.

(** A call that changes no directory entry and no type. *)
Definition quiet `{Posix Fs} {A} (m : StM Fs A Errno) : Prop :=
  forall fs, (forall d n, sys_child (m fs).2 d n = sys_child fs d n)
             /\ (forall i, sys_type (m fs).2 i = sys_type fs i).

(** A call that changes only some names of the directory [d]. *)
Definition only_names `{Posix Fs} {A} (m : StM Fs A Errno) (d : Identity) (names : list string) : Prop :=
  forall fs d' n, d' <> d \/ n ∉ names -> sys_child (m fs).2 d' n = sys_child fs d' n.

(** A failed call changes nothing. *)
Definition all_or_nothing `{Posix Fs} {A} (m : StM Fs A Errno) : Prop :=
  forall fs e fs', m fs = (Err e, fs') ->
    (forall d n, sys_child fs' d n = sys_child fs d n) /\ (forall i, sys_type fs' i = sys_type fs i).

Class PosixLaws (Fs : Type) `{Posix Fs} : Prop := {
  dup_quiet d : quiet (sys_dup d);
  dup_same d fs i fs' : sys_dup d fs = (Ok i, fs') -> i = d;
  open_root_quiet path : quiet (sys_open_root path);
  open_path_quiet path : quiet (sys_open_path path);
  open_dir_quiet d n : quiet (sys_open_dir d n);
  open_dir_found d n fs i fs' :
    sys_open_dir d n fs = (Ok i, fs') -> sys_child fs d n = Some i /\ sys_type fs i = Some Directory;
  fstat_quiet i : quiet (sys_fstat i);
  fstat_same i fs st fs' : sys_fstat i fs = (Ok st, fs') -> st_id st = i;
  statat_quiet d n : quiet (sys_statat d n);
  statat_found d n fs st fs' :
    sys_statat d n fs = (Ok st, fs') ->
    sys_child fs d n = Some (st_id st) /\ sys_type fs (st_id st) = Some (st_type st);
  statat_missing d n fs fs' : sys_statat d n fs = (Err NOENT, fs') -> sys_child fs d n = None;
  create_names d n : only_names (sys_create d n) d [n];
  create_fails d n : all_or_nothing (sys_create d n);
  create_new d n fs i fs' :
    sys_create d n fs = (Ok i, fs') ->
    sys_child fs d n = None /\ sys_child fs' d n = Some i /\ sys_type fs' i = Some RegularFile
    /\ (forall d' n', sys_child fs d' n' <> Some i)
    /\ (forall j, j <> i -> sys_type fs' j = sys_type fs j);
  fchmod_quiet i mode : quiet (sys_fchmod i mode);
  fsync_quiet i : quiet (sys_fsync i);
  flush_quiet i : quiet (sys_flush i);
  rename_names d o n : only_names (sys_rename d o n) d [o; n];
  rename_fails d o n : all_or_nothing (sys_rename d o n);
  rename_done d o n fs fs' :
    sys_rename d o n fs = (Ok tt, fs') -> sys_child fs' d n = sys_child fs d o /\ is_Some (sys_child fs d o);
  noreplace_names d o n : only_names (sys_rename_noreplace d o n) d [o; n];
  noreplace_fails d o n : all_or_nothing (sys_rename_noreplace d o n);
  noreplace_done d o n fs fs' :
    sys_rename_noreplace d o n fs = (Ok tt, fs') ->
    sys_child fs d n = None /\ sys_child fs' d n = sys_child fs d o /\ is_Some (sys_child fs d o);
  link_names d o n : only_names (sys_link d o n) d [n];
  link_fails d o n : all_or_nothing (sys_link d o n);
  link_done d o n fs fs' :
    sys_link d o n fs = (Ok tt, fs') ->
    sys_child fs d n = None /\ sys_child fs' d n = sys_child fs d o /\ is_Some (sys_child fs d o);
  unlink_names d n : only_names (sys_unlink d n) d [n];
  unlink_fails d n : all_or_nothing (sys_unlink d n);
  unlink_done d n fs fs' : sys_unlink d n fs = (Ok tt, fs') -> sys_child fs' d n = None
}.

(** [sys::call(..)?] in a function that returns [io::Result]. *)
Definition sys {Fs A} (m : StM Fs A Errno) : StM Fs A IoError := st_map_err io_of_errno m.

(** ** The reserved namespace *)

Section Reserved.
Context (reserved_name : string -> string).

Definition reserved_part (part : string) : bool :=
  let name := reserved_name part in
  (name =s ".TREER") || starts_with ".TREER-TRANSFER-" name.

Definition is_reserved_namespace (path : string) : Result bool IoError :=
  let? parts := validate_relative_path path in Ok (existsb reserved_part parts).

Section Calls.
Context {Fs : Type} `{Posix Fs}.

(** [reserved_parent]: the first existing directory above a path and the name missing in it.
    The path is given by its components, last first. *)
Fixpoint reserved_parent (rev_path : list string) : StM Fs (Identity * string) IoError :=
  match rev_path with
  | [] => st_throw (io_error InvalidInput)
  | name :: parent =>
      fun fs =>
        match sys_open_path (rev parent) fs with
        | (Ok file, fs') =>
            if name =s ".." then (Err (io_error InvalidInput), fs')
            else (Ok (file, reserved_name name), fs')
        | (Err NOENT, fs') => reserved_parent parent fs'
        | (Err error, fs') => (Err (io_of_errno error), fs')
        end
  end.

(** ** [Root] *)

Record Root : Type := mkRoot {
  root_file : Identity;
  root_device : Z;
  root_protected : list Identity;
  root_allow_mounts : bool;
  root_reserved_names : list (Identity * string)
}.

Definition identity (file : Identity) : StM Fs Identity IoError :=
  let! st := sys (sys_fstat file) in st_ret (st_id st).

Fixpoint identities (files : list Identity) : StM Fs (list Identity) IoError :=
  match files with
  | [] => st_ret []
  | file :: files' =>
      let! i := identity file in let! ids := identities files' in st_ret (i :: ids)
  end.

Definition root_open (root : string) (protected_files : list Identity) : StM Fs Root IoError :=
  let! file := sys (sys_open_root root) in
  let! id := identity file in
  let! protected := identities protected_files in
  let! protected := (fun fs =>
    match sys_open_dir file ".treer" fs with
    | (Ok fd, fs') => (let! i := identity fd in st_ret (protected ++ [i])) fs'
    | (Err NOENT, fs') => (Ok protected, fs')
    | (Err error, fs') => (Err (io_of_errno error), fs')
    end) in
  st_ret (mkRoot file (id_device id) protected false []).

Definition reserve_path (root : Root) (rev_path : list string) : StM Fs Root IoError :=
  let! pn := reserved_parent rev_path in
  let! i := identity pn.1 in
  st_ret (mkRoot (root_file root) (root_device root) (root_protected root) (root_allow_mounts root)
            (root_reserved_names root ++ [(i, pn.2)])).

Definition available_bytes (root : Root) : StM Fs Z IoError := sys (sys_available (root_file root)).

Definition check (root : Root) (file : Identity) : StM Fs unit IoError :=
  let! id := identity file in
  if negb (root_allow_mounts root) && negb (id_device id =? root_device root)
  then st_throw (io_error PermissionDenied)
  else if bool_decide (id ∈ root_protected root) then st_throw protected_error
  else st_ret tt.

(** The walk of [parent] over the components; the last one is a name, not opened. *)
Fixpoint parent_walk (root : Root) (directory : Identity) (parts : list string)
    : StM Fs (Identity * string) IoError :=
  match parts with
  | [] => st_throw (io_error InvalidInput)
  | component :: rest =>
      let! id := identity directory in
      if bool_decide ((id, reserved_name component) ∈ root_reserved_names root)
      then st_throw protected_error
      else
        match rest with
        | [] => st_ret (directory, component)
        | _ =>
            let! directory' := sys (sys_open_dir directory component) in
            check root directory' ;!
            parent_walk root directory' rest
        end
  end.

Definition root_parent (root : Root) (path : string) : StM Fs (Identity * string) IoError :=
  let! parts := st_lift (validate_relative_path path) in
  let! reserved := st_lift (is_reserved_namespace path) in
  if reserved then st_throw protected_error
  else
    let! directory := sys (sys_dup (root_file root)) in
    check root directory ;!
    parent_walk root directory parts.

(** [check_target], repeated word for word in [StagedFile::commit]. *)
Definition check_target (protected : list Identity) (parent : Identity) (name : string)
    : StM Fs unit IoError := fun fs =>
  match sys_statat parent name fs with
  | (Ok st, fs') =>
      if negb (bool_decide (st_type st = RegularFile)) then (Err (io_error InvalidInput), fs')
      else if bool_decide (st_id st ∈ protected) then (Err protected_error, fs')
      else (Ok tt, fs')
  | (Err NOENT, fs') => (Ok tt, fs')
  | (Err error, fs') => (Err (io_of_errno error), fs')
  end.

Definition validate_target (root : Root) (path : string) : StM Fs unit IoError :=
  let! pn := root_parent root path in check_target (root_protected root) pn.1 pn.2.

(** One turn of the loop of [transfer_journal]. *)
Definition journal_directory (root : Root) (directory : Identity) (name : string) (mask : Z)
    : StM Fs Identity IoError :=
  (fun fs => match sys_mkdir directory name fs with
             | (Ok _, fs') | (Err EXIST, fs') => (Ok tt, fs')
             | (Err error, fs') => (Err (io_of_errno error), fs')
             end) ;!
  let! directory' := sys (sys_open_dir directory name) in
  let! st := sys (sys_fstat directory') in
  let! id := identity directory' in
  if negb (id_device id =? root_device root) || negb (st_uid st =? sys_euid)
     || negb (Z.land (st_perm st) mask =? 0)
  then st_throw protected_error
  else st_ret directory'.

Definition transfer_journal (root : Root) : StM Fs Root IoError :=
  let! directory := sys (sys_dup (root_file root)) in
  let! directory := journal_directory root directory ".treer" 18 in
  let! directory := journal_directory root directory "file-transfers" 63 in
  st_ret (mkRoot directory (root_device root) [] false []).

Definition root_read (root : Root) (path : string) : StM Fs Identity IoError :=
  let! pn := root_parent root path in
  let! file := sys (sys_open_read pn.1 pn.2) in
  let! st := sys (sys_fstat file) in
  if negb (bool_decide (st_type st = RegularFile)) || negb (st_nlink st =? 1)
  then st_throw (io_error InvalidInput)
  else check root file ;! st_ret file.

Definition cleanup_staging (root : Root) (path temporary_name : string) : StM Fs unit IoError :=
  let! parts := st_lift (validate_relative_path temporary_name) in
  if negb (Z.of_nat (length parts) =? 1)
     || negb (starts_with ".treer-transfer-xfer_" temporary_name
              || starts_with ".treer-transfer-upl_" temporary_name)
  then st_throw protected_error
  else
    let! pn := root_parent root path in
    fun fs =>
      match sys_statat pn.1 temporary_name fs with
      | (Ok st, fs') =>
          if negb (bool_decide (st_type st = RegularFile)) || bool_decide (st_id st ∈ root_protected root)
          then (Err protected_error, fs')
          else (sys (sys_unlink pn.1 temporary_name) ;! sys (sys_fsync pn.1)) fs'
      | (Err NOENT, fs') => (Ok tt, fs')
      | (Err error, fs') => (Err (io_of_errno error), fs')
      end.

(** ** [StagedFile] *)

Record StagedFile : Type := mkStagedFile {
  sf_parent : Identity;
  sf_file : Identity;
  sf_name : string;
  sf_temporary_name : string;
  sf_final_mode : Z;
  sf_root : Root;
  sf_path : string
}.

(** [Drop]: the staging name is removed unless it was installed; a failure is ignored. *)
Definition staged_drop (staged : StagedFile) (installed : bool) (fs : Fs) : Fs :=
  if installed then fs else (sys_unlink (sf_parent staged) (sf_temporary_name staged) fs).2.

Definition stage (root : Root) (path temporary_name : string) (mode : Z) : StM Fs StagedFile IoError :=
  st_lift (validate_mode mode) ;!
  let! names := st_lift (validate_relative_path temporary_name) in
  if negb (Z.of_nat (length names) =? 1) || negb (starts_with ".treer-transfer-" temporary_name)
  then st_throw (io_error InvalidInput)
  else
    let! pn := root_parent root path in
    check_target (root_protected root) pn.1 pn.2 ;!
    let! file := sys (sys_create pn.1 temporary_name) in
    let staged := mkStagedFile pn.1 file pn.2 temporary_name mode root path in
    fun fs =>
      match sys_fchmod file 384 fs with
      | (Ok _, fs') => (Ok staged, fs')
      | (Err error, fs') => (Err (io_of_errno error), staged_drop staged false fs')
      end.

(** The publication proper, by the kind of replacement; [linux] is [cfg(target_os = "linux")].
    The second component says whether [installed] was set. *)
Definition install (linux : bool) (staged : StagedFile) (overwrite : bool) : StM Fs unit IoError :=
  let parent := sf_parent staged in
  let temporary := sf_temporary_name staged in
  let name := sf_name staged in
  if overwrite then sys (sys_rename parent temporary name)
  else
    let! renamed := (fun fs =>
      if linux then
        match sys_rename_noreplace parent temporary name fs with
        | (Ok _, fs') => (Ok true, fs')
        | (Err (NOSYS | INVAL | NOTSUP), fs') => (Ok false, fs')
        | (Err error, fs') => (Err (io_of_errno error), fs')
        end
      else (Ok false, fs)) in
    if renamed then st_ret tt
    else
      sys (sys_link parent temporary name) ;!
      st_map_err (fun _ => publication_uncertain) (sys_unlink parent temporary).

(** [commit] up to the point where [installed] is set. *)
Definition commit_checks (staged : StagedFile) : StM Fs unit IoError :=
  let root := sf_root staged in
  let! file := sys (sys_dup (root_file root)) in
  let! cn := root_parent (mkRoot file (root_device root) (root_protected root) (root_allow_mounts root)
                            (root_reserved_names root)) (sf_path staged) in
  let! current := identity cn.1 in
  let! held := identity (sf_parent staged) in
  if negb (bool_decide (current = held)) then st_throw protected_error
  else
    check_target (root_protected root) (sf_parent staged) (sf_name staged) ;!
    sys (sys_flush (sf_file staged)) ;!
    sys (sys_fchmod (sf_file staged) (sf_final_mode staged)) ;!
    sys (sys_fsync (sf_file staged)).

Definition staged_commit (linux : bool) (staged : StagedFile) (overwrite : bool) : StM Fs unit IoError :=
  fun fs =>
    match (commit_checks staged ;! install linux staged overwrite) fs with
    | (Ok _, fs') =>
        st_map_err (fun _ => publication_uncertain) (sys_fsync (sf_parent staged)) fs'
    | (Err error, fs') => (Err error, staged_drop staged false fs')
    end.
End Calls.
End Reserved.
