(* ===== verification/MachineFileFacts.v ===== *)
(** * Facts about root-relative files

    Publication stays inside the root, is all or nothing, and reports which of the two it was. *)

From S2P Require Import Prelude RustStr MachineFile.
Local Open Scope Z_scope.

Section Facts.
Context (reserved_name : string -> string).
Context {Fs : Type} `{PosixLaws Fs}.
Implicit Types (fs : Fs) (root : Root) (staged : StagedFile).

(** ** Calls that change no name *)

Definition same fs fs' : Prop :=
  (forall d n, sys_child fs' d n = sys_child fs d n) /\ (forall i, sys_type fs' i = sys_type fs i).

#[global] Instance same_equiv : Equivalence same.
Proof.
  split.
  - by split.
  - intros x y [H1 H2]. split; intros; by rewrite ?H1, ?H2.
  - intros x y z [H1 H2] [H3 H4]. split; intros; by rewrite ?H3, ?H4, ?H1, ?H2.
Qed.

(** The errors of such a call do not claim a publication. *)
Definition keeps {A} (m : StM Fs A IoError) : Prop :=
  forall fs, same fs (m fs).2 /\ (forall e, (m fs).1 = Err e -> is_publication_uncertain e = false).

Lemma keeps_run {A} (m : StM Fs A IoError) fs r fs' : keeps m -> m fs = (r, fs') -> same fs fs'.
Proof. intros Hm E'. destruct (Hm fs) as [Hs _]. by rewrite E' in Hs. Qed.
Lemma keeps_error {A} (m : StM Fs A IoError) fs e fs' :
  keeps m -> m fs = (Err e, fs') -> is_publication_uncertain e = false.
Proof. intros Hm E'. destruct (Hm fs) as [_ He]. rewrite E' in He. by apply He. Qed.

Lemma fs_keeps_ret {A} (a : A) : keeps (st_ret a).
Proof. intros fs. by split. Qed.
Lemma fs_keeps_throw {A} (k : ErrorKind) : keeps (st_throw (A:=A) (io_error k)).
Proof. intros fs. split; [done|]. by intros e [= <-]. Qed.
Lemma keeps_protected {A} : keeps (st_throw (A:=A) protected_error).
Proof. apply fs_keeps_throw. Qed.
Lemma fs_keeps_lift {A} (r : Result A IoError) :
  (forall e, r = Err e -> is_publication_uncertain e = false) -> keeps (st_lift r).
Proof. intros Hr fs. split; [done|exact Hr]. Qed.
Lemma fs_keeps_bind {A B} (m : StM Fs A IoError) (k : A -> StM Fs B IoError) :
  keeps m -> (forall a, keeps (k a)) -> keeps (st_bind m k).
Proof.
  intros Hm Hk fs. unfold st_bind. destruct (Hm fs) as [Hs He]. destruct (m fs) as [[a|e] fs1].
  - destruct (Hk a fs1). simpl in *. split; [by transitivity fs1|done].
  - split; [exact Hs|]. intros e' [= <-]. by apply He.
Qed.
Lemma keeps_sys {A} (m : StM Fs A Errno) : quiet m -> keeps (sys m).
Proof.
  intros Hm fs. unfold sys, st_map_err. specialize (Hm fs).
  destruct (m fs) as [[a|e] fs1]; (split; [done|]); simpl; [done|]. by intros ? [= <-].
Qed.
Lemma validate_error path e :
  validate_relative_path path = Err e -> is_publication_uncertain e = false.
Proof. unfold validate_relative_path. case_match; naive_solver. Qed.
Lemma reserved_error path e :
  is_reserved_namespace reserved_name path = Err e -> is_publication_uncertain e = false.
Proof.
  unfold is_reserved_namespace. destruct (validate_relative_path path) eqn:E; simpl; [done|].
  intros [= <-]. by eapply validate_error.
Qed.

Hint Resolve fs_keeps_ret fs_keeps_throw keeps_protected fs_keeps_lift keeps_sys validate_error reserved_error dup_quiet open_dir_quiet fstat_quiet
  statat_quiet fchmod_quiet fsync_quiet flush_quiet : files.

Lemma identity_keeps i : keeps (identity i).
Proof. apply fs_keeps_bind; intros; auto with files. Qed.
Hint Resolve identity_keeps : files.

Ltac keep := repeat
  lazymatch goal with
  | |- keeps (st_bind _ _) => apply fs_keeps_bind; [|intros ?]
  | |- keeps (if ?b then _ else _) => destruct b
  | |- keeps (match ?l with _ => _ end) => destruct l
  | |- keeps _ => solve [eauto with files]
  end.

Lemma check_keeps root i : keeps (check root i).
Proof. unfold check. keep. Qed.
Hint Resolve check_keeps : files.

Lemma parent_walk_keeps root d parts : keeps (parent_walk reserved_name root d parts).
Proof.
  revert d. induction parts as [|c rest IH]; intros d; simpl; [auto with files|]. keep.
Qed.
Hint Resolve parent_walk_keeps : files.

Lemma root_parent_keeps root path : keeps (root_parent reserved_name root path).
Proof. unfold root_parent. keep. Qed.

Lemma check_target_keeps protected d n : keeps (check_target protected d n).
Proof.
  intros fs. unfold check_target. pose proof (statat_quiet d n fs) as Hq.
  destruct (sys_statat d n fs) as [[st|[]] fs']; repeat case_match; simpl in *; split; naive_solver.
Qed.
Hint Resolve root_parent_keeps check_target_keeps : files.

Lemma commit_checks_keeps staged : keeps (commit_checks reserved_name staged).
Proof. unfold commit_checks. keep. Qed.

(** ** What the checks establish *)

Lemma sys_ok {A} (m : StM Fs A Errno) fs a fs' : sys m fs = (Ok a, fs') -> m fs = (Ok a, fs').
Proof. unfold sys, st_map_err. destruct (m fs) as [[] ]; simpl; naive_solver. Qed.

Lemma identity_ok i fs j fs' : identity i fs = (Ok j, fs') -> j = i.
Proof.
  intros (st & fs1 & E%sys_ok & [= <- <-])%st_bind_ok_iff. by eapply fstat_same.
Qed.

Definition admitted root (i : Identity) : Prop :=
  (root_allow_mounts root = true \/ id_device i = root_device root) /\ i ∉ root_protected root.

Lemma check_ok root i fs fs' : check root i fs = (Ok tt, fs') -> admitted root i.
Proof.
  intros (j & fs1 & ->%identity_ok & E)%st_bind_ok_iff. revert E.
  case_match eqn:E1; [done|]. case_bool_decide as E2; [done|]. intros _. split; [|done].
  destruct (root_allow_mounts root); [by left|right]. simpl in E1. lia.
Qed.

Lemma check_target_ok protected d n fs fs' i :
  check_target protected d n fs = (Ok tt, fs') -> sys_child fs d n = Some i ->
  sys_type fs i = Some RegularFile /\ i ∉ protected.
Proof.
  unfold check_target. destruct (sys_statat d n fs) as [[st|e] fs1] eqn:E.
  - apply statat_found in E as [-> Ht]. case_bool_decide as E1; [simpl|done].
    case_bool_decide as E2; [done|]. intros _ [= <-]. by rewrite Ht, E1.
  - intros E1 Hc. destruct e; try done. apply statat_missing in E. congruence.
Qed.

(** The directories a root reaches: component by component, through directories that are neither
    protected nor on another device, under names that are not reserved. *)
Inductive Inside root fs : list string -> Identity -> Prop :=
| inside_root : admitted root (root_file root) -> Inside root fs [] (root_file root)
| inside_child parts d n i :
    Inside root fs parts d ->
    invalid_part n = false -> reserved_part reserved_name n = false ->
    (d, reserved_name n) ∉ root_reserved_names root ->
    sys_child fs d n = Some i -> sys_type fs i = Some Directory -> admitted root i ->
    Inside root fs (parts ++ [n]) i.

Lemma inside_same root fs fs' parts i : same fs fs' -> Inside root fs parts i -> Inside root fs' parts i.
Proof.
  intros [H1 H2]. induction 1; [by constructor|]. econstructor; try done; by rewrite ?H1, ?H2.
Qed.

Definition fine_part (n : string) : Prop :=
  invalid_part n = false /\ reserved_part reserved_name n = false.

Lemma parent_walk_ok root d pre parts fs p n fs' :
  Inside root fs pre d -> Forall fine_part parts ->
  parent_walk reserved_name root d parts fs = (Ok (p, n), fs') ->
  exists mid, parts = mid ++ [n] /\ Inside root fs (pre ++ mid) p
              /\ (p, reserved_name n) ∉ root_reserved_names root.
Proof.
  revert d pre fs. induction parts as [|c rest IH]; intros d pre fs Hin Hp; simpl; [done|].
  apply Forall_cons in Hp as [[Hc1 Hc2] Hrest].
  intros (id & fs1 & E1 & E)%st_bind_ok_iff.
  pose proof (keeps_run _ _ _ _ (identity_keeps d) E1) as S1. apply identity_ok in E1 as ->.
  revert E. case_bool_decide as Hr; [done|]. destruct rest as [|c' rest].
  { intros [= -> -> ->]. exists []. rewrite app_nil_r. by split_and!. }
  intros (d' & fs2 & E2 & (u & fs3 & E3 & E4)%st_bind_ok_iff)%st_bind_ok_iff. destruct u.
  pose proof (keeps_run _ _ _ _ (keeps_sys _ (open_dir_quiet d c)) E2) as S2.
  pose proof (keeps_run _ _ _ _ (check_keeps root d') E3) as S3.
  apply sys_ok, open_dir_found in E2 as [Hch Hty]. apply check_ok in E3.
  assert (same fs fs3) as S by (by etrans; [|etrans]).
  destruct (IH d' (pre ++ [c]) fs3) as (mid & Hm & Hi & Hn); [|done|done|].
  { eapply inside_same; [exact S|]. destruct S1 as [S1a S1b]. rewrite S1a in Hch. rewrite S1b in Hty.
    by eapply inside_child. }
  exists (c :: mid). rewrite Hm. split_and!; [done| |done].
  rewrite <- app_assoc in Hi. eapply inside_same; [symmetry; exact S|exact Hi].
Qed.

Lemma validate_parts path parts : validate_relative_path path = Ok parts ->
  parts = split_on slash path /\ Forall (fun n => invalid_part n = false) parts.
Proof.
  unfold validate_relative_path. case_match eqn:E; [done|]. intros [= <-]. split; [done|].
  bool_hyps. apply Forall_forall. intros n Hn. apply not_true_is_false. intros Hb.
  assert (existsb invalid_part (split_on slash path) = true); [|congruence].
  apply existsb_elem. eauto.
Qed.

(** What a successful [parent] means. *)
Lemma root_parent_ok root path fs p n fs' :
  root_parent reserved_name root path fs = (Ok (p, n), fs') ->
  exists mid, validate_relative_path path = Ok (mid ++ [n]) /\ Inside root fs mid p
              /\ fine_part n /\ (p, reserved_name n) ∉ root_reserved_names root.
Proof.
  intros (parts & fs1 & [= Hv <-] & (res & fs2 & [= Hr <-] & E)%st_bind_ok_iff)%st_bind_ok_iff.
  destruct res; [done|].
  apply st_bind_ok_iff in E as (d & fs3 & E3 & (u & fs4 & E4 & E5)%st_bind_ok_iff). destruct u.
  pose proof (keeps_run _ _ _ _ (keeps_sys _ (dup_quiet _)) E3) as S3.
  pose proof (keeps_run _ _ _ _ (check_keeps _ _) E4) as S4.
  apply sys_ok, dup_same in E3 as ->. apply check_ok in E4.
  assert (Forall fine_part parts) as Hf.
  { apply validate_parts in Hv as Hf. destruct Hf as [_ Hf].
    unfold is_reserved_namespace in Hr. rewrite Hv in Hr. injection Hr as Hr.
    rewrite Forall_forall in Hf |- *. intros x Hx. split; [by apply Hf|].
    apply not_true_is_false. intros Hb. assert (existsb (reserved_part reserved_name) parts = true); [|congruence].
    apply existsb_elem. eauto. }
  destruct (parent_walk_ok root (root_file root) [] parts fs4 p n fs') as (mid & -> & Hi & Hn);
    [by constructor|done|done|].
  exists mid. split_and!; [done| |apply Forall_app in Hf as [_ Hf]; by inversion Hf|done].
  eapply inside_same; [|exact Hi]. symmetry. by etrans.
Qed.

(** ** Publication *)

(** The staged file is the one under its staging name. *)
Definition holds_staging fs staged : Prop :=
  sys_child fs (sf_parent staged) (sf_temporary_name staged) = Some (sf_file staged)
  /\ sf_name staged <> sf_temporary_name staged.

Definition target fs staged : option Identity := sys_child fs (sf_parent staged) (sf_name staged).

(** The target now is the staged file; without [overwrite] nothing was there before. *)
Definition published overwrite staged fs fs' : Prop :=
  target fs' staged = Some (sf_file staged) /\ (overwrite = false -> target fs staged = None).

(** Only the two names of the staged file differ. *)
Definition touches_only staged fs fs' : Prop :=
  forall d n, d <> sf_parent staged \/ (n <> sf_name staged /\ n <> sf_temporary_name staged) ->
    sys_child fs' d n = sys_child fs d n.

Lemma only_names_run {A} (m : StM Fs A Errno) d names fs r fs' d' n :
  only_names m d names -> m fs = (r, fs') -> d' <> d \/ n ∉ names ->
  sys_child fs' d' n = sys_child fs d' n.
Proof. intros Hm E. specialize (Hm fs d' n). rewrite E in Hm. exact Hm. Qed.

Lemma touches_names {A} (m : StM Fs A Errno) staged names fs r fs' :
  only_names m (sf_parent staged) names -> m fs = (r, fs') ->
  (forall n, n ∈ names -> n = sf_name staged \/ n = sf_temporary_name staged) ->
  touches_only staged fs fs'.
Proof.
  intros Hm E Hn d n [Hd|[H1 H2]]; (eapply only_names_run; [done..|]); [by left|right].
  intros [->| ->]%Hn; done.
Qed.

Lemma touches_same staged fs fs' : same fs fs' -> touches_only staged fs fs'.
Proof. intros [Hs _] d n _. apply Hs. Qed.
Lemma touches_trans staged fs1 fs2 fs3 :
  touches_only staged fs1 fs2 -> touches_only staged fs2 fs3 -> touches_only staged fs1 fs3.
Proof. intros H1 H2 d n Hn. by rewrite H2, H1. Qed.

(** The three-way answer of a publication. *)
Definition outcome overwrite staged fs (r : Result unit IoError) fs' : Prop :=
  match r with
  | Ok _ => published overwrite staged fs fs'
  | Err e =>
      if is_publication_uncertain e then published overwrite staged fs fs'
      else target fs' staged = target fs staged
  end.

Lemma plain_error {A} (m : StM Fs A Errno) fs e fs' :
  sys m fs = (Err e, fs') -> exists n, m fs = (Err n, fs') /\ is_publication_uncertain e = false.
Proof. unfold sys, st_map_err. destruct (m fs) as [[] ?]; simpl; naive_solver. Qed.

Lemma replace_outcome staged fs r fs' : holds_staging fs staged ->
  sys (sys_rename (sf_parent staged) (sf_temporary_name staged) (sf_name staged)) fs = (r, fs') ->
  outcome true staged fs r fs' /\ touches_only staged fs fs'.
Proof.
  intros [Hh Hne] E. split.
  - destruct r as [[]|e]; simpl.
    + apply sys_ok, rename_done in E as [E _]. split; [|done]. unfold target. congruence.
    + apply plain_error in E as (n & E & ->). unfold target. by apply rename_fails in E as [-> _].
  - unfold sys, st_map_err in E. destruct (sys_rename _ _ _ fs) as [r1 fs1] eqn:E1.
    simplify_eq/=. eapply touches_names; [apply rename_names|done|set_solver].
Qed.

Lemma link_outcome staged fs r fs' : holds_staging fs staged ->
  (sys (sys_link (sf_parent staged) (sf_temporary_name staged) (sf_name staged)) ;!
   st_map_err (fun _ => publication_uncertain)
     (sys_unlink (sf_parent staged) (sf_temporary_name staged))) fs = (r, fs') ->
  outcome false staged fs r fs' /\ touches_only staged fs fs'.
Proof.
  intros [Hh Hne]. unfold st_bind, sys, st_map_err.
  destruct (sys_link _ _ _ fs) as [[[]|e] fs1] eqn:E1; simpl.
  - pose proof (touches_names _ staged _ _ _ _ (link_names _ _ _) E1 ltac:(set_solver)) as T1.
    destruct (sys_unlink _ _ fs1) as [r2 fs2] eqn:E2. intros [= <- <-].
    pose proof (touches_names _ staged _ _ _ _ (unlink_names _ _) E2 ltac:(set_solver)) as T2.
    split; [|by eapply touches_trans]. apply link_done in E1 as (Hn & Hc & _).
    assert (published false staged fs fs2) as Hp.
    { split; [|done]. unfold target.
      rewrite (only_names_run _ _ _ _ _ _ (sf_parent staged) (sf_name staged) (unlink_names _ _) E2)
        by set_solver. congruence. }
    by destruct r2.
  - intros [= <- <-]. split.
    + simpl. unfold target. by apply link_fails in E1 as [-> _].
    + eapply touches_names; [apply link_names|done|set_solver].
Qed.

Lemma install_outcome linux overwrite staged fs r fs' : holds_staging fs staged ->
  install linux staged overwrite fs = (r, fs') ->
  outcome overwrite staged fs r fs' /\ touches_only staged fs fs'.
Proof.
  intros Hh. unfold install. destruct overwrite; [by apply replace_outcome|].
  unfold st_bind at 1. destruct linux; [|by apply link_outcome].
  destruct (sys_rename_noreplace _ _ _ fs) as [[[]|e] fs1] eqn:E1.
  - intros [= <- <-]. split; [|eapply touches_names; [apply noreplace_names|done|set_solver]].
    apply noreplace_done in E1 as (Hn & Hc & _). split; [|done]. unfold target. by rewrite Hc, (proj1 Hh).
  - pose proof (noreplace_fails _ _ _ _ _ _ E1) as S1.
    assert (outcome false staged fs (Err (io_of_errno e)) fs1 /\ touches_only staged fs fs1) as Hfail.
    { split; [simpl; unfold target; apply S1|by apply touches_same]. }
    assert (holds_staging fs1 staged) as Hh1.
    { destruct Hh. split; [by rewrite (proj1 S1)|done]. }
    assert (forall r' fs'', outcome false staged fs1 r' fs'' /\ touches_only staged fs1 fs'' ->
              outcome false staged fs r' fs'' /\ touches_only staged fs fs'') as Hback.
    { intros r' fs'' [Ho Ht]. split; [|eapply touches_trans; [by apply touches_same|done]].
      unfold outcome, published, target in *. by rewrite <- !(proj1 S1). }
    destruct e; try (intros [= <- <-]; exact Hfail);
      intros E2; apply Hback; by eapply link_outcome.
Qed.

Lemma drop_outcome staged installed fs :
  touches_only staged fs (staged_drop staged installed fs)
  /\ (sf_name staged <> sf_temporary_name staged ->
      target (staged_drop staged installed fs) staged = target fs staged).
Proof.
  unfold staged_drop. destruct installed; [by split|].
  destruct (sys_unlink _ _ fs) as [r fs1] eqn:E. simpl. split.
  - eapply touches_names; [apply unlink_names|done|set_solver].
  - intros Hne. eapply only_names_run; [apply unlink_names|done|set_solver].
Qed.

Lemma commit_outcome linux overwrite staged fs r fs' :
  holds_staging fs staged -> staged_commit reserved_name linux staged overwrite fs = (r, fs') ->
  outcome overwrite staged fs r fs' /\ touches_only staged fs fs'.
Proof.
  intros Hh. unfold staged_commit, st_bind.
  destruct (commit_checks reserved_name staged fs) as [r1 fs1] eqn:E1.
  pose proof (keeps_run _ _ _ _ (commit_checks_keeps staged) E1) as S1.
  destruct (drop_outcome staged false fs1) as [D1 D2]. specialize (D2 (proj2 Hh)).
  destruct r1 as [[]|e1].
  2:{ intros [= <- <-]. split; [|eapply touches_trans; [by apply touches_same|done]].
      unfold outcome. unfold staged_drop in D2. rewrite (keeps_error _ _ _ _ (commit_checks_keeps staged) E1), D2. apply S1. }
  assert (holds_staging fs1 staged) as Hh1 by (destruct Hh; split; [by rewrite (proj1 S1)|done]).
  clear D1 D2.
  destruct (install linux staged overwrite fs1) as [r2 fs2] eqn:E2.
  apply install_outcome in E2 as [O2 T2]; [|done].
  assert (outcome overwrite staged fs r2 fs2) as O1.
  { unfold outcome, published, target in *. by rewrite <- !(proj1 S1). }
  assert (touches_only staged fs fs2) as T1 by (eapply touches_trans; [by apply touches_same|done]).
  destruct r2 as [[]|e2].
  - unfold st_map_err. destruct (sys_fsync _ fs2) as [r3 fs3] eqn:E3. intros [= <- <-].
    pose proof (fsync_quiet (sf_parent staged) fs2) as S3. rewrite E3 in S3. simpl in S3.
    split; [|eapply touches_trans; [done|by apply touches_same]].
    assert (published overwrite staged fs fs3) as Hp.
    { unfold outcome, published, target in *. by rewrite (proj1 S3). }
    by destruct r3.
  - intros [= <- <-]. destruct (drop_outcome staged false fs2) as [D1 D2]. specialize (D2 (proj2 Hh)).
    split; [|by eapply touches_trans]. unfold outcome, published, staged_drop in *. by rewrite !D2.
Qed.

(** ** Where a publication can land *)

(** Where [path] leads under [root]: a directory inside it and a name that may be used there. *)
Definition lands root fs path (parent : Identity) (name : string) : Prop :=
  exists parts, validate_relative_path path = Ok (parts ++ [name]) /\ Inside root fs parts parent
    /\ fine_part name /\ (parent, reserved_name name) ∉ root_reserved_names root
    /\ (forall i, sys_child fs parent name = Some i ->
          sys_type fs i = Some RegularFile /\ i ∉ root_protected root).

Lemma lands_same root fs fs' path parent name :
  same fs fs' -> lands root fs path parent name -> lands root fs' path parent name.
Proof.
  intros S (parts & Hv & Hi & Hf & Hn & Ht). exists parts. split_and!; try done.
  - by eapply inside_same.
  - destruct S as [S1 S2]. intros i. rewrite S1, S2. apply Ht.
Qed.

Lemma stage_ok root path temporary mode fs staged fs' :
  stage reserved_name root path temporary mode fs = (Ok staged, fs') ->
  sf_root staged = root /\ sf_path staged = path /\ sf_temporary_name staged = temporary
  /\ (exists parts, validate_relative_path path = Ok (parts ++ [sf_name staged]))
  /\ sys_child fs' (sf_parent staged) temporary = Some (sf_file staged)
  /\ sys_child fs (sf_parent staged) temporary = None.
Proof.
  intros (u & fs1 & [= Hm <-] & (names & fs2 & [= Hv <-] & E)%st_bind_ok_iff)%st_bind_ok_iff.
  revert E. case_match; [done|].
  intros ([p n] & fs3 & E3 & (u1 & fs4 & E4 & (file & fs5 & E5 & E6)%st_bind_ok_iff)%st_bind_ok_iff)%st_bind_ok_iff.
  pose proof (keeps_run _ _ _ _ (root_parent_keeps _ _) E3) as S3.
  pose proof (keeps_run _ _ _ _ (check_target_keeps _ _ _) E4) as S4.
  apply root_parent_ok in E3 as (mid & Hp & _). simpl in *.
  apply sys_ok, create_new in E5 as (Hnone & Hsome & _).
  pose proof (fchmod_quiet file 384 fs5) as S6.
  destruct (sys_fchmod file 384 fs5) as [[] fs6]; simplify_eq/=. split_and!; eauto.
  - by rewrite (proj1 S6).
  - by rewrite <- (proj1 S3), <- (proj1 S4).
Qed.

Lemma commit_checks_ok staged fs fs' :
  (exists parts, validate_relative_path (sf_path staged) = Ok (parts ++ [sf_name staged])) ->
  commit_checks reserved_name staged fs = (Ok tt, fs') ->
  lands (sf_root staged) fs (sf_path staged) (sf_parent staged) (sf_name staged).
Proof.
  intros [parts Hparts]. unfold commit_checks.
  intros (file & fs1 & E1 & ([p n] & fs2 & E2 & (cur & fs3 & E3 & (held & fs4 & E4 & E)
    %st_bind_ok_iff)%st_bind_ok_iff)%st_bind_ok_iff)%st_bind_ok_iff.
  pose proof (keeps_run _ _ _ _ (keeps_sys _ (dup_quiet _)) E1) as S1.
  pose proof (keeps_run _ _ _ _ (root_parent_keeps _ _) E2) as S2.
  pose proof (keeps_run _ _ _ _ (identity_keeps _) E3) as S3.
  pose proof (keeps_run _ _ _ _ (identity_keeps _) E4) as S4.
  apply sys_ok, dup_same in E1 as ->. apply identity_ok in E3 as ->, E4 as ->. simpl in E.
  case_bool_decide as Hp; [|done]. subst p. simpl in E.
  apply st_bind_ok_iff in E as ([] & fs5 & E5 & _).
  destruct (sf_root staged) as [rf rd rp ra rr] eqn:Hroot. simpl in *.
  apply root_parent_ok in E2 as (mid & Hv & Hi & Hf & Hn).
  assert (mid = parts /\ n = sf_name staged) as [-> ->].
  { rewrite Hparts in Hv. injection Hv as Hv. by apply app_inj_tail in Hv as [-> ->]. }
  apply (lands_same _ fs1); [by symmetry|]. exists parts. split_and!; [done..|].
  intros i Hc. assert (same fs1 fs4) as [S5 S6] by (by etrans; [|etrans]).
  rewrite <- (S6 i). eapply check_target_ok; [exact E5|by rewrite S5].
Qed.

(** C23: publishing a staged file is safe and its answer is true.  On success and on an
    "unconfirmed" error the target is the staged file (and, without overwrite, nothing was there
    before); on every other error the target is what it was.  Whatever [commit] answers, every
    name it changes in any directory is either the staging name or the file name of the path given
    to [stage]; and the latter changes only when, at that moment, its directory is reached from
    the root through directories that are no symbolic links, not protected and on the root's
    device, no component nor the name is reserved, and what the name stood for was a regular file
    that is not protected. *)
Theorem publication_stays_inside linux overwrite root path temporary mode fs0 staged fs1 fs r fs' :
  stage reserved_name root path temporary mode fs0 = (Ok staged, fs1) ->
  holds_staging fs staged ->
  staged_commit reserved_name linux staged overwrite fs = (r, fs') ->
  outcome overwrite staged fs r fs'
  /\ forall d n, sys_child fs' d n <> sys_child fs d n ->
       d = sf_parent staged
       /\ (n = temporary \/ (n = sf_name staged /\ lands root fs path d n)).
Proof.
  intros (Hroot & Hpath & Htemp & Hparts & _)%stage_ok Hh E.
  destruct (commit_outcome _ _ _ _ _ _ Hh E) as [Ho Ht]. split; [done|]. intros d n Hd.
  destruct (decide (d = sf_parent staged)) as [->|Hd']; [split; [done|]|by rewrite Ht in Hd by (by left)].
  destruct (decide (n = temporary)) as [|Hn]; [by left|right].
  destruct (decide (n = sf_name staged)) as [->|Hn'].
  2:{ rewrite Ht in Hd; [done|]. right. by rewrite Htemp. }
  split; [done|]. unfold staged_commit, st_bind in E.
  destruct (commit_checks reserved_name staged fs) as [[[]|e1] fs1'] eqn:E1.
  - rewrite <- Hroot, <- Hpath. eapply commit_checks_ok; [by rewrite Hpath|done].
  - exfalso. injection E as <- _. unfold outcome in Ho.
    by rewrite (keeps_error _ _ _ _ (commit_checks_keeps staged) E1) in Ho.
Qed.
End Facts.

(** * A small file system

    An instance of the system-call interface of MachineFile that satisfies its laws, and the
    publication of a file in it. *)

(** Directory entries, types, and nothing else: every file is on one device and owned by one user. *)
Record SampleFs : Type := mkSampleFs {
  sample_names : list (Identity * string * Identity);
  sample_types : list (Identity * FileType)
}.

Definition is_entry (d : Identity) (n : string) (e : Identity * string * Identity) : bool :=
  bool_decide (e.1 = (d, n)).
Definition sample_child (fs : SampleFs) (d : Identity) (n : string) : option Identity :=
  snd <$> List.find (is_entry d n) (sample_names fs).
Definition sample_type (fs : SampleFs) (i : Identity) : option FileType :=
  snd <$> List.find (fun e => bool_decide (e.1 = i)) (sample_types fs).

Definition set_child (fs : SampleFs) (d : Identity) (n : string) (v : option Identity) : SampleFs :=
  mkSampleFs (match v with Some i => [(d, n, i)] | None => [] end
              ++ List.filter (fun e => negb (is_entry d n e)) (sample_names fs))
    (sample_types fs).

Definition fresh_inode (fs : SampleFs) : Identity :=
  mkIdentity 1 (1 + foldr Z.max 0 (map (fun e => id_inode e.2) (sample_names fs))).

Definition sample_create (d : Identity) (n : string) : StM SampleFs Identity Errno := fun fs =>
  match sample_child fs d n with
  | Some _ => (Err EXIST, fs)
  | None =>
      let i := fresh_inode fs in
      let fs' := set_child fs d n (Some i) in
      (Ok i, mkSampleFs (sample_names fs') ((i, RegularFile) :: sample_types fs))
  end.

Definition sample_rename (d : Identity) (o n : string) : StM SampleFs unit Errno := fun fs =>
  match sample_child fs d o with
  | None => (Err NOENT, fs)
  | Some i =>
      if bool_decide (o = n) then (Ok tt, fs)
      else (Ok tt, set_child (set_child fs d o None) d n (Some i))
  end.

Definition sample_rename_noreplace (d : Identity) (o n : string) : StM SampleFs unit Errno := fun fs =>
  match sample_child fs d n with
  | Some _ => (Err EXIST, fs)
  | None => sample_rename d o n fs
  end.

Definition sample_link (d : Identity) (o n : string) : StM SampleFs unit Errno := fun fs =>
  match sample_child fs d n, sample_child fs d o with
  | Some _, _ => (Err EXIST, fs)
  | None, None => (Err NOENT, fs)
  | None, Some i => (Ok tt, set_child fs d n (Some i))
  end.

Definition sample_unlink (d : Identity) (n : string) : StM SampleFs unit Errno := fun fs =>
  match sample_child fs d n with
  | None => (Err NOENT, fs)
  | Some _ => (Ok tt, set_child fs d n None)
  end.

Definition sample_open_dir (d : Identity) (n : string) : StM SampleFs Identity Errno := fun fs =>
  match sample_child fs d n with
  | None => (Err NOENT, fs)
  | Some i => (if bool_decide (sample_type fs i = Some Directory) then Ok i else Err (OtherErrno 20), fs)
  end.

Definition sample_stat (fs : SampleFs) (i : Identity) : Result Stat Errno :=
  match sample_type fs i with
  | Some t => Ok (mkStat i t 448 0 1)
  | None => Err (OtherErrno 9)
  end.

Definition sample_statat (d : Identity) (n : string) : StM SampleFs Stat Errno := fun fs =>
  match sample_child fs d n with
  | None => (Err NOENT, fs)
  | Some i => (sample_stat fs i, fs)
  end.

Definition sample_root : Identity := mkIdentity 1 0.

#[export] Instance sample_posix : Posix SampleFs := {
  sys_child := sample_child;
  sys_type := sample_type;
  sys_open_root _ := st_ret sample_root;
  sys_open_path _ := st_throw NOENT;
  sys_dup d := st_ret d;
  sys_open_dir := sample_open_dir;
  sys_open_read d n := fun fs => (ok_or (sample_child fs d n) NOENT, fs);
  sys_create := sample_create;
  sys_mkdir _ _ := st_throw EXIST;
  sys_fstat i := fun fs => (sample_stat fs i, fs);
  sys_statat := sample_statat;
  sys_fchmod _ _ := st_ret tt;
  sys_fsync _ := st_ret tt;
  sys_flush _ := st_ret tt;
  sys_available _ := st_ret 0;
  sys_rename := sample_rename;
  sys_rename_noreplace := sample_rename_noreplace;
  sys_link := sample_link;
  sys_unlink := sample_unlink;
  sys_euid := 0
}.

(** ** Its laws *)

Lemma set_child_lookup fs d n v d' n' :
  sample_child (set_child fs d n v) d' n'
  = if bool_decide ((d, n) = (d', n')) then v else sample_child fs d' n'.
Proof.
  unfold sample_child, set_child. simpl. rewrite find_app. case_bool_decide as Hd.
  - injection Hd as <- <-. destruct v as [i|]; simpl.
    + unfold is_entry. simpl. by rewrite bool_decide_true.
    + replace (List.find (is_entry d n) (List.filter (fun e => negb (is_entry d n e)) (sample_names fs)))
        with (@None (Identity * string * Identity)); [done|].
      symmetry. apply find_none_iff, Forall_forall. intros e [_ He]%filter_elem. by apply negb_true_iff.
  - rewrite (find_filter (is_entry d' n')).
    + destruct v as [i|]; simpl; [|done]. unfold is_entry at 1. simpl.
      by rewrite bool_decide_false.
    + intros e He. apply negb_true_iff. unfold is_entry in *.
      apply bool_decide_eq_true in He. apply bool_decide_eq_false. congruence.
Qed.

Lemma fresh_new fs d n : sample_child fs d n <> Some (fresh_inode fs).
Proof.
  unfold sample_child. intros Hf. apply fmap_Some in Hf as (e & [He _]%find_elem & Hi).
  assert (id_inode e.2 <= foldr Z.max 0 (map (fun e => id_inode e.2) (sample_names fs))) as Hle.
  { clear Hi. induction (sample_names fs) as [|x l IH]; [by apply elem_of_nil in He|]. simpl.
    apply elem_of_cons in He as [->|He]; [lia|]. specialize (IH He). lia. }
  rewrite <- Hi in Hle. unfold fresh_inode in Hle. simpl in Hle. lia.
Qed.

Ltac sample_case := repeat (case_match; simplify_eq/=); rewrite ?set_child_lookup;
  repeat case_bool_decide; simplify_eq/=; try done; set_solver.

Ltac sample_unfold := unfold quiet, only_names, all_or_nothing; simpl;
  unfold sample_rename_noreplace, sample_rename, sample_create, sample_link, sample_unlink,
    sample_open_dir, sample_statat, sample_stat, st_ret, st_throw.

#[export] Instance sample_laws : PosixLaws SampleFs.
Proof.
  split; sample_unfold; intros; try (split; [intros ? ?|intros ?]); try sample_case.
  - case_match; [done|]. cbn [snd]. change (sample_child (set_child fs d n (Some (fresh_inode fs))) d' n0
      = sample_child fs d' n0). rewrite set_child_lookup. case_bool_decide; [|done]. set_solver.
  - destruct (sample_child fs d n) eqn:Hd; simplify_eq/=. split_and!; [done| | | |].
    + change (sample_child (set_child fs d n (Some (fresh_inode fs))) d n = Some (fresh_inode fs)).
      by rewrite set_child_lookup, bool_decide_true.
    + unfold sample_type. simpl. by rewrite bool_decide_true.
    + intros. apply fresh_new.
    + intros j Hj. unfold sample_type. simpl. by rewrite bool_decide_false by congruence.
Qed.

(** ** A publication in it *)

Definition sample_home : Identity := mkIdentity 1 7.
Definition sample_fs : SampleFs :=
  mkSampleFs [(sample_root, "docs", sample_home); (sample_home, "a.txt", mkIdentity 1 8)]
    [(sample_root, Directory); (sample_home, Directory); (mkIdentity 1 8, RegularFile)].
Definition sample_machine_root : Root := mkRoot sample_root 1 [] false [].
Definition sample_stage (fs : SampleFs) : Result StagedFile IoError * SampleFs :=
  stage to_ascii_uppercase sample_machine_root "docs/b.txt" ".treer-transfer-upl_1" 384 fs.
Definition sample_staged : StagedFile :=
  mkStagedFile sample_home (mkIdentity 1 9) "b.txt" ".treer-transfer-upl_1" 384 sample_machine_root
    "docs/b.txt".
Definition sample_fs1 : SampleFs := (sample_stage sample_fs).2.
Definition sample_commit (overwrite : bool) : Result unit IoError * SampleFs :=
  staged_commit to_ascii_uppercase true sample_staged overwrite sample_fs1.

Lemma publication_stays_inside_witness :
  sample_stage sample_fs = (Ok sample_staged, sample_fs1)
  /\ (sample_commit false).1 = Ok tt
  /\ sample_child (sample_commit false).2 sample_home "b.txt" = Some (mkIdentity 1 9)
  /\ outcome false sample_staged sample_fs1 (sample_commit false).1 (sample_commit false).2.
Proof.
  split; [vm_compute; reflexivity|]. split; [vm_compute; reflexivity|].
  split; [vm_compute; reflexivity|].
  apply (publication_stays_inside to_ascii_uppercase true false sample_machine_root "docs/b.txt"
           ".treer-transfer-upl_1" 384 sample_fs sample_staged sample_fs1 sample_fs1).
  - vm_compute. reflexivity.
  - split; [vm_compute; reflexivity|discriminate].
  - apply surjective_pairing.
Defined.
