(* ===== verification/MachineUpload.v ===== *)
(** * Uploads on the Controller (crates/treer-agent-server/src/machine_upload.rs)

    The registry of uploads being staged, the legacy append route and the chunked route with its
    parts, the publication, the receipts, and the two journals from which a restarted Controller
    recovers.

    Everything runs in [StM Uploads], which keeps the state on an error.  A staging file is the
    bytes it holds and the position of its handle.  Every call into the file system may fail: the
    class [Os] answers the n-th call of the process; a failing [write_all] has stored a part of
    its bytes, and a failing publication with the "unconfirmed" error has published.  SHA-256,
    base64 and JSON are the class [Codec]; a hasher is the list of bytes it was given. *)

From S2P Require Import Prelude RustStr Protocol MachineFile.
Local Open Scope Z_scope.

(** ** Limits *)

Definition MACHINE_UPLOAD_MAX_BYTES : Z := 128 * 1024 * 1024.
Definition MACHINE_UPLOAD_CHUNK_BYTES : Z := 192 * 1024.
Definition MACHINE_UPLOAD_MAX_ACTIVE : Z := 8.
Definition MACHINE_UPLOAD_IDLE_SECONDS : Z := 60 * 60.
Definition MACHINE_UPLOAD_MAX_LIFETIME_SECONDS : Z := 6 * 60 * 60.
Definition MACHINE_UPLOAD_RESULT_RETENTION_SECONDS : Z := 24 * 60 * 60.
Definition SPACE_RESERVE_MIN_BYTES : Z := 128 * 1024 * 1024.
Definition MAX_STORED_RESULTS : Z := 256.
Definition MAX_FAILED_SWEEPS : Z := 5.
Definition JOURNAL_INTENTS : string := "uploads.json".
Definition JOURNAL_RESULTS : string := "upload-results.json".
Definition JOURNAL_LIMIT : Z := 256 * 1024.

Definition failure (code message : string) : ProtocolError := protocol_error code message.

Definition io_failure (error : IoError) : ProtocolError :=
  if is_publication_uncertain error then
    failure "machine_upload_commit_uncertain"
      "destination was published but durability/cleanup is unconfirmed; inspect before retrying"
  else
    match io_kind error with
    | AlreadyExists => failure "machine_file_exists" "destination already exists"
    | NotFound => failure "machine_file_not_found" "file or parent directory is unavailable"
    | PermissionDenied => failure "machine_file_denied" "upload path is not permitted"
    | InvalidInput => failure "invalid_machine_path" "upload requires a safe root-relative regular-file path"
    | Unsupported => failure "machine_upload_publish_unsupported"
                       "the destination filesystem cannot publish without replacing"
    | OtherKind => failure "machine_upload_failed" "upload filesystem operation failed"
    end.

(** ** Names and paths *)

Definition upload_id_byte (a : ascii) : bool := ascii_alphanumeric a || Ascii.eqb a "_"%char.

Definition validate_upload_id (upload_id : string) : Result unit ProtocolError :=
  if (str_len upload_id <? 8) || (80 <? str_len upload_id) || negb (all_bytes upload_id_byte upload_id)
  then Err (failure "invalid_machine_upload" "upload ID is invalid")
  else Ok tt.

(** [std::path::Path::components] on Unix: repeated slashes and inner dots disappear. *)
Inductive Component : Type := RootDir | CurDir | ParentDir | Normal (name : string).

Definition component (piece : string) : Component := if piece =s ".." then ParentDir else Normal piece.
Definition path_components (path : string) : list Component :=
  let pieces := split_on slash path in
  (if starts_with "/" path then [RootDir]
   else if bool_decide (head pieces = Some ".") then [CurDir] else [])
  ++ map component (List.filter (fun piece => negb (is_empty piece) && negb (piece =s ".")) pieces).

Definition validate_file_name (file_name : string) : Result unit ProtocolError :=
  let valid :=
    match path_components file_name with [Normal _] => true | _ => false end
    && negb (contains_char slash file_name || contains_char "\" file_name)
    && negb (any_control file_name) in
  if valid then Ok tt
  else Err (failure "invalid_machine_file_name" "file_name must be one file name without path separators").

Definition relative_path (directory file_name : string) : Result string ProtocolError :=
  validate_file_name file_name ;?
  let directory := trim directory in
  let directory := trim_end_matches slash (default directory (strip_prefix "./" directory)) in
  if starts_with "/" directory
  then Err (failure "invalid_machine_path" "directory must be relative to the machine root")
  else
    let path := if is_empty directory || (directory =s ".") then file_name
                else directory +:+ "/" +:+ file_name in
    let? _ := map_err io_failure (validate_relative_path path) in
    Ok path.

(** ** Records *)

Notation bytes := (list ascii).

Record PartRecord : Type := mkPart { pr_offset : Z; pr_length : Z; pr_sha256 : string }.
#[export] Instance PartRecord_eq_dec : EqDecision PartRecord.
Proof. solve_decision. Defined.

Inductive StoredOutcome : Type := Committed | Failed.
#[export] Instance StoredOutcome_eq_dec : EqDecision StoredOutcome.
Proof. solve_decision. Defined.

Record StoredResult : Type := mkStored {
  sr_upload_id : string;
  sr_path : string;
  sr_bytes_written : Z;
  sr_sha256 : string;
  sr_committed_at : Z;
  sr_cleanup_pending : bool;
  sr_outcome : StoredOutcome;
  sr_code : option string
}.

Record UploadMachineFileResponse : Type := mkResponse {
  ur_server_id : string;
  ur_path : string;
  ur_bytes_written : Z;
  ur_sha256 : option string;
  ur_cleanup_pending : bool
}.

(** An open staging file: its bytes and the position of its handle. *)
Record File : Type := mkFile { f_content : bytes; f_position : Z }.

(** [staged] is [Some] from [begin] to [commit], which takes the upload out of the registry. *)
Record Upload : Type := mkUpload {
  up_path : string;
  up_staged : File;
  up_overwrite : bool;
  up_declared : option Z;
  up_written : Z;
  up_committed : Z;
  up_parts : list PartRecord;
  up_part_hash : bytes;
  up_file_hash : bytes;
  up_committed_hash : bytes;
  up_created : Z;
  up_touched : Z
}.

Definition chunked (u : Upload) : bool := is_some (up_declared u).

Record IntentRecord : Type := mkIntent { in_path : string; in_id : string; in_failed_sweeps : Z }.

Inductive JournaledIntent : Type :=
| IntentOf (record : IntentRecord)
| Legacy (path id : string).

Definition intent_from (value : JournaledIntent) : IntentRecord :=
  match value with IntentOf record => record | Legacy path id => mkIntent path id 0 end.

(** What is outside the process: the journals, the staging names (by directory) and the files
    published so far. *)
Record Disk : Type := mkDisk {
  d_intents : option bytes;
  d_results : option bytes;
  d_staging : gset (string * string);
  d_published : gmap string bytes
}.

(** [calls] counts the calls into the file system. *)
Record Uploads : Type := mkUploads {
  us_server_id : string;
  us_protected : list string;
  us_entries : gmap string Upload;
  us_results : list StoredResult;
  us_recovered : bool;
  us_unswept : list IntentRecord;
  us_disk : Disk;
  us_calls : nat
}.

Definition uploads_new (server_id : string) (protected : list string) (disk : Disk) (calls : nat) : Uploads :=
  mkUploads server_id protected ∅ [] false [] disk calls.

Definition set_entries f s := mkUploads (us_server_id s) (us_protected s) (f (us_entries s)) (us_results s)
  (us_recovered s) (us_unswept s) (us_disk s) (us_calls s).
Definition set_results v s := mkUploads (us_server_id s) (us_protected s) (us_entries s) v
  (us_recovered s) (us_unswept s) (us_disk s) (us_calls s).
Definition set_recovered s := mkUploads (us_server_id s) (us_protected s) (us_entries s) (us_results s)
  true (us_unswept s) (us_disk s) (us_calls s).
Definition set_unswept v s := mkUploads (us_server_id s) (us_protected s) (us_entries s) (us_results s)
  (us_recovered s) v (us_disk s) (us_calls s).
Definition set_disk f s := mkUploads (us_server_id s) (us_protected s) (us_entries s) (us_results s)
  (us_recovered s) (us_unswept s) (f (us_disk s)) (us_calls s).
Definition next_call s := mkUploads (us_server_id s) (us_protected s) (us_entries s) (us_results s)
  (us_recovered s) (us_unswept s) (us_disk s) (S (us_calls s)).

Definition set_journal (name : string) (v : option bytes) (d : Disk) : Disk :=
  if name =s JOURNAL_INTENTS then mkDisk v (d_results d) (d_staging d) (d_published d)
  else mkDisk (d_intents d) v (d_staging d) (d_published d).
Definition get_journal (name : string) (d : Disk) : option bytes :=
  if name =s JOURNAL_INTENTS then d_intents d else d_results d.
Definition set_staging (f : gset (string * string) -> gset (string * string)) (d : Disk) : Disk :=
  mkDisk (d_intents d) (d_results d) (f (d_staging d)) (d_published d).
Definition set_published (path : string) (content : bytes) (d : Disk) : Disk :=
  mkDisk (d_intents d) (d_results d) (d_staging d) (<[path := content]> (d_published d)).

(** The directory of a root-relative path: the staging file is created next to its target. *)
Definition parent_of (path : string) : string := join "/" (removelast (split_on slash path)).
Definition temporary_name (upload_id : string) : string := ".treer-transfer-" +:+ upload_id.
Definition staging_name (path upload_id : string) : string * string :=
  (parent_of path, temporary_name upload_id).

(** ** The system and the encodings *)

Inductive Call : Type :=
| CallOpenProtected (path : string) | CallOpenRoot | CallReservePath (path : string)
| CallTransferJournal | CallAvailable
| CallReadJournal (name : string) | CallReadBytes (name : string)
| CallStageJournal (name : string) | CallWriteJournal (name : string) | CallCommitJournal (name : string)
| CallCleanup (path name : string) | CallUnlink (path name : string)
| CallValidateTarget (path : string) | CallStage (path name : string)
| CallWrite | CallSetLen | CallSeek | CallMetadata
| CallPublish (path : string) (overwrite : bool).

(** [os_fault n c]: how the n-th call, which is [c], fails; [os_short n] is how many bytes a
    failing write stored; [os_available n] the free space it reports. *)
Class Os : Type := {
  os_fault : nat -> Call -> option IoError;
  os_short : nat -> nat;
  os_available : nat -> Z
}.

(** A seek in a regular file cannot fail; only a publication can be unconfirmed
    (MachineFileFacts proves this of the calls of MachineFile); a journal that exists is found. *)
Definition publishes (c : Call) : bool :=
  match c with CallPublish _ _ | CallCommitJournal _ => true | _ => false end.
Class OsLaws {O : Os} : Prop := {
  seeks n : os_fault n CallSeek = None;
  unconfirmed n c e : os_fault n c = Some e -> is_publication_uncertain e = true -> publishes c = true;
  found n name e : os_fault n (CallReadJournal name) = Some e -> io_kind e <> NotFound
}.

Class Codec : Type := {
  base64_decode : string -> option bytes;
  sha256_hex : bytes -> string;
  encode_intents : list IntentRecord -> option bytes;
  decode_intents : bytes -> option (list JournaledIntent);
  encode_results : list StoredResult -> option bytes;
  decode_results : bytes -> option (list StoredResult)
}.

(** A journal that was written is read back. *)
Class CodecLaws {C : Codec} : Prop := {
  intents_roundtrip l b : encode_intents l = Some b -> decode_intents b = Some (IntentOf <$> l);
  results_roundtrip l b : encode_results l = Some b -> decode_results b = Some l
}.

Notation U A := (StM Uploads A ProtocolError).
Definition get : U Uploads := fun s => (Ok s, s).
Definition modify (f : Uploads -> Uploads) : U unit := fun s => (Ok tt, f s).
(** [let _ = m]: the error is dropped, the effects stay. *)
Definition ignore {A E} (m : StM Uploads A E) : U unit := fun s => (Ok tt, (m s).2).

Section Program.
Context {OS : Os} {CO : Codec} (reserved_name : string -> string).

Definition call (c : Call) : StM Uploads unit IoError := fun s =>
  (match os_fault (us_calls s) c with Some e => Err e | None => Ok tt end, next_call s).
Definition io {A} (m : StM Uploads A IoError) : U A := st_map_err io_failure m.

(** ** Journals *)

(** [open_root]: the protected paths that exist, the root, then the reserved names. *)
Fixpoint open_protected_all (paths : list string) : U unit :=
  match paths with
  | [] => st_ret tt
  | path :: paths' =>
      (fun s => match call (CallOpenProtected path) s with
                | (Ok _, s') => (Ok tt, s')
                | (Err error, s') =>
                    if bool_decide (io_kind error = NotFound) then (Ok tt, s')
                    else (Err (io_failure error), s')
                end) ;!
      open_protected_all paths'
  end.
Fixpoint reserve_all (paths : list string) : U unit :=
  match paths with
  | [] => st_ret tt
  | path :: paths' => io (call (CallReservePath path)) ;! reserve_all paths'
  end.
Definition open_root : U unit :=
  let! s := get in
  open_protected_all (us_protected s) ;!
  io (call CallOpenRoot) ;!
  reserve_all (us_protected s).

(** [default] is [T::default()], for a journal that does not exist. *)
Definition read_journal {T} (decode : bytes -> option (list T)) (name : string) : U (list T) := fun s =>
  match call (CallReadJournal name) s with
  | (Err error, s') =>
      if bool_decide (io_kind error = NotFound) then (Ok [], s') else (Err (io_failure error), s')
  | (Ok _, s') =>
      match get_journal name (us_disk s') with
      | None => (Ok [], s')
      | Some content =>
          (io (call (CallReadBytes name)) ;!
           if JOURNAL_LIMIT <? Z.of_nat (length content)
           then st_throw (failure "state_error" "upload journal exceeds limit")
           else st_lift (ok_or (decode content) (failure "state_error" "invalid upload journal"))) s'
      end
  end.

Definition write_journal (name : string) (encoded : option bytes) : U unit :=
  let! content := st_lift (ok_or encoded (failure "state_error" "cannot serialize upload journal")) in
  io (call (CallStageJournal name)) ;!
  io (call (CallWriteJournal name)) ;!
  fun s =>
    let stored := set_disk (set_journal name (Some content)) in
    match call (CallCommitJournal name) s with
    | (Ok _, s') => (Ok tt, stored s')
    | (Err error, s') => (Err (io_failure error), if is_publication_uncertain error then stored s' else s')
    end.

Definition cleanup_staging (path name : string) : StM Uploads unit IoError :=
  call (CallCleanup path name) ;!
  fun s => (Ok tt, set_disk (set_staging (fun names => names ∖ {[(parent_of path, name)]})) s).

(** Dropping a staged file. *)
Definition drop_staged (path upload_id : string) : U unit :=
  ignore (call (CallUnlink path (temporary_name upload_id)) ;!
          fun s => (Ok tt, set_disk (set_staging (fun names => names ∖ {[staging_name path upload_id]})) s)).

(** ** Recovery *)

(** One turn of the sweep: the record to keep for the next one, if any. *)
Definition sweep_one (record : IntentRecord) : U (option IntentRecord) :=
  if negb (is_ok (validate_upload_id (in_id record))) || negb (starts_with "upl_" (in_id record))
  then st_throw (failure "state_error" "invalid upload recovery identifier")
  else
    let! reserved := st_lift (map_err io_failure (is_reserved_namespace reserved_name (in_path record))) in
    if reserved then st_ret None
    else fun s =>
      match cleanup_staging (in_path record) (temporary_name (in_id record)) s with
      | (Ok _, s') => (Ok None, s')
      | (Err error, s') =>
          if bool_decide (io_kind error = NotFound) then (Ok None, s')
          else
            let failed := Z.min (in_failed_sweeps record + 1) u32_max in
            if MAX_FAILED_SWEEPS <=? failed then (Ok None, s')
            else (Ok (Some (mkIntent (in_path record) (in_id record) failed)), s')
      end.

Fixpoint sweep (intents : list JournaledIntent) : U (list IntentRecord) :=
  match intents with
  | [] => st_ret []
  | intent :: intents' =>
      let! kept := sweep_one (intent_from intent) in
      let! rest := sweep intents' in
      st_ret (match kept with Some record => record :: rest | None => rest end)
  end.

Definition retained (now : Z) (r : StoredResult) : bool :=
  saturating_sub now (sr_committed_at r) <? MACHINE_UPLOAD_RESULT_RETENTION_SECONDS.

(** [now] is [now_epoch()], in seconds. *)
Definition recover (now : Z) : U unit :=
  let! s := get in
  if us_recovered s then st_ret tt
  else
    open_root ;!
    io (call CallTransferJournal) ;!
    io (cleanup_staging JOURNAL_INTENTS ".treer-transfer-upl_journal") ;!
    io (cleanup_staging JOURNAL_RESULTS ".treer-transfer-upl_results") ;!
    let! intents := read_journal decode_intents JOURNAL_INTENTS in
    if MACHINE_UPLOAD_MAX_ACTIVE + 1 <? Z.of_nat (length intents)
    then st_throw (failure "state_error" "too many upload recovery records")
    else
      let! kept := sweep intents in
      write_journal JOURNAL_INTENTS (encode_intents kept) ;!
      modify (set_unswept kept) ;!
      let! results := read_journal decode_results JOURNAL_RESULTS in
      modify (set_results (List.filter (retained now) results)) ;!
      modify set_recovered.

Definition recover_at_startup (now : Z) : U unit := ignore (recover now).

(** ** Beginning *)

Definition intent_of (entry : string * Upload) : IntentRecord := mkIntent (up_path entry.2) entry.1 0.
Definition planned (s : Uploads) : list IntentRecord :=
  us_unswept s ++ (intent_of <$> map_to_list (us_entries s)).

Definition persist_intents : U unit :=
  let! s := get in
  open_root ;!
  io (call CallTransferJournal) ;!
  write_journal JOURNAL_INTENTS (encode_intents (planned s)).

Definition persist_results (results : list StoredResult) : U unit :=
  open_root ;!
  io (call CallTransferJournal) ;!
  write_journal JOURNAL_RESULTS (encode_results results).

(** Declared sizes of every active upload not yet written. *)
Definition remaining (u : Upload) : Z := saturating_sub (default 0 (up_declared u)) (up_written u).
Definition outstanding (entries : gmap string Upload) : Z :=
  foldr Z.add 0 (remaining <$> (map_to_list entries).*2).

Definition check_space (size : option Z) : U unit :=
  match size with
  | None => st_ret tt
  | Some size => fun s =>
      let reserve := Z.max (size / 20) SPACE_RESERVE_MIN_BYTES in
      let available := os_available (us_calls s) in
      (io (call CallAvailable) ;!
       if available <? saturating_add (saturating_add size reserve) (outstanding (us_entries s))
       then st_throw (failure "machine_upload_space_insufficient"
              "the destination volume does not have enough free space for this upload")
       else st_ret tt) s
  end.

Definition new_upload (path : string) (overwrite : bool) (size : option Z) (now : Z) : Upload :=
  mkUpload path (mkFile [] 0) overwrite size 0 0 [] [] [] [] now now.

Definition map_size (entries : gmap string Upload) : nat := size entries.

(** The staging file itself; a failure cleans up and writes the journal again. *)
Definition begin_stage (path upload_id : string) : U unit := fun s =>
  match call (CallStage path (temporary_name upload_id)) s with
  | (Ok _, s') => (Ok tt, set_disk (set_staging (fun names => {[staging_name path upload_id]} ∪ names)) s')
  | (Err error, s') =>
      (ignore (cleanup_staging path (temporary_name upload_id)) ;!
       ignore persist_intents ;!
       st_throw (io_failure error)) s'
  end.

(** [now] is the instant, [epoch] the wall clock. *)
Definition begin (upload_id directory file_name : string) (overwrite : bool) (size : option Z)
    (now epoch : Z) : U unit :=
  st_lift (validate_upload_id upload_id) ;!
  if is_some_and size (fun size => MACHINE_UPLOAD_MAX_BYTES <? size)
  then st_throw (failure "machine_upload_too_large" "uploaded files may contain at most 134217728 bytes")
  else
    let! path := st_lift (relative_path directory file_name) in
    recover epoch ;!
    open_root ;!
    io (call (CallValidateTarget path)) ;!
    let! s := get in
    if is_some (us_entries s !! upload_id)
    then st_throw (failure "machine_upload_exists" "upload ID is already active")
    else if MACHINE_UPLOAD_MAX_ACTIVE <=? Z.of_nat (map_size (us_entries s))
    then st_throw (failure "machine_upload_busy" "this machine is already staging 8 uploads")
    else
      check_space size ;!
      io (call CallTransferJournal) ;!
      write_journal JOURNAL_INTENTS (encode_intents (planned s ++ [mkIntent path upload_id 0])) ;!
      begin_stage path upload_id ;!
      modify (set_entries <[upload_id := new_upload path overwrite size now]>).

(** ** Chunks *)

Definition set_len (n : Z) (f : File) : File := mkFile (resize (Z.to_nat n) Ascii.zero (f_content f)) (f_position f).
Definition seek (n : Z) (f : File) : File := mkFile (f_content f) n.
(** Writing at the position of the handle; a gap reads as zeros. *)
Definition write_at (data : bytes) (f : File) : File :=
  match data with
  | [] => f
  | _ =>
      let p := Z.to_nat (f_position f) in
      mkFile (resize p Ascii.zero (f_content f) ++ data ++ drop (p + length data) (f_content f))
        (f_position f + Z.of_nat (length data))
  end.

Definition with_file (g : File -> File) (u : Upload) : Upload :=
  mkUpload (up_path u) (g (up_staged u)) (up_overwrite u) (up_declared u) (up_written u) (up_committed u)
    (up_parts u) (up_part_hash u) (up_file_hash u) (up_committed_hash u) (up_created u) (up_touched u).
(** The bytes since the committed offset are forgotten. *)
Definition forget (u : Upload) : Upload :=
  mkUpload (up_path u) (up_staged u) (up_overwrite u) (up_declared u) (up_committed u) (up_committed u)
    (up_parts u) [] (up_committed_hash u) (up_committed_hash u) (up_created u) (up_touched u).
Definition absorb (data : bytes) (total now : Z) (u : Upload) : Upload :=
  mkUpload (up_path u) (up_staged u) (up_overwrite u) (up_declared u) total (up_committed u)
    (up_parts u) (up_part_hash u ++ data) (up_file_hash u ++ data) (up_committed_hash u) (up_created u) now.
Definition close_part (part : PartRecord) (now : Z) (u : Upload) : Upload :=
  mkUpload (up_path u) (up_staged u) (up_overwrite u) (up_declared u) (up_written u) (up_written u)
    (up_parts u ++ [part]) [] (up_file_hash u) (up_file_hash u) (up_created u) now.

Definition store (upload_id : string) (u : Upload) : U unit := modify (set_entries <[upload_id := u]>).
Definition discard (upload_id : string) : U unit := modify (set_entries (delete upload_id)).

(** [rewind(upload)]; the upload it leaves is also its value. *)
Definition rewind (upload_id : string) (u : Upload) : U Upload :=
  io (call CallSetLen) ;!
  let u1 := with_file (set_len (up_committed u)) u in
  store upload_id u1 ;!
  io (call CallSeek) ;!
  let u2 := forget (with_file (seek (up_committed u)) u1) in
  store upload_id u2 ;!
  st_ret u2.

Definition get_mut (upload_id : string) : U Upload :=
  let! s := get in
  st_lift (ok_or (us_entries s !! upload_id) (failure "machine_upload_not_found" "upload is not active")).

(** What a refused or failed chunk leaves: a rewound chunked upload, or no legacy upload. *)
Definition abandon (upload_id : string) (u : Upload) : U unit :=
  if chunked u then ignore (rewind upload_id u)
  else
    (* the map entry goes, and the staged file with it *)
    discard upload_id ;! drop_staged (up_path u) upload_id ;! ignore persist_intents.

(** [file.write_all(&content)]: the file it leaves is stored in every case. *)
Definition write_all (upload_id : string) (data : bytes) (u : Upload) : StM Uploads Upload (Upload * IoError) :=
  match data with
  | [] => st_ret u
  | _ => fun s =>
      match call CallWrite s with
      | (Ok _, s') =>
          let u' := with_file (write_at data) u in (Ok u', (store upload_id u' s').2)
      | (Err error, s') =>
          let u' := with_file (write_at (take (os_short (us_calls s)) data)) u in
          (Err (u', error), (store upload_id u' s').2)
      end
  end.

Definition mode_mismatch : ProtocolError :=
  failure "machine_upload_mode_mismatch"
    "chunk offsets are required for declared-size uploads and refused for legacy uploads".

Definition place (upload_id : string) (offset : option Z) (u : Upload) : U Upload :=
  match chunked u, offset with
  | false, None => st_ret u
  | true, Some offset =>
      if (offset =? up_committed u) && (up_committed u <? up_written u) then rewind upload_id u
      else if negb (offset =? up_written u)
      then st_throw (failure "machine_upload_offset"
             "chunk offset is neither the written-through nor the committed position")
      else st_ret u
  | _, _ => st_throw mode_mismatch
  end.

Definition chunk (upload_id : string) (offset : option Z) (content_base64 : string) (now : Z) : U Z :=
  let! content := st_lift (ok_or (base64_decode content_base64)
                             (failure "invalid_machine_upload" "chunk is not valid base64")) in
  if MACHINE_UPLOAD_CHUNK_BYTES <? Z.of_nat (length content)
  then st_throw (failure "machine_upload_chunk_too_large" "upload chunks may contain at most 196608 bytes")
  else
    let! u := get_mut upload_id in
    let! u := place upload_id offset u in
    let cap := default MACHINE_UPLOAD_MAX_BYTES (up_declared u) in
    let total := saturating_add (up_written u) (Z.of_nat (length content)) in
    if cap <? total then
      abandon upload_id u ;!
      st_throw (failure "machine_upload_too_large" "upload exceeds its declared size or the byte limit")
    else fun s =>
      match write_all upload_id content u s with
      | (Err (u', error), s') => (abandon upload_id u' ;! st_throw (io_failure error)) s'
      | (Ok u', s') => (store upload_id (absorb content total now u') ;! st_ret total) s'
      end.

(** ** Parts *)

Definition hex_digit (a : ascii) : bool :=
  let v := byte_val a in between 48 v 57 || between 65 v 70 || between 97 v 102.

(** The JSON answer [{"committed_offset", "idempotent"}]. *)
Record PartAnswer : Type := mkPartAnswer { pa_committed_offset : Z; pa_idempotent : bool }.

Definition same_part (offset length : Z) (sha256 : string) (p : PartRecord) : bool :=
  (pr_offset p =? offset) && (pr_length p =? length) && (pr_sha256 p =s sha256).

Definition part_commit (upload_id : string) (offset length : Z) (sha256 : string) (now : Z) : U PartAnswer :=
  let sha256 := to_ascii_lowercase sha256 in
  if negb (str_len sha256 =? 64) || negb (all_bytes hex_digit sha256)
  then st_throw (failure "invalid_machine_upload" "part SHA-256 is invalid")
  else
    let! u := get_mut upload_id in
    if negb (chunked u)
    then st_throw (failure "machine_upload_mode_mismatch" "legacy uploads have no parts")
    else if saturating_add offset length <=? up_committed u then
      if existsb (same_part offset length sha256) (up_parts u)
      then st_ret (mkPartAnswer (up_committed u) true)
      else st_throw (failure "upload_part_conflict" "a different part is already committed at this offset")
    else if negb (offset =? up_committed u) || negb (saturating_add offset length =? up_written u)
    then st_throw (failure "machine_upload_offset"
           "part does not cover exactly the bytes written since the committed offset")
    else
      io (call CallMetadata) ;!
      let on_disk := Z.of_nat (List.length (f_content (up_staged u))) in
      if negb (on_disk =? up_written u) then
        rewind upload_id u ;!
        st_throw (failure "machine_upload_file_mismatch"
          "the staging file does not hold exactly the bytes written; the part was discarded")
      else if negb (sha256_hex (up_part_hash u) =s sha256) then
        rewind upload_id u ;!
        st_throw (failure "upload_part_hash_mismatch"
          "the Controller's SHA-256 of the part differs from the declared one; the part was discarded")
      else
        store upload_id (close_part (mkPart offset length sha256) now u) ;!
        st_ret (mkPartAnswer (up_written u) false).

(** ** Receipts *)

Definition is_failed (r : StoredResult) : bool := bool_decide (sr_outcome r = Failed).

(** Over the cap, failed receipts go first, the oldest of them first. *)
Fixpoint position {A} (p : A -> bool) (l : list A) : option nat :=
  match l with
  | [] => None
  | x :: l' => if p x then Some O else S <$> position p l'
  end.
Definition evict_one (results : list StoredResult) : list StoredResult :=
  delete (default O (position is_failed results)) results.
Fixpoint evict (fuel : nat) (results : list StoredResult) : list StoredResult :=
  match fuel with
  | O => results
  | S fuel' =>
      if MAX_STORED_RESULTS <? Z.of_nat (length results) then evict fuel' (evict_one results) else results
  end.

(** The loop removes one receipt per turn, so the length of the list is enough fuel. *)
Definition add_receipt (now : Z) (receipt : StoredResult) (results : list StoredResult) : list StoredResult :=
  let results := List.filter (retained now) results ++ [receipt] in
  evict (length results) results.

Definition store_result (receipt : StoredResult) (now : Z) : U unit :=
  let! s := get in
  if existsb (fun r => sr_upload_id r =s sr_upload_id receipt) (us_results s) then st_ret tt
  else
    let results := add_receipt now receipt (us_results s) in
    modify (set_results results) ;!
    ignore (persist_results results).

Definition find_result (upload_id : string) (results : list StoredResult) : option StoredResult :=
  List.find (fun r => sr_upload_id r =s upload_id) results.

Definition stored (upload_id : string) (epoch : Z) : U (option StoredResult) :=
  recover epoch ;!
  let! s := get in
  st_ret (find_result upload_id (us_results s)).

Definition answer_of (server_id : string) (r : StoredResult) : Result UploadMachineFileResponse ProtocolError :=
  match sr_outcome r with
  | Committed => Ok (mkResponse server_id (sr_path r) (sr_bytes_written r) (Some (sr_sha256 r))
                       (sr_cleanup_pending r))
  | Failed => Err (failure (default "machine_upload_failed"%string (sr_code r)) "the upload failed to publish")
  end.

Definition stored_result (upload_id : string) (epoch : Z)
    : U (option (Result UploadMachineFileResponse ProtocolError)) :=
  let! r := stored upload_id epoch in
  let! s := get in
  st_ret (answer_of (us_server_id s) <$> r).

(** ** Publishing

    [commit] holds the registry's lock to look up and to take the upload, and again for the
    journal; the publication runs without it.  The four parts are the atomic steps. *)

Definition complete (u : Upload) : bool :=
  is_none_or (up_declared u) (fun declared => (up_committed u =? declared) && (up_written u =? declared)).

Definition commit_take (upload_id : string) : U Upload :=
  let! u := get_mut upload_id in
  if complete u then discard upload_id ;! st_ret u
  else st_throw (failure "machine_upload_size_mismatch" "the upload did not deliver exactly its declared size").

Definition publish (upload_id : string) (u : Upload) : U unit := fun s =>
  let content := f_content (up_staged u) in
  let unstage := set_disk (set_staging (fun names => names ∖ {[staging_name (up_path u) upload_id]})) in
  match call (CallPublish (up_path u) (up_overwrite u)) s with
  | (Ok _, s') => (Ok tt, unstage (set_disk (set_published (up_path u) content) s'))
  | (Err error, s') =>
      (Err (io_failure error),
       if is_publication_uncertain error then set_disk (set_published (up_path u) content) s'
       else (drop_staged (up_path u) upload_id s').2)
  end.

Definition commit_publish (upload_id : string) (u : Upload) : U unit := fun s =>
  match (open_root ;! io (call (CallValidateTarget (up_path u)))) s with
  | (Ok _, s') => publish upload_id u s'
  | (Err error, s') => (Err error, (drop_staged (up_path u) upload_id s').2)
  end.

Definition final_hash (u : Upload) : bytes := if chunked u then up_committed_hash u else up_file_hash u.

Definition receipt_of (upload_id : string) (u : Upload) (epoch : Z) (pending : bool) : StoredResult :=
  mkStored upload_id (up_path u) (up_written u) (sha256_hex (final_hash u)) epoch pending Committed None.
Definition failed_receipt (upload_id : string) (u : Upload) (epoch : Z) (code : string) : StoredResult :=
  mkStored upload_id "" (up_written u) (sha256_hex (final_hash u)) epoch false Failed (Some code).

Definition commit_record (upload_id : string) (u : Upload) (outcome : Result unit ProtocolError) (epoch : Z)
    : U UploadMachineFileResponse :=
  let published pending :=
    let result := receipt_of upload_id u epoch pending in
    (if chunked u then store_result result epoch else st_ret tt) ;!
    let! s := get in
    st_ret (mkResponse (us_server_id s) (sr_path result) (sr_bytes_written result) (Some (sr_sha256 result))
              (sr_cleanup_pending result)) in
  match outcome with
  | Ok _ => published false
  | Err error =>
      if pe_code error =s "machine_upload_commit_uncertain" then published true
      else
        (if chunked u then store_result (failed_receipt upload_id u epoch (pe_code error)) epoch
         else st_ret tt) ;!
        st_throw error
  end.

Definition commit (upload_id : string) (epoch : Z) : U UploadMachineFileResponse :=
  let! known := stored_result upload_id epoch in
  match known with
  | Some answer => st_lift answer
  | None =>
      let! u := commit_take upload_id in
      fun s =>
        let '(outcome, s1) := commit_publish upload_id u s in
        (ignore persist_intents ;! commit_record upload_id u outcome epoch) s1
  end.

(** The JSON answers of [result]. *)
Inductive ResultAnswer : Type :=
| RCommitted (response : UploadMachineFileResponse)
| RFailed (code : string)
| RActive (committed_offset written_offset : Z) (parts : list PartRecord)
| RUnknown.

Definition result (upload_id : string) (epoch : Z) : U ResultAnswer :=
  let! known := stored_result upload_id epoch in
  match known with
  | Some (Ok response) => st_ret (RCommitted response)
  | Some (Err error) => st_ret (RFailed (pe_code error))
  | None =>
      let! s := get in
      st_ret (match us_entries s !! upload_id with
              | Some u => RActive (up_committed u) (up_written u) (up_parts u)
              | None => RUnknown
              end)
  end.

(** ** Ending *)

Definition abort (upload_id : string) : U bool :=
  let! s := get in
  match us_entries s !! upload_id with
  | None => st_ret false
  | Some u =>
      discard upload_id ;! drop_staged (up_path u) upload_id ;! ignore persist_intents ;! st_ret true
  end.

Definition idle_for (now : Z) (u : Upload) : Z := duration_since now (up_touched u).
Definition lived_for (now : Z) (u : Upload) : Z := duration_since now (up_created u).
Definition kept_by_reap (now : Z) (u : Upload) : bool :=
  (idle_for now u <? from_secs MACHINE_UPLOAD_IDLE_SECONDS)
  && (lived_for now u <? from_secs MACHINE_UPLOAD_MAX_LIFETIME_SECONDS).

Fixpoint drop_all (entries : list (string * Upload)) : U unit :=
  match entries with
  | [] => st_ret tt
  | (id, u) :: entries' => drop_staged (up_path u) id ;! drop_all entries'
  end.

(** [locked]: another thread holds the registry ([try_lock] fails). *)
Definition reap (locked : bool) (now : Z) : U nat :=
  if locked then st_ret O
  else
    let! s := get in
    let gone := filter (fun e : string * Upload => kept_by_reap now e.2 = false) (us_entries s) in
    modify (set_entries (filter (fun e : string * Upload => kept_by_reap now e.2 = true))) ;!
    drop_all (map_to_list gone) ;!
    let reaped := size gone in
    (if (0 <? Z.of_nat reaped) then ignore persist_intents else st_ret tt) ;!
    st_ret reaped.
End Program.

#[global] Arguments call {OS} c s : simpl never.
#[global] Arguments cleanup_staging {OS} path name s : simpl never.
#[global] Arguments drop_staged {OS} path upload_id s : simpl never.
