(* ===== verification/MachineUploadFacts.v ===== *)
(** * Facts about uploads on the Controller *)

From S2P Require Import Prelude RustStr Protocol StateLogic MachineFile MachineUpload.
Local Open Scope Z_scope.

(** ** Reasoning about [StM Uploads] *)

Lemma stable_ignore {A E} P (m : StM Uploads A E) : stable P m -> stable P (ignore m).
Proof. intros Hm s Hs. apply (Hm s Hs). Qed.

Lemma bind_get {A} (k : Uploads -> U A) s : st_bind get k s = k s s.
Proof. done. Qed.

Lemma stable_io {A} P (m : StM Uploads A IoError) : stable P m -> stable P (io m).
Proof. intros Hm s Hs. specialize (Hm s Hs). unfold io, st_map_err. by destruct (m s). Qed.
Lemma stable_get P : stable P get.
Proof. by intros s Hs. Qed.

Create HintDb uploads.
#[export] Hint Resolve stable_ret stable_throw stable_lift stable_ignore stable_io stable_get : uploads.

(** Splits a program at its binds and branches. *)
Ltac steps := repeat
  lazymatch goal with
  | |- stable _ (st_bind _ _) => apply stable_bind; [|intros ?]
  | |- stable _ (if ?b then _ else _) => destruct b eqn:?
  | |- stable _ (match ?l with _ => _ end) => destruct l eqn:?
  | |- stable _ (ignore _) => apply stable_ignore
  | |- stable _ (io _) => apply stable_io
  | |- stable _ _ => solve [auto with uploads]
  end.

(** ** Calls into the file system

    [system_closed P]: a call, and a change of the staging names or of the published files, keep
    [P].  Everything that only calls the file system then keeps it. *)

Definition call_closed (P : Uploads -> Prop) : Prop := forall s, P s -> P (next_call s).
Record system_closed (P : Uploads -> Prop) : Prop := {
  closed_call : call_closed P;
  closed_staging g s : P s -> P (set_disk (set_staging g) s);
  closed_published path content s : P s -> P (set_disk (set_published path content) s)
}.
Definition journal_closed (P : Uploads -> Prop) (name : string) : Prop :=
  forall b s, P s -> P (set_disk (set_journal name (Some b)) s).

Section Calls.
Context {OS : Os} {CO : Codec}.
Context (P : Uploads -> Prop) (HP : call_closed P).

Lemma call_stable c : stable P (call c).
Proof. intros s Hs. by apply HP. Qed.
Hint Resolve call_stable : uploads.

Lemma open_root_stable : stable P open_root.
Proof.
  assert (forall l, stable P (open_protected_all l)) as H1.
  { induction l as [|path l IH]; cbn [open_protected_all]; [auto with uploads|]. apply stable_bind; [|auto].
    intros s Hs. pose proof (call_stable (CallOpenProtected path) s Hs).
    destruct (call _ s) as [[] s']; simpl in *; [done|]. by case_bool_decide. }
  assert (forall l, stable P (reserve_all l)) as H2 by (induction l; cbn [reserve_all]; steps).
  unfold open_root. steps; auto.
Qed.
Hint Resolve open_root_stable : uploads.

Lemma read_journal_stable {T} (decode : bytes -> option (list T)) name : stable P (read_journal decode name).
Proof.
  intros s Hs. unfold read_journal. pose proof (call_stable (CallReadJournal name) s Hs) as H1.
  destruct (call _ s) as [[] s']; simpl in *; [|by case_bool_decide].
  destruct (get_journal name _) as [content|]; [|done].
  match goal with |- P (?m s').2 => cut (stable P m); [by auto|] end. steps.
Qed.

End Calls.
#[export] Hint Resolve closed_call call_stable open_root_stable read_journal_stable : uploads.

Section System.
Context {OS : Os} {CO : Codec} (reserved_name : string -> string).
Context (P : Uploads -> Prop) (HP : system_closed P).
Let Hcall : call_closed P := closed_call P HP.
Hint Resolve Hcall : uploads.

Lemma write_journal_stable name encoded :
  (forall b s, encoded = Some b -> P s -> P (set_disk (set_journal name (Some b)) s)) ->
  stable P (write_journal name encoded).
Proof.
  intros Hb. unfold write_journal. destruct encoded as [b|]; cbn [ok_or]; [|by intros s Hs].
  rewrite bind_lift_ok. steps. intros s Hs. pose proof (call_stable P Hcall (CallCommitJournal name) s Hs) as H1.
  destruct (call _ s) as [[] s']; simpl in *; [by apply Hb|]. case_match; [by apply Hb|done].
Qed.

Lemma cleanup_stable path name : stable P (cleanup_staging path name).
Proof. unfold cleanup_staging. steps. intros s Hs. by apply HP. Qed.
Lemma drop_staged_stable path id : stable P (drop_staged path id).
Proof. unfold drop_staged. steps. intros s Hs. by apply HP. Qed.
Hint Resolve cleanup_stable drop_staged_stable : uploads.

Lemma sweep_one_stable r : stable P (sweep_one reserved_name r).
Proof.
  unfold sweep_one. steps. intros s Hs.
  pose proof (cleanup_stable (in_path r) (temporary_name (in_id r)) s Hs).
  destruct (cleanup_staging _ _ s) as [[] s']; simpl in *; [done|]. by repeat case_match.
Qed.
Hint Resolve sweep_one_stable : uploads.
Lemma sweep_stable intents : stable P (sweep reserved_name intents).
Proof. induction intents as [|i l IH]; cbn [sweep]; steps. Qed.

Lemma persist_results_stable r : journal_closed P JOURNAL_RESULTS -> stable P (persist_results r).
Proof. intros Hj. unfold persist_results. steps. apply write_journal_stable. intros b s _. apply Hj. Qed.
Lemma persist_intents_stable : journal_closed P JOURNAL_INTENTS -> stable P persist_intents.
Proof. intros Hj. unfold persist_intents. steps. apply write_journal_stable. intros b s _. apply Hj. Qed.

Lemma publish_stable id u : stable P (commit_publish id u).
Proof.
  intros s Hs. unfold commit_publish.
  assert (stable P (open_root ;! io (call (CallValidateTarget (up_path u))))) as H1 by steps.
  specialize (H1 s Hs). destruct ((open_root ;! _) s) as [[] s1]; simpl in H1.
  2:{ simpl. by apply drop_staged_stable. }
  unfold publish. pose proof (call_stable P Hcall (CallPublish (up_path u) (up_overwrite u)) s1 H1) as H2.
  destruct (call _ s1) as [[] s2]; simpl in *; [by apply HP, HP|].
  case_match; [by apply HP|by apply drop_staged_stable].
Qed.

Lemma store_result_stable receipt now : journal_closed P JOURNAL_RESULTS ->
  (forall s, P s -> P (set_results (add_receipt now receipt (us_results s)) s)) ->
  stable P (store_result receipt now).
Proof.
  intros Hj Hr s Hs. unfold store_result, st_bind at 1. simpl. destruct (existsb _ _); [done|].
  unfold st_bind at 1. simpl. apply persist_results_stable; [done|]. by apply Hr.
Qed.
End System.

#[export] Hint Resolve cleanup_stable drop_staged_stable
  sweep_stable publish_stable persist_results_stable persist_intents_stable : uploads.

(** A predicate on the entries alone. *)
Definition entries_only (P : Uploads -> Prop) : Prop :=
  forall s s', us_entries s' = us_entries s -> P s -> P s'.

Lemma entries_only_closed P : entries_only P -> system_closed P.
Proof. intros HP. split; [intros s|intros g s|intros path c s]; by apply (HP s). Qed.
Lemma entries_only_journal P name : entries_only P -> journal_closed P name.
Proof. intros HP b s. by apply HP. Qed.
#[export] Hint Resolve entries_only_closed entries_only_journal : uploads.

(** ** Chunks, parts and the staging file *)

Section Chunks.
Context {OS : Os} {CO : Codec} (reserved_name : string -> string).

(** The parts cut [data] into consecutive pieces, and each digest is the one of its piece. *)
Fixpoint parts_match (offset : Z) (parts : list PartRecord) (data : bytes) : Prop :=
  match parts with
  | [] => data = []
  | p :: ps => exists a b, data = a ++ b /\ pr_offset p = offset /\ pr_length p = Z.of_nat (length a)
                 /\ pr_sha256 p = sha256_hex a /\ parts_match (offset + pr_length p) ps b
  end.

Lemma parts_match_snoc offset parts data a sha :
  parts_match offset parts data -> sha = sha256_hex a ->
  parts_match offset (parts ++ [mkPart (offset + Z.of_nat (length data)) (Z.of_nat (length a)) sha]) (data ++ a).
Proof.
  intros Hp Hs. revert offset data Hp. induction parts as [|p ps IH]; intros offset data; simpl.
  - intros ->. exists a, []. simpl. rewrite app_nil_r, Z.add_0_r. by split_and!.
  - intros (a1 & b1 & -> & Ho & Hl & Hh & Hb). exists a1, (b1 ++ a). rewrite <- app_assoc.
    split_and!; [done..|]. apply IH in Hb. rewrite length_app, Nat2Z.inj_add, Z.add_assoc, <- Hl. exact Hb.
Qed.

Definition cap (u : Upload) : Z := default MACHINE_UPLOAD_MAX_BYTES (up_declared u).
Definition content (u : Upload) : bytes := f_content (up_staged u).
Definition content_length (u : Upload) : Z := Z.of_nat (length (content u)).

(** The accounting of one upload: the three hashers, the offsets, the parts and the file agree. *)
Record upload_fine (u : Upload) : Prop := {
  fine_committed : Z.of_nat (length (up_committed_hash u)) = up_committed u;
  fine_written : Z.of_nat (length (up_file_hash u)) = up_written u;
  fine_hash : up_file_hash u = up_committed_hash u ++ up_part_hash u;
  fine_cap : up_written u <= cap u <= MACHINE_UPLOAD_MAX_BYTES;
  fine_parts : parts_match 0 (up_parts u) (up_committed_hash u);
  fine_position : f_position (up_staged u) = content_length u;
  fine_prefix : take (length (up_committed_hash u)) (content u) = up_committed_hash u;
  fine_length : up_written u <= content_length u;
  fine_clean : content_length u = up_written u -> content u = up_file_hash u;
  fine_done : is_none_or (up_declared u) (Z.eqb (up_committed u)) = true -> content_length u = up_written u
}.

Definition entries_fine (s : Uploads) : Prop := map_Forall (fun _ u => upload_fine u) (us_entries s).
Definition others_fine (upload_id : string) (s : Uploads) : Prop :=
  forall id u, id <> upload_id -> us_entries s !! id = Some u -> upload_fine u.

Lemma entries_fine_only : entries_only entries_fine.
Proof. intros s s' He. unfold entries_fine. by rewrite He. Qed.
Lemma others_fine_only id : entries_only (others_fine id).
Proof. intros s s' He. unfold others_fine. by rewrite He. Qed.
Hint Resolve entries_fine_only others_fine_only : uploads.

Lemma entries_others id s : entries_fine s -> others_fine id s.
Proof. intros Hs k u _ Hu. by apply Hs in Hu. Qed.

Lemma store_fine id u s : others_fine id s -> upload_fine u -> entries_fine (store id u s).2.
Proof.
  intros Hs Hu k v. simpl. rewrite lookup_insert_Some. intros [[<- <-]|[Hne Hv]]; [done|]. by eapply Hs.
Qed.
Lemma store_others id u s : others_fine id s -> others_fine id (store id u s).2.
Proof. intros Hs k v Hne. simpl. rewrite lookup_insert_ne by done. by apply Hs. Qed.
Lemma discard_fine id s : others_fine id s -> entries_fine (discard id s).2.
Proof.
  intros Hs k v. simpl. rewrite lookup_delete_Some. intros [Hne Hv]. by eapply Hs.
Qed.

Lemma new_upload_fine path overwrite size now :
  is_some_and size (fun size => MACHINE_UPLOAD_MAX_BYTES <? size) = false ->
  is_none_or size (Z.leb 0) = true -> upload_fine (new_upload path overwrite size now).
Proof.
  intros Hs H0. split; try done. unfold cap, content_length, new_upload, MACHINE_UPLOAD_MAX_BYTES in *.
  simpl. destruct size as [n|]; simpl in *; lia.
Qed.

Lemma rewound_fine u : upload_fine u ->
  upload_fine (forget (with_file (seek (up_committed u)) (with_file (set_len (up_committed u)) u))).
Proof.
  intros [H1 H2 H3 H4 H5 H6 H7 H8 H9 H10].
  assert (Z.to_nat (up_committed u) = length (up_committed_hash u)) as Hn by lia.
  assert (length (up_committed_hash u) <= length (content u))%nat as Hle.
  { unfold content_length in H8. rewrite H3, length_app in H2. lia. }
  assert (resize (Z.to_nat (up_committed u)) Ascii.zero (content u) = up_committed_hash u) as Hr.
  { rewrite Hn, resize_le by done. exact H7. }
  assert (up_committed u <= up_written u) by (rewrite H3, length_app in H2; lia).
  split; unfold forget, with_file, seek, set_len, content_length, content, cap in *; simpl in *;
    rewrite ?Hr, ?app_nil_r; try done; try lia.
  by rewrite firstn_all.
Qed.

Context {OL : OsLaws}.

Lemma rewind_run id u s r s' : entries_fine s -> upload_fine u ->
  rewind id u s = (r, s') ->
  entries_fine s' /\ (forall u', r = Ok u' -> upload_fine u' /\ up_declared u' = up_declared u).
Proof.
  intros Hs Hu. unfold rewind, io, st_bind, st_map_err, store, modify, call. simpl.
  rewrite seeks. case_match; simpl.
  - intros [= <- <-]. pose proof (rewound_fine u Hu) as Hf. split; [|by intros ? [= <-]].
    apply (store_fine id _ (set_entries <[id := with_file (set_len (up_committed u)) u]> s)); [|done].
    by apply (store_others id _ s), entries_others.
  - intros [= <- <-]. split; [|by intros]. by apply (entries_fine_only s).
Qed.

Lemma place_run id offset u s r s' : entries_fine s -> upload_fine u ->
  place id offset u s = (r, s') ->
  entries_fine s' /\ (forall u', r = Ok u' -> upload_fine u' /\ up_declared u' = up_declared u).
Proof.
  intros Hs Hu. unfold place. destruct (chunked u), offset as [o|]; try case_match;
    try (intros [= <- <-]; split; [done|by intros ? [=]; subst]); [by apply rewind_run|].
  case_match; intros [= <- <-]; (split; [done|by intros ? [=]; subst]).
Qed.

Lemma abandon_fine id u s :
  (chunked u = true -> upload_fine u /\ entries_fine s) -> others_fine id s ->
  entries_fine (abandon id u s).2.
Proof.
  intros Hu Hs. unfold abandon. destruct (chunked u).
  - destruct (Hu eq_refl) as [Hf He]. unfold ignore. simpl.
    destruct (rewind id u s) as [r s'] eqn:E. by apply rewind_run in E as [? _].
  - assert (stable entries_fine (drop_staged (up_path u) id ;! ignore persist_intents)) as H1 by steps.
    unfold st_bind at 1. simpl. apply H1. by apply (discard_fine id s).
Qed.

(** What was written so far, and then [data], of which a failing write stored a part. *)
Lemma write_fine u data : upload_fine u -> data <> [] ->
  up_written u + Z.of_nat (length data) <= cap u ->
  let grown := with_file (write_at data) u in
  content grown = content u ++ data /\ f_position (up_staged grown) = content_length grown
  /\ (up_written u < cap u).
Proof.
  intros [H1 H2 H3 H4 H5 H6 H7 H8 H9 H10] Hd Hc. unfold content_length, content, with_file in *. simpl.
  destruct data as [|a data]; [done|]. unfold write_at.
  assert (Z.to_nat (f_position (up_staged u)) = length (f_content (up_staged u))) as -> by lia.
  rewrite resize_all, drop_ge, app_nil_r by lia. simpl in *. rewrite !length_app. simpl. by split_and!; [|lia..].
Qed.

Lemma short_write_fine u data n : upload_fine u -> data <> [] -> chunked u = true ->
  up_written u + Z.of_nat (length data) <= cap u ->
  upload_fine (with_file (write_at (take n data)) u).
Proof.
  intros Hu Hd Hch Hc. destruct (decide (take n data = [])) as [->|Hne].
  { by replace (with_file (write_at []) u) with u by (by destruct u). }
  assert (up_written u + Z.of_nat (length (take n data)) <= cap u) as Hc'.
  { rewrite length_take. lia. }
  destruct (write_fine u (take n data) Hu Hne Hc') as (Hcont & Hpos & Hlt).
  destruct Hu as [H1 H2 H3 H4 H5 H6 H7 H8 H9 H10].
  assert (content_length (with_file (write_at (take n data)) u)
          = content_length u + Z.of_nat (length (take n data))) as Hlen.
  { unfold content_length. rewrite Hcont, length_app. lia. }
  assert (0 < Z.of_nat (length (take n data))) as Hpos' by (destruct (take n data); simpl in *; [done|lia]).
  assert (up_committed u <= up_written u) by (rewrite H3, length_app in H2; lia).
  split; try done; simpl.
  - rewrite Hcont, take_app_le; [done|]. rewrite H3, length_app in H2. unfold content_length in H8. lia.
  - rewrite Hlen. lia.
  - rewrite Hlen. lia.
  - rewrite Hlen. unfold cap in Hlt. destruct (up_declared u) as [d|] eqn:Hdecl; simpl in *.
    + intros ?%Z.eqb_eq. lia.
    + unfold chunked in Hch. by rewrite Hdecl in Hch.
Qed.

Lemma absorbed_fine u data now : upload_fine u -> data <> [] ->
  up_written u + Z.of_nat (length data) <= cap u ->
  upload_fine (absorb data (up_written u + Z.of_nat (length data)) now (with_file (write_at data) u)).
Proof.
  intros Hu Hd Hc. destruct (write_fine u data Hu Hd Hc) as (Hcont & Hpos & Hlt).
  destruct Hu as [H1 H2 H3 H4 H5 H6 H7 H8 H9 H10].
  assert (content_length (with_file (write_at data) u) = content_length u + Z.of_nat (length data)) as Hlen.
  { unfold content_length. rewrite Hcont, length_app. lia. }
  assert (up_committed u <= up_written u) by (rewrite H3, length_app in H2; lia).
  unfold cap, content_length, content in *. simpl in *.
  split; unfold cap, content_length, content in *; simpl in *; try done.
  - rewrite length_app. lia.
  - by rewrite H3, app_assoc.
  - lia.
  - rewrite Hcont, take_app_le; [done|]. rewrite H3, length_app in H2. lia.
  - rewrite Hlen. lia.
  - rewrite Hlen, Hcont. intros He. f_equal. apply H9. lia.
  - rewrite Hlen. intros Hdn. destruct (up_declared u) as [d|] eqn:Hdecl; simpl in *.
    + apply Z.eqb_eq in Hdn. lia.
    + specialize (H10 eq_refl). lia.
Qed.

Lemma write_all_run id data u s r s' : entries_fine s -> upload_fine u ->
  up_written u + Z.of_nat (length data) <= cap u ->
  write_all id data u s = (r, s') ->
  others_fine id s'
  /\ match r with
     | Ok u' => (data = [] /\ u' = u /\ entries_fine s') \/ (data <> [] /\ u' = with_file (write_at data) u)
     | Err (u', _) => up_path u' = up_path u /\ chunked u' = chunked u
                      /\ (chunked u = true -> upload_fine u' /\ entries_fine s')
     end.
Proof.
  intros Hs Hu Hc. unfold write_all. destruct data as [|a data].
  { intros [= <- <-]. split; [by apply entries_others|]. by left. }
  assert (others_fine id (call CallWrite s).2) as H1.
  { apply call_stable; [auto with uploads|]. by apply entries_others. }
  destruct (call CallWrite s) as [[[]|e] s1]; simpl in H1; intros [= <- <-].
  - split; [by apply store_others|]. by right.
  - split; [by apply store_others|]. split_and!; [done|done|]. intros Hch.
    assert (upload_fine (with_file (write_at (take (os_short (us_calls s)) (a :: data))) u)) as Hf
      by (by apply short_write_fine). split; [done|by apply (store_fine id _ s1)].
Qed.

Lemma get_mut_run id s r s' : get_mut id s = (r, s') ->
  s' = s /\ (forall u, r = Ok u -> us_entries s !! id = Some u).
Proof.
  unfold get_mut, st_bind, get, st_lift. destruct (us_entries s !! id); intros [= <- <-]; (split; [done|]); by intros ? [=]; subst.
Qed.

Lemma chunk_fine id offset encoded now : stable entries_fine (chunk id offset encoded now).
Proof.
  intros s Hs. unfold chunk, st_bind at 1, st_lift.
  destruct (base64_decode encoded) as [data|]; simpl; [|done].
  destruct (_ <? _) eqn:Hsize; [done|]. unfold st_bind at 1.
  destruct (get_mut id s) as [r1 s1] eqn:E1. apply get_mut_run in E1 as [-> E1].
  destruct r1 as [u|]; [|done]. specialize (E1 u eq_refl). assert (upload_fine u) as Hu by by apply Hs in E1.
  unfold st_bind at 1. destruct (place id offset u s) as [r2 s2] eqn:E2.
  apply place_run in E2 as [Hs2 E2]; [|done..]. destruct r2 as [u2|]; [|done].
  destruct (E2 u2 eq_refl) as [Hu2 _]. clear E2 E1 Hu Hs.
  assert (0 <= up_written u2) as Hw by (rewrite <- (fine_written _ Hu2); lia).
  pose proof (fine_cap _ Hu2) as Hcap. change (default _ (up_declared u2)) with (cap u2).
  unfold MACHINE_UPLOAD_MAX_BYTES, MACHINE_UPLOAD_CHUNK_BYTES in *.
  assert (saturating_add (up_written u2) (Z.of_nat (length data)) = up_written u2 + Z.of_nat (length data)) as ->.
  { unfold saturating_add, u64_max. lia. }
  destruct (cap u2 <? _) eqn:Htotal.
  { unfold st_bind. pose proof (abandon_fine id u2 s2 (fun _ => conj Hu2 Hs2) (entries_others _ _ Hs2)) as Hg.
    by destruct (abandon id u2 s2) as [[] ?]. }
  destruct (write_all id data u2 s2) as [r3 s3] eqn:E3.
  apply write_all_run in E3 as [Ho E3]; [|done|done|lia]. destruct r3 as [u3|[u3 e]].
  - unfold st_bind. simpl. apply (store_fine id _ s3); [done|].
    destruct E3 as [(-> & -> & _)|[Hd ->]]; [|apply absorbed_fine; [done|done|lia]].
    destruct Hu2. split; unfold absorb, cap, content_length, content in *; simpl in *;
      rewrite ?app_nil_r, ?Z.add_0_r; done.
  - destruct E3 as (_ & Hch & Hf). unfold st_bind.
    pose proof (abandon_fine id u3 s3) as Hg. rewrite Hch in Hg. specialize (Hg Hf Ho).
    by destruct (abandon id u3 s3) as [[] ?].
Qed.

Lemma closed_fine u offset length sha now : upload_fine u ->
  content_length u = up_written u -> sha256_hex (up_part_hash u) = sha ->
  offset = up_committed u -> saturating_add offset length = up_written u ->
  upload_fine (close_part (mkPart offset length sha) now u).
Proof.
  intros [H1 H2 H3 H4 H5 H6 H7 H8 H9 H10] Hlen Hsha -> Hsum.
  assert (length = Z.of_nat (List.length (up_part_hash u))) as Hl.
  { unfold saturating_add, u64_max, MACHINE_UPLOAD_MAX_BYTES in *. rewrite H3, length_app in H2. lia. }
  split; unfold close_part, cap, content_length, content in *; simpl in *; try done.
  - by rewrite app_nil_r.
  - rewrite H3, Hl. replace (up_committed u) with (0 + Z.of_nat (List.length (up_committed_hash u))) by lia.
    by apply parts_match_snoc.
  - rewrite H9 by done. apply firstn_all.
Qed.

Lemma rewind_then_fine {A} id u s (e : ProtocolError) : entries_fine s -> upload_fine u ->
  entries_fine ((rewind id u ;! st_throw (A:=A) e) s).2.
Proof.
  intros Hs Hu. unfold st_bind. destruct (rewind id u s) as [r s'] eqn:E.
  apply rewind_run in E as [? _]; [|done..]. by destruct r.
Qed.

Lemma part_commit_fine id offset length sha now : stable entries_fine (part_commit id offset length sha now).
Proof.
  intros s Hs. unfold part_commit. destruct (_ || _); [done|]. unfold st_bind at 1.
  destruct (get_mut id s) as [r1 s1] eqn:E1. apply get_mut_run in E1 as [-> E1].
  destruct r1 as [u|]; [|done]. specialize (E1 u eq_refl). assert (upload_fine u) as Hu by by apply Hs in E1.
  destruct (negb (chunked u)); [done|]. destruct (_ <=? _); [by destruct (existsb _ _)|].
  destruct (negb (offset =? _) || _) eqn:Ho; [done|]. bool_hyps. apply Z.eqb_eq in H, H0.
  unfold st_bind at 1. pose proof (stable_io entries_fine (call CallMetadata)
    (call_stable _ (closed_call _ (entries_only_closed _ entries_fine_only)) _) s Hs) as Hs2.
  destruct (io (call CallMetadata) s) as [[] s2]; simpl in Hs2; [|done].
  destruct (negb (_ =? up_written u)) eqn:Hd; [by apply rewind_then_fine|].
  destruct (negb (sha256_hex _ =s _)) eqn:Hh; [by apply rewind_then_fine|]. bool_hyps.
  apply str_eqb_eq in Hh. apply Z.eqb_eq in Hd. unfold st_bind. simpl. apply (store_fine id _ s2); [by apply entries_others|].
  by apply closed_fine.
Qed.
End Chunks.
