(* ===== verification/MachineUploadRuns.v ===== *)
(** * Runs of the upload registry

    The commands of concurrent connections interleave at the registry's lock; a commit holds the
    lock while it takes its upload and while it writes the journal, not while it publishes, and a
    receipt is stored under the lock of the receipts and written to the journal without it.  The
    recovery holds no lock: [world_step] splits it where another connection can come in between,
    also another recovery.  A Controller may stop at any step and start again from its journals.
    [machine_step] describes the runs in which a recovery and a commit's last step are not
    interrupted. *)

From S2P Require Import Prelude RustStr Protocol StateLogic MachineFile MachineUpload MachineUploadFacts.
Local Open Scope Z_scope.

(** What runs under the lock.  Sizes, offsets and lengths are [u64]. *)
Inductive UploadOp : Type :=
| OpBegin (upload_id directory file_name : string) (overwrite : bool) (declared : option Z) (now epoch : Z)
| OpChunk (upload_id : string) (offset : option Z) (content_base64 : string) (now : Z)
| OpPartCommit (upload_id : string) (offset length : Z) (sha256 : string) (now : Z)
| OpLookup (upload_id : string) (epoch : Z)
| OpAbort (upload_id : string)
| OpReap (locked : bool) (now : Z)
| OpRecover (epoch : Z).

(** How far a commit is: the upload was taken, published (or not), and the journal written. *)
Inductive Phase : Type :=
| Taken
| Published (outcome : Result unit ProtocolError)
| Settled (outcome : Result unit ProtocolError).

Record Commit : Type := mkCommit { cm_id : string; cm_upload : Upload; cm_phase : Phase }.

Record Machine : Type := mkMachine { mc_uploads : Uploads; mc_commits : list Commit }.

Section Runs.
Context {OS : Os} {CO : Codec} (reserved_name : string -> string).

(** The state an operation leaves. *)
Definition run_op (op : UploadOp) (s : Uploads) : Uploads :=
  match op with
  | OpBegin id directory file_name overwrite declared now epoch =>
      (begin reserved_name id directory file_name overwrite declared now epoch s).2
  | OpChunk id offset content now => (chunk id offset content now s).2
  | OpPartCommit id offset length sha256 now => (part_commit id offset length sha256 now s).2
  | OpLookup id epoch => (result reserved_name id epoch s).2
  | OpAbort id => (abort id s).2
  | OpReap locked now => (reap locked now s).2
  | OpRecover epoch => (recover reserved_name epoch s).2
  end.

Definition op_wf (op : UploadOp) : Prop :=
  match op with OpBegin _ _ _ _ declared _ _ => is_none_or declared (Z.leb 0) = true | _ => True end.

Inductive machine_step : Machine -> Machine -> Prop :=
| step_run op s cs : op_wf op -> machine_step (mkMachine s cs) (mkMachine (run_op op s) cs)
| step_take id s cs u s' :
    commit_take id s = (Ok u, s') ->
    machine_step (mkMachine s cs) (mkMachine s' (cs ++ [mkCommit id u Taken]))
| step_publish i id u s cs r s' :
    cs !! i = Some (mkCommit id u Taken) -> commit_publish id u s = (r, s') ->
    machine_step (mkMachine s cs) (mkMachine s' (<[i := mkCommit id u (Published r)]> cs))
| step_settle i id u r s cs :
    cs !! i = Some (mkCommit id u (Published r)) ->
    machine_step (mkMachine s cs)
      (mkMachine (ignore persist_intents s).2 (<[i := mkCommit id u (Settled r)]> cs))
| step_record i id u r s cs epoch :
    cs !! i = Some (mkCommit id u (Settled r)) ->
    machine_step (mkMachine s cs) (mkMachine (commit_record id u r epoch s).2 (delete i cs))
| step_restart s cs :
    machine_step (mkMachine s cs)
      (mkMachine (uploads_new (us_server_id s) (us_protected s) (us_disk s) (us_calls s)) []).

Definition machine_init (server_id : string) (protected : list string) : Machine :=
  mkMachine (uploads_new server_id protected (mkDisk None None ∅ ∅) 0) [].

Definition machine_reach (server_id : string) (protected : list string) : Machine -> Prop :=
  rtc machine_step (machine_init server_id protected).

(** What [result] does to the state is what the lookup of a commit does. *)
Lemma lookup_effect id epoch s : (result reserved_name id epoch s).2 = (stored_result reserved_name id epoch s).2.
Proof.
  unfold result, st_bind at 1. destruct (stored_result reserved_name id epoch s) as [[[[]|]|] s']; done.
Qed.

(** The commit of one connection with nothing in between is a sequence of these steps. *)
Lemma commit_steps id epoch s :
  rtc machine_step (mkMachine s []) (mkMachine (commit reserved_name id epoch s).2 []).
Proof.
  unfold commit, st_bind at 1.
  assert (machine_step (mkMachine s []) (mkMachine (stored_result reserved_name id epoch s).2 [])) as H1.
  { rewrite <- lookup_effect. by apply (step_run (OpLookup id epoch)). }
  destruct (stored_result reserved_name id epoch s) as [[[a|]|e] s1];
    [exact (rtc_once _ _ H1)| |exact (rtc_once _ _ H1)].
  eapply rtc_l; [exact H1|]. unfold st_bind at 1. destruct (commit_take id s1) as [[u|e] s2] eqn:E2.
  2:{ revert E2. unfold commit_take, get_mut, st_bind. simpl.
      destruct (us_entries s1 !! id); simpl; [case_match; [done|]|]; intros [= _ <-]; apply rtc_refl. }
  eapply rtc_l; [by apply step_take|]. simpl.
  destruct (commit_publish id u s2) as [r s3] eqn:E3.
  eapply rtc_l; [by eapply (step_publish 0)|]. simpl.
  eapply rtc_l; [by eapply (step_settle 0)|]. simpl.
  unfold st_bind at 1. destruct (ignore persist_intents s3) as [v s4] eqn:E4. unfold ignore in E4.
  injection E4 as <- <-. apply rtc_once. by eapply (step_record 0).
Qed.

(** ** Recoveries that overlap *)

(** How far a recovery is: sweeping the recorded names, the journal of intents written, the names
    left over taken into memory, the receipts read, and taken into memory. *)
Inductive Recovery : Type :=
| Sweeping (todo : list JournaledIntent) (kept : list IntentRecord)
| Rewritten (kept : list IntentRecord)
| Reading
| Loaded (results : list StoredResult)
| Finishing.

(** The journals under way: the recoveries, and the receipts still to be written. *)
Record World : Type := mkWorld {
  wd_uploads : Uploads;
  wd_commits : list Commit;
  wd_recoveries : list Recovery;
  wd_snapshots : list (list StoredResult)
}.

(** [recover] up to the first turn of its loop. *)
Definition recover_open : U (list JournaledIntent) :=
  open_root ;!
  io (call CallTransferJournal) ;!
  io (cleanup_staging JOURNAL_INTENTS ".treer-transfer-upl_journal") ;!
  io (cleanup_staging JOURNAL_RESULTS ".treer-transfer-upl_results") ;!
  let! intents := read_journal decode_intents JOURNAL_INTENTS in
  if MACHINE_UPLOAD_MAX_ACTIVE + 1 <? Z.of_nat (length intents)
  then st_throw (failure "state_error" "too many upload recovery records")
  else st_ret intents.

(** What comes after a part of it; an error ends the recovery. *)
Definition proceed {A} (next : A -> Recovery) (r : Result A ProtocolError * Uploads) : option Recovery * Uploads :=
  match r with (Ok a, s') => (Some (next a), s') | (Err _, s') => (None, s') end.
Definition recovery_step (r : Recovery) (now : Z) (s : Uploads) : option Recovery * Uploads :=
  match r with
  | Sweeping (intent :: todo) kept =>
      proceed (fun k => Sweeping todo (kept ++ option_list k)) (sweep_one reserved_name (intent_from intent) s)
  | Sweeping [] kept => proceed (fun _ => Rewritten kept) (write_journal JOURNAL_INTENTS (encode_intents kept) s)
  | Rewritten kept => (Some Reading, set_unswept kept s)
  | Reading => proceed Loaded (read_journal decode_results JOURNAL_RESULTS s)
  | Loaded results => (Some Finishing, set_results (List.filter (retained now) results) s)
  | Finishing => (None, set_recovered s)
  end.

(** The receipt of a commit, if it leaves one. *)
Definition receipt_for (id : string) (u : Upload) (outcome : Result unit ProtocolError) (epoch : Z) : option StoredResult :=
  if chunked u then
    match outcome with
    | Ok _ => Some (receipt_of id u epoch false)
    | Err e => if pe_code e =s "machine_upload_commit_uncertain" then Some (receipt_of id u epoch true)
               else Some (failed_receipt id u epoch (pe_code e))
    end
  else None.
(** [store_result] under its lock: the snapshot it will write, and the new state. *)
Definition keep_receipt (receipt : option StoredResult) (now : Z) (s : Uploads) : list (list StoredResult) * Uploads :=
  match receipt with
  | None => ([], s)
  | Some r =>
      if existsb (fun x => sr_upload_id x =s sr_upload_id r) (us_results s) then ([], s)
      else let results := add_receipt now r (us_results s) in ([results], set_results results s)
  end.

(** The operations that begin with [self.recover()?]: they go on only once a recovery has finished. *)
Definition recovers (op : UploadOp) : bool :=
  match op with OpBegin _ _ _ _ _ _ _ | OpLookup _ _ | OpRecover _ => true | _ => false end.

Inductive Label : Type :=
| LRun | LTake | LPublish | LSettle | LRecord (now : Z) | LPersist
| LOpen | LRecovery (r : Recovery) (now : Z) | LRestart.

Definition drop_or_put {A} (i : nat) (o : option A) (l : list A) : list A :=
  match o with Some x => <[i := x]> l | None => delete i l end.

Inductive world_step : Label -> World -> World -> Prop :=
| world_run op s cs rs ps : op_wf op -> (recovers op = true -> us_recovered s = true) ->
    world_step LRun (mkWorld s cs rs ps) (mkWorld (run_op op s) cs rs ps)
| world_take id s cs rs ps u s' :
    commit_take id s = (Ok u, s') ->
    world_step LTake (mkWorld s cs rs ps) (mkWorld s' (cs ++ [mkCommit id u Taken]) rs ps)
| world_publish i id u s cs rs ps r s' :
    cs !! i = Some (mkCommit id u Taken) -> commit_publish id u s = (r, s') ->
    world_step LPublish (mkWorld s cs rs ps) (mkWorld s' (<[i := mkCommit id u (Published r)]> cs) rs ps)
| world_settle i id u r s cs rs ps :
    cs !! i = Some (mkCommit id u (Published r)) ->
    world_step LSettle (mkWorld s cs rs ps)
      (mkWorld (ignore persist_intents s).2 (<[i := mkCommit id u (Settled r)]> cs) rs ps)
| world_record i id u r s cs rs ps epoch now snapshots s' :
    cs !! i = Some (mkCommit id u (Settled r)) -> keep_receipt (receipt_for id u r epoch) now s = (snapshots, s') ->
    world_step (LRecord now) (mkWorld s cs rs ps) (mkWorld s' (delete i cs) rs (ps ++ snapshots))
| world_persist i results s cs rs ps :
    ps !! i = Some results ->
    world_step LPersist (mkWorld s cs rs ps) (mkWorld (ignore (persist_results results) s).2 cs rs (delete i ps))
| world_open s cs rs ps o s' :
    us_recovered s = false -> proceed (fun intents => Sweeping intents []) (recover_open s) = (o, s') ->
    world_step LOpen (mkWorld s cs rs ps) (mkWorld s' cs (rs ++ option_list o) ps)
| world_recovery i r now s cs rs ps o s' :
    rs !! i = Some r -> recovery_step r now s = (o, s') ->
    world_step (LRecovery r now) (mkWorld s cs rs ps) (mkWorld s' cs (drop_or_put i o rs) ps)
| world_restart s cs rs ps :
    world_step LRestart (mkWorld s cs rs ps)
      (mkWorld (uploads_new (us_server_id s) (us_protected s) (us_disk s) (us_calls s)) [] [] []).

Definition world_next (w w' : World) : Prop := exists l, world_step l w w'.
Definition world_init (server_id : string) (protected : list string) : World :=
  mkWorld (uploads_new server_id protected (mkDisk None None ∅ ∅) 0) [] [] [].
Definition world_reach (server_id : string) (protected : list string) : World -> Prop :=
  rtc world_next (world_init server_id protected).

Lemma world_reach_step server_id protected w w' l :
  world_reach server_id protected w -> world_step l w w' -> world_reach server_id protected w'.
Proof. intros Hw Hs. eapply rtc_r; [exact Hw|by exists l]. Qed.

(** A recovery with nothing in between but the pauses of other recoveries, which stay as they are,
    is the recovery of the program. *)
Lemma recovery_alone rs r now o s s' cs ps :
  recovery_step r now s = (o, s') ->
  world_next (mkWorld s cs (rs ++ [r]) ps) (mkWorld s' cs (rs ++ option_list o) ps).
Proof.
  intros E. exists (LRecovery r now). replace (rs ++ option_list o) with (drop_or_put (length rs) o (rs ++ [r])).
  - apply world_recovery; [|done]. by rewrite lookup_app_r, Nat.sub_diag by done.
  - destruct o as [x|]; simpl; [by rewrite insert_app_r_alt, Nat.sub_diag by done|].
    by rewrite delete_middle.
Qed.

Lemma sweep_alone rs todo kept s (now : Z) cs ps r s' :
  sweep reserved_name todo s = (r, s') ->
  rtc world_next (mkWorld s cs (rs ++ [Sweeping todo kept]) ps)
    (mkWorld s' cs (rs ++ match r with Ok more => [Sweeping [] (kept ++ more)] | Err _ => [] end) ps).
Proof.
  revert kept s r. induction todo as [|i todo IH]; intros kept s r; cbn [sweep].
  { intros [= <- <-]. by rewrite app_nil_r. }
  unfold st_bind at 1. destruct (sweep_one reserved_name (intent_from i) s) as [[k|e] s1] eqn:E1.
  2:{ intros [= <- <-]. apply rtc_once. apply (recovery_alone rs _ now None). simpl. by rewrite E1. }
  unfold st_bind at 1. destruct (sweep reserved_name todo s1) as [r1 s2] eqn:E2. intros E3.
  eapply rtc_l; [apply (recovery_alone rs _ now (Some (Sweeping todo (kept ++ option_list k))) s s1); simpl; by rewrite E1|].
  assert (s2 = s') as -> by (by destruct r1; injection E3 as _ <-).
  specialize (IH (kept ++ option_list k) s1 r1 E2). destruct r1 as [rest|e]; injection E3 as <-.
  - rewrite <- app_assoc in IH. by destruct k.
  - exact IH.
Qed.

Lemma recover_steps now s cs rs ps :
  rtc world_next (mkWorld s cs rs ps) (mkWorld (recover reserved_name now s).2 cs rs ps).
Proof.
  unfold recover. rewrite bind_get. destruct (us_recovered s) eqn:Hr; [done|].
  assert (forall o s', proceed (fun intents => Sweeping intents []) (recover_open s) = (o, s') ->
    world_next (mkWorld s cs rs ps) (mkWorld s' cs (rs ++ option_list o) ps)) as Hopen.
  { intros o s' E. exists LOpen. by apply (world_open s cs rs ps). }
  assert (forall s', proceed (fun intents => Sweeping intents []) (recover_open s) = (None, s') ->
    rtc world_next (mkWorld s cs rs ps) (mkWorld s' cs rs ps)) as Hstop.
  { intros s' E. apply Hopen in E. simpl in E. rewrite app_nil_r in E. by apply rtc_once. }
  assert (forall r s0 s', recovery_step r now s0 = (None, s') ->
    rtc world_next (mkWorld s0 cs (rs ++ [r]) ps) (mkWorld s' cs rs ps)) as Hend.
  { intros r s0 s' E. pose proof (recovery_alone rs r now None s0 s' cs ps E) as H. simpl in H.
    rewrite app_nil_r in H. by apply rtc_once. }
  unfold recover_open in Hopen, Hstop. unfold st_bind in *.
  destruct (open_root s) as [[[]|e] s1]; [|by apply Hstop].
  destruct (io (call CallTransferJournal) s1) as [[[]|e] s2]; [|by apply Hstop].
  destruct (io (cleanup_staging JOURNAL_INTENTS _) s2) as [[[]|e] s3]; [|by apply Hstop].
  destruct (io (cleanup_staging JOURNAL_RESULTS _) s3) as [[[]|e] s4]; [|by apply Hstop].
  destruct (read_journal decode_intents JOURNAL_INTENTS s4) as [[l|e] s5]; [|by apply Hstop].
  destruct (_ <? _); [by apply Hstop|].
  eapply rtc_l; [by apply (Hopen (Some (Sweeping l [])))|]. clear Hopen Hstop.
  destruct (sweep reserved_name l s5) as [r6 s6] eqn:E6.
  etrans; [exact (sweep_alone rs l [] s5 now cs ps r6 s6 E6)|].
  destruct r6 as [kept|e]; [|by rewrite app_nil_r].
  destruct (write_journal JOURNAL_INTENTS (encode_intents kept) s6) as [[[]|e] s7] eqn:E7.
  2:{ apply Hend. simpl. by rewrite E7. }
  eapply rtc_l; [apply (recovery_alone rs _ now (Some (Rewritten kept)) s6 s7); simpl; by rewrite E7|].
  eapply rtc_l; [by apply (recovery_alone rs _ now (Some Reading) s7)|]. simpl modify.
  destruct (read_journal decode_results JOURNAL_RESULTS (set_unswept kept s7)) as [[res|e] s8] eqn:E8;
    unfold modify at 1; rewrite E8.
  2:{ apply Hend. simpl. by rewrite E8. }
  eapply rtc_l; [apply (recovery_alone rs _ now (Some (Loaded res)) _ s8); simpl; by rewrite E8|].
  eapply rtc_l; [by apply (recovery_alone rs _ now (Some Finishing) s8)|].
  by apply (Hend Finishing).
Qed.

Lemma proceed_stable {A} (P : Uploads -> Prop) (next : A -> Recovery) x o s' :
  proceed next x = (o, s') -> P x.2 -> P s'.
Proof. destruct x as [[a|e] s1]; by intros [= <- <-]. Qed.

Lemma keep_receipt_entries receipt now s : us_entries (keep_receipt receipt now s).2 = us_entries s.
Proof. unfold keep_receipt. by repeat case_match. Qed.

Lemma recover_open_stable P : system_closed P -> stable P recover_open.
Proof. intros HP. pose proof (closed_call P HP). unfold recover_open. steps. Qed.

(** ** Operations and predicates on the entries *)

Section Entries.
Context (P : Uploads -> Prop) (HP : entries_only P).
Let Hc : system_closed P := entries_only_closed P HP.
Hint Resolve Hc : uploads.

Lemma modify_entries f : (forall s, us_entries (f s) = us_entries s) -> stable P (modify f).
Proof. intros Hf s Hs. apply (HP s); [apply Hf|done]. Qed.

Lemma write_journal_entries name encoded : stable P (write_journal name encoded).
Proof. apply write_journal_stable; [done|]. intros. by apply (HP s). Qed.
Hint Resolve write_journal_entries modify_entries : uploads.

Lemma recover_entries now : stable P (recover reserved_name now).
Proof. unfold recover. steps. Qed.
Hint Resolve recover_entries : uploads.

Lemma stored_result_entries id now : stable P (stored_result reserved_name id now).
Proof. unfold stored_result, stored. steps. Qed.
Hint Resolve stored_result_entries : uploads.

Lemma result_entries id now : stable P (result reserved_name id now).
Proof. unfold result. steps. Qed.

Lemma store_result_entries r now : stable P (store_result r now).
Proof. apply store_result_stable; auto with uploads. intros s. by apply HP. Qed.
Hint Resolve store_result_entries : uploads.

Lemma commit_record_entries id u r now : stable P (commit_record id u r now).
Proof. unfold commit_record. steps. Qed.

Lemma recovery_step_entries r now s o s' : recovery_step r now s = (o, s') -> P s -> P s'.
Proof.
  intros E Hs. destruct r as [[|i todo] kept|kept| |res|]; simpl in E;
    try (injection E as <- <-; by apply (HP s)); apply (proceed_stable P _ _ _ _ E).
  - by apply write_journal_entries.
  - by apply sweep_one_stable.
  - by apply (read_journal_stable P (closed_call P Hc)).
Qed.

Lemma drop_all_entries l : stable P (drop_all l).
Proof. induction l as [|[id u] l IH]; cbn [drop_all]; steps. Qed.
End Entries.

#[local] Hint Resolve write_journal_entries modify_entries recover_entries stored_result_entries result_entries
  store_result_entries commit_record_entries drop_all_entries entries_only_closed : uploads.

(** ** The accounting holds in every run *)

Definition commit_fine (c : Commit) : Prop := upload_fine (cm_upload c) /\ complete (cm_upload c) = true.
Definition world_fine (w : World) : Prop :=
  entries_fine (wd_uploads w) /\ Forall commit_fine (wd_commits w).

Lemma begin_fine id directory file_name overwrite declared now epoch :
  is_none_or declared (Z.leb 0) = true ->
  stable entries_fine (begin reserved_name id directory file_name overwrite declared now epoch).
Proof.
  intros Hd. pose proof entries_fine_only as HP. unfold begin. steps.
  - unfold check_space. destruct declared; [|auto with uploads].
    intros s Hs. match goal with |- entries_fine (?m s).2 => cut (stable entries_fine m); [by auto|] end. steps.
  - intros s Hs. unfold begin_stage.
    pose proof (call_stable _ (closed_call _ (entries_only_closed _ HP)) (CallStage a0 (temporary_name id)) s Hs) as H1.
    destruct (call _ s) as [[] s']; simpl in H1; [by apply (HP s')|].
    match goal with |- entries_fine (?m s').2 => cut (stable entries_fine m); [by auto|] end. steps.
  - intros s Hs. apply (store_fine id _ s); [by apply entries_others|]. by apply new_upload_fine.
Qed.

(** Entries may leave the registry. *)
Definition shrinks (f : gmap string Upload -> gmap string Upload) : Prop := forall m, f m ⊆ m.

Lemma shrink_fine f : shrinks f -> stable entries_fine (modify (set_entries f)).
Proof. intros Hf s Hs k u Hu. simpl in Hu. apply (Hs k). by eapply lookup_weaken, Hf. Qed.

Lemma discard_shrinks id : shrinks (delete id).
Proof. intros m. apply delete_subseteq. Qed.
Lemma reap_shrinks now :
  shrinks (filter (fun e : string * Upload => kept_by_reap now e.2 = true)).
Proof. intros m. apply map_filter_subseteq. Qed.

Lemma abort_fine id : stable entries_fine (abort id).
Proof.
  pose proof entries_fine_only as HP. intros s Hs. unfold abort, st_bind at 1. simpl.
  destruct (us_entries s !! id) as [u|]; [|done].
  match goal with |- entries_fine (?m s).2 => cut (stable entries_fine m); [by auto|] end.
  steps. apply shrink_fine, discard_shrinks.
Qed.

Lemma reap_fine locked now : stable entries_fine (reap locked now).
Proof.
  pose proof entries_fine_only as HP. unfold reap. steps. apply shrink_fine, reap_shrinks.
Qed.

Lemma take_run id s r s' : commit_take id s = (r, s') ->
  match r with
  | Ok u => us_entries s !! id = Some u /\ complete u = true /\ s' = set_entries (delete id) s
  | Err _ => s' = s
  end.
Proof.
  unfold commit_take, st_bind at 1. destruct (get_mut id s) as [r1 s1] eqn:E1.
  apply get_mut_run in E1 as [-> E1]. destruct r1 as [u|e]; [|by intros [= <- <-]].
  destruct (complete u) eqn:Hc; [|by intros [= <- <-]]. intros [= <- <-]. split_and!; [by apply E1|done|done].
Qed.

Context {OL : OsLaws}.

Lemma run_op_fine op s : op_wf op -> entries_fine s -> entries_fine (run_op op s).
Proof.
  pose proof entries_fine_only as HP. intros Hwf. destruct op; simpl.
  - by apply begin_fine.
  - by apply chunk_fine.
  - by apply part_commit_fine.
  - by apply result_entries.
  - apply abort_fine.
  - apply reap_fine.
  - by apply recover_entries.
Qed.

Lemma world_step_fine l w w' : world_step l w w' -> world_fine w -> world_fine w'.
Proof.
  pose proof entries_fine_only as HP. pose proof (entries_only_closed _ HP) as HC.
  intros Hstep [Hs Hc]. unfold world_fine in *.
  destruct Hstep as [op s cs rs ps|id s cs rs ps u s' E|i id u s cs rs ps r s' Hi E|i id u r s cs rs ps Hi
    |i id u r s cs rs ps ep now sn s' Hi E|i res s cs rs ps Hi|s cs rs ps o s' Hr E|i r now s cs rs ps o s' Hi E|];
    simpl in *.
  - split; [by apply run_op_fine|done].
  - apply take_run in E as (Hu & Hcomp & ->). split.
    + intros k v. simpl. rewrite lookup_delete_Some. intros [_ Hv]. by apply Hs in Hv.
    + apply Forall_app. split; [done|]. constructor; [|done]. split; [by apply Hs in Hu|done].
  - split.
    + pose proof (publish_stable _ HC id u s Hs) as Hp. by rewrite E in Hp.
    + apply Forall_insert; [done|]. by eapply (Forall_lookup_1 _ _ _ _ Hc Hi).
  - split.
    + apply (persist_intents_stable entries_fine); auto with uploads.
    + apply Forall_insert; [done|]. by eapply (Forall_lookup_1 _ _ _ _ Hc Hi).
  - split; [|by apply Forall_delete]. apply (HP s); [|done].
    rewrite <- (keep_receipt_entries (receipt_for id u r ep) now s). by rewrite E.
  - split; [|done]. apply (persist_results_stable entries_fine); auto with uploads.
  - split; [|done]. pose proof (recover_open_stable _ HC s Hs) as H1. by apply (proceed_stable _ _ _ _ _ E).
  - split; [|done]. by apply (recovery_step_entries _ HP r now s o).
  - by split.
Qed.

Lemma world_reach_fine server_id protected w : world_reach server_id protected w -> world_fine w.
Proof.
  intros Hr. assert (world_fine (world_init server_id protected)) as H0 by (split; [apply map_Forall_empty|done]).
  induction Hr as [|w1 w2 w3 [l Hstep] _ IH]; [done|]. by apply IH, (world_step_fine l w1).
Qed.

(** A complete upload's file is what its hashers saw. *)
Lemma complete_content u : upload_fine u -> complete u = true ->
  content u = final_hash u /\ content_length u = up_written u
  /\ (chunked u = true -> up_declared u = Some (up_written u) /\ parts_match 0 (up_parts u) (content u)).
Proof.
  intros [H1 H2 H3 H4 H5 H6 H7 H8 H9 H10] Hc. unfold complete, final_hash, chunked in *.
  destruct (up_declared u) as [d|]; simpl in *.
  - apply andb_prop in Hc as [Hc1 Hc2]. apply Z.eqb_eq in Hc1, Hc2. subst d.
    assert (content_length u = up_written u) as Hlen by (apply H10, Z.eqb_eq; lia).
    assert (up_part_hash u = []) as Hp.
    { apply nil_length_inv. rewrite H3, length_app in H2. lia. }
    rewrite Hp, app_nil_r in H3. rewrite H9, H3 by done. split_and!; [done|done|].
    intros _. split; [congruence|done].
  - specialize (H10 eq_refl). by split_and!; [apply H9| |].
Qed.

(** ** What a publication stores *)

(** Predicates on the outcome of a program, for errors that are never unconfirmed. *)
Definition confirmed {A} (m : U A) : Prop :=
  forall s e s', m s = (Err e, s') -> pe_code e <> "machine_upload_commit_uncertain"%string.

Lemma io_failure_code e : is_publication_uncertain e = false ->
  pe_code (io_failure e) <> "machine_upload_commit_uncertain"%string.
Proof. unfold io_failure. intros ->. by destruct (io_kind e). Qed.

Lemma confirmed_call c : publishes c = false -> confirmed (io (call c)).
Proof.
  intros Hc s e s'. unfold io, st_map_err, call. destruct (os_fault _ c) as [e0|] eqn:E; simpl; [|done].
  intros [= <- _]. apply io_failure_code. destruct (is_publication_uncertain e0) eqn:Hu; [|done].
  apply unconfirmed in E; [congruence|done].
Qed.
Lemma confirmed_bind {A B} (m : U A) (k : A -> U B) :
  confirmed m -> (forall a, confirmed (k a)) -> confirmed (st_bind m k).
Proof.
  intros Hm Hk s e s'. unfold st_bind. destruct (m s) as [[a|e1] s1] eqn:E; [apply Hk|].
  intros [= <- <-]. by eapply Hm.
Qed.

Lemma confirmed_open_root : confirmed open_root.
Proof.
  unfold open_root. apply confirmed_bind; [done|intros s]. apply confirmed_bind; [|intros _; apply confirmed_bind].
  - induction (us_protected s) as [|path l IH]; cbn [open_protected_all]; [done|].
    apply confirmed_bind; [|by intros]. intros s0 e s'.
    pose proof (confirmed_call (CallOpenProtected path) eq_refl s0) as Hc. unfold io, st_map_err in Hc.
    destruct (call _ s0) as [[]  s1]; [done|]. case_bool_decide; [done|]. intros [= <- <-]. by eapply Hc.
  - by apply confirmed_call.
  - intros _. induction (us_protected s) as [|path l IH]; cbn [reserve_all]; [done|].
    apply confirmed_bind; [by apply confirmed_call|by intros].
Qed.

Definition was_published (r : Result unit ProtocolError) : Prop :=
  match r with Ok _ => True | Err e => pe_code e = "machine_upload_commit_uncertain"%string end.

Lemma publish_stores id u s r s' : commit_publish id u s = (r, s') -> was_published r ->
  d_published (us_disk s') !! up_path u = Some (content u).
Proof.
  unfold commit_publish. destruct ((open_root ;! _) s) as [[[]|e] s1] eqn:E1.
  2:{ intros [= <- <-] Hw. exfalso. eapply (confirmed_bind open_root (fun _ => io (call (CallValidateTarget (up_path u)))) confirmed_open_root);
        [intros ?; by apply confirmed_call|exact E1|exact Hw]. }
  unfold publish. destruct (call _ s1) as [[[]|e] s2] eqn:E2; intros [= <- <-]; simpl.
  - intros _. by rewrite lookup_insert_eq.
  - intros Hw. destruct (is_publication_uncertain e) eqn:He; simpl; [by rewrite lookup_insert_eq|].
    by apply io_failure_code in He.
Qed.

(** C10: whatever commands, overlapping recoveries, faults of the file system and restarts came
    before, when a commit of a chunked upload publishes (also when the publication is unconfirmed),
    the file has exactly the declared length, the parts the client committed cut it into consecutive
    pieces with the digests the client declared for them, and the receipt carries its length and
    digest. *)
Theorem published_content_matches_its_digests server_id protected w c r s' :
  world_reach server_id protected w -> c ∈ wd_commits w -> chunked (cm_upload c) = true ->
  commit_publish (cm_id c) (cm_upload c) (wd_uploads w) = (r, s') -> was_published r ->
  exists file, d_published (us_disk s') !! up_path (cm_upload c) = Some file
    /\ up_declared (cm_upload c) = Some (Z.of_nat (length file))
    /\ parts_match 0 (up_parts (cm_upload c)) file
    /\ forall epoch pending, let receipt := receipt_of (cm_id c) (cm_upload c) epoch pending in
         sr_sha256 receipt = sha256_hex file /\ sr_bytes_written receipt = Z.of_nat (length file).
Proof.
  intros Hr Hc Hch E Hw. apply world_reach_fine in Hr as [_ Hr].
  rewrite Forall_forall in Hr. destruct (Hr c Hc) as [Hf Hcomp].
  destruct (complete_content _ Hf Hcomp) as (H1 & H2 & H3). destruct (H3 Hch) as [H4 H5].
  exists (content (cm_upload c)). split; [by eapply publish_stores|].
  unfold content_length in H2. split_and!; [by rewrite H2|done|].
  intros epoch pending. simpl. by rewrite <- H1, H2.
Qed.
End Runs.
