(* ===== verification/MachineUploadJournal.v ===== *)
(** * The journals of the upload registry

    Every active upload is recorded in the intents journal at every instant, so a restarted
    Controller sweeps its staging file; receipts never change and are bounded. *)

From S2P Require Import Prelude RustStr Protocol StateLogic MachineFile MachineUpload MachineUploadFacts MachineUploadRuns.
Local Open Scope Z_scope.

Section Journal.
Context {OS : Os} {CO : Codec} {CL : CodecLaws} (reserved_name : string -> string).

(** What a restarted Controller would read. *)
Definition journal_records (s : Uploads) : list IntentRecord :=
  match d_intents (us_disk s) with
  | Some b => intent_from <$> default [] (decode_intents b)
  | None => []
  end.

Definition covers (l : list IntentRecord) (s : Uploads) : Prop :=
  forall id u, us_entries s !! id = Some u -> mkIntent (up_path u) id 0 ∈ l.

(** Every active upload is in the journal, and nothing is active before the recovery. *)
Definition journaled (s : Uploads) : Prop :=
  covers (journal_records s) s /\ (us_recovered s = false -> us_entries s = ∅).

(** The predicate looks only at the entries, the flag and the journal. *)
Definition journal_only (P : Uploads -> Prop) : Prop :=
  forall s s', us_entries s' = us_entries s -> us_recovered s' = us_recovered s ->
    d_intents (us_disk s') = d_intents (us_disk s) -> P s -> P s'.

Lemma journal_only_closed P : journal_only P -> system_closed P.
Proof. intros HP. split; [intros s|intros g s|intros path c s]; by apply (HP s). Qed.
Lemma journal_only_results P : journal_only P -> journal_closed P JOURNAL_RESULTS.
Proof. intros HP b s. by apply HP. Qed.
Hint Resolve journal_only_closed journal_only_results : uploads.

Lemma journaled_only : journal_only journaled.
Proof.
  intros s s' He Hr Hj. unfold journaled, covers, journal_records. by rewrite He, Hr, Hj.
Qed.
Hint Resolve journaled_only : uploads.

Lemma covers_only l : entries_only (covers l).
Proof. intros s s' He. unfold covers. by rewrite He. Qed.

Lemma and_covers P l : journal_only P -> journal_only (fun s => P s /\ covers l s).
Proof. intros HP s s' He Hr Hj [H1 H2]. split; [by apply (HP s)|by apply (covers_only l s)]. Qed.
Hint Resolve and_covers : uploads.

Lemma planned_covers s : covers (planned s) s.
Proof.
  intros id u Hu. unfold planned. apply elem_of_app. right.
  apply list_elem_of_fmap. exists (id, u). split; [done|]. by apply elem_of_map_to_list.
Qed.

(** Writing a list that covers the entries. *)
Lemma records_written s l b : encode_intents l = Some b ->
  journal_records (set_disk (set_journal JOURNAL_INTENTS (Some b)) s) = l.
Proof.
  intros Hb. unfold journal_records, set_disk, set_journal. simpl. rewrite (intents_roundtrip l b Hb). simpl.
  rewrite <- list_fmap_compose. apply list_fmap_id.
Qed.

Lemma write_covering l :
  stable (fun s => journaled s /\ covers l s) (write_journal JOURNAL_INTENTS (encode_intents l)).
Proof.
  apply write_journal_stable; [auto with uploads|].
  intros b s Hb [[Hj Hf] Hc]. split; [|done]. split; [|done]. rewrite (records_written s l b Hb). exact Hc.
Qed.

Lemma persist_journaled : stable journaled persist_intents.
Proof.
  intros s Hs. unfold persist_intents, st_bind at 1. simpl.
  assert (stable (fun s' => journaled s' /\ covers (planned s) s')
            (open_root ;! io (call CallTransferJournal) ;!
             write_journal JOURNAL_INTENTS (encode_intents (planned s)))) as H1.
  { steps. apply write_covering. }
  apply H1. split; [done|]. apply planned_covers.
Qed.
Hint Resolve persist_journaled : uploads.

(** ** Recovery *)

Definition no_entries (s : Uploads) : Prop := us_entries s = ∅.
Lemma no_entries_only : entries_only no_entries.
Proof. intros s s' He. unfold no_entries. by rewrite He. Qed.
Lemma no_entries_journaled s : no_entries s -> journaled s.
Proof. intros He. unfold journaled, covers. rewrite He. by split. Qed.

Lemma recover_journaled now : stable journaled (recover reserved_name now).
Proof.
  intros s Hs. destruct (us_recovered s) eqn:Hr.
  - unfold recover, st_bind at 1. simpl. by rewrite Hr.
  - apply no_entries_journaled, recover_entries; [apply no_entries_only|]. by apply Hs.
Qed.

Lemma recover_done now s s' : recover reserved_name now s = (Ok tt, s') -> us_recovered s' = true.
Proof.
  unfold recover, st_bind at 1. simpl. destruct (us_recovered s) eqn:Hr; [by intros [= <-]|].
  intros E. repeat (apply st_bind_ok_iff in E as (? & ? & _ & E)). case_match; [done|].
  repeat (apply st_bind_ok_iff in E as (? & ? & _ & E)). by injection E as <-.
Qed.

(** ** Beginning *)

Definition recovered_journaled (s : Uploads) : Prop := journaled s /\ us_recovered s = true.
Lemma recovered_journaled_only : journal_only recovered_journaled.
Proof. intros s s' He Hr Hj [H1 H2]. split; [by apply (journaled_only s)|by rewrite Hr]. Qed.
Hint Resolve recovered_journaled_only : uploads.

Definition recorded (path id : string) (s : Uploads) : Prop :=
  recovered_journaled s /\ mkIntent path id 0 ∈ journal_records s.
Lemma recorded_only path id : journal_only (recorded path id).
Proof.
  intros s s' He Hr Hj [H1 H2]. split; [by apply (recovered_journaled_only s)|].
  unfold journal_records. by rewrite Hj.
Qed.

Lemma write_records l s s' :
  write_journal JOURNAL_INTENTS (encode_intents l) s = (Ok tt, s') ->
  journal_records s' = l /\ us_entries s' = us_entries s /\ us_recovered s' = us_recovered s.
Proof.
  unfold write_journal. destruct (encode_intents l) as [b|] eqn:Hb; [|done]. cbn [ok_or]. rewrite bind_lift_ok.
  intros ([] & s1 & E1 & ([] & s2 & E2 & E)%st_bind_ok_iff)%st_bind_ok_iff.
  unfold io, st_map_err, call in E1, E2. destruct (os_fault _ _); simplify_eq/=.
  destruct (os_fault _ _); simplify_eq/=. unfold call in E. destruct (os_fault _ _); simplify_eq/=.
  split; [exact (records_written _ l b Hb)|done].
Qed.

Lemma begin_stage_run path id s r s' : recorded path id s -> begin_stage path id s = (r, s') ->
  match r with Ok _ => recorded path id s' | Err _ => journaled s' end.
Proof.
  intros Hs. unfold begin_stage.
  pose proof (call_stable _ (closed_call _ (journal_only_closed _ (recorded_only path id))) (CallStage path (temporary_name id)) s Hs) as H1.
  destruct (call _ s) as [[] s1]; simpl in H1; [intros [= <- <-]; by apply (recorded_only path id s1)|].
  match goal with |- ?m s1 = _ -> _ => assert (stable journaled m) as Hm by steps end.
  intros E. specialize (Hm s1 (proj1 (proj1 H1))). rewrite E in Hm. by destruct r.
Qed.

Lemma insert_journaled path id u s : up_path u = path -> recorded path id s ->
  journaled (set_entries <[id := u]> s).
Proof.
  intros <- [[[Hj Hf] Hr] Hin]. split; simpl; [|congruence]. intros k v. simpl.
  rewrite lookup_insert_Some. intros [[<- <-]|[_ Hv]]; [done|by apply Hj].
Qed.

Lemma begin_journaled id directory file_name overwrite declared now epoch :
  stable journaled (begin reserved_name id directory file_name overwrite declared now epoch).
Proof.
  unfold begin. apply stable_bind; [by auto with uploads|intros _]. destruct (is_some_and _ _); [by auto with uploads|].
  apply stable_bind; [by auto with uploads|intros path]. intros s Hs. unfold st_bind at 1.
  pose proof (recover_journaled epoch s Hs) as H1.
  destruct (recover reserved_name epoch s) as [[[]|e] s1] eqn:E1; [|done]. apply recover_done in E1.
  apply (triple_run recovered_journaled); [|done]. clear dependent s s1.
  assert (forall s, recovered_journaled s -> journaled s) as Hw by (by intros s []).
  eapply triple_bind; [apply triple_weaken; [auto with uploads|exact Hw]|intros []].
  eapply triple_bind; [apply triple_weaken; [auto with uploads|exact Hw]|intros []].
  intros s Hs. rewrite bind_get.
  destruct (is_some _); [by apply Hw|]. destruct (_ <=? _); [by apply Hw|].
  match goal with |- context [encode_intents ?l] =>
    assert (covers l s) as Hl; [|assert (mkIntent path id 0 ∈ l) as Hin by set_solver; generalize dependent l]
  end.
  { intros k v Hv. apply elem_of_app. left. by apply planned_covers. }
  intros l Hl Hin.
  set (Q := fun s => recovered_journaled s /\ covers l s).
  assert (journal_only Q) as HQ by (unfold Q; auto with uploads).
  assert (forall s, Q s -> journaled s) as Hw' by (by intros ? [[] _]).
  match goal with |- match ?m s with _ => _ end =>
    assert (triple Q m (fun _ => journaled) (fun _ => journaled)) as Hm; [|by apply Hm] end.
  clear dependent s.
  eapply triple_bind; [apply triple_weaken; [|exact Hw']|intros []].
  { unfold check_space. destruct declared; [|auto with uploads].
    intros s Hs. match goal with |- Q (?m s).2 => cut (stable Q m); [by auto|] end. steps. }
  eapply triple_bind; [apply triple_weaken; [auto with uploads|exact Hw']|intros []].
  eapply triple_bind with (fun _ => recorded path id); [|intros []].
  { intros s Hs. pose proof (write_covering l s (conj (Hw' s Hs) (proj2 Hs))) as [H1 _].
    destruct (write_journal _ _ s) as [[[]|e] s'] eqn:E; [|done]. apply write_records in E as (Hj & _ & Hr).
    split; [|by rewrite Hj]. split; [done|]. rewrite Hr. apply Hs. }
  eapply triple_bind with (fun _ => recorded path id); [|intros []].
  { intros s Hs. destruct (begin_stage path id s) as [r s'] eqn:E. apply begin_stage_run in E; [|done]. by destruct r. }
  intros s Hs. by apply (insert_journaled path).
Qed.
#[local] Hint Resolve begin_journaled : uploads.

(** ** The other commands: entries keep their path or leave *)

Definition tracked (id path : string) (s : Uploads) : Prop :=
  journaled s /\ up_path <$> us_entries s !! id = Some path.
Lemma tracked_only id path : journal_only (tracked id path).
Proof. intros s s' He Hr Hj [H1 H2]. split; [by apply (journaled_only s)|by rewrite He]. Qed.
Hint Resolve tracked_only : uploads.

Lemma store_tracked id u : stable (tracked id (up_path u)) (store id u).
Proof.
  intros s [[Hj Hf] Hp]. simpl. split; simpl; [|by rewrite lookup_insert_eq]. split; simpl.
  - intros k v. simpl. rewrite lookup_insert_Some. intros [[<- <-]|[_ Hv]]; [|by apply Hj].
    apply fmap_Some in Hp as (u0 & Hu0 & ->). by apply Hj in Hu0.
  - intros Hr. specialize (Hf Hr). by rewrite Hf in Hp.
Qed.

Lemma subset_journaled f s : f (us_entries s) ⊆ us_entries s -> journaled s -> journaled (set_entries f s).
Proof.
  intros Hf [Hj He]. split; simpl.
  - intros k v Hv. simpl in Hv. apply (Hj k v). by eapply lookup_weaken.
  - intros Hr. rewrite (He Hr) in Hf. apply map_eq. intros i. rewrite lookup_empty.
    destruct (f (us_entries s) !! i) eqn:Hi; [|by rewrite (He Hr) in Hi].
    rewrite (He Hr) in Hi. eapply lookup_weaken in Hi; [|exact Hf]. by rewrite lookup_empty in Hi.
Qed.

Lemma discard_journaled id : stable journaled (discard id).
Proof. intros s Hs. apply subset_journaled; [apply delete_subseteq|done]. Qed.
Hint Resolve discard_journaled : uploads.

Lemma rewind_tracked id u : stable (tracked id (up_path u)) (rewind id u).
Proof.
  unfold rewind. steps; [apply (store_tracked id (with_file _ u))|].
  apply (store_tracked id (forget (with_file _ (with_file _ u)))).
Qed.

Lemma rewind_path id u s u' s' : rewind id u s = (Ok u', s') -> up_path u' = up_path u.
Proof.
  unfold rewind. intros E. repeat (apply st_bind_ok_iff in E as (? & ? & _ & E)). by injection E as <- _.
Qed.

Lemma abandon_journaled id u s : tracked id (up_path u) s -> journaled (abandon id u s).2.
Proof.
  intros Hs. unfold abandon. destruct (chunked u).
  - apply (rewind_tracked id u s Hs).
  - match goal with |- journaled (?m s).2 => cut (stable journaled m); [intros Hm; apply Hm, Hs|] end. steps.
Qed.

Lemma place_tracked id offset u s r s' : tracked id (up_path u) s -> place id offset u s = (r, s') ->
  tracked id (up_path u) s' /\ (forall u', r = Ok u' -> up_path u' = up_path u).
Proof.
  intros Hs.
  assert (forall v : Upload, v = u -> (Ok v, s) = (r, s') ->
    tracked id (up_path u) s' /\ (forall u', r = Ok u' -> up_path u' = up_path u)) as Hsame.
  { intros v -> [= <- <-]. split; [done|]. by intros u' [= <-]. }
  assert (forall e : ProtocolError, (Err e, s) = (r, s') ->
    tracked id (up_path u) s' /\ (forall u', r = Ok u' -> up_path u' = up_path u)) as Herr.
  { intros e [= <- <-]. by split. }
  unfold place. destruct (chunked u), offset as [o|]; [|by apply Herr|by apply Herr|by apply Hsame].
  destruct (_ && _); [|destruct (negb _); [by apply Herr|by apply Hsame]].
  intros E. pose proof (rewind_tracked id u s Hs) as H1. rewrite E in H1. split; [done|].
  intros u' ->. by eapply rewind_path.
Qed.

Lemma get_mut_tracked id s u s' : journaled s -> get_mut id s = (Ok u, s') ->
  s' = s /\ tracked id (up_path u) s.
Proof.
  intros Hs E. apply get_mut_run in E as [-> E]. split; [done|]. split; [done|]. by rewrite (E u eq_refl).
Qed.

Lemma write_all_tracked id data u s r s' : tracked id (up_path u) s -> write_all id data u s = (r, s') ->
  tracked id (up_path u) s' /\ up_path (match r with Ok u' => u' | Err (u', _) => u' end) = up_path u.
Proof.
  intros Hs. unfold write_all. destruct data as [|a data]; [by intros [= <- <-]|].
  pose proof (call_stable _ (closed_call _ (journal_only_closed _ (tracked_only id (up_path u)))) CallWrite s Hs) as H1.
  destruct (call _ s) as [[[]|e] s1]; simpl in H1; intros [= <- <-]; (split; [|done]);
    by apply (store_tracked id (with_file _ u) s1).
Qed.

Lemma chunk_journaled id offset encoded now : stable journaled (chunk id offset encoded now).
Proof.
  intros s Hs. unfold chunk. destruct (base64_decode encoded) as [data|]; cbn [ok_or]; [|done].
  rewrite bind_lift_ok. destruct (_ <? _); [done|]. unfold st_bind at 1.
  destruct (get_mut id s) as [[u|] s1] eqn:E1; [|by apply get_mut_run in E1 as [-> _]].
  apply get_mut_tracked in E1 as [-> H1]; [|done]. unfold st_bind at 1.
  destruct (place id offset u s) as [[u2|] s2] eqn:E2;
    destruct (place_tracked _ _ _ _ _ _ H1 E2) as [H2 Hp2]; [|apply H2].
  rewrite <- (Hp2 u2 eq_refl) in H2. clear Hp2. destruct (_ <? saturating_add _ _).
  { unfold st_bind. pose proof (abandon_journaled id u2 s2 H2). by destruct (abandon id u2 s2) as [[] ?]. }
  destruct (write_all id data u2 s2) as [[u3|[u3 e]] s3] eqn:E3;
    destruct (write_all_tracked _ _ _ _ _ _ H2 E3) as [H3 Hp3]; rewrite <- Hp3 in H3.
  - unfold st_bind. apply (store_tracked id (absorb _ _ _ u3) s3 H3).
  - unfold st_bind. pose proof (abandon_journaled id u3 s3 H3). by destruct (abandon id u3 s3) as [[] ?].
Qed.

Lemma part_commit_journaled id offset length sha now : stable journaled (part_commit id offset length sha now).
Proof.
  intros s Hs. unfold part_commit. destruct (_ || _); [done|]. unfold st_bind at 1.
  destruct (get_mut id s) as [[u|] s1] eqn:E1; [|by apply get_mut_run in E1 as [-> _]].
  apply get_mut_tracked in E1 as [-> H1]; [|done].
  destruct (negb (chunked u)); [done|]. destruct (_ <=? _); [by destruct (existsb _ _)|].
  destruct (negb (offset =? _) || _); [done|].
  match goal with |- journaled (?m s).2 => assert (stable (tracked id (up_path u)) m) as Hm; [|by apply (Hm s H1)] end.
  pose proof (rewind_tracked id u) as Hr. steps. apply (store_tracked id (close_part _ _ u)).
Qed.

Lemma abort_journaled id : stable journaled (abort id).
Proof.
  intros s Hs. unfold abort. rewrite bind_get. destruct (us_entries s !! id) as [u|]; [|done].
  match goal with |- journaled (?m s).2 => cut (stable journaled m); [by auto|] end. steps.
Qed.

Lemma drop_all_journaled l : stable journaled (drop_all l).
Proof. induction l as [|[id u] l IH]; cbn [drop_all]; steps. Qed.
Hint Resolve drop_all_journaled : uploads.

Lemma reap_journaled locked now : stable journaled (reap locked now).
Proof.
  unfold reap. steps. intros s Hs. apply subset_journaled; [apply map_filter_subseteq|done].
Qed.

Lemma lookup_journaled id now : stable journaled (stored_result reserved_name id now).
Proof. pose proof recover_journaled. unfold stored_result, stored. steps. Qed.

Lemma store_result_journaled r now : stable journaled (store_result r now).
Proof. apply store_result_stable; auto with uploads. Qed.
Hint Resolve store_result_journaled : uploads.

Lemma record_journaled id u r now : stable journaled (commit_record id u r now).
Proof. unfold commit_record. steps. Qed.

(** ** Every run *)

Lemma run_op_journaled op s : journaled s -> journaled (run_op reserved_name op s).
Proof.
  destruct op; simpl.
  - apply begin_journaled.
  - apply chunk_journaled.
  - apply part_commit_journaled.
  - rewrite lookup_effect. apply lookup_journaled.
  - apply abort_journaled.
  - apply reap_journaled.
  - apply recover_journaled.
Qed.

Lemma machine_step_journaled m m' : machine_step reserved_name m m' ->
  journaled (mc_uploads m) -> journaled (mc_uploads m').
Proof.
  destruct 1 as [op s cs|id s cs u s' E|i id u s cs r s' Hi E|i id u r s cs Hi|i id u r s cs epoch Hi|];
    simpl; intros Hs.
  - by apply run_op_journaled.
  - apply take_run in E as (_ & _ & ->). apply subset_journaled; [apply delete_subseteq|done].
  - pose proof (publish_stable _ (journal_only_closed _ journaled_only) id u s Hs) as Hp. by rewrite E in Hp.
  - by apply persist_journaled.
  - by apply record_journaled.
  - by apply no_entries_journaled.
Qed.

(** ** The sweep after a restart *)

Context {OL : OsLaws}.

(** What became of a record: its staging file is gone, or its directory is, or the record is kept
    with one more failure, or it was given up after too many. *)
Definition handled (r : IntentRecord) (kept : list IntentRecord) (s : Uploads) : Prop :=
  is_reserved_namespace reserved_name (in_path r) = Ok true
  \/ staging_name (in_path r) (in_id r) ∉ d_staging (us_disk s)
  \/ (exists n e, os_fault n (CallCleanup (in_path r) (temporary_name (in_id r))) = Some e /\ io_kind e = NotFound)
  \/ mkIntent (in_path r) (in_id r) (Z.min (in_failed_sweeps r + 1) u32_max) ∈ kept
  \/ MAX_FAILED_SWEEPS <= Z.min (in_failed_sweeps r + 1) u32_max.

Lemma sweep_one_spec r s o s' : sweep_one reserved_name r s = (Ok o, s') ->
  d_staging (us_disk s') ⊆ d_staging (us_disk s) /\ handled r (option_list o) s'.
Proof.
  unfold sweep_one. destruct (negb _ || _); [done|].
  destruct (is_reserved_namespace reserved_name (in_path r)) as [[]|e] eqn:Hr; cbn [map_err]; [| |done];
    rewrite bind_lift_ok; [intros [= <- <-]; split; [done|by left]|].
  unfold cleanup_staging, st_bind, call. destruct (os_fault (us_calls s) _) as [e|] eqn:Hf; simpl.
  - case_bool_decide as Hk; [intros [= <- <-]; split; [done|]; right; right; left; eauto|].
    case_match eqn:Hm; intros [= <- <-]; (split; [done|]); right; right; right.
    + right. lia.
    + left. set_solver.
  - intros [= <- <-]. simpl. split; [set_solver|]. right; left. unfold staging_name. set_solver.
Qed.

Lemma handled_mono r kept kept' s s' : d_staging (us_disk s') ⊆ d_staging (us_disk s) ->
  kept ⊆ kept' -> handled r kept s -> handled r kept' s'.
Proof. intros Hd Hk. unfold handled. set_solver. Qed.

Lemma sweep_spec intents s kept s' : sweep reserved_name intents s = (Ok kept, s') ->
  d_staging (us_disk s') ⊆ d_staging (us_disk s)
  /\ forall i, i ∈ intents -> handled (intent_from i) kept s'.
Proof.
  revert s kept. induction intents as [|i l IH]; intros s kept; cbn [sweep].
  { intros [= <- <-]. split; [done|]. intros i Hi. by apply elem_of_nil in Hi. }
  intros (o & s1 & E1 & (rest & s2 & E2 & [= <- <-])%st_bind_ok_iff)%st_bind_ok_iff.
  apply sweep_one_spec in E1 as [D1 H1]. apply IH in E2 as [D2 H2]. split; [by etrans|].
  intros j [->|Hj]%elem_of_cons.
  - eapply handled_mono; [exact D2| |exact H1]. destruct o; set_solver.
  - eapply handled_mono; [reflexivity| |by apply H2]. destruct o; set_solver.
Qed.

Lemma read_intents s l s' : read_journal decode_intents JOURNAL_INTENTS s = (Ok l, s') ->
  intent_from <$> l = journal_records s /\ us_disk s' = us_disk s.
Proof.
  unfold read_journal. destruct (call _ s) as [[[]|e] s1] eqn:E1; unfold call in E1.
  2:{ case_bool_decide as Hk; [|done]. destruct (os_fault _ _) as [e0|] eqn:Hf; simplify_eq.
      by apply found in Hf. }
  destruct (os_fault _ _); simplify_eq. cbn [next_call us_disk]. unfold journal_records, get_journal. simpl.
  destruct (d_intents (us_disk s)) as [b|]; [|by intros [= <- <-]].
  intros ([] & s2 & E2 & E)%st_bind_ok_iff. unfold io, st_map_err, call in E2.
  destruct (os_fault _ _); simplify_eq/=. destruct (_ <? _); [done|]. unfold st_lift in E.
  destruct (decode_intents b) as [l'|]; simpl in E; [|done]. by injection E as <- <-.
Qed.

(** A stable predicate after a run that ended well. *)
Lemma stable_ok {A E} (P : Uploads -> Prop) (m : StM Uploads A E) s a s' :
  stable P m -> P s -> m s = (Ok a, s') -> P s'.
Proof. intros Hm Hs E'. specialize (Hm s Hs). by rewrite E' in Hm. Qed.

Lemma disk_call_closed D : call_closed (fun s => us_disk s = D).
Proof. by intros s. Qed.
Hint Resolve disk_call_closed : uploads.

Lemma records_only R : journal_only (fun s => journal_records s = R).
Proof. intros s s' _ _ Hj. unfold journal_records. by rewrite Hj. Qed.
Hint Resolve records_only : uploads.

(** What a successful first recovery has done with the records it found. *)
Lemma recover_spec epoch s s' : us_recovered s = false -> recover reserved_name epoch s = (Ok tt, s') ->
  (forall r, r ∈ journal_records s -> handled r (us_unswept s') s')
  /\ journal_records s' = us_unswept s'.
Proof.
  intros Hr. unfold recover. rewrite bind_get, Hr.
  set (Q := fun s0 => journal_records s0 = journal_records s).
  assert (system_closed Q) as HQ by (apply journal_only_closed, records_only).
  intros (? & s1 & E1 & (? & s2 & E2 & (? & s3 & E3 & (? & s4 & E4 & (l & s5 & E5 & E)%st_bind_ok_iff)
    %st_bind_ok_iff)%st_bind_ok_iff)%st_bind_ok_iff)%st_bind_ok_iff.
  assert (Q s4) as H4.
  { eapply stable_ok; [|eapply stable_ok; [|eapply stable_ok; [|eapply stable_ok; [|reflexivity|exact E1]|
      exact E2]|exact E3]|exact E4]; auto with uploads. }
  apply read_intents in E5 as [Hl Hd5]. destruct (_ <? _); [done|].
  apply st_bind_ok_iff in E as (kept & s6 & E6 & ([] & s7 & E7 & E)%st_bind_ok_iff).
  apply sweep_spec in E6 as [_ Hsweep]. pose proof (write_records kept s6 s7 E7) as (Hk & _).
  assert (d_staging (us_disk s7) = d_staging (us_disk s6)) as Hst.
  { clear -E7. unfold write_journal in E7. destruct (encode_intents kept); [|done]. cbn [ok_or] in E7.
    rewrite bind_lift_ok in E7. unfold st_bind, io, st_map_err, call in E7.
    repeat (destruct (os_fault _ _); simplify_eq/=; try done). }
  apply st_bind_ok_iff in E as (? & s8 & [= _ <-] & (res & s9 & E9 & E)%st_bind_ok_iff).
  assert (us_disk s9 = us_disk s7 /\ us_unswept s9 = kept) as [Hd9 Hu9].
  { eapply (stable_ok (fun s0 => us_disk s0 = us_disk s7 /\ us_unswept s0 = kept) _ (set_unswept kept s7));
      [|by split|exact E9].
    apply read_journal_stable. by intros s0. }
  apply st_bind_ok_iff in E as (? & s10 & [= _ <-] & [= <-]). simpl. rewrite Hu9. split.
  - intros r Hr'. unfold Q in H4. rewrite <- H4, <- Hl in Hr'. apply list_elem_of_fmap in Hr' as (i & -> & Hi).
    eapply handled_mono; [| |by apply Hsweep]; [|done]. simpl. by rewrite Hd9, Hst.
  - unfold journal_records in *. simpl. by rewrite Hd9.
Qed.

(** Nothing that was being uploaded when the Controller stopped is forgotten.  Whatever
    interleaving of commands, faults and earlier restarts came before, a restart whose recovery
    succeeds has, for every upload that was active, removed its staging file, or found its
    directory gone, or it keeps the record, in memory and in the journal, for the next sweep. *)
Theorem restart_sweeps_active_uploads server_id protected m id u epoch s' :
  machine_reach reserved_name server_id protected m ->
  us_entries (mc_uploads m) !! id = Some u ->
  is_reserved_namespace reserved_name (up_path u) = Ok false ->
  let s := mc_uploads m in
  recover reserved_name epoch (uploads_new (us_server_id s) (us_protected s) (us_disk s) (us_calls s)) = (Ok tt, s') ->
  staging_name (up_path u) id ∉ d_staging (us_disk s')
  \/ (exists n e, os_fault n (CallCleanup (up_path u) (temporary_name id)) = Some e /\ io_kind e = NotFound)
  \/ (mkIntent (up_path u) id 1 ∈ us_unswept s' /\ mkIntent (up_path u) id 1 ∈ journal_records s').
Proof.
  intros Hm Hu Hres s. subst s.
  assert (journaled (mc_uploads m)) as [Hj _].
  { unfold machine_reach in Hm. assert (journaled (mc_uploads (machine_init server_id protected))) as H0
      by (by apply no_entries_journaled).
    induction Hm as [|m1 m2 m3 Hstep _ IH]; [done|]. apply IH; [done|by apply (machine_step_journaled m1)]. }
  intros E. apply recover_spec in E as [Hh Hk]; [|done]. rewrite Hk.
  destruct (Hh _ (Hj id u Hu)) as [Hc|[Hc|[Hc|[Hc|Hc]]]]; simpl in *; [congruence|by left|by right; left| |].
  - right; right. done.
  - exfalso. unfold MAX_FAILED_SWEEPS, u32_max in Hc. lia.
Qed.

(** ** A journal the recovery refuses

    [recover] refuses a journal of more than nine records.  Eight active uploads and the records
    an earlier sweep kept are more. *)

Definition overfull (s : Uploads) : Prop :=
  us_recovered s = false /\ us_entries s = ∅
  /\ MACHINE_UPLOAD_MAX_ACTIVE + 1 < Z.of_nat (length (journal_records s)).

Lemma overfull_only : journal_only overfull.
Proof. intros s s' He Hr Hj. unfold overfull, journal_records. by rewrite He, Hr, Hj. Qed.
Hint Resolve overfull_only : uploads.

Lemma recover_overfull now s : overfull s ->
  is_ok (recover reserved_name now s).1 = false /\ overfull (recover reserved_name now s).2.
Proof.
  intros Hs. assert (system_closed overfull) as HO by auto with uploads.
  assert (triple overfull (recover reserved_name now) (fun _ _ => False) (fun _ => overfull)) as Hm.
  2:{ specialize (Hm s Hs). by destruct (recover reserved_name now s) as [[] ?]. }
  clear s Hs. intros s Hs. unfold recover. rewrite bind_get. rewrite (proj1 Hs). revert s Hs.
  match goal with |- forall s, overfull s -> match ?m s with _ => _ end =>
    change (triple overfull m (fun _ _ => False) (fun _ => overfull)) end.
  do 4 (eapply triple_bind; [apply triple_weaken; [auto with uploads|done]|intros ?]).
  apply triple_bind with (fun l s => overfull s /\ MACHINE_UPLOAD_MAX_ACTIVE + 1 < Z.of_nat (length l)).
  - intros s Hs. pose proof (read_journal_stable overfull (closed_call _ HO) decode_intents JOURNAL_INTENTS s Hs) as H1.
    destruct (read_journal _ _ s) as [[l|e] s'] eqn:E; [|done]. split; [done|].
    apply read_intents in E as [E _]. rewrite <- (length_fmap intent_from), E. apply Hs.
  - intros l s [Hs Hl]. rewrite (proj2 (Z.ltb_lt _ _) Hl). exact Hs.
Qed.

Lemma begin_overfull id directory file_name overwrite declared now epoch s : overfull s ->
  let r := begin reserved_name id directory file_name overwrite declared now epoch s in
  is_ok r.1 = false /\ overfull r.2.
Proof.
  intros Hs. cbv zeta. destruct (begin _ _ _ _ _ _ _ _ s) as [r s1] eqn:E. revert E. unfold begin.
  unfold st_bind at 1, st_lift at 1. destruct (validate_upload_id id); [|by intros [= <- <-]].
  destruct (is_some_and _ _); [by intros [= <- <-]|]. unfold st_bind at 1, st_lift.
  destruct (relative_path _ _) as [path|]; [|by intros [= <- <-]].
  unfold st_bind at 1. pose proof (recover_overfull epoch s Hs) as [H1 H2].
  destruct (recover reserved_name epoch s) as [[] s']; [done|by intros [= <- <-]].
Qed.

Lemma get_mut_overfull id s : overfull s ->
  get_mut id s = (Err (failure "machine_upload_not_found" "upload is not active"), s).
Proof. intros (_ & He & _). unfold get_mut. rewrite bind_get, He. by rewrite lookup_empty. Qed.

Lemma run_op_overfull op s : overfull s -> overfull (run_op reserved_name op s).
Proof.
  intros Hs. destruct op; cbn [run_op].
  - by apply begin_overfull.
  - unfold chunk. destruct (base64_decode _); cbn [ok_or]; [|done]. rewrite bind_lift_ok.
    destruct (_ <? _); [done|]. unfold st_bind at 1. by rewrite get_mut_overfull.
  - unfold part_commit. destruct (_ || _); [done|]. unfold st_bind at 1. by rewrite get_mut_overfull.
  - rewrite lookup_effect. unfold stored_result, stored, st_bind.
    pose proof (recover_overfull epoch s Hs) as [H1 H2]. by destruct (recover reserved_name epoch s) as [[] s'].
  - unfold abort. rewrite bind_get. by rewrite (proj1 (proj2 Hs)), lookup_empty.
  - unfold reap. destruct locked; [done|]. rewrite bind_get. rewrite (proj1 (proj2 Hs)).
    rewrite map_filter_empty, map_to_list_empty, map_size_empty. simpl.
    destruct Hs as (H1 & H2 & H3). split_and!; [done| |done]. simpl. by rewrite H2.
  - by apply recover_overfull.
Qed.

(** A refused journal locks uploads out for good: from a state in which the journal holds more
    records than [recover] admits, no command, and no restart, ever brings an upload into the
    registry again, and every [begin] fails. *)
Theorem overfull_journal_locks_uploads_out s m id directory file_name overwrite declared now epoch :
  overfull s -> rtc (machine_step reserved_name) (mkMachine s []) m ->
  overfull (mc_uploads m) /\ us_entries (mc_uploads m) = ∅
  /\ is_ok (begin reserved_name id directory file_name overwrite declared now epoch (mc_uploads m)).1 = false.
Proof.
  intros Hs Hrun. assert (overfull (mc_uploads m) /\ mc_commits m = []) as [Hm _].
  { assert (overfull (mc_uploads (mkMachine s [])) /\ mc_commits (mkMachine s []) = []) as H0 by done.
    induction Hrun as [|m1 m2 m3 Hstep _ IH]; [done|]. apply IH. clear IH. destruct H0 as [H1 H2].
    destruct Hstep as [op s0 cs|id0 s0 cs u s' E|i id0 u s0 cs r s' Hi E|i id0 u r s0 cs Hi|i id0 u r s0 cs ep Hi|s0 cs];
      simpl in *; subst; try done.
    - split; [by apply run_op_overfull|done].
    - exfalso. apply take_run in E as (E & _). by rewrite (proj1 (proj2 H1)), lookup_empty in E.
    - destruct H1 as (_ & _ & H1). by split_and!. }
  split_and!; [done|apply Hm|by apply begin_overfull].
Qed.
End Journal.
