(* ===== verification/MachineUploadReceipts.v ===== *)
(** * Receipts of the upload registry

    The terminal answer of a chunked upload is final, and the receipts are bounded. *)

From S2P Require Import Prelude RustStr Protocol StateLogic MachineFile MachineUpload MachineUploadFacts MachineUploadRuns.
From S2P Require Import MachineUploadJournal.
Local Open Scope Z_scope.

Section Receipts.
Context {OS : Os} {CO : Codec} (reserved_name : string -> string).

(** ** Everything but [store_result] leaves the receipts alone

    A predicate that does not look at the entries, the journal of intents or the staging files is
    kept by every command that does not recover, and by every command when the recovery keeps it. *)

Record receipts_only (P : Uploads -> Prop) : Prop := {
  ro_system : system_closed P;
  ro_entries f s : P s -> P (set_entries f s);
  ro_intents : journal_closed P JOURNAL_INTENTS
}.

Section Quiet.
Context (P : Uploads -> Prop) (HP : receipts_only P).
Let Hsys : system_closed P := ro_system P HP.
Hint Resolve Hsys : uploads.

Lemma store_quiet id u : stable P (store id u).
Proof. intros s Hs. by apply HP. Qed.
Lemma discard_quiet id : stable P (discard id).
Proof. intros s Hs. by apply HP. Qed.
Lemma entries_quiet f : stable P (modify (set_entries f)).
Proof. intros s Hs. by apply HP. Qed.
Lemma persist_quiet : stable P persist_intents.
Proof. apply persist_intents_stable; [done|apply HP]. Qed.
Lemma write_quiet encoded : stable P (write_journal JOURNAL_INTENTS encoded).
Proof. apply write_journal_stable; [done|]. intros b s _. apply HP. Qed.
Hint Resolve store_quiet discard_quiet entries_quiet persist_quiet write_quiet : uploads.

Lemma get_mut_quiet id : stable P (get_mut id).
Proof. unfold get_mut. steps. Qed.
Lemma rewind_quiet id u : stable P (rewind id u).
Proof. unfold rewind. steps. Qed.
Hint Resolve get_mut_quiet rewind_quiet : uploads.
Lemma abandon_quiet id u : stable P (abandon id u).
Proof. unfold abandon. steps. Qed.
Lemma place_quiet id offset u : stable P (place id offset u).
Proof. unfold place. steps. Qed.
Hint Resolve abandon_quiet place_quiet : uploads.

Lemma write_all_quiet id data u : stable P (write_all id data u).
Proof.
  unfold write_all. destruct data; [auto with uploads|]. intros s Hs.
  pose proof (call_stable P (closed_call P Hsys) CallWrite s Hs) as H1.
  destruct (call _ s) as [[] s']; by apply HP.
Qed.

Lemma chunk_quiet id offset encoded now : stable P (chunk id offset encoded now).
Proof.
  unfold chunk. steps. intros s Hs.
  match goal with |- context [write_all id ?d ?u s] =>
    pose proof (write_all_quiet id d u s Hs) as H1; destruct (write_all id d u s) as [[u3|[u3 e]] s3] end;
    simpl in H1.
  - match goal with |- P (?m s3).2 => apply (stable_run_to _ m); [steps|done] end.
  - match goal with |- P (?m s3).2 => apply (stable_run_to _ m); [steps|done] end.
Qed.

Lemma part_commit_quiet id offset length sha now : stable P (part_commit id offset length sha now).
Proof. unfold part_commit. steps. Qed.

Lemma drop_all_quiet l : stable P (drop_all l).
Proof. induction l as [|[id u] l IH]; cbn [drop_all]; steps. Qed.
Hint Resolve drop_all_quiet : uploads.

Lemma run_op_resting op s : recovers op = false -> P s -> P (run_op reserved_name op s).
Proof.
  destruct op; simpl; try done; intros _; apply (stable_run_to _ _).
  - apply chunk_quiet.
  - apply part_commit_quiet.
  - unfold abort. steps.
  - unfold reap. steps.
Qed.

Context (HR : forall now, stable P (recover reserved_name now)).
Hint Resolve HR : uploads.

Lemma begin_quiet id directory file_name overwrite declared now epoch :
  stable P (begin reserved_name id directory file_name overwrite declared now epoch).
Proof.
  unfold begin. steps.
  - unfold check_space. destruct declared; [|auto with uploads]. intros s Hs.
    match goal with |- P (?m s).2 => apply (stable_run_to _ m); [steps|done] end.
  - intros s Hs. unfold begin_stage.
    match goal with |- context [call ?c s] =>
      pose proof (call_stable P (closed_call P Hsys) c s Hs) as H1; destruct (call c s) as [[] s'] end;
      [by apply HP|].
    match goal with |- P (?m s').2 => apply (stable_run_to _ m); [steps|done] end.
Qed.

Lemma lookup_quiet id now : stable P (stored_result reserved_name id now).
Proof. unfold stored_result, stored. steps. Qed.
Hint Resolve lookup_quiet : uploads.

Lemma run_op_quiet op s : P s -> P (run_op reserved_name op s).
Proof.
  destruct (recovers op) eqn:E; [|by apply run_op_resting]. destruct op; try done; simpl; apply (stable_run_to _ _).
  - apply begin_quiet.
  - unfold result. steps.
  - apply HR.
Qed.
End Quiet.

(** ** The list of receipts *)

Definition receipts_wf (l : list StoredResult) : Prop :=
  NoDup (sr_upload_id <$> l) /\ Z.of_nat (length l) <= MAX_STORED_RESULTS.

Lemma find_result_iff id l r : NoDup (sr_upload_id <$> l) ->
  find_result id l = Some r <-> r ∈ l /\ sr_upload_id r = id.
Proof.
  intros Hnd. split.
  - intros [H1 H2]%find_elem. split; [done|by apply str_eqb_eq].
  - intros [Hr <-]. unfold find_result. destruct (List.find _ l) as [r'|] eqn:E.
    + apply find_elem in E as [Hr' E]. apply str_eqb_eq in E. f_equal.
      apply list_elem_of_lookup in Hr as [i Hi], Hr' as [j Hj].
      assert (i = j) as ->; [|congruence].
      apply (NoDup_lookup _ i j (sr_upload_id r) Hnd); rewrite list_lookup_fmap, ?Hi, ?Hj; simpl; congruence.
    + rewrite find_none_iff, Forall_forall in E. specialize (E r Hr). simpl in E.
      by rewrite str_eqb_refl in E.
Qed.

Lemma position_some {A} (p : A -> bool) l i : position p l = Some i -> exists x, l !! i = Some x /\ p x = true.
Proof.
  revert i. induction l as [|x l IH]; intros i; simpl; [done|]. destruct (p x) eqn:Hp.
  - intros [= <-]. by exists x.
  - intros (j & Hj & ->)%fmap_Some. by apply IH.
Qed.
Lemma position_none {A} (p : A -> bool) l : position p l = None -> forall x, x ∈ l -> p x = false.
Proof.
  induction l as [|x l IH]; simpl; [intros _ y Hy; by apply elem_of_nil in Hy|].
  destruct (p x) eqn:Hp; [done|]. intros Hn%fmap_None y [->|Hy]%elem_of_cons; [done|by apply IH].
Qed.

Lemma elem_of_delete_or {A} (l : list A) i x : x ∈ l -> x ∈ delete i l \/ l !! i = Some x.
Proof.
  intros [j Hj]%list_elem_of_lookup. destruct (decide (i = j)) as [->|Hne]; [by right|left].
  apply list_elem_of_lookup. destruct (decide (j < i)%nat).
  - exists j. by rewrite list_lookup_delete_lt.
  - exists (j - 1)%nat. rewrite list_lookup_delete_ge by lia. by replace (S (j - 1)) with j by lia.
Qed.

(** One receipt over the cap costs one receipt. *)
Lemma evict_over fuel l : Z.of_nat (length l) <= MAX_STORED_RESULTS + 1 -> (1 < fuel)%nat ->
  evict fuel l = if MAX_STORED_RESULTS <? Z.of_nat (length l) then evict_one l else l.
Proof.
  intros Hl Hf. destruct fuel as [|[|fuel]]; [lia..|]. cbn [evict].
  destruct (MAX_STORED_RESULTS <? Z.of_nat (length l)) eqn:H1; [|done].
  assert (length (evict_one l) = length l - 1)%nat as Hlen.
  { unfold evict_one. destruct (position is_failed l) as [i|] eqn:Hp; simpl.
    - apply position_some in Hp as (x & Hx & _). rewrite length_delete; [lia|by eexists].
    - destruct l; simpl; [unfold MAX_STORED_RESULTS in H1; simpl in H1; lia|lia]. }
  rewrite Hlen. rewrite (proj2 (Z.ltb_ge _ _)); [done|]. unfold MAX_STORED_RESULTS in *. lia.
Qed.

Lemma add_receipt_spec now receipt l : receipts_wf l ->
  existsb (fun r => sr_upload_id r =s sr_upload_id receipt) l = false ->
  let l' := add_receipt now receipt l in
  receipts_wf l'
  /\ (forall r, r ∈ l' -> r ∈ l \/ r = receipt)
  /\ (forall r, r ∈ l -> r ∈ l' \/ retained now r = false
       \/ (Z.of_nat (length l') = MAX_STORED_RESULTS
           /\ (sr_outcome r = Committed -> Forall (fun x => sr_outcome x = Committed) l'))).
Proof.
  intros [Hnd Hlen] Hnew. cbv zeta. unfold add_receipt. set (l1 := List.filter (retained now) l ++ [receipt]).
  assert (NoDup (sr_upload_id <$> l1)) as Hnd1.
  { unfold l1. rewrite fmap_app. apply NoDup_app. split_and!.
    - by apply NoDup_fmap_filter.
    - intros id (r & -> & [Hr _]%filter_elem)%list_elem_of_fmap Heq%list_elem_of_singleton.
      assert (existsb (fun r => sr_upload_id r =s sr_upload_id receipt) l = true); [|congruence].
      apply existsb_elem. exists r. split; [done|by apply str_eqb_eq].
    - apply NoDup_singleton. }
  assert (Z.of_nat (length l1) <= MAX_STORED_RESULTS + 1) as Hl1.
  { unfold l1. rewrite length_app. simpl. pose proof (length_filterb (retained now) l). lia. }
  assert (forall r, r ∈ l1 -> r ∈ l \/ r = receipt) as Hsub.
  { intros r [[Hr _]%filter_elem| ->%list_elem_of_singleton]%elem_of_app; auto. }
  assert (forall r, r ∈ l -> r ∈ l1 \/ retained now r = false) as Hsup.
  { intros r Hr. destruct (retained now r) eqn:E; [left|by right]. apply elem_of_app. left. by apply filter_elem. }
  destruct (decide (MAX_STORED_RESULTS < Z.of_nat (length l1))) as [Hover|Hunder].
  2:{ assert (evict (length l1) l1 = l1) as ->.
      { destruct (length l1) eqn:El; cbn [evict]; [done|].
        by rewrite El, (proj2 (Z.ltb_ge _ _)) by lia. }
      split_and!; [split; [done|lia]|done|]. intros r Hr. destruct (Hsup r Hr); auto. }
  rewrite evict_over by (unfold MAX_STORED_RESULTS in *; lia).
  rewrite (proj2 (Z.ltb_lt _ _)) by done. unfold evict_one.
  set (i := default O (position is_failed l1)).
  assert (is_Some (l1 !! i)) as Hi.
  { unfold i. destruct (position is_failed l1) as [j|] eqn:Hp; simpl.
    - apply position_some in Hp as (x & Hx & _). by exists x.
    - apply lookup_lt_is_Some. unfold MAX_STORED_RESULTS in Hover. lia. }
  assert (length (delete i l1) = length l1 - 1)%nat as Hdel by (rewrite length_delete; [lia|done]).
  assert (delete i l1 `sublist_of` l1) as Hs by apply sublist_delete.
  split_and!.
  - split; [|unfold MAX_STORED_RESULTS in *; lia].
    eapply sublist_NoDup; [exact Hnd1|]. by apply fmap_sublist.
  - intros r Hr. apply Hsub. by eapply list_elem_of_delete_inv.
  - intros r Hr. destruct (Hsup r Hr) as [Hr1|Hr1]; [|by right; left].
    destruct (elem_of_delete_or l1 i r Hr1) as [?|Hat]; [by left|right; right].
    split; [unfold MAX_STORED_RESULTS in *; lia|]. intros Hcom. unfold i in Hat |- *.
    destruct (position is_failed l1) as [j|] eqn:Hp; simpl in *.
    + apply position_some in Hp as (x & Hx & Hf). rewrite Hx in Hat. injection Hat as ->.
      unfold is_failed in Hf. apply bool_decide_eq_true in Hf. congruence.
    + apply Forall_forall. intros x Hx.
      assert (x ∈ l1) as Hx1 by by eapply list_elem_of_delete_inv.
      apply (position_none _ _ Hp) in Hx1. unfold is_failed in Hx1.
      apply bool_decide_eq_false in Hx1. by destruct (sr_outcome x).
Qed.

(** ** Every run *)

Context {CL : CodecLaws}.

(** The receipts in memory and in the journal are well formed. *)
Definition stored_wf (s : Uploads) : Prop :=
  receipts_wf (us_results s)
  /\ (forall b l, d_results (us_disk s) = Some b -> decode_results b = Some l -> receipts_wf l).

(** The predicate looks at nothing else. *)
Lemma stored_wf_same s s' : us_results s' = us_results s ->
  d_results (us_disk s') = d_results (us_disk s) -> stored_wf s -> stored_wf s'.
Proof. intros H1 H2. unfold stored_wf. by rewrite H1, H2. Qed.
Lemma stored_wf_system : system_closed stored_wf.
Proof. split; [intros s|intros g s|intros path c s]; by apply (stored_wf_same s). Qed.
Lemma stored_wf_intents : journal_closed stored_wf JOURNAL_INTENTS.
Proof. intros b s. by apply (stored_wf_same s). Qed.
Hint Resolve stored_wf_system stored_wf_intents : uploads.

Lemma filter_wf p l : receipts_wf l -> receipts_wf (List.filter p l).
Proof.
  intros [H1 H2]. split; [by apply NoDup_fmap_filter|]. pose proof (length_filterb p l). lia.
Qed.

Lemma nil_wf : receipts_wf [].
Proof. split; [constructor|done]. Qed.

Lemma read_results s l s' : stored_wf s -> read_journal decode_results JOURNAL_RESULTS s = (Ok l, s') -> receipts_wf l.
Proof.
  intros [_ Hs]. unfold read_journal. destruct (call _ s) as [[[]|e] s1] eqn:E1; unfold call in E1.
  2:{ case_bool_decide; [|done]. intros [= <- _]. apply nil_wf. }
  destruct (os_fault _ _); simplify_eq. cbn [next_call us_disk]. unfold get_journal. simpl.
  destruct (d_results (us_disk s)) as [b|] eqn:Hb; [|intros [= <- _]; apply nil_wf].
  intros ([] & s2 & E2 & E)%st_bind_ok_iff. destruct (_ <? _); [done|]. unfold st_lift in E.
  destruct (decode_results b) as [l'|] eqn:Hd; simpl in E; [|done]. injection E as <- _. by eapply Hs.
Qed.

Lemma write_intents_wf encoded : stable stored_wf (write_journal JOURNAL_INTENTS encoded).
Proof. apply write_journal_stable; [auto with uploads|]. intros b s _. apply stored_wf_intents. Qed.
Hint Resolve write_intents_wf : uploads.

Lemma recover_wf now : stable stored_wf (recover reserved_name now).
Proof.
  pose proof (closed_call _ stored_wf_system) as Hc. unfold recover.
  apply stable_bind; [auto with uploads|intros s0]. destruct (us_recovered s0); [auto with uploads|].
  do 4 (apply stable_bind; [auto with uploads|intros ?]).
  apply stable_bind; [auto with uploads|intros l]. destruct (_ <? _); [auto with uploads|].
  apply stable_bind; [auto with uploads|intros kept].
  apply stable_bind; [auto with uploads|intros _].
  apply stable_bind; [intros s Hs; by apply (stored_wf_same s)|intros _].
  intros s Hs. unfold st_bind at 1.
  pose proof (read_journal_stable _ Hc decode_results JOURNAL_RESULTS s Hs) as H1.
  destruct (read_journal decode_results JOURNAL_RESULTS s) as [[res|e] s'] eqn:E; [|done].
  apply read_results in E; [|done]. destruct H1 as [_ H1]. simpl.
  split; [by apply filter_wf|done].
Qed.
Hint Resolve recover_wf : uploads.

Lemma stored_wf_only : receipts_only stored_wf.
Proof.
  split; [auto with uploads| |auto with uploads]. intros f s. by apply (stored_wf_same s).
Qed.

Lemma persist_results_wf l : receipts_wf l -> stable stored_wf (persist_results l).
Proof.
  intros Hl. unfold persist_results. steps. apply write_journal_stable; [auto with uploads|].
  intros b s Hb [H1 H2]. split; [done|]. simpl. intros b' l' [= <-] Hd.
  rewrite (results_roundtrip l b Hb) in Hd. by injection Hd as <-.
Qed.

(** What storing a receipt does. *)
Lemma keep_receipt_run receipt now s snapshots s' : keep_receipt receipt now s = (snapshots, s') ->
  (s' = s /\ snapshots = [])
  \/ exists r, existsb (fun x => sr_upload_id x =s sr_upload_id r) (us_results s) = false
      /\ s' = set_results (add_receipt now r (us_results s)) s /\ snapshots = [add_receipt now r (us_results s)].
Proof.
  unfold keep_receipt. destruct receipt as [r|]; [|intros [= <- <-]; by left].
  destruct (existsb _ _) eqn:E; intros [= <- <-]; [by left|right; by exists r].
Qed.

(** ** Runs *)

Definition loaded_wf (r : Recovery) : Prop := match r with Loaded l => receipts_wf l | _ => True end.
Definition receipts_inv (w : World) : Prop :=
  stored_wf (wd_uploads w) /\ Forall loaded_wf (wd_recoveries w) /\ Forall receipts_wf (wd_snapshots w).

(** The operations of a recovered registry leave the receipts alone. *)
Lemma results_closed R : system_closed (fun s => us_results s = R).
Proof. split; [by intros s|by intros g s|by intros path c s]. Qed.
Lemma results_intents R : journal_closed (fun s => us_results s = R) JOURNAL_INTENTS.
Proof. by intros b s. Qed.
Lemma run_op_results op s : (recovers op = true -> us_recovered s = true) ->
  us_results (run_op reserved_name op s) = us_results s.
Proof.
  intros Hr. destruct (recovers op) eqn:E.
  - apply (run_op_quiet (fun s' => us_results s' = us_results s /\ us_recovered s' = true)).
    + split; [split; [by intros s'|by intros g s'|by intros path c s']|by intros f s'|by intros b s'].
    + intros now s' Hs'. unfold recover. rewrite bind_get. by rewrite (proj2 Hs').
    + by split; [|apply Hr].
  - apply (run_op_resting (fun s' => us_results s' = us_results s)); [|done|done].
    split; [apply results_closed|by intros f s'|apply results_intents].
Qed.

Lemma proceed_inv {A} (P : Recovery -> Prop) (next : A -> Recovery) x o s' :
  proceed next x = (o, s') -> (forall a, x.1 = Ok a -> P (next a)) -> Forall P (option_list o).
Proof. destruct x as [[a|e] s1]; intros [= <- <-] H; repeat constructor. by apply H. Qed.

Lemma drop_or_put_forall {A} (P : A -> Prop) i o l :
  Forall P l -> Forall P (option_list o) -> Forall P (drop_or_put i o l).
Proof.
  intros Hl Ho. destruct o as [x|]; simpl in *; [|by apply Forall_delete].
  apply Forall_insert; [done|]. by apply Forall_inv in Ho.
Qed.

Lemma recovery_step_wf r now s o s' : recovery_step reserved_name r now s = (o, s') ->
  loaded_wf r -> stored_wf s -> stored_wf s' /\ Forall loaded_wf (option_list o).
Proof.
  pose proof stored_wf_system as Hsys. intros E Hr Hs. destruct r as [[|i todo] kept|kept| |res|]; simpl in E.
  - split; [|by eapply proceed_inv]. apply (proceed_stable _ _ _ _ _ E). by apply write_intents_wf.
  - split; [|by eapply proceed_inv]. apply (proceed_stable _ _ _ _ _ E). by apply sweep_one_stable.
  - injection E as <- <-. split; [by apply (stored_wf_same s)|by repeat constructor].
  - split.
    + apply (proceed_stable _ _ _ _ _ E). by apply (read_journal_stable _ (closed_call _ Hsys)).
    + eapply proceed_inv; [exact E|]. intros l Hl. simpl.
      destruct (read_journal decode_results JOURNAL_RESULTS s) as [r' s1] eqn:E1. simpl in Hl. subst r'.
      by eapply read_results.
  - injection E as <- <-. split; [|by repeat constructor]. split; [by apply filter_wf|apply Hs].
  - injection E as <- <-. split; [by apply (stored_wf_same s)|by repeat constructor].
Qed.

Lemma receipts_step l w w' : world_step reserved_name l w w' -> receipts_inv w -> receipts_inv w'.
Proof.
  pose proof stored_wf_only as HW. pose proof stored_wf_system as Hsys. intros Hstep (Hwf & Hrs & Hps).
  unfold receipts_inv.
  destruct Hstep as [op s cs rs ps|id s cs rs ps u s' E|i id u s cs rs ps r s' Hi E|i id u r s cs rs ps Hi
    |i id u r s cs rs ps ep now sn s' Hi E|i res s cs rs ps Hi|s cs rs ps o s' Hr E|i r now s cs rs ps o s' Hi E|];
    simpl in *.
  - split; [by apply run_op_quiet; [|apply recover_wf|]|done].
  - apply take_run in E as (_ & _ & ->). split; [by apply HW|done].
  - split; [|done]. pose proof (publish_stable _ Hsys id u s Hwf) as H1. by rewrite E in H1.
  - split; [|done]. by apply (persist_quiet _ HW s).
  - apply keep_receipt_run in E as [[-> ->]|(rc & Hnew & -> & ->)]; [by rewrite app_nil_r|].
    destruct (add_receipt_spec now rc (us_results s) (proj1 Hwf) Hnew) as [Hadd _].
    split_and!; [split; [done|apply Hwf]|done|]. apply Forall_app. by split; [|apply Forall_singleton].
  - split_and!; [|done|by apply Forall_delete].
    apply (persist_results_wf res); [by apply (Forall_lookup_1 _ _ _ _ Hps Hi)|done].
  - split_and!; [| |done].
    + apply (proceed_stable _ _ _ _ _ E). by apply recover_open_stable.
    + apply Forall_app. split; [done|]. by eapply proceed_inv.
  - destruct (recovery_step_wf r now s o s' E (Forall_lookup_1 _ _ _ _ Hrs Hi) Hwf) as [H1 H2].
    split_and!; [done|by apply drop_or_put_forall|done].
  - split_and!; [split; [apply nil_wf|apply Hwf]|constructor|constructor].
Qed.

Lemma receipts_reach server_id protected w : world_reach reserved_name server_id protected w -> receipts_inv w.
Proof.
  intros Hw. unfold world_reach in Hw.
  assert (receipts_inv (world_init server_id protected)) as H0 by (split_and!; [split; [apply nil_wf|done]|constructor..]).
  induction Hw as [|w1 w2 w3 [l Hstep] _ IH]; [done|]. by apply IH, (receipts_step l w1).
Qed.

(** Storing a receipt keeps the others, up to the retention at that instant and to the cap. *)
Lemma add_receipt_keeps now new l id r : receipts_wf l ->
  existsb (fun x => sr_upload_id x =s sr_upload_id new) l = false -> find_result id l = Some r ->
  let l' := add_receipt now new l in
  find_result id l' = Some r
  \/ (find_result id l' = None
      /\ (retained now r = false
          \/ (Z.of_nat (length l') = MAX_STORED_RESULTS
              /\ (sr_outcome r = Committed -> Forall (fun x => sr_outcome x = Committed) l')))).
Proof.
  intros Hwf Hnew Hf. cbv zeta. destruct (add_receipt_spec now new l Hwf Hnew) as (Hwf' & Hsub & Hsup).
  pose proof (proj1 (find_result_iff id _ r (proj1 Hwf)) Hf) as [Hin Hid].
  destruct (find_result id (add_receipt now new l)) as [r'|] eqn:Hf'.
  - left. apply find_result_iff in Hf' as [Hin' Hid']; [|apply Hwf']. f_equal.
    destruct (Hsub r' Hin') as [Hl| ->].
    + assert (find_result id l = Some r') as Hf2 by (by apply find_result_iff; [apply Hwf|]). congruence.
    + exfalso. assert (existsb (fun x => sr_upload_id x =s sr_upload_id new) l = true); [|congruence].
      apply existsb_elem. exists r. split; [done|]. apply str_eqb_eq. congruence.
  - right. split; [done|]. destruct (Hsup r Hin) as [Hin'|Hor]; [|done].
    exfalso. assert (find_result id (add_receipt now new l) = Some r); [|congruence].
    by apply find_result_iff; [apply Hwf'|].
Qed.

(** C12: the terminal answer of an upload is final and the receipts are bounded.  In every reachable
    state, also with recoveries that overlap, there are at most 256 receipts, one per upload.  In one
    more step the receipt of an upload stays as it is, so a repeated commit answers the same, except
    in three kinds of step: a restart empties the memory; a commit that stores its receipt at the
    instant [now] drops those past their retention at [now] and, when that leaves the list at the
    cap, one more, which is of a published file only if no receipt of a failed upload is left; and a
    recovery that reads its journal replaces the list by what it read and still retains, which the
    code does not keep from happening a second time when two recoveries overlap. *)
Theorem receipts_are_final server_id protected w l w' id r :
  world_reach reserved_name server_id protected w -> world_step reserved_name l w w' ->
  find_result id (us_results (wd_uploads w)) = Some r ->
  let results := us_results (wd_uploads w') in
  receipts_wf results
  /\ (find_result id results = Some r
      \/ match l with
         | LRestart => results = []
         | LRecord now =>
             find_result id results = None
             /\ (retained now r = false
                 \/ (Z.of_nat (length results) = MAX_STORED_RESULTS
                     /\ (sr_outcome r = Committed -> Forall (fun x => sr_outcome x = Committed) results)))
         | LRecovery (Loaded read) now => results = List.filter (retained now) read
         | _ => False
         end).
Proof.
  intros Hw Hstep Hf results. subst results. apply receipts_reach in Hw.
  pose proof (receipts_step l w w' Hstep Hw) as [[Hwf' _] _]. split; [done|]. clear Hwf'.
  destruct Hw as ([Hwf _] & _ & _). pose proof (results_closed (us_results (wd_uploads w))) as HC.
  pose proof (results_intents (us_results (wd_uploads w))) as HJ.
  assert (forall s, us_results s = us_results (wd_uploads w) -> find_result id (us_results s) = Some r) as Hsame by (by intros s ->).
  destruct Hstep as [op s cs rs ps Hop Hrec|id0 s cs rs ps u s' E|i id0 u s cs rs ps r0 s' Hi E|i id0 u r0 s cs rs ps Hi
    |i id0 u r0 s cs rs ps ep now sn s' Hi E|i res s cs rs ps Hi|s cs rs ps o s' Hr E|i rc now s cs rs ps o s' Hi E|];
    simpl in *.
  - left. apply Hsame. by apply run_op_results.
  - left. apply Hsame. by apply take_run in E as (_ & _ & ->).
  - left. apply Hsame. pose proof (publish_stable _ HC id0 u s eq_refl) as H1. by rewrite E in H1.
  - left. apply Hsame. by apply (persist_intents_stable _ HC HJ s).
  - apply keep_receipt_run in E as [[-> _]|(new & Hnew & -> & _)]; [by left|]. by apply add_receipt_keeps.
  - left. apply Hsame. by apply (persist_results_stable _ HC res (fun b s0 Hb => Hb) s).
  - left. apply Hsame. apply (proceed_stable (fun s0 => us_results s0 = us_results s) _ _ _ _ E).
    by apply (recover_open_stable _ HC s).
  - destruct rc as [[|j todo] kept|kept| |res|]; simpl in E.
    + left. apply Hsame. apply (proceed_stable (fun s0 => us_results s0 = us_results s) _ _ _ _ E).
      by apply (write_journal_stable _ HC).
    + left. apply Hsame. apply (proceed_stable (fun s0 => us_results s0 = us_results s) _ _ _ _ E).
      by apply (sweep_one_stable _ _ HC).
    + left. by injection E as <- <-.
    + left. apply Hsame. apply (proceed_stable (fun s0 => us_results s0 = us_results s) _ _ _ _ E).
      by apply (read_journal_stable _ (closed_call _ HC)).
    + right. by injection E as <- <-.
    + left. by injection E as <- <-.
  - by right.
Qed.
End Receipts.
