(* ===== verification/MachineUploadSample.v ===== *)
(** * Sample runs of the upload registry

    An instance of the encodings that satisfies their laws, file systems without and with faults,
    and concrete runs of the registry. *)

From S2P Require Import Prelude RustStr Protocol StateLogic MachineFile MachineUpload MachineUploadFacts MachineUploadRuns.
From S2P Require Import MachineUploadJournal MachineUploadReceipts.
Local Open Scope Z_scope.

(** ** Encodings *)

Definition intent_tuple (r : IntentRecord) : string * string * Z := (in_path r, in_id r, in_failed_sweeps r).
Definition tuple_intent (t : string * string * Z) : IntentRecord := mkIntent t.1.1 t.1.2 t.2.

Definition result_tuple (r : StoredResult) : string * string * Z * string * Z * bool * bool * option string :=
  (sr_upload_id r, sr_path r, sr_bytes_written r, sr_sha256 r, sr_committed_at r, sr_cleanup_pending r,
   is_failed r, sr_code r).
Definition tuple_result (t : string * string * Z * string * Z * bool * bool * option string) : StoredResult :=
  let '(id, path, n, sha, at_, pending, failed, code) := t in
  mkStored id path n sha at_ pending (if failed : bool then Failed else Committed) code.

Fixpoint bits_of (p : positive) : bytes :=
  match p with xH => [] | xO q => "0"%char :: bits_of q | xI q => "1"%char :: bits_of q end.
Fixpoint of_bits (l : bytes) : positive :=
  match l with [] => xH | b :: l' => if Ascii.eqb b "1" then xI (of_bits l') else xO (of_bits l') end.

Lemma of_bits_of p : of_bits (bits_of p) = p.
Proof. induction p; simpl; congruence. Qed.

(** A digest of 64 hexadecimal digits that depends on the bytes. *)
Definition sample_sha (data : bytes) : string :=
  String.string_of_list_ascii
    (replicate 62%nat "0"%char
     ++ ((fun n => Ascii.ascii_of_N (48 + n)) <$>
         [N.modulo (foldr N.add 0%N (Ascii.N_of_ascii <$> data)) 10; N.modulo (N.of_nat (length data)) 10])).

#[export] Instance sample_codec : Codec := {
  base64_decode s := Some (String.list_ascii_of_string s);
  sha256_hex := sample_sha;
  encode_intents l := Some (bits_of (encode (map intent_tuple l)));
  decode_intents b :=
    option_map (map (fun t => IntentOf (tuple_intent t))) (decode (A:=list (string * string * Z)) (of_bits b));
  encode_results l := Some (bits_of (encode (map result_tuple l)));
  decode_results b := option_map (map tuple_result)
    (decode (A:=list (string * string * Z * string * Z * bool * bool * option string)) (of_bits b))
}.

#[export] Instance sample_codec_laws : CodecLaws.
Proof.
  split.
  - intros l b [= <-]. simpl. rewrite of_bits_of, decode_encode. simpl. f_equal.
    rewrite map_map. apply map_ext. by intros [].
  - intros l b [= <-]. simpl. rewrite of_bits_of, decode_encode. simpl. f_equal.
    rewrite map_map. rewrite <- (map_id l) at 2. apply map_ext. by intros [?????? []].
Qed.

(** ** File systems *)

#[export] Instance sound_os : Os := { os_fault _ _ := None; os_short _ := O; os_available _ := 2 ^ 40 }.
#[export] Instance sound_os_laws : @OsLaws sound_os.
Proof. by split. Qed.

(** Staging files of uploads whose number starts with 0 cannot be removed. *)
Definition stuck_os : Os := {|
  os_fault _ c :=
    match c with
    | CallCleanup _ name => if starts_with ".treer-transfer-upl_0" name then Some (io_error PermissionDenied) else None
    | _ => None
    end;
  os_short _ := O;
  os_available _ := 2 ^ 40 |}.
Lemma stuck_os_laws : @OsLaws stuck_os.
Proof.
  split; [done| |done]. intros n c e. destruct c; simpl; try done. case_match; [|done]. by intros [= <-].
Qed.

(** ** Runs *)

(** [None] is a restart. *)
Fixpoint run_script {O : Os} (script : list (option UploadOp)) (s : Uploads) : Uploads :=
  match script with
  | [] => s
  | Some op :: rest => run_script rest (run_op to_ascii_uppercase op s)
  | None :: rest => run_script rest (uploads_new (us_server_id s) (us_protected s) (us_disk s) (us_calls s))
  end.

Lemma run_script_reach {O : Os} script s :
  Forall (fun o => match o with Some op => op_wf op | None => True end) script ->
  rtc (machine_step to_ascii_uppercase) (mkMachine s []) (mkMachine (run_script script s) []).
Proof.
  intros Hs. revert s. induction Hs as [|[op|] rest Hop _ IH]; intros s; simpl; [done| |];
    (eapply rtc_l; [|apply IH]); by constructor.
Qed.

(** No restart, and every command of a script finds the registry recovered. *)
Fixpoint script_ready {O : Os} (script : list (option UploadOp)) (s : Uploads) : bool :=
  match script with
  | [] => true
  | Some (OpRecover now) :: rest => script_ready rest (recover to_ascii_uppercase now s).2
  | Some op :: rest => (negb (recovers op) || us_recovered s) && script_ready rest (run_op to_ascii_uppercase op s)
  | None :: rest => false
  end.

Lemma run_script_world {O : Os} rs script s :
  Forall (fun o => match o with Some op => op_wf op | None => True end) script -> script_ready script s = true ->
  rtc (world_next to_ascii_uppercase) (mkWorld s [] rs []) (mkWorld (run_script script s) [] rs []).
Proof.
  intros Hs. revert s. induction Hs as [|o rest Hop _ IH]; intros s; simpl; [done|].
  destruct o as [op|]; [|done].
  assert ((negb (recovers op) || us_recovered s) && script_ready rest (run_op to_ascii_uppercase op s) = true ->
    rtc (world_next to_ascii_uppercase) (mkWorld s [] rs [])
      (mkWorld (run_script rest (run_op to_ascii_uppercase op s)) [] rs [])) as Hgen.
  { intros [H0 H]%andb_prop. eapply rtc_l; [exists LRun; apply (world_run _ op); [done|]|by apply IH].
    intros Hr. by rewrite Hr in H0. }
  destruct op; try exact Hgen. intros H. etrans; [apply recover_steps|by apply IH].
Qed.

Definition sample_begin (upload_id : string) (declared : option Z) : UploadOp :=
  OpBegin upload_id "docs" (upload_id +:+ ".txt") false declared 0 1000.
Definition hello : bytes := String.list_ascii_of_string "hello".

Definition sample_script : list (option UploadOp) :=
  [Some (OpRecover 900); Some (sample_begin "upl_10000001" (Some 5)); Some (OpChunk "upl_10000001" (Some 0) "hel" 1);
   Some (OpChunk "upl_10000001" (Some 3) "lo" 2); Some (OpPartCommit "upl_10000001" 0 5 (sample_sha hello) 3)].
Definition sample_start : Machine := machine_init "srv" [].
Definition sample_staged_upload : Uploads := run_script (O := sound_os) sample_script (mc_uploads sample_start).

Definition sample_upload : Upload :=
  mkUpload "docs/upl_10000001.txt" (mkFile hello 5) false (Some 5) 5 5 [mkPart 0 5 (sample_sha hello)] []
    hello hello 0 3.
Definition sample_commit : Commit := mkCommit "upl_10000001" sample_upload Taken.
Definition sample_taken : Uploads := set_entries (delete "upl_10000001"%string) sample_staged_upload.
Definition sample_machine : Machine := mkMachine sample_taken [sample_commit].

Lemma sample_reach_staged :
  machine_reach to_ascii_uppercase "srv" [] (mkMachine sample_staged_upload []).
Proof. apply (run_script_reach (O := sound_os) sample_script). by repeat constructor. Qed.

Lemma sample_reach : machine_reach to_ascii_uppercase "srv" [] sample_machine.
Proof.
  eapply rtc_r; [exact sample_reach_staged|].
  apply (step_take _ "upl_10000001" sample_staged_upload []). vm_compute. reflexivity.
Qed.

Definition sample_publish : Result unit ProtocolError * Uploads :=
  commit_publish "upl_10000001" sample_upload sample_taken.

Definition sample_world : World := mkWorld sample_taken [sample_commit] [] [].
Lemma sample_world_staged : world_reach to_ascii_uppercase "srv" [] (mkWorld sample_staged_upload [] [] []).
Proof. apply (run_script_world (O := sound_os) [] sample_script); [by repeat constructor|by vm_compute]. Qed.
Lemma sample_world_reach : world_reach to_ascii_uppercase "srv" [] sample_world.
Proof.
  apply (world_reach_step _ _ _ _ _ LTake sample_world_staged).
  apply (world_take _ "upl_10000001" sample_staged_upload []). vm_compute. reflexivity.
Qed.

Lemma sample_member : sample_commit ∈ wd_commits sample_world.
Proof. apply list_elem_of_here. Qed.
Lemma sample_publish_run :
  commit_publish (cm_id sample_commit) (cm_upload sample_commit) (wd_uploads sample_world)
  = (sample_publish.1, sample_publish.2).
Proof.
  unfold sample_publish, sample_world. cbn [wd_uploads sample_commit cm_id cm_upload].
  apply surjective_pairing.
Qed.

Lemma published_content_matches_its_digests_witness :
  sample_publish.1 = Ok tt
  /\ exists file, d_published (us_disk sample_publish.2) !! "docs/upl_10000001.txt"%string = Some file
     /\ up_declared sample_upload = Some (Z.of_nat (length file))
     /\ parts_match 0 (up_parts sample_upload) file
     /\ forall epoch pending, let receipt := receipt_of "upl_10000001" sample_upload epoch pending in
          sr_sha256 receipt = sha256_hex file /\ sr_bytes_written receipt = Z.of_nat (length file).
Proof.
  split; [vm_compute; reflexivity|].
  apply (published_content_matches_its_digests to_ascii_uppercase "srv" [] sample_world sample_commit
           sample_publish.1 sample_publish.2).
  - exact sample_world_reach.
  - exact sample_member.
  - reflexivity.
  - exact sample_publish_run.
  - vm_compute. exact I.
Defined.

(** A restart sweeps the staging file. *)
Definition sample_restarted : Uploads :=
  uploads_new "srv" [] (us_disk sample_staged_upload) (us_calls sample_staged_upload).
Definition sample_recovered : Uploads := (recover to_ascii_uppercase 2000 sample_restarted).2.

Lemma restart_sweeps_active_uploads_witness :
  us_entries sample_staged_upload !! "upl_10000001"%string = Some sample_upload
  /\ (staging_name "docs/upl_10000001.txt" "upl_10000001" ∉ d_staging (us_disk sample_recovered)
      \/ (exists n e, os_fault n (CallCleanup "docs/upl_10000001.txt" (temporary_name "upl_10000001")) = Some e
                      /\ io_kind e = NotFound)
      \/ (mkIntent "docs/upl_10000001.txt" "upl_10000001" 1 ∈ us_unswept sample_recovered
          /\ mkIntent "docs/upl_10000001.txt" "upl_10000001" 1 ∈ journal_records sample_recovered)).
Proof.
  split; [vm_compute; reflexivity|].
  apply (restart_sweeps_active_uploads to_ascii_uppercase "srv" [] (mkMachine sample_staged_upload [])
           "upl_10000001" sample_upload 2000 sample_recovered).
  - exact sample_reach_staged.
  - vm_compute. reflexivity.
  - vm_compute. reflexivity.
  - vm_compute. reflexivity.
Defined.

(** ** Receipts *)

Definition sample_settled : Uploads := (ignore persist_intents sample_publish.2).2.
Definition sample_receipt : StoredResult := receipt_of "upl_10000001" sample_upload 1500 false.
Definition sample_stored : Uploads := set_results [sample_receipt] sample_settled.
Definition sample_commit_in (phase : Phase) : Commit := mkCommit "upl_10000001" sample_upload phase.

(** The rest of a commit, whatever recoveries are under way. *)
Lemma commit_ends rs taken stored :
  let publish := commit_publish "upl_10000001" sample_upload taken in
  keep_receipt (receipt_for "upl_10000001" sample_upload publish.1 1500) 1500 (ignore persist_intents publish.2).2
    = ([[sample_receipt]], stored) ->
  rtc (world_next to_ascii_uppercase) (mkWorld taken [sample_commit] rs [])
    (mkWorld stored [] rs [[sample_receipt]]).
Proof.
  intros publish Hkept. destruct publish as [r s1] eqn:Hp. simpl in Hkept.
  eapply rtc_l; [exists LPublish; exact (world_publish _ 0 "upl_10000001" sample_upload taken [sample_commit] rs [] r s1 eq_refl Hp)|].
  eapply rtc_l; [exists LSettle; exact (world_settle _ 0 "upl_10000001" sample_upload r s1 [sample_commit_in (Published r)] rs [] eq_refl)|].
  apply rtc_once. exists (LRecord 1500).
  exact (world_record _ 0 "upl_10000001" sample_upload r _ [sample_commit_in (Settled r)] rs [] 1500 1500 _ _ eq_refl Hkept).
Qed.
Lemma sample_kept :
  let publish := commit_publish "upl_10000001" sample_upload sample_taken in
  keep_receipt (receipt_for "upl_10000001" sample_upload publish.1 1500) 1500 (ignore persist_intents publish.2).2
    = ([[sample_receipt]], sample_stored).
Proof. vm_compute. reflexivity. Qed.

Definition sample_before_last : World := mkWorld sample_stored [] [] [[sample_receipt]].
Definition sample_last : World := mkWorld (ignore (persist_results [sample_receipt]) sample_stored).2 [] [] [].
Lemma sample_found :
  find_result "upl_10000001" (us_results (wd_uploads sample_before_last)) = Some sample_receipt.
Proof. vm_compute. reflexivity. Qed.

Lemma receipts_are_final_witness :
  find_result "upl_10000001" (us_results (wd_uploads sample_before_last)) = Some sample_receipt
  /\ receipts_wf (us_results (wd_uploads sample_last))
  /\ (find_result "upl_10000001" (us_results (wd_uploads sample_last)) = Some sample_receipt \/ False).
Proof.
  split; [exact sample_found|].
  apply (receipts_are_final to_ascii_uppercase "srv" [] sample_before_last LPersist sample_last "upl_10000001" sample_receipt).
  - unfold world_reach. etrans; [exact sample_world_reach|exact (commit_ends [] sample_taken sample_stored sample_kept)].
  - by apply (world_persist _ 0 [sample_receipt] sample_stored [] []).
  - exact sample_found.
Defined.

(** Two recoveries overlap: one has read the (empty) journal of receipts, the other finishes, and
    after a commit has stored its receipt the first one puts its empty list in place. *)
(** The first recovery has read the receipts; the second one has run from end to end. *)
Definition slow_read : Uploads :=
  let s1 := (recover_open (mc_uploads sample_start)).2 in
  let s2 := (write_journal JOURNAL_INTENTS (encode_intents []) s1).2 in
  (read_journal decode_results JOURNAL_RESULTS (set_unswept [] s2)).2.
Definition slow_staged : Uploads := run_script (O := sound_os) sample_script slow_read.
Definition slow_taken : Uploads := set_entries (delete "upl_10000001"%string) slow_staged.
Definition slow_stored : Uploads :=
  set_results [sample_receipt]
    (ignore persist_intents (commit_publish "upl_10000001" sample_upload slow_taken).2).2.

Lemma slow_recovery_reads :
  world_reach to_ascii_uppercase "srv" [] (mkWorld slow_read [] [Loaded []] []).
Proof.
  eapply rtc_l; [exists LOpen; by apply (world_open _ (mc_uploads sample_start) [] [] [] (Some (Sweeping [] [])))|].
  eapply rtc_l; [by apply (recovery_alone _ [] (Sweeping [] []) 0 (Some (Rewritten [])))|].
  eapply rtc_l; [by apply (recovery_alone _ [] (Rewritten []) 0 (Some Reading))|].
  apply rtc_once. apply (recovery_alone _ [] Reading 0 (Some (Loaded []))). by vm_compute.
Qed.

Lemma slow_kept :
  let publish := commit_publish "upl_10000001" sample_upload slow_taken in
  keep_receipt (receipt_for "upl_10000001" sample_upload publish.1 1500) 1500 (ignore persist_intents publish.2).2
    = ([[sample_receipt]], slow_stored).
Proof. vm_compute. reflexivity. Qed.
Lemma slow_take :
  world_step to_ascii_uppercase LTake (mkWorld slow_staged [] [Loaded []] [])
    (mkWorld slow_taken [sample_commit] [Loaded []] []).
Proof. apply (world_take _ "upl_10000001" slow_staged [] [Loaded []] []). vm_compute. reflexivity. Qed.
Lemma slow_runs :
  rtc (world_next to_ascii_uppercase) (mkWorld slow_read [] [Loaded []] []) (mkWorld slow_staged [] [Loaded []] []).
Proof. apply (run_script_world (O := sound_os) [Loaded []] sample_script); [by repeat constructor|by vm_compute]. Qed.

Lemma overlapping_recovery_drops_receipt :
  let w := mkWorld slow_stored [] [Loaded []] [[sample_receipt]] in
  world_reach to_ascii_uppercase "srv" [] w /\ us_results (wd_uploads w) = [sample_receipt]
  /\ exists w', world_step to_ascii_uppercase (LRecovery (Loaded []) 1600) w w' /\ us_results (wd_uploads w') = [].
Proof.
  split_and!; [|reflexivity|].
  - unfold world_reach. etrans; [exact slow_recovery_reads|]. etrans; [exact slow_runs|].
    eapply rtc_l; [exists LTake; exact slow_take|exact (commit_ends [Loaded []] slow_taken slow_stored slow_kept)].
  - eexists. split; [exact (world_recovery _ 0 (Loaded []) 1600 slow_stored [] [Loaded []] _ _ _ eq_refl eq_refl)|reflexivity].
Qed.

(** ** Lock-out: two staging files that cannot be removed, then eight uploads, then a restart *)

Definition stuck_begin (upload_id : string) : option UploadOp := Some (sample_begin upload_id (Some 5)).
Definition stuck_script : list (option UploadOp) :=
  [stuck_begin "upl_00000001"; stuck_begin "upl_00000002"; None; Some (OpRecover 1000);
   stuck_begin "upl_10000001"; stuck_begin "upl_10000002"; stuck_begin "upl_10000003"; stuck_begin "upl_10000004";
   stuck_begin "upl_10000005"; stuck_begin "upl_10000006"; stuck_begin "upl_10000007"; stuck_begin "upl_10000008";
   None].
Definition stuck_state : Uploads := run_script (O := stuck_os) stuck_script (mc_uploads sample_start).

Definition stuck_later : Machine :=
  mkMachine (run_op (OS := stuck_os) to_ascii_uppercase (OpRecover 5000) stuck_state) [].
Lemma stuck_step : @machine_step stuck_os _ to_ascii_uppercase (mkMachine stuck_state []) stuck_later.
Proof. by apply (@step_run stuck_os). Qed.
Lemma stuck_reach : rtc (@machine_step stuck_os _ to_ascii_uppercase) sample_start (mkMachine stuck_state []).
Proof. apply (run_script_reach (O := stuck_os) stuck_script). by repeat constructor. Qed.
Lemma stuck_overfull : overfull stuck_state.
Proof. split; [vm_compute; reflexivity|]. split; vm_compute; reflexivity. Qed.

Lemma overfull_journal_locks_uploads_out_witness :
  rtc (@machine_step stuck_os _ to_ascii_uppercase) sample_start (mkMachine stuck_state [])
  /\ overfull stuck_state
  /\ overfull (mc_uploads stuck_later) /\ us_entries (mc_uploads stuck_later) = ∅
  /\ is_ok (@begin stuck_os _ to_ascii_uppercase "upl_20000001" "docs" "new.txt" false None 0 5000
              (mc_uploads stuck_later)).1 = false.
Proof.
  split; [exact stuck_reach|]. split; [exact stuck_overfull|].
  apply (@overfull_journal_locks_uploads_out stuck_os _ to_ascii_uppercase stuck_os_laws stuck_state stuck_later);
    [exact stuck_overfull|]. apply rtc_once. exact stuck_step.
Defined.

(** ** An upload that is being published is in no journal

    While one commit publishes, another command writes the journal from the registry, which no
    longer holds the upload; a stop at this point leaves its staging file behind for good. *)

Definition sample_begun : Uploads := run_op to_ascii_uppercase (sample_begin "upl_10000002" None) sample_taken.

Lemma publishing_upload_is_not_journaled :
  machine_reach to_ascii_uppercase "srv" [] (mkMachine sample_begun [sample_commit])
  /\ staging_name "docs/upl_10000001.txt" "upl_10000001" ∈ d_staging (us_disk sample_begun)
  /\ (in_id <$> journal_records sample_begun) = ["upl_10000002"%string].
Proof.
  split; [|split; [apply (bool_decide_unpack _)|]; vm_compute; done].
  eapply rtc_r; [exact sample_reach|]. apply step_run. reflexivity.
Qed.
