(* ===== verification/MachineTransfer.v ===== *)
(** * File transfers (crates/treer-agent-server/src/machine_file_transfer.rs, Unix)

    The registry of short-lived transfers of the Controller: [put]s that are staged and published
    once their size and digest agree, [get]s that are read in chunks and confirmed when the source
    did not change, the journal of staging files, and the recovery that sweeps them.

    Everything runs in [StM Transfers].  One request holds the registry's lock from its first
    check to its answer; [expire] and [clear] take it on their own.  Every call into the file
    system may fail: the class [TransferOs] answers the n-th call of the process.  SHA-256, base64
    and JSON are the class [TransferCodec]; a hasher is the list of bytes it was given. *)

From S2P Require Import Prelude RustStr Protocol MachineFile.
Local Open Scope Z_scope.

(** ** Limits and requests (crates/treer-protocol/src/machine_file.rs) *)

Definition CAPABILITY_MACHINE_FILE_TRANSFER : string := "machine.file-transfer.v1".
Definition MACHINE_TRANSFER_CHUNK_BYTES : Z := 64 * 1024.
Definition MACHINE_TRANSFER_DEFAULT_LIMIT : Z := 128 * 1024 * 1024.
Definition MACHINE_TRANSFER_HARD_LIMIT : Z := 1024 * 1024 * 1024.
Definition MACHINE_TRANSFER_IDLE_SECONDS : Z := 30.
Definition MACHINE_TRANSFER_TOTAL_SECONDS : Z := 15 * 60.
Definition MACHINE_TRANSFER_MAX_ACTIVE : Z := 8.

Record MachineTransferActor : Type := mkActor { ac_workspace_id : string; ac_kind : string; ac_id : string }.
#[export] Instance MachineTransferActor_eq_dec : EqDecision MachineTransferActor.
Proof. solve_decision. Defined.

Inductive Request : Type :=
| PutBegin (path : string) (overwrite : bool) (mode : Z) (size : option Z) (limit : Z)
| GetBegin (path : string) (limit : Z)
| PutChunk (id : string) (offset : Z) (content_base64 : string)
| GetChunk (id : string) (offset : Z)
| PutFinish (id : string) (size : Z) (sha256 : string)
| GetFinish (id : string)
| AbortTransfer (id : string) (read : bool).

(** The JSON answers: MachineTransferBegin, the offset of a put, MachineTransferChunk,
    MachineTransferComplete, and [{"aborted": true}]. *)
Inductive Answer : Type :=
| Begun (id path : string) (limit chunk_bytes : Z) (size : option Z)
| Written (offset : Z)
| Chunk (offset : Z) (content_base64 : string) (eof : bool)
| Complete (path : string) (size : Z) (sha256 : string)
| Aborted.

Definition failure (code message : string) : ProtocolError := protocol_error code message.

Definition io_failure (error : IoError) : ProtocolError :=
  if is_publication_uncertain error then
    failure "machine_file_commit_uncertain"
      "destination was published but durability/cleanup is unconfirmed; inspect before retrying"
  else
    match io_kind error with
    | AlreadyExists => failure "machine_file_exists" "destination already exists; use --force to replace it"
    | NotFound => failure "machine_file_not_found" "file or parent directory is unavailable"
    | PermissionDenied => failure "machine_file_denied" "file transfer path is not permitted"
    | InvalidInput => failure "invalid_machine_path"
                        "file transfer requires a safe root-relative regular-file path"
    | Unsupported | OtherKind => failure "machine_file_io_failed" "file transfer filesystem operation failed"
    end.

(** ** The registry *)

Notation bytes := (list ascii).

(** What the code reads of [std::fs::Metadata]. *)
Record Metadata : Type := mkMetadata {
  md_len : Z; md_mtime : Z; md_mtime_nsec : Z; md_ctime : Z; md_ctime_nsec : Z
}.
Definition source_metadata_changed (original current : Metadata) : bool :=
  negb (md_mtime original =? md_mtime current)
  || negb (md_mtime_nsec original =? md_mtime_nsec current)
  || negb (md_ctime original =? md_ctime current)
  || negb (md_ctime_nsec original =? md_ctime_nsec current).

(** A staging file is the bytes it holds.  [staged] is [Some] while the transfer is registered:
    only a finish takes it, and a finish never registers its transfer again. *)
Inductive Direction : Type :=
| Put (staged : bytes) (overwrite : bool) (expected_size : option Z)
| Get (original : Metadata) (eof : bool).

Record Pending : Type := mkPending {
  pd_actor : MachineTransferActor;
  pd_path : string;
  pd_created : Z;
  pd_touched : Z;
  pd_limit : Z;
  pd_offset : Z;
  pd_hash : bytes;
  pd_direction : Direction
}.

Definition is_put (entry : Pending) : bool :=
  match pd_direction entry with Put _ _ _ => true | Get _ _ => false end.

(** Outside the process: the journal, the staging names by directory, the published files. *)
Record TransferDisk : Type := mkTransferDisk {
  td_journal : option bytes;
  td_staging : gset (string * string);
  td_published : gmap string bytes
}.

(** The calls into the file system. *)
Inductive Call : Type :=
| CallOpenProtected (path : string) | CallOpenRoot | CallCurrentDir | CallReservePath (path : string)
| CallTransferJournal | CallLease | CallAvailable
| CallOpenRead (path : string) | CallMetadata | CallRead
| CallReadJournal | CallReadBytes | CallStageJournal | CallWriteJournal | CallCommitJournal
| CallCleanup (at_ : string * string) | CallUnlink (at_ : string * string)
| CallValidateTarget (path : string) | CallStage (path id : string)
| CallWrite | CallPublish (path : string) (overwrite : bool).

(** [tr_lease]: the recovery lease is held.  [tr_log] is the calls into the file system so far, the
    last one first. *)
Record Transfers : Type := mkTransfers {
  tr_workspace_id : string;
  tr_protected : list string;
  tr_limit : Z;
  tr_recovered : bool;
  tr_recovery_write_failed : bool;
  tr_lease : bool;
  tr_generation : Z;
  tr_pending : gmap string Pending;
  tr_disk : TransferDisk;
  tr_log : list Call
}.
Definition tr_calls (s : Transfers) : nat := length (tr_log s).

(** [clamp(1, MACHINE_TRANSFER_HARD_LIMIT)]. *)
Definition transfers_new (workspace_id : string) (protected : list string) (configured_limit : Z)
    (disk : TransferDisk) : Transfers :=
  mkTransfers workspace_id protected (Z.min (Z.max configured_limit 1) MACHINE_TRANSFER_HARD_LIMIT)
    false false false 0 ∅ disk [].

Definition set_recovered s := mkTransfers (tr_workspace_id s) (tr_protected s) (tr_limit s)
  true (tr_recovery_write_failed s) true (tr_generation s) (tr_pending s) (tr_disk s) (tr_log s).
Definition set_write_failed s := mkTransfers (tr_workspace_id s) (tr_protected s) (tr_limit s)
  (tr_recovered s) true (tr_lease s) (tr_generation s) (tr_pending s) (tr_disk s) (tr_log s).
Definition set_generation g s := mkTransfers (tr_workspace_id s) (tr_protected s) (tr_limit s)
  (tr_recovered s) (tr_recovery_write_failed s) (tr_lease s) g (tr_pending s) (tr_disk s) (tr_log s).
Definition set_pending f s := mkTransfers (tr_workspace_id s) (tr_protected s) (tr_limit s)
  (tr_recovered s) (tr_recovery_write_failed s) (tr_lease s) (tr_generation s) (f (tr_pending s))
  (tr_disk s) (tr_log s).
Definition set_disk f s := mkTransfers (tr_workspace_id s) (tr_protected s) (tr_limit s)
  (tr_recovered s) (tr_recovery_write_failed s) (tr_lease s) (tr_generation s) (tr_pending s)
  (f (tr_disk s)) (tr_log s).
Definition next_call (c : Call) s := mkTransfers (tr_workspace_id s) (tr_protected s) (tr_limit s)
  (tr_recovered s) (tr_recovery_write_failed s) (tr_lease s) (tr_generation s) (tr_pending s)
  (tr_disk s) (c :: tr_log s).

Definition set_journal (b : bytes) (d : TransferDisk) : TransferDisk :=
  mkTransferDisk (Some b) (td_staging d) (td_published d).
Definition set_staging (f : gset (string * string) -> gset (string * string)) (d : TransferDisk) : TransferDisk :=
  mkTransferDisk (td_journal d) (f (td_staging d)) (td_published d).
Definition set_published (path : string) (content : bytes) (d : TransferDisk) : TransferDisk :=
  mkTransferDisk (td_journal d) (td_staging d) (<[path := content]> (td_published d)).

(** [info], without the path of the root. *)
Record Info : Type := mkInfo { inf_capabilities : list string; inf_max_bytes : Z; inf_chunk_bytes : Z }.
Definition info (s : Transfers) : Info :=
  mkInfo [CAPABILITY_MACHINE_FILE_TRANSFER] (tr_limit s) MACHINE_TRANSFER_CHUNK_BYTES.

(** ** Staging names *)

(** The directory of a root-relative path: the staging file is created next to its target. *)
Definition parent_of (path : string) : string := join "/" (removelast (split_on slash path)).
Definition temporary_name (id : string) : string := ".treer-transfer-" +:+ id.
Definition staging_name (path id : string) : string * string := (parent_of path, temporary_name id).
Definition journal_temporary : string * string := (".treer/file-transfers", ".treer-transfer-xfer_journal")%string.

(** ** The system and the encodings *)

(** [os_fault n c]: how the n-th call, which is [c], fails.  [os_effect n]: a failing call has
    done its work nevertheless: created, removed or renamed the staging name.  [os_order] is the
    order in which a HashMap is visited. *)
Class TransferOs : Type := {
  os_fault : nat -> Call -> option IoError;
  os_effect : nat -> bool;
  os_available : nat -> Z;
  os_metadata : nat -> Metadata;
  os_read : nat -> bytes;
  os_order : gmap string Pending -> list (string * Pending)
}.

Class TransferCodec : Type := {
  base64_encode : bytes -> string;
  base64_decode : string -> option bytes;
  sha256_hex : bytes -> string;
  encode_records : list (string * string) -> option bytes;
  decode_records : bytes -> option (list (string * string))
}.

(** The space a record takes in the journal: a valid path and an identifier hold no character that
    JSON escapes, and brackets, quotes and commas are at most 16 bytes. *)
Definition record_size (r : string * string) : Z := str_len r.1 + str_len r.2 + 16.
Definition valid_record (r : string * string) : Prop :=
  is_ok (validate_relative_path r.1) = true /\ str_len r.2 = 37.
Class TransferCodecLaws {C : TransferCodec} : Prop := {
  base64_roundtrip b : base64_decode (base64_encode b) = Some b;
  records_encode l : is_Some (encode_records l);
  records_roundtrip l b : encode_records l = Some b -> decode_records b = Some l;
  records_size l b : encode_records l = Some b -> Forall valid_record l ->
    Z.of_nat (length b) <= 16 + foldr Z.add 0 (record_size <$> l)
}.

(** A HashMap visits each of its entries once. *)
Class TransferOsLaws {O : TransferOs} : Prop := {
  order_complete m : os_order m ≡ₚ map_to_list m
}.

Notation T A := (StM Transfers A ProtocolError).
Definition get : T Transfers := fun s => (Ok s, s).
Definition modify {E} (f : Transfers -> Transfers) : StM Transfers unit E := fun s => (Ok tt, f s).
(** [let _ = m]: the error is dropped, the effects stay. *)
Definition ignore {A E F} (m : StM Transfers A E) : StM Transfers unit F := fun s => (Ok tt, (m s).2).

Section Program.
Context {OS : TransferOs} {CO : TransferCodec} (reserved_name : string -> string).

Definition call (c : Call) : StM Transfers unit IoError := fun s =>
  (match os_fault (tr_calls s) c with Some e => Err e | None => Ok tt end, next_call c s).
Definition io {A} (m : StM Transfers A IoError) : T A := st_map_err io_failure m.

(** ** Staging files *)

Definition add_name (at_ : string * string) : Transfers -> Transfers :=
  set_disk (set_staging (fun names => {[at_]} ∪ names)).
Definition remove_name (at_ : string * string) : Transfers -> Transfers :=
  set_disk (set_staging (fun names => names ∖ {[at_]})).

(** Creation is exclusive: a name that is left over refuses it. *)
Definition create_staging (c : Call) (at_ : string * string) : StM Transfers unit IoError := fun s =>
  match call c s with
  | (Err error, s') => (Err error, if os_effect (tr_calls s) then add_name at_ s' else s')
  | (Ok _, s') =>
      if decide (at_ ∈ td_staging (tr_disk s')) then (Err (io_error AlreadyExists), s')
      else (Ok tt, add_name at_ s')
  end.

Definition unlink_with (c : Call) (at_ : string * string) : StM Transfers unit IoError := fun s =>
  match call c s with
  | (Err error, s') => (Err error, if os_effect (tr_calls s) then remove_name at_ s' else s')
  | (Ok _, s') => (Ok tt, remove_name at_ s')
  end.

(** [Drop] of a staged file that was not installed. *)
Definition drop_staged {E} (at_ : string * string) : StM Transfers unit E :=
  ignore (unlink_with (CallUnlink at_) at_).

(** [StagedFile::commit]; [installed] is what becomes visible. *)
Definition commit_staged (c : Call) (at_ : string * string) (installed : Transfers -> Transfers)
    : StM Transfers unit IoError := fun s =>
  match call c s with
  | (Ok _, s') => (Ok tt, remove_name at_ (installed s'))
  | (Err error, s') =>
      (Err error,
       if is_publication_uncertain error then
         if os_effect (tr_calls s) then remove_name at_ (installed s')
         else (drop_staged (E := IoError) at_ (installed s')).2
       else (drop_staged (E := IoError) at_ s').2)
  end.

(** The checks of [Root::parent] that precede every call. *)
Definition within (path : string) : Result unit IoError :=
  let? reserved := is_reserved_namespace reserved_name path in
  if reserved then Err protected_error else Ok tt.

Definition cleanup_staging (path id : string) : StM Transfers unit IoError :=
  st_lift (within path) ;!
  unlink_with (CallCleanup (staging_name path id)) (staging_name path id).

Definition stage (path id : string) (mode : Z) : StM Transfers unit IoError :=
  st_lift (validate_mode mode) ;!
  st_lift (within path) ;!
  create_staging (CallStage path id) (staging_name path id).

(** ** The root and the journal *)

Fixpoint open_protected_all (paths : list string) : T unit :=
  match paths with
  | [] => st_ret tt
  | path :: paths' =>
      (fun s => match call (CallOpenProtected path) s with
                | (Ok _, s') => (Ok tt, s')
                | (Err error, s') =>
                    if bool_decide (io_kind error = NotFound) then (Ok tt, s')
                    else (Err (io_failure error), s')
                end) ;!
      open_protected_all paths'
  end.
Fixpoint reserve_all (paths : list string) : T unit :=
  match paths with
  | [] => st_ret tt
  | path :: paths' =>
      (if starts_with "/" path then st_ret tt else io (call CallCurrentDir)) ;!
      io (call (CallReservePath path)) ;!
      reserve_all paths'
  end.
Definition open_root : T unit :=
  let! s := get in
  open_protected_all (tr_protected s) ;!
  io (call CallOpenRoot) ;!
  reserve_all (tr_protected s).

Definition write_journal (records : list (string * string)) : T unit :=
  let! content := st_lift (ok_or (encode_records records)
                             (failure "state_error" "cannot serialize transfer recovery metadata")) in
  io (create_staging CallStageJournal journal_temporary) ;!
  (fun s => match call CallWriteJournal s with
            | (Ok _, s') => (Ok tt, s')
            | (Err error, s') => (drop_staged journal_temporary ;! st_throw (io_failure error)) s'
            end) ;!
  io (commit_staged CallCommitJournal journal_temporary (set_disk (set_journal content))).

Definition put_records (pending : gmap string Pending) : list (string * string) :=
  (fun entry => (pd_path entry.2, entry.1))
    <$> List.filter (fun entry => is_put entry.2) (os_order pending).

(** [record_staging], [persist_pending] *)
Definition write_records (records : list (string * string)) : T unit :=
  open_root ;!
  io (call CallTransferJournal) ;!
  write_journal records.
Definition record_staging (path id : string) : T unit :=
  let! s := get in write_records (put_records (tr_pending s) ++ [(path, id)]).
Definition persist_pending : T unit :=
  let! s := get in write_records (put_records (tr_pending s)).

Definition remove_failed_stage_intent (path id : string) : T unit := fun s =>
  match (io (cleanup_staging path id) ;! persist_pending) s with
  | (Ok _, s') => (Ok tt, s')
  | (Err error, s') => (Err error, set_write_failed s')
  end.

(** ** Recovery *)

Definition RECOVERY_LIMIT : Z := 64 * 1024.

Definition hex_digit (a : ascii) : bool :=
  let v := byte_val a in between 48 v 57 || between 65 v 70 || between 97 v 102.
Definition recovery_id (id : string) : bool :=
  (str_len id =? 37) && is_some_and (strip_prefix "xfer_" id) (all_bytes hex_digit).

Definition read_records : T (list (string * string)) := fun s =>
  match call CallReadJournal s with
  | (Err error, s') =>
      if bool_decide (io_kind error = NotFound) then (Ok [], s') else (Err (io_failure error), s')
  | (Ok _, s') =>
      match td_journal (tr_disk s') with
      | None => (Ok [], s')
      | Some content =>
          (io (call CallReadBytes) ;!
           if RECOVERY_LIMIT <? Z.of_nat (length content)
           then st_throw (failure "state_error" "transfer recovery metadata exceeds limit")
           else st_lift (ok_or (decode_records content)
                  (failure "state_error" "invalid transfer recovery metadata"))) s'
      end
  end.

(** One turn of the loop of [recover_staging]. *)
Definition sweep_one (record : string * string) : T unit :=
  let (path, id) := record in
  if negb (recovery_id id) then st_throw (failure "state_error" "invalid transfer recovery identifier")
  else
    let! reserved := st_lift (map_err io_failure (is_reserved_namespace reserved_name path)) in
    if reserved then st_ret tt else io (cleanup_staging path id).

Fixpoint sweep (records : list (string * string)) : T unit :=
  match records with
  | [] => st_ret tt
  | record :: records' => sweep_one record ;! sweep records'
  end.

Definition busy : ProtocolError :=
  failure "machine_transfer_busy"
    "another Controller owns file-transfer recovery; retry after it exits".

(** [recover_staging] of a Controller that has not recovered yet. *)
Definition recover_once : T unit :=
  open_root ;!
  io (call CallTransferJournal) ;!
  st_map_err (fun _ => busy) (call CallLease) ;!
  io (unlink_with (CallCleanup journal_temporary) journal_temporary) ;!
  let! records := read_records in
  if MACHINE_TRANSFER_MAX_ACTIVE + 1 <? Z.of_nat (length records)
  then st_throw (failure "state_error" "too many transfer recovery records")
  else
    sweep records ;!
    write_journal [] ;!
    modify set_recovered.

Definition recover_staging : T unit :=
  let! s := get in
  if tr_recovered s then st_ret tt else recover_once.

(** ** Ending transfers without a request *)

Definition drop_entry {E} (id : string) (entry : Pending) : StM Transfers unit E :=
  if is_put entry then drop_staged (staging_name (pd_path entry) id) else st_ret tt.
Fixpoint drop_entries (entries : list (string * Pending)) : T unit :=
  match entries with
  | [] => st_ret tt
  | (id, entry) :: entries' => drop_entry id entry ;! drop_entries entries'
  end.

(** [fetch_add] wraps. *)
Definition clear : T unit :=
  let! s := get in
  modify (set_generation ((tr_generation s + 1) mod 2 ^ 64)) ;!
  modify (set_pending (fun _ => ∅)) ;!
  drop_entries (os_order (tr_pending s)).

Definition kept_by_expire (now : Z) (entry : Pending) : bool :=
  (duration_since now (pd_touched entry) <? from_secs MACHINE_TRANSFER_IDLE_SECONDS)
  && (duration_since now (pd_created entry) <? from_secs MACHINE_TRANSFER_TOTAL_SECONDS).

(** [locked]: another thread holds the registry ([try_lock] fails). *)
Definition expire (locked : bool) (now : Z) : T unit :=
  if locked then st_ret tt
  else
    let! s := get in
    modify (set_pending (filter (fun e : string * Pending => kept_by_expire now e.2 = true))) ;!
    drop_entries (List.filter (fun e => negb (kept_by_expire now e.2)) (os_order (tr_pending s))).

(** ** Beginning *)

Definition kinds : list string := ["agent"; "user"; "machine"; "human"]%string.
Definition check_actor (s : Transfers) (actor : MachineTransferActor) : Result unit ProtocolError :=
  if negb (ac_workspace_id actor =s tr_workspace_id s) || is_empty (ac_id actor)
     || negb (bool_decide (ac_kind actor ∈ kinds))
  then Err (failure "machine_file_denied" "file transfer caller does not belong to this workspace")
  else Ok tt.

Definition active_of (actor : MachineTransferActor) (pending : gmap string Pending) : Z :=
  Z.of_nat (size (filter (fun e : string * Pending => pd_actor e.2 = actor) pending)).

Definition check_begin (s : Transfers) (actor : MachineTransferActor) (authorized_path path : string)
    : Result unit ProtocolError :=
  if negb (path =s authorized_path)
  then Err (failure "machine_file_denied" "authorized path differs from transfer path")
  else if (MACHINE_TRANSFER_MAX_ACTIVE <=? Z.of_nat (size (tr_pending s)))
          || (2 <=? active_of actor (tr_pending s))
  then Err (failure "machine_transfer_limit" "too many active file transfers")
  else Ok tt.

Definition too_large : ProtocolError :=
  failure "machine_file_too_large" "file exceeds transfer size limit".

Definition register (id : string) (entry : Pending) : T unit := modify (set_pending <[id := entry]>).
Definition new_pending (actor : MachineTransferActor) (path : string) (now limit : Z)
    (direction : Direction) : Pending :=
  mkPending actor path now now limit 0 [] direction.

(** [available_bytes] *)
Definition available_bytes : StM Transfers Z IoError := fun s =>
  (call CallAvailable ;! st_ret (os_available (tr_calls s))) s.

(** [id] is the fresh [xfer_...] identifier, [now] the instant. *)
Definition put_begin (actor : MachineTransferActor) (path : string) (overwrite : bool) (mode : Z)
    (size : option Z) (limit : Z) (id : string) (now : Z) : T Answer :=
  let! s := get in
  let limit := Z.min limit (tr_limit s) in
  if (limit =? 0) || is_some_and size (fun size => limit <? size) then st_throw too_large
  else
    open_root ;!
    io (st_lift (within path)) ;!
    io (call (CallValidateTarget path)) ;!
    let! available := io available_bytes in
    if available <? default limit size
    then st_throw (failure "machine_file_no_space" "insufficient available space for bounded staging")
    else
      record_staging path id ;!
      (fun s => match stage path id mode s with
                | (Ok _, s') => (Ok tt, s')
                | (Err error, s') =>
                    (remove_failed_stage_intent path id ;! st_throw (io_failure error)) s'
                end) ;!
      register id (new_pending actor path now limit (Put [] overwrite size)) ;!
      st_ret (Begun id path limit MACHINE_TRANSFER_CHUNK_BYTES size).

Definition metadata : StM Transfers Metadata IoError := fun s =>
  (call CallMetadata ;! st_ret (os_metadata (tr_calls s))) s.

Definition get_begin (actor : MachineTransferActor) (path : string) (limit : Z) (id : string) (now : Z)
    : T Answer :=
  let! s := get in
  let limit := Z.min limit (tr_limit s) in
  open_root ;!
  io (st_lift (within path)) ;!
  io (call (CallOpenRead path)) ;!
  let! original := io metadata in
  if (limit =? 0) || (limit <? md_len original) then st_throw too_large
  else
    register id (new_pending actor path now limit (Get original false)) ;!
    st_ret (Begun id path limit MACHINE_TRANSFER_CHUNK_BYTES (Some (md_len original))).

(** ** Requests on a transfer

    The transfer is out of the registry while its request runs; a chunk that succeeds puts it
    back, and everything else drops it. *)

Definition absorb (entry : Pending) (data : bytes) (direction : Direction) : Pending :=
  mkPending (pd_actor entry) (pd_path entry) (pd_created entry) (pd_touched entry) (pd_limit entry)
    (pd_offset entry + Z.of_nat (length data)) (pd_hash entry ++ data) direction.
Definition touch (now : Z) (entry : Pending) : Pending :=
  mkPending (pd_actor entry) (pd_path entry) (pd_created entry) now (pd_limit entry)
    (pd_offset entry) (pd_hash entry) (pd_direction entry).

Definition wrong_offset : ProtocolError :=
  failure "machine_transfer_offset" "file transfer offset does not match".
Definition not_a_put : ProtocolError := failure "machine_transfer_direction" "transfer is not a put".
Definition not_a_get : ProtocolError := failure "machine_transfer_direction" "transfer is not a get".

(** [MACHINE_TRANSFER_CHUNK_BYTES.div_ceil(3) * 4] *)
Definition encoded_chunk_limit : Z := (MACHINE_TRANSFER_CHUNK_BYTES + 2) / 3 * 4.

(** [write_all]: no call for no bytes.  What a failing one stored goes with the transfer. *)
Definition write_all (data : bytes) : T unit :=
  match data with [] => st_ret tt | _ => io (call CallWrite) end.

Definition put_chunk (entry : Pending) (offset : Z) (content_base64 : string) : T (Answer * Pending) :=
  if negb (offset =? pd_offset entry) then st_throw wrong_offset
  else if encoded_chunk_limit <? str_len content_base64
  then st_throw (failure "machine_transfer_chunk_too_large" "file transfer chunk exceeds limit")
  else
    let! data := st_lift (ok_or (base64_decode content_base64)
                            (failure "invalid_machine_file" "invalid file transfer encoding")) in
    if (MACHINE_TRANSFER_CHUNK_BYTES <? Z.of_nat (length data))
       || (pd_limit entry <? pd_offset entry + Z.of_nat (length data))
    then st_throw too_large
    else
      match pd_direction entry with
      | Put staged overwrite expected_size =>
          write_all data ;!
          let entry' := absorb entry data (Put (staged ++ data) overwrite expected_size) in
          st_ret (Written (pd_offset entry'), entry')
      | Get _ _ => st_throw not_a_put
      end.

(** [file.read] into a buffer of one chunk. *)
Definition read_chunk : StM Transfers bytes IoError := fun s =>
  (call CallRead ;! st_ret (take (Z.to_nat MACHINE_TRANSFER_CHUNK_BYTES) (os_read (tr_calls s)))) s.

Definition get_chunk (entry : Pending) (offset : Z) : T (Answer * Pending) :=
  if negb (offset =? pd_offset entry) then st_throw wrong_offset
  else
    match pd_direction entry with
    | Get original _ =>
        let! data := io read_chunk in
        let count := Z.of_nat (length data) in
        if pd_limit entry <? pd_offset entry + count then st_throw too_large
        else
          let eof := count =? 0 in
          st_ret (Chunk offset (base64_encode data) eof, absorb entry data (Get original eof))
    | Put _ _ _ => st_throw not_a_get
    end.

Definition checksum_mismatch : ProtocolError :=
  failure "machine_file_checksum_mismatch" "file transfer size or SHA-256 mismatch; discarded".

(** [put_finish] up to the point where the staging file is taken: what it holds and whether it may
    replace its destination. *)
Definition put_verify (entry : Pending) (size : Z) (sha256 : string) : T (bytes * bool) :=
  match pd_direction entry with
  | Put staged overwrite expected_size =>
      if negb (size =? pd_offset entry)
         || is_some_and expected_size (fun expected => negb (expected =? size))
         || negb (sha256 =s sha256_hex (pd_hash entry))
      then st_throw checksum_mismatch
      else
        open_root ;!
        io (st_lift (within (pd_path entry))) ;!
        io (call (CallValidateTarget (pd_path entry))) ;!
        st_ret (staged, overwrite)
  | Get _ _ => st_throw not_a_put
  end.

Definition put_finish (id : string) (entry : Pending) (size : Z) (sha256 : string) : T Answer := fun s =>
  match put_verify entry size sha256 s with
  | (Err error, s') => (drop_entry id entry ;! st_throw error) s'
  | (Ok (staged, overwrite), s') =>
      (io (commit_staged (CallPublish (pd_path entry) overwrite) (staging_name (pd_path entry) id)
             (set_disk (set_published (pd_path entry) staged))) ;!
       st_ret (Complete (pd_path entry) size sha256)) s'
  end.

Definition get_finish (entry : Pending) : T Answer :=
  match pd_direction entry with
  | Get original eof =>
      let! current := io metadata in
      if negb eof || negb (md_len current =? pd_offset entry) || negb (md_len original =? md_len current)
         || source_metadata_changed original current
      then st_throw (failure "machine_file_changed" "source changed or read is incomplete")
      else st_ret (Complete (pd_path entry) (pd_offset entry) (sha256_hex (pd_hash entry)))
  | Put _ _ _ => st_throw not_a_get
  end.

Definition abort_transfer (entry : Pending) (read : bool) : T Answer :=
  if negb (Bool.eqb read (negb (is_put entry)))
  then st_throw (failure "machine_transfer_direction" "transfer abort direction does not match")
  else st_ret Aborted.

(** A chunk that succeeds registers the transfer again; one that fails drops it. *)
Definition keep (id : string) (entry : Pending) (m : T (Answer * Pending)) : T Answer := fun s =>
  match m s with
  | (Ok (answer, entry'), s') => (register id entry' ;! st_ret answer) s'
  | (Err error, s') => (drop_entry id entry ;! st_throw error) s'
  end.
Definition finally_drop (id : string) (entry : Pending) (m : T Answer) : T Answer := fun s =>
  let (r, s') := m s in (r, (drop_entry (E := ProtocolError) id entry s').2).

Definition run_request (id : string) (entry : Pending) (request : Request) : T Answer :=
  match request with
  | PutChunk _ offset content_base64 => keep id entry (put_chunk entry offset content_base64)
  | GetChunk _ offset => keep id entry (get_chunk entry offset)
  | PutFinish _ size sha256 => put_finish id entry size sha256
  | GetFinish _ => finally_drop id entry (get_finish entry)
  | AbortTransfer _ read => finally_drop id entry (abort_transfer entry read)
  | PutBegin _ _ _ _ _ | GetBegin _ _ => st_throw wrong_offset (* not called on a begin *)
  end.

Definition on_transfer (actor : MachineTransferActor) (authorized_path : string) (request : Request)
    (id : string) (now : Z) : T Answer :=
  let! s := get in
  match tr_pending s !! id with
  | None => st_throw (failure "machine_transfer_not_found" "file transfer expired or is no longer active")
  | Some entry =>
      if negb (bool_decide (pd_actor entry = actor)) || negb (pd_path entry =s authorized_path)
      then st_throw (failure "machine_file_denied" "file transfer does not belong to this caller/path")
      else
        modify (set_pending (delete id)) ;!
        run_request id (touch now entry) request
  end.

(** ** [execute_generation] *)

(** The request with the registry's lock held; [fresh] is the identifier a begin takes. *)
Definition execute_locked (generation : Z) (actor : MachineTransferActor) (authorized_path : string)
    (request : Request) (fresh : string) (now : Z) : T Answer :=
  let! s := get in
  if negb (generation =? tr_generation s)
  then st_throw (failure "machine_transfer_stale" "Controller connection changed; start a new transfer")
  else if tr_recovery_write_failed s
  then st_throw (failure "state_error"
         "transfer recovery cleanup is unconfirmed; replace the Controller before retrying")
  else
    recover_staging ;!
    match request with
    | PutBegin path overwrite mode size limit =>
        st_lift (check_begin s actor authorized_path path) ;!
        put_begin actor path overwrite mode size limit fresh now
    | GetBegin path limit =>
        st_lift (check_begin s actor authorized_path path) ;!
        get_begin actor path limit fresh now
    | PutChunk id _ _ | GetChunk id _ | PutFinish id _ _ | GetFinish id | AbortTransfer id _ =>
        on_transfer actor authorized_path request id now
    end.

Definition execute_checks (s : Transfers) (actor : MachineTransferActor) (authorized_path : string)
    : Result unit ProtocolError :=
  check_actor s actor ;?
  map_err io_failure (let? _ := validate_relative_path authorized_path in Ok tt).

(** [locked] is whether the expiry found the registry taken. *)
Definition execute_generation (locked : bool) (generation : Z) (actor : MachineTransferActor)
    (authorized_path : string) (request : Request) (fresh : string) (now : Z) : T Answer :=
  let! s := get in
  st_lift (execute_checks s actor authorized_path) ;!
  expire locked now ;!
  execute_locked generation actor authorized_path request fresh now.
End Program.

#[global] Arguments call {OS} c s : simpl never.
#[global] Arguments drop_staged {OS E} at_ s : simpl never.
#[global] Arguments unlink_with {OS} c at_ s : simpl never.
