(* ===== verification/MachineTransferFacts.v ===== *)
(** * What a request does to the registry of transfers

    The abstract state machine of transfers ([transition]), the proof that every request is one of
    its transitions, and what follows for every run: the limits, and that a finished transfer is
    exactly the bytes that were moved. *)

From S2P Require Import Prelude RustStr Protocol StateLogic MachineFile MachineTransfer.
Local Open Scope Z_scope.

(** ** Programs that leave the registry alone

    [world_only P]: [P] does not look at the staging names, the journal or the number of calls;
    [registry_only P]: nor at the recovery flags. *)

Definition registry (s : Transfers) :=
  (tr_workspace_id s, tr_limit s, tr_generation s, tr_pending s, td_published (tr_disk s)).
Definition flags (s : Transfers) := (tr_recovered s, tr_recovery_write_failed s).
Definition world_only (P : Transfers -> Prop) : Prop :=
  forall s s', registry s' = registry s -> flags s' = flags s -> P s -> P s'.
Definition registry_only (P : Transfers -> Prop) : Prop :=
  forall s s', registry s' = registry s -> P s -> P s'.
Lemma registry_world P : registry_only P -> world_only P.
Proof. intros HP s s' He _. by apply HP. Qed.

Create HintDb transfers.
#[export] Hint Resolve stable_ret stable_throw stable_lift : transfers.

Lemma transfer_stable_ignore {A E F} P (m : StM Transfers A E) : stable P m -> stable P (ignore (F := F) m).
Proof. intros Hm s Hs. apply (Hm s Hs). Qed.
Lemma stable_map_err {A E F} P (f : E -> F) (m : StM Transfers A E) : stable P m -> stable P (st_map_err f m).
Proof. intros Hm s Hs. specialize (Hm s Hs). unfold st_map_err. by destruct (m s). Qed.
Lemma transfer_stable_get P : stable P get.
Proof. by intros s Hs. Qed.
#[export] Hint Resolve transfer_stable_ignore stable_map_err transfer_stable_get : transfers.

(** Splits a program at its binds and branches. *)
Ltac steps := repeat
  lazymatch goal with
  | |- stable _ (st_bind _ _) => apply stable_bind; [|intros ?]
  | |- stable _ (if ?b then _ else _) => destruct b eqn:?
  | |- stable _ (match ?l with _ => _ end) => destruct l eqn:?
  | |- stable _ (ignore _) => apply transfer_stable_ignore
  | |- stable _ (io _) => apply stable_map_err
  | |- stable _ (st_map_err _ _) => apply stable_map_err
  | |- stable _ _ => solve [auto with transfers]
  end.

(** *** Programs that only call *)

Definition call_closed (P : Transfers -> Prop) : Prop := forall c s, P s -> P (next_call c s).
Lemma world_call P : world_only P -> call_closed P.
Proof. intros HP c s. by apply HP. Qed.
#[export] Hint Resolve registry_world world_call : transfers.

(** A question that depends on the number of calls. *)
Ltac asked s := match goal with |- ?P (?m s).2 => apply (stable_run_to P m s); [steps|done] end.

Section Calls.
Context {OS : TransferOs} {CO : TransferCodec}.
Context (P : Transfers -> Prop) (HP : call_closed P).

Lemma transfer_call_stable c : stable P (call c).
Proof. intros s. apply HP. Qed.
Hint Resolve transfer_call_stable : transfers.

Lemma transfer_open_root_stable : stable P open_root.
Proof.
  assert (forall l, stable P (open_protected_all l)) as H1.
  { induction l as [|path l IH]; cbn [open_protected_all]; [auto with transfers|]. apply stable_bind; [|auto].
    intros s Hs. pose proof (transfer_call_stable (CallOpenProtected path) s Hs).
    destruct (call _ s) as [[] s']; simpl in *; [done|]. by case_bool_decide. }
  assert (forall l, stable P (reserve_all l)) as H2 by (induction l; cbn [reserve_all]; steps).
  unfold open_root. steps; auto.
Qed.

Lemma read_records_stable : stable P read_records.
Proof.
  intros s Hs. unfold read_records. pose proof (transfer_call_stable CallReadJournal s Hs) as H1.
  destruct (call _ s) as [[] s']; simpl in *; [|by case_bool_decide].
  destruct (td_journal _) as [content|]; [|done]. by asked s'.
Qed.

Lemma available_stable : stable P available_bytes.
Proof. intros s Hs. unfold available_bytes. by asked s. Qed.
Lemma metadata_stable : stable P metadata.
Proof. intros s Hs. unfold metadata. by asked s. Qed.
Lemma read_chunk_stable : stable P read_chunk.
Proof. intros s Hs. unfold read_chunk. by asked s. Qed.
Lemma write_all_stable data : stable P (write_all data).
Proof. unfold write_all. steps. Qed.
End Calls.
#[export] Hint Resolve transfer_call_stable transfer_open_root_stable read_records_stable available_stable metadata_stable
  read_chunk_stable write_all_stable : transfers.

(** *** Programs that write staging files and the journal *)

Section Quiet.
Context {OS : TransferOs} {CO : TransferCodec} (reserved_name : string -> string).
Context (P : Transfers -> Prop) (HP : world_only P).
Let Hcall : call_closed P := world_call P HP.
Hint Resolve Hcall : transfers.

Lemma create_stable c at_ : stable P (create_staging c at_).
Proof.
  intros s Hs. unfold create_staging. pose proof (transfer_call_stable P Hcall c s Hs).
  destruct (call c s) as [[] s']; simpl in *; case_match; simpl; try done; by apply (HP s').
Qed.
Lemma unlink_stable c at_ : stable P (unlink_with c at_).
Proof.
  intros s Hs. unfold unlink_with. pose proof (transfer_call_stable P Hcall c s Hs).
  destruct (call c s) as [[] s']; simpl in *; [by apply (HP s')|]. case_match; simpl; [by apply (HP s')|done].
Qed.
Hint Resolve create_stable unlink_stable : transfers.
Lemma transfer_drop_staged_stable {E} at_ : stable (E := E) P (drop_staged at_).
Proof. unfold drop_staged. steps. Qed.
Hint Resolve transfer_drop_staged_stable : transfers.

Lemma commit_journal_stable content :
  stable P (commit_staged CallCommitJournal journal_temporary (set_disk (set_journal content))).
Proof.
  intros s Hs. unfold commit_staged. pose proof (transfer_call_stable P Hcall CallCommitJournal s Hs).
  destruct (call _ s) as [[] s']; simpl in *; [by apply (HP s')|].
  repeat case_match; simpl; [by apply (HP s')| |by apply (transfer_drop_staged_stable (E := IoError))].
  apply (transfer_drop_staged_stable (E := IoError)). by apply (HP s').
Qed.
Hint Resolve commit_journal_stable : transfers.

Lemma transfer_cleanup_stable path id : stable P (cleanup_staging reserved_name path id).
Proof. unfold cleanup_staging. steps. Qed.
Lemma stage_stable path id mode : stable P (stage reserved_name path id mode).
Proof. unfold stage. steps. Qed.

Hint Resolve transfer_cleanup_stable stage_stable : transfers.

Lemma transfer_write_journal_stable records : stable P (write_journal records).
Proof.
  unfold write_journal. steps. intros s Hs. pose proof (transfer_call_stable P Hcall CallWriteJournal s Hs).
  destruct (call _ s) as [[] s']; simpl in *; [done|].
  by apply (transfer_drop_staged_stable (E := ProtocolError)).
Qed.
Hint Resolve transfer_write_journal_stable : transfers.
Lemma write_records_stable records : stable P (write_records records).
Proof. unfold write_records. steps. Qed.
Hint Resolve write_records_stable : transfers.
Lemma record_staging_stable path id : stable P (record_staging path id).
Proof. unfold record_staging. steps. Qed.

Hint Resolve record_staging_stable : transfers.

Lemma transfer_sweep_stable records : stable P (sweep reserved_name records).
Proof.
  induction records as [|[path id] l IH]; cbn [sweep]; [auto with transfers|].
  apply stable_bind; [|done]. unfold sweep_one. steps.
Qed.
Hint Resolve transfer_sweep_stable : transfers.

Lemma drop_entry_stable {E} id entry : stable (E := E) P (drop_entry id entry).
Proof. unfold drop_entry. steps. Qed.
Hint Resolve drop_entry_stable : transfers.
Lemma drop_entries_stable entries : stable P (drop_entries entries).
Proof. induction entries as [|[id e] l IH]; cbn [drop_entries]; steps. Qed.

End Quiet.
#[export] Hint Resolve create_stable unlink_stable transfer_drop_staged_stable transfer_cleanup_stable stage_stable
  transfer_write_journal_stable write_records_stable record_staging_stable
  transfer_sweep_stable drop_entry_stable drop_entries_stable : transfers.

(** *** Programs that set a flag *)

Section Flags.
Context {OS : TransferOs} {CO : TransferCodec} (reserved_name : string -> string).
Context (P : Transfers -> Prop) (HP : registry_only P).
Let Hworld : world_only P := registry_world P HP.
Hint Resolve Hworld : transfers.

Lemma failed_intent_stable path id : stable P (remove_failed_stage_intent reserved_name path id).
Proof.
  assert (stable P (io (cleanup_staging reserved_name path id) ;! persist_pending)) as H1
    by (unfold persist_pending; steps).
  intros s Hs. specialize (H1 s Hs). unfold remove_failed_stage_intent.
  destruct ((_ ;! _) s) as [[] s']; simpl in *; [done|by apply (HP s')].
Qed.
Lemma recover_stable : stable P (recover_staging reserved_name).
Proof. unfold recover_staging, recover_once. steps. all: intros s; by apply HP. Qed.
End Flags.
#[export] Hint Resolve failed_intent_stable recover_stable : transfers.

(** ** The state machine of transfers *)

Record View : Type := mkView { v_pending : gmap string Pending; v_published : gmap string bytes }.
Definition view (s : Transfers) : View := mkView (tr_pending s) (td_published (tr_disk s)).

Definition request_id (request : Request) : option string :=
  match request with
  | PutBegin _ _ _ _ _ | GetBegin _ _ => None
  | PutChunk id _ _ | GetChunk id _ | PutFinish id _ _ | GetFinish id | AbortTransfer id _ => Some id
  end.

Definition begin_limit (request : Request) : Z :=
  match request with PutBegin _ _ _ _ limit | GetBegin _ limit => limit | _ => 0 end.

(** A begin on [path] with what it registers and the size it answers. *)
Definition begins (request : Request) (path : string) (limit : Z) (direction : Direction) (size : option Z) : Prop :=
  match request with
  | PutBegin p overwrite _ declared _ =>
      p = path /\ size = declared /\ direction = Put [] overwrite declared
      /\ is_some_and declared (fun n => limit <? n) = false
  | GetBegin p _ =>
      p = path /\ exists original, size = Some (md_len original) /\ direction = Get original false
                               /\ md_len original <= limit
  | _ => False
  end.

Section Transition.
Context {OS : TransferOs} {CO : TransferCodec} (reserved_name : string -> string).
Context (actor : MachineTransferActor) (path : string) (request : Request) (fresh : string) (now limit : Z).

(** A chunk that was accepted: the bytes it moved, the direction it leaves, the answer. *)
Definition moves (entry : Pending) (data : bytes) (direction : Direction) (answer : Answer) : Prop :=
  match request with
  | PutChunk _ offset content =>
      offset = pd_offset entry /\ base64_decode content = Some data
      /\ answer = Written (pd_offset entry + Z.of_nat (length data))
      /\ exists staged overwrite expected,
           pd_direction entry = Put staged overwrite expected
           /\ direction = Put (staged ++ data) overwrite expected
  | GetChunk _ offset =>
      offset = pd_offset entry
      /\ answer = Chunk offset (base64_encode data) (Z.of_nat (length data) =? 0)
      /\ exists original eof, pd_direction entry = Get original eof
                          /\ direction = Get original (Z.of_nat (length data) =? 0)
  | _ => False
  end.

(** The other successful ends: a read confirmed on an unchanged source, or an abort. *)
Definition ends (entry : Pending) (answer : Answer) : Prop :=
  match request with
  | GetFinish _ =>
      answer = Complete path (pd_offset entry) (sha256_hex (pd_hash entry))
      /\ exists original current, pd_direction entry = Get original true
           /\ md_len current = pd_offset entry /\ md_len original = md_len current
           /\ source_metadata_changed original current = false
  | AbortTransfer _ read => answer = Aborted /\ read = negb (is_put entry)
  | _ => False
  end.

Definition owned (v : View) (id : string) (entry : Pending) : Prop :=
  request_id request = Some id /\ v_pending v !! id = Some entry
  /\ pd_actor entry = actor /\ pd_path entry = path.

Inductive transition (v : View) : Result Answer ProtocolError -> View -> Prop :=
| t_refused error : transition v (Err error) v
| t_begun granted direction size :
    begins request path granted direction size -> granted = Z.min (begin_limit request) limit -> granted <> 0 ->
    Z.of_nat (base.size (v_pending v)) < MACHINE_TRANSFER_MAX_ACTIVE -> active_of actor (v_pending v) < 2 ->
    transition v (Ok (Begun fresh path granted MACHINE_TRANSFER_CHUNK_BYTES size))
      (mkView (<[fresh := new_pending actor path now granted direction]> (v_pending v)) (v_published v))
| t_moved id entry data direction answer :
    owned v id entry -> moves entry data direction answer ->
    Z.of_nat (length data) <= MACHINE_TRANSFER_CHUNK_BYTES ->
    pd_offset entry + Z.of_nat (length data) <= pd_limit entry ->
    transition v (Ok answer)
      (mkView (<[id := absorb (touch now entry) data direction]> (v_pending v)) (v_published v))
| t_ended id entry answer :
    owned v id entry -> ends entry answer ->
    transition v (Ok answer) (mkView (delete id (v_pending v)) (v_published v))
| t_dropped id entry error :
    owned v id entry -> transition v (Err error) (mkView (delete id (v_pending v)) (v_published v))
| t_published id entry size sha256 staged overwrite expected r :
    owned v id entry -> request = PutFinish id size sha256 ->
    pd_direction entry = Put staged overwrite expected ->
    size = pd_offset entry -> is_some_and expected (fun n => negb (n =? size)) = false ->
    sha256 = sha256_hex (pd_hash entry) ->
    match r with
    | Ok answer => answer = Complete path size sha256
    | Err error => pe_code error = "machine_file_commit_uncertain"%string
    end ->
    transition v r (mkView (delete id (v_pending v)) (<[path := staged]> (v_published v))).

(** ** Every request is a transition *)

Definition same (s0 s : Transfers) : Prop := registry s = registry s0.
Lemma same_only s0 : registry_only (same s0).
Proof. intros s s' He Hs. unfold same in *. congruence. Qed.
Hint Resolve same_only : transfers.
Lemma same_world s0 : world_only (same s0).
Proof. apply registry_world, same_only. Qed.

Lemma same_view s0 s : same s0 s -> view s = view s0.
Proof. intros [= Hw Hl Hg Hp Hd]. unfold view. by rewrite Hp, Hd. Qed.

(** The postcondition of a request started in [s0]. *)
Definition post (s0 : Transfers) (r : Result Answer ProtocolError) (s : Transfers) : Prop :=
  transition (view s0) r (view s).
Definition answers (s0 : Transfers) (P : Transfers -> Prop) (m : T Answer) : Prop :=
  triple P m (fun a => post s0 (Ok a)) (fun e => post s0 (Err e)).

(** Where the request may stop with any error. *)
Definition refusable (s0 : Transfers) (P : Transfers -> Prop) : Prop :=
  forall error s, P s -> post s0 (Err error) s.

Lemma same_refusable s0 : refusable s0 (same s0).
Proof. intros error s Hs%same_view. unfold post. rewrite Hs. constructor. Qed.

(** The transfer is out of the registry. *)
Definition taken (id : string) (s0 : Transfers) : Transfers := set_pending (delete id) s0.
Lemma taken_refusable s0 id entry : owned (view s0) id entry -> refusable s0 (same (taken id s0)).
Proof. intros Ho error s Hs%same_view. unfold post. rewrite Hs. by apply (t_dropped (view s0) id entry). Qed.

Section Walk.
Context (s0 : Transfers) (P : Transfers -> Prop) (HP : refusable s0 P).

Lemma answers_quiet {A} (m : T A) k :
  stable P m -> (forall a, answers s0 P (k a)) -> answers s0 P (st_bind m k).
Proof.
  intros Hm Hk. unfold answers. eapply triple_bind with (Q := fun _ => P); [|exact Hk].
  intros s Hs. specialize (Hm s Hs). destruct (m s) as [[] s']; [done|by apply HP].
Qed.
Lemma answers_throw error : answers s0 P (st_throw error).
Proof. intros s. apply HP. Qed.

(** What a check lets through. *)
Lemma answers_lift {A} (r : Result A ProtocolError) k :
  (forall a, r = Ok a -> answers s0 P (k a)) -> answers s0 P (st_bind (st_lift r) k).
Proof. intros Hk s Hs. unfold st_bind, st_lift. destruct r; [by apply Hk|by apply HP]. Qed.
Lemma answers_get k :
  (forall s, P s -> answers s0 P (k s)) -> answers s0 P (st_bind get k).
Proof. intros Hk s Hs. by apply (Hk s Hs s). Qed.
End Walk.
End Transition.
#[export] Hint Resolve same_only : transfers.
#[export] Hint Resolve same_refusable : transfers.

(** Walks over the checks and the calls of a request. *)
Ltac walk := repeat
  lazymatch goal with
  | |- answers _ _ _ _ _ _ _ _ (st_bind (st_lift _) _) => apply answers_lift; [solve [eauto with transfers]|intros ? ?]
  | |- answers _ _ _ _ _ _ _ _ (st_bind _ _) =>
      apply answers_quiet; [solve [eauto with transfers]|solve [steps]|intros ?]
  | |- answers _ _ _ _ _ _ _ _ (if ?b then _ else _) =>
      destruct b eqn:?; [apply answers_throw; solve [eauto with transfers]|]
  end.

Section Requests.
Context {OS : TransferOs} {CO : TransferCodec} (reserved_name : string -> string).
Context (actor : MachineTransferActor) (path : string).

Lemma check_begin_ok s p : check_begin s actor path p = Ok tt ->
  p = path /\ Z.of_nat (size (tr_pending s)) < MACHINE_TRANSFER_MAX_ACTIVE
  /\ active_of actor (tr_pending s) < 2.
Proof.
  unfold check_begin. repeat case_match; try done. intros _. bool_hyps.
  repeat match goal with H : (_ =s _) = true |- _ => apply str_eqb_eq in H end. split_and!; [done|lia..].
Qed.

(** A begin ends by registering its transfer. *)
Lemma answers_register request fresh now s0 granted direction size :
  begins request path granted direction size -> granted = Z.min (begin_limit request) (tr_limit s0) -> granted <> 0 ->
  Z.of_nat (base.size (tr_pending s0)) < MACHINE_TRANSFER_MAX_ACTIVE -> active_of actor (tr_pending s0) < 2 ->
  answers actor path request fresh now (tr_limit s0) s0 (same s0)
    (register fresh (new_pending actor path now granted direction) ;!
     st_ret (Begun fresh path granted MACHINE_TRANSFER_CHUNK_BYTES size)).
Proof.
  intros Hb Hl H0 Hn Ha s Hs. simpl. unfold post. apply same_view in Hs as Hv. injection Hv as Hp Hd.
  unfold view at 2. simpl. rewrite Hp, Hd. by apply (t_begun actor path request fresh now _ (view s0)).
Qed.

Lemma stage_quiet P (HP : registry_only P) id mode : stable P (fun s =>
  match stage reserved_name path id mode s with
  | (Ok _, s') => (Ok tt, s')
  | (Err error, s') =>
      (remove_failed_stage_intent reserved_name path id ;! st_throw (A := unit) (io_failure error)) s'
  end).
Proof.
  intros s Hs. pose proof (stage_stable reserved_name P (registry_world P HP) path id mode s Hs) as H1.
  destruct (stage _ _ _ _ s) as [[] s']; simpl in H1; [done|].
  match goal with |- P (?m s').2 => apply (stable_run_to P m); [steps|done] end.
Qed.
Hint Resolve stage_quiet : transfers.

Lemma put_begin_answers s0 overwrite mode size limit fresh now :
  Z.of_nat (base.size (tr_pending s0)) < MACHINE_TRANSFER_MAX_ACTIVE -> active_of actor (tr_pending s0) < 2 ->
  answers actor path (PutBegin path overwrite mode size limit) fresh now (tr_limit s0) s0 (same s0)
    (put_begin reserved_name actor path overwrite mode size limit fresh now).
Proof.
  intros Hn Ha. unfold put_begin. apply answers_get. intros s [= Hw Hl Hg Hp Hd].
  rewrite Hl. set (granted := Z.min limit (tr_limit s0)).
  walk. apply orb_false_iff in Heqb as [H0 H1]. apply answers_register; [by split_and!|done|lia|done|done].
Qed.

Lemma get_begin_answers s0 limit fresh now :
  Z.of_nat (base.size (tr_pending s0)) < MACHINE_TRANSFER_MAX_ACTIVE -> active_of actor (tr_pending s0) < 2 ->
  answers actor path (GetBegin path limit) fresh now (tr_limit s0) s0 (same s0)
    (get_begin reserved_name actor path limit fresh now).
Proof.
  intros Hn Ha. unfold get_begin. apply answers_get. intros s [= Hw Hl Hg Hp Hd].
  rewrite Hl. set (granted := Z.min limit (tr_limit s0)).
  walk. bool_hyps. apply answers_register; [|done|lia|done|done]. split; [done|]. eexists. split_and!; [done|done|lia].
Qed.

(** *** On a transfer *)

Section OnTransfer.
Context (request : Request) (fresh : string) (now : Z) (s0 : Transfers) (id : string) (entry : Pending).
Context (Hown : owned actor path request (view s0) id entry).
Notation gone := (same (taken id s0)).
Notation answered := (answers actor path request fresh now (tr_limit s0) s0 gone).

Lemma gone_refusable : refusable actor path request fresh now (tr_limit s0) s0 gone.
Proof. by apply (taken_refusable _ _ _ _ _ _ _ _ entry). Qed.
Hint Resolve gone_refusable : transfers.

Lemma gone_view s : gone s -> view s = mkView (delete id (v_pending (view s0))) (v_published (view s0)).
Proof. apply same_view. Qed.

(** The bytes of an accepted chunk and the transfer it leaves. *)
Definition moved (r : Answer * Pending) : Prop :=
  exists data direction,
    moves request entry data direction r.1 /\ r.2 = absorb (touch now entry) data direction
    /\ Z.of_nat (length data) <= MACHINE_TRANSFER_CHUNK_BYTES
    /\ pd_offset entry + Z.of_nat (length data) <= pd_limit entry.
Definition chunked (m : T (Answer * Pending)) : Prop :=
  triple gone m (fun r s => gone s /\ moved r) (fun _ => gone).

Lemma chunked_quiet {A} (m : T A) k : stable gone m -> (forall a, chunked (k a)) -> chunked (st_bind m k).
Proof. intros Hm Hk. eapply triple_bind; [by apply triple_weaken; [exact Hm|]|exact Hk]. Qed.
Lemma chunked_throw error : chunked (st_throw error).
Proof. by intros s. Qed.

Lemma put_chunk_moved offset content : request = PutChunk id offset content ->
  chunked (put_chunk (touch now entry) offset content).
Proof.
  intros Hr. unfold put_chunk. simpl. destruct (negb _) eqn:Ho; [apply chunked_throw|].
  destruct (_ <? str_len _); [apply chunked_throw|].
  destruct (base64_decode content) as [data|] eqn:Hd; cbn [ok_or]; [rewrite bind_lift_ok|apply chunked_throw].
  destruct (_ || _) eqn:Hl; [apply chunked_throw|]. destruct (pd_direction entry) eqn:Hdir; [|apply chunked_throw].
  apply chunked_quiet; [steps|intros _ s Hs]. simpl. split; [done|].
  exists data, (Put (staged ++ data) overwrite expected_size). bool_hyps. apply Z.eqb_eq in Ho.
  unfold moves. rewrite Hr. split_and!; [done|done|done|by eexists _, _, _|done|lia..].
Qed.

Lemma read_chunk_length s data s' : io read_chunk s = (Ok data, s') ->
  Z.of_nat (length data) <= MACHINE_TRANSFER_CHUNK_BYTES.
Proof.
  unfold io, st_map_err, read_chunk. assert (0 <= MACHINE_TRANSFER_CHUNK_BYTES) as Hc by done.
  revert Hc. generalize MACHINE_TRANSFER_CHUNK_BYTES as limit. intros limit Hc.
  unfold st_bind, call. destruct (os_fault _ _); [done|]. intros [= <- _]. rewrite length_take. lia.
Qed.

Lemma get_chunk_moved offset : request = GetChunk id offset -> chunked (get_chunk (touch now entry) offset).
Proof.
  intros Hr. unfold get_chunk. simpl. destruct (negb _) eqn:Ho; [apply chunked_throw|].
  destruct (pd_direction entry) eqn:Hdir; [apply chunked_throw|]. intros s Hs. unfold st_bind.
  pose proof (stable_map_err gone io_failure read_chunk (read_chunk_stable _ (world_call _ (same_world _))) s Hs) as H1.
  change (st_map_err io_failure read_chunk) with (io read_chunk) in H1.
  destruct (io read_chunk s) as [[data|] s1] eqn:E; [|done]. apply read_chunk_length in E.
  destruct (_ <? _) eqn:Hl; [done|]. split; [done|].
  exists data, (Get original (Z.of_nat (length data) =? 0)). bool_hyps. apply Z.eqb_eq in Ho.
  unfold moves. rewrite Hr. split_and!; [done|done|by eexists _, _|done|lia..].
Qed.

Lemma drop_after_refused {A} error s : gone s ->
  exists s', (drop_entry id (touch now entry) ;! (st_throw error : T A)) s = (Err error, s') /\ gone s'.
Proof.
  intros Hs. unfold st_bind. pose proof (drop_entry_stable (E := ProtocolError) gone (same_world _) id (touch now entry) s Hs) as H1.
  destruct (drop_entry _ _ s) as [[[]|e] s'] eqn:E; [by exists s'|].
  exfalso. revert E. unfold drop_entry, drop_staged, ignore. by destruct (is_put _).
Qed.

Lemma keep_answered m : chunked m -> answered (keep id (touch now entry) m).
Proof.
  intros Hm s Hs. specialize (Hm s Hs). unfold keep. destruct (m s) as [[[a e]|error] s1].
  - destruct Hm as [Hs1 (data & direction & Hmv & He & Hl1 & Hl2)]. simpl in *. subst e.
    unfold post. apply gone_view in Hs1. injection Hs1 as Hp Hd. unfold view at 2. simpl.
    rewrite Hp, Hd, insert_delete_eq. by apply (t_moved actor path request fresh now _ (view s0) id entry data).
  - destruct (drop_after_refused (A := Answer) error s1 Hm) as (s2 & -> & H2). by apply gone_refusable.
Qed.

Lemma finally_answered m :
  triple gone m (fun a s => gone s /\ ends path request entry a) (fun _ => gone) ->
  answered (finally_drop id (touch now entry) m).
Proof.
  intros Hm s Hs. specialize (Hm s Hs). unfold finally_drop.
  pose proof (drop_entry_stable (E := ProtocolError) gone (same_world _) id (touch now entry)) as Hd.
  destruct (m s) as [[a|error] s1]; [|apply gone_refusable, Hd, Hm].
  destruct Hm as [H1 He]. unfold post. rewrite (gone_view _ (Hd s1 H1)).
  by apply (t_ended actor path request fresh now _ (view s0) id entry).
Qed.

Lemma get_finish_ends : request = GetFinish id ->
  triple gone (get_finish (touch now entry)) (fun a s => gone s /\ ends path request entry a) (fun _ => gone).
Proof.
  intros Hr. unfold get_finish. simpl. destruct (pd_direction entry) eqn:Hdir; [by intros s|].
  eapply triple_bind; [by apply triple_weaken; [steps|]|]. intros current s Hs.
  destruct (_ || _) eqn:Hc; [done|]. split; [done|]. bool_hyps. unfold ends. rewrite Hr.
  destruct Hown as (_ & _ & _ & Hpath). subst eof.
  split; [by rewrite Hpath|]. exists original, current. split_and!; [done|lia|lia|done].
Qed.

Lemma abort_ends read : request = AbortTransfer id read ->
  triple gone (abort_transfer (touch now entry) read) (fun a s => gone s /\ ends path request entry a) (fun _ => gone).
Proof.
  intros Hr s Hs. unfold abort_transfer. destruct (negb _) eqn:E; [done|]. split; [done|].
  unfold ends. rewrite Hr. split; [done|]. bool_hyps. by apply eqb_prop in E.
Qed.

(** What a put verified before it takes its staging file. *)
Definition verified (size : Z) (sha256 : string) (r : bytes * bool) : Prop :=
  exists expected, pd_direction entry = Put r.1 r.2 expected /\ size = pd_offset entry
    /\ is_some_and expected (fun n => negb (n =? size)) = false /\ sha256 = sha256_hex (pd_hash entry).

Lemma put_verified size sha256 :
  triple gone (put_verify reserved_name (touch now entry) size sha256)
    (fun r s => gone s /\ verified size sha256 r) (fun _ => gone).
Proof.
  unfold put_verify. simpl. destruct (pd_direction entry) eqn:Hdir; [|by intros s].
  destruct (_ || _) eqn:Hc; [by intros s|]. bool_hyps.
  do 3 (eapply triple_bind; [by apply triple_weaken; [steps|]|intros ?]).
  intros s Hs. simpl. split; [done|]. exists expected_size. apply Z.eqb_eq in H. apply str_eqb_eq in H0.
  by rewrite Hdir.
Qed.

(** The publication: it happened, it is unconfirmed, or it did not. *)
Lemma publish_view overwrite staged s :
  gone s ->
  match commit_staged (CallPublish path overwrite) (staging_name path id)
          (set_disk (set_published path staged)) s with
  | (Ok _, s') => view s' = mkView (delete id (v_pending (view s0))) (<[path := staged]> (v_published (view s0)))
  | (Err error, s') =>
      if is_publication_uncertain error
      then view s' = mkView (delete id (v_pending (view s0))) (<[path := staged]> (v_published (view s0)))
      else gone s'
  end.
Proof.
  intros Hs. set (w := mkView _ _).
  assert (forall s1, gone s1 -> view (set_disk (set_published path staged) s1) = w) as Hi.
  { intros s1 H1%gone_view. injection H1 as Hp Hd. unfold view. simpl. by rewrite Hp, Hd. }
  assert (world_only (fun s1 => view s1 = w)) as Hw.
  { intros s1 s2 He _ Hv. injection He as _ _ _ Hp Hd. rewrite <- Hv. unfold view. by rewrite Hp, Hd. }
  unfold commit_staged. set (c := CallPublish path overwrite).
  pose proof (transfer_call_stable gone (world_call _ (same_world _)) c s Hs) as H1.
  destruct (call c s) as [[[]|e] s1]; simpl in H1; [by apply (Hi s1)|].
  destruct (is_publication_uncertain e); [|by apply (transfer_drop_staged_stable (E := IoError) gone (same_world _))].
  case_match; [by apply (Hi s1)|]. apply (transfer_drop_staged_stable (E := IoError) _ Hw). by apply Hi.
Qed.

Lemma uncertain_code error : is_publication_uncertain error = true ->
  pe_code (io_failure error) = "machine_file_commit_uncertain"%string.
Proof. intros He. unfold io_failure. by rewrite He. Qed.

Lemma put_finish_answered size sha256 : request = PutFinish id size sha256 ->
  answered (put_finish reserved_name id (touch now entry) size sha256).
Proof.
  intros Hr s Hs. unfold put_finish. pose proof (put_verified size sha256 s Hs) as H1.
  destruct (put_verify _ _ _ _ s) as [[[staged overwrite]|e] s1].
  2:{ destruct (drop_after_refused (A := Answer) e s1 H1) as (s2 & -> & H2). by apply gone_refusable. }
  destruct H1 as [H1 (expected & Hdir & Hsize & Hexp & Hsha)]. simpl in Hdir.
  destruct Hown as (_ & _ & _ & Hpath). simpl. rewrite Hpath.
  pose proof (publish_view overwrite staged s1 H1) as H2. unfold io, st_bind, st_map_err.
  assert (forall r, match r with Ok answer => answer = Complete path size sha256
                   | Err error => pe_code error = "machine_file_commit_uncertain"%string end ->
            transition actor path request fresh now (tr_limit s0) (view s0) r
              (mkView (delete id (v_pending (view s0))) (<[path := staged]> (v_published (view s0))))) as Ht.
  { intros r Hok. by apply (t_published actor path request fresh now _ (view s0) id entry size sha256 staged overwrite expected). }
  destruct (commit_staged _ _ _ s1) as [[[]|e] s2]; simpl.
  - unfold post. rewrite H2. by apply Ht.
  - destruct (is_publication_uncertain e) eqn:Hu; [|by apply gone_refusable].
    unfold post. rewrite H2. by apply Ht, uncertain_code.
Qed.

Lemma run_request_answered : answered (run_request reserved_name id (touch now entry) request).
Proof.
  cut (forall r, request = r -> request_id r = Some id -> answered (run_request reserved_name id (touch now entry) r)).
  { intros Hr. apply (Hr request); [done|apply Hown]. }
  intros r Hr Hid. destruct r; try done; injection Hid as ->; cbn [run_request].
  - by apply keep_answered, put_chunk_moved.
  - by apply keep_answered, get_chunk_moved.
  - by apply put_finish_answered.
  - by apply finally_answered, get_finish_ends.
  - by apply finally_answered, abort_ends.
Qed.
End OnTransfer.

Lemma on_transfer_answered request fresh now s0 id : request_id request = Some id ->
  answers actor path request fresh now (tr_limit s0) s0 (same s0)
    (on_transfer reserved_name actor path request id now).
Proof.
  intros Hid s Hs. unfold on_transfer, st_bind at 1, get. pose proof Hs as [= _ _ _ Hp Hd].
  destruct (tr_pending s !! id) as [entry|] eqn:He; [|by apply same_refusable].
  destruct (_ || _) eqn:Ho; [by apply same_refusable|]. bool_hyps.
  apply bool_decide_eq_true in H. apply str_eqb_eq in H0.
  assert (owned actor path request (view s0) id entry) as Hown.
  { split_and!; [done| |done..]. simpl. by rewrite <- Hp. }
  apply (run_request_answered request fresh now s0 id entry Hown (set_pending (delete id) s)).
  unfold same, registry, taken in *. simpl. congruence.
Qed.

Definition request_wf (request : Request) : Prop :=
  match request with PutBegin _ _ _ _ limit | GetBegin _ limit => 0 <= limit | _ => True end.

Lemma execute_answered generation request fresh now s0 :
  answers actor path request fresh now (tr_limit s0) s0 (eq s0)
    (execute_locked reserved_name generation actor path request fresh now).
Proof.
  intros s <-. unfold execute_locked, st_bind at 1, get.
  assert (same s0 s0) as Hs0 by done.
  destruct (negb _); [by apply same_refusable|]. destruct (tr_recovery_write_failed s0); [by apply same_refusable|].
  match goal with |- match ?m s0 with _ => _ end =>
    cut (answers actor path request fresh now (tr_limit s0) s0 (same s0) m); [intros Hm; by apply Hm|] end.
  apply answers_quiet; [auto with transfers|steps|intros _].
  destruct request; try by apply on_transfer_answered.
  all: apply answers_lift; [auto with transfers|intros [] (-> & Hn & Ha)%check_begin_ok].
  - by apply put_begin_answers.
  - by apply get_begin_answers.
Qed.
End Requests.

(** * Runs of the registry of transfers

    Requests, expiries and connection losses in any order, with the events a client sees: the
    limits hold, and a finished transfer is exactly the bytes its chunks moved. *)

(** ** Events *)

Record Event : Type := mkEvent { ev_request : Request; ev_answer : Result Answer ProtocolError }.

Section Events.
Context {CO : TransferCodec}.

Definition is_issue (id : string) (e : Event) : bool :=
  match ev_answer e with Ok (Begun id' _ _ _ _) => id' =s id | _ => false end.
(** A begin was answered with this identifier. *)
Definition issued (id : string) (tr : list Event) : bool := existsb (is_issue id) tr.

(** The limit a begin was answered with. *)
Definition event_grant (id : string) (e : Event) : option Z :=
  match ev_answer e with Ok (Begun id' _ limit _ _) => if id' =s id then Some limit else None | _ => None end.
Definition granted (id : string) (tr : list Event) : option Z := head (omap (event_grant id) tr).

(** The bytes of a transfer that an answered chunk carried, as the client knows them. *)
Definition event_bytes (id : string) (e : Event) : bytes :=
  match ev_request e, ev_answer e with
  | PutChunk id' _ content, Ok _ | GetChunk id' _, Ok (Chunk _ content _) =>
      if id' =s id then default [] (base64_decode content) else []
  | _, _ => []
  end.
Definition transferred (id : string) (tr : list Event) : bytes := mjoin (event_bytes id <$> tr).

Lemma transferred_snoc id tr e : transferred id (tr ++ [e]) = transferred id tr ++ event_bytes id e.
Proof. unfold transferred. rewrite fmap_app, join_app. simpl. by rewrite app_nil_r. Qed.
Lemma issued_snoc id tr e : issued id (tr ++ [e]) = issued id tr || is_issue id e.
Proof. unfold issued. rewrite existsb_app. simpl. by rewrite orb_false_r. Qed.
Lemma granted_snoc id tr e :
  granted id (tr ++ [e]) = match granted id tr with Some limit => Some limit | None => event_grant id e end.
Proof.
  unfold granted. rewrite omap_app. destruct (omap (event_grant id) tr) as [|limit l]; [|done]. simpl.
  by destruct (event_grant id e).
Qed.
Lemma event_grant_issue id e : is_some (event_grant id e) = is_issue id e.
Proof. unfold event_grant, is_issue. by repeat case_match. Qed.
Lemma granted_issued id tr : is_some (granted id tr) = issued id tr.
Proof.
  induction tr as [|e tr IH] using rev_ind; [done|]. rewrite granted_snoc, issued_snoc, <- IH, <- event_grant_issue.
  by destruct (granted id tr).
Qed.
Lemma granted_then id tr e limit : granted id tr = Some limit -> granted id (tr ++ [e]) = Some limit.
Proof. intros Hg. by rewrite granted_snoc, Hg. Qed.
Lemma not_issued id tr : issued id tr = false -> granted id tr = None.
Proof. rewrite <- granted_issued. by destruct (granted id tr). Qed.
End Events.

Section Runs.
Context {OS : TransferOs} {CO : TransferCodec} {CL : TransferCodecLaws} (reserved_name : string -> string).

(** ** Steps

    A request of the Proxy is its checks and its expiry ([run_expire]), then one step under the
    registry's lock; other steps may come between. *)
Inductive transfer_step : Transfers * list Event -> Transfers * list Event -> Prop :=
| run_execute generation actor path request fresh now s tr r s' :
    execute_checks s actor path = Ok tt -> request_wf request ->
    recovery_id fresh = true -> issued fresh tr = false ->
    execute_locked reserved_name generation actor path request fresh now s = (r, s') ->
    transfer_step (s, tr) (s', tr ++ [mkEvent request r])
| run_expire locked now s tr : transfer_step (s, tr) ((expire locked now s).2, tr)
| run_clear s tr : transfer_step (s, tr) ((clear s).2, tr).

(** The registry alone: what the steps look like without the file system. *)
Definition transfers_start (workspace_id : string) (protected : list string) (limit : Z) (disk : TransferDisk)
  : Transfers * list Event := (transfers_new workspace_id protected limit disk, []).
Definition reachable (start x : Transfers * list Event) : Prop := rtc transfer_step start x.

(** ** The invariant *)

Record entry_fine (limit : Z) (entry : Pending) : Prop := {
  ef_offset : pd_offset entry = Z.of_nat (length (pd_hash entry));
  ef_limit : pd_offset entry <= pd_limit entry <= limit;
  ef_staged : match pd_direction entry with Put staged _ _ => staged = pd_hash entry | Get _ _ => True end
}.

Record runs_fine (x : Transfers * list Event) : Prop := {
  rf_entries : map_Forall (fun id entry => entry_fine (tr_limit x.1) entry
      /\ pd_hash entry = transferred id x.2 /\ granted id x.2 = Some (pd_limit entry)) (tr_pending x.1);
  rf_fresh id : issued id x.2 = false -> transferred id x.2 = [];
  rf_active : Z.of_nat (size (tr_pending x.1)) <= MACHINE_TRANSFER_MAX_ACTIVE;
  rf_actors actor : active_of actor (tr_pending x.1) <= 2
}.

Lemma active_insert actor id entry m : m !! id = None ->
  active_of actor (<[id := entry]> m) <= active_of actor m + (if decide (pd_actor entry = actor) then 1 else 0).
Proof.
  intros Hm. unfold active_of. rewrite map_filter_insert. simpl. destruct (decide _) as [Ha|Ha].
  - rewrite map_size_insert_None; [lia|].
    by apply map_lookup_filter_None_2; left.
  - rewrite delete_id by done. lia.
Qed.
Lemma active_replace actor id entry old m : m !! id = Some old -> pd_actor entry = pd_actor old ->
  active_of actor (<[id := entry]> m) = active_of actor m.
Proof.
  intros Hm Ha. rewrite <- (insert_id m id old Hm) at 2. unfold active_of. rewrite !map_filter_insert. simpl.
  rewrite Ha. destruct (decide _); [|done]. by rewrite !map_size_insert.
Qed.
Lemma active_subset actor m m' : m' ⊆ m -> active_of actor m' <= active_of actor m.
Proof.
  intros Hs. unfold active_of. apply inj_le, map_subseteq_size, map_subseteq_spec.
  intros i x [H1 H2]%map_lookup_filter_Some. apply map_lookup_filter_Some.
  split; [by eapply lookup_weaken|done].
Qed.

(** The registry shrinks and no event happens. *)
Lemma fine_shrinks s s' tr : tr_pending s' ⊆ tr_pending s -> tr_limit s' = tr_limit s ->
  runs_fine (s, tr) -> runs_fine (s', tr).
Proof.
  intros Hp Hl [H1 H2 H3 H4]. split; simpl in *.
  - rewrite Hl. intros id e He. by eapply H1, lookup_weaken.
  - done.
  - apply map_subseteq_size in Hp. lia.
  - intros actor. etrans; [by apply active_subset|done].
Qed.

Lemma expire_shrinks locked now s :
  tr_pending (expire locked now s).2 ⊆ tr_pending s /\ tr_limit (expire locked now s).2 = tr_limit s.
Proof.
  unfold expire. destruct locked; [done|]. unfold st_bind, get, modify. simpl.
  set (s1 := set_pending _ s).
  match goal with |- context [drop_entries ?l s1] =>
    pose proof (drop_entries_stable (same s1) (same_world s1) l s1 eq_refl) as [= _ Hl _ Hp _] end.
  rewrite Hp, Hl. split; [apply map_filter_subseteq|done].
Qed.
Lemma clear_empties s :
  tr_pending (clear s).2 = ∅ /\ tr_limit (clear s).2 = tr_limit s
  /\ tr_generation (clear s).2 = (tr_generation s + 1) mod 2 ^ 64.
Proof.
  unfold clear. unfold st_bind, get, modify. cbn [fst snd].
  set (s1 := set_pending _ (set_generation _ s)).
  match goal with |- context [drop_entries ?l s1] =>
    pose proof (drop_entries_stable (same s1) (same_world s1) l s1 eq_refl) as [= _ Hl Hg Hp _] end.
  by rewrite Hp, Hl, Hg.
Qed.

(** ** Requests keep it *)

Lemma event_bytes_other id request r : request_id request <> Some id ->
  event_bytes id (mkEvent request r) = [].
Proof.
  intros Hid. unfold event_bytes. destruct request; simpl in *; try done; destruct r as [[]|]; try done;
    case_match eqn:E; try done; apply str_eqb_eq in E; congruence.
Qed.

Lemma moves_bytes id request entry data direction answer : request_id request = Some id ->
  moves request entry data direction answer -> event_bytes id (mkEvent request (Ok answer)) = data.
Proof.
  intros Hid. unfold moves, event_bytes. destruct request; try done; injection Hid as ->; simpl.
  - intros (-> & Hd & -> & _). by rewrite str_eqb_refl, Hd.
  - intros (-> & -> & _). by rewrite str_eqb_refl, base64_roundtrip.
Qed.

Lemma moved_fine limit now entry data direction request answer : entry_fine limit entry ->
  moves request entry data direction answer -> pd_offset entry + Z.of_nat (length data) <= pd_limit entry ->
  entry_fine limit (absorb (touch now entry) data direction).
Proof.
  intros [H1 H2 H3] Hm Hl. split; simpl.
  - rewrite length_app. lia.
  - lia.
  - unfold moves in Hm. destruct request; try done.
    + destruct Hm as (_ & _ & _ & staged & overwrite & expected & Hd & ->). rewrite Hd in H3. by rewrite H3.
    + by destruct Hm as (_ & _ & original & eof & _ & ->).
Qed.

(** The answers after which no byte of another transfer is counted. *)
Lemma transferred_other id tr request r : request_id request <> Some id ->
  transferred id (tr ++ [mkEvent request r]) = transferred id tr.
Proof. intros Hid. by rewrite transferred_snoc, event_bytes_other, app_nil_r. Qed.

(** ** What no request changes *)

Definition settings (s : Transfers) := (tr_workspace_id s, tr_limit s, tr_generation s).

Section Settings.
Context (s0 : Transfers).
Definition set_as (s : Transfers) : Prop := settings s = settings s0.

Lemma set_as_registry : registry_only set_as.
Proof. intros s s' He Hs. unfold set_as, settings, registry in *. congruence. Qed.
Hint Resolve set_as_registry : transfers.
Lemma set_as_world : world_only set_as.
Proof. apply registry_world, set_as_registry. Qed.

Lemma set_as_pending {E} f : stable (E := E) set_as (modify (set_pending f)).
Proof. by intros s. Qed.
Lemma set_as_register id entry : stable set_as (register id entry).
Proof. apply set_as_pending. Qed.
Hint Resolve set_as_pending set_as_register : transfers.

Lemma set_as_drop id entry error : stable set_as (drop_entry id entry ;! (st_throw error : T Answer)).
Proof. steps. Qed.

Lemma keep_settings id entry m : stable set_as m -> stable set_as (keep id entry m).
Proof.
  intros Hm s Hs. specialize (Hm s Hs). unfold keep. destruct (m s) as [[[a e]|error] s1]; [done|].
  by apply set_as_drop.
Qed.
Lemma finally_settings id entry m : stable set_as m -> stable set_as (finally_drop id entry m).
Proof.
  intros Hm s Hs. specialize (Hm s Hs). unfold finally_drop. destruct (m s) as [r s1]. simpl in *.
  by apply (drop_entry_stable (E := ProtocolError) _ set_as_world).
Qed.

Lemma publish_settings c at_ path content :
  stable set_as (commit_staged c at_ (set_disk (set_published path content))).
Proof.
  intros s Hs. unfold commit_staged. pose proof (transfer_call_stable set_as (world_call _ set_as_world) c s Hs) as H1.
  destruct (call c s) as [[[]|e] s1]; simpl in H1; [done|].
  case_match; [case_match; [done|]|]; by apply (transfer_drop_staged_stable (E := IoError) _ set_as_world).
Qed.

Lemma put_finish_settings id entry size sha256 : stable set_as (put_finish reserved_name id entry size sha256).
Proof.
  assert (stable set_as (put_verify reserved_name entry size sha256)) as Hv by (unfold put_verify; steps).
  intros s Hs. specialize (Hv s Hs). unfold put_finish.
  destruct (put_verify _ _ _ _ s) as [[[staged overwrite]|e] s1]; [|by apply set_as_drop].
  match goal with |- set_as (?m s1).2 => apply (stable_run_to set_as m); [|done] end.
  pose proof publish_settings. steps.
Qed.

Lemma run_request_settings id entry request : stable set_as (run_request reserved_name id entry request).
Proof.
  destruct request; cbn [run_request]; try apply keep_settings; try apply finally_settings;
    try apply put_finish_settings; unfold put_chunk, get_chunk, get_finish, abort_transfer; steps.
Qed.

Lemma execute_settings generation actor path request fresh now :
  stable set_as (execute_locked reserved_name generation actor path request fresh now).
Proof.
  pose proof (fun id e => run_request_settings id e request) as Hr.
  pose proof (fun path id mode => stage_quiet reserved_name path set_as set_as_registry id mode) as Hs.
  unfold execute_locked, on_transfer, put_begin, get_begin. steps.
Qed.
End Settings.

Lemma execute_keeps_settings generation actor path request fresh now s :
  settings (execute_locked reserved_name generation actor path request fresh now s).2 = settings s.
Proof. by apply (execute_settings s). Qed.

(** ** Transitions keep the invariant *)

Lemma begins_fine request path now actor granted direction size limit :
  begins request path granted direction size -> 0 <= granted <= limit ->
  entry_fine limit (new_pending actor path now granted direction).
Proof.
  intros Hb Hg. split; simpl; [done|done|]. unfold begins in Hb. destruct request; try done.
  - by destruct Hb as (_ & _ & -> & _).
  - by destruct Hb as (_ & original & _ & -> & _).
Qed.

(** An event that moves no byte and issues no identifier. *)
Definition silent (e : Event) : Prop := forall id, event_bytes id e = [] /\ is_issue id e = false.

Lemma error_silent request error : silent (mkEvent request (Err error)).
Proof. intros id. split; [|done]. unfold event_bytes. by destruct request. Qed.

Lemma silent_fine s s' tr e : silent e -> tr_pending s' ⊆ tr_pending s -> tr_limit s' = tr_limit s ->
  runs_fine (s, tr) -> runs_fine (s', tr ++ [e]).
Proof.
  intros He Hp Hl Hs. apply (fine_shrinks s s' tr Hp Hl) in Hs as [H1 H2 H3 H4]. split; simpl in *; [| |done|done].
  - intros id entry Hid. destruct (H1 id entry Hid) as (Hf & Hh & Hi), (He id) as [Hb _].
    rewrite transferred_snoc, Hb, app_nil_r. by split_and!; [| |apply granted_then].
  - intros id. destruct (He id) as [Hb Hn]. rewrite issued_snoc, transferred_snoc, Hb, Hn, app_nil_r, orb_false_r.
    apply H2.
Qed.

Lemma begun_fine s s' tr actor path request fresh now granted direction size :
  issued fresh tr = false -> request_id request = None -> tr_limit s' = tr_limit s ->
  entry_fine (tr_limit s) (new_pending actor path now granted direction) ->
  Z.of_nat (base.size (tr_pending s)) < MACHINE_TRANSFER_MAX_ACTIVE -> active_of actor (tr_pending s) < 2 ->
  tr_pending s' = <[fresh := new_pending actor path now granted direction]> (tr_pending s) ->
  runs_fine (s, tr) ->
  runs_fine (s', tr ++ [mkEvent request (Ok (Begun fresh path granted MACHINE_TRANSFER_CHUNK_BYTES size))]).
Proof.
  intros Hfresh Hid Hl He Hn Ha Hp [H1 H2 H3 H4]. simpl in *.
  assert (tr_pending s !! fresh = None) as Hnone.
  { destruct (tr_pending s !! fresh) eqn:E; [|done]. apply H1 in E as (_ & _ & Hi). apply not_issued in Hfresh. congruence. }
  split; simpl.
  - rewrite Hl, Hp. intros id entry. rewrite transferred_other by by rewrite Hid.
    rewrite lookup_insert_Some. intros [[<- <-]|[_ Hin]].
    + split_and!; [done|by rewrite H2|]. rewrite granted_snoc, not_issued by done. unfold event_grant. simpl.
      by rewrite str_eqb_refl.
    + destruct (H1 id entry Hin) as (? & ? & ?). by split_and!; [| |apply granted_then].
  - intros id. rewrite issued_snoc, transferred_other by by rewrite Hid. intros [Hi _]%orb_false_elim. by apply H2.
  - rewrite Hp, map_size_insert_None by done. lia.
  - intros actor'. rewrite Hp. etrans; [by apply active_insert|]. specialize (H4 actor'). simpl.
    destruct (decide _); subst; lia.
Qed.

Lemma moved_run_fine s s' tr request now id entry data direction answer :
  request_id request = Some id -> tr_pending s !! id = Some entry -> tr_limit s' = tr_limit s ->
  moves request entry data direction answer -> pd_offset entry + Z.of_nat (length data) <= pd_limit entry ->
  tr_pending s' = <[id := absorb (touch now entry) data direction]> (tr_pending s) ->
  runs_fine (s, tr) -> runs_fine (s', tr ++ [mkEvent request (Ok answer)]).
Proof.
  intros Hid Hin Hl Hm Hb Hp [H1 H2 H3 H4]. simpl in *. destruct (H1 id entry Hin) as (Hf & Hh & Hi).
  assert (forall id', is_issue id' (mkEvent request (Ok answer)) = false) as Hno.
  { intros id'. unfold is_issue, moves in *. simpl. destruct request; try done; by destruct Hm as (_ & -> & _) || destruct Hm as (_ & _ & -> & _). }
  split; simpl.
  - rewrite Hl, Hp. intros id' e. rewrite lookup_insert_Some. intros [[<- <-]|[Hne He]].
    + split_and!; [by eapply moved_fine| |by apply granted_then]. rewrite transferred_snoc.
      erewrite moves_bytes by done. simpl. by rewrite Hh.
    + rewrite transferred_other by congruence. destruct (H1 id' e He) as (? & ? & ?).
      by split_and!; [| |apply granted_then].
  - intros id'. rewrite issued_snoc, Hno, orb_false_r. intros Hi'.
    apply not_issued in Hi' as Hn. rewrite transferred_other by (rewrite Hid; congruence). by apply H2.
  - rewrite Hp, map_size_insert, Hin. done.
  - intros actor. rewrite Hp, (active_replace actor id _ entry) by done. apply H4.
Qed.

Lemma transition_fine actor path request fresh now s tr r s' :
  request_wf request -> issued fresh tr = false -> 1 <= tr_limit s -> tr_limit s' = tr_limit s ->
  transition actor path request fresh now (tr_limit s) (view s) r (view s') ->
  runs_fine (s, tr) -> runs_fine (s', tr ++ [mkEvent request r]).
Proof.
  intros Hwf Hfresh Hlim Hl Ht Hs.
  assert (forall id, tr_pending s' = delete id (tr_pending s) -> silent (mkEvent request r) ->
            runs_fine (s', tr ++ [mkEvent request r])) as Hdel.
  { intros id Hp He. apply (silent_fine s); [done| |done|done]. rewrite Hp. apply delete_subseteq. }
  assert (forall v v', v = view s -> v' = view s' -> tr_pending s = v_pending v /\ tr_pending s' = v_pending v') as Hv
    by (by intros ? ? -> ->).
  specialize (Hv _ _ eq_refl eq_refl) as [Hv Hp]. revert Ht Hv Hp.
  generalize (view s) as v, (view s') as v'. intros v v' Ht Hv Hp.
  destruct Ht as [error|granted direction size Hb Hg H0 Hn Ha|id entry data direction answer Ho Hm Hc Hb
    |id entry answer Ho He|id entry error Ho|id entry size sha staged overwrite expected r Ho Hreq Hdir Hsz Hex Hsha Hok];
    simpl in Hp; rewrite <- Hv in *.
  - apply (silent_fine s); [apply error_silent|by rewrite Hp|done|done].
  - apply (begun_fine s _ tr actor path request fresh now granted direction); try done.
    + unfold begins in Hb. by destruct request.
    + eapply begins_fine; [done|]. unfold request_wf, begin_limit in *. destruct request; lia.
  - destruct Ho as (Hid & Hin & _). rewrite <- Hv in Hin. by apply (moved_run_fine s s' tr request now id entry data direction).
  - apply (Hdel id); [done|]. intros id'. unfold ends in He. destruct request; try done;
      destruct He as [-> _]; done.
  - apply (Hdel id); [done|]. apply error_silent.
  - apply (Hdel id); [done|]. intros id'. rewrite Hreq. split; [done|]. unfold is_issue. simpl.
    destruct r as [a|]; [|done]. by subst a.
Qed.

(** ** Every run *)

Lemma execute_transition generation actor path request fresh now s r s' :
  execute_locked reserved_name generation actor path request fresh now s = (r, s') ->
  transition actor path request fresh now (tr_limit s) (view s) r (view s')
  /\ tr_limit s' = tr_limit s.
Proof.
  intros E. pose proof (execute_keeps_settings generation actor path request fresh now s) as [= _ Hl _].
  pose proof (execute_answered reserved_name actor path generation request fresh now s s eq_refl) as Hp.
  rewrite E in *. split; [|done]. by destruct r.
Qed.

Lemma start_fine workspace_id protected limit disk : runs_fine (transfers_start workspace_id protected limit disk).
Proof. by split. Qed.

Lemma reachable_fine workspace_id protected limit disk x :
  reachable (transfers_start workspace_id protected limit disk) x -> runs_fine x /\ 1 <= tr_limit x.1.
Proof.
  intros Hx. eapply (rtc_ind_r (fun x => runs_fine x /\ 1 <= tr_limit x.1)); [|clear x Hx|exact Hx].
  { split; [apply start_fine|]. simpl. unfold MACHINE_TRANSFER_HARD_LIMIT. lia. }
  intros x y _ Hstep [Hs Hl]. destruct Hstep as [generation actor path request fresh now s tr r s' _ Hwf _ Hf E|locked now s tr|s tr].
  - apply execute_transition in E as [Ht Hlim]. simpl in *. split; [|lia]. by eapply transition_fine.
  - destruct (expire_shrinks locked now s) as [Hp Hlim]. simpl in *. split; [|lia]. by apply (fine_shrinks s).
  - destruct (clear_empties s) as (Hp & Hlim & _). simpl in *. split; [|lia]. apply (fine_shrinks s); try done.
    rewrite Hp. apply map_empty_subseteq.
Qed.

(** A request as the Controller runs it: its checks, its expiry, and the locked part. *)
Theorem execution_is_a_sequence_of_steps locked generation actor path request fresh now s tr r s' :
  request_wf request -> recovery_id fresh = true -> issued fresh tr = false ->
  execute_generation reserved_name locked generation actor path request fresh now s = (r, s') ->
  exists tr', rtc transfer_step (s, tr) (s', tr') /\ (tr' = tr /\ is_ok r = false \/ tr' = tr ++ [mkEvent request r]).
Proof.
  intros Hwf Hid Hf. unfold execute_generation, st_bind at 1, get.
  destruct (execute_checks s actor path) as [[]|e] eqn:Hc.
  2:{ intros [= <- <-]. exists tr. split; [done|by left]. }
  rewrite bind_lift_ok. unfold st_bind. pose proof (run_expire locked now s tr) as Hstep.
  assert ((expire locked now s).1 = Ok tt) as He.
  { unfold expire. destruct locked; [done|]. unfold st_bind, get, modify. generalize (set_pending (filter (fun e : string * Pending => kept_by_expire now e.2 = true)) s).
    intros s1. simpl. generalize (List.filter (fun e : string * Pending => negb (kept_by_expire now e.2)) (os_order (tr_pending s))).
    intros l. revert s1. induction l as [|[id entry] l IH]; intros s1; [done|]. simpl. unfold st_bind, drop_entry.
    destruct (is_put entry); [|apply IH]. unfold drop_staged, ignore. apply IH. }
  assert (execute_checks (expire locked now s).2 actor path = Ok tt) as Hc'.
  { assert (stable (set_as s) (expire locked now)) as Hset.
    { pose proof (set_as_registry s). unfold expire. pose proof (@set_as_pending s ProtocolError). steps. }
    specialize (Hset s eq_refl). injection Hset as Hw _ _. unfold execute_checks, check_actor in *. by rewrite Hw. }
  destruct (expire locked now s) as [[[]|] s1]; simpl in *; [|done]. intros E.
  exists (tr ++ [mkEvent request r]). split; [|by right].
  eapply rtc_l; [exact Hstep|]. apply rtc_once. by eapply run_execute.
Qed.

(** C14: A transfer that is reported complete is exactly what was moved: a finish answers the length
    and the SHA-256 of the bytes that the chunks answered so far carried, in their order, never
    more than the limit that was granted to this transfer when it began (which is at most the
    Controller's); after a put those bytes are the published file.  A begin takes an identifier that
    no earlier one was answered with. *)
Theorem finished_transfer_is_exact workspace_id protected limit disk s tr
    generation actor path request fresh now p size sha256 s' :
  reachable (transfers_start workspace_id protected limit disk) (s, tr) ->
  request_wf request ->
  execute_locked reserved_name generation actor path request fresh now s = (Ok (Complete p size sha256), s') ->
  exists id limit, request_id request = Some id /\ p = path
    /\ size = Z.of_nat (length (transferred id tr))
    /\ granted id tr = Some limit /\ size <= limit <= tr_limit s
    /\ sha256 = sha256_hex (transferred id tr)
    /\ tr_pending s' !! id = None
    /\ td_published (tr_disk s')
       = match request with
         | PutFinish _ _ _ => <[path := transferred id tr]> (td_published (tr_disk s))
         | _ => td_published (tr_disk s)
         end.
Proof.
  intros Hx Hwf E. apply reachable_fine in Hx as [[H1 _ _ _] _]. simpl in *.
  apply execute_transition in E as [Ht _].
  assert (forall id entry, owned actor path request (view s) id entry ->
    pd_hash entry = transferred id tr /\ pd_offset entry = Z.of_nat (length (transferred id tr))
    /\ (granted id tr = Some (pd_limit entry) /\ pd_offset entry <= pd_limit entry <= tr_limit s)
    /\ entry_fine (tr_limit s) entry) as Hown.
  { intros id entry (_ & Hin & _). destruct (H1 id entry Hin) as ([Ho Hl Hst] & Hh & Hg).
    split_and!; [done|by rewrite <- Hh|done|lia|lia|done]. }
  assert (tr_pending s' = v_pending (view s') /\ td_published (tr_disk s') = v_published (view s')) as [Hp Hd] by done.
  revert Ht Hp Hd. generalize (view s') as v'. intros v' Ht Hp Hd.
  remember (Ok (Complete p size sha256)) as r eqn:Er.
  destruct Ht as [error|granted direction n Hb Hg H0 Hn Ha|id entry data direction answer Ho Hm Hc Hb
    |id entry answer Ho He|id entry error Ho|id entry n sha staged overwrite expected r Ho Hreq Hdir Hsz Hex Hsha Hok];
    simplify_eq/=; rewrite ?Hp, ?Hd.
  - exfalso. unfold moves in Hm. destruct request; try done; first [by destruct Hm as (_ & _ & ? & _)|by destruct Hm as (_ & ? & _)].
  - unfold ends in He. destruct request; try done; destruct He as [He _]; [|done]. injection He as -> -> ->.
    destruct (Hown id entry Ho) as (Hh & Hl & [Hg Hle] & _). exists id, (pd_limit entry).
    destruct Ho as (Hid & _). split_and!; try done; try lia; [by rewrite Hh|by rewrite lookup_delete_eq].
  - destruct (Hown id entry Ho) as (Hh & Hl & [Hg Hle] & [_ _ Hst]). rewrite Hdir in Hst.
    exists id, (pd_limit entry). subst staged. split_and!; try done; try lia; [by rewrite Hh|by rewrite lookup_delete_eq|by rewrite Hh].
Qed.

(** Only a finish whose size and digest are those of the moved bytes changes a destination, also
    when its answer is that the publication is unconfirmed. *)
Theorem destinations_change_only_by_verified_puts workspace_id protected limit disk x y :
  reachable (transfers_start workspace_id protected limit disk) x -> transfer_step x y ->
  td_published (tr_disk y.1) = td_published (tr_disk x.1)
  \/ exists id size sha256 path r, y.2 = x.2 ++ [mkEvent (PutFinish id size sha256) r]
      /\ size = Z.of_nat (length (transferred id x.2)) /\ sha256 = sha256_hex (transferred id x.2)
      /\ td_published (tr_disk y.1) = <[path := transferred id x.2]> (td_published (tr_disk x.1)).
Proof.
  intros Hx Hstep. apply reachable_fine in Hx as [[H1 _ _ _] _].
  destruct Hstep as [generation actor path request fresh now s tr r s' _ Hwf _ Hf E|locked now s tr|s tr]; simpl in *.
  - apply execute_transition in E as [Ht _].
    assert (td_published (tr_disk s') = v_published (view s')) as Hd by done.
    revert Ht Hd. generalize (view s') as v'. intros v' Ht ->.
    destruct Ht as [| | | | |id entry size sha staged overwrite expected r Ho Hreq Hdir Hsz Hex Hsha Hok]; try by left.
    right. destruct Ho as (_ & Hin & _). destruct (H1 id entry Hin) as ([Hoff _ Hst] & Hh & _).
    rewrite Hdir in Hst. exists id, size, sha, path, r. rewrite Hreq, <- Hh. split_and!; try done; [by rewrite Hsz|by rewrite Hst].
  - left. unfold expire. destruct locked; [done|]. unfold st_bind, get, modify. cbn [fst snd].
    match goal with |- context [drop_entries ?l ?s1] =>
      by pose proof (drop_entries_stable (same s1) (same_world s1) l s1 eq_refl) as [= _ _ _ _ ->] end.
  - left. unfold clear, st_bind, get, modify. cbn [fst snd].
    match goal with |- context [drop_entries ?l ?s1] =>
      by pose proof (drop_entries_stable (same s1) (same_world s1) l s1 eq_refl) as [= _ _ _ _ ->] end.
Qed.
End Runs.
