(* ===== verification/MachineTransferJournal.v ===== *)
(** * The journal of staging files

    However a Controller stops - between two requests, or at any call inside one - the journal
    names every staging file it leaves, except those it was refused the removal of when their
    transfer ended, and the next Controller removes all that are named. *)

From S2P Require Import Prelude RustStr Protocol StateLogic MachineFile.
From S2P Require Import MachineTransfer MachineTransferFacts.
Local Open Scope Z_scope.

Notation place := (string * string)%type.

(** ** The system

    A process that is stopped is one whose every later call fails without effect. *)

Definition stopped {O : TransferOs} (n : nat) : Prop :=
  forall m c, (n <= m)%nat -> exists e,
    os_fault m c = Some e /\ is_publication_uncertain e = false /\ os_effect m = false.

(** A journal that exists is found. *)
Class TransferCrashLaws {O : TransferOs} : Prop := {
  journal_found n e : os_fault n CallReadJournal = Some e -> io_kind e <> NotFound
}.

(** Among the calls of a process, the last one first: the removal of the staging file at [x], when
    it was dropped, failed without effect, and the process was not stopped. *)
Fixpoint refused {O : TransferOs} (log : list Call) (x : place) : Prop :=
  match log with
  | [] => False
  | c :: log' =>
      (c = CallUnlink x /\ is_Some (os_fault (length log') c) /\ os_effect (length log') = false
       /\ ~ stopped (S (length log')))
      \/ refused log' x
  end.

Section Journal.
Context {CO : TransferCodec} {CL : TransferCodecLaws} (reserved_name : string -> string).

(** ** Records and names *)

Definition good_record (r : string * string) : Prop :=
  is_reserved_namespace reserved_name r.1 = Ok false /\ recovery_id r.2 = true.
Definition good_list (l : list (string * string)) : Prop :=
  Forall good_record l /\ Z.of_nat (length l) <= MACHINE_TRANSFER_MAX_ACTIVE.

Definition names (l : list (string * string)) (x : place) : Prop :=
  exists r, r ∈ l /\ x = staging_name r.1 r.2.

(** The journal on the disk reads as [l]. *)
Definition reads (d : TransferDisk) (l : list (string * string)) : Prop :=
  match td_journal d with None => l = [] | Some b => encode_records l = Some b end.

(** The staging files, without the journal's own. *)
Definition file (d : TransferDisk) (x : place) : Prop := x ∈ td_staging d /\ x <> journal_temporary.

(** The journal names every staging file but those in [old]. *)
Definition durable (old : place -> Prop) (d : TransferDisk) : Prop :=
  exists l, reads d l /\ good_list l /\ forall x, file d x -> names l x \/ old x.

Lemma good_record_valid r : good_record r -> valid_record r.
Proof.
  intros [Hr Hid]. unfold is_reserved_namespace in Hr. split.
  - destruct (validate_relative_path r.1); [done|discriminate].
  - unfold recovery_id in Hid. bool_hyps. lia.
Qed.

Lemma good_length l : good_list l -> foldr Z.add 0 (record_size <$> l) <= 8 * 4149.
Proof.
  intros [Hl Hn]. unfold MACHINE_TRANSFER_MAX_ACTIVE in Hn.
  cut (foldr Z.add 0 (record_size <$> l) <= Z.of_nat (length l) * 4149); [lia|]. clear Hn.
  induction Hl as [|r l Hr _ IH]; [done|]. apply good_record_valid in Hr as [Hv Hid].
  unfold validate_relative_path in Hv. destruct (_ || _) eqn:E; [done|]. bool_hyps.
  rewrite fmap_cons. cbn [foldr length]. unfold record_size at 1. lia.
Qed.

(** The metadata limit of the recovery is never reached. *)
Lemma good_fits l b : good_list l -> encode_records l = Some b ->
  (RECOVERY_LIMIT <? Z.of_nat (length b)) = false.
Proof.
  intros Hl Hb. apply Z.ltb_ge. unfold RECOVERY_LIMIT.
  pose proof (records_size l b Hb) as Hs. pose proof (good_length l Hl).
  assert (Forall valid_record l) as Hv by (eapply Forall_impl; [apply Hl|apply good_record_valid]).
  specialize (Hs Hv). lia.
Qed.

Section System.
Context {OS : TransferOs} {OL : TransferOsLaws} {CR : TransferCrashLaws}.
(** The places earlier Controllers left a staging file at that no journal names. *)
Context (old : place -> Prop).

(** What may stay for good: those, and the removals this Controller was refused. *)
Definition left_over (s : Transfers) (x : place) : Prop := old x \/ refused (tr_log s) x.

(** ** What every program keeps

    [known R W]: the journal names every name of [R] and every staging file that is not left over;
    and, unless the process is stopped, every staging file is in [W] or left over. *)
Definition known (R W : place -> Prop) (s : Transfers) : Prop :=
  (exists l, reads (tr_disk s) l /\ good_list l
     /\ (forall x, file (tr_disk s) x -> names l x \/ left_over s x) /\ forall x, R x -> names l x)
  /\ (~ stopped (tr_calls s) -> forall x, file (tr_disk s) x -> W x \/ left_over s x).
Definition nothing (x : place) : Prop := False.
Definition with_name (n : place) (W : place -> Prop) (x : place) : Prop := x = n \/ W x.

Lemma stopped_later n m : (n <= m)%nat -> stopped n -> stopped m.
Proof. intros Hnm Hn k c Hk. apply Hn. lia. Qed.

Lemma refused_later log log' x : suffix log log' -> refused log x -> refused log' x.
Proof. intros [k ->] H. induction k as [|c k IH]; [done|by right]. Qed.
Lemma left_over_later s s' x : suffix (tr_log s) (tr_log s') -> left_over s x -> left_over s' x.
Proof. intros Hl [Hx|Hx]; [by left|right; by eapply refused_later]. Qed.

Lemma known_same R W s s' : tr_disk s' = tr_disk s -> suffix (tr_log s) (tr_log s') ->
  known R W s -> known R W s'.
Proof.
  intros Hd Hc [(l & Hr & Hg & Hf & Hl) Hw]. pose proof (fun x => left_over_later s s' x Hc) as HL.
  unfold known. rewrite Hd. split.
  - exists l. split_and!; [done|done| |done]. intros x Hx. destruct (Hf x Hx); auto.
  - intros Hrun x Hx. destruct (Hw (fun Hst => Hrun (stopped_later _ _ (suffix_length _ _ Hc) Hst)) x Hx); auto.
Qed.
Lemma known_weaken (R R' W W' : place -> Prop) s : (forall x, R' x -> R x) -> (forall x, W x -> W' x) ->
  known R W s -> known R' W' s.
Proof.
  intros HR HW [(l & Hr & Hg & Hf & Hl) Hw]. split; [exists l; split_and!; eauto|].
  intros Hrun x Hx. destruct (Hw Hrun x Hx); auto.
Qed.
Lemma known_nothing R W s : known R W s -> known nothing W s.
Proof. apply known_weaken; [by intros x []|done]. Qed.
Lemma known_call R W : call_closed (known R W).
Proof. intros c s. apply known_same; [done|by exists [c]]. Qed.
Hint Resolve known_call : transfers.

Lemma known_durable R W s : known R W s -> durable (left_over s) (tr_disk s).
Proof. intros [(l & ? & ? & ? & _) _]. by exists l. Qed.

(** Changes of the staging names. *)
Lemma known_files (R W W' : place -> Prop) s f :
  (forall x, file (set_staging f (tr_disk s)) x -> file (tr_disk s) x \/ R x) ->
  (forall x, file (set_staging f (tr_disk s)) x -> (file (tr_disk s) x -> W x \/ left_over s x) ->
     W' x \/ left_over s x) ->
  known R W s -> known R W' (set_disk (set_staging f) s).
Proof.
  intros Hf Hw [(l & Hr & Hg & Hfl & HR) Hst]. split; simpl.
  - exists l. split_and!; [done|done| |done]. intros x Hx. destruct (Hf x Hx) as [Hx'|Hx']; [by apply Hfl|auto].
  - intros Hrun x Hx. apply Hw; auto.
Qed.

Lemma journal_added R W s : known R W s -> known R W (add_name journal_temporary s).
Proof.
  apply known_files; unfold file; simpl; set_solver.
Qed.
Lemma name_removed R W at_ s : known R (with_name at_ W) s -> known R W (remove_name at_ s).
Proof.
  apply known_files; unfold file, with_name; simpl.
  - set_solver.
  - intros x [Hx Hj] HW. apply elem_of_difference in Hx as [Hx Hne].
    destruct HW as [[->|HW]|HW]; [done|set_solver|by left|by right].
Qed.
Lemma name_removed_keeps R W at_ s : known R W s -> known R W (remove_name at_ s).
Proof. apply known_files; unfold file; simpl; set_solver. Qed.

Lemma running n c : os_fault n c = None -> ~ stopped n.
Proof. intros Hn Hs. destruct (Hs n c (le_n n)) as (e & He & _). congruence. Qed.
Lemma running_uncertain n c e : os_fault n c = Some e -> is_publication_uncertain e = true -> ~ stopped n.
Proof. intros Hn Hu Hs. destruct (Hs n c (le_n n)) as (e' & He & Hf & _). congruence. Qed.
Lemma running_effect n : os_effect n = true -> ~ stopped n.
Proof. intros Hn Hs. destruct (Hs n CallOpenRoot (le_n n)) as (e' & _ & _ & Hf). congruence. Qed.

(** ** The journal's own staging file *)

Lemma create_journal_known R W : stable (known R W) (create_staging CallStageJournal journal_temporary).
Proof.
  intros s Hs. unfold create_staging. pose proof (known_call R W CallStageJournal s Hs) as H1. unfold call.
  destruct (os_fault _ _); simpl; case_match; simpl; try done; by apply journal_added.
Qed.
Lemma unlink_keeps R W c at_ : stable (known R W) (unlink_with c at_).
Proof.
  intros s Hs. unfold unlink_with. pose proof (known_call R W c s Hs) as H1. unfold call.
  destruct (os_fault _ _); simpl; [case_match|]; simpl; try done; by apply name_removed_keeps.
Qed.
Hint Resolve create_journal_known unlink_keeps : transfers.

(** A staging file that is dropped is gone, its removal was refused, or the process is stopped. *)
Lemma unlink_known R W at_ s : known R (with_name at_ W) s ->
  known R W (unlink_with (CallUnlink at_) at_ s).2.
Proof.
  intros Hs. unfold unlink_with. pose proof (known_call R _ (CallUnlink at_) s Hs) as H1. unfold call.
  destruct (os_fault (tr_calls s) _) as [e|] eqn:E; simpl; [|by apply name_removed].
  destruct (os_effect _) eqn:Ef; simpl; [by apply name_removed|].
  destruct H1 as [H1 H2]. split; [done|]. intros Hrun x Hx.
  destruct (H2 Hrun x Hx) as [[->|HW]|Hl]; [|by left|by right].
  right. right. left. by split_and!; [done|exists e|done|].
Qed.
Lemma drop_known {E} R W at_ s : known R (with_name at_ W) s -> known R W (drop_staged (E := E) at_ s).2.
Proof. apply unlink_known. Qed.
Lemma drop_keeps {E} R W at_ : stable (known R W) (drop_staged (E := E) at_).
Proof. unfold drop_staged. steps. Qed.
Hint Resolve drop_keeps : transfers.

Lemma journal_stored R W l b s : good_list l -> encode_records l = Some b -> ~ stopped (tr_calls s) ->
  (forall x, W x -> names l x) -> known R W s ->
  known (names l) W (set_disk (set_journal b) (next_call CallCommitJournal s)).
Proof.
  intros Hg Hb Hrun HW Hk. pose proof (known_call R W CallCommitJournal s Hk) as [_ Hf]. destruct Hk as [_ Hf0].
  split; [|done]. exists l. split_and!; [exact Hb|done| |done]. intros x Hx.
  destruct (Hf0 Hrun x Hx) as [Hw|Hw]; [left; by apply HW|right]. by eapply (left_over_later s); [exists [CallCommitJournal]|].
Qed.

(** Writing a list that names every staging file. *)
Lemma write_journal_known R W l : good_list l -> (forall x, W x -> names l x) ->
  triple (known R W) (write_journal l) (fun _ => known (names l) W) (fun _ => known nothing W).
Proof.
  intros Hg HW. pose proof (known_nothing R W) as Hn.
  unfold write_journal. destruct (encode_records l) as [b|] eqn:Hb; cbn [ok_or]; [rewrite bind_lift_ok|intros s; apply Hn].
  eapply triple_bind with (fun _ => known R W); [apply triple_weaken; [steps|done]|intros []].
  eapply triple_bind with (fun _ => known R W); [|intros []].
  - intros s Hs. pose proof (transfer_call_stable _ (known_call R W) CallWriteJournal s Hs) as H1.
    destruct (call _ s) as [[[]|e] s1]; simpl in *; [done|].
    by apply Hn, (drop_keeps (E := ProtocolError)).
  - intros s Hs. unfold io, st_map_err, commit_staged, call.
    destruct (os_fault (tr_calls s) CallCommitJournal) as [e|] eqn:E; simpl.
    + destruct (is_publication_uncertain e) eqn:Hu.
      * assert (known (names l) W (set_disk (set_journal b) (next_call CallCommitJournal s))) as H1
          by (apply (journal_stored R); try done; by eapply running_uncertain).
        case_match; simpl; [apply name_removed_keeps|apply (drop_keeps (E := IoError))];
          by eapply known_nothing.
      * apply (drop_keeps (E := IoError)), known_call. by apply Hn.
    + apply name_removed_keeps. apply (journal_stored R); try done. by eapply running.
Qed.

Lemma write_records_known R W l : good_list l -> (forall x, W x -> names l x) ->
  triple (known R W) (write_records l) (fun _ => known (names l) W) (fun _ => known nothing W).
Proof.
  intros Hg HW. unfold write_records.
  do 2 (eapply triple_bind with (fun _ => known R W);
    [apply triple_weaken; [steps|apply known_nothing]|intros []]).
  by apply write_journal_known.
Qed.

(** ** Staging files *)

(** A staging file is created after its name is in the journal. *)
Lemma stage_known W path id mode :
  triple (known (eq (staging_name path id)) W) (stage reserved_name path id mode)
    (fun _ => known nothing (with_name (staging_name path id) W))
    (fun _ => known nothing (with_name (staging_name path id) W)).
Proof.
  set (n := staging_name path id).
  assert (forall s, known (eq n) W s -> known nothing (with_name n W) s) as Hn.
  { intros s. apply known_weaken; [by intros x []|by right]. }
  assert (forall s, known (eq n) W s -> known nothing (with_name n W) (add_name n s)) as Ha.
  { intros s Hs. eapply (known_weaken (eq n) nothing); [by intros x []|done|]. revert Hs.
    apply known_files; unfold file, with_name; simpl; set_solver. }
  unfold stage.
  do 2 (eapply triple_bind with (fun _ => known (eq n) W); [apply triple_weaken; [steps|exact Hn]|intros []]).
  intros s Hs. pose proof (known_call _ _ (CallStage path id) s Hs) as H1. unfold create_staging, call.
  destruct (os_fault _ _); simpl; [case_match|destruct (decide _)]; simpl; first [by apply Ha|by apply Hn].
Qed.

Lemma cleanup_known W path id :
  triple (known nothing (with_name (staging_name path id) W)) (cleanup_staging reserved_name path id)
    (fun _ => known nothing W) (fun _ => known nothing (with_name (staging_name path id) W)).
Proof.
  unfold cleanup_staging. eapply triple_bind with (fun _ => known nothing (with_name (staging_name path id) W));
    [apply triple_weaken; [steps|done]|intros []].
  intros s Hs. pose proof (known_call _ _ (CallCleanup (staging_name path id)) s Hs) as H1. unfold unlink_with, call.
  destruct (os_fault _ _); simpl; [|by apply name_removed]. case_match; [by apply name_removed_keeps|done].
Qed.

(** A publication takes the staging file away, or drops it. *)
Lemma publish_known W path overwrite content n s : known nothing (with_name n W) s ->
  known nothing W (commit_staged (CallPublish path overwrite) n (set_disk (set_published path content)) s).2.
Proof.
  intros Hs. unfold commit_staged, call. pose proof (known_call _ _ (CallPublish path overwrite) s Hs) as H1.
  assert (known nothing (with_name n W) (set_disk (set_published path content) (next_call (CallPublish path overwrite) s))) as H2 by exact H1.
  destruct (os_fault _ _); simpl; [|by apply name_removed].
  case_match; [case_match; simpl; [by apply name_removed|]|]; by apply (drop_known (E := IoError)).
Qed.

(** ** Pending transfers *)

Definition putn (m : gmap string Pending) (x : place) : Prop :=
  exists id entry, m !! id = Some entry /\ is_put entry = true /\ x = staging_name (pd_path entry) id.
Definition good_puts (m : gmap string Pending) : Prop :=
  forall id entry, m !! id = Some entry -> is_put entry = true -> good_record (pd_path entry, id).

Lemma put_records_elem m r : r ∈ put_records m <->
  exists id entry, m !! id = Some entry /\ is_put entry = true /\ r = (pd_path entry, id).
Proof.
  unfold put_records. rewrite list_elem_of_fmap. split.
  - intros ([id e] & -> & [Hin Hp]%filter_elem). rewrite order_complete, elem_of_map_to_list in Hin. eauto.
  - intros (id & e & He & Hp & ->). exists (id, e). split; [done|]. apply filter_elem.
    by rewrite order_complete, elem_of_map_to_list.
Qed.
Lemma put_records_names m x : putn m x <-> names (put_records m) x.
Proof.
  split.
  - intros (id & e & He & Hp & ->). exists (pd_path e, id). split; [|done]. apply put_records_elem. eauto.
  - intros (r & (id & e & He & Hp & ->)%put_records_elem & ->). exists id, e. by split_and!.
Qed.
Lemma put_records_length m : (length (put_records m) <= size m)%nat.
Proof.
  unfold put_records. rewrite length_fmap. etrans; [apply length_filterb|]. by rewrite order_complete, length_map_to_list.
Qed.
Lemma put_records_good m : good_puts m -> Z.of_nat (size m) <= MACHINE_TRANSFER_MAX_ACTIVE ->
  good_list (put_records m).
Proof.
  intros Hm Hn. split.
  - apply Forall_forall. intros r (id & e & He & Hp & ->)%put_records_elem. by apply Hm.
  - pose proof (put_records_length m). lia.
Qed.

(** The registry and the flags, and what is known of the disk. *)
Definition at_state (m : gmap string Pending) (f : bool * bool) (s : Transfers) : Prop :=
  tr_pending s = m /\ flags s = f.
Definition held m f R W (s : Transfers) : Prop := at_state m f s /\ known R W s.

Lemma at_state_world m f : world_only (at_state m f).
Proof. intros s s' He Hf [H1 H2]. injection He as _ _ _ Hp _. unfold at_state. by rewrite Hp, Hf. Qed.
Hint Resolve at_state_world : transfers.

Lemma triple_held {A E} m f R W (p : StM Transfers A E) (Q : A -> Transfers -> Prop) (X : E -> Transfers -> Prop) :
  triple (known R W) p Q X -> stable (at_state m f) p ->
  triple (held m f R W) p (fun a s => at_state m f s /\ Q a s) (fun e s => at_state m f s /\ X e s).
Proof.
  intros Ht Hs s [H1 H2]. specialize (Ht s H2). specialize (Hs s H1). by destruct (p s) as [[] ?].
Qed.
Lemma held_call m f R W : call_closed (held m f R W).
Proof. intros c s [H1 H2]. split; [done|by apply known_call]. Qed.
Hint Resolve held_call : transfers.

(** ** Recovery *)

Definition anything (x : place) : Prop := True.
Lemma known_anything R W s : known R W s -> known nothing anything s.
Proof. by apply known_weaken; [intros x []|]. Qed.
Lemma durable_known s : durable old (tr_disk s) -> known nothing anything s.
Proof.
  intros (l & Hr & Hg & Hf). split; [|by left]. exists l. split_and!; [done|done| |by intros x []].
  intros x Hx. destruct (Hf x Hx); [by left|by right; left].
Qed.

(** What the journal says is what was written, and it names every staging file. *)
Lemma read_records_known :
  triple (known nothing anything) read_records
    (fun l s => good_list l /\ known nothing (names l) s) (fun _ => known nothing anything).
Proof.
  intros s Hs. unfold read_records. pose proof (known_call _ _ CallReadJournal s Hs) as H1. unfold call at 1.
  destruct (os_fault (tr_calls s) CallReadJournal) as [e|] eqn:E.
  { rewrite bool_decide_false; [done|]. by eapply journal_found. }
  destruct H1 as [(l & Hr & Hg & Hf & HR) Hw]. unfold reads in Hr.
  assert (forall k, known nothing (names l) (foldr next_call (next_call CallReadJournal s) k)) as Hk.
  { intros k. assert (known nothing (names l) (next_call CallReadJournal s)) as H1 by (split; [by exists l|by intros _]).
    induction k as [|c k IH]; [done|by apply known_call]. }
  simpl. simpl in Hr. destruct (td_journal (tr_disk s)) as [b|]; [|subst l; by split; [|apply (Hk [])]].
  unfold st_bind, io, st_map_err, call. destruct (os_fault _ CallReadBytes); simpl; [by apply (known_anything nothing (names l)), (Hk [CallReadBytes])|].
  rewrite (good_fits l b Hg Hr), (records_roundtrip l b Hr). simpl. by split; [|apply (Hk [CallReadBytes])].
Qed.

Lemma sweep_known l : Forall good_record l ->
  triple (known nothing (names l)) (sweep reserved_name l) (fun _ => known nothing nothing)
    (fun _ => known nothing anything).
Proof.
  induction 1 as [|[path id] l [Hr Hid] Hl IH]; cbn [sweep].
  { intros s. apply known_weaken; [by intros x []|]. intros x (r & Hr%elem_of_nil & _). done. }
  eapply triple_bind with (fun _ => known nothing (names l)); [|by intros []].
  unfold sweep_one. simpl in Hr, Hid. rewrite Hid, Hr. cbn [negb map_err]. rewrite bind_lift_ok.
  intros s Hs. assert (known nothing (with_name (staging_name path id) (names l)) s) as H1.
  { revert Hs. apply known_weaken; [done|]. intros x (r & [->|Hin]%elem_of_cons & ->); [by left|]. right. by exists r. }
  apply cleanup_known in H1. unfold io, st_map_err.
  destruct (cleanup_staging _ _ _ s) as [[] s']; [done|by eapply known_anything].
Qed.

Lemma good_nil : good_list [].
Proof. by split. Qed.

Lemma recovery_known :
  triple (known nothing anything) (recover_once reserved_name)
    (fun _ => known nothing nothing) (fun _ => known nothing anything).
Proof.
  unfold recover_once.
  do 4 (eapply triple_bind with (fun _ => known nothing anything); [apply triple_weaken; [steps|done]|intros []]).
  eapply triple_bind; [apply read_records_known|]. intros l s [Hg Hs].
  destruct (_ <? _); [by eapply known_anything|].
  assert (known nothing (names l) s) as Hs' by done. clear Hs. revert s Hs'.
  match goal with |- forall s, _ -> match ?m s with _ => _ end =>
    change (triple (known nothing (names l)) m (fun _ => known nothing nothing) (fun _ => known nothing anything)) end.
  eapply triple_bind; [apply sweep_known, Hg|intros []].
  eapply triple_bind with (fun _ => known (names []) nothing); [|intros []].
  - eapply triple_conseq; [apply (write_journal_known nothing nothing []); [apply good_nil|by intros x []]|done|done|].
    intros e s. apply known_anything.
  - intros s Hs. simpl. by apply known_nothing in Hs.
Qed.

(** ** The invariant of a running Controller *)

Definition live (s : Transfers) : Prop := flags s = (true, false).
(** A Controller that recovered and can still clean up knows every staging file as a put. *)
Definition kept (s : Transfers) : Prop :=
  known nothing (fun x => live s -> putn (tr_pending s) x) s /\ good_puts (tr_pending s).

Lemma held_kept m f s : held m f nothing (putn m) s -> good_puts m -> kept s.
Proof.
  intros [[<- _] Hk] Hg. split; [|done]. revert Hk. by apply known_weaken.
Qed.
Lemma kept_not_live m f R W s : held m f R W s -> f <> (true, false) -> good_puts m -> kept s.
Proof.
  intros [[<- Hf] Hk] Hne Hg. split; [|done]. revert Hk. apply known_weaken; [by intros x []|].
  intros x _ Hl. unfold live in Hl. congruence.
Qed.

Lemma recovery_state m :
  triple (at_state m (false, false)) (recover_once reserved_name)
    (fun _ => at_state m (true, false)) (fun _ => at_state m (false, false)).
Proof.
  unfold recover_once.
  do 4 (eapply triple_bind with (fun _ => at_state m (false, false)); [apply triple_weaken; [steps|done]|intros []]).
  eapply triple_bind with (fun _ => at_state m (false, false)); [apply triple_weaken; [steps|done]|intros l].
  destruct (_ <? _); [by intros s|].
  do 2 (eapply triple_bind with (fun _ => at_state m (false, false)); [apply triple_weaken; [steps|done]|intros []]).
  intros s [Hp Hf]. split; [done|]. unfold flags in *. simpl. by injection Hf as _ ->.
Qed.

Lemma recover_kept s : kept s -> tr_recovery_write_failed s = false ->
  match recover_staging reserved_name s with
  | (Ok _, s') => held (tr_pending s) (true, false) nothing (putn (tr_pending s)) s'
  | (Err _, s') => kept s'
  end.
Proof.
  intros [Hk Hg] Hf. unfold recover_staging, st_bind at 1, get.
  destruct (tr_recovered s) eqn:Hr.
  { split; [by unfold at_state, flags; rewrite Hr, Hf|]. revert Hk. apply known_weaken; [done|].
    intros x Hx. apply Hx. unfold live, flags. by rewrite Hr, Hf. }
  apply known_anything in Hk. pose proof (recovery_known s Hk) as H1.
  assert (at_state (tr_pending s) (false, false) s) as Hs by (by unfold at_state, flags; rewrite Hr, Hf).
  apply recovery_state in Hs. destruct (recover_once reserved_name s) as [[[]|e] s'].
  - split; [done|]. revert H1. apply known_weaken; [done|by intros x []].
  - by eapply kept_not_live.
Qed.

(** ** Requests on a transfer *)

Definition with_entry (id : string) (e : Pending) (m : gmap string Pending) (x : place) : Prop :=
  (is_put e = true /\ x = staging_name (pd_path e) id) \/ putn m x.
Definition same_place (e e' : Pending) : Prop := is_put e' = is_put e /\ pd_path e' = pd_path e.

(** Out of the registry, the staging file of the transfer may still be there. *)
Definition out (id : string) (e : Pending) m f : Transfers -> Prop := held m f nothing (with_entry id e m).

Lemma taken_out id e e' m f s : m !! id = Some e -> same_place e e' -> held m f nothing (putn m) s ->
  out id e' (delete id m) f (set_pending (delete id) s).
Proof.
  intros He [Hput Hpath] [[Hp Hf] Hk]. split; [split; [simpl; by rewrite Hp|done]|].
  apply (known_same _ _ s); [done|by exists []|]. revert Hk. apply known_weaken; [done|].
  intros x (id' & e1 & He1 & Hput1 & ->). destruct (decide (id' = id)) as [->|Hne].
  - left. rewrite Hput, Hpath. by simplify_eq.
  - right. exists id', e1. by rewrite lookup_delete_ne.
Qed.

Lemma good_delete id m : good_puts m -> good_puts (delete id m).
Proof. intros Hm k e [_ He]%lookup_delete_Some. by apply Hm. Qed.

Lemma drop_entry_held {E} id e m f s : out id e m f s ->
  held m f nothing (putn m) (drop_entry (E := E) id e s).2.
Proof.
  intros [Ha Hk]. split; [by apply drop_entry_stable; [auto with transfers|]|].
  unfold drop_entry. destruct (is_put e) eqn:Hput.
  - apply drop_known. revert Hk. apply known_weaken; [done|].
    intros x [[_ ->]|Hx]; [by left|by right].
  - simpl. revert Hk. apply known_weaken; [done|]. intros x [[? _]|Hx]; congruence || done.
Qed.

Lemma publish_at_state m f c at_ g : stable (at_state m f) (commit_staged c at_ (set_disk g)).
Proof.
  intros s Hs. unfold commit_staged. pose proof (transfer_call_stable (at_state m f) (world_call _ (at_state_world m f)) c s Hs) as H1.
  destruct (call c s) as [[[]|e] s1]; simpl in H1; [done|].
  case_match; [case_match; [done|]|]; by apply (transfer_drop_staged_stable (E := IoError) _ (at_state_world m f)).
Qed.

Section OnEntry.
Context (id : string) (e0 e : Pending) (m : gmap string Pending) (f : bool * bool).
Context (Hm : good_puts m) (Hin : m !! id = Some e0) (Hplace : same_place e0 e).
Let m' := delete id m.

Lemma dropped_kept s {A} (r : Result A ProtocolError) : out id e m' f s ->
  kept (drop_entry (E := ProtocolError) id e s).2.
Proof. intros Hs. eapply held_kept; [by apply drop_entry_held|by apply good_delete]. Qed.

Lemma drop_then_kept s error : out id e m' f s ->
  kept ((drop_entry id e ;! (st_throw error : T Answer)) s).2.
Proof.
  intros Hs. unfold st_bind. apply (dropped_kept s (Ok tt)) in Hs. by destruct (drop_entry _ _ s) as [[[]|] ?].
Qed.

Lemma keep_kept p s :
  triple (out id e m' f) p (fun r s => out id e m' f s /\ same_place e r.2) (fun _ => out id e m' f) ->
  out id e m' f s -> kept (keep id e p s).2.
Proof.
  intros Hp Hs. specialize (Hp s Hs). unfold keep. destruct (p s) as [[[a e']|error] s1]; [|by apply drop_then_kept].
  destruct Hp as [[[Hpd Hf] Hk] [Hput Hpath]], Hplace as [Hput0 Hpath0]. simpl in *. split; simpl; rewrite Hpd; unfold m'; rewrite insert_delete_eq.
  - apply (known_same _ _ s1); [done|by exists []|]. revert Hk. apply known_weaken; [done|].
    intros x Hx _. destruct Hx as [[Hx ->]|(k & e1 & He1 & Hp1 & ->)].
    + exists id, e'. rewrite lookup_insert_eq. split_and!; [done|congruence|by rewrite Hpath].
    + apply lookup_delete_Some in He1 as [Hne He1]. exists k, e1. by rewrite lookup_insert_ne.
  - intros k e1. rewrite lookup_insert_Some. intros [[<- <-]|[_ He1]] Hp1; [|by apply Hm].
    rewrite Hpath, Hpath0. apply Hm; [done|congruence].
Qed.

Lemma finally_kept p s : stable (out id e m' f) p -> out id e m' f s -> kept (finally_drop id e p s).2.
Proof.
  intros Hp Hs. specialize (Hp s Hs). unfold finally_drop. destruct (p s) as [r s1]. simpl in *.
  by apply (dropped_kept s1 r).
Qed.

Lemma put_finish_kept size sha256 s : out id e m' f s ->
  kept (put_finish reserved_name id e size sha256 s).2.
Proof.
  assert (call_closed (out id e m' f)) as Hc by apply held_call.
  intros Hs. unfold put_finish.
  assert (stable (out id e m' f) (put_verify reserved_name e size sha256)) as Hv by (unfold put_verify; steps).
  assert (forall r, (put_verify reserved_name e size sha256 s).1 = Ok r -> is_put e = true) as Hput.
  { unfold put_verify, is_put. intros r. by destruct (pd_direction e). }
  specialize (Hv s Hs). destruct (put_verify _ _ _ _ s) as [[[staged overwrite]|error] s1]; [|by apply drop_then_kept].
  specialize (Hput _ eq_refl). simpl in Hv. destruct Hv as [Ha Hk].
  pose proof (publish_at_state m' f (CallPublish (pd_path e) overwrite) (staging_name (pd_path e) id)
    (set_published (pd_path e) staged) s1 Ha) as H1.
  assert (known nothing (with_name (staging_name (pd_path e) id) (putn m')) s1) as H2.
  { revert Hk. apply known_weaken; [done|]. intros x [[_ ->]|Hx]; [by left|by right]. }
  apply (publish_known _ (pd_path e) overwrite staged) in H2.
  unfold io, st_bind, st_map_err. destruct (commit_staged _ _ _ s1) as [[[]|e1] s2]; simpl in *;
    (eapply held_kept; [by split|by apply good_delete]).
Qed.

(** A chunk leaves the transfer where it is. *)
Lemma put_chunk_place P offset content : call_closed P ->
  triple P (put_chunk e offset content) (fun r s => P s /\ same_place e r.2) (fun _ => P).
Proof.
  intros HP. unfold put_chunk. repeat (case_match; [by intros s|]).
  destruct (base64_decode content) as [data|]; cbn [ok_or]; [rewrite bind_lift_ok|by intros s].
  case_match; [by intros s|]. destruct (pd_direction e) eqn:Hd; [|by intros s].
  eapply triple_bind with (fun _ => P); [apply triple_weaken; [steps|done]|intros []].
  intros s Hs. split; [done|]. split; [|done]. unfold is_put. simpl. by rewrite Hd.
Qed.
Lemma get_chunk_place P offset : call_closed P ->
  triple P (get_chunk e offset) (fun r s => P s /\ same_place e r.2) (fun _ => P).
Proof.
  intros HP. unfold get_chunk. case_match; [by intros s|]. destruct (pd_direction e) eqn:Hd; [by intros s|].
  eapply triple_bind with (fun _ => P); [apply triple_weaken; [steps|done]|intros data].
  case_match; [by intros s|]. intros s Hs. split; [done|]. split; [|done]. unfold is_put. simpl. by rewrite Hd.
Qed.

Lemma run_request_kept request s : request_id request = Some id -> out id e m' f s ->
  kept (run_request reserved_name id e request s).2.
Proof.
  intros Hid. assert (call_closed (out id e m' f)) as Hc by apply held_call.
  destruct request; try done; injection Hid as ->; cbn [run_request].
  - by apply keep_kept, put_chunk_place.
  - by apply keep_kept, get_chunk_place.
  - by apply put_finish_kept.
  - apply finally_kept. unfold get_finish. steps.
  - apply finally_kept. unfold abort_transfer. steps.
Qed.
End OnEntry.

Lemma on_transfer_kept actor path request id now m f s : request_id request = Some id ->
  good_puts m -> held m f nothing (putn m) s ->
  kept (on_transfer reserved_name actor path request id now s).2.
Proof.
  intros Hid Hm Hs. assert (kept s) as Hk by by eapply held_kept.
  unfold on_transfer, st_bind at 1, get. destruct (tr_pending s !! id) as [entry|] eqn:He; [|done].
  destruct (_ || _); [done|]. destruct Hs as [[Hp Hf] Hkn]. rewrite Hp in He.
  apply (run_request_kept id entry (touch now entry) m f); try done.
  by apply (taken_out id entry); [done|done|split; [split|]].
Qed.

(** ** Beginning *)

Section OnBegin.
Context (m : gmap string Pending) (f : bool * bool).
Context (Hm : good_puts m) (Hsize : Z.of_nat (size m) < MACHINE_TRANSFER_MAX_ACTIVE).
Notation here := (held m f nothing (putn m)).

Lemma here_kept s : here s -> kept s.
Proof. intros Hs. by eapply held_kept. Qed.
Hint Resolve here_kept : transfers.

Lemma here_call : call_closed here.
Proof. apply held_call. Qed.
Hint Resolve here_call : transfers.

Lemma within_ok path : within reserved_name path = Ok tt -> is_reserved_namespace reserved_name path = Ok false.
Proof. unfold within. destruct (is_reserved_namespace _ _) as [[]|]; done. Qed.

Lemma record_staging_known path id : good_record (path, id) ->
  triple here (record_staging path id) (fun _ => held m f (eq (staging_name path id)) (putn m)) (fun _ => here).
Proof.
  intros Hr s Hs. unfold record_staging, st_bind at 1, get. pose proof Hs as [[-> _] _].
  assert (good_list (put_records m ++ [(path, id)])) as Hg.
  { split; [apply Forall_app; split; [by apply put_records_good; [|lia]|by apply Forall_singleton]|].
    rewrite length_app. simpl. pose proof (put_records_length m). lia. }
  assert (forall x, putn m x -> names (put_records m ++ [(path, id)]) x) as HW.
  { intros x (r & Hin & ->)%put_records_names. exists r. set_solver. }
  pose proof (triple_held m f _ _ _ _ _ (write_records_known nothing (putn m) _ Hg HW)
    ltac:(by apply write_records_stable; auto with transfers) s Hs) as H1.
  destruct (write_records _ s) as [[[]|e] s']; destruct H1 as [H1 H2]; (split; [done|]); [|done].
  revert H2. apply known_weaken; [|done]. intros x <-. exists (path, id). set_solver.
Qed.

(** A staging file that could not be created: the intent is taken back, or the Controller stops
    writing the journal. *)
Lemma failed_intent_kept path id s :
  held m f nothing (with_name (staging_name path id) (putn m)) s ->
  kept (remove_failed_stage_intent reserved_name path id s).2.
Proof.
  intros Hs. unfold remove_failed_stage_intent.
  assert (triple (held m f nothing (with_name (staging_name path id) (putn m)))
    (io (cleanup_staging reserved_name path id) ;! persist_pending)
    (fun _ => here) (fun _ s => at_state m f s /\ known nothing anything s)) as Ht.
  { eapply triple_bind with (fun _ => here); [|intros []].
    - intros s1 H1. pose proof (triple_held m f _ _ _ _ _ (cleanup_known (putn m) path id)
        ltac:(by apply transfer_cleanup_stable; auto with transfers) s1 H1) as H2. unfold io, st_map_err.
      destruct (cleanup_staging _ _ _ s1) as [[[]|e] s2]; [done|].
      destruct H2 as [H2 H3]. split; [done|by eapply known_anything].
    - intros s1 H1. unfold persist_pending, st_bind at 1, get. pose proof H1 as [[-> _] _].
      assert (good_list (put_records m)) as Hg by (apply put_records_good; [done|lia]).
      pose proof (triple_held m f _ _ _ _ _ (write_records_known nothing (putn m) _ Hg
        (fun x => proj1 (put_records_names m x))) ltac:(by apply write_records_stable; auto with transfers) s1 H1) as H2.
      destruct (write_records _ s1) as [[[]|e] s2]; destruct H2 as [H2 H3]; (split; [done|]).
      + by eapply known_nothing.
      + by eapply known_anything. }
  specialize (Ht s Hs). destruct ((_ ;! _) s) as [[[]|e] s1]; [by apply here_kept|].
  destruct Ht as [[Hp Hf] Hk]. simpl. split; [|by rewrite <- Hp in Hm].
  apply (known_same _ _ s1); [done|done|]. revert Hk. apply known_weaken; [done|].
  intros x _ [=].
Qed.

Lemma stage_kept path id mode :
  triple (held m f (eq (staging_name path id)) (putn m))
    (fun s => match stage reserved_name path id mode s with
      | (Ok _, s') => (Ok tt, s')
      | (Err error, s') =>
          (remove_failed_stage_intent reserved_name path id ;! st_throw (A := unit) (io_failure error)) s'
      end)
    (fun _ => held m f nothing (with_name (staging_name path id) (putn m))) (fun _ => kept).
Proof.
  intros s Hs. pose proof (triple_held m f _ _ _ _ _ (stage_known (putn m) path id mode)
    ltac:(by apply stage_stable; auto with transfers) s Hs) as H1.
  destruct (stage _ _ _ _ s) as [[[]|e] s1]; [done|].
  apply failed_intent_kept in H1. unfold st_bind. by destruct (remove_failed_stage_intent _ _ _ s1) as [[[]|] ?].
Qed.

Lemma insert_put_kept path id e s : pd_path e = path -> is_put e = true -> m !! id = None ->
  good_record (path, id) ->
  held m f nothing (with_name (staging_name path id) (putn m)) s -> kept (set_pending <[id := e]> s).
Proof.
  intros <- Hput Hid Hr [[Hp Hf] Hk]. split; simpl; rewrite Hp.
  - apply (known_same _ _ s); [done|by exists []|]. revert Hk. apply known_weaken; [done|].
    intros x [->|(k & e1 & He1 & Hp1 & ->)] _.
    + exists id, e. by rewrite lookup_insert_eq.
    + exists k, e1. rewrite lookup_insert_ne by congruence. done.
  - intros k e1. rewrite lookup_insert_Some. intros [[<- <-]|[_ He1]] Hp1; [done|by apply Hm].
Qed.

Lemma transfer_begin_quiet {A} P (p : T A) (k : A -> T Answer) X : (forall s, P s -> X s) -> stable P p ->
  (forall a, triple P (k a) (fun _ => X) (fun _ => X)) -> triple P (st_bind p k) (fun _ => X) (fun _ => X).
Proof. intros HX Hp Hk. eapply triple_bind with (fun _ => P); [by apply triple_weaken|done]. Qed.

Lemma put_begin_kept actor path overwrite mode size limit id now : m !! id = None -> recovery_id id = true ->
  triple here (put_begin reserved_name actor path overwrite mode size limit id now) (fun _ => kept) (fun _ => kept).
Proof.
  intros Hid Hrid. unfold put_begin. apply transfer_begin_quiet; [auto with transfers|steps|intros s0].
  case_match; [intros s; apply here_kept|]. apply transfer_begin_quiet; [auto with transfers|steps|intros _].
  destruct (within reserved_name path) as [[]|e] eqn:Hw; [|intros s; apply here_kept].
  change (io (st_lift (Ok tt))) with (@st_lift Transfers unit ProtocolError (Ok tt)). rewrite bind_lift_ok.
  assert (good_record (path, id)) as Hr by (split; [by apply within_ok|done]).
  do 2 (apply transfer_begin_quiet; [auto with transfers|steps|intros ?]).
  case_match; [intros s; apply here_kept|].
  eapply triple_bind; [eapply triple_conseq; [by apply record_staging_known|done|done|intros ?; apply here_kept]|intros []].
  eapply triple_bind; [apply stage_kept|intros []].
  intros s Hs. by apply (insert_put_kept path id).
Qed.

Lemma get_begin_kept actor path limit id now : m !! id = None ->
  triple here (get_begin reserved_name actor path limit id now) (fun _ => kept) (fun _ => kept).
Proof.
  intros Hid. unfold get_begin. do 5 (apply transfer_begin_quiet; [auto with transfers|steps|intros ?]).
  case_match; [intros s; apply here_kept|]. intros s [[Hp Hf] Hk]. simpl. split; simpl; rewrite Hp.
  - apply (known_same _ _ s); [done|by exists []|]. revert Hk. apply known_weaken; [done|].
    intros x (k & e1 & He1 & Hp1 & ->) _. exists k, e1. by rewrite lookup_insert_ne by congruence.
  - intros k e1. rewrite lookup_insert_Some. intros [[<- <-]|[_ He1]] Hp1; [done|by apply Hm].
Qed.
End OnBegin.

(** ** Ending without a request *)

Definition with_entries (l : list (string * Pending)) (W : place -> Prop) (x : place) : Prop :=
  (exists id e, (id, e) ∈ l /\ is_put e = true /\ x = staging_name (pd_path e) id) \/ W x.

Lemma drop_entries_known W l s : known nothing (with_entries l W) s -> known nothing W (drop_entries l s).2.
Proof.
  revert s. induction l as [|[id e] l IH]; intros s Hs; cbn [drop_entries].
  - simpl. revert Hs. apply known_weaken; [done|]. intros x [(id & e & []%elem_of_nil & _)|Hx]. done.
  - assert (known nothing (with_entries l W) (drop_entry (E := ProtocolError) id e s).2) as H1.
    { unfold drop_entry. destruct (is_put e) eqn:Hput.
      - apply drop_known. revert Hs. apply known_weaken; [done|].
        intros x [(k & e1 & [[= -> ->]|Hin]%elem_of_cons & Hp1 & ->)|Hx]; [by left|right; left; eauto|by right; right].
      - simpl. revert Hs. apply known_weaken; [done|].
        intros x [(k & e1 & [[= -> ->]|Hin]%elem_of_cons & Hp1 & ->)|Hx]; [congruence|left; eauto|by right]. }
    unfold st_bind. destruct (drop_entry _ _ s) as [[[]|e1] s1] eqn:E; [by apply IH|].
    exfalso. revert E. unfold drop_entry, drop_staged, ignore. by destruct (is_put e).
Qed.

(** Entries leave the registry and are dropped; what stays was there. *)
Lemma leave_kept s m' l g : kept s -> m' ⊆ tr_pending s ->
  (forall id e, tr_pending s !! id = Some e -> m' !! id = Some e \/ (id, e) ∈ l) ->
  kept (drop_entries l (set_pending (fun _ => m') (set_generation g s))).2.
Proof.
  intros [Hk Hg] Hsub Hall. set (s1 := set_pending (fun _ => m') (set_generation g s)).
  assert (known nothing (with_entries l (fun x => live s -> putn m' x)) s1) as H1.
  { apply (known_same _ _ s); [done|by exists []|].
    destruct (decide (flags s = (true, false))) as [Hl|Hl].
    - revert Hk. apply known_weaken; [done|]. intros x Hx.
      destruct (Hx Hl) as (id & e & He & Hp & ->). destruct (Hall id e He) as [Hin|Hin].
      + right. intros _. by exists id, e.
      + left. by exists id, e.
    - revert Hk. apply known_weaken; [done|]. intros x _. by right. }
  apply drop_entries_known in H1.
  pose proof (drop_entries_stable (at_state m' (flags s)) (at_state_world _ _) l s1 (conj eq_refl eq_refl)) as [Hp Hf].
  split.
  - revert H1. apply known_weaken; [done|]. intros x Hx Hl. rewrite Hp. apply Hx. unfold live in *. congruence.
  - rewrite Hp. intros id e He. apply Hg. by eapply lookup_weaken.
Qed.

Lemma clear_kept s : kept s -> kept (clear s).2.
Proof.
  intros Hs. unfold clear, st_bind, get, modify. cbn [fst snd].
  apply (leave_kept s ∅); [done|apply map_empty_subseteq|].
  intros id e He. right. by rewrite order_complete, elem_of_map_to_list.
Qed.

Lemma expire_kept locked now s : kept s -> kept (expire locked now s).2.
Proof.
  intros Hs. unfold expire. destruct locked; [done|]. unfold st_bind, get, modify. cbn [fst snd].
  set (m' := filter (fun e : string * Pending => kept_by_expire now e.2 = true) (tr_pending s)).
  replace (set_pending (filter (fun e : string * Pending => kept_by_expire now e.2 = true)) s)
    with (set_pending (fun _ => m') (set_generation (tr_generation s) s)) by (by destruct s).
  apply leave_kept; [done|apply map_filter_subseteq|]. intros id e He. subst m'.
  destruct (kept_by_expire now e) eqn:Hk.
  - left. by apply map_lookup_filter_Some.
  - right. apply filter_elem. rewrite order_complete, elem_of_map_to_list. simpl. by rewrite Hk.
Qed.

(** ** Every step *)

Lemma execute_kept generation actor path request fresh now s :
  kept s -> tr_pending s !! fresh = None -> recovery_id fresh = true ->
  kept (execute_locked reserved_name generation actor path request fresh now s).2.
Proof.
  intros Hs Hfresh Hid. unfold execute_locked, st_bind at 1, get. destruct (negb _); [done|].
  destruct (tr_recovery_write_failed s) eqn:Hf; [done|]. unfold st_bind at 1.
  pose proof (recover_kept s Hs Hf) as H1. destruct Hs as [_ Hg].
  destruct (recover_staging reserved_name s) as [[[]|e] s1]; [|done].
  set (m := tr_pending s) in *. assert (kept s1) as H2 by by eapply held_kept.
  destruct request; try by eapply on_transfer_kept.
  all: destruct (check_begin s actor path _) as [[]|e] eqn:Hc; [rewrite bind_lift_ok|done].
  all: apply check_begin_ok in Hc as (-> & Hn & _).
  - match goal with |- kept (?p s1).2 => apply (triple_run (held m (true, false) nothing (putn m)) kept p s1); [|exact H1] end. by apply put_begin_kept.
  - match goal with |- kept (?p s1).2 => apply (triple_run (held m (true, false) nothing (putn m)) kept p s1); [|exact H1] end. by apply get_begin_kept.
Qed.

Lemma start_kept workspace_id protected limit disk : durable old disk ->
  kept (transfers_new workspace_id protected limit disk).
Proof.
  intros Hd. split; [|intros id e He; simpl in He; by rewrite lookup_empty in He].
  apply (durable_known (transfers_new workspace_id protected limit disk)) in Hd. revert Hd.
  apply known_weaken; [done|]. by intros x _ [=].
Qed.

Lemma reachable_kept workspace_id protected limit disk x : durable old disk ->
  reachable reserved_name (transfers_start workspace_id protected limit disk) x -> kept x.1.
Proof.
  intros Hd Hx. cut (kept x.1 /\ runs_fine x); [by intros []|].
  eapply (rtc_ind_r (fun x => kept x.1 /\ runs_fine x)); [|clear x Hx|exact Hx].
  { split; [by apply start_kept|apply start_fine]. }
  intros x y Hr Hstep [Hk Hs]. assert (runs_fine y) as Hy by (by eapply reachable_fine, rtc_r).
  split; [|done]. destruct Hstep as [generation actor path request fresh now s tr r s' _ Hwf Hid Hf E|locked now s tr|s tr]; simpl in *.
  - replace s' with (execute_locked reserved_name generation actor path request fresh now s).2 by by rewrite E.
    apply execute_kept; [done| |done]. destruct (tr_pending s !! fresh) eqn:He; [|done].
    destruct Hs as [H1 _ _ _]. apply H1 in He as (_ & _ & Hi). simpl in Hi. apply not_issued in Hf. congruence.
  - by apply expire_kept.
  - by apply clear_kept.
Qed.
End System.

(** ** Controllers that stop *)

(** The disks that a series of Controllers leaves, each stopped at any moment, with the places whose
    removal one of them was refused. *)
Inductive disk_after : (place -> Prop) -> TransferDisk -> Prop :=
| disk_first published : disk_after nothing (mkTransferDisk None ∅ published)
| disk_next (OS : TransferOs) (OL : TransferOsLaws) (CR : TransferCrashLaws) workspace_id protected limit old disk s tr :
    disk_after old disk ->
    reachable reserved_name (transfers_start workspace_id protected limit disk) (s, tr) ->
    disk_after (left_over old s) (tr_disk s).

Lemma disk_after_durable old disk : disk_after old disk -> durable old disk.
Proof.
  induction 1 as [published|OS OL CR workspace_id protected limit old disk s tr _ IH Hr].
  - exists []. split_and!; [done|apply good_nil|]. by intros x [?%elem_of_empty _].
  - apply (reachable_kept old) in Hr; [|done]. destruct Hr as [Hk _]. by eapply known_durable.
Qed.

(** ** The next Controller *)

Section Sweep.
Context {OS : TransferOs} (Hsound : forall n c, os_fault n c = None).

Lemma sound_call c s : call c s = (Ok tt, next_call c s).
Proof. unfold call. by rewrite Hsound. Qed.
Lemma sound_laws : TransferCrashLaws.
Proof. split; intros n e. by rewrite Hsound. Qed.

Lemma sound_refused log x : ~ refused log x.
Proof. induction log as [|c log IH]; [by intros []|]. intros [(_ & [e He] & _)|?]; [|done]. by rewrite Hsound in He. Qed.

(** The program succeeds and leaves the disk alone. *)
Definition harmless {A} (p : T A) : Prop := forall s, exists a s', p s = (Ok a, s') /\ tr_disk s' = tr_disk s.
Lemma harmless_bind {A B} (p : T A) (k : A -> T B) : harmless p -> (forall a, harmless (k a)) -> harmless (st_bind p k).
Proof.
  intros Hp Hk s. destruct (Hp s) as (a & s1 & E1 & H1), (Hk a s1) as (b & s2 & E2 & H2).
  exists b, s2. unfold st_bind. by rewrite E1, E2, H2.
Qed.
Lemma harmless_ret {A} (a : A) : harmless (st_ret a).
Proof. intros s. by exists a, s. Qed.
Lemma harmless_call c : harmless (io (call c)).
Proof. intros s. exists tt, (next_call c s). unfold io, st_map_err. by rewrite sound_call. Qed.

Lemma open_root_harmless : harmless open_root.
Proof.
  unfold open_root. intros s. unfold st_bind at 1, get.
  match goal with |- exists a s', ?p s = _ /\ _ => cut (harmless p); [intros Hh; apply Hh|] end.
  apply harmless_bind; [|intros _; apply harmless_bind; [apply harmless_call|intros _]].
  - induction (tr_protected s) as [|path l IH]; cbn [open_protected_all]; [apply harmless_ret|].
    apply harmless_bind; [|by intros _]. intros s1. exists tt, (next_call (CallOpenProtected path) s1). by rewrite sound_call.
  - induction (tr_protected s) as [|path l IH]; cbn [reserve_all]; [apply harmless_ret|].
    apply harmless_bind; [case_match; [apply harmless_ret|apply harmless_call]|intros _].
    apply harmless_bind; [apply harmless_call|by intros _].
Qed.

Lemma sound_read old s : durable old (tr_disk s) ->
  exists l s', read_records s = (Ok l, s') /\ good_list l /\ tr_disk s' = tr_disk s.
Proof.
  intros (l & Hr & Hg & _). unfold read_records. rewrite sound_call. simpl. unfold reads in Hr.
  destruct (td_journal (tr_disk s)) as [b|]; [|exists [], (next_call CallReadJournal s); by split_and!; [|apply good_nil|]].
  exists l, (next_call CallReadBytes (next_call CallReadJournal s)). unfold st_bind, io, st_map_err. rewrite sound_call.
  by rewrite (good_fits l b Hg Hr), (records_roundtrip l b Hr).
Qed.

(** The journal's own staging file is not there. *)
Definition no_temporary (s : Transfers) : Prop := journal_temporary ∉ td_staging (tr_disk s).

Lemma sound_sweep l s : Forall good_record l -> no_temporary s ->
  exists s', sweep reserved_name l s = (Ok tt, s') /\ no_temporary s'.
Proof.
  intros Hl. revert s. induction Hl as [|[path id] l [Hr Hid] _ IH]; intros s Hs; cbn [sweep]; [by exists s|].
  unfold st_bind, sweep_one. simpl in Hr, Hid. rewrite Hid, Hr. cbn [negb map_err]. rewrite bind_lift_ok.
  unfold io, st_map_err, cleanup_staging, within. rewrite Hr. cbn [result_bind]. rewrite bind_lift_ok.
  unfold unlink_with. rewrite sound_call. apply IH. unfold no_temporary in *. simpl. set_solver.
Qed.

Lemma sound_write l s : no_temporary s -> exists s', write_journal l s = (Ok tt, s') /\ no_temporary s'.
Proof.
  intros Hs. unfold write_journal. destruct (records_encode l) as [b ->]. cbn [ok_or]. rewrite bind_lift_ok.
  unfold st_bind, io, st_map_err, create_staging, commit_staged. rewrite !sound_call.
  destruct (decide _) as [Hin|_]; [done|]. rewrite !sound_call. eexists. split; [done|].
  unfold no_temporary in *. simpl. set_solver.
Qed.

Lemma sound_recovery old s : durable old (tr_disk s) ->
  exists s', recover_once reserved_name s = (Ok tt, s') /\ no_temporary s' /\ tr_recovered s' = true.
Proof.
  intros Hd. unfold recover_once.
  destruct (open_root_harmless s) as ([] & s1 & E1 & H1). unfold st_bind at 1. rewrite E1.
  destruct (harmless_call CallTransferJournal s1) as ([] & s2 & E2 & H2). unfold st_bind at 1. rewrite E2.
  unfold st_bind at 1, st_map_err at 1. rewrite sound_call.
  unfold st_bind at 1, io, st_map_err, unlink_with. rewrite sound_call. cbn [map_err].
  set (s3 := remove_name _ _).
  assert (durable old (tr_disk s3)) as Hd3.
  { destruct Hd as (l & Hr & Hg & Hf). exists l. simpl. rewrite H2, H1. split_and!; [done|done|].
    intros x [Hx Hj]. apply Hf. unfold file in *. simpl in *. set_solver. }
  assert (no_temporary s3) as Hn3 by (unfold no_temporary; simpl; set_solver).
  destruct (sound_read old s3 Hd3) as (l & s4 & E4 & Hg & H4). unfold st_bind at 1. rewrite E4.
  assert (no_temporary s4) as Hn4 by (unfold no_temporary in *; by rewrite H4).
  destruct Hg as [Hl Hlen]. rewrite (proj2 (Z.ltb_ge _ _)) by lia.
  destruct (sound_sweep l s4 Hl Hn4) as (s5 & E5 & Hn5). unfold st_bind at 1. rewrite E5.
  destruct (sound_write [] s5 Hn5) as (s6 & E6 & Hn6). unfold st_bind. rewrite E6.
  by exists (set_recovered s6).
Qed.
End Sweep.

(** C13: No staging file outlives its Controller unless its removal was refused.  Whatever a series of
    Controllers did, and wherever each of them was stopped, the next Controller recovers when its
    calls succeed: its recovery reads a journal within the limits, keeps every published file,
    accepts transfers again, and leaves no staging file but those that one of the Controllers tried
    to remove when it dropped them, while it was not stopped, and whose removal failed; there is
    none left when there was no such failure. *)
Theorem crashed_transfers_are_swept workspace_id protected limit old disk (OS : TransferOs) (OL : TransferOsLaws) :
  disk_after old disk -> (forall n c, os_fault n c = None) ->
  exists s', recover_staging reserved_name (transfers_new workspace_id protected limit disk) = (Ok tt, s')
    /\ (forall x, x ∈ td_staging (tr_disk s') -> old x)
    /\ ((forall x, ~ old x) -> td_staging (tr_disk s') = ∅)
    /\ td_published (tr_disk s') = td_published disk
    /\ tr_recovered s' = true /\ tr_recovery_write_failed s' = false.
Proof.
  intros Hd%disk_after_durable Hsound. set (s := transfers_new workspace_id protected limit disk).
  pose proof (sound_laws Hsound) as Hlaws.
  destruct (sound_recovery Hsound old s Hd) as (s' & E & Hn & Hr).
  assert (recover_staging reserved_name s = (Ok tt, s')) as E' by exact E.
  exists s'. split; [done|].
  pose proof (recovery_known (CR := Hlaws) old s (durable_known old s Hd)) as H1. rewrite E in H1.
  pose proof (recovery_state ∅ s (conj eq_refl eq_refl)) as H2. rewrite E in H2. destruct H2 as [_ H2].
  pose proof (recover_stable reserved_name (same s) (same_only s) s eq_refl) as H3. rewrite E' in H3.
  injection H3 as _ _ _ _ Hp. injection H2 as _ Hf.
  assert (forall x, x ∈ td_staging (tr_disk s') -> old x) as Hold.
  { intros x Hx. destruct H1 as [_ Hfiles].
    assert (x <> journal_temporary) as Hne by (intros ->; by apply Hn).
    destruct (Hfiles (running _ CallOpenRoot (Hsound _ _)) x (conj Hx Hne)) as [[]|[Ho|Href]]; [done|].
    exfalso. by apply (sound_refused Hsound) in Href. }
  split_and!; [done| |done|done|done].
  intros Hno. apply set_eq. intros x. split; [|set_solver]. intros Hx. by destruct (Hno x (Hold x Hx)).
Qed.
End Journal.
