(* ===== verification/MachineTransferSample.v ===== *)
(** * Sample runs of the registry of transfers

    An instance of the encodings that satisfies their laws, systems without and with faults, a put
    and a get from begin to finish, a Controller stopped in the middle of a put, and what a failed
    removal leaves. *)

From S2P Require Import Prelude RustStr Protocol StateLogic MachineFile.
From S2P Require Import MachineTransfer MachineTransferFacts MachineTransferJournal.
Local Open Scope Z_scope.

(** ** Encodings *)

(** A string: its length in two bytes, or each byte with a mark. *)
Fixpoint marked (b : bytes) : bytes := match b with [] => ["0"%char] | a :: b' => "1"%char :: a :: marked b' end.
Fixpoint unmark (b : bytes) : option (bytes * bytes) :=
  match b with
  | m :: rest =>
      if Ascii.eqb m "0" then Some ([], rest)
      else match rest with
           | a :: rest' => '(x, y) ← unmark rest'; Some (a :: x, y)
           | [] => None
           end
  | [] => None
  end.
Definition put_string (s : string) : bytes :=
  let b := String.list_ascii_of_string s in
  let n := N.of_nat (length b) in
  if (n <? 65536)%N
  then "s"%char :: Ascii.ascii_of_N (n / 256) :: Ascii.ascii_of_N (n mod 256) :: b
  else "l"%char :: marked b.
Definition get_string (b : bytes) : option (string * bytes) :=
  match b with
  | m :: rest =>
      if Ascii.eqb m "s" then
        match rest with
        | h :: l :: rest' =>
            let n := N.to_nat (Ascii.N_of_ascii h * 256 + Ascii.N_of_ascii l) in
            Some (String.string_of_list_ascii (take n rest'), drop n rest')
        | _ => None
        end
      else '(x, y) ← unmark rest; Some (String.string_of_list_ascii x, y)
  | [] => None
  end.
Definition put_list (l : list (string * string)) : bytes :=
  mjoin ((fun r => put_string r.1 ++ put_string r.2) <$> l).
Fixpoint get_list (fuel : nat) (b : bytes) : option (list (string * string)) :=
  match fuel, b with
  | _, [] => Some []
  | O, _ => None
  | S fuel', _ => '(p, b1) ← get_string b; '(i, b2) ← get_string b1; l ← get_list fuel' b2; Some ((p, i) :: l)
  end.

Lemma unmark_marked b rest : unmark (marked b ++ rest) = Some (b, rest).
Proof. induction b as [|a b IH]; [done|]. simpl. simpl in IH. by rewrite IH. Qed.

Lemma get_put_string s rest : get_string (put_string s ++ rest) = Some (s, rest).
Proof.
  unfold put_string. set (b := String.list_ascii_of_string s).
  assert (String.string_of_list_ascii b = s) as Hs by apply String.string_of_list_ascii_of_string.
  destruct (N.ltb_spec (N.of_nat (length b)) 65536) as [Hn|Hn]; simpl.
  - pose proof (N.mod_lt (N.of_nat (length b)) 256 ltac:(done)).
    assert (N.of_nat (length b) / 256 < 256)%N by (apply N.Div0.div_lt_upper_bound; lia).
    rewrite !Ascii.N_ascii_embedding by done.
    replace (N.to_nat _) with (length b) by (pose proof (N.div_mod (N.of_nat (length b)) 256); lia).
    by rewrite take_app_length, drop_app_length, Hs.
  - by rewrite unmark_marked; simpl; rewrite Hs.
Qed.
Lemma get_put_list l fuel : (length (put_list l) <= fuel)%nat -> get_list fuel (put_list l) = Some l.
Proof.
  revert fuel. induction l as [|[p i] l IH]; intros fuel Hf; [by destruct fuel|].
  unfold put_list in *. simpl in *. rewrite <- app_assoc in *.
  assert (exists a b, put_string p = a :: b) as (a & b & Hp) by (unfold put_string; case_match; eauto).
  destruct fuel as [|fuel]; [rewrite Hp in Hf; simpl in Hf; lia|].
  set (rest := put_string i ++ _) in *. assert (get_list (S fuel) (put_string p ++ rest) =
    ('(p, b1) ← get_string (put_string p ++ rest); '(i, b2) ← get_string b1;
     l ← get_list fuel b2; Some ((p, i) :: l))) as -> by (by rewrite Hp).
  rewrite get_put_string. simpl. subst rest. rewrite get_put_string. simpl.
  rewrite IH; [done|]. rewrite Hp in Hf. simpl in Hf. rewrite !length_app in Hf. unfold fmap. lia.
Qed.

(** A digest of 64 hexadecimal digits that depends on the bytes. *)
Definition sample_digest (data : bytes) : string :=
  String.string_of_list_ascii
    (replicate 62%nat "0"%char
     ++ ((fun n => Ascii.ascii_of_N (48 + n)) <$>
         [N.modulo (foldr N.add 0%N (Ascii.N_of_ascii <$> data)) 10; N.modulo (N.of_nat (length data)) 10])).

#[export] Instance transfer_codec : TransferCodec := {
  base64_encode := String.string_of_list_ascii;
  base64_decode s := Some (String.list_ascii_of_string s);
  sha256_hex := sample_digest;
  encode_records l := Some (put_list l);
  decode_records b := get_list (length b) b
}.

Lemma list_of_string_length s : length (String.list_ascii_of_string s) = String.length s.
Proof. induction s; simpl; congruence. Qed.
Lemma put_string_length s : str_len s < 65536 -> Z.of_nat (length (put_string s)) = str_len s + 3.
Proof.
  unfold put_string, str_len. rewrite list_of_string_length. intros Hs.
  rewrite (proj2 (N.ltb_lt _ _)) by lia. simpl. rewrite list_of_string_length. lia.
Qed.

#[export] Instance transfer_codec_laws : TransferCodecLaws.
Proof.
  split.
  - intros b. simpl. by rewrite String.list_ascii_of_string_of_list_ascii.
  - intros l. by eexists.
  - intros l b [= <-]. by apply get_put_list.
  - intros l b [= <-] Hl. cut (Z.of_nat (length (put_list l)) <= foldr Z.add 0 (record_size <$> l)); [lia|].
    unfold put_list. induction Hl as [|[p i] l [Hp Hi] _ IH]; [done|]. simpl in *.
    unfold validate_relative_path in Hp. destruct (_ || _) eqn:E; [done|]. bool_hyps.
    rewrite !length_app, !Nat2Z.inj_add, !put_string_length by lia. unfold record_size, fmap in *. simpl. lia.
Qed.

(** ** Systems *)

Definition hello : bytes := String.list_ascii_of_string "hello".
Definition system (fault : nat -> Call -> option IoError) : TransferOs := {|
  os_fault := fault;
  os_effect _ := false;
  os_available _ := 2 ^ 40;
  os_metadata _ := mkMetadata 5 100 0 100 0;
  os_read n := if (n <? 18)%nat then hello else [];
  os_order := map_to_list |}.
Lemma system_laws fault : @TransferOsLaws (system fault).
Proof. by split. Qed.

(** Nothing fails. *)
Definition calm_os : TransferOs := system (fun _ _ => None).
(** The process is stopped before its call number [k]. *)
Definition stopping_os (k : nat) : TransferOs :=
  system (fun n _ => if (k <=? n)%nat then Some (io_error OtherKind) else None).
Lemma stopping_laws k : @TransferCrashLaws (stopping_os k).
Proof. split. intros n e. simpl. by destruct (_ <=? _)%nat; intros [= <-]. Qed.
(** Its failures are all of the stop: no removal is refused. *)
Lemma stopping_refuses_nothing k log x : ~ refused (O := stopping_os k) log x.
Proof.
  induction log as [|c log IH]; [by intros []|]. intros [(_ & [e He] & _ & Hrun)|?]; [|done].
  apply Hrun. intros m c' Hm. simpl in *. destruct (Nat.leb_spec k (length log)); [|done].
  exists (io_error OtherKind). by rewrite (proj2 (Nat.leb_le _ _)) by lia.
Qed.

(** ** Scripts *)

Definition first_id : string := "xfer_00000000000000000000000000000001".
Definition second_id : string := "xfer_00000000000000000000000000000002".
Definition sample_actor : MachineTransferActor := mkActor "ws" "agent" "a1".
Definition sample_path : string := "docs/a.txt".

Notation State := (Transfers * list Event)%type.

(** A request on the sample path; its fresh identifier is used by a begin. *)
Definition run_one {O : TransferOs} (x : State) (op : Request * string) : State :=
  let '(s, tr) := x in
  let '(r, s') := execute_locked to_ascii_uppercase 0 sample_actor sample_path op.1 op.2 7 s in
  (s', tr ++ [mkEvent op.1 r]).
Definition run_script {O : TransferOs} (ops : list (Request * string)) (x : State) : State :=
  foldl run_one x ops.
Definition op_ok (x : State) (op : Request * string) : bool :=
  is_ok (execute_checks x.1 sample_actor sample_path) && (0 <=? begin_limit op.1) && recovery_id op.2
  && negb (issued op.2 x.2).
Fixpoint script_ok {O : TransferOs} (ops : list (Request * string)) (x : State) : bool :=
  match ops with [] => true | op :: ops' => op_ok x op && script_ok ops' (run_one x op) end.

Lemma transfer_run_script_reach {O : TransferOs} ops x : script_ok ops x = true ->
  reachable to_ascii_uppercase x (run_script ops x).
Proof.
  revert x. induction ops as [|[request fresh] ops IH]; intros [s tr] Hx; [apply rtc_refl|].
  cbn [script_ok] in Hx. apply andb_prop in Hx as [Hop Hx]. unfold op_ok in Hop. simpl in Hop. bool_hyps.
  eapply rtc_l; [|by apply IH]. unfold run_one. simpl.
  destruct (execute_locked _ _ _ _ _ _ _ s) as [r s'] eqn:E. eapply (run_execute _ 0 sample_actor sample_path); try done.
  - destruct (execute_checks s sample_actor sample_path) as [[]|]; done.
  - unfold request_wf, begin_limit in *. destruct request; try done; lia.
Qed.

Definition empty_disk : TransferDisk := mkTransferDisk None ∅ ∅.
Definition sample_start (disk : TransferDisk) : State := transfers_start "ws" ["state"] 1000 disk.

(** ** A put and a get *)

Definition put_script : list (Request * string) :=
  [(PutBegin sample_path false 384 (Some 5) 100, first_id);
   (PutChunk first_id 0 "hel", second_id); (PutChunk first_id 3 "lo", second_id)].
Definition sample_put : State := run_script (O := calm_os) put_script (sample_start empty_disk).
Definition sample_finish : Request := PutFinish first_id 5 (sample_digest hello).

Definition finish_result {O : TransferOs} (x : State) (request : Request) : Result Answer ProtocolError * Transfers :=
  execute_locked to_ascii_uppercase 0 sample_actor sample_path request second_id 9 x.1.

Example put_is_published :
  (finish_result (O := calm_os) sample_put sample_finish).1 = Ok (Complete sample_path 5 (sample_digest hello))
  /\ map_to_list (td_published (tr_disk (finish_result (O := calm_os) sample_put sample_finish).2)) = [(sample_path, hello)]
  /\ elements (td_staging (tr_disk (finish_result (O := calm_os) sample_put sample_finish).2)) = [].
Proof. split; [|split]; vm_compute; reflexivity. Qed.

Lemma sample_put_reach :
  reachable (OS := calm_os) to_ascii_uppercase (transfers_start "ws" ["state"%string] 1000 empty_disk)
    (sample_put.1, sample_put.2).
Proof.
  rewrite <- surjective_pairing. unfold sample_put, sample_start.
  apply (transfer_run_script_reach (O := calm_os)). vm_compute. reflexivity.
Qed.

Definition sample_published : Transfers := (finish_result (O := calm_os) sample_put sample_finish).2.
Lemma sample_put_finishes :
  execute_locked (OS := calm_os) to_ascii_uppercase 0 sample_actor sample_path sample_finish second_id 9 sample_put.1
  = (Ok (Complete sample_path 5 (sample_digest hello)), sample_published).
Proof. vm_compute. reflexivity. Qed.

Lemma finished_transfer_is_exact_witness :
  exists id limit, request_id sample_finish = Some id /\ sample_path = sample_path
    /\ 5 = Z.of_nat (length (transferred id sample_put.2))
    /\ granted id sample_put.2 = Some limit /\ 5 <= limit <= tr_limit sample_put.1
    /\ sample_digest hello = sha256_hex (transferred id sample_put.2)
    /\ tr_pending sample_published !! id = None
    /\ td_published (tr_disk sample_published)
       = match sample_finish with
         | PutFinish _ _ _ => <[sample_path := transferred id sample_put.2]> (td_published (tr_disk sample_put.1))
         | _ => td_published (tr_disk sample_put.1)
         end.
Proof.
  exact (finished_transfer_is_exact (OS := calm_os) to_ascii_uppercase "ws" ["state"%string] 1000 empty_disk
           sample_put.1 sample_put.2 0 sample_actor sample_path sample_finish second_id 9 sample_path 5
           (sample_digest hello) sample_published sample_put_reach I sample_put_finishes).
Defined.

Definition get_script : list (Request * string) :=
  [(GetBegin sample_path 100, first_id); (GetChunk first_id 0, second_id); (GetChunk first_id 5, second_id)].
Example get_is_confirmed :
  let x := run_script (O := calm_os) get_script (sample_start empty_disk) in
  ev_answer <$> x.2 = [Ok (Begun first_id sample_path 100 MACHINE_TRANSFER_CHUNK_BYTES (Some 5));
                       Ok (Chunk 0 "hello" false); Ok (Chunk 5 "" true)]
  /\ (finish_result (O := calm_os) x (GetFinish first_id)).1 = Ok (Complete sample_path 5 (sample_digest hello)).
Proof. vm_compute. done. Qed.

(** ** A Controller stopped in the middle of a put *)

Definition stopped_put : State := run_script (O := stopping_os 26) put_script (sample_start empty_disk).
Definition stopped_disk : TransferDisk := tr_disk stopped_put.1.

Example staging_file_is_left : elements (td_staging stopped_disk) = [staging_name sample_path first_id].
Proof. vm_compute. reflexivity. Qed.

(** Where a removal was refused: nowhere. *)
Definition stopped_old : string * string -> Prop := left_over (OS := stopping_os 26) nothing stopped_put.1.
Lemma stopped_old_empty x : ~ stopped_old x.
Proof. intros [[]|Hx]. by apply stopping_refuses_nothing in Hx. Qed.

Lemma stopped_disk_after : disk_after to_ascii_uppercase stopped_old stopped_disk.
Proof.
  apply (disk_next _ (stopping_os 26) (system_laws _) (stopping_laws 26) "ws" ["state"%string] 1000 nothing empty_disk
           stopped_put.1 stopped_put.2).
  - apply disk_first.
  - rewrite <- surjective_pairing. unfold stopped_put, sample_start.
    apply (transfer_run_script_reach (O := stopping_os 26)). vm_compute. reflexivity.
Qed.

Lemma crashed_transfers_are_swept_witness :
  (forall x, ~ stopped_old x) /\
  exists s', recover_staging (OS := calm_os) to_ascii_uppercase (transfers_new "ws" [] 1000 stopped_disk) = (Ok tt, s')
    /\ (forall x, x ∈ td_staging (tr_disk s') -> stopped_old x)
    /\ ((forall x, ~ stopped_old x) -> td_staging (tr_disk s') = ∅)
    /\ td_published (tr_disk s') = td_published stopped_disk
    /\ tr_recovered s' = true /\ tr_recovery_write_failed s' = false.
Proof.
  split; [exact stopped_old_empty|].
  exact (crashed_transfers_are_swept to_ascii_uppercase "ws" [] 1000 stopped_old stopped_disk calm_os (system_laws _)
           stopped_disk_after (fun _ _ => eq_refl)).
Defined.

(** ** A removal that fails

    The staging file of an aborted put cannot be removed.  Its intent stays in the journal until
    the next put writes the journal without it; then no recovery removes the file. *)

Definition stuck_os : TransferOs :=
  system (fun _ c => match c with
                     | CallUnlink at_ =>
                         if bool_decide (at_ = staging_name sample_path first_id)
                         then Some (io_error PermissionDenied) else None
                     | _ => None
                     end).
Definition abort_script : list (Request * string) :=
  [(PutBegin sample_path false 384 None 100, first_id); (AbortTransfer first_id false, second_id);
   (PutBegin sample_path false 384 None 100, second_id)].
Definition orphan_disk (ops : nat) : TransferDisk :=
  tr_disk (run_script (O := stuck_os) (take ops abort_script) (sample_start empty_disk)).1.
Definition next_controller (disk : TransferDisk) : Result unit ProtocolError * Transfers :=
  recover_staging (OS := calm_os) to_ascii_uppercase (transfers_new "ws" [] 1000 disk).

Theorem failed_removal_orphans_staging :
  let after ops := (next_controller (orphan_disk ops)) in
  (after 2%nat).1 = Ok tt /\ elements (td_staging (tr_disk (after 2%nat).2)) = []
  /\ (after 3%nat).1 = Ok tt
  /\ elements (td_staging (tr_disk (after 3%nat).2)) = [staging_name sample_path first_id].
Proof.
  split; [vm_compute; reflexivity|]. split; [vm_compute; reflexivity|].
  split; vm_compute; reflexivity.
Qed.
