(* ===== verification/IngressGuard.v ===== *)
(** * Public ingress admission (crates/treer-proxy/src/ingress_guard.rs)

    Limits and their overrides (treer-protocol/src/network.rs), the verified client address, token
    buckets per ingress and per client, in-flight permits and rejection counters.

    An [IpAddr] is its bits.  Parsing of addresses and networks, the network test of the ipnet
    crate and the header types of the http crate are the class [NetText].  An [f64] is the
    rational it stands for; every operation rounds, and the rounding is the class [F64], whose
    laws are the error bound of round-to-nearest.  Instants are nanoseconds and arguments. *)

From Stdlib Require Import QArith Qround Qminmax.
From S2P Require Import Prelude RustStr.
Local Open Scope Z_scope.

(** ** Limits *)

Definition INGRESS_DEFAULT_RATE_PER_MINUTE : Z := 600.
Definition INGRESS_DEFAULT_RATE_BURST : Z := 120.
Definition INGRESS_DEFAULT_CONCURRENCY : Z := 64.
Definition INGRESS_DEFAULT_IP_RATE_PER_MINUTE : Z := 120.
Definition INGRESS_DEFAULT_IP_RATE_BURST : Z := 30.
Definition INGRESS_DEFAULT_MAX_BODY_BYTES : Z := 1024 * 1024.
Definition INGRESS_DEFAULT_RESPONSE_TIMEOUT_SECS : Z := 35.
Definition INGRESS_DEFAULT_BODY_TIMEOUT_SECS : Z := 60.
Definition INGRESS_MAX_RATE_PER_MINUTE : Z := 60000.
Definition INGRESS_MAX_CONCURRENCY : Z := 4096.
Definition INGRESS_MAX_BODY_BYTES : Z := 64 * 1024 * 1024.
Definition INGRESS_MIN_RESPONSE_TIMEOUT_SECS : Z := 5.
Definition INGRESS_MAX_RESPONSE_TIMEOUT_SECS : Z := 600.

Record ServiceIngressLimits : Type := mkServiceIngressLimits {
  sil_rate_limit_per_minute : option Z;
  sil_rate_burst : option Z;
  sil_concurrency_limit : option Z;
  sil_ip_rate_limit_per_minute : option Z;
  sil_ip_rate_burst : option Z;
  sil_max_body_bytes : option Z;
  sil_response_timeout_secs : option Z;
  sil_body_timeout_secs : option Z
}.

Record EffectiveIngressLimits : Type := mkEffectiveIngressLimits {
  rate_limit_per_minute : Z;
  rate_burst : Z;
  concurrency_limit : Z;
  ip_rate_limit_per_minute : Z;
  ip_rate_burst : Z;
  max_body_bytes : Z;
  response_timeout_secs : Z;
  body_timeout_secs : Z
}.

Definition default_limits : EffectiveIngressLimits :=
  mkEffectiveIngressLimits INGRESS_DEFAULT_RATE_PER_MINUTE INGRESS_DEFAULT_RATE_BURST
    INGRESS_DEFAULT_CONCURRENCY INGRESS_DEFAULT_IP_RATE_PER_MINUTE INGRESS_DEFAULT_IP_RATE_BURST
    INGRESS_DEFAULT_MAX_BODY_BYTES INGRESS_DEFAULT_RESPONSE_TIMEOUT_SECS INGRESS_DEFAULT_BODY_TIMEOUT_SECS.

Definition effective (l : ServiceIngressLimits) : EffectiveIngressLimits :=
  let d := default_limits in
  mkEffectiveIngressLimits
    (default (rate_limit_per_minute d) (sil_rate_limit_per_minute l))
    (default (rate_burst d) (sil_rate_burst l))
    (default (concurrency_limit d) (sil_concurrency_limit l))
    (default (ip_rate_limit_per_minute d) (sil_ip_rate_limit_per_minute l))
    (default (ip_rate_burst d) (sil_ip_rate_burst l))
    (default (max_body_bytes d) (sil_max_body_bytes l))
    (default (response_timeout_secs d) (sil_response_timeout_secs l))
    (default (body_timeout_secs d) (sil_body_timeout_secs l)).

Definition check_range (lo hi : Z) (name : string) (value : option Z) : Result unit string :=
  match value with
  | Some v => if (v <? lo) || (hi <? v) then Err name else Ok tt
  | None => Ok tt
  end.
Definition check_positive (max : Z) (name : string) (value : option Z) : Result unit string :=
  match value with
  | Some v => if (v =? 0) || (max <? v) then Err name else Ok tt
  | None => Ok tt
  end.

Definition validate (l : ServiceIngressLimits) : Result unit string :=
  check_positive INGRESS_MAX_RATE_PER_MINUTE "rate_limit_per_minute" (sil_rate_limit_per_minute l) ;?
  check_positive INGRESS_MAX_RATE_PER_MINUTE "rate_burst" (sil_rate_burst l) ;?
  check_positive INGRESS_MAX_CONCURRENCY "concurrency_limit" (sil_concurrency_limit l) ;?
  check_positive INGRESS_MAX_RATE_PER_MINUTE "ip_rate_limit_per_minute" (sil_ip_rate_limit_per_minute l) ;?
  check_positive INGRESS_MAX_RATE_PER_MINUTE "ip_rate_burst" (sil_ip_rate_burst l) ;?
  check_positive INGRESS_MAX_BODY_BYTES "max_body_bytes" (sil_max_body_bytes l) ;?
  check_range INGRESS_MIN_RESPONSE_TIMEOUT_SECS INGRESS_MAX_RESPONSE_TIMEOUT_SECS "response_timeout_secs"
    (sil_response_timeout_secs l) ;?
  check_range INGRESS_MIN_RESPONSE_TIMEOUT_SECS INGRESS_MAX_RESPONSE_TIMEOUT_SECS "body_timeout_secs"
    (sil_body_timeout_secs l).

(** A patch: absent, cleared ([Some None]) or set. *)
Record UpdateIngressLimitsRequest : Type := mkUpdateIngressLimitsRequest {
  uil_rate_limit_per_minute : option (option Z);
  uil_rate_burst : option (option Z);
  uil_concurrency_limit : option (option Z);
  uil_ip_rate_limit_per_minute : option (option Z);
  uil_ip_rate_burst : option (option Z);
  uil_max_body_bytes : option (option Z);
  uil_response_timeout_secs : option (option Z);
  uil_body_timeout_secs : option (option Z)
}.

Definition apply (r : UpdateIngressLimitsRequest) (l : ServiceIngressLimits) : ServiceIngressLimits :=
  mkServiceIngressLimits
    (default (sil_rate_limit_per_minute l) (uil_rate_limit_per_minute r))
    (default (sil_rate_burst l) (uil_rate_burst r))
    (default (sil_concurrency_limit l) (uil_concurrency_limit r))
    (default (sil_ip_rate_limit_per_minute l) (uil_ip_rate_limit_per_minute r))
    (default (sil_ip_rate_burst l) (uil_ip_rate_burst r))
    (default (sil_max_body_bytes l) (uil_max_body_bytes r))
    (default (sil_response_timeout_secs l) (uil_response_timeout_secs r))
    (default (sil_body_timeout_secs l) (uil_body_timeout_secs r)).

(** ** Addresses *)

(** The 32 or 128 bits of an address. *)
Inductive IpAddr : Type := V4 (bits : Z) | V6 (bits : Z).
#[export] Instance IpAddr_eq_dec : EqDecision IpAddr.
Proof. solve_decision. Defined.
#[export] Instance IpAddr_countable : Countable IpAddr.
Proof.
  apply (inj_countable' (fun a => match a with V4 z => inl z | V6 z => inr z end)
           (fun s => match s with inl z => V4 z | inr z => V6 z end)). by intros [].
Defined.

(** [to_ipv4_mapped]: the 96 leading bits are [::ffff]. *)
Definition normalize (address : IpAddr) : IpAddr :=
  match address with
  | V6 z => if Z.shiftr z 32 =? 65535 then V4 (Z.land z (2 ^ 32 - 1)) else V6 z
  | V4 z => V4 z
  end.

Definition octet (k z : Z) : Z := Z.land (Z.shiftr z (8 * (3 - k))) 255.
Definition segment0 (z : Z) : Z := Z.shiftr z 112.

(** [Ipv4Addr::is_private], [is_loopback], [is_link_local] and [is_unspecified] by their ranges. *)
Definition v4_is_private (z : Z) : bool :=
  (octet 0 z =? 10) || ((octet 0 z =? 172) && between 16 (octet 1 z) 31)
  || ((octet 0 z =? 192) && (octet 1 z =? 168)).
Definition v4_is_loopback (z : Z) : bool := octet 0 z =? 127.
Definition v4_is_link_local (z : Z) : bool := (octet 0 z =? 169) && (octet 1 z =? 254).

Definition is_private_or_local (address : IpAddr) : bool :=
  match normalize address with
  | V4 z => v4_is_private z || v4_is_loopback z || v4_is_link_local z || (z =? 0)
            || ((octet 0 z =? 100) && between 64 (octet 1 z) 127)
  | V6 z => (z =? 1) || (z =? 0) || (Z.land (segment0 z) 65024 =? 64512)
            || (Z.land (segment0 z) 65472 =? 65152)
  end.

(** Rate keys collapse IPv6 clients to their /64. *)
Definition rate_key (address : IpAddr) : IpAddr :=
  match normalize address with
  | V6 z => V6 (Z.shiftl (Z.shiftr z 64) 64)
  | v4 => v4
  end.

(** [ipnet::IpNet] *)
Inductive IpNet : Type := NetV4 (bits prefix : Z) | NetV6 (bits prefix : Z).
Definition prefix_len (net : IpNet) : Z := match net with NetV4 _ p | NetV6 _ p => p end.

Class NetText : Type := {
  parse_net : string -> option IpNet;
  net_of_ip : IpAddr -> IpNet;
  net_contains : IpNet -> IpAddr -> bool;
  parse_ip : string -> option IpAddr;
  parse_socket_ip : string -> option IpAddr;
  parse_ipv6 : string -> option Z;
  header_name : string -> option string;
  to_str : string -> option string
}.

(** [HeaderMap]: the headers in order, names in lower case. *)
Definition HeaderMap : Type := list (string * string).
Definition get_all (header : string) (headers : HeaderMap) : list string :=
  snd <$> List.filter (fun h => h.1 =s header) headers.

(** ** Trusted fronts *)

Definition MIN_TRUSTED_IPV4_PREFIX : Z := 8.
Definition MIN_TRUSTED_IPV6_PREFIX : Z := 32.

Record TrustedProxies : Type := mkTrustedProxies { tp_ranges : list IpNet; tp_header : option string }.
Definition trusted_none : TrustedProxies := mkTrustedProxies [] None.

Inductive TrustedProxiesError : Type :=
| InvalidRange (text : string)
| RangeTooWide (net : IpNet)
| InvalidHeader (name : string)
| HeaderWithoutRanges.

Inductive ClientIpSource : Type := Peer | TrustedHeader | Fallback.
#[export] Instance ClientIpSource_eq_dec : EqDecision ClientIpSource.
Proof. solve_decision. Defined.
Record ClientIp : Type := mkClientIp { ci_address : IpAddr; ci_source : ClientIpSource }.

Fixpoint find_map {A B} (f : A -> option B) (l : list A) : option B :=
  match l with [] => None | x :: l' => match f x with Some y => Some y | None => find_map f l' end end.

Section Addresses.
Context `{NetText}.

Definition parse_range (text : string) (allow_wide : bool) : Result IpNet TrustedProxiesError :=
  let? net := ok_or (or_else (parse_net text) (net_of_ip <$> parse_ip text)) (InvalidRange text) in
  let too_wide := match net with
                  | NetV4 _ p => p <? MIN_TRUSTED_IPV4_PREFIX
                  | NetV6 _ p => p <? MIN_TRUSTED_IPV6_PREFIX
                  end in
  if (prefix_len net =? 0) || (too_wide && negb allow_wide) then Err (RangeTooWide net) else Ok net.

Definition range_texts (ranges : list string) : list string :=
  List.filter (fun text => negb (is_empty text)) (trim <$> (ranges ≫= split_on ",")).

Definition trusted_parse (ranges : list string) (header : option string) (allow_wide : bool)
    : Result TrustedProxies TrustedProxiesError :=
  let? parsed := try_collect (fun text => parse_range text allow_wide) (range_texts ranges) in
  match opt_filter (fun name => negb (is_empty name)) (trim <$> header) with
  | None => Ok (mkTrustedProxies parsed None)
  | Some name =>
      match parsed with
      | [] => Err HeaderWithoutRanges
      | _ => let? h := ok_or (header_name (to_ascii_lowercase name)) (InvalidHeader name) in
             Ok (mkTrustedProxies parsed (Some h))
      end
  end.

Definition configured (t : TrustedProxies) : bool := match tp_ranges t with [] => false | _ => true end.
Definition trusts (t : TrustedProxies) (address : IpAddr) : bool :=
  existsb (fun net => net_contains net (normalize address)) (tp_ranges t).

Definition quote_or_space (c : string) : bool := (c =s " ") || (c =s String (Ascii.ascii_of_N 34) EmptyString).
Definition trim_quotes (s : string) : string :=
  concat_str (rev (drop_while quote_or_space (rev (drop_while quote_or_space (chars s))))).

Definition parse_forwarded_ip (text : string) : option IpAddr :=
  if 64 <? str_len text then None
  else
    let text := trim_quotes text in
    match parse_ip text with
    | Some address => Some address
    | None =>
        match parse_socket_ip text with
        | Some address => Some address
        | None =>
            rest ← strip_prefix "[" text;
            inner ← head (split_on "]" rest);
            z ← parse_ipv6 inner;
            Some (V6 z)
        end
    end.

(** The first hop from the right that is an address and not trusted. *)
Definition untrusted_hop (t : TrustedProxies) (part : string) : option IpAddr :=
  opt_filter (fun address => negb (trusts t address)) (parse_forwarded_ip (trim part)).
Definition resolve_header (t : TrustedProxies) (header text : string) : option IpAddr :=
  if header =s "x-forwarded-for" then find_map (untrusted_hop t) (rev (split_on "," text))
  else match split_on "," text with
       | [part] => parse_forwarded_ip (trim part)
       | _ => None
       end.

Definition client_ip (t : TrustedProxies) (peer : IpAddr) (headers : HeaderMap) : ClientIp :=
  let peer := normalize peer in
  match tp_header t with
  | None => mkClientIp peer Peer
  | Some header =>
      if negb (trusts t peer) then mkClientIp peer Peer
      else
        match get_all header headers with
        | [value] =>
            match to_str value with
            | None => mkClientIp peer Fallback
            | Some text =>
                match resolve_header t header text with
                | Some address => mkClientIp (normalize address) TrustedHeader
                | None => mkClientIp peer Fallback
                end
            end
        | _ => mkClientIp peer Fallback
        end
  end.
End Addresses.

(** ** Token buckets *)

Definition GLOBAL_PEER_RATE_PER_MINUTE : Z := 1200.
Definition GLOBAL_PEER_BURST : Z := 300.
Definition BUCKET_IDLE_TTL : Z := from_secs 600.
Definition CLIENT_KEYS_PER_INGRESS : Z := 20000.
Definition GLOBAL_PEER_KEYS : Z := 100000.
Definition EVICT_INTERVAL : Z := from_secs 10.

(** [rnd q] is the [f64] nearest to [q]. *)
Class F64 : Type := { rnd : Q -> Q }.

(** For non-negative values: the relative error is at most [2 ^ -53], or the absolute error far
    below it. *)
Definition ulp : Q := 1 # (2 ^ 53).
Class F64Laws {F : F64} : Prop := {
  rnd_nonneg q : (0 <= q)%Q -> (0 <= rnd q)%Q;
  rnd_upper q : (0 <= q)%Q -> (rnd q <= q + ulp * (q + 1))%Q;
  rnd_int (n : Z) : 0 <= n < 2 ^ 53 -> rnd (inject_Z n) = inject_Z n
}.

Record Bucket : Type := mkBucket { bk_tokens : Q; bk_updated : Z; bk_last_used : Z }.
Definition bucket_new (burst now : Z) : Bucket := mkBucket (inject_Z burst) now now.

Section Buckets.
Context `{F64}.

(** [Duration::as_secs_f64] *)
Definition as_secs_f64 (d : Z) : Q :=
  rnd (rnd (inject_Z (d / nanos_per_sec)) + rnd (inject_Z (d mod nanos_per_sec) / inject_Z nanos_per_sec)).

Definition Qleb (a b : Q) : bool := Qle_bool a b.

(** On refusal, the seconds until a token is available ([as u64] saturates). *)
Definition take (rate_per_minute burst now : Z) (b : Bucket) : Result unit Z * Bucket :=
  let rate_per_second := rnd (inject_Z (Z.max rate_per_minute 1) / 60) in
  let elapsed := as_secs_f64 (duration_since now (bk_updated b)) in
  let tokens := Qmin (rnd (bk_tokens b + rnd (elapsed * rate_per_second))) (inject_Z (Z.max burst 1)) in
  if Qleb 1 tokens then (Ok tt, mkBucket (rnd (tokens - 1)) now now)
  else
    let wait := rnd (rnd (1 - tokens) / rate_per_second) in
    (Err (Z.min (Z.max (Qceiling wait) 1) u64_max), mkBucket tokens now now).

(** ** State *)

Record Counters : Type := mkCounters {
  rate_limited : Z;
  ip_rate_limited : Z;
  concurrency_limited : Z;
  body_too_large : Z;
  body_timeout : Z;
  upstream_timeout : Z;
  request_rejected : Z;
  client_ip_fallback : Z
}.
Definition counters_default : Counters := mkCounters 0 0 0 0 0 0 0 0.

Inductive Rejection : Type :=
| RateLimited | IpRateLimited | ConcurrencyLimited | BodyTooLarge | BodyTimeout | UpstreamTimeout
| RequestRejected.

(** [AtomicU64::fetch_add(1)] wraps. *)
Definition incr (n : Z) : Z := (n + 1) mod 2 ^ 64.
Definition count_fallback (c : Counters) : Counters :=
  mkCounters (rate_limited c) (ip_rate_limited c) (concurrency_limited c) (body_too_large c)
    (body_timeout c) (upstream_timeout c) (request_rejected c) (incr (client_ip_fallback c)).
Definition count (r : Rejection) (c : Counters) : Counters :=
  let hit k n := if (k : bool) then incr n else n in
  mkCounters
    (hit (match r with RateLimited => true | _ => false end) (rate_limited c))
    (hit (match r with IpRateLimited => true | _ => false end) (ip_rate_limited c))
    (hit (match r with ConcurrencyLimited => true | _ => false end) (concurrency_limited c))
    (hit (match r with BodyTooLarge => true | _ => false end) (body_too_large c))
    (hit (match r with BodyTimeout => true | _ => false end) (body_timeout c))
    (hit (match r with UpstreamTimeout => true | _ => false end) (upstream_timeout c))
    (hit (match r with RequestRejected => true | _ => false end) (request_rejected c))
    (client_ip_fallback c).

Record ServiceState : Type := mkServiceState {
  sv_bucket : Bucket;
  sv_in_flight : Z;
  sv_clients : gmap IpAddr Bucket;
  sv_overflow : Bucket;
  sv_counters : Counters;
  sv_last_warning : option Z;
  sv_last_evict : Z
}.

Definition service_new (limits : EffectiveIngressLimits) (now : Z) : ServiceState :=
  mkServiceState (bucket_new (rate_burst limits) now) 0 ∅ (bucket_new (ip_rate_burst limits) now)
    counters_default None now.

Definition set_bucket v s := mkServiceState v (sv_in_flight s) (sv_clients s) (sv_overflow s)
  (sv_counters s) (sv_last_warning s) (sv_last_evict s).
Definition set_in_flight v s := mkServiceState (sv_bucket s) v (sv_clients s) (sv_overflow s)
  (sv_counters s) (sv_last_warning s) (sv_last_evict s).
Definition set_clients v s := mkServiceState (sv_bucket s) (sv_in_flight s) v (sv_overflow s)
  (sv_counters s) (sv_last_warning s) (sv_last_evict s).
Definition set_overflow v s := mkServiceState (sv_bucket s) (sv_in_flight s) (sv_clients s) v
  (sv_counters s) (sv_last_warning s) (sv_last_evict s).
Definition set_counters f s := mkServiceState (sv_bucket s) (sv_in_flight s) (sv_clients s) (sv_overflow s)
  (f (sv_counters s)) (sv_last_warning s) (sv_last_evict s).
Definition set_last_warning v s := mkServiceState (sv_bucket s) (sv_in_flight s) (sv_clients s) (sv_overflow s)
  (sv_counters s) v (sv_last_evict s).
Definition set_last_evict v s := mkServiceState (sv_bucket s) (sv_in_flight s) (sv_clients s) (sv_overflow s)
  (sv_counters s) (sv_last_warning s) v.

(** [clients.retain(..)] *)
Definition fresh_buckets (now : Z) (m : gmap IpAddr Bucket) : gmap IpAddr Bucket :=
  filter (fun e : IpAddr * Bucket => duration_since now (bk_last_used e.2) < BUCKET_IDLE_TTL) m.

Definition evict (now : Z) (s : ServiceState) : ServiceState :=
  if duration_since now (sv_last_evict s) <? EVICT_INTERVAL then s
  else set_clients (fresh_buckets now (sv_clients s)) (set_last_evict now s).

Definition maybe_warn (now : Z) (s : ServiceState) : ServiceState :=
  if is_none_or (sv_last_warning s) (fun last => from_secs 60 <=? duration_since now last)
  then set_last_warning (Some now) s else s.

Record Refusal : Type := mkRefusal { rf_rejection : Rejection; rf_retry_after : option Z }.

(** The permit itself is in the table of the caller: its ingress and whether it was released. *)
Record Admission : Type := mkAdmission { ad_client : ClientIp; ad_per_ip_enforced : bool }.

Record IngressGuard : Type := mkIngressGuard {
  ig_trusted : TrustedProxies;
  ig_services : gmap string ServiceState;
  ig_peers : gmap IpAddr Bucket;
  ig_peers_last_evict : Z;
  ig_peers_overflow : Bucket;
  ig_private_peer_warned : bool
}.

Definition guard_new (trusted : TrustedProxies) (now : Z) : IngressGuard :=
  mkIngressGuard trusted ∅ ∅ now (bucket_new GLOBAL_PEER_BURST now) false.

Definition set_services v g := mkIngressGuard (ig_trusted g) v (ig_peers g) (ig_peers_last_evict g)
  (ig_peers_overflow g) (ig_private_peer_warned g).
Definition set_peers v g := mkIngressGuard (ig_trusted g) (ig_services g) v (ig_peers_last_evict g)
  (ig_peers_overflow g) (ig_private_peer_warned g).
Definition set_peers_last_evict v g := mkIngressGuard (ig_trusted g) (ig_services g) (ig_peers g) v
  (ig_peers_overflow g) (ig_private_peer_warned g).
Definition set_peers_overflow v g := mkIngressGuard (ig_trusted g) (ig_services g) (ig_peers g)
  (ig_peers_last_evict g) v (ig_private_peer_warned g).
Definition warn_private_peer_once g := mkIngressGuard (ig_trusted g) (ig_services g) (ig_peers g)
  (ig_peers_last_evict g) (ig_peers_overflow g) true.

Definition keys (m : gmap IpAddr Bucket) : Z := Z.of_nat (size m).

(** A full table without the key. *)
Definition crowded (limit : Z) (key : IpAddr) (m : gmap IpAddr Bucket) : bool :=
  (limit <=? keys m) && negb (is_some (m !! key)).

(** [entry(key).or_insert_with(Bucket::new).take(..)] *)
Definition take_keyed (rate burst now : Z) (key : IpAddr) (m : gmap IpAddr Bucket)
    : Result unit Z * gmap IpAddr Bucket :=
  let '(r, b) := take rate burst now (default (bucket_new burst now) (m !! key)) in (r, <[key := b]> m).

Section Admission.
Context `{NetText}.

Definition rate_refusal (r : Result unit Z) : Result unit Refusal :=
  map_err (fun retry => mkRefusal RateLimited (Some retry)) r.

Definition admit_unknown_host (peer : IpAddr) (headers : HeaderMap) (now : Z) (g : IngressGuard)
    : Result unit Refusal * IngressGuard :=
  let client := client_ip (ig_trusted g) peer headers in
  if negb (configured (ig_trusted g)) && is_private_or_local (ci_address client)
  then (Ok tt, warn_private_peer_once g)
  else
    let key := rate_key (ci_address client) in
    let g :=
      if crowded GLOBAL_PEER_KEYS key (ig_peers g)
         && (EVICT_INTERVAL <=? duration_since now (ig_peers_last_evict g))
      then set_peers (fresh_buckets now (ig_peers g)) (set_peers_last_evict now g) else g in
    if crowded GLOBAL_PEER_KEYS key (ig_peers g) then
      let '(r, b) := take GLOBAL_PEER_RATE_PER_MINUTE GLOBAL_PEER_BURST now (ig_peers_overflow g) in
      (rate_refusal r, set_peers_overflow b g)
    else
      let '(r, peers) := take_keyed GLOBAL_PEER_RATE_PER_MINUTE GLOBAL_PEER_BURST now key (ig_peers g) in
      (rate_refusal r, set_peers peers g).

(** The bucket of the client, after a sweep if the table is full. *)
Definition admit_client (limits : EffectiveIngressLimits) (client : ClientIp) (now : Z) (s : ServiceState)
    : Result unit Z * ServiceState :=
  let key := rate_key (ci_address client) in
  let s := if crowded CLIENT_KEYS_PER_INGRESS key (sv_clients s) then evict now s else s in
  if crowded CLIENT_KEYS_PER_INGRESS key (sv_clients s) then
    let '(r, b) := take (ip_rate_limit_per_minute limits) (ip_rate_burst limits) now (sv_overflow s) in
    (r, set_overflow b s)
  else
    let '(r, m) := take_keyed (ip_rate_limit_per_minute limits) (ip_rate_burst limits) now key (sv_clients s) in
    (r, set_clients m s).

(** The service bucket and the in-flight slot. *)
Definition admit_service (limits : EffectiveIngressLimits) (now : Z) (s : ServiceState)
    : Result unit Refusal * ServiceState :=
  let '(r, b) := take (rate_limit_per_minute limits) (rate_burst limits) now (sv_bucket s) in
  let s := set_bucket b s in
  match r with
  | Err retry =>
      (Err (mkRefusal RateLimited (Some retry)), maybe_warn now (set_counters (count RateLimited) s))
  | Ok _ =>
      let current := sv_in_flight s + 1 in
      if concurrency_limit limits <? current
      then (Err (mkRefusal ConcurrencyLimited (Some 1)), maybe_warn now (set_counters (count ConcurrencyLimited) s))
      else (Ok tt, set_in_flight current s)
  end.

Definition admit_request (ingress_id : string) (limits : EffectiveIngressLimits) (peer : IpAddr) (headers : HeaderMap)
    (now : Z) (g : IngressGuard) : Result Admission Refusal * IngressGuard :=
  let client := client_ip (ig_trusted g) peer headers in
  let per_ip_enforced := configured (ig_trusted g) || negb (is_private_or_local (ci_address client)) in
  let s := default (service_new limits now) (ig_services g !! ingress_id) in
  let s := if bool_decide (ci_source client = Fallback) then set_counters count_fallback s else s in
  let g := if per_ip_enforced then g else warn_private_peer_once g in
  let put s := set_services (<[ingress_id := s]> (ig_services g)) g in
  let '(rc, s) := if per_ip_enforced then admit_client limits client now s else (Ok tt, s) in
  match rc with
  | Err retry => (Err (mkRefusal IpRateLimited (Some retry)), put (set_counters (count IpRateLimited) s))
  | Ok _ =>
      let '(r, s) := admit_service limits now s in
      (match r with Err e => Err e | Ok _ => Ok (mkAdmission client per_ip_enforced) end, put s)
  end.

Definition record (ingress_id : string) (rejection : Rejection) (now : Z) (g : IngressGuard) : IngressGuard :=
  let s := default (service_new default_limits now) (ig_services g !! ingress_id) in
  set_services (<[ingress_id := set_counters (count rejection) s]> (ig_services g)) g.

Definition counters (ingress_id : string) (g : IngressGuard) : Counters :=
  default counters_default (sv_counters <$> ig_services g !! ingress_id).
End Admission.

(** ** Permits

    A permit holds the counter of its ingress, which stays in the table of services. *)

Record Permit : Type := mkPermit { pm_ingress : string; pm_released : bool }.

(** [release], also when the permit is dropped. *)
Definition release (p : Permit) (g : IngressGuard) : Permit * IngressGuard :=
  if pm_released p then (p, g)
  else
    (mkPermit (pm_ingress p) true,
     set_services (alter (fun s => set_in_flight ((sv_in_flight s - 1) mod 2 ^ 64) s) (pm_ingress p) (ig_services g)) g).

(** ** Runs

    Every call of the guard takes the lock of its table, so calls are atomic; a run is a list of
    calls with the instants they saw, and the permits handed out so far. *)

Inductive GuardOp : Type :=
| OpAdmit (ingress_id : string) (limits : EffectiveIngressLimits) (peer : IpAddr) (headers : HeaderMap)
| OpUnknownHost (peer : IpAddr) (headers : HeaderMap)
| OpRecord (ingress_id : string) (rejection : Rejection)
| OpRelease (i : nat).

Record GuardRun : Type := mkGuardRun { gr_guard : IngressGuard; gr_permits : list Permit }.

(** The state after a call, and the ingress a request was admitted to, if one was. *)
Definition guard_step `{NetText} (now : Z) (op : GuardOp) (st : GuardRun) : option string * GuardRun :=
  match op with
  | OpAdmit id limits peer headers =>
      match admit_request id limits peer headers now (gr_guard st) with
      | (Ok _, g) => (Some id, mkGuardRun g (gr_permits st ++ [mkPermit id false]))
      | (Err _, g) => (None, mkGuardRun g (gr_permits st))
      end
  | OpUnknownHost peer headers =>
      (None, mkGuardRun (admit_unknown_host peer headers now (gr_guard st)).2 (gr_permits st))
  | OpRecord id rejection => (None, mkGuardRun (record id rejection now (gr_guard st)) (gr_permits st))
  | OpRelease i =>
      match gr_permits st !! i with
      | Some p => let '(p', g) := release p (gr_guard st) in (None, mkGuardRun g (<[i := p']> (gr_permits st)))
      | None => (None, st)
      end
  end.

Fixpoint guard_run `{NetText} (ops : list (Z * GuardOp)) (st : GuardRun) : GuardRun :=
  match ops with [] => st | (now, op) :: ops' => guard_run ops' (guard_step now op st).2 end.

(** How many requests the run admitted to one ingress. *)
Fixpoint admitted `{NetText} (id : string) (ops : list (Z * GuardOp)) (st : GuardRun) : Z :=
  match ops with
  | [] => 0
  | (now, op) :: ops' =>
      let '(a, st') := guard_step now op st in
      (if bool_decide (a = Some id) then 1 else 0) + admitted id ops' st'
  end.
End Buckets.
