(* ===== verification/IngressFacts.v ===== *)
(** * Facts about ingress admission

    Rates and in-flight requests are bounded in every run, and the address a request is limited by
    is the one its headers and its peer determine. *)

From Stdlib Require Import QArith Qround Qminmax Lqa.
From S2P Require Import Prelude RustStr IngressGuard.
Local Open Scope Z_scope.

(** ** One bucket *)

Section Bucket.
Context {F : F64} {FL : F64Laws}.
Local Open Scope Q_scope.

Lemma ulp_range : 0 <= ulp /\ ulp <= 1.
Proof. unfold ulp. split; by vm_compute. Qed.

Lemma ulp_mono a b : a <= b -> ulp * a <= ulp * b.
Proof. pose proof ulp_range. nra. Qed.
Lemma ulp_le a : 0 <= a -> ulp * a <= a.
Proof. pose proof ulp_range. nra. Qed.

Definition secs (d : Z) : Q := inject_Z d / inject_Z nanos_per_sec.

Lemma secs_split (d : Z) :
  secs d == inject_Z (d / nanos_per_sec) + inject_Z (d mod nanos_per_sec) / inject_Z nanos_per_sec.
Proof.
  unfold secs. rewrite (Z.div_mod d nanos_per_sec) at 1 by done.
  rewrite inject_Z_plus, inject_Z_mult. field. by vm_compute.
Qed.

Lemma secs_nonneg (d : Z) : (0 <= d)%Z -> 0 <= secs d.
Proof.
  intros Hd. unfold secs. apply Qle_shift_div_l; [by vm_compute|].
  rewrite Qmult_0_l. change 0 with (inject_Z 0). by rewrite <- Zle_Qle.
Qed.

Lemma secs_plus (a b : Z) : secs (a + b) == secs a + secs b.
Proof. unfold secs. rewrite inject_Z_plus. field. by vm_compute. Qed.

(** Rounding errors of one refill. *)
Lemma as_secs_upper (d : Z) : (0 <= d)%Z ->
  0 <= as_secs_f64 d /\ as_secs_f64 d <= secs d + ulp * (3 * secs d + 5).
Proof.
  intros Hd. pose proof ulp_range as [Hu1 Hu2]. unfold as_secs_f64.
  set (s := inject_Z (d / nanos_per_sec)). set (f := inject_Z (d mod nanos_per_sec) / inject_Z nanos_per_sec).
  assert (0 <= s) as Hs by (unfold s; change 0 with (inject_Z 0); rewrite <- Zle_Qle; apply Z.div_pos; done).
  assert (0 <= f) as Hf by (apply secs_nonneg; apply Z.mod_pos_bound; done).
  pose proof (secs_split d) as Hd'. fold s f in Hd'.
  pose proof (rnd_nonneg s Hs). pose proof (rnd_nonneg f Hf).
  pose proof (rnd_upper s Hs). pose proof (rnd_upper f Hf).
  assert (0 <= rnd s + rnd f) as Hsum by lra.
  split; [by apply rnd_nonneg|]. pose proof (rnd_upper _ Hsum).
  assert (rnd s + rnd f <= secs d + ulp * (secs d + 2)) as Hx by (rewrite Hd'; lra).
  assert (ulp * (rnd s + rnd f) <= ulp * (secs d + ulp * (secs d + 2))) by nra.
  assert (0 <= secs d) by lra.
  assert (0 <= ulp * (secs d + 2)) as Hw by nra. set (w := ulp * (secs d + 2)) in *.
  assert (ulp * w <= w) by nra. assert (w == ulp * secs d + 2 * ulp) by (unfold w; ring).
  lra.
Qed.

Lemma product_bound u d q : 0 <= u -> u <= 1 -> 0 <= d -> 0 <= q ->
  (d + u * (3 * d + 5)) * (q + u * (q + 1)) <= d * q + u * (7 * (d * q) + 4 * d + 10 * q + 5).
Proof.
  intros.
  assert (0 <= u * (1 - u)) by nra.
  assert (0 <= d * q) by nra.
  assert (0 <= (u * (1 - u)) * (d * q)) by nra.
  assert (0 <= (u * (1 - u)) * d) by nra.
  assert (0 <= (u * (1 - u)) * q) by nra.
  nra.
Qed.

(** Tokens per second. *)
Definition rate_q (rate : Z) : Q := inject_Z (Z.max rate 1) / 60.
Definition burst_q (burst : Z) : Q := inject_Z (Z.max burst 1).

Lemma rate_q_lower rate : 1 <= 60 * rate_q rate.
Proof.
  unfold rate_q. assert (inject_Z 1 <= inject_Z (Z.max rate 1)) as H1 by (rewrite <- Zle_Qle; lia).
  change (inject_Z 1) with 1 in H1. assert (60 * (inject_Z (Z.max rate 1) / 60) == inject_Z (Z.max rate 1)) as -> by field.
  done.
Qed.

Lemma refill_upper rate (d : Z) : (0 <= d)%Z ->
  let p := rnd (as_secs_f64 d * rnd (rate_q rate)) in
  let x := secs d * rate_q rate in
  0 <= p /\ p <= x + ulp * (495 * x + 20 * rate_q rate + 11).
Proof.
  intros Hd. pose proof ulp_range as [Hu1 Hu2]. destruct (as_secs_upper d Hd) as [He1 He2].
  pose proof (rate_q_lower rate) as Hq. set (q := rate_q rate) in *. assert (0 <= q) as Hq0 by lra.
  pose proof (rnd_nonneg q Hq0) as Hr1. pose proof (rnd_upper q Hq0) as Hr2.
  pose proof (secs_nonneg d Hd) as Hs. cbv zeta.
  set (e := as_secs_f64 d) in *. set (r := rnd q) in *.
  assert (0 <= e * r) as Hy0 by nra.
  assert (e * r <= (secs d + ulp * (3 * secs d + 5)) * (q + ulp * (q + 1))) as Hy.
  { apply (Qle_trans _ ((secs d + ulp * (3 * secs d + 5)) * r)); [by apply Qmult_le_compat_r|].
    rewrite (Qmult_comm _ r), (Qmult_comm _ (q + _)). apply Qmult_le_compat_r; [done|]. nra. }
  pose proof (product_bound ulp (secs d) q Hu1 Hu2 Hs Hq0) as Hb.
  split; [by apply rnd_nonneg|]. pose proof (rnd_upper _ Hy0) as Hp.
  assert (secs d <= 60 * (secs d * q)) as Hd60 by nra.
  assert (0 <= secs d * q) as Hx0 by nra.
  set (x := secs d * q) in *. set (y := e * r) in *.
  assert (y <= x + ulp * (7 * x + 4 * secs d + 10 * q + 5)) as Hy'
    by (eapply Qle_trans; [exact Hy|exact Hb]).
  assert (ulp * (7 * x + 4 * secs d + 10 * q + 5) <= ulp * (247 * x + 10 * q + 5)) by (apply ulp_mono; lra).
  assert (ulp * (247 * x + 10 * q + 5) <= 247 * x + 10 * q + 5) by (apply ulp_le; lra).
  assert (ulp * y <= ulp * (x + (247 * x + 10 * q + 5))) as Huy by (apply ulp_mono; lra).
  lra.
Qed.

(** The rate a bucket lets through, with the rounding of its arithmetic. *)
Definition kappa (rate : Z) : Q := rate_q rate * (1 + 1000 * ulp).
Definition slack (rate burst : Z) : Q := ulp * (40 * rate_q rate + 2 * burst_q burst + 23).

Definition granted (r : Result unit Z) : Q := if is_ok r then 1 else 0.

Lemma burst_q_lower burst : 1 <= burst_q burst.
Proof. unfold burst_q. change 1 with (inject_Z 1) at 1. rewrite <- Zle_Qle. lia. Qed.
Lemma ulp_burst burst : (burst <= u32_max)%Z -> ulp * burst_q burst <= 1.
Proof.
  intros Hbu. apply (Qle_trans _ (ulp * inject_Z (2 ^ 32))); [apply ulp_mono|by vm_compute].
  unfold burst_q. rewrite <- Zle_Qle. unfold u32_max in Hbu. lia.
Qed.

Lemma take_potential rate burst now b r b' :
  (burst <= u32_max)%Z ->
  0 <= bk_tokens b -> bk_tokens b <= burst_q burst -> take rate burst now b = (r, b') ->
  0 <= bk_tokens b' /\ bk_tokens b' <= burst_q burst /\ bk_updated b' = now
  /\ granted r + bk_tokens b' <= bk_tokens b + kappa rate * secs (duration_since now (bk_updated b)) + slack rate burst.
Proof.
  intros Hbu Ht1 Ht2. pose proof ulp_range as [Hu1 Hu2]. unfold take.
  set (d := duration_since now (bk_updated b)). assert (0 <= d)%Z as Hd by (unfold d, duration_since; lia).
  destruct (refill_upper rate d Hd) as [Hp1 Hp2]. unfold rate_q in Hp1, Hp2. fold (rate_q rate) in Hp1, Hp2.
  change (inject_Z (Z.max rate 1) / 60) with (rate_q rate). set (p := rnd (as_secs_f64 d * rnd (rate_q rate))) in *.
  assert (0 <= bk_tokens b + p) as Hs0 by lra. pose proof (rnd_upper _ Hs0) as Hs. pose proof (rnd_nonneg _ Hs0) as Hs'.
  set (sum := rnd (bk_tokens b + p)) in *. change (inject_Z (Z.max burst 1)) with (burst_q burst).
  set (t := Qmin sum (burst_q burst)).
  pose proof (burst_q_lower burst) as HB1.
  assert (0 <= t /\ t <= burst_q burst /\ t <= sum) as (Hm1 & Hm2 & Hm3).
  { unfold t. split_and!; [by apply Q.min_glb; lra|apply Q.le_min_r|apply Q.le_min_l]. }
  pose proof (rate_q_lower rate) as Hq. pose proof (secs_nonneg d Hd) as Hsd.
  set (q := rate_q rate) in *. set (B := burst_q burst) in *. set (x := secs d * q) in *.
  assert (0 <= x) as Hx by (unfold x; nra).
  assert (sum <= bk_tokens b + x + ulp * (991 * x + 40 * q + B + 23)) as Hsum.
  { assert (ulp * (495 * x + 20 * q + 11) <= 495 * x + 20 * q + 11) by (apply ulp_le; lra).
    assert (ulp * p <= ulp * (x + (495 * x + 20 * q + 11))) by (apply ulp_mono; lra).
    assert (ulp * bk_tokens b <= ulp * B) by (apply ulp_mono; lra). lra. }
  assert (kappa rate * secs d == x + ulp * (1000 * x)) as Hk.
  { unfold kappa. fold q. unfold x. ring. }
  assert (0 <= ulp * x) as Hux by nra. assert (0 <= ulp * B) by nra.
  unfold slack. fold q B. destruct (Qleb 1 t) eqn:Hle; intros [= <- <-]; cbn [bk_tokens bk_updated].
  - apply Qle_bool_iff in Hle. assert (0 <= t - 1) as H1 by lra.
    pose proof (rnd_nonneg _ H1). pose proof (rnd_upper _ H1) as Hr.
    assert (ulp * t <= ulp * B) by (apply ulp_mono; lra). unfold granted. cbn [is_ok].
    pose proof (ulp_burst burst Hbu) as HuB. fold B in HuB.
    split_and!; [done|lra|done|rewrite Hk; lra].
  - unfold granted. cbn [is_ok]. split_and!; [done|done|done|rewrite Hk; lra].
Qed.

(** The same for a bucket of which only the sign is known: at most the burst. *)
Lemma take_fresh rate burst now b r b' :
  (burst <= u32_max)%Z -> 0 <= bk_tokens b -> take rate burst now b = (r, b') ->
  0 <= bk_tokens b' /\ bk_tokens b' <= burst_q burst /\ bk_updated b' = now
  /\ granted r + bk_tokens b' <= burst_q burst + slack rate burst.
Proof.
  intros Hbu Ht1. pose proof ulp_range as [Hu1 Hu2]. unfold take.
  set (d := duration_since now (bk_updated b)). assert (0 <= d)%Z as Hd by (unfold d, duration_since; lia).
  destruct (refill_upper rate d Hd) as [Hp1 _]. unfold rate_q in Hp1. fold (rate_q rate) in Hp1.
  change (inject_Z (Z.max rate 1) / 60) with (rate_q rate). set (p := rnd (as_secs_f64 d * rnd (rate_q rate))) in *.
  assert (0 <= bk_tokens b + p) as Hs0 by lra. pose proof (rnd_nonneg _ Hs0) as Hs'.
  change (inject_Z (Z.max burst 1)) with (burst_q burst). set (t := Qmin (rnd (bk_tokens b + p)) (burst_q burst)).
  pose proof (burst_q_lower burst) as HB1.
  assert (0 <= t /\ t <= burst_q burst) as (Hm1 & Hm2).
  { unfold t. split; [by apply Q.min_glb; lra|apply Q.le_min_r]. }
  pose proof (rate_q_lower rate) as Hq. unfold slack.
  assert (0 <= ulp * (40 * rate_q rate)) by nra. assert (0 <= ulp * burst_q burst) by nra.
  destruct (Qleb 1 t) eqn:Hle; intros [= <- <-]; cbn [bk_tokens bk_updated]; unfold granted; cbn [is_ok].
  - apply Qle_bool_iff in Hle. assert (0 <= t - 1) as H1 by lra.
    pose proof (rnd_nonneg _ H1). pose proof (rnd_upper _ H1) as Hr.
    assert (ulp * t <= ulp * burst_q burst) by (apply ulp_mono; lra).
    pose proof (ulp_burst burst Hbu). split_and!; [done|lra|done|lra].
  - split_and!; [done|done|done|lra].
Qed.
End Bucket.

(** ** Runs of the guard *)

Section Runs.
Context {F : F64} {FL : F64Laws} `{NetText}.

Definition bucket_of (id : string) (st : GuardRun) : option Bucket :=
  sv_bucket <$> ig_services (gr_guard st) !! id.

(** All admissions of [id] use one rate and one burst; bursts are [u32]. *)
Definition uses (id : string) (rate burst : Z) (op : GuardOp) : Prop :=
  match op with
  | OpAdmit id' limits _ _ =>
      0 <= rate_burst limits
      /\ (id' = id -> rate_limit_per_minute limits = rate /\ rate_burst limits = burst)
  | _ => True
  end.

Lemma services_client limits client now s r s' :
  admit_client limits client now s = (r, s') -> sv_bucket s' = sv_bucket s /\ sv_in_flight s' = sv_in_flight s.
Proof.
  unfold admit_client, take_keyed. set (s1 := if crowded _ _ (sv_clients s) then evict now s else s).
  assert (sv_bucket s1 = sv_bucket s /\ sv_in_flight s1 = sv_in_flight s) as [<- <-]
    by (unfold s1, evict; by repeat case_match).
  intros E. repeat (case_match; simplify_eq/=); done.
Qed.

Lemma service_take limits now s r s' : admit_service limits now s = (r, s') ->
  exists rt b, take (rate_limit_per_minute limits) (rate_burst limits) now (sv_bucket s) = (rt, b)
    /\ sv_bucket s' = b /\ (is_ok r = true -> is_ok rt = true)
    /\ sv_in_flight s' = (if is_ok r then sv_in_flight s + 1 else sv_in_flight s)
    /\ (is_ok r = true -> sv_in_flight s + 1 <= concurrency_limit limits).
Proof.
  unfold admit_service. destruct (take _ _ _ _) as [rt b] eqn:Et. intros E. exists rt, b.
  unfold maybe_warn in E. destruct rt as [[]|retry]; cbn in E.
  - destruct (concurrency_limit limits <? _) eqn:Hc; simplify_eq/=; [by case_match|].
    split_and!; try done. intros _. lia.
  - simplify_eq/=. by case_match.
Qed.

(** What one call does to the bucket and to the counter of an ingress. *)
Lemma admit_effect id limits peer headers now g r g' :
  admit_request id limits peer headers now g = (r, g') ->
  let s0 := default (service_new limits now) (ig_services g !! id) in
  exists s, ig_services g' = <[id := s]> (ig_services g)
    /\ sv_in_flight s = (if is_ok r then sv_in_flight s0 + 1 else sv_in_flight s0)
    /\ (is_ok r = true -> sv_in_flight s0 + 1 <= concurrency_limit limits)
    /\ ((is_ok r = false /\ sv_bucket s = sv_bucket s0)
        \/ exists rt b, take (rate_limit_per_minute limits) (rate_burst limits) now (sv_bucket s0) = (rt, b)
             /\ sv_bucket s = b /\ (is_ok r = true -> is_ok rt = true)).
Proof.
  unfold admit_request. set (client := client_ip (ig_trusted g) peer headers).
  set (enforced := configured (ig_trusted g) || _). set (s0 := default _ _). cbv zeta.
  set (s1 := if bool_decide (ci_source client = Fallback) then set_counters count_fallback s0 else s0).
  assert (sv_bucket s1 = sv_bucket s0 /\ sv_in_flight s1 = sv_in_flight s0) as [Hb1 Hf1] by (unfold s1; by case_match).
  assert (ig_services (if enforced then g else warn_private_peer_once g) = ig_services g) as Hg by by destruct enforced.
  destruct (if enforced then admit_client limits client now s1 else (Ok tt, s1)) as [rc s2] eqn:E2.
  assert (sv_bucket s2 = sv_bucket s0 /\ sv_in_flight s2 = sv_in_flight s0) as [Hb2 Hf2].
  { destruct enforced; [apply services_client in E2 as []|injection E2 as _ <-]; split; congruence. }
  destruct rc as [[]|retry].
  - destruct (admit_service limits now s2) as [r3 s3] eqn:E3. intros [= <- <-].
    apply service_take in E3 as (rt & b & Et & Hb & Hok & Hfl & Hlim). exists s3.
    assert (forall A B (x : Result A B) (k : A -> Admission), is_ok (match x with Ok a => Ok (k a) | Err e => Err e end) = is_ok x) as Hio
      by by intros ? ? [].
    cbn [ig_services set_services]. rewrite Hg. destruct r3 as [[]|e]; cbn [is_ok] in *;
      (split_and!; [done|congruence|intros; rewrite <- Hf2; auto|right]); exists rt, b; by rewrite <- Hb2.
  - intros [= <- <-]. exists (set_counters (count IpRateLimited) s2). cbn [ig_services set_services is_ok]. rewrite Hg.
    split_and!; [done|by rewrite <- Hf2|done|]. by left.
Qed.

Definition tokens_ok (o : option Bucket) : Prop := match o with Some b => (0 <= bk_tokens b)%Q | None => True end.

(** One call either leaves the bucket of an ingress alone, or creates it, or takes from it once. *)
Lemma step_bucket id rate burst now op st a st' :
  guard_step now op st = (a, st') -> uses id rate burst op -> tokens_ok (bucket_of id st) ->
  (a <> Some id /\ tokens_ok (bucket_of id st')
   /\ (bucket_of id st = None \/ bucket_of id st' = bucket_of id st))
  \/ exists b0 rt b, (0 <= bk_tokens b0)%Q /\ (bucket_of id st = None \/ bucket_of id st = Some b0)
       /\ take rate burst now b0 = (rt, b) /\ bucket_of id st' = Some b
       /\ (a = Some id -> is_ok rt = true).
Proof.
  unfold bucket_of. destruct op as [id' limits peer headers|peer headers|id' rej|i]; cbn [guard_step uses].
  - destruct (admit_request _ _ _ _ _ _) as [r g'] eqn:Ea. intros Eq [Hb0 Hu] Htok.
    assert (gr_guard st' = g' /\ a = (if is_ok r then Some id' else None)) as [Hg ->] by (by destruct r; simplify_eq/=).
    clear Eq. rewrite Hg. apply admit_effect in Ea as (s & Es & _ & _ & Ha). rewrite Es.
    destruct (decide (id' = id)) as [->|Hne].
    2:{ left. rewrite lookup_insert_ne by done. split_and!; [destruct r; cbn; congruence|done|by right]. }
    destruct (Hu eq_refl) as [<- <-]. rewrite lookup_insert_eq. cbn [fmap option_fmap option_map].
    set (s0 := default _ (ig_services (gr_guard st) !! id)) in *.
    assert (0 <= bk_tokens (sv_bucket s0))%Q as Hs0.
    { unfold s0. destruct (ig_services (gr_guard st) !! id) as [s1|]; cbn in *; [done|].
      change 0%Q with (inject_Z 0). by rewrite <- Zle_Qle. }
    assert (sv_bucket <$> ig_services (gr_guard st) !! id = None
            \/ sv_bucket <$> ig_services (gr_guard st) !! id = Some (sv_bucket s0)) as Hcase.
    { unfold s0. destruct (ig_services (gr_guard st) !! id); [by right|by left]. }
    destruct Ha as [[Hr Hb]|(rt & b & Et & Hb & Hok)].
    + left. rewrite Hr, Hb. split_and!; [done|done|]. destruct Hcase as [?|?]; [by left|by right].
    + right. exists (sv_bucket s0), rt, b. split_and!; [done|done|done|by rewrite Hb|destruct r; cbn in *; intros; [auto|done]].
  - intros [= <- <-] _ Htok. left. cbn [gr_guard]. split_and!; [done| |right];
      unfold admit_unknown_host; repeat case_match; done.
  - intros [= <- <-] _ Htok. left. cbn [gr_guard]. unfold record. cbn [ig_services set_services].
    destruct (decide (id' = id)) as [->|Hne]; [rewrite lookup_insert_eq|by rewrite lookup_insert_ne; auto].
    destruct (ig_services (gr_guard st) !! id) as [s1|]; cbn in *; split_and!; auto; done.
  - destruct (gr_permits st !! i) as [p|]; [|intros [= <- <-]; by left; auto].
    destruct (release p (gr_guard st)) as [p' g] eqn:Er. intros [= <- <-] _ Htok. left. cbn [gr_guard].
    assert (sv_bucket <$> ig_services g !! id = sv_bucket <$> ig_services (gr_guard st) !! id) as ->; [|by auto].
    unfold release in Er. destruct (pm_released p); simplify_eq/=; [done|].
    destruct (decide (pm_ingress p = id)) as [->|Hne]; [|by rewrite lookup_alter_ne].
    rewrite lookup_alter_eq. by destruct (ig_services (gr_guard st) !! id).
Qed.

(** A call reads the clock before it takes the lock, so the readings need not be in the order of the
    calls.  From a reading [t]: how far the clock moves forward from call to call, and how far back. *)
Fixpoint forward (t : Z) (ops : list (Z * GuardOp)) : Z :=
  match ops with [] => 0 | (now, _) :: ops' => Z.max 0 (now - t) + forward now ops' end.
Fixpoint set_back (t : Z) (ops : list (Z * GuardOp)) : Z :=
  match ops with [] => 0 | (now, _) :: ops' => Z.max 0 (t - now) + set_back now ops' end.

(** The readings are in the order of the calls. *)
Fixpoint in_order (t : Z) (ops : list (Z * GuardOp)) : Prop :=
  match ops with [] => True | (now, _) :: ops' => t <= now /\ in_order now ops' end.

Lemma forward_nonneg t ops : 0 <= forward t ops.
Proof. revert t. induction ops as [|[now op] ops IH]; intros t; simpl; [lia|]. specialize (IH now). lia. Qed.
Lemma forward_triangle a b ops : forward a ops <= Z.max 0 (b - a) + forward b ops.
Proof. destruct ops as [|[now op] ops]; simpl; lia. Qed.
Lemma forward_window tend t ops : t <= tend -> Forall (fun o => o.1 <= tend) ops ->
  forward t ops <= tend - t + set_back t ops.
Proof.
  intros Ht Hops. revert t Ht. induction Hops as [|[now op] ops Hnow _ IH]; intros t Ht; simpl; [lia|].
  specialize (IH now Hnow). simpl in *. lia.
Qed.
Lemma in_order_set_back t ops : in_order t ops -> set_back t ops = 0.
Proof.
  revert t. induction ops as [|[now op] ops IH]; intros t; simpl; [done|]. intros [Ht Ho]. rewrite (IH now Ho). lia.
Qed.

Lemma kappa_nonneg rate : (0 <= kappa rate)%Q.
Proof. unfold kappa. pose proof (rate_q_lower rate). pose proof ulp_range. nra. Qed.
Lemma slack_nonneg rate burst : (0 <= slack rate burst)%Q.
Proof.
  unfold slack. pose proof (rate_q_lower rate). pose proof ulp_range.
  assert (inject_Z 0 <= burst_q burst)%Q as Hb by (unfold burst_q; rewrite <- Zle_Qle; lia).
  change (inject_Z 0) with 0%Q in Hb. nra.
Qed.

Lemma count_le (P : Prop) `{Decision P} (r : Result unit Z) :
  (P -> is_ok r = true) -> (inject_Z (if bool_decide P then 1 else 0) <= granted r)%Q.
Proof.
  intros HP. unfold granted. case_bool_decide; [rewrite HP by done; done|]. by destruct (is_ok r).
Qed.

Section Rate.
Context (id : string) (rate burst : Z) (Hburst : burst <= u32_max).
Local Open Scope Q_scope.

Definition length_q (ops : list (Z * GuardOp)) : Q := inject_Z (Z.of_nat (length ops)).
Lemma length_q_cons o ops : length_q (o :: ops) == 1 + length_q ops.
Proof. unfold length_q. cbn [length]. rewrite Nat2Z.inj_succ, <- Z.add_1_l, inject_Z_plus. done. Qed.

Lemma gain_mono (d d' : Z) : (d <= d')%Z -> kappa rate * secs d <= kappa rate * secs d'.
Proof.
  intros Hd. pose proof (kappa_nonneg rate). pose proof (secs_nonneg (d' - d) ltac:(lia)) as Hs.
  assert (secs d' == secs d + secs (d' - d)) as -> by (rewrite <- secs_plus; f_equiv; lia). nra.
Qed.
Lemma gain_plus (d d' : Z) : kappa rate * secs (d + d') == kappa rate * secs d + kappa rate * secs d'.
Proof. rewrite secs_plus. ring. Qed.

(** From a bucket within its burst: its tokens and what it gains. *)
Lemma admitted_from_bucket ops : Forall (fun o => uses id rate burst o.2) ops ->
  forall st b, bucket_of id st = Some b -> 0 <= bk_tokens b -> bk_tokens b <= burst_q burst ->
  inject_Z (admitted id ops st)
  <= bk_tokens b + kappa rate * secs (forward (bk_updated b) ops) + length_q ops * slack rate burst.
Proof.
  pose proof (slack_nonneg rate burst) as Hsl.
  induction 1 as [|[now op] ops Hop _ IH]; intros st b Hb Ht1 Ht2.
  - cbn [admitted forward]. change (length_q []) with 0. change (inject_Z 0) with 0.
    pose proof (kappa_nonneg rate). pose proof (secs_nonneg 0 ltac:(lia)). nra.
  - cbn [snd] in Hop. cbn [admitted forward]. destruct (guard_step now op st) as [a st'] eqn:Es.
    rewrite inject_Z_plus, length_q_cons.
    apply (step_bucket id rate burst) in Es as [(Ha & _ & Hsame)|(b0 & rt & b' & _ & Hb0 & Et & Hb' & Hok)];
      [| |done|by rewrite Hb].
    + destruct Hsame as [?|Hsame]; [congruence|]. rewrite bool_decide_eq_false_2 by done.
      assert (bucket_of id st' = Some b) as Hb' by congruence. pose proof (IH st' b Hb' Ht1 Ht2).
      pose proof (gain_mono _ _ (forward_triangle (bk_updated b) now ops)). change (inject_Z 0) with 0. lra.
    + assert (b0 = b) as -> by (destruct Hb0; congruence). pose proof (count_le (a = Some id) rt Hok) as Hc.
      destruct (take_potential _ _ _ _ _ _ Hburst Ht1 Ht2 Et) as (Hp1 & Hp2 & Hp3 & Hp4).
      pose proof (IH st' b' Hb' Hp1 Hp2) as Hi. rewrite Hp3 in Hi. rewrite gain_plus.
      assert (duration_since now (bk_updated b) = Z.max 0 (now - bk_updated b)) as Hd by (unfold duration_since; lia).
      rewrite Hd in Hp4. lra.
Qed.

Lemma admitted_bound ops : Forall (fun o => uses id rate burst o.2) ops ->
  forall t st, tokens_ok (bucket_of id st) ->
  inject_Z (admitted id ops st)
  <= burst_q burst + kappa rate * secs (forward t ops) + length_q ops * slack rate burst.
Proof.
  pose proof (slack_nonneg rate burst) as Hsl. pose proof (burst_q_lower burst) as HB.
  induction 1 as [|[now op] ops Hop Hu IH]; intros t st Htok.
  - cbn [admitted forward]. change (length_q []) with 0. change (inject_Z 0) with 0.
    pose proof (kappa_nonneg rate). pose proof (secs_nonneg 0 ltac:(lia)). nra.
  - cbn [snd] in Hop. cbn [admitted forward]. destruct (guard_step now op st) as [a st'] eqn:Es.
    rewrite inject_Z_plus, length_q_cons, gain_plus.
    assert (0 <= kappa rate * secs (Z.max 0 (now - t))) as Hgap
      by (apply Qmult_le_0_compat; [apply kappa_nonneg|apply secs_nonneg; lia]).
    apply (step_bucket id rate burst) in Es as [(Ha & Htok' & _)|(b0 & rt & b' & Hb0 & _ & Et & Hb' & Hok)];
      [| |done|done].
    + rewrite bool_decide_eq_false_2 by done. pose proof (IH now st' Htok'). change (inject_Z 0) with 0. lra.
    + pose proof (count_le (a = Some id) rt Hok) as Hc.
      destruct (take_fresh _ _ _ _ _ _ Hburst Hb0 Et) as (Hp1 & Hp2 & Hp3 & Hp4).
      pose proof (admitted_from_bucket ops Hu st' b' Hb' Hp1 Hp2) as Hi. rewrite Hp3 in Hi. lra.
Qed.
End Rate.
End Runs.

(** ** In-flight requests *)

Section Flight.
Context {F : F64} `{NetText}.

Definition holds_slot (id : string) (p : Permit) : bool := bool_decide (pm_ingress p = id) && negb (pm_released p).
Definition live (id : string) (permits : list Permit) : Z := Z.of_nat (length (List.filter (holds_slot id) permits)).
Definition in_flight (id : string) (g : IngressGuard) : Z := default 0 (sv_in_flight <$> ig_services g !! id).

(** Every admission of the operation is under the limit. *)
Definition limited (limit : Z) (op : GuardOp) : Prop :=
  match op with OpAdmit _ limits _ _ => concurrency_limit limits <= limit | _ => True end.

Definition flight_ok (limit : Z) (st : GuardRun) : Prop :=
  forall id, in_flight id (gr_guard st) = live id (gr_permits st) /\ live id (gr_permits st) <= limit.

Lemma live_nonneg id l : 0 <= live id l.
Proof. unfold live. lia. Qed.
Lemma live_nil id : live id [] = 0.
Proof. done. Qed.
Lemma live_app id l l' : live id (l ++ l') = live id l + live id l'.
Proof. unfold live. rewrite List.filter_app, length_app. lia. Qed.
Lemma live_cons id p l : live id (p :: l) = (if holds_slot id p then 1 else 0) + live id l.
Proof. unfold live. cbn [List.filter]. destruct (holds_slot id p); cbn [length]; lia. Qed.
Lemma live_insert id l i p q : l !! i = Some p ->
  live id (<[i := q]> l) = live id l - (if holds_slot id p then 1 else 0) + (if holds_slot id q then 1 else 0).
Proof.
  intros Hi. rewrite <- (take_drop_middle l i p Hi) at 2.
  rewrite insert_take_drop by (by eapply lookup_lt_Some). rewrite !live_app, !live_cons. lia.
Qed.

Lemma in_flight_same id g g' : ig_services g' = ig_services g -> in_flight id g' = in_flight id g.
Proof. unfold in_flight. by intros ->. Qed.

(** A release takes one slot off its ingress, once. *)
Lemma release_effect p g p' g' id : release p g = (p', g') ->
  (pm_released p = true /\ p' = p /\ g' = g)
  \/ (pm_released p = false /\ p' = mkPermit (pm_ingress p) true
      /\ (in_flight (pm_ingress p) g <> 0 -> in_flight (pm_ingress p) g' = (in_flight (pm_ingress p) g - 1) mod 2 ^ 64)
      /\ (id <> pm_ingress p -> in_flight id g' = in_flight id g)).
Proof.
  unfold release. destruct (pm_released p); intros [= <- <-]; [by left|right].
  unfold in_flight. cbn [ig_services set_services]. split_and!; [done|done| |].
  - rewrite lookup_alter_eq. by destruct (ig_services g !! pm_ingress p).
  - intros. by rewrite lookup_alter_ne.
Qed.

Lemma admit_flight id limits peer headers now g r g' : admit_request id limits peer headers now g = (r, g') ->
  in_flight id g' = in_flight id g + (if is_ok r then 1 else 0)
  /\ (is_ok r = true -> in_flight id g + 1 <= concurrency_limit limits)
  /\ (forall id', id' <> id -> in_flight id' g' = in_flight id' g).
Proof.
  intros Ea. apply admit_effect in Ea as (s & Es & Hf & Hl & _). unfold in_flight. rewrite Es.
  assert (sv_in_flight (default (service_new limits now) (ig_services g !! id))
          = default 0 (sv_in_flight <$> ig_services g !! id)) as Hd by by destruct (ig_services g !! id).
  rewrite Hd in *. split_and!; [|done|].
  - rewrite lookup_insert_eq. cbn. rewrite Hf. destruct (is_ok r); lia.
  - intros id' Hne. by rewrite lookup_insert_ne.
Qed.

Lemma step_flight limit now op st a st' : limit <= u32_max -> guard_step now op st = (a, st') -> limited limit op ->
  flight_ok limit st -> flight_ok limit st'.
Proof.
  intros Hlim Es Hop Hok id. destruct (Hok id) as [Hi Hb]. pose proof (live_nonneg id (gr_permits st)) as H0.
  destruct op as [id' limits peer headers|peer headers|id' rej|i]; cbn [guard_step limited] in *.
  - destruct (admit_request _ _ _ _ _ _) as [r g'] eqn:Ea. apply admit_flight in Ea as (Hf & Hl & Hne).
    destruct r as [ad|e]; simplify_eq/=.
    + rewrite live_app, live_cons, live_nil. unfold holds_slot. cbn [pm_ingress pm_released negb].
      case_bool_decide; subst; cbn [andb]; [|rewrite Hne by done; lia].
      rewrite Hf. specialize (Hl eq_refl). lia.
    + destruct (decide (id = id')) as [->|]; [rewrite Hf; lia|by rewrite Hne].
  - simplify_eq/=. rewrite (in_flight_same id (gr_guard st)); [done|].
    unfold admit_unknown_host. repeat case_match; done.
  - simplify_eq/=. unfold in_flight, record in *. cbn [ig_services set_services].
    destruct (decide (id = id')) as [->|]; [|by rewrite lookup_insert_ne].
    rewrite lookup_insert_eq. cbn. destruct (ig_services (gr_guard st) !! id'); cbn in *; by split.
  - destruct (gr_permits st !! i) as [p|] eqn:Hp; [|by simplify_eq].
    destruct (release p (gr_guard st)) as [p' g'] eqn:Er. simplify_eq/=.
    rewrite (live_insert _ _ _ _ _ Hp).
    destruct (release_effect _ _ _ _ id Er) as [(_ & -> & ->)|(Hr & -> & Hdec & Hother)]; [lia|].
    unfold holds_slot. cbn [pm_ingress pm_released]. rewrite Hr. cbn [negb]. rewrite andb_true_r, andb_false_r.
    case_bool_decide as Hid; [|rewrite Hother by done; lia]. subst id.
    assert (1 <= live (pm_ingress p) (gr_permits st)) as H1.
    { rewrite <- (take_drop_middle _ _ _ Hp), live_app, live_cons. unfold holds_slot at 1.
      rewrite bool_decide_eq_true_2, Hr by done. cbn [negb andb].
      match goal with |- _ <= live ?i ?a + (_ + live ?i ?b) => pose proof (live_nonneg i a); pose proof (live_nonneg i b) end.
      lia. }
    unfold u32_max in Hlim. rewrite Hdec by lia. rewrite Z.mod_small by lia. lia.
Qed.

(** A request is refused for concurrency only at the limit. *)
Lemma concurrency_refusal id limits peer headers now g e g' :
  admit_request id limits peer headers now g = (Err e, g') -> rf_rejection e = ConcurrencyLimited ->
  concurrency_limit limits <= in_flight id g.
Proof.
  unfold admit_request, in_flight. set (client := client_ip (ig_trusted g) peer headers).
  set (s0 := default _ _).
  assert (default 0 (sv_in_flight <$> ig_services g !! id) = sv_in_flight s0) as ->
    by (unfold s0; by destruct (ig_services g !! id)).
  set (s1 := if bool_decide (ci_source client = Fallback) then set_counters count_fallback s0 else s0).
  assert (sv_in_flight s1 = sv_in_flight s0) as <- by (unfold s1; by case_match).
  destruct (if _ || _ then admit_client limits client now s1 else (Ok tt, s1)) as [rc s2] eqn:E2.
  assert (sv_in_flight s2 = sv_in_flight s1) as <- by (case_match; simplify_eq/=; [by apply services_client in E2 as []|done]).
  destruct rc; [|intros; by simplify_eq/=]. unfold admit_service.
  destruct (take _ _ _ _) as [[[]|w] b]; cbn [sv_in_flight set_bucket]; [|intros; by simplify_eq/=].
  destruct (concurrency_limit limits <? sv_in_flight s2 + 1) eqn:Hc; intros; simplify_eq/=. lia.
Qed.

Lemma flight_run limit ops : limit <= u32_max -> Forall (fun o => limited limit o.2) ops ->
  forall st, flight_ok limit st -> flight_ok limit (guard_run ops st).
Proof.
  intros Hlim. induction 1 as [|[now op] ops Hop Hops IH]; intros st Hst; cbn [guard_run]; [done|].
  apply IH. destruct (guard_step now op st) as [a st'] eqn:E. by eapply step_flight.
Qed.

Lemma flight_new limit trusted now : 0 <= limit -> flight_ok limit (mkGuardRun (guard_new trusted now) []).
Proof. intros Hl id. unfold in_flight, guard_new. cbn [gr_guard ig_services gr_permits]. by rewrite lookup_empty. Qed.
End Flight.

(** ** The verified client *)

Section Client.
Context `{NetText}.

(** A hop the search from the right goes over: it is no address, or a trusted one. *)
Definition passed_over (t : TrustedProxies) (hop : string) : Prop :=
  forall b, parse_forwarded_ip (trim hop) = Some b -> trusts t b = true.

Lemma untrusted_hop_some t hop b :
  untrusted_hop t hop = Some b <-> parse_forwarded_ip (trim hop) = Some b /\ trusts t b = false.
Proof.
  unfold untrusted_hop, opt_filter. destruct (parse_forwarded_ip (trim hop)) as [c|]; [|naive_solver]. cbn.
  destruct (trusts t c) eqn:Ht; naive_solver congruence.
Qed.
Lemma untrusted_hop_none t hop : untrusted_hop t hop = None <-> passed_over t hop.
Proof.
  unfold untrusted_hop, opt_filter, passed_over. destruct (parse_forwarded_ip (trim hop)) as [c|]; [|naive_solver]. cbn.
  destruct (trusts t c) eqn:Ht; naive_solver congruence.
Qed.

(** The last hop that is an untrusted address, and only trusted or unreadable ones after it. *)
Lemma find_map_none {A B} (f : A -> option B) l : find_map f l = None <-> Forall (fun x => f x = None) l.
Proof.
  induction l as [|x l IH]; cbn; [by split|]. rewrite Forall_cons. destruct (f x); naive_solver.
Qed.
Lemma find_map_some {A B} (f : A -> option B) l b :
  find_map f l = Some b <-> exists pre x post, l = pre ++ x :: post /\ Forall (fun y => f y = None) pre /\ f x = Some b.
Proof.
  split.
  - induction l as [|x l IH]; [done|]. cbn. destruct (f x) as [c|] eqn:E.
    + intros [= ->]. exists [], x, l. by repeat constructor.
    + intros (pre & y & post & -> & Hp & Hy)%IH. exists (x :: pre), y, post. by repeat constructor.
  - intros (pre & x & post & -> & Hp & Hx). induction Hp as [|y pre Hy _ IH]; cbn; [by rewrite Hx|by rewrite Hy].
Qed.

Lemma resolve_some t text b : resolve_header t "x-forwarded-for" text = Some b <->
  exists before hop after, split_on "," text = before ++ hop :: after /\ Forall (passed_over t) after
    /\ parse_forwarded_ip (trim hop) = Some b /\ trusts t b = false.
Proof.
  unfold resolve_header. rewrite String.eqb_refl, find_map_some. setoid_rewrite untrusted_hop_none.
  setoid_rewrite untrusted_hop_some. split.
  - intros (pre & x & post & Hl & Hp & Hx). exists (rev post), x, (rev pre). split_and!; try by apply Hx.
    + rewrite <- (rev_involutive (split_on "," text)), Hl, rev_app_distr. simpl. by rewrite <- app_assoc.
    + by apply Forall_rev.
  - intros (before & x & after & Hl & Hp & Hx). exists (rev after), x, (rev before). split; [|split; [|done]].
    + rewrite Hl, rev_app_distr. simpl. by rewrite <- app_assoc.
    + by apply Forall_rev.
Qed.
Lemma resolve_none t text : resolve_header t "x-forwarded-for" text = None <-> Forall (passed_over t) (split_on "," text).
Proof.
  unfold resolve_header. rewrite String.eqb_refl, find_map_none. setoid_rewrite untrusted_hop_none.
  split; intros Hp; [|by apply Forall_rev]. rewrite <- (rev_involutive (split_on "," text)). by apply Forall_rev.
Qed.

Lemma find_map_app {A B} (f : A -> option B) l l' : find_map f (l ++ l') = or_else (find_map f l) (find_map f l').
Proof. induction l as [|x l IH]; [done|]. cbn. destruct (f x); [done|apply IH]. Qed.

(** The hops a client wrote left of the first untrusted hop do not count. *)
Lemma resolve_suffix t before tail a : resolve_header t "x-forwarded-for" tail = Some a ->
  resolve_header t "x-forwarded-for" (before +:+ String "," tail) = Some a.
Proof.
  unfold resolve_header. rewrite String.eqb_refl. intros Ha.
  by rewrite split_on_app_sep, rev_app_distr, find_map_app, Ha.
Qed.

(** The cases of [client_ip]. *)
Lemma client_peer t peer headers : tp_header t = None \/ trusts t (normalize peer) = false ->
  client_ip t peer headers = mkClientIp (normalize peer) Peer.
Proof. unfold client_ip. intros [-> | ->]; [done|]. by destruct (tp_header t). Qed.
Lemma client_forwarded t peer headers value text :
  trusts t (normalize peer) = true -> tp_header t = Some "x-forwarded-for"%string ->
  get_all "x-forwarded-for" headers = [value] -> to_str value = Some text ->
  client_ip t peer headers = match resolve_header t "x-forwarded-for" text with
                             | Some b => mkClientIp (normalize b) TrustedHeader
                             | None => mkClientIp (normalize peer) Fallback
                             end.
Proof. intros Ht Hh Hg Hs. unfold client_ip. by rewrite Hh, Ht, Hg, Hs. Qed.
Lemma client_unreadable t peer headers :
  trusts t (normalize peer) = true -> tp_header t = Some "x-forwarded-for"%string ->
  (forall value text, get_all "x-forwarded-for" headers = [value] -> to_str value <> Some text) ->
  client_ip t peer headers = mkClientIp (normalize peer) Fallback.
Proof.
  intros Ht Hh Hn. unfold client_ip. rewrite Hh, Ht. cbn [negb].
  destruct (get_all "x-forwarded-for" headers) as [|value [|? ?]] eqn:Hg; [done| |done].
  destruct (to_str value) as [text|] eqn:Hs; [|done]. by destruct (Hn value text eq_refl).
Qed.

(** A hop that is no address is passed over, and what the client wrote before it counts. *)
Lemma resolve_unparsable t before hop : contains_char "," hop = false -> parse_forwarded_ip (trim hop) = None ->
  resolve_header t "x-forwarded-for" (before +:+ String "," hop) = resolve_header t "x-forwarded-for" before.
Proof.
  intros Hc Hp. unfold resolve_header. rewrite String.eqb_refl, split_on_app_sep, (split_on_none _ hop) by done.
  rewrite rev_app_distr, find_map_app. cbn. unfold untrusted_hop. by rewrite Hp.
Qed.
End Client.

(** ** The properties *)

Section Claims.
Context {F : F64} {FL : F64Laws} `{NetText}.

(** C24: whatever calls the guard serves, in any order of the lock, the requests admitted to one
    ingress whose readings of the clock are between two instants are at most its burst plus what its
    rate yields in that time and in the time the clock is set back.  A call reads the clock before it
    takes the lock; the time it is set back is the sum of how much a call's reading is before that of
    the call served just before it, and is zero when readings are in the order of the calls.  The
    rounding of the arithmetic adds a part of [10 ^ -12] of the rate, and to each call less than
    [10 ^ -10] for the limits the program accepts. *)
Theorem admitted_within_rate (id : string) (rate burst t0 tend : Z) (ops : list (Z * GuardOp)) (st : GuardRun) :
  burst <= u32_max -> t0 <= tend -> Forall (fun o => t0 <= o.1 <= tend) ops ->
  Forall (fun o => uses id rate burst o.2) ops -> tokens_ok (bucket_of id st) ->
  (inject_Z (admitted id ops st)
   <= burst_q burst + kappa rate * secs (tend - t0 + set_back t0 ops) + length_q ops * slack rate burst)%Q
  /\ (in_order t0 ops -> set_back t0 ops = 0).
Proof.
  intros Hbu Ht Hops Hu Htok. split; [|apply in_order_set_back].
  eapply Qle_trans; [by apply (admitted_bound id rate burst Hbu ops Hu t0)|].
  apply Qplus_le_compat; [|apply Qle_refl]. apply Qplus_le_compat; [apply Qle_refl|].
  apply gain_mono, forward_window; [done|]. eapply Forall_impl; [exact Hops|]. intros o. simpl. lia.
Qed.

(** In every run from a new guard the counter of each ingress is exactly its permits that were
    not returned, however often and in whatever order they are returned, and stays within the
    limit; so a request is turned away for concurrency only when that many are in flight. *)
Theorem slots_match_permits (limit : Z) (trusted : TrustedProxies) (now0 : Z) (ops : list (Z * GuardOp)) :
  0 <= limit <= u32_max -> Forall (fun o => limited limit o.2) ops ->
  let st := guard_run ops (mkGuardRun (guard_new trusted now0) []) in
  (forall id, in_flight id (gr_guard st) = live id (gr_permits st) /\ live id (gr_permits st) <= limit)
  /\ forall id limits peer headers now e g',
       admit_request id limits peer headers now (gr_guard st) = (Err e, g') -> rf_rejection e = ConcurrencyLimited ->
       concurrency_limit limits <= live id (gr_permits st).
Proof.
  intros Hl Hops st. assert (flight_ok limit st) as Hok by (apply flight_run; [lia|done|apply flight_new; lia]).
  split; [exact Hok|]. intros id limits peer headers now e g' Ea Hr. destruct (Hok id) as [<- _].
  apply concurrency_refusal in Ea; done.
Qed.

(** C27: the verified client address of a request.  From a peer that is no configured front, or when
    no header is configured, it is the peer and the headers do not count at all.  Through a front with [X-Forwarded-For] that sends one readable list of hops it
    is the address of the last hop that is an address and no trusted one, and only when there is no
    such hop the front's own; without exactly one readable value it is the front's own, too.  So whatever the
    client put to the left of a part that has such a hop does not count.  A hop that is no address
    is passed over like a trusted one: a client does choose the address when what the front adds
    cannot be read. *)
Theorem verified_client_is_exact (t : TrustedProxies) (peer : IpAddr) (headers : HeaderMap) :
  (tp_header t = None \/ trusts t (normalize peer) = false -> client_ip t peer headers = mkClientIp (normalize peer) Peer)
  /\ (trusts t (normalize peer) = true -> tp_header t = Some "x-forwarded-for"%string ->
       (forall value text, get_all "x-forwarded-for" headers = [value] -> to_str value = Some text ->
          (forall a, client_ip t peer headers = mkClientIp a TrustedHeader <->
             exists before hop after b, split_on "," text = before ++ hop :: after /\ Forall (passed_over t) after
               /\ parse_forwarded_ip (trim hop) = Some b /\ trusts t b = false /\ a = normalize b)
          /\ (client_ip t peer headers = mkClientIp (normalize peer) Fallback <->
                Forall (passed_over t) (split_on "," text))
          /\ forall before before' tail value' headers', text = before +:+ String "," tail ->
               ~ Forall (passed_over t) (split_on "," tail) ->
               get_all "x-forwarded-for" headers' = [value'] -> to_str value' = Some (before' +:+ String "," tail) ->
               client_ip t peer headers' = client_ip t peer headers)
       /\ ((forall value text, get_all "x-forwarded-for" headers = [value] -> to_str value <> Some text) ->
            client_ip t peer headers = mkClientIp (normalize peer) Fallback)).
Proof.
  split; [by apply client_peer|]. intros Ht Hh. split; [|by apply client_unreadable].
  intros value text Hg Hs. rewrite (client_forwarded _ _ _ _ _ Ht Hh Hg Hs). split_and!.
  - intros a. destruct (resolve_header t "x-forwarded-for" text) as [b|] eqn:E.
    + split; [intros [= <-]; apply resolve_some in E; naive_solver|].
      intros (before & hop & after & b' & Hl & Hp & Hb & Htb & ->).
      assert (resolve_header t "x-forwarded-for" text = Some b') as E' by (apply resolve_some; eauto 10). congruence.
    + split; [done|]. intros (before & hop & after & b' & Hl & Hp & Hb & Htb & ->).
      assert (resolve_header t "x-forwarded-for" text = Some b') as E' by (apply resolve_some; eauto 10). congruence.
  - rewrite <- resolve_none. destruct (resolve_header t "x-forwarded-for" text); split; done.
  - intros before before' tail value' headers' -> Hn Hg' Hs'. rewrite (client_forwarded _ _ _ _ _ Ht Hh Hg' Hs').
    rewrite <- resolve_none in Hn. destruct (resolve_header t "x-forwarded-for" tail) as [b|] eqn:E; [|by destruct Hn].
    by rewrite !(resolve_suffix _ _ _ _ E).
Qed.
End Claims.

(** * A concrete instance of the ingress guard and the witnesses of its properties *)

(** ** An instance

    Exact arithmetic satisfies the laws of rounding.  Addresses are written as one decimal digit,
    networks as a digit too: the addresses of that bit count. *)

#[export] Instance exact_f64 : F64 := {| rnd q := q |}.
#[export] Instance exact_f64_laws : F64Laws.
Proof.
  split; cbn; [done| |done]. intros q Hq. pose proof ulp_range as [Hu _]. nra.
Qed.

Definition digit_ip (s : string) : option IpAddr :=
  match s with
  | String c EmptyString => let n := Z.of_nat (Ascii.nat_of_ascii c) - 48 in if between 0 n 9 then Some (V4 n) else None
  | _ => None
  end.

#[export] Instance sample_text : NetText := {|
  parse_net s := None;
  net_of_ip a := match a with V4 z => NetV4 z 32 | V6 z => NetV6 z 128 end;
  net_contains n a := match n, a with
                      | NetV4 z p, V4 a => Z.shiftr z (32 - p) =? Z.shiftr a (32 - p)
                      | NetV6 z p, V6 a => Z.shiftr z (128 - p) =? Z.shiftr a (128 - p)
                      | _, _ => false
                      end;
  parse_ip := digit_ip;
  parse_socket_ip s := None;
  parse_ipv6 s := None;
  header_name s := if is_empty s then None else Some s;
  to_str s := Some s
|}.

(** One trusted front, at address 9. *)
Definition front : TrustedProxies := mkTrustedProxies [NetV4 9 32] (Some "x-forwarded-for"%string).

Example front_parses : trusted_parse [" 9 "%string] (Some "X-Forwarded-For"%string) false = Ok front.
Proof. by vm_compute. Qed.

Definition small_limits : EffectiveIngressLimits := mkEffectiveIngressLimits 60 2 1 120 30 1024 35 60.
Definition forwarded (s : string) : HeaderMap := [("host", "a"); ("x-forwarded-for", s)]%string.

Definition sec (n : Z) : Z := from_secs n.
Definition one_request : GuardOp := OpAdmit "web" small_limits (V4 9) (forwarded "1, 5").
Definition day : list (Z * GuardOp) :=
  [(sec 0, one_request); (sec 0, one_request); (sec 0, OpRelease 0); (sec 0, OpRelease 0);
   (sec 0, OpRecord "web" BodyTimeout); (sec 1, one_request); (sec 1, one_request);
   (sec 1, OpUnknownHost (V4 9) (forwarded "5")); (sec 2, OpRelease 1)].
Definition quiet : GuardRun := mkGuardRun (guard_new front 0) [].

(** Of four requests one meets a full slot and one an empty bucket. *)
Example day_admits : admitted "web" day quiet = 2.
Proof. by vm_compute. Qed.
Example day_ends : gr_permits (guard_run day quiet) = [mkPermit "web" true; mkPermit "web" true].
Proof. by vm_compute. Qed.

(** A call that read the clock at second 2 and gets the lock after one of second 10 moves the bucket
    back: the eight seconds are credited again to the next call. *)
Definition bucket_at (calls : list Z) : Bucket :=
  foldl (fun b now => (take 60 100 now b).2) (mkBucket 1 0 0) (sec <$> calls).
Example late_lock_refills_twice :
  Qeq_bool (bk_tokens (bucket_at [2; 10; 10])) 8 = true /\ Qeq_bool (bk_tokens (bucket_at [10; 2; 10])) 16 = true.
Proof. split; by vm_compute. Qed.

(** ** Witnesses *)

Ltac each_call := repeat (apply Forall_cons; split; [cbn; first [exact I | done | split; done | lia]|]); apply Forall_nil; done.

(** The second call was served late. *)
Definition late_day : list (Z * GuardOp) := (sec 1, one_request) :: day.
Lemma admitted_within_rate_witness :
  set_back 0 late_day = sec 1
  /\ (inject_Z (admitted "web" late_day quiet)
      <= burst_q 2 + kappa 60 * secs (sec 2 - 0 + set_back 0 late_day) + length_q late_day * slack 60 2)%Q
  /\ (in_order 0 late_day -> set_back 0 late_day = 0).
Proof.
  split; [by vm_compute|].
  apply (admitted_within_rate "web" 60 2 0 (sec 2) late_day quiet);
    [by vm_compute|by vm_compute|by repeat (apply Forall_cons; split; [by vm_compute|])|each_call|exact I].
Defined.

Lemma slots_match_permits_witness :
  let st := guard_run day quiet in
  (forall id, in_flight id (gr_guard st) = live id (gr_permits st) /\ live id (gr_permits st) <= 1)
  /\ forall id limits peer headers now e g',
       admit_request id limits peer headers now (gr_guard st) = (Err e, g') -> rf_rejection e = ConcurrencyLimited ->
       concurrency_limit limits <= live id (gr_permits st).
Proof. apply (slots_match_permits 1 front 0 day); [by vm_compute|each_call]. Defined.

(** The client sent [1] and the front added [5]; it does not matter that the client sent [1]. *)
Lemma verified_client_is_exact_witness :
  client_ip front (V4 9) (forwarded "1, 5") = mkClientIp (V4 5) TrustedHeader
  /\ client_ip front (V4 7) (forwarded "1, 5") = mkClientIp (V4 7) Peer
  /\ client_ip front (V4 9) (forwarded "2, 5") = client_ip front (V4 9) (forwarded "1, 5")
  /\ client_ip front (V4 9) (forwarded "9, x") = mkClientIp (V4 9) Fallback.
Proof.
  destruct (verified_client_is_exact front (V4 9) (forwarded "1, 5")) as [_ H].
  destruct (H ltac:(vm_compute; reflexivity) ltac:(vm_compute; reflexivity)) as [H1 _].
  destruct (H1 "1, 5" "1, 5" ltac:(vm_compute; reflexivity) ltac:(vm_compute; reflexivity))%string as (Hsome & _ & Hsame).
  destruct (verified_client_is_exact front (V4 9) (forwarded "9, x")) as [_ H2].
  destruct (H2 ltac:(vm_compute; reflexivity) ltac:(vm_compute; reflexivity)) as [H3 _].
  destruct (H3 "9, x" "9, x" ltac:(vm_compute; reflexivity) ltac:(vm_compute; reflexivity))%string as (_ & Hnone & _).
  split_and!.
  - apply Hsome. exists ["1"%string], " 5"%string, [], (V4 5). repeat split; [constructor].
  - apply (verified_client_is_exact front (V4 7) (forwarded "1, 5")). right. by vm_compute.
  - apply (Hsame "1" "2" " 5" "2, 5" (forwarded "2, 5"))%string; [by vm_compute| |by vm_compute..].
    intros Hf. inversion Hf as [|? ? Hx _]; subst. specialize (Hx (V4 5) eq_refl). vm_compute in Hx. discriminate.
  - apply Hnone. repeat constructor; intros b Hb; vm_compute in Hb; simplify_eq; by vm_compute.
Defined.
