(* ===== verification/Traffic.v ===== *)
(** * Traffic accounting (crates/treer-proxy/src/traffic.rs and traffic_persistence.rs)

    Streams count their payload in shared atomic counters, and a flush task moves what they hold
    into a table of hourly totals.  A counter is a cell that the registry and every live stream
    share ([Arc]); an addition is one atomic step that takes no lock, so it falls between any two
    steps of a flush.  The flush is a state machine ([Phase]): it swaps the counters out one field
    at a time, writes them in one transaction, puts them back when that fails, and removes the
    counters no stream holds.  A recorder with [rc_agent_detail] is the second one that
    [agent_view] makes, with a table of its own.  A recorder without a database only counts. *)

From stdpp Require Import gmap sorting.
From S2P Require Import Prelude RustStr Protocol.

Local Open Scope Z_scope.

(** ** Data *)

Definition MAX_ROWS_PER_INSERT : nat := 500.
Definition METER_VERSION : Z := 1.
Definition RETENTION : Z := from_secs (90 * 24 * 60 * 60).
Definition BROWSER_TRAFFIC_ENDPOINT : string := "browser".
Definition ENDPOINT_CLIENT : string := "client".
Definition ENDPOINT_MACHINE : string := "machine".

Inductive TrafficClass : Type := VirtualNetwork | ServiceIngress | VirtualHost | AgentInterface | DirectNetwork.
Definition traffic_class_as_str (c : TrafficClass) : string :=
  match c with
  | VirtualNetwork => "virtual_network"
  | ServiceIngress => "service_ingress"
  | VirtualHost => "virtual_host"
  | AgentInterface => "agent_interface"
  | DirectNetwork => "direct_network"
  end.

Record TrafficKey : Type := mkTrafficKey {
  tk_workspace_id : string;
  tk_traffic_class : string;
  tk_source_type : string;
  tk_source_server_id : string;
  tk_destination_type : string;
  tk_destination_server_id : string;
  tk_meter_version : Z
}.
#[export] Instance TrafficKey_eq_dec : EqDecision TrafficKey.
Proof. solve_decision. Defined.
#[export] Instance TrafficKey_countable : Countable TrafficKey.
Proof.
  refine (inj_countable
            (fun k => ([tk_workspace_id k; tk_traffic_class k; tk_source_type k; tk_source_server_id k;
                        tk_destination_type k; tk_destination_server_id k], tk_meter_version k))
            (fun '(l, g) => match l with [a; b; c; d; e; f] => Some (mkTrafficKey a b c d e f g) | _ => None end) _).
  by intros [].
Defined.

(** The three numbers of a counter, of a delta and of a row. *)
Record Amount : Type := mkAmount { payload_bytes : Z; payload_frames : Z; billable_bytes : Z }.
#[export] Instance Amount_eq_dec : EqDecision Amount.
Proof. solve_decision. Defined.
Definition zero : Amount := mkAmount 0 0 0.
Definition map_amount (f : Z -> Z) (a : Amount) : Amount :=
  mkAmount (f (payload_bytes a)) (f (payload_frames a)) (f (billable_bytes a)).
Definition zip_amount (f : Z -> Z -> Z) (a b : Amount) : Amount :=
  mkAmount (f (payload_bytes a) (payload_bytes b)) (f (payload_frames a) (payload_frames b))
    (f (billable_bytes a) (billable_bytes b)).

Inductive Field : Type := PayloadBytes | PayloadFrames | BillableBytes.
Definition field (f : Field) (a : Amount) : Z :=
  match f with PayloadBytes => payload_bytes a | PayloadFrames => payload_frames a | BillableBytes => billable_bytes a end.
Definition set_field (f : Field) (v : Z) (a : Amount) : Amount :=
  match f with
  | PayloadBytes => mkAmount v (payload_frames a) (billable_bytes a)
  | PayloadFrames => mkAmount (payload_bytes a) v (billable_bytes a)
  | BillableBytes => mkAmount (payload_bytes a) (payload_frames a) v
  end.

Definition TrafficDelta : Type := TrafficKey * Amount.

(** A row of [traffic_usage_hourly] without its primary key, the [TrafficKey] and the window. *)
Record UsageRow : Type := mkUsageRow { ur_amount : Amount; ur_updated_at : string }.

(** A row of [machine_traffic_hourly], the table of earlier versions. *)
Record LegacyRow : Type := mkLegacyRow {
  lr_workspace_id : string;
  lr_window_start : Z;
  lr_source_server_id : string;
  lr_destination_server_id : string;
  lr_payload_bytes : Z;
  lr_payload_frames : Z
}.

Record MachineTrafficRecord : Type := mkMachineTrafficRecord {
  mt_window_start : Z;
  mt_traffic_class : string;
  mt_source_type : string;
  mt_source_server_id : string;
  mt_destination_type : string;
  mt_destination_server_id : string;
  mt_payload_bytes : Z;
  mt_payload_frames : Z;
  mt_billable_bytes : Z;
  mt_meter_version : Z
}.

(** A row of [network_usage_receipts]: when it was created and closed. *)
Record Receipt : Type := mkReceipt { rp_created_at : Z; rp_closed_at : option Z }.

Record Database : Type := mkDatabase {
  db_usage : gmap (TrafficKey * Z) UsageRow;
  db_legacy : list LegacyRow;
  db_receipts : list Receipt
}.

(** ** The recorder *)

(** Where the flush task stands; [todo] is what the iteration over the registry still has. *)
Inductive Phase : Type :=
| FlushIdle
| TakeBytes (todo : list (TrafficKey * nat)) (deltas : list TrafficDelta)
| TakeFrames (key : TrafficKey) (p : nat) (payload : Z) (todo : list (TrafficKey * nat)) (deltas : list TrafficDelta)
| TakeBillable (key : TrafficKey) (p : nat) (payload frames : Z) (todo : list (TrafficKey * nat)) (deltas : list TrafficDelta)
| Writing (deltas : list TrafficDelta)
| Restoring (todo : list (TrafficKey * Field * Z))
| PruneStart
| Pruning (todo : list TrafficKey).

(** [rc_streams] are the counters live streams hold, one element per [Arc]. *)
Record Recorder : Type := mkRecorder {
  rc_agent_detail : bool;
  rc_counters : gmap TrafficKey nat;
  rc_heap : gmap nat Amount;
  rc_streams : list (TrafficKey * nat);
  rc_phase : Phase;
  rc_database : Database
}.
Definition recorder_new (agent_detail : bool) (db : Database) : Recorder :=
  mkRecorder agent_detail ∅ ∅ [] FlushIdle db.

Definition set_counters m r := mkRecorder (rc_agent_detail r) m (rc_heap r) (rc_streams r) (rc_phase r) (rc_database r).
Definition set_heap h r := mkRecorder (rc_agent_detail r) (rc_counters r) h (rc_streams r) (rc_phase r) (rc_database r).
Definition set_streams l r := mkRecorder (rc_agent_detail r) (rc_counters r) (rc_heap r) l (rc_phase r) (rc_database r).
Definition set_phase p r := mkRecorder (rc_agent_detail r) (rc_counters r) (rc_heap r) (rc_streams r) p (rc_database r).
Definition set_database d r := mkRecorder (rc_agent_detail r) (rc_counters r) (rc_heap r) (rc_streams r) (rc_phase r) d.
Definition set_usage u r :=
  set_database (mkDatabase u (db_legacy (rc_database r)) (db_receipts (rc_database r))) r.

(** ** Counting *)

Definition load (p : nat) (r : Recorder) : Amount := default zero (rc_heap r !! p).

(** [fetch_add] on one of the numbers: it wraps around. *)
Definition fetch_add (f : Field) (p : nat) (n : Z) (r : Recorder) : Recorder :=
  set_heap (alter (fun a => set_field f ((field f a + n) mod 2 ^ 64) a) p (rc_heap r)) r.
Definition swap (f : Field) (p : nat) (r : Recorder) : Z * Recorder :=
  (field f (load p r), set_heap (alter (set_field f 0) p (rc_heap r)) r).

(** The steps of [TrafficCounter::record] for a chunk of [n] bytes. *)
Definition record_steps (n : Z) : list (Field * Z) :=
  [(PayloadBytes, n); (PayloadFrames, 1); (BillableBytes, n)].

Definition traffic_key (workspace_id : string) (traffic_class : TrafficClass) (source_type source_server_id
    destination_type destination_server_id : string) : TrafficKey :=
  mkTrafficKey workspace_id (traffic_class_as_str traffic_class) source_type source_server_id destination_type
    destination_server_id (match traffic_class with DirectNetwork => 2 | _ => METER_VERSION end).

(** The address of a new cell. *)
Definition new_cell (heap : gmap nat Amount) : nat := S (foldr (fun kv m => Nat.max kv.1 m) 0%nat (map_to_list heap)).

(** [counter_for]: the cell of the key, made when there is none; the caller gets a clone. *)
Definition counter_for (key : TrafficKey) (r : Recorder) : nat * Recorder :=
  match rc_counters r !! key with
  | Some p => (p, set_streams ((key, p) :: rc_streams r) r)
  | None =>
      let p := new_cell (rc_heap r) in
      (p, set_streams ((key, p) :: rc_streams r)
            (set_heap (<[p := zero]> (rc_heap r)) (set_counters (<[key := p]> (rc_counters r)) r)))
  end.

Definition register_stream (workspace_id : string) (traffic_class : TrafficClass) (source_type source_server_id
    destination_type destination_server_id : string) (r : Recorder) : (nat * nat) * Recorder :=
  let '(there, r) := counter_for (traffic_key workspace_id traffic_class source_type source_server_id
                                    destination_type destination_server_id) r in
  let '(back, r) := counter_for (traffic_key workspace_id traffic_class destination_type destination_server_id
                                   source_type source_server_id) r in
  ((there, back), r).
Definition register_client_stream (workspace_id : string) (traffic_class : TrafficClass) (destination_server_id : string) :=
  register_stream workspace_id traffic_class ENDPOINT_CLIENT BROWSER_TRAFFIC_ENDPOINT ENDPOINT_MACHINE destination_server_id.
Definition register_machine_stream (workspace_id : string) (traffic_class : TrafficClass)
    (source_server_id destination_server_id : string) :=
  register_stream workspace_id traffic_class ENDPOINT_MACHINE source_server_id ENDPOINT_MACHINE destination_server_id.

(** ** The flush *)

Definition hour_start (timestamp : Z) : Z := timestamp - timestamp mod (60 * 60).
Definition i64_min : Z := - 2 ^ 63.
Definition i64_saturate (z : Z) : Z := Z.max i64_min (Z.min z i64_max).
Definition traffic_window_start (timestamp hours : Z) : Z :=
  i64_saturate (hour_start timestamp - saturating_sub hours 1 * 60 * 60).

Definition database_value (value : Z) : Z := Z.min value i64_max.

(** [INSERT .. ON CONFLICT DO UPDATE]: an addition beyond BIGINT is an error. *)
Definition insert_row (window_start : Z) (updated_at : string) (delta : TrafficDelta)
    (rows : gmap (TrafficKey * Z) UsageRow) : option (gmap (TrafficKey * Z) UsageRow) :=
  let value := map_amount database_value delta.2 in
  let sum := match rows !! (delta.1, window_start) with
             | Some row => zip_amount Z.add (ur_amount row) value
             | None => value
             end in
  if (payload_bytes sum <=? i64_max) && (payload_frames sum <=? i64_max) && (billable_bytes sum <=? i64_max)
  then Some (<[(delta.1, window_start) := mkUsageRow sum updated_at]> rows) else None.
Fixpoint insert_chunk (window_start : Z) (updated_at : string) (deltas : list TrafficDelta)
    (rows : gmap (TrafficKey * Z) UsageRow) : option (gmap (TrafficKey * Z) UsageRow) :=
  match deltas with
  | [] => Some rows
  | delta :: deltas => insert_row window_start updated_at delta rows ≫= insert_chunk window_start updated_at deltas
  end.

(** [deltas.chunks(MAX_ROWS_PER_INSERT)], one statement for each; the fuel is the length. *)
Fixpoint insert_chunks (fuel : nat) (window_start : Z) (updated_at : string) (deltas : list TrafficDelta)
    (rows : gmap (TrafficKey * Z) UsageRow) : option (gmap (TrafficKey * Z) UsageRow) :=
  match fuel, deltas with
  | O, _ | _, [] => Some rows
  | S fuel, _ =>
      insert_chunk window_start updated_at (take MAX_ROWS_PER_INSERT deltas) rows
        ≫= insert_chunks fuel window_start updated_at (drop MAX_ROWS_PER_INSERT deltas)
  end.

(** The answer of the database to the transaction; [CommitUnknown] is a commit whose answer was
    lost, so that the code sees an error. *)
Inductive DbAnswer : Type := Committed | DbFailed | CommitUnknown.
Definition db_applies (a : DbAnswer) : bool := match a with DbFailed => false | _ => true end.
Definition db_reports (a : DbAnswer) : bool := match a with Committed => true | _ => false end.

Definition nonzero (a : Amount) : bool :=
  negb (payload_bytes a =? 0) || negb (payload_frames a =? 0) || negb (billable_bytes a =? 0).
Definition taken (key : TrafficKey) (a : Amount) (deltas : list TrafficDelta) : list TrafficDelta :=
  if nonzero a then deltas ++ [(key, a)] else deltas.

(** The additions of [restore], field by field. *)
Definition restore_steps (delta : TrafficDelta) : list (TrafficKey * Field * Z) :=
  [(delta.1, PayloadBytes, payload_bytes delta.2); (delta.1, PayloadFrames, payload_frames delta.2);
   (delta.1, BillableBytes, billable_bytes delta.2)].
Definition restore_one (key : TrafficKey) (f : Field) (n : Z) (r : Recorder) : Recorder :=
  match rc_counters r !! key with Some p => fetch_add f p n r | None => r end.

(** [Arc::strong_count]: the registry's and those of the streams. *)
Definition held (p : nat) (r : Recorder) : nat := length (filter (fun s : TrafficKey * nat => s.2 = p) (rc_streams r)).
Definition prune_one (key : TrafficKey) (r : Recorder) : Recorder :=
  match rc_counters r !! key with
  | Some p => if Nat.ltb 0 (held p r) || nonzero (load p r) then r else set_counters (delete key (rc_counters r)) r
  | None => r
  end.

(** The next step of a flush; [Writing] waits for the database ([flush_write]). *)
Definition flush_step (r : Recorder) : Recorder :=
  match rc_phase r with
  | TakeBytes [] [] => set_phase PruneStart r
  | TakeBytes [] deltas => set_phase (Writing deltas) r
  | TakeBytes ((key, p) :: todo) deltas =>
      let '(payload, r) := swap PayloadBytes p r in set_phase (TakeFrames key p payload todo deltas) r
  | TakeFrames key p payload todo deltas =>
      let '(frames, r) := swap PayloadFrames p r in set_phase (TakeBillable key p payload frames todo deltas) r
  | TakeBillable key p payload frames todo deltas =>
      let '(billable, r) := swap BillableBytes p r in
      set_phase (TakeBytes todo (taken key (mkAmount payload frames billable) deltas)) r
  | Restoring ((key, f, n) :: todo) => set_phase (Restoring todo) (restore_one key f n r)
  | Restoring [] => set_phase FlushIdle r
  | PruneStart => set_phase (Pruning (fst <$> map_to_list (rc_counters r))) r
  | Pruning (key :: todo) => set_phase (Pruning todo) (prune_one key r)
  | Pruning [] => set_phase FlushIdle r
  | FlushIdle | Writing _ => r
  end.

Definition flush_start (r : Recorder) : Recorder := set_phase (TakeBytes (map_to_list (rc_counters r)) []) r.

Definition flush_write (timestamp : Z) (updated_at : string) (answer : DbAnswer) (deltas : list TrafficDelta)
    (r : Recorder) : Recorder :=
  match insert_chunks (length deltas) (hour_start timestamp) updated_at deltas (db_usage (rc_database r)) with
  | Some rows =>
      let r := if db_applies answer then set_usage rows r else r in
      if db_reports answer then set_phase PruneStart r
      else set_phase (Restoring (deltas ≫= restore_steps)) r
  | None => set_phase (Restoring (deltas ≫= restore_steps)) r
  end.

(** ** Expiry *)

Definition cutoff (timestamp : Z) : Z := i64_saturate (timestamp - as_secs RETENTION).
Definition expired_receipt (cutoff : Z) (rp : Receipt) : bool :=
  match rp_closed_at rp with Some closed => closed <? cutoff | None => rp_created_at rp <? cutoff end.
(** Each [DELETE] is a statement of its own, and a failure ends the function: [n] of them take
    effect. *)
Definition delete_expired (timestamp : Z) (n : nat) (r : Recorder) : Recorder :=
  let db := rc_database r in
  let c := cutoff timestamp in
  let usage := if Nat.leb 1 n then filter (fun kr : (TrafficKey * Z) * UsageRow => c <= kr.1.2) (db_usage db) else db_usage db in
  if rc_agent_detail r then set_usage usage r
  else
    let receipts := if Nat.leb 2 n then List.filter (fun rp => negb (expired_receipt c rp)) (db_receipts db) else db_receipts db in
    let legacy := if Nat.leb 3 n then List.filter (fun l => negb (lr_window_start l <? c)) (db_legacy db) else db_legacy db in
    set_database (mkDatabase usage legacy receipts) r.

(** ** What the recorder reports *)

Definition record_of (key : TrafficKey) (window : Z) (a : Amount) : MachineTrafficRecord :=
  mkMachineTrafficRecord window (tk_traffic_class key) (tk_source_type key) (tk_source_server_id key)
    (tk_destination_type key) (tk_destination_server_id key) (payload_bytes a) (payload_frames a) (billable_bytes a)
    (tk_meter_version key).

(** The key and amount the second part of the [UNION] gives a row. *)
Definition legacy_key (l : LegacyRow) : TrafficKey :=
  mkTrafficKey (lr_workspace_id l) "virtual_network" ENDPOINT_MACHINE (lr_source_server_id l) ENDPOINT_MACHINE
    (lr_destination_server_id l) 1.
Definition legacy_amount (l : LegacyRow) : Amount :=
  mkAmount (lr_payload_bytes l) (lr_payload_frames l) (lr_payload_bytes l).

(** The rows the query unites; [TrafficRecorder::sql] excludes the older table for Agents. *)
Definition usage_rows (agent_detail : bool) (workspace_id : string) (since : Z) (db : Database)
    : list ((TrafficKey * Z) * Amount) :=
  List.filter (fun kr => (tk_workspace_id kr.1.1 =s workspace_id) && (since <=? kr.1.2))
    (((fun kr : (TrafficKey * Z) * UsageRow => (kr.1, ur_amount kr.2)) <$> map_to_list (db_usage db))
     ++ (if agent_detail then []
         else (fun l => ((legacy_key l, lr_window_start l), legacy_amount l)) <$> db_legacy db)).

(** [GROUP BY], with the sums. *)
Fixpoint group_rows (rows : list ((TrafficKey * Z) * Amount)) : gmap (TrafficKey * Z) Amount :=
  match rows with
  | [] => ∅
  | (key, a) :: rows =>
      partial_alter (fun o => Some (from_option (zip_amount Z.add a) a o)) key (group_rows rows)
  end.

(** The sums are cast to BIGINT and must not be negative. *)
Definition countable_amount (a : Amount) : bool :=
  forallb (fun v => (0 <=? v) && (v <=? i64_max)) [payload_bytes a; payload_frames a; billable_bytes a].

Definition same_record (key : TrafficKey) (window : Z) (r : MachineTrafficRecord) : bool :=
  (mt_window_start r =? window) && (mt_traffic_class r =s tk_traffic_class key)
  && (mt_source_type r =s tk_source_type key) && (mt_source_server_id r =s tk_source_server_id key)
  && (mt_destination_type r =s tk_destination_type key)
  && (mt_destination_server_id r =s tk_destination_server_id key) && (mt_meter_version r =? tk_meter_version key).
Definition add_to_record (a : Amount) (r : MachineTrafficRecord) : MachineTrafficRecord :=
  mkMachineTrafficRecord (mt_window_start r) (mt_traffic_class r) (mt_source_type r) (mt_source_server_id r)
    (mt_destination_type r) (mt_destination_server_id r) (saturating_add (mt_payload_bytes r) (payload_bytes a))
    (saturating_add (mt_payload_frames r) (payload_frames a))
    (saturating_add (mt_billable_bytes r) (billable_bytes a)) (mt_meter_version r).

(** [iter_mut().find] and the addition, or a new record at the end. *)
Fixpoint merge_record (key : TrafficKey) (window : Z) (a : Amount) (records : list MachineTrafficRecord)
    : list MachineTrafficRecord :=
  match records with
  | [] => [record_of key window a]
  | r :: records => if same_record key window r then add_to_record a r :: records
                    else r :: merge_record key window a records
  end.
Fixpoint merge_pending (workspace_id : string) (window : Z) (counters : list (TrafficKey * Amount))
    (records : list MachineTrafficRecord) : list MachineTrafficRecord :=
  match counters with
  | [] => records
  | (key, a) :: counters =>
      merge_pending workspace_id window counters
        (if (tk_workspace_id key =s workspace_id) && nonzero a then merge_record key window a records else records)
  end.
Definition pending_counters (r : Recorder) : list (TrafficKey * Amount) :=
  (fun kp : TrafficKey * nat => (kp.1, load kp.2 r)) <$> map_to_list (rc_counters r).

(** Newest window first, then by the two machines and the class. *)
Definition record_leb (a b : MachineTrafficRecord) : bool :=
  if mt_window_start b <? mt_window_start a then true
  else if mt_window_start a <? mt_window_start b then false
  else if negb (mt_source_server_id a =s mt_source_server_id b)
  then String.leb (mt_source_server_id a) (mt_source_server_id b)
  else if negb (mt_destination_server_id a =s mt_destination_server_id b)
  then String.leb (mt_destination_server_id a) (mt_destination_server_id b)
  else String.leb (mt_traffic_class a) (mt_traffic_class b).
Definition record_le (a b : MachineTrafficRecord) : Prop := record_leb a b = true.
#[export] Instance record_le_dec a b : Decision (record_le a b).
Proof. unfold record_le. apply _. Defined.

(** [DateTime::from_timestamp] accepts a bounded range of seconds. *)
Section Recent.
Variable timestamp_ok : Z -> bool.

(** [recent] holds the flush gate: what the query read ([db]) and what the counters hold when they
    are merged ([r]). *)
Definition recent (timestamp : Z) (workspace_id : string) (hours : Z) (db : Database) (r : Recorder)
    : Result (list MachineTrafficRecord) string :=
  let rows := map_to_list (group_rows (usage_rows (rc_agent_detail r) workspace_id
                                          (traffic_window_start timestamp hours) db)) in
  if negb (forallb (fun row => timestamp_ok row.1.2) rows) then Err "traffic row has invalid window_start"
  else if negb (forallb (fun row => countable_amount row.2) rows) then Err "traffic row has invalid counters"
  else if negb (forallb (fun row => (0 <=? tk_meter_version row.1.1) && (tk_meter_version row.1.1 <=? 65535)) rows)
  then Err "traffic row has invalid meter_version"
  else if negb (timestamp_ok (hour_start timestamp)) then Err "traffic window timestamp is invalid"
  else
    let records := (fun row => record_of row.1.1 row.1.2 row.2) <$> rows in
    Ok (merge_sort record_le (merge_pending workspace_id (hour_start timestamp) (pending_counters r) records)).
End Recent.

(** ** Histories *)

(** [EvAdd] is one atomic addition by a stream that holds the counter; [EvStep] is the next step of
    the flush, [EvWrite] the end of its transaction. *)
Inductive TrafficEvent : Type :=
| EvRegister (workspace_id : string) (traffic_class : TrafficClass) (source_type source_server_id
    destination_type destination_server_id : string)
| EvDrop (s : TrafficKey * nat)
| EvAdd (s : TrafficKey * nat) (f : Field) (n : Z)
| EvFlush
| EvStep
| EvWrite (timestamp : Z) (updated_at : string) (answer : DbAnswer)
| EvExpire (timestamp : Z) (statements : nat).

(** The registry's lock is free. *)
Definition lock_free (p : Phase) : bool :=
  match p with FlushIdle | Writing _ | PruneStart => true | _ => false end.

Fixpoint remove_first (s : TrafficKey * nat) (l : list (TrafficKey * nat)) : list (TrafficKey * nat) :=
  match l with
  | [] => []
  | x :: l => if decide (x = s) then l else x :: remove_first s l
  end.

(** [None] where the event cannot happen. *)
Definition advance (e : TrafficEvent) (r : Recorder) : option Recorder :=
  match e with
  | EvRegister ws class st sid dt did =>
      if lock_free (rc_phase r) then Some (register_stream ws class st sid dt did r).2 else None
  | EvDrop s => if decide (s ∈ rc_streams r) then Some (set_streams (remove_first s (rc_streams r)) r) else None
  | EvAdd s f n =>
      if decide (s ∈ rc_streams r /\ 0 <= n) then Some (fetch_add f s.2 n r) else None
  | EvFlush => match rc_phase r with FlushIdle => Some (flush_start r) | _ => None end
  | EvStep => match rc_phase r with FlushIdle | Writing _ => None | _ => Some (flush_step r) end
  | EvWrite timestamp updated_at answer =>
      match rc_phase r with Writing deltas => Some (flush_write timestamp updated_at answer deltas r) | _ => None end
  | EvExpire timestamp n => Some (delete_expired timestamp n r)
  end.
Fixpoint run (es : list TrafficEvent) (r : Recorder) : option Recorder :=
  match es with
  | [] => Some r
  | e :: es => advance e r ≫= run es
  end.
