(* ===== verification/TrafficFacts.v ===== *)
(** * What traffic accounting guarantees

    In every interleaving of counting streams, registrations, flushes and expiry, what the counters
    hold, what a flush carries and what the table stores add up to what was counted; and a report
    of an idle recorder shows all of it, once. *)

From stdpp Require Import gmap sorting.
From S2P Require Import Prelude RustStr Protocol Traffic.
Local Open Scope Z_scope.

(** ** Where an amount can be *)

#[export] Instance Field_eq_dec : EqDecision Field.
Proof. solve_decision. Defined.
(** The part of [n], counted in [f'] under [key], that counts for [f] and [k]. *)
Definition share (f : Field) (k : TrafficKey) (key : TrafficKey) (f' : Field) (n : Z) : Z :=
  if decide (f = f' /\ key = k) then n else 0.

Definition pending (f : Field) (k : TrafficKey) (r : Recorder) : Z :=
  match rc_counters r !! k with Some p => field f (load p r) | None => 0 end.
Definition delta_weight (f : Field) (k : TrafficKey) (d : TrafficDelta) : Z :=
  if decide (d.1 = k) then field f d.2 else 0.
Definition carried (f : Field) (k : TrafficKey) (p : Phase) : Z :=
  match p with
  | TakeBytes _ deltas | Writing deltas => sumw (delta_weight f k) deltas
  | TakeFrames key _ payload _ deltas => share f k key PayloadBytes payload + sumw (delta_weight f k) deltas
  | TakeBillable key _ payload frames _ deltas =>
      share f k key PayloadBytes payload + share f k key PayloadFrames frames + sumw (delta_weight f k) deltas
  | Restoring todo => sumw (fun '(key, f', n) => share f k key f' n) todo
  | FlushIdle | PruneStart | Pruning _ => 0
  end.
Definition in_flight (f : Field) (k : TrafficKey) (r : Recorder) : Z := carried f k (rc_phase r).
Definition row_weight (f : Field) (k : TrafficKey) (kr : (TrafficKey * Z) * UsageRow) : Z :=
  if decide (kr.1.1 = k) then field f (ur_amount kr.2) else 0.
Definition rows_total (f : Field) (k : TrafficKey) (rows : gmap (TrafficKey * Z) UsageRow) : Z :=
  sumw (row_weight f k) (map_to_list rows).
Definition stored (f : Field) (k : TrafficKey) (r : Recorder) : Z := rows_total f k (db_usage (rc_database r)).
Definition total (f : Field) (k : TrafficKey) (r : Recorder) : Z := pending f k r + in_flight f k r + stored f k r.

(** What an event adds: a count, or a transaction that took effect although its answer was lost;
    and what expiry takes away. *)
Definition recorded (f : Field) (k : TrafficKey) (e : TrafficEvent) : Z :=
  match e with EvAdd s f' n => share f k s.1 f' n | _ => 0 end.
Definition recounted (f : Field) (k : TrafficKey) (e : TrafficEvent) (r : Recorder) : Z :=
  match e, rc_phase r with
  | EvWrite timestamp updated_at CommitUnknown, Writing deltas =>
      match insert_chunks (length deltas) (hour_start timestamp) updated_at deltas (db_usage (rc_database r)) with
      | Some _ => sumw (delta_weight f k) deltas
      | None => 0
      end
  | _, _ => 0
  end.
Definition expired (f : Field) (k : TrafficKey) (e : TrafficEvent) (r : Recorder) : Z :=
  match e with
  | EvExpire timestamp (S _) =>
      rows_total f k (filter (fun kr : (TrafficKey * Z) * UsageRow => kr.1.2 < cutoff timestamp) (db_usage (rc_database r)))
  | _ => 0
  end.

(** The sum of an effect over a history. *)
Fixpoint tally (effect : TrafficEvent -> Recorder -> Z) (es : list TrafficEvent) (r : Recorder) : Z :=
  match es with
  | [] => 0
  | e :: es => effect e r + match advance e r with Some r' => tally effect es r' | None => 0 end
  end.

(** ** The invariant *)

Definition u64_amount (a : Amount) : Prop := forall f, 0 <= field f a < 2 ^ 64.
Definition positive (a : Amount) : Prop := forall f, 0 <= field f a.

Definition registered (m : gmap TrafficKey nat) (kp : TrafficKey * nat) : Prop := m !! kp.1 = Some kp.2.
Definition delta_ok (m : gmap TrafficKey nat) (d : TrafficDelta) : Prop := is_Some (m !! d.1) /\ positive d.2.

Definition phase_ok (m : gmap TrafficKey nat) (p : Phase) : Prop :=
  match p with
  | TakeBytes todo deltas => Forall (registered m) todo /\ Forall (delta_ok m) deltas
  | TakeFrames key p payload todo deltas =>
      registered m (key, p) /\ 0 <= payload /\ Forall (registered m) todo /\ Forall (delta_ok m) deltas
  | TakeBillable key p payload frames todo deltas =>
      registered m (key, p) /\ 0 <= payload /\ 0 <= frames /\ Forall (registered m) todo /\ Forall (delta_ok m) deltas
  | Writing deltas => Forall (delta_ok m) deltas
  | Restoring todo => Forall (fun '(key, f, n) => is_Some (m !! key) /\ 0 <= n) todo
  | FlushIdle | PruneStart | Pruning _ => True
  end.

(** Every counter is a cell of its own, streams hold registered counters, and what a flush carries
    belongs to registered counters. *)
Record traffic_inv (r : Recorder) : Prop := mkTrafficInv {
  ti_cell : forall k p, rc_counters r !! k = Some p -> exists a, rc_heap r !! p = Some a /\ u64_amount a;
  ti_own : forall k1 k2 p, rc_counters r !! k1 = Some p -> rc_counters r !! k2 = Some p -> k1 = k2;
  ti_streams : Forall (registered (rc_counters r)) (rc_streams r);
  ti_phase : phase_ok (rc_counters r) (rc_phase r);
  ti_rows : forall k row, db_usage (rc_database r) !! k = Some row -> positive (ur_amount row)
}.

(** ** Fields *)

Lemma field_set f f' v a : field f (set_field f' v a) = if decide (f = f') then v else field f a.
Proof. destruct f, f'; done. Qed.
Lemma field_zip g f a b : field f (zip_amount g a b) = g (field f a) (field f b).
Proof. by destruct f. Qed.
Lemma field_map g f a : field f (map_amount g a) = g (field f a).
Proof. by destruct f. Qed.
Lemma u64_set a f v : u64_amount a -> 0 <= v < 2 ^ 64 -> u64_amount (set_field f v a).
Proof. intros Ha Hv g. rewrite field_set. case_decide; [done|apply Ha]. Qed.
Lemma u64_zero : u64_amount zero.
Proof. intros []; done. Qed.

Lemma share_nonneg f k key f' n : 0 <= n -> 0 <= share f k key f' n.
Proof. unfold share. by case_decide. Qed.
Lemma delta_weight_nonneg f k m d : delta_ok m d -> 0 <= delta_weight f k d.
Proof. intros [_ Hp]. unfold delta_weight. case_decide; [apply Hp|done]. Qed.
Lemma deltas_nonneg f k m l : Forall (delta_ok m) l -> 0 <= sumw (delta_weight f k) l.
Proof. intros Hl. apply sumw_nonneg. by eapply Forall_impl; [|intros d; apply delta_weight_nonneg]. Qed.

(** ** Counters *)

Section Cells.
Variable r : Recorder.
Hypothesis Hcell : forall k p, rc_counters r !! k = Some p -> exists a, rc_heap r !! p = Some a /\ u64_amount a.
Hypothesis Hown : forall k1 k2 p, rc_counters r !! k1 = Some p -> rc_counters r !! k2 = Some p -> k1 = k2.

Lemma pending_range f k : 0 <= pending f k r < 2 ^ 64.
Proof.
  unfold pending. destruct (rc_counters r !! k) as [p|] eqn:Hk; [|lia].
  destruct (Hcell _ _ Hk) as (a & Ha & Hu). unfold load. rewrite Ha. apply Hu.
Qed.

(** An assignment to one number of one cell. *)
Lemma pending_set f k key f' p g : rc_counters r !! key = Some p ->
  pending f k (set_heap (alter (fun a => set_field f' (g a) a) p (rc_heap r)) r)
    = if decide (f = f' /\ key = k) then g (load p r) else pending f k r.
Proof.
  intros Hk. destruct (Hcell _ _ Hk) as (a & Ha & _). unfold pending, load. cbn.
  destruct (rc_counters r !! k) as [q|] eqn:Hq; [|case_decide; naive_solver].
  destruct (decide (p = q)) as [->|Hne].
  - assert (key = k) as -> by eauto. rewrite lookup_alter, decide_True, Ha by done. cbn. rewrite field_set.
    repeat case_decide; naive_solver.
  - rewrite lookup_alter_ne by done. case_decide as Hd; [|done]. naive_solver.
Qed.
Lemma pending_fetch_add f k key f' p n : rc_counters r !! key = Some p -> 0 <= n ->
  pending f k r + share f k key f' n < 2 ^ 64 ->
  pending f k (fetch_add f' p n r) = pending f k r + share f k key f' n.
Proof.
  intros Hk Hn. unfold fetch_add. rewrite (pending_set f k key f' p (fun a => (field f' a + n) mod 2 ^ 64)) by done.
  pose proof (pending_range f k) as Hr. unfold share. case_decide as Hd; [|lia]. destruct Hd as [<- ->].
  unfold pending in *. rewrite Hk in *. intros Hlt. apply Z.mod_small. lia.
Qed.
Lemma pending_swap f k key f' p : rc_counters r !! key = Some p ->
  pending f k (swap f' p r).2 + share f k key f' (swap f' p r).1 = pending f k r /\ 0 <= (swap f' p r).1.
Proof.
  intros Hk. destruct (Hcell _ _ Hk) as (a & Ha & Hu). unfold swap. cbn [fst snd]. split.
  - pose proof (pending_set f k key f' p (fun _ => 0) Hk) as Hs. change (alter (fun a => _) p (rc_heap r)) with (alter (set_field f' 0) p (rc_heap r)) in Hs.
    rewrite Hs. unfold share. case_decide as Hd; [|lia].
    destruct Hd as [<- ->]. unfold pending. by rewrite Hk.
  - unfold load. rewrite Ha. apply Hu.
Qed.
End Cells.

Lemma cell_set r f' p g :
  (forall a, u64_amount a -> 0 <= g a < 2 ^ 64) ->
  (forall k p, rc_counters r !! k = Some p -> exists a, rc_heap r !! p = Some a /\ u64_amount a) ->
  forall k q, rc_counters r !! k = Some q ->
  exists a, alter (fun a => set_field f' (g a) a) p (rc_heap r) !! q = Some a /\ u64_amount a.
Proof.
  intros Hg Hc k q Hk. destruct (Hc _ _ Hk) as (a & Ha & Hu). destruct (decide (p = q)) as [->|Hne].
  - rewrite lookup_alter, decide_True, Ha by done. cbn. eauto using u64_set.
  - rewrite lookup_alter_ne by done. eauto.
Qed.

(** ** Rows *)

Lemma rows_insert f k key row rows :
  rows_total f k (<[key := row]> rows)
    = row_weight f k (key, row) + rows_total f k rows - from_option (fun old => row_weight f k (key, old)) 0 (rows !! key).
Proof.
  unfold rows_total. rewrite <- insert_delete_eq.
  rewrite (sumw_perm _ _ ((key, row) :: map_to_list (delete key rows))) by (apply map_to_list_insert, lookup_delete_eq).
  destruct (rows !! key) as [old|] eqn:Hold; cbn.
  - rewrite <- (insert_delete_id rows key old Hold) at 2.
    rewrite (sumw_perm _ (map_to_list (<[key:=old]> _)) ((key, old) :: map_to_list (delete key rows)))
      by (apply map_to_list_insert, lookup_delete_eq). cbn. lia.
  - rewrite delete_id by done. unfold sumw. lia.
Qed.
Lemma rows_nonneg f k rows : (forall key row, rows !! key = Some row -> positive (ur_amount row)) -> 0 <= rows_total f k rows.
Proof.
  intros Hr. apply sumw_nonneg, Forall_forall. intros [key row] Hin%elem_of_map_to_list. unfold row_weight. cbn.
  case_decide; [by eapply Hr|done].
Qed.
Lemma rows_filter f k (P : (TrafficKey * Z) * UsageRow -> Prop) `{!forall kr, Decision (P kr)} rows :
  rows_total f k (filter P rows)
    = sumw (fun kr => if decide (P kr) then row_weight f k kr else 0) (map_to_list rows).
Proof.
  unfold rows_total. rewrite map_filter_alt, (sumw_perm _ _ (filter P (map_to_list rows))).
  - induction (map_to_list rows) as [|kr l IH]; [done|]. rewrite filter_cons. cbn.
    case_decide; cbn; unfold sumw in *; lia.
  - apply map_to_list_to_map. apply (sublist_NoDup _ (fst <$> map_to_list rows)); [apply NoDup_fst_map_to_list|].
    apply fmap_sublist, sublist_filter.
Qed.
Lemma rows_split f k c rows :
  rows_total f k (filter (fun kr : (TrafficKey * Z) * UsageRow => c <= kr.1.2) rows)
  + rows_total f k (filter (fun kr : (TrafficKey * Z) * UsageRow => kr.1.2 < c) rows) = rows_total f k rows.
Proof.
  rewrite !rows_filter. unfold rows_total. induction (map_to_list rows) as [|kr l IH]; [done|]. cbn.
  unfold sumw in *. repeat case_decide; lia.
Qed.

Lemma insert_row_total f k window text d rows rows' :
  insert_row window text d rows = Some rows' -> (d.1 = k -> field f d.2 <= i64_max) ->
  rows_total f k rows' = rows_total f k rows + delta_weight f k d.
Proof.
  unfold insert_row. destruct d as [key a]. cbn [fst snd]. intros H Hle. case_match; [|done]. simplify_eq.
  rewrite rows_insert. unfold row_weight, delta_weight. cbn [fst snd ur_amount].
  destruct (rows !! (key, window)) as [row|]; cbn; case_decide; rewrite ?field_zip, ?field_map;
    unfold database_value; rewrite ?Z.min_l by auto; lia.
Qed.
Lemma insert_row_positive window text d rows rows' :
  insert_row window text d rows = Some rows' -> positive d.2 ->
  (forall key row, rows !! key = Some row -> positive (ur_amount row)) ->
  forall key row, rows' !! key = Some row -> positive (ur_amount row).
Proof.
  unfold insert_row. destruct d as [k a]. cbn [fst snd]. intros H Hp Hr key row. case_match; [|done]. simplify_eq.
  intros [[<- <-]|[_ Hk]]%lookup_insert_Some; [|eauto]. cbn. intros f.
  destruct (rows !! (k, window)) as [old|] eqn:Hold; rewrite ?field_zip, ?field_map; unfold database_value, i64_max;
    specialize (Hp f); [specialize (Hr _ _ Hold f)|]; lia.
Qed.
Lemma insert_chunk_positive window text l rows rows' :
  insert_chunk window text l rows = Some rows' -> Forall (fun d => positive d.2) l ->
  (forall key row, rows !! key = Some row -> positive (ur_amount row)) ->
  forall key row, rows' !! key = Some row -> positive (ur_amount row).
Proof.
  revert rows. induction l as [|d l IH]; intros rows; cbn [insert_chunk].
  { by intros [= ->]. }
  intros (rows1 & H1 & H2)%bind_Some [Hp Hl]%Forall_cons Hr. eapply IH; [done..|]. by eapply insert_row_positive.
Qed.
Lemma insert_chunk_total f k window text l rows rows' :
  insert_chunk window text l rows = Some rows' ->
  Forall (fun d => d.1 = k -> field f d.2 <= i64_max) l ->
  rows_total f k rows' = rows_total f k rows + sumw (delta_weight f k) l.
Proof.
  revert rows. induction l as [|d l IH]; intros rows; cbn [insert_chunk sumw foldr].
  { intros [= ->] _. lia. }
  intros (rows1 & H1 & H2)%bind_Some [Hle Hl]%Forall_cons.
  rewrite (IH _ H2 Hl), (insert_row_total _ _ _ _ _ _ _ H1 Hle). unfold sumw. lia.
Qed.
Lemma insert_chunk_app window text l l' rows :
  insert_chunk window text (l ++ l') rows = insert_chunk window text l rows ≫= insert_chunk window text l'.
Proof.
  revert rows. induction l as [|d l IH]; intros rows; cbn; [done|].
  destruct (insert_row window text d rows); cbn; [apply IH|done].
Qed.

(** Cut into statements or not, the transaction writes the same rows; its fuel is enough. *)
Lemma insert_chunks_all fuel window text l rows : (length l <= fuel)%nat ->
  insert_chunks fuel window text l rows = insert_chunk window text l rows.
Proof.
  revert l rows. induction fuel as [|fuel IH]; intros l rows Hf; [by destruct l; [|cbn in Hf; lia]|].
  destruct l as [|d l]; [done|]. cbn [insert_chunks].
  trans (insert_chunk window text (take MAX_ROWS_PER_INSERT (d :: l) ++ drop MAX_ROWS_PER_INSERT (d :: l)) rows);
    [|by rewrite take_drop]. rewrite insert_chunk_app. destruct (insert_chunk window text (take MAX_ROWS_PER_INSERT (d :: l)) rows); cbn [mbind option_bind]; [|done].
  apply IH. rewrite length_drop. unfold MAX_ROWS_PER_INSERT. cbn [length] in *. lia.
Qed.

(** ** Steps *)

Lemma phase_ok_grow m m' p : m ⊆ m' -> phase_ok m p -> phase_ok m' p.
Proof.
  intros Hm. assert (forall kp, registered m kp -> registered m' kp) as Hr by (intros kp Hk; by eapply lookup_weaken).
  assert (forall k, is_Some (m !! k) -> is_Some (m' !! k)) as Hi by (intros k [q Hq]; eexists; by eapply lookup_weaken).
  assert (forall d, delta_ok m d -> delta_ok m' d) as Hd by (intros d []; split; eauto).
  destruct p; cbn; intros; destruct_and?; split_and?; eauto using Forall_impl.
  eapply Forall_impl; [eassumption|]. intros [[key f] n]. naive_solver.
Qed.

(** Changes that keep the registry, the streams, the phase and the rows. *)
Lemma inv_set_heap r h :
  traffic_inv r ->
  (forall k p, rc_counters r !! k = Some p -> exists a, h !! p = Some a /\ u64_amount a) ->
  traffic_inv (set_heap h r).
Proof. intros [] Hh. by constructor. Qed.
Lemma inv_set_phase r p : traffic_inv r -> phase_ok (rc_counters r) p -> traffic_inv (set_phase p r).
Proof. intros [] Hp. by constructor. Qed.
Lemma inv_set_usage r u :
  traffic_inv r -> (forall k row, u !! k = Some row -> positive (ur_amount row)) -> traffic_inv (set_usage u r).
Proof. intros [] Hu. by constructor. Qed.

Lemma inv_fetch_add f p n r : traffic_inv r -> traffic_inv (fetch_add f p n r).
Proof.
  intros Hi. apply inv_set_heap; [done|]. apply (cell_set r f p (fun a => (field f a + n) mod 2 ^ 64)); [|apply Hi].
  intros a _. by apply Z.mod_pos_bound.
Qed.
Lemma inv_swap f p r : traffic_inv r -> traffic_inv (swap f p r).2.
Proof. intros Hi. apply inv_set_heap; [done|]. apply (cell_set r f p (fun _ => 0)); [done|apply Hi]. Qed.

Lemma new_cell_free heap : heap !! new_cell heap = None.
Proof.
  destruct (heap !! new_cell heap) as [a|] eqn:Ha; [|done]. apply elem_of_map_to_list in Ha. exfalso. revert Ha.
  unfold new_cell. generalize (map_to_list heap). intros l.
  assert (forall kv, kv ∈ l -> kv.1 <= foldr (fun kv m => Nat.max kv.1 m) 0 l)%nat as Hmax.
  { induction l as [|x l IH]; intros kv; [set_solver|]. cbn. intros [->|Hin]%elem_of_cons; [lia|]. specialize (IH _ Hin). lia. }
  intros Hin. specialize (Hmax _ Hin). cbn in Hmax. lia.
Qed.
Lemma counter_for_step key r : traffic_inv r ->
  traffic_inv (counter_for key r).2 /\ (forall f k, total f k (counter_for key r).2 = total f k r)
  /\ rc_phase (counter_for key r).2 = rc_phase r.
Proof.
  intros [Hc Ho Hs Hp Hr]. unfold counter_for. destruct (rc_counters r !! key) as [p|] eqn:Hk; cbn [snd].
  - split; [|done]. constructor; try done. by constructor.
  - set (p := new_cell (rc_heap r)). assert (rc_heap r !! p = None) as Hp0 by apply new_cell_free.
    assert (forall k q, rc_counters r !! k = Some q -> q <> p) as Hne.
    { intros k q Hq ->. destruct (Hc _ _ Hq) as (a & Ha & _). congruence. }
    assert (rc_counters r ⊆ <[key := p]> (rc_counters r)) as Hsub by (by apply insert_subseteq).
    split; [constructor; cbn|split; [|done]].
    + intros k q [[<- <-]|[_ Hq]]%lookup_insert_Some.
      * exists zero. rewrite lookup_insert_eq. auto using u64_zero.
      * rewrite lookup_insert_ne by (intros ->; by eapply Hne). eauto.
    + intros k1 k2 q [[<- <-]|[_ H1]]%lookup_insert_Some [[<- H2]|[_ H2]]%lookup_insert_Some; try done.
      * by destruct (Hne _ _ H2).
      * subst q. by destruct (Hne _ _ H1).
      * eauto.
    + constructor; [apply lookup_insert_eq|]. eapply Forall_impl; [exact Hs|]. intros s Hl. by eapply lookup_weaken.
    + by eapply phase_ok_grow.
    + done.
    + intros f k. unfold total, in_flight, stored, pending, load. cbn.
      destruct (decide (key = k)) as [<-|Hn].
      * rewrite lookup_insert_eq, Hk. cbn. rewrite lookup_insert_eq. by destruct f.
      * rewrite lookup_insert_ne by done. destruct (rc_counters r !! k) as [q|] eqn:Hq; [|done].
        rewrite lookup_insert_ne by (intros ->; by eapply Hne). done.
Qed.

Lemma register_step ws class st sid dt did r : traffic_inv r ->
  traffic_inv (register_stream ws class st sid dt did r).2
  /\ (forall f k, total f k (register_stream ws class st sid dt did r).2 = total f k r).
Proof.
  intros Hi. unfold register_stream.
  destruct (counter_for_step (traffic_key ws class st sid dt did) r Hi) as (Hi1 & Ht1 & _).
  destruct (counter_for _ r) as [p r1]. cbn [snd] in *.
  destruct (counter_for_step (traffic_key ws class dt did st sid) r1 Hi1) as (Hi2 & Ht2 & _).
  destruct (counter_for _ r1) as [q r2]. cbn [snd] in *. split; [done|]. intros f k. by rewrite Ht2, Ht1.
Qed.

Lemma remove_first_elem s x l : x ∈ remove_first s l -> x ∈ l.
Proof. induction l as [|y l IH]; cbn; [done|]. case_decide; set_solver. Qed.

Lemma prune_step key r : traffic_inv r ->
  let r' := set_phase (Pruning []) (prune_one key r) in
  (forall f k, pending f k r' = pending f k r) /\ traffic_inv r'.
Proof.
  intros Hi. cbv zeta. assert (traffic_inv (set_phase (Pruning []) r)) as Hi' by (by apply inv_set_phase).
  unfold prune_one. destruct (rc_counters r !! key) as [p|] eqn:Hk; [|done]. case_match eqn:Hb; [done|].
  apply orb_false_iff in Hb as [Hheld Hz]. destruct Hi' as [Hc Ho Hs Hp Hr]. split; [|constructor; cbn in *; try done].
  - intros f k. unfold pending, load. cbn. destruct (decide (key = k)) as [<-|Hn]; [|by rewrite lookup_delete_ne].
    rewrite lookup_delete_eq, Hk. unfold nonzero, load in Hz. destruct f; cbn; lia.
  - intros k q [_ Hq]%lookup_delete_Some. eauto.
  - intros k1 k2 q [_ H1]%lookup_delete_Some [_ H2]%lookup_delete_Some. eauto.
  - apply Forall_forall. intros s Hin. rewrite Forall_forall in Hs. pose proof (Hs _ Hin) as Hl. unfold registered in *.
    apply lookup_delete_Some. split; [|done]. intros Heq. rewrite <- Heq, Hk in Hl. simplify_eq.
    destruct (held s.2 r) as [|] eqn:Hh; [|done]. unfold held in Hh. apply length_zero_iff_nil in Hh.
    assert (s ∈ filter (fun s0 : TrafficKey * nat => s0.2 = s.2) (rc_streams r)) as Hbad by (by apply list_elem_of_filter).
    rewrite Hh in Hbad. set_solver.
Qed.

Lemma carried_nonneg f k m p : phase_ok m p -> 0 <= carried f k p.
Proof.
  destruct p; cbn; intros; destruct_and?; try done;
    try (match goal with H : Forall (delta_ok m) _ |- _ => pose proof (deltas_nonneg f k _ _ H) end);
    rewrite ?Z.add_0_l; repeat (apply Z.add_nonneg_nonneg); auto using share_nonneg.
  apply sumw_nonneg. eapply Forall_impl; [eassumption|]. intros [[key f'] n] []. by apply share_nonneg.
Qed.
Lemma stored_nonneg f k r : traffic_inv r -> 0 <= stored f k r.
Proof. intros []. by apply rows_nonneg. Qed.
Lemma pending_nonneg f k r : traffic_inv r -> 0 <= pending f k r.
Proof. intros []. by apply pending_range. Qed.

Lemma taken_weight f k key a l :
  sumw (delta_weight f k) (taken key a l)
    = share f k key PayloadBytes (payload_bytes a) + share f k key PayloadFrames (payload_frames a)
      + share f k key BillableBytes (billable_bytes a) + sumw (delta_weight f k) l.
Proof.
  assert (delta_weight f k (key, a) = share f k key PayloadBytes (payload_bytes a)
    + share f k key PayloadFrames (payload_frames a) + share f k key BillableBytes (billable_bytes a)) as Hw.
  { unfold delta_weight, share. cbn. destruct f; cbn; repeat case_decide; try lia; naive_solver. }
  unfold taken. destruct (nonzero a) eqn:Hz.
  - rewrite sumw_app. cbn [sumw foldr]. rewrite Hw. lia.
  - rewrite <- Hw. unfold delta_weight. cbn. unfold nonzero in Hz. case_decide; [|done].
    destruct f; cbn; lia.
Qed.
Lemma restore_weight f k l :
  sumw (fun '(key, f', n) => share f k key f' n) (l ≫= restore_steps) = sumw (delta_weight f k) l.
Proof.
  induction l as [|[key a] l IH]; [done|]. cbn [mbind list_bind]. rewrite sumw_app, IH. cbn.
  unfold delta_weight at 2. cbn [fst snd]. unfold share. destruct f; cbn; repeat case_decide; unfold sumw in *; try lia; naive_solver.
Qed.

Lemma total_phase f k p r : total f k (set_phase p r) = pending f k r + carried f k p + stored f k r.
Proof. done. Qed.
Lemma total_at f k p r : rc_phase r = p -> total f k r = pending f k r + carried f k p + stored f k r.
Proof. by intros <-. Qed.

Lemma swap_nonneg key f' p r : traffic_inv r -> rc_counters r !! key = Some p -> 0 <= (swap f' p r).1.
Proof. intros [Hc Ho _ _ _] Hk. exact (proj2 (pending_swap r Hc Ho f' key key f' p Hk)). Qed.

(** A swap moves an amount from a cell to the flush. *)
Lemma swap_phase key f' p r p0 p1 : traffic_inv r -> rc_counters r !! key = Some p ->
  rc_phase r = p0 -> (forall f k, carried f k p1 = carried f k p0 + share f k key f' (swap f' p r).1) ->
  phase_ok (rc_counters r) p1 ->
  (forall f k, total f k (set_phase p1 (swap f' p r).2) = total f k r) /\ traffic_inv (set_phase p1 (swap f' p r).2).
Proof.
  intros Hi Hk Hp0 Hsh Hp1. split; [|by apply inv_set_phase; [apply inv_swap|]].
  intros f k. rewrite total_phase, (total_at _ _ _ _ Hp0), Hsh. destruct Hi as [Hc Ho _ _ _].
  destruct (pending_swap r Hc Ho f k key f' p Hk) as [Hpend _]. unfold stored in *. cbn in *. lia.
Qed.

Lemma restore_phase key f' n todo r : traffic_inv r -> rc_phase r = Restoring ((key, f', n) :: todo) ->
  (forall f k, total f k r < 2 ^ 64 -> total f k (set_phase (Restoring todo) (restore_one key f' n r)) = total f k r)
  /\ traffic_inv (set_phase (Restoring todo) (restore_one key f' n r)).
Proof.
  intros Hi Hph. pose proof (ti_phase _ Hi) as Hp. rewrite Hph in Hp. cbn in Hp.
  apply Forall_cons in Hp as [[[p Hk] Hn] Htodo]. unfold restore_one. rewrite Hk. split.
  - intros f k. rewrite total_phase, (total_at _ _ _ _ Hph). cbn [carried sumw foldr]. intros Hlt.
    pose proof (carried_nonneg f k (rc_counters r) (Restoring todo) Htodo) as Hc. cbn [carried] in Hc.
    pose proof (stored_nonneg f k r Hi). destruct Hi as [Hcell Ho _ _ _].
    unfold sumw in *. rewrite (pending_fetch_add r Hcell Ho f k key f' p n) by (done || lia).
    change (stored f k (fetch_add f' p n r)) with (stored f k r). lia.
  - apply inv_set_phase; [by apply inv_fetch_add|done].
Qed.

Lemma prune_phase key todo r : traffic_inv r -> rc_phase r = Pruning (key :: todo) ->
  (forall f k, total f k (set_phase (Pruning todo) (prune_one key r)) = total f k r)
  /\ traffic_inv (set_phase (Pruning todo) (prune_one key r)).
Proof.
  intros Hi Hph. destruct (prune_step key r Hi) as [Hpend Hi']. split.
  - intros f k. rewrite total_phase, (total_at _ _ _ _ Hph). specialize (Hpend f k).
    change (pending f k (prune_one key r) = pending f k r) in Hpend.
    assert (rc_database (prune_one key r) = rc_database r) as Hdb by (unfold prune_one; by repeat case_match).
    unfold stored. rewrite Hdb. cbn. lia.
  - destruct Hi'. by constructor.
Qed.

(** No step of a flush loses or makes an amount. *)
Lemma flush_step_ok r : traffic_inv r ->
  (forall f k, total f k r < 2 ^ 64 -> total f k (flush_step r) = total f k r) /\ traffic_inv (flush_step r).
Proof.
  intros Hi. pose proof (ti_phase _ Hi) as Hp. unfold flush_step.
  destruct (rc_phase r) as [|[|[key p] todo] deltas|key p payload todo deltas|key p payload frames todo deltas
                            |deltas|[|[[key f'] n] todo]| |[|key todo]] eqn:Hph; cbn in Hp.
  - done.
  - destruct Hp as [_ Hd]. destruct deltas as [|d deltas]; (split; [|by apply inv_set_phase]); intros f k _;
      by rewrite total_phase, (total_at _ _ _ _ Hph).
  - destruct Hp as [[Hk Htodo]%Forall_cons Hd]. pose proof (swap_nonneg key PayloadBytes p r Hi Hk) as Hn.
    destruct (swap_phase key PayloadBytes p r _ (TakeFrames key p (swap PayloadBytes p r).1 todo deltas) Hi Hk Hph)
      as [Ht Hi']; [intros f k; cbn; lia|done|]. split; [intros f k _; apply Ht|done].
  - destruct Hp as (Hk & Hpay & Htodo & Hd). pose proof (swap_nonneg key PayloadFrames p r Hi Hk) as Hn.
    destruct (swap_phase key PayloadFrames p r _ (TakeBillable key p payload (swap PayloadFrames p r).1 todo deltas) Hi Hk Hph)
      as [Ht Hi']; [intros f k; cbn; lia|done|]. split; [intros f k _; apply Ht|done].
  - destruct Hp as (Hk & Hpay & Hfr & Htodo & Hd). pose proof (swap_nonneg key BillableBytes p r Hi Hk) as Hn.
    destruct (swap_phase key BillableBytes p r _
      (TakeBytes todo (taken key (mkAmount payload frames (swap BillableBytes p r).1) deltas)) Hi Hk Hph) as [Ht Hi'].
    + intros f k. cbn [carried]. rewrite taken_weight. cbn [payload_bytes payload_frames billable_bytes]. lia.
    + split; [done|]. unfold taken. case_match; [|done]. apply Forall_app. split; [done|].
      constructor; [|done]. split; [by exists p|]. by intros [].
    + split; [intros f k _; apply Ht|done].
  - done.
  - split; [|by apply inv_set_phase]. intros f k _. by rewrite total_phase, (total_at _ _ _ _ Hph).
  - by apply restore_phase.
  - split; [|by apply inv_set_phase]. intros f k _. by rewrite total_phase, (total_at _ _ _ _ Hph).
  - split; [|by apply inv_set_phase]. intros f k _. by rewrite total_phase, (total_at _ _ _ _ Hph).
  - destruct (prune_phase key todo r Hi Hph) as [Ht Hi']. split; [intros f k _; apply Ht|done].
Qed.

(** The end of a transaction: the rows gain exactly what the flush carried, which is put back
    unless the database reported success. *)
Lemma flush_write_ok timestamp text answer deltas r : traffic_inv r -> rc_phase r = Writing deltas ->
  (forall f k, total f k r <= i64_max ->
     total f k (flush_write timestamp text answer deltas r)
       = total f k r + recounted f k (EvWrite timestamp text answer) r)
  /\ traffic_inv (flush_write timestamp text answer deltas r).
Proof.
  intros Hi Hph. pose proof (ti_phase _ Hi) as Hp. rewrite Hph in Hp. cbn in Hp. unfold flush_write, recounted. rewrite Hph.
  assert (phase_ok (rc_counters r) (Restoring (deltas ≫= restore_steps))) as Hback.
  { cbn. clear -Hp. induction Hp as [|[key a] l [Hk Ha] _ IH]; [constructor|]. cbn [mbind list_bind].
    apply Forall_app. split; [|exact IH]. repeat constructor; try done; [apply (Ha PayloadBytes)|apply (Ha PayloadFrames)|apply (Ha BillableBytes)]. }
  assert (forall f k p r', rc_database r' = rc_database r -> rc_heap r' = rc_heap r -> rc_counters r' = rc_counters r ->
    carried f k p = sumw (delta_weight f k) deltas -> total f k (set_phase p r') = total f k r) as Hsame.
  { intros f k p r' Hd Hh Hm Hc. rewrite total_phase, (total_at _ _ _ _ Hph), Hc. unfold pending, stored, load.
    by rewrite Hd, Hh, Hm. }
  rewrite insert_chunks_all by done. destruct (insert_chunk _ text deltas _) as [rows|] eqn:Hins.
  2: { split; [|by apply inv_set_phase]. intros f k _. rewrite Hsame; [destruct answer; lia|done..|apply restore_weight]. }
  assert (forall f k, total f k r <= i64_max -> rows_total f k rows = stored f k r + sumw (delta_weight f k) deltas) as Hrows.
  { intros f k Hle. apply (insert_chunk_total f k _ text deltas _ _ Hins). apply Forall_forall. intros d Hd.
    intros <-. rewrite (total_at _ _ _ _ Hph) in Hle. cbn [carried] in Hle.
    pose proof (stored_nonneg f d.1 r Hi). pose proof (pending_nonneg f d.1 r Hi).
    enough (field f d.2 <= sumw (delta_weight f d.1) deltas) by lia.
    apply list_elem_of_split in Hd as (l1 & l2 & ->). rewrite sumw_app. cbn. unfold delta_weight at 2. rewrite decide_True by done.
    apply Forall_app in Hp as [H1 [_ H2]%Forall_cons].
    pose proof (deltas_nonneg f d.1 _ _ H1). pose proof (deltas_nonneg f d.1 _ _ H2). unfold sumw in *. lia. }
  assert (traffic_inv (set_usage rows r)) as Hi'.
  { apply inv_set_usage; [done|]. eapply (insert_chunk_positive _ text deltas _ _ Hins); [|apply Hi].
    eapply Forall_impl; [exact Hp|]. by intros d []. }
  assert (forall f k p, total f k r <= i64_max ->
    total f k (set_phase p (set_usage rows r)) = pending f k r + carried f k p + stored f k r + sumw (delta_weight f k) deltas)
    as Hnew by (intros f k p Hle; specialize (Hrows f k Hle); unfold total, in_flight, pending, load; cbn;
                change (stored f k (set_phase p (set_usage rows r))) with (rows_total f k rows); lia).
  destruct answer; cbn [db_applies db_reports]; (split; [intros f k Hle|by apply inv_set_phase]).
  - rewrite Hnew, (total_at _ _ _ _ Hph) by done. cbn. lia.
  - rewrite Hsame; [lia|done..|apply restore_weight].
  - rewrite Hnew, (total_at _ _ _ _ Hph) by done. cbn [carried]. rewrite restore_weight. lia.
Qed.

(** ** Histories *)

Lemma advance_ok e r r' : traffic_inv r -> advance e r = Some r' ->
  (forall f k, total f k r + recorded f k e <= i64_max ->
     total f k r' + expired f k e r = total f k r + recorded f k e + recounted f k e r)
  /\ traffic_inv r'.
Proof.
  intros Hi. destruct e as [ws class st sid dt did|s|s f' n| | |timestamp text answer|timestamp n]; cbn [advance].
  - case_match; [|done]. intros [= <-]. destruct (register_step ws class st sid dt did r Hi) as [Hi' Ht].
    split; [|done]. intros f k _. cbn. rewrite Ht. lia.
  - case_decide; [|done]. intros [= <-]. split; [intros f k _; change (total f k r + 0 = total f k r + 0 + 0); lia|].
    destruct Hi. constructor; try done. cbn. rewrite Forall_forall in *. eauto using remove_first_elem.
  - case_decide as Hd; [|done]. destruct Hd as [Hin Hn]. intros [= <-]. split; [|by apply inv_fetch_add].
    intros f k. cbn [recorded expired recounted]. intros Hle. pose proof (stored_nonneg f k r Hi).
    pose proof (carried_nonneg f k _ _ (ti_phase _ Hi)). destruct Hi as [Hc Ho Hs Hp Hr]. rewrite Forall_forall in Hs.
    unfold total, in_flight, i64_max in *. rewrite (pending_fetch_add r Hc Ho f k s.1 f' s.2 n) by (exact (Hs _ Hin) || lia).
    change (stored f k (fetch_add f' s.2 n r)) with (stored f k r). cbn. lia.
  - destruct (rc_phase r) eqn:Hph; try done. intros [= <-]. split.
    + intros f k _. unfold flush_start. rewrite total_phase, (total_at _ _ _ _ Hph). cbn. lia.
    + apply inv_set_phase; [done|]. split; [|constructor]. apply Forall_forall.
      intros [key p] Hin%elem_of_map_to_list. exact Hin.
  - intros Hstep. assert (r' = flush_step r) as -> by (destruct (rc_phase r); congruence).
    destruct (flush_step_ok r Hi) as [Ht Hi']. split; [|done]. intros f k. cbn. unfold i64_max. intros Hle.
    rewrite Ht by lia. lia.
  - destruct (rc_phase r) as [| | | |deltas| | |] eqn:Hph; try done. intros [= <-].
    destruct (flush_write_ok timestamp text answer deltas r Hi Hph) as [Ht Hi']. split; [|done].
    intros f k. cbn [recorded expired]. intros Hle. rewrite Ht by lia. lia.
  - intros [= <-]. set (usage := if Nat.leb 1 n
        then filter (fun kr : (TrafficKey * Z) * UsageRow => cutoff timestamp <= kr.1.2) (db_usage (rc_database r))
        else db_usage (rc_database r)).
    assert (rc_counters (delete_expired timestamp n r) = rc_counters r /\ rc_heap (delete_expired timestamp n r) = rc_heap r
      /\ rc_streams (delete_expired timestamp n r) = rc_streams r /\ rc_phase (delete_expired timestamp n r) = rc_phase r
      /\ db_usage (rc_database (delete_expired timestamp n r)) = usage) as (Hm & Hh & Hs & Hp & Hu)
      by (unfold delete_expired; by case_match).
    split.
    + intros f k _. unfold total, in_flight, stored, pending, load. rewrite Hm, Hh, Hp, Hu. cbn [recorded recounted expired].
      unfold usage. destruct n; cbn [Nat.leb]; [lia|].
      pose proof (rows_split f k (cutoff timestamp) (db_usage (rc_database r))). lia.
    + destruct Hi as [Hc Ho Hst Hph Hr]. constructor; rewrite ?Hm, ?Hh, ?Hs, ?Hp, ?Hu; try done.
      intros key row Hk. unfold usage in Hk. case_match; [|by eapply Hr]. apply map_lookup_filter_Some in Hk as [Hk _]. by eapply Hr.
Qed.

Lemma effects_nonneg f k e r r' : traffic_inv r -> advance e r = Some r' ->
  0 <= recorded f k e /\ 0 <= recounted f k e r /\ 0 <= expired f k e r.
Proof.
  intros Hi Hs. split_and!.
  - destruct e; try done. cbn in Hs |- *. case_decide as Hd; [|done]. by apply share_nonneg, Hd.
  - unfold recounted. destruct e as [| | | | |timestamp text answer|]; try done. destruct answer; try done.
    pose proof (ti_phase _ Hi) as Hp. destruct (rc_phase r); try done. case_match; [|done]. cbn in Hp.
    by apply (deltas_nonneg f k (rc_counters r)).
  - unfold expired. destruct e as [| | | | | |timestamp n]; try done. destruct n; [done|]. apply rows_nonneg. intros key row Hk.
    eapply (ti_rows _ Hi). by eapply map_lookup_filter_Some in Hk as [? _].
Qed.
Lemma tally_nonneg f k es r r' : traffic_inv r -> run es r = Some r' ->
  0 <= tally (fun e _ => recorded f k e) es r /\ 0 <= tally (recounted f k) es r /\ 0 <= tally (expired f k) es r.
Proof.
  revert r. induction es as [|e es IH]; intros r Hi; [done|]. cbn. intros (r1 & H1 & Hrun)%bind_Some.
  rewrite H1. destruct (effects_nonneg f k e r r1 Hi H1) as (? & ? & ?). destruct (advance_ok e r r1 Hi H1) as [_ Hi1].
  destruct (IH r1 Hi1 Hrun) as (? & ? & ?). lia.
Qed.
Lemma run_total f k es r r' : traffic_inv r -> run es r = Some r' ->
  total f k r + tally (fun e _ => recorded f k e) es r + tally (recounted f k) es r <= i64_max ->
  total f k r' + tally (expired f k) es r
    = total f k r + tally (fun e _ => recorded f k e) es r + tally (recounted f k) es r
  /\ traffic_inv r'.
Proof.
  revert r. induction es as [|e es IH]; intros r Hi; cbn.
  { intros [= <-]. split; [lia|done]. }
  intros (r1 & H1 & Hrun)%bind_Some. rewrite H1. intros Hle.
  destruct (effects_nonneg f k e r r1 Hi H1) as (? & ? & ?). destruct (advance_ok e r r1 Hi H1) as [Ht Hi1].
  destruct (tally_nonneg f k es r1 r' Hi1 Hrun) as (? & ? & ?). specialize (Ht f k ltac:(lia)).
  destruct (IH r1 Hi1 Hrun) as [Htot Hi']; [lia|]. split; [lia|done].
Qed.
Lemma new_inv agent_detail db : (forall k row, db_usage db !! k = Some row -> positive (ur_amount row)) ->
  traffic_inv (recorder_new agent_detail db).
Proof. intros Hr. constructor; cbn; try done; by constructor. Qed.

(** C17: Nothing is lost and nothing invented.  In every history of streams that count, register and
    end, of flushes with every outcome of their transaction, and of expiry, interleaved at the
    atomic additions: for every kind of count and every key, what the counters hold, what a flush
    carries, what the table holds and what expired add up to what the table held at first, what
    was counted, and what a transaction stored although its answer was lost (which is counted
    twice), as long as that sum fits a BIGINT. *)
Theorem traffic_is_conserved (f : Field) (k : TrafficKey) (es : list TrafficEvent) (agent_detail : bool) (db : Database)
    (r : Recorder) :
  let r0 := recorder_new agent_detail db in
  let added := tally (fun e _ => recorded f k e) es r0 + tally (recounted f k) es r0 in
  (forall key row, db_usage db !! key = Some row -> positive (ur_amount row)) ->
  run es r0 = Some r ->
  rows_total f k (db_usage db) + added <= i64_max ->
  pending f k r + in_flight f k r + stored f k r + tally (expired f k) es r0 = rows_total f k (db_usage db) + added.
Proof.
  intros r0 added Hrows Hrun Hle.
  assert (total f k r0 = rows_total f k (db_usage db)) as H0
    by (unfold total, pending, in_flight, stored; cbn; rewrite lookup_empty; lia).
  destruct (run_total f k es r0 r (new_inv agent_detail db Hrows) Hrun) as [Ht _]; [change (recorder_new agent_detail db) with r0; lia|]. change (recorder_new agent_detail db) with r0 in Ht.
  unfold total at 1 in Ht. lia.
Qed.
