(* ===== verification/TrafficReport.v ===== *)
(** * What a traffic report shows

    The records of an idle recorder are those of its rows and its counters, each key and window
    once, newest first. *)

From stdpp Require Import gmap sorting.
From S2P Require Import Prelude RustStr Protocol Traffic TrafficFacts.
Local Open Scope Z_scope.

(** ** What should be listed *)

Definition amount_sum (rows : list ((TrafficKey * Z) * Amount)) : Amount :=
  foldr (fun row s => zip_amount Z.add row.2 s) zero rows.
Definition rows_at (key : TrafficKey) (window : Z) (rows : list ((TrafficKey * Z) * Amount)) : list ((TrafficKey * Z) * Amount) :=
  List.filter (fun row => bool_decide (row.1 = (key, window))) rows.

(** What the counter of a key holds for a window: only the current one has counters. *)
Definition held_now (timestamp : Z) (r : Recorder) (key : TrafficKey) (window : Z) : Amount :=
  if window =? hour_start timestamp then from_option (fun p => load p r) zero (rc_counters r !! key) else zero.

(** The record of a key and window: the sum of its rows since the start of the report and of what
    its counter holds, or none when there is neither. *)
Definition shown (timestamp : Z) (workspace_id : string) (hours : Z) (r : Recorder) (key : TrafficKey) (window : Z) : option Amount :=
  let rows := rows_at key window (usage_rows (rc_agent_detail r) workspace_id (traffic_window_start timestamp hours) (rc_database r)) in
  let now := held_now timestamp r key window in
  match rows with
  | [] => if nonzero now then Some now else None
  | _ => Some (zip_amount saturating_add (amount_sum rows) now)
  end.

(** ** Records and keys *)

Lemma zip_zero_l a : zip_amount Z.add zero a = a.
Proof. by destruct a. Qed.
Lemma zip_zero_r a : zip_amount Z.add a zero = a.
Proof. destruct a. unfold zip_amount. cbn. by rewrite !Z.add_0_r. Qed.
Lemma zip_assoc a b c : zip_amount Z.add a (zip_amount Z.add b c) = zip_amount Z.add (zip_amount Z.add a b) c.
Proof. unfold zip_amount. cbn. by rewrite !Z.add_assoc. Qed.
Lemma nonzero_false a : nonzero a = false -> a = zero.
Proof. destruct a as [x y z]. unfold nonzero, zero. cbn. intros. f_equal; lia. Qed.

Lemma group_rows_lookup rows key window :
  group_rows rows !! (key, window) =
    match rows_at key window rows with [] => None | at_key => Some (amount_sum at_key) end.
Proof.
  induction rows as [|[k a] rows IH]; [done|]. cbn [group_rows rows_at List.filter fst].
  destruct (decide (k = (key, window))) as [->|Hne].
  - rewrite bool_decide_eq_true_2, lookup_partial_alter, decide_True by done. rewrite IH. unfold rows_at.
    destruct (List.filter _ rows); cbn; [by rewrite zip_zero_r|done].
  - rewrite bool_decide_eq_false_2, lookup_partial_alter_ne by done. exact IH.
Qed.

Section Report.
Variable ws : string.

Lemma record_of_inj key window a key' window' a' :
  tk_workspace_id key = ws -> tk_workspace_id key' = ws ->
  record_of key window a = record_of key' window' a' -> key = key' /\ window = window' /\ a = a'.
Proof. destruct key, key', a, a'. unfold record_of. cbn. intros ? ? [=]. by subst. Qed.
Lemma same_record_iff key window key' window' a :
  tk_workspace_id key = ws -> tk_workspace_id key' = ws ->
  same_record key window (record_of key' window' a) = true <-> key = key' /\ window = window'.
Proof.
  intros Hk Hk'. unfold same_record, record_of. cbn. rewrite !andb_true_iff, !str_eqb_eq, !Z.eqb_eq.
  destruct key, key'. cbn in *. naive_solver.
Qed.

(** The records are exactly those of [S]. *)
Definition lists (records : list MachineTrafficRecord) (S : TrafficKey -> Z -> option Amount) : Prop :=
  NoDup records /\
  forall rec, rec ∈ records <-> exists key window a, tk_workspace_id key = ws /\ S key window = Some a /\ rec = record_of key window a.

Definition with_amount (key : TrafficKey) (window : Z) (a : Amount) (S : TrafficKey -> Z -> option Amount)
    (key' : TrafficKey) (window' : Z) : option Amount :=
  if decide (key' = key /\ window' = window) then Some (from_option (fun b => zip_amount saturating_add b a) a (S key window))
  else S key' window'.

Lemma lists_ext records S S' :
  (forall key window, tk_workspace_id key = ws -> S key window = S' key window) -> lists records S -> lists records S'.
Proof. intros He [Hd Hl]. split; [done|]. intros rec. rewrite Hl. split; intros (key & w & a & Hk & Ha & ->); exists key, w, a;
  [rewrite <- He|rewrite He]; done. Qed.
Lemma lists_perm records records' S : records ≡ₚ records' -> lists records S -> lists records' S.
Proof. intros Hp [Hd Hl]. split; [by rewrite <- Hp|]. intros rec. by rewrite <- Hp. Qed.

Lemma merge_record_absent key window a records :
  (forall rec, rec ∈ records -> same_record key window rec = false) ->
  merge_record key window a records = records ++ [record_of key window a].
Proof.
  induction records as [|rec records IH]; intros Hn; [done|]. cbn [merge_record].
  rewrite Hn by set_solver. cbn. f_equal. apply IH. set_solver.
Qed.
Lemma merge_record_present key window a l1 rec l2 :
  (forall x, x ∈ l1 -> same_record key window x = false) -> same_record key window rec = true ->
  merge_record key window a (l1 ++ rec :: l2) = l1 ++ add_to_record a rec :: l2.
Proof.
  induction l1 as [|x l1 IH]; intros Hn Hs; cbn [app merge_record]; [by rewrite Hs|].
  rewrite Hn by set_solver. f_equal. apply IH; [set_solver|done].
Qed.

Lemma merge_record_lists key window a records S : tk_workspace_id key = ws -> lists records S ->
  lists (merge_record key window a records) (with_amount key window a S).
Proof.
  intros Hkey [Hd Hl]. unfold with_amount. destruct (S key window) as [b|] eqn:Hb; cbn [from_option].
  - assert (record_of key window b ∈ records) as Hin by (apply Hl; by exists key, window, b).
    apply list_elem_of_split in Hin as (l1 & l2 & ->).
    assert (forall x, x ∈ l1 ++ l2 -> same_record key window x = false) as Hother.
    { intros x Hx. apply not_true_is_false. intros Hsame.
      assert (x ∈ l1 ++ record_of key window b :: l2) as Hin by set_solver.
      apply Hl in Hin as (key' & w' & a' & Hk' & Ha' & ->). apply same_record_iff in Hsame as [<- <-]; [|done..].
      rewrite Hb in Ha'. simplify_eq. apply NoDup_app in Hd as (_ & Hd1 & [Hd2 _]%NoDup_cons). set_solver. }
    rewrite merge_record_present by (by set_solver || by apply same_record_iff).
    change (add_to_record a (record_of key window b)) with (record_of key window (zip_amount saturating_add b a)).
    assert (record_of key window (zip_amount saturating_add b a) ∉ l1 ++ l2) as Hnew.
    { intros Hx. specialize (Hother _ Hx). by rewrite (proj2 (same_record_iff _ _ _ _ _ Hkey Hkey)) in Hother. }
    split.
    + rewrite <- Permutation_middle in Hd |- *. apply NoDup_cons in Hd as [_ Hd]. by constructor.
    + intros rec. rewrite elem_of_app, elem_of_cons. split.
      * intros Hrec. assert (rec = record_of key window (zip_amount saturating_add b a) \/ rec ∈ l1 ++ l2) as [->|Hold] by set_solver.
        { exists key, window, (zip_amount saturating_add b a). by rewrite decide_True. }
        assert (rec ∈ l1 ++ record_of key window b :: l2) as (key' & w' & a' & Hk' & Ha' & ->)%Hl by set_solver.
        exists key', w', a'. rewrite decide_False; [done|]. intros [-> ->].
        specialize (Hother _ Hold). by rewrite (proj2 (same_record_iff _ _ _ _ _ Hkey Hkey)) in Hother.
      * intros (key' & w' & a' & Hk' & Ha' & ->). case_decide as Hsame; [destruct Hsame as [-> ->]; simplify_eq; set_solver|].
        assert (record_of key' w' a' ∈ l1 ++ record_of key window b :: l2) as Hin by (apply Hl; by exists key', w', a').
        apply elem_of_app in Hin as [|[Heq|]%elem_of_cons]; [set_solver| |set_solver].
        apply record_of_inj in Heq as (-> & -> & _); [|done..]. naive_solver.
  - assert (forall rec, rec ∈ records -> same_record key window rec = false) as Hn.
    { intros rec (key' & w' & a' & Hk' & Ha' & ->)%Hl. apply not_true_is_false. intros [-> ->]%same_record_iff; [congruence|done..]. }
    rewrite merge_record_absent by done. split.
    + apply NoDup_app. split_and!; [done| |apply NoDup_singleton]. intros rec Hrec ->%list_elem_of_singleton.
      specialize (Hn _ Hrec). by rewrite (proj2 (same_record_iff _ _ _ _ _ Hkey Hkey)) in Hn.
    + intros rec. rewrite elem_of_app, list_elem_of_singleton, Hl. split.
      * intros [(key' & w' & a' & Hk' & Ha' & ->)| ->]; [|exists key, window, a; by rewrite decide_True].
        exists key', w', a'. rewrite decide_False; [done|]. intros [-> ->]. congruence.
      * intros (key' & w' & a' & Hk' & Ha' & ->). case_decide as Hsame; [destruct Hsame as [-> ->]; simplify_eq; by right|].
        left. by exists key', w', a'.
Qed.

(** The counters of the iteration, over what is listed so far. *)
Definition with_counters (window : Z) (l : list (TrafficKey * Amount)) (S : TrafficKey -> Z -> option Amount)
    (key : TrafficKey) (w : Z) : option Amount :=
  match (list_to_map l : gmap TrafficKey Amount) !! key with
  | Some a => if nonzero a && bool_decide (w = window)
              then Some (from_option (fun b => zip_amount saturating_add b a) a (S key w)) else S key w
  | None => S key w
  end.

Lemma merge_pending_lists window l records S : NoDup (fst <$> l) -> lists records S ->
  lists (merge_pending ws window l records) (with_counters window l S).
Proof.
  revert records S. induction l as [|[key a] l IH]; intros records S; [by intros _|].
  intros [Hkey Hd]%NoDup_cons Hl. cbn [merge_pending].
  assert ((list_to_map l : gmap TrafficKey Amount) !! key = None) as Hnone by (by apply not_elem_of_list_to_map_1).
  destruct ((tk_workspace_id key =s ws) && nonzero a) eqn:Hc.
  - apply andb_true_iff in Hc as [Hws%str_eqb_eq Hz].
    eapply lists_ext, (IH _ _ Hd), (merge_record_lists key window a records S Hws Hl).
    intros key' w Hk'. unfold with_counters, with_amount. cbn [list_to_map foldr uncurry].
    destruct (decide (key' = key)) as [->|Hne].
    + rewrite Hnone. cbn. rewrite lookup_insert_eq, Hz. cbn. repeat case_decide; try done; rewrite ?bool_decide_eq_true_2, ?bool_decide_eq_false_2 by naive_solver; naive_solver.
    + cbn. rewrite lookup_insert_ne by done. rewrite !decide_False by naive_solver. done.
  - eapply lists_ext, (IH _ _ Hd Hl). intros key' w Hk'. unfold with_counters. cbn.
    destruct (decide (key' = key)) as [->|Hne]; [|by rewrite lookup_insert_ne].
    rewrite Hnone, lookup_insert_eq. apply andb_false_iff in Hc as [Hc|Hc]; [|by rewrite Hc].
    by apply str_eqb_neq in Hc.
Qed.
End Report.

(** ** The order of the records *)

Section Lex.
Context {A B : Type} (R : relation B) (f : A -> B) (P : relation A).
Definition lex (a b : A) : Prop := (f a <> f b /\ R (f a) (f b)) \/ (f a = f b /\ P a b).

Lemma lex_trans : Transitive R -> AntiSymm (=) R -> Transitive P -> Transitive lex.
Proof.
  intros HR HA HP a b c [[Hn1 H1]|[He1 H1]] [[Hn2 H2]|[He2 H2]]; unfold lex.
  - left. split; [|by trans (f b)]. intros He. apply Hn1, HA; [done|]. by rewrite He.
  - left. by rewrite <- He2.
  - left. by rewrite He1.
  - right. split; [congruence|by trans b].
Qed.
Lemma lex_total `{!EqDecision B} : Total R -> Total P -> Total lex.
Proof.
  intros HR HP a b. unfold lex. destruct (decide (f a = f b)) as [He|Hn].
  - rewrite He. destruct (HP a b); auto.
  - destruct (HR (f a) (f b)); [left|right]; left; auto.
Qed.
End Lex.

Definition record_lex : relation MachineTrafficRecord :=
  lex Z.ge mt_window_start (lex str_le mt_source_server_id (lex str_le mt_destination_server_id
    (fun a b => str_le (mt_traffic_class a) (mt_traffic_class b)))).
Lemma record_le_lex a b : record_le a b <-> record_lex a b.
Proof.
  unfold record_le, record_leb, record_lex, lex, str_le.
  destruct (Z.ltb_spec (mt_window_start b) (mt_window_start a)); [split; intros _; [left; lia|done]|].
  destruct (Z.ltb_spec (mt_window_start a) (mt_window_start b)); [split; [done|lia]|].
  assert (mt_window_start a = mt_window_start b) as -> by lia.
  destruct (mt_source_server_id a =s mt_source_server_id b) eqn:Hs; cbn;
    [apply str_eqb_eq in Hs|apply str_eqb_neq in Hs]; [|naive_solver].
  destruct (mt_destination_server_id a =s mt_destination_server_id b) eqn:Hd; cbn;
    [apply str_eqb_eq in Hd|apply str_eqb_neq in Hd]; naive_solver.
Qed.
#[export] Instance record_le_trans : Transitive record_le.
Proof.
  intros a b c. rewrite !record_le_lex. apply lex_trans; [intros x y z ? ?; lia|intros x y ? ?; lia|].
  apply lex_trans; [apply _..|]. apply lex_trans; [apply _..|]. intros x y z. apply str_le_trans.
Qed.
#[export] Instance record_le_total : Total record_le.
Proof.
  intros a b. rewrite !record_le_lex.
  apply lex_total; [apply _|intros x y; destruct (Z.le_gt_cases x y); [right|left]; lia|].
  apply lex_total; [apply _..|]. apply lex_total; [apply _..|]. intros x y. apply str_le_total.
Qed.

(** ** Reports *)

Lemma usage_rows_workspace agent_detail ws since db row : row ∈ usage_rows agent_detail ws since db ->
  tk_workspace_id row.1.1 = ws.
Proof. intros [_ [Hk%str_eqb_eq _]%andb_true_iff]%filter_elem. done. Qed.

Lemma pending_lookup r key :
  (list_to_map (pending_counters r) : gmap TrafficKey Amount) !! key = (fun p => load p r) <$> rc_counters r !! key.
Proof.
  unfold pending_counters. rewrite <- lookup_fmap. f_equal.
  rewrite <- (list_to_map_to_list (rc_counters r)) at 2. rewrite <- list_to_map_fmap. f_equal.
Qed.
Lemma zip_sat_zero a : countable_amount a = true -> zip_amount saturating_add a zero = a.
Proof.
  destruct a as [x y z]. unfold countable_amount, zip_amount, saturating_add, u64_max, i64_max. cbn.
  intros H. f_equal; lia.
Qed.

(** Grouping, and then merging the counters, lists what should be shown. *)
Lemma shown_listed timestamp ws hours r key window :
  let rows := usage_rows (rc_agent_detail r) ws (traffic_window_start timestamp hours) (rc_database r) in
  forallb (fun row : (TrafficKey * Z) * Amount => countable_amount row.2) (map_to_list (group_rows rows)) = true ->
  with_counters (hour_start timestamp) (pending_counters r) (fun key window => group_rows rows !! (key, window)) key window
    = shown timestamp ws hours r key window.
Proof.
  intros rows Hcount. unfold with_counters, shown. rewrite pending_lookup, group_rows_lookup. fold rows. unfold held_now.
  assert (forall a, group_rows rows !! (key, window) = Some a -> countable_amount a = true) as Hok.
  { intros a Ha%elem_of_map_to_list. pose proof (proj1 (forallb_elem _ _) Hcount) as Hc. by apply (Hc _ Ha). }
  rewrite group_rows_lookup in Hok. destruct (rows_at key window rows) as [|row l] eqn:Hr; [clear Hok|specialize (Hok _ eq_refl)].
  - destruct (rc_counters r !! key) as [p|]; cbn; [|by destruct (window =? _)].
    destruct (Z.eqb_spec window (hour_start timestamp)); [rewrite bool_decide_eq_true_2 by done|rewrite bool_decide_eq_false_2 by done];
      rewrite ?andb_true_r, ?andb_false_r; done.
  - destruct (rc_counters r !! key) as [p|]; cbn [fmap option_fmap option_map from_option].
    + destruct (nonzero (load p r)) eqn:Hz; cbn [andb].
      * destruct (Z.eqb_spec window (hour_start timestamp)); [rewrite bool_decide_eq_true_2 by done|rewrite bool_decide_eq_false_2 by done];
          [done|by rewrite zip_sat_zero].
      * apply nonzero_false in Hz. rewrite Hz. rewrite Tauto.if_same. by rewrite zip_sat_zero.
    + rewrite Tauto.if_same. by rewrite zip_sat_zero.
Qed.

Lemma grouped_lists ws rows : (forall row, row ∈ rows -> tk_workspace_id row.1.1 = ws) ->
  lists ws ((fun row => record_of row.1.1 row.1.2 row.2) <$> map_to_list (group_rows rows))
    (fun key window => group_rows rows !! (key, window)).
Proof.
  intros Hws. assert (forall key window a, group_rows rows !! (key, window) = Some a -> tk_workspace_id key = ws) as Hkey.
  { intros key window a. rewrite group_rows_lookup. unfold rows_at. destruct (List.filter _ rows) as [|row l] eqn:Hf; [done|]. intros _.
    assert (row ∈ List.filter (fun row => bool_decide (row.1 = (key, window))) rows) as [Hin Hd%bool_decide_eq_true]%filter_elem
      by (rewrite Hf; set_solver). specialize (Hws _ Hin). by rewrite Hd in Hws. }
  split.
  - apply NoDup_fmap_2_strong; [|apply NoDup_map_to_list].
    intros [[k1 w1] a1] [[k2 w2] a2] H1%elem_of_map_to_list H2%elem_of_map_to_list He.
    cbn in He. apply (record_of_inj ws) in He as (-> & -> & ->); eauto.
  - intros rec. rewrite list_elem_of_fmap. split.
    + intros ([[key window] a] & -> & Hin%elem_of_map_to_list). exists key, window, a. eauto.
    + intros (key & window & a & Hk & Ha & ->). exists ((key, window), a). split; [done|]. by apply elem_of_map_to_list.
Qed.

(** C18: A report is complete and exact.  It lists every key of the workspace and every hour since
    its start that has rows or, for the current hour, a counter that is not zero; each once, with
    the sum of its rows and of its counter (up to the largest [u64]), newest hour first. *)
Theorem report_is_exact (timestamp_ok : Z -> bool) (timestamp hours : Z) (ws : string) (r : Recorder)
    (records : list MachineTrafficRecord) :
  recent timestamp_ok timestamp ws hours (rc_database r) r = Ok records ->
  NoDup records /\ StronglySorted record_le records /\
  (forall rec, rec ∈ records <-> exists key window a, tk_workspace_id key = ws
     /\ shown timestamp ws hours r key window = Some a /\ rec = record_of key window a).
Proof.
  unfold recent. set (rows := usage_rows _ _ _ _). intros H. do 4 (case_match; [done|]).
  assert (records = merge_sort record_le (merge_pending ws (hour_start timestamp) (pending_counters r)
    ((fun row => record_of row.1.1 row.1.2 row.2) <$> map_to_list (group_rows rows)))) as -> by congruence. clear H.
  assert (lists ws (merge_pending ws (hour_start timestamp) (pending_counters r)
      ((fun row => record_of row.1.1 row.1.2 row.2) <$> map_to_list (group_rows rows)))
    (shown timestamp ws hours r)) as Hl.
  { eapply lists_ext, merge_pending_lists, grouped_lists; [| |intros row; apply usage_rows_workspace].
    - intros key window _. apply shown_listed. by apply negb_false_iff.
    - unfold pending_counters. rewrite <- list_fmap_compose. apply NoDup_fst_map_to_list. }
  split_and!.
  - rewrite merge_sort_Permutation. apply Hl.
  - apply StronglySorted_merge_sort; apply _.
  - intros rec. rewrite merge_sort_Permutation. apply Hl.
Qed.

(** * Traffic accounting on a concrete history *)

Definition no_rows : Database := mkDatabase ∅ [] [].
Definition fresh_recorder : Recorder := recorder_new false no_rows.
Definition uplink : TrafficKey :=
  traffic_key "ws" ServiceIngress ENDPOINT_CLIENT BROWSER_TRAFFIC_ENDPOINT ENDPOINT_MACHINE "srv".
Definition steps (n : nat) : list TrafficEvent := replicate n EvStep.
Definition count_chunk (p : nat) (n : Z) : list TrafficEvent := (fun '(f, m) => EvAdd (uplink, p) f m) <$> record_steps n.

(** A stream sends two chunks; the flush that falls between them (after it has swapped out one of
    the counters) fails, and the next one succeeds. *)
Definition busy_history : list TrafficEvent :=
  [EvRegister "ws" ServiceIngress ENDPOINT_CLIENT BROWSER_TRAFFIC_ENDPOINT ENDPOINT_MACHINE "srv"]
  ++ count_chunk 1 1000 ++ [EvFlush] ++ steps 4 ++ count_chunk 1 24 ++ steps 3 ++ [EvWrite 7200 "t1" DbFailed]
  ++ steps 4 ++ [EvFlush] ++ steps 7 ++ [EvWrite 7300 "t2" Committed] ++ steps 4 ++ [EvDrop (uplink, 1%nat)].
Definition after_busy : Recorder := default fresh_recorder (run busy_history fresh_recorder).
Lemma run_default es r0 : is_some (run es r0) = true -> run es r0 = Some (default r0 (run es r0)).
Proof. by destruct (run es r0). Qed.
Lemma busy_runs : run busy_history fresh_recorder = Some after_busy.
Proof. apply run_default. vm_compute. reflexivity. Qed.

Theorem traffic_is_conserved_witness :
  stored PayloadBytes uplink after_busy = 1024 /\
  pending PayloadBytes uplink after_busy + in_flight PayloadBytes uplink after_busy
    + stored PayloadBytes uplink after_busy + tally (expired PayloadBytes uplink) busy_history fresh_recorder
    = rows_total PayloadBytes uplink (db_usage no_rows)
      + (tally (fun e _ => recorded PayloadBytes uplink e) busy_history fresh_recorder
         + tally (recounted PayloadBytes uplink) busy_history fresh_recorder).
Proof.
  split; [vm_compute; reflexivity|].
  apply (traffic_is_conserved PayloadBytes uplink busy_history false no_rows after_busy).
  - intros key row H. exfalso. change ((∅ : gmap (TrafficKey * Z) UsageRow) !! key = Some row) in H. by rewrite lookup_empty in H.
  - exact busy_runs.
  - vm_compute. discriminate.
Defined.

(** The records that are listed two hours later, with one more chunk in the counters. *)
Definition open_stream : list TrafficEvent :=
  EvRegister "ws" ServiceIngress ENDPOINT_CLIENT BROWSER_TRAFFIC_ENDPOINT ENDPOINT_MACHINE "srv" :: count_chunk 1 5.
Definition reporting : Recorder :=
  default fresh_recorder (run (removelast busy_history ++ count_chunk 1 5) fresh_recorder).
Definition sample_report : list MachineTrafficRecord :=
  default [] (match recent (fun _ => true) 14400 "ws" 24 (rc_database reporting) reporting with Ok l => Some l | Err _ => None end).

Theorem report_is_exact_witness :
  sample_report = [record_of uplink 14400 (mkAmount 5 1 5); record_of uplink 7200 (mkAmount 1024 2 1024)] /\
  NoDup sample_report /\ StronglySorted record_le sample_report /\
  (forall rec, rec ∈ sample_report <-> exists key window a, tk_workspace_id key = "ws"%string
     /\ shown 14400 "ws" 24 reporting key window = Some a /\ rec = record_of key window a).
Proof.
  split; [vm_compute; reflexivity|].
  apply (report_is_exact (fun _ => true) 14400 24 "ws" reporting). vm_compute. reflexivity.
Defined.

(** A commit whose answer is lost: the deltas are stored and put back, and the next flush stores
    them again. *)
Definition lost_answer : list TrafficEvent :=
  open_stream ++ [EvFlush] ++ steps 7 ++ [EvWrite 7200 "t1" CommitUnknown] ++ steps 4
  ++ [EvFlush] ++ steps 7 ++ [EvWrite 7300 "t2" Committed] ++ steps 4.
Theorem lost_answer_counts_twice :
  exists r, run lost_answer fresh_recorder = Some r /\
  tally (fun e _ => recorded PayloadBytes uplink e) lost_answer fresh_recorder = 5 /\
  stored PayloadBytes uplink r = 10.
Proof.
  exists (default fresh_recorder (run lost_answer fresh_recorder)).
  split; [apply run_default; vm_compute; reflexivity|]. split; vm_compute; reflexivity.
Qed.
