(* ===== verification/StartupStore.v ===== *)
(** * Saved workload launches (crates/treer-agent-server/src/startup_store.rs)

    The Controller keeps the launch of every workload and the identities that may never be launched
    again in one file, read at start and replaced at every change.  A change is written first and
    taken over in memory afterwards.

    JSON is the class [StartupJson]; the file system is a record of the file with the faults its
    calls meet.  The temporary file has a fresh name nothing else reads, so it is a value here. *)

From stdpp Require Import gmap pretty sorting.
From S2P Require Import Prelude RustStr HostProtocol.
Local Open Scope Z_scope.

Definition STORE_VERSION : Z := 2.
Definition MAX_DENIED_AGENT_IDS : Z := 4096.

Record AgentStartupSpec : Type := mkAgentStartupSpec {
  as_agent_id : string;
  as_server_id : string;
  as_kind : string;
  as_name : string;
  as_cwd : string;
  as_command : string;
  as_args : list string;
  as_publish_ports : list Z;
  as_enabled : bool;
  as_generation : Z
}.

Record StoredAgentStartup : Type := mkStoredAgentStartup {
  se_app_revision : Z;
  se_spec : AgentStartupSpec;
  se_workspace_id : string;
  se_workload_credential : string;
  se_last_host_epoch : string;
  se_initial_writes : list HostWrite;
  se_cols : Z;
  se_rows : Z
}.

Definition entry_id (e : StoredAgentStartup) : string := as_agent_id (se_spec e).

(** Field updates of an entry. *)
Definition set_spec (f : AgentStartupSpec -> AgentStartupSpec) (e : StoredAgentStartup) : StoredAgentStartup :=
  mkStoredAgentStartup (se_app_revision e) (f (se_spec e)) (se_workspace_id e) (se_workload_credential e)
    (se_last_host_epoch e) (se_initial_writes e) (se_cols e) (se_rows e).
Definition set_app_revision (n : Z) (e : StoredAgentStartup) : StoredAgentStartup :=
  mkStoredAgentStartup n (se_spec e) (se_workspace_id e) (se_workload_credential e)
    (se_last_host_epoch e) (se_initial_writes e) (se_cols e) (se_rows e).
Definition set_host_epoch (epoch : string) (e : StoredAgentStartup) : StoredAgentStartup :=
  mkStoredAgentStartup (se_app_revision e) (se_spec e) (se_workspace_id e) (se_workload_credential e)
    epoch (se_initial_writes e) (se_cols e) (se_rows e).
Definition clear_initial_writes (e : StoredAgentStartup) : StoredAgentStartup :=
  mkStoredAgentStartup (se_app_revision e) (se_spec e) (se_workspace_id e) (se_workload_credential e)
    (se_last_host_epoch e) [] (se_cols e) (se_rows e).
Definition spec_enabled (b : bool) (s : AgentStartupSpec) : AgentStartupSpec :=
  mkAgentStartupSpec (as_agent_id s) (as_server_id s) (as_kind s) (as_name s) (as_cwd s) (as_command s)
    (as_args s) (as_publish_ports s) b (as_generation s).
Definition spec_generation (n : Z) (s : AgentStartupSpec) : AgentStartupSpec :=
  mkAgentStartupSpec (as_agent_id s) (as_server_id s) (as_kind s) (as_name s) (as_cwd s) (as_command s)
    (as_args s) (as_publish_ports s) (as_enabled s) n.
Definition spec_launch (command : string) (args : list string) (s : AgentStartupSpec) : AgentStartupSpec :=
  mkAgentStartupSpec (as_agent_id s) (as_server_id s) (as_kind s) (as_name s) (as_cwd s) command args
    (as_publish_ports s) (as_enabled s) (as_generation s).
Definition spec_cwd (cwd : string) (s : AgentStartupSpec) : AgentStartupSpec :=
  mkAgentStartupSpec (as_agent_id s) (as_server_id s) (as_kind s) (as_name s) cwd (as_command s)
    (as_args s) (as_publish_ports s) (as_enabled s) (as_generation s).

Record StoreFile : Type := mkStoreFile {
  sf_version : Z;
  sf_entries : list StoredAgentStartup;
  sf_denied_agent_ids : gset string
}.

Record StoreState : Type := mkStoreState {
  ss_entries : gmap string StoredAgentStartup;
  ss_denied_agent_ids : gset string;
  ss_revision : Z
}.
Definition store_default : StoreState := mkStoreState ∅ ∅ 0.

(** ** The file *)

Inductive IoKind : Type := PermissionDenied | AlreadyExists | InvalidInput | InvalidData | OtherKind.
#[export] Instance IoKind_eq_dec : EqDecision IoKind.
Proof. solve_decision. Defined.
Record IoError : Type := mkIoError { io_kind : IoKind; io_text : string }.

Class StartupJson : Type := {
  store_to_json : StoreFile -> Result bytes string;
  store_from_json : bytes -> Result StoreFile string
}.
Class StartupJsonLaws {J : StartupJson} : Prop := {
  store_json_roundtrip f b : store_to_json f = Ok b -> store_from_json b = Ok f
}.

(** The content of the file, the content a power failure can bring back, and the faults the next
    calls of the operating system meet, in order. *)
Record Disk : Type := mkDisk {
  dk_file : option bytes;
  dk_durable : option bytes;
  dk_faults : list (option string)
}.

Definition M (A : Type) : Type := StM Disk A IoError.

(** One call: it fails with the next fault, or takes effect. *)
Definition os_call {A} (act : Disk -> A * Disk) : M A := fun d =>
  match dk_faults d with
  | Some text :: rest => (Err (mkIoError OtherKind text), mkDisk (dk_file d) (dk_durable d) rest)
  | None :: rest => let '(a, d') := act (mkDisk (dk_file d) (dk_durable d) rest) in (Ok a, d')
  | [] => let '(a, d') := act d in (Ok a, d')
  end.
Definition os_step : M unit := os_call (fun d => (tt, d)).
Definition fs_read : M (option bytes) := os_call (fun d => (dk_file d, d)).
Definition remove_file : M unit := os_call (fun d => (tt, mkDisk None (dk_durable d) (dk_faults d))).
Definition replace_file (content : bytes) : M unit :=
  os_call (fun d => (tt, mkDisk (Some content) (dk_durable d) (dk_faults d))).
Definition sync_directory : M unit := os_call (fun d => (tt, mkDisk (dk_file d) (dk_file d) (dk_faults d))).

Section Store.
Context `{StartupJson}.

(** [values.sort_by(agent_id)]: the map is keyed by the ID. *)
Definition by_id (a b : StoredAgentStartup) : Prop := str_le (entry_id a) (entry_id b).
#[global] Instance by_id_dec a b : Decision (by_id a b).
Proof. unfold by_id. apply _. Defined.
Definition sorted_entries (m : gmap string StoredAgentStartup) : list StoredAgentStartup :=
  merge_sort by_id (snd <$> map_to_list m).

Definition store_file (s : StoreState) : StoreFile :=
  mkStoreFile (if decide (ss_denied_agent_ids s = ∅) then 1 else STORE_VERSION)
    (sorted_entries (ss_entries s)) (ss_denied_agent_ids s).

Definition persist (s : StoreState) : M unit :=
  if decide (ss_entries s = ∅ /\ ss_denied_agent_ids s = ∅) then remove_file
  else
    os_step ;!
    let! content := st_lift (map_err (mkIoError OtherKind) (store_to_json (store_file s))) in
    os_step ;!
    os_step ;!
    os_step ;!
    replace_file content ;!
    sync_directory.

Definition unsupported (version : Z) : IoError :=
  mkIoError InvalidData ("unsupported Agent startup store version " +:+ pretty version).
Definition fence_limit : IoError := mkIoError OtherKind "Agent denial fence limit reached".
Definition fence_exceeded : IoError := mkIoError InvalidData "Agent denial fence limit exceeded".
Definition identity_denied : IoError := mkIoError PermissionDenied "Agent identity was permanently denied".
Definition count_ids (s : gset string) : Z := Z.of_nat (size s).

Definition read_store : M StoreState :=
  let! content := fs_read in
  match content with
  | None => st_ret store_default
  | Some content =>
      let! f := st_lift (map_err (mkIoError InvalidData) (store_from_json content)) in
      if MAX_DENIED_AGENT_IDS <? count_ids (sf_denied_agent_ids f) then st_throw fence_exceeded
      else if negb ((sf_version f =? 1) || (sf_version f =? STORE_VERSION))
              || ((sf_version f =? 1) && negb (bool_decide (sf_denied_agent_ids f = ∅)))
              || existsb (fun e => bool_decide (entry_id e ∈ sf_denied_agent_ids f)) (sf_entries f)
      then st_throw (unsupported (sf_version f))
      else st_ret (mkStoreState (list_to_map (rev ((fun e => (entry_id e, e)) <$> sf_entries f)))
                     (sf_denied_agent_ids f) 0)
  end.

(** ** The store: what is in memory and the disk *)

Record StartupStore : Type := mkStartupStore { sr_state : StoreState; sr_disk : Disk }.
Definition SM (A : Type) : Type := StM StartupStore A IoError.

Definition load (d : Disk) : Result StartupStore (IoError * Disk) :=
  match read_store d with
  | (Ok s, d') => Ok (mkStartupStore s d')
  | (Err e, d') => Err (e, d')
  end.

(** The memory follows only when the file was written. *)
Definition commit (updated : StoreState) : SM unit := fun st =>
  if ss_revision (sr_state st) =? u64_max
  then (Err (mkIoError OtherKind "Agent startup revision exhausted"), st)
  else
    let updated := mkStoreState (ss_entries updated) (ss_denied_agent_ids updated) (ss_revision (sr_state st) + 1) in
    match persist updated (sr_disk st) with
    | (Ok _, d) => (Ok tt, mkStartupStore updated d)
    | (Err e, d) => (Err e, mkStartupStore (sr_state st) d)
    end.

Definition entries (st : StartupStore) : list StoredAgentStartup := snd <$> map_to_list (ss_entries (sr_state st)).
Definition get (agent_id : string) (st : StartupStore) : option StoredAgentStartup :=
  ss_entries (sr_state st) !! agent_id.
Definition is_denied (agent_id : string) (st : StartupStore) : bool :=
  bool_decide (agent_id ∈ ss_denied_agent_ids (sr_state st)).

Definition candidate_ids (workspace_id server_id host_epoch : string) (st : StartupStore) : list string :=
  sort_ids
    (entry_id <$> List.filter (fun e => (se_workspace_id e =s workspace_id)
                               && (as_server_id (se_spec e) =s server_id) && as_enabled (se_spec e)
                               && (negb (se_last_host_epoch e =s host_epoch) || (as_kind (se_spec e) =s "app")))
                     (entries st)).

Definition with_entries (m : gmap string StoredAgentStartup) (s : StoreState) : StoreState :=
  mkStoreState m (ss_denied_agent_ids s) (ss_revision s).
Definition with_denied (agent_id : string) (s : StoreState) : StoreState :=
  mkStoreState (ss_entries s) ({[ agent_id ]} ∪ ss_denied_agent_ids s) (ss_revision s).

Definition upsert (entry : StoredAgentStartup) : SM unit := fun st =>
  let s := sr_state st in
  if is_denied (entry_id entry) st then (Err identity_denied, st)
  else commit (with_entries (<[entry_id entry := entry]> (ss_entries s)) s) st.

Definition remove (agent_id : string) : SM bool := fun st =>
  let s := sr_state st in
  match get agent_id st with
  | None => (Ok false, st)
  | Some _ => (commit (with_entries (delete agent_id (ss_entries s)) s) ;! st_ret true) st
  end.

Definition remove_deleted (agent_id : string) : SM unit := fun st =>
  let s := sr_state st in
  if is_denied agent_id st && negb (is_some (get agent_id st)) then (Ok tt, st)
  else if negb (is_denied agent_id st) && (MAX_DENIED_AGENT_IDS <=? count_ids (ss_denied_agent_ids s))
  then (Err fence_limit, st)
  else commit (with_denied agent_id (with_entries (delete agent_id (ss_entries s)) s)) st.

Definition update (agent_id : string) (mutate : StoredAgentStartup -> StoredAgentStartup) : SM unit := fun st =>
  let s := sr_state st in
  match get agent_id st with
  | None => (Ok tt, st)
  | Some entry =>
      let entry := mutate entry in
      if negb (entry_id entry =s agent_id)
      then (Err (mkIoError InvalidInput "Agent startup update cannot change identity"), st)
      else commit (with_entries (<[agent_id := entry]> (ss_entries s)) s) st
  end.

Definition deny_absent (agent_id : string) : SM unit := fun st =>
  let s := sr_state st in
  if is_some (get agent_id st) then (Err (mkIoError AlreadyExists "Agent startup exists"), st)
  else if is_denied agent_id st then (Ok tt, st)
  else if MAX_DENIED_AGENT_IDS <=? count_ids (ss_denied_agent_ids s) then (Err fence_limit, st)
  else commit (with_denied agent_id s) st.
End Store.
