(* ===== verification/StartupFacts.v ===== *)
(** * Facts about the saved launches

    Whatever faults the file system has and whenever the Controller stops, an acknowledged denial of
    an identity stays, and what was saved is what the next start reads. *)

From stdpp Require Import gmap countable pretty sorting.
From S2P Require Import Prelude RustStr HostProtocol StartupStore.
Local Open Scope Z_scope.

Section Facts.
Context `{JL : StartupJsonLaws}.

(** ** The disk *)

Lemma os_call_cases {A} (act : Disk -> A * Disk) d r d' : os_call act d = (r, d') ->
  exists rest, (exists a, r = Ok a /\ (a, d') = act (mkDisk (dk_file d) (dk_durable d) rest))
         \/ (is_ok r = false /\ d' = mkDisk (dk_file d) (dk_durable d) rest).
Proof.
  unfold os_call. destruct d as [f du [|[t|] rest]]; cbn [dk_faults dk_file dk_durable].
  - destruct (act _) as [a d2] eqn:E. intros [= <- <-]. exists []. left. eauto.
  - intros [= <- <-]. exists rest. by right.
  - destruct (act _) as [a d2] eqn:E. intros [= <- <-]. exists rest. left. eauto.
Qed.

Lemma os_step_same d r d' : os_step d = (r, d') -> dk_file d' = dk_file d /\ dk_durable d' = dk_durable d.
Proof. intros E. apply os_call_cases in E as (rest & [(a & -> & [= _ ->])|[_ ->]]); done. Qed.

Lemma os_step_then {B} (m : M B) d r d' : (os_step ;! m) d = (r, d') ->
  exists d1, dk_file d1 = dk_file d /\ dk_durable d1 = dk_durable d
    /\ ((is_ok r = false /\ d' = d1) \/ m d1 = (r, d')).
Proof.
  unfold st_bind. destruct (os_step d) as [[[]|e] d1] eqn:E; apply os_step_same in E as [? ?].
  - intros Em. exists d1. auto.
  - intros [= <- <-]. exists d1. auto.
Qed.

Definition is_empty_state (s : StoreState) : Prop := ss_entries s = ∅ /\ ss_denied_agent_ids s = ∅.
#[global] Instance is_empty_state_dec s : Decision (is_empty_state s).
Proof. unfold is_empty_state. apply _. Defined.

(** What the file holds for a state. *)
Definition image (s : StoreState) (o : option bytes) : Prop :=
  if decide (is_empty_state s) then o = None else exists b, store_to_json (store_file s) = Ok b /\ o = Some b.

(** A write either took effect, fully or without the directory, or changed nothing. *)
Lemma persist_outcome s d r d' : persist s d = (r, d') ->
  (is_ok r = true /\ image s (dk_file d')
   /\ (dk_durable d' = dk_file d' \/ (is_empty_state s /\ dk_durable d' = dk_durable d)))
  \/ (is_ok r = false /\ dk_durable d' = dk_durable d
      /\ (dk_file d' = dk_file d \/ (~ is_empty_state s /\ image s (dk_file d')))).
Proof.
  unfold persist, image. change (decide (ss_entries s = ∅ /\ ss_denied_agent_ids s = ∅)) with (decide (is_empty_state s)).
  destruct (decide (is_empty_state s)) as [He|He].
  - intros E. apply os_call_cases in E as (rest & [(a & -> & [= _ ->])|[Hr ->]]); cbn; [left|right]; auto.
  - intros E. apply os_step_then in E as (d1 & Hf1 & Hd1 & [[Hr ->]|E]); [right; rewrite Hf1, Hd1; auto|].
    unfold st_bind at 1, st_lift in E. destruct (store_to_json (store_file s)) as [b|e] eqn:Ej; cbn [map_err] in E.
    2:{ injection E as <- <-. right. rewrite Hf1, Hd1. auto. }
    repeat (apply os_step_then in E as (?d & ?Hf & ?Hd & [[Hr ->]|E]); [right; split_and!; [done|congruence|left; congruence]|]).
    assert (exists dd, (replace_file b ;! sync_directory) dd = (r, d') /\ dk_file dd = dk_file d /\ dk_durable dd = dk_durable d)
      as (dd & E' & Hfd & Hdd) by (eexists; split_and!; [exact E|congruence|congruence]).
    clear E. unfold st_bind in E'. destruct (replace_file b dd) as [rr dr] eqn:E1.
    apply os_call_cases in E1 as (rest & [(a & -> & [= _ ->])|[Hr ->]]).
    + apply os_call_cases in E' as (rest' & [(a' & -> & [= _ ->])|[Hr' ->]]); cbn in *; [left|right]; eauto 8.
    + destruct rr; [done|]. injection E' as <- <-. right. cbn. auto.
Qed.

(** ** Well-formed stores *)

Definition state_ok (s : StoreState) : Prop :=
  (forall id e, ss_entries s !! id = Some e -> entry_id e = id /\ id ∉ ss_denied_agent_ids s)
  /\ count_ids (ss_denied_agent_ids s) <= MAX_DENIED_AGENT_IDS.

Lemma commit_cases updated st r st' : commit updated st = (r, st') ->
  (is_ok r = true /\ ss_entries (sr_state st') = ss_entries updated
   /\ ss_denied_agent_ids (sr_state st') = ss_denied_agent_ids updated
   /\ exists rr, persist (sr_state st') (sr_disk st) = (rr, sr_disk st') /\ is_ok rr = true)
  \/ (is_ok r = false /\ sr_state st' = sr_state st
      /\ (sr_disk st' = sr_disk st
          \/ exists n rr, persist (mkStoreState (ss_entries updated) (ss_denied_agent_ids updated) n) (sr_disk st)
                     = (rr, sr_disk st') /\ is_ok rr = false)).
Proof.
  unfold commit. destruct (_ =? _); [intros [= <- <-]; right; auto|].
  destruct (persist _ (sr_disk st)) as [[[]|e] d] eqn:E; intros [= <- <-]; [left|right]; cbn; eauto 10.
Qed.

Inductive StoreOp : Type :=
| OpUpsert (entry : StoredAgentStartup)
| OpRemove (agent_id : string)
| OpRemoveDeleted (agent_id : string)
| OpUpdate (agent_id : string) (mutate : StoredAgentStartup -> StoredAgentStartup)
| OpDeny (agent_id : string).

Definition ignore_value {A E} (r : Result A E) : Result unit E :=
  match r with Ok _ => Ok tt | Err e => Err e end.

Definition store_op (op : StoreOp) : SM unit := fun st =>
  match op with
  | OpUpsert entry => upsert entry st
  | OpRemove id => let '(r, st') := remove id st in (ignore_value r, st')
  | OpRemoveDeleted id => remove_deleted id st
  | OpUpdate id mutate => update id mutate st
  | OpDeny id => deny_absent id st
  end.

Lemma count_add id s : id ∉ s -> count_ids ({[ id ]} ∪ s) = count_ids s + 1.
Proof. intros Hn. unfold count_ids. rewrite size_union, size_singleton by set_solver. lia. Qed.

(** Every operation either refuses or is one write of a well-formed state that keeps the denials. *)
Lemma store_op_cases op st r st' : state_ok (sr_state st) -> store_op op st = (r, st') ->
  st' = st
  \/ exists u rc, commit u st = (rc, st') /\ is_ok r = is_ok rc /\ state_ok u
       /\ ss_denied_agent_ids (sr_state st) ⊆ ss_denied_agent_ids u.
Proof.
  intros [Hok Hc]. destruct op as [e|id|id|id f|id]; cbn [store_op].
  - unfold upsert. destruct (is_denied (entry_id e) st) eqn:Hd; [intros [= <- <-]; by left|].
    intros E. right. eexists _, r. split_and!; [exact E|done| |done]. split; cbn; [|done].
    intros i x. rewrite lookup_insert_Some. intros [[<- <-]|[_ Hx]]; [|by apply Hok].
    split; [done|]. unfold is_denied in Hd. by apply bool_decide_eq_false in Hd.
  - unfold remove. destruct (get id st) eqn:Hg; [|intros [= <- <-]; by left].
    unfold st_bind. destruct (commit _ st) as [rc st1] eqn:E. intros Er. right. eexists _, rc.
    assert (st1 = st' /\ is_ok r = is_ok rc) as [-> ->] by (destruct rc; by simplify_eq/=).
    split_and!; [exact E|done| |done]. split; cbn; [|done]. intros i x. rewrite lookup_delete_Some. intros [_ Hx]. by apply Hok.
  - unfold remove_deleted. repeat case_match; try (intros [= <- <-]; by left).
    intros E. right. eexists _, r. split_and!; [exact E|done| |cbn; set_solver]. split; cbn.
    + intros i x. rewrite lookup_delete_Some. intros [Hne Hx]. destruct (Hok i x Hx). split; [done|set_solver].
    + unfold is_denied in *. destruct (decide (id ∈ ss_denied_agent_ids (sr_state st))) as [Hin|Hin].
      * replace ({[id]} ∪ _) with (ss_denied_agent_ids (sr_state st)) by set_solver. done.
      * rewrite bool_decide_eq_false_2 in * by done. cbn in *. rewrite count_add by done. lia.
  - unfold update. destruct (get id st) as [e|] eqn:Hg; [|intros [= <- <-]; by left].
    destruct (entry_id (f e) =s id) eqn:Hid; cbn [negb]; [|intros [= <- <-]; by left].
    intros E. right. eexists _, r. split_and!; [exact E|done| |done]. split; cbn; [|done].
    apply str_eqb_eq in Hid. unfold get in Hg. destruct (Hok id e Hg) as [_ Hnd].
    intros i x. rewrite lookup_insert_Some. intros [[<- <-]|[_ Hx]]; [done|by apply Hok].
  - unfold deny_absent. destruct (get id st) eqn:Hg; cbn [is_some]; [intros [= <- <-]; by left|].
    unfold is_denied. case_bool_decide as Hin; [intros [= <- <-]; by left|].
    case_match; [intros [= <- <-]; by left|].
    intros E. right. eexists _, r. split_and!; [exact E|done| |cbn; set_solver]. split; cbn.
    + intros i x Hx. destruct (Hok i x Hx). split; [done|]. unfold get in Hg. set_solver.
    + rewrite count_add by done. lia.
Qed.

Lemma store_op_ok op st r st' : state_ok (sr_state st) -> store_op op st = (r, st') -> state_ok (sr_state st').
Proof.
  intros Hok E. destruct (store_op_cases _ _ _ _ Hok E) as [->|(u & rc & Ec & _ & Hu & _)]; [done|].
  apply commit_cases in Ec as [(_ & He & Hd & _)|(_ & -> & _)]; [|done].
  destruct Hu as [Hu1 Hu2]. split; by rewrite ?He, ?Hd.
Qed.

(** ** Starts and stops *)

Lemma list_to_map_rev_lookup (l : list StoredAgentStartup) id e :
  (list_to_map (rev ((fun e => (entry_id e, e)) <$> l)) : gmap string StoredAgentStartup) !! id = Some e ->
  e ∈ l /\ entry_id e = id.
Proof.
  intros Hl. apply elem_of_list_to_map_2 in Hl. rewrite <- List.in_rev in Hl || idtac.
  apply list_elem_of_In, List.in_rev, list_elem_of_In in Hl. apply list_elem_of_fmap in Hl as (x & [= -> ->] & Hx). done.
Qed.

Lemma read_store_ok d s d' : read_store d = (Ok s, d') ->
  state_ok s /\ dk_file d' = dk_file d /\ dk_durable d' = dk_durable d
  /\ match dk_file d with
     | None => s = store_default
     | Some b => exists f, store_from_json b = Ok f /\ ss_denied_agent_ids s = sf_denied_agent_ids f
                   /\ ss_entries s = list_to_map (rev ((fun e => (entry_id e, e)) <$> sf_entries f))
     end.
Proof.
  unfold read_store, st_bind at 1. destruct (fs_read d) as [[o|e] d1] eqn:E; [|done].
  apply os_call_cases in E as (rest & [(a & [= <-] & [= -> ->])|[? _]]); [|done]. cbn [dk_file dk_durable].
  destruct (dk_file d) as [b|] eqn:Hf.
  2:{ intros [= <- <-]. cbn. by split_and!. }
  unfold st_bind, st_lift. destruct (store_from_json b) as [f|e]; [|done]. cbn [map_err].
  destruct (_ <? _) eqn:Hn; [done|]. destruct (_ || existsb _ _) eqn:Hc; [done|]. intros [= <- <-]. cbn.
  split_and!; try done; [|eauto]. split; cbn; [|lia].
  intros id e He. apply list_to_map_rev_lookup in He as [He <-]. split; [done|].
  apply orb_false_iff in Hc as [_ Hc]. intros Hin. apply not_true_iff_false in Hc. apply Hc, existsb_exists.
  exists e. rewrite <- list_elem_of_In, bool_decide_eq_true. done.
Qed.

Lemma read_store_disk d r d' : read_store d = (r, d') -> dk_file d' = dk_file d /\ dk_durable d' = dk_durable d.
Proof.
  unfold read_store, st_bind at 1. destruct (fs_read d) as [x d1] eqn:E.
  assert (dk_file d1 = dk_file d /\ dk_durable d1 = dk_durable d) as [Hf Hd].
  { apply os_call_cases in E as (rest & [(a & _ & [= _ ->])|[_ ->]]); done. }
  rewrite <- Hf, <- Hd. destruct x as [[b|]|e]; [|by intros [= _ <-]..].
  unfold st_bind, st_lift. destruct (map_err _ _); [|by intros [= _ <-]]. intros Er. repeat case_match; by injection Er as _ <-.
Qed.

Inductive Machine : Type := Up (st : StartupStore) | Down (d : Disk).

(** The Controller runs an operation, stops, or starts; the power fails, which can bring back the
    last synchronised file; the faults ahead are anything. *)
Inductive store_step : Machine -> Machine -> Prop :=
| step_op op st r st' : store_op op st = (r, st') -> store_step (Up st) (Up st')
| step_stop st : store_step (Up st) (Down (sr_disk st))
| step_power d file : file = dk_file d \/ file = dk_durable d ->
    store_step (Down d) (Down (mkDisk file file (dk_faults d)))
| step_start d st : load d = Ok st -> store_step (Down d) (Up st)
| step_failed_start d e d' : load d = Err (e, d') -> store_step (Down d) (Down d')
| step_faults d faults : store_step (Down d) (Down (mkDisk (dk_file d) (dk_durable d) faults))
| step_faults_up st faults :
    store_step (Up st) (Up (mkStartupStore (sr_state st) (mkDisk (dk_file (sr_disk st)) (dk_durable (sr_disk st)) faults))).

Definition file_denies (id : string) (o : option bytes) : Prop :=
  exists b f, o = Some b /\ store_from_json b = Ok f /\ id ∈ sf_denied_agent_ids f.
Definition disk_denies (id : string) (d : Disk) : Prop := file_denies id (dk_file d) /\ file_denies id (dk_durable d).

Definition fenced (id : string) (m : Machine) : Prop :=
  match m with
  | Up st => state_ok (sr_state st) /\ is_denied id st = true /\ disk_denies id (sr_disk st)
  | Down d => disk_denies id d
  end.

Lemma image_denies id s o : image s o -> id ∈ ss_denied_agent_ids s -> file_denies id o.
Proof.
  unfold image. case_decide as He; [destruct He as [_ ->]; set_solver|]. intros (b & Hj & ->) Hin.
  exists b, (store_file s). split_and!; [done|by apply store_json_roundtrip|done].
Qed.

Lemma denied_not_empty id s : id ∈ ss_denied_agent_ids s -> ~ is_empty_state s.
Proof. intros Hin [_ He]. set_solver. Qed.

(** One write of a state that denies an identity. *)
Lemma commit_fenced id u st r st' : commit u st = (r, st') -> id ∈ ss_denied_agent_ids u ->
  (is_ok r = true -> is_denied id st' = true /\ disk_denies id (sr_disk st'))
  /\ (disk_denies id (sr_disk st) -> disk_denies id (sr_disk st')).
Proof.
  intros E Hu. unfold is_denied, disk_denies. rewrite bool_decide_eq_true.
  apply commit_cases in E as [(Hr & He & Hd & rr & Ep & Hrr)|(Hr & He & Hcase)].
  - assert (id ∈ ss_denied_agent_ids (sr_state st')) as Hin by by rewrite Hd.
    apply persist_outcome in Ep as [(_ & Hi & Hdur)|[? _]]; [|congruence].
    destruct Hdur as [Hdur|[Hemp _]]; [|by destruct (denied_not_empty _ _ Hin)].
    pose proof (image_denies _ _ _ Hi Hin). rewrite Hdur. auto.
  - split; [intros; congruence|]. intros [H1 H2]. destruct Hcase as [->|(n & rr & Ep & Hrr)]; [done|].
    apply persist_outcome in Ep as [[? _]|(_ & -> & [->|[_ Hi]])]; [congruence|done|].
    split; [|done]. by apply (image_denies id _ _ Hi).
Qed.

Lemma store_step_fenced id m m' : fenced id m -> store_step m m' -> fenced id m'.
Proof.
  intros Hf Hs. destruct Hs as [op st r st' E|st|d file Hc|d st E|d e d' E|d faults|st faults]; cbn in *.
  - destruct Hf as (Hok & Hd & Hdisk). split; [by eapply store_op_ok|].
    destruct (store_op_cases _ _ _ _ Hok E) as [->|(u & rc & Ec & _ & _ & Hsub)]; [done|].
    unfold is_denied in *. rewrite bool_decide_eq_true in *.
    destruct (commit_fenced id u st rc st' Ec ltac:(set_solver)) as [_ Hkeep]. split; [|auto].
    apply commit_cases in Ec as [(_ & _ & -> & _)|(_ & -> & _)]; set_solver.
  - by destruct Hf as (_ & _ & ?).
  - unfold disk_denies in *. cbn. destruct Hf, Hc; by subst.
  - unfold load in E. destruct (read_store d) as [[s|e] d'] eqn:Er; [|done]. injection E as <-. cbn.
    apply read_store_ok in Er as (Hok & Hff & Hdd & Hst). unfold disk_denies, is_denied. cbn [sr_disk sr_state]. rewrite Hff, Hdd.
    destruct Hf as [(b & f & Hb & Hj & Hin) Hdur]. split_and!; [done| |by exists b, f|done].
    rewrite Hb in Hst. destruct Hst as (f' & Hj' & Hden & _). rewrite bool_decide_eq_true, Hden. congruence.
  - unfold load in E. destruct (read_store d) as [[s|e'] d1] eqn:Er; [done|]. injection E as _ <-.
    unfold disk_denies. apply read_store_disk in Er as [-> ->]. exact Hf.
  - done.
  - done.
Qed.

Lemma fenced_run id m m' : fenced id m -> rtc store_step m m' -> fenced id m'.
Proof. intros Hf Hr. induction Hr; eauto using store_step_fenced. Qed.

(** An acknowledged denial. *)
Definition denies (op : StoreOp) (id : string) : Prop := op = OpDeny id \/ op = OpRemoveDeleted id.

Lemma denied_op id op st r st' : denies op id -> state_ok (sr_state st) ->
  store_op op st = (r, st') -> is_ok r = true ->
  (is_denied id st = true /\ st' = st)
  \/ exists u rc, commit u st = (rc, st') /\ is_ok rc = true /\ id ∈ ss_denied_agent_ids u.
Proof.
  intros [->| ->] Hok E Hr; cbn [store_op] in E.
  - unfold deny_absent in E. repeat case_match; simplify_eq/=; [by left|].
    right. eexists _, r. split_and!; [exact E|done|set_solver].
  - unfold remove_deleted in E. destruct (is_denied id st && negb (is_some (get id st))) eqn:Hd.
    + injection E as <- <-. apply andb_true_iff in Hd as [Hd _]. by left.
    + case_match; simplify_eq/=. right. eexists _, r. split_and!; [exact E|done|set_solver].
Qed.

(** ** Reading back *)

(** The file holds what is in memory. *)
Definition in_sync (st : StartupStore) : Prop := state_ok (sr_state st) /\ image (sr_state st) (dk_file (sr_disk st)).

Lemma store_op_sync op st r st' : in_sync st -> store_op op st = (r, st') -> is_ok r = true -> in_sync st'.
Proof.
  intros [Hok Hi] E Hr. split; [by eapply store_op_ok|].
  destruct (store_op_cases _ _ _ _ Hok E) as [->|(u & rc & Ec & Hrc & _)]; [done|].
  apply commit_cases in Ec as [(_ & _ & _ & rr & Ep & Hrr)|(? & _)]; [|congruence].
  apply persist_outcome in Ep as [(_ & Hi' & _)|[? _]]; [done|congruence].
Qed.

(** A refused or failed operation leaves the memory as it was. *)
Lemma store_op_error op st r st' : state_ok (sr_state st) -> store_op op st = (r, st') -> is_ok r = false ->
  sr_state st' = sr_state st.
Proof.
  intros Hok E Hr. destruct (store_op_cases _ _ _ _ Hok E) as [->|(u & rc & Ec & Hrc & _)]; [done|].
  apply commit_cases in Ec as [(? & _)|(_ & ? & _)]; [congruence|done].
Qed.

Lemma keyed_entries (m : gmap string StoredAgentStartup) : (forall id e, m !! id = Some e -> entry_id e = id) ->
  (list_to_map (rev ((fun e => (entry_id e, e)) <$> sorted_entries m)) : gmap string StoredAgentStartup) = m.
Proof.
  intros Hk. etrans; [|apply list_to_map_to_list].
  assert ((fun e => (entry_id e, e)) <$> (snd <$> map_to_list m) = map_to_list m) as Hl.
  { rewrite <- list_fmap_compose. etrans; [|apply list_fmap_id]. apply list_fmap_ext.
    intros i [id e] Hi. apply list_elem_of_lookup_2, elem_of_map_to_list, Hk in Hi. cbn. by rewrite Hi. }
  assert (rev ((fun e => (entry_id e, e)) <$> sorted_entries m) ≡ₚ map_to_list m) as Hp.
  { rewrite <- Permutation_rev. unfold sorted_entries. rewrite merge_sort_Permutation, Hl. done. }
  apply list_to_map_proper; [|done]. rewrite Hp. apply NoDup_fst_map_to_list.
Qed.

Lemma reload st : in_sync st -> dk_faults (sr_disk st) = [] ->
  exists st2, load (sr_disk st) = Ok st2 /\ ss_entries (sr_state st2) = ss_entries (sr_state st)
    /\ ss_denied_agent_ids (sr_state st2) = ss_denied_agent_ids (sr_state st).
Proof.
  destruct st as [s d]. intros [[Hk Hc] Hi] Hf. cbn in *. unfold load, read_store, fs_read, os_call, st_bind. rewrite Hf.
  unfold image in Hi. destruct (decide (is_empty_state s)) as [[-> ->]|He]; [rewrite Hi; cbn; eauto|].
  destruct Hi as (b & Hj & ->). unfold st_lift. rewrite (store_json_roundtrip _ _ Hj). cbn [map_err store_file sf_denied_agent_ids sf_version sf_entries].
  destruct (_ <? _) eqn:Hn; [lia|]. set (bad := _ || existsb _ _).
  assert (bad = false) as ->; [|cbn; rewrite keyed_entries by (intros; by apply Hk); eauto].
  unfold bad. apply orb_false_iff. split.
  - destruct (decide (ss_denied_agent_ids s = ∅)) as [->|Hne]; [done|]. by rewrite (bool_decide_eq_false_2 _ Hne).
  - apply not_true_iff_false. rewrite existsb_exists. intros (e & He' & Hd). apply bool_decide_eq_true in Hd.
    apply list_elem_of_In in He'. unfold sorted_entries in He'. rewrite merge_sort_Permutation in He'.
    apply list_elem_of_fmap in He' as ([id x] & -> & Hx). apply elem_of_map_to_list, Hk in Hx as [Hid Hn']. cbn in *. by rewrite Hid in Hd.
Qed.

Fixpoint store_ops (ops : list StoreOp) (st : StartupStore) : list (Result unit IoError) * StartupStore :=
  match ops with
  | [] => ([], st)
  | op :: ops' => let '(r, st1) := store_op op st in let '(rs, st2) := store_ops ops' st1 in (r :: rs, st2)
  end.

Lemma store_ops_sync ops : forall st rs st', in_sync st -> store_ops ops st = (rs, st') ->
  Forall (fun r => is_ok r = true) rs -> in_sync st'.
Proof.
  induction ops as [|op ops IH]; intros st rs st' Hs E Hrs; cbn in E; [by injection E as _ <-|].
  destruct (store_op op st) as [r st1] eqn:E1, (store_ops ops st1) as [rs1 st2] eqn:E2. injection E as <- <-.
  inversion Hrs; subst. eauto using store_op_sync.
Qed.
End Facts.

(** ** The properties *)

Section Claims.
Context `{JL : StartupJsonLaws}.

(** C8: an identity whose denial was acknowledged stays denied: whatever the Controller does
    afterwards, whichever calls of the file system fail, however often it stops and starts and even
    when the power fails, a running Controller finds it denied, has no launch saved for it and
    refuses to save one.  (A denial that was already in memory writes nothing, so there the file
    must have reached the disk before.) *)
Theorem fence_survives_restarts (id : string) (op : StoreOp) (st st' : StartupStore) (r : Result unit IoError) (m : Machine) :
  denies op id -> state_ok (sr_state st) -> store_op op st = (r, st') -> is_ok r = true ->
  is_denied id st = false \/ disk_denies id (sr_disk st) ->
  rtc store_step (Up st') m ->
  fenced id m
  /\ forall st2, m = Up st2 ->
       is_denied id st2 = true /\ get id st2 = None
       /\ forall e, entry_id e = id -> upsert e st2 = (Err identity_denied, st2).
Proof.
  intros Hop Hok E Hr Hdur Hrun. assert (fenced id (Up st')) as Hf.
  { split; [by eapply store_op_ok|].
    destruct (denied_op _ _ _ _ _ Hop Hok E Hr) as [[Hd ->]|(u & rc & Ec & Hrc & Hu)].
    - destruct Hdur as [?|?]; [congruence|done].
    - by apply (commit_fenced id u st rc st' Ec Hu). }
  pose proof (fenced_run _ _ _ Hf Hrun) as Hm. split; [done|]. intros st2 ->. destruct Hm as ([He _] & Hd & _).
  split_and!; [done| |].
  - destruct (get id st2) as [e|] eqn:Hg; [|done]. apply He in Hg as [_ Hn]. unfold is_denied in Hd.
    by apply bool_decide_eq_true in Hd.
  - intros e <-. unfold upsert. by rewrite Hd.
Qed.

(** C15: what was saved is what the next start reads: after any operations that succeeded the file,
    read back, gives the same launches and the same denials, and an operation that fails leaves the
    memory as it was. *)
Theorem restart_reads_what_was_saved (ops : list StoreOp) (st : StartupStore) (rs : list (Result unit IoError)) (st' : StartupStore) :
  in_sync st -> store_ops ops st = (rs, st') -> Forall (fun r => is_ok r = true) rs ->
  (exists st2, load (mkDisk (dk_file (sr_disk st')) (dk_durable (sr_disk st')) []) = Ok st2
     /\ ss_entries (sr_state st2) = ss_entries (sr_state st')
     /\ ss_denied_agent_ids (sr_state st2) = ss_denied_agent_ids (sr_state st'))
  /\ forall op r st2, store_op op st' = (r, st2) -> is_ok r = false -> sr_state st2 = sr_state st'.
Proof.
  intros Hs E Hrs. pose proof (store_ops_sync _ _ _ _ Hs E Hrs) as Hs'. split.
  - apply (reload (mkStartupStore (sr_state st') (mkDisk (dk_file (sr_disk st')) (dk_durable (sr_disk st')) []))); done.
  - intros op r st2 Eop Hr. apply (store_op_error op st' r st2); [by destruct Hs'|done|done].
Qed.
End Claims.

(** * A codec of the saved launches, and the properties of the store at concrete inputs

    A file is one number that encodes its content.  Only the law of [StartupJsonLaws] matters. *)

(** ** The codec *)

Definition spec_tuple (s : AgentStartupSpec) :=
  (as_agent_id s, as_server_id s, as_kind s, as_name s, as_cwd s, as_command s, as_args s, as_publish_ports s,
   as_enabled s, as_generation s).
Definition tuple_spec (t : string * string * string * string * string * string * list string * list Z * bool * Z) : AgentStartupSpec :=
  let '(a, b, c, d, e, f, g, h, i, j) := t in mkAgentStartupSpec a b c d e f g h i j.
Definition entry_tuple (e : StoredAgentStartup) :=
  (se_app_revision e, spec_tuple (se_spec e), se_workspace_id e, se_workload_credential e, se_last_host_epoch e,
   (fun w => (hw_data w, hw_delay_ms w)) <$> se_initial_writes e, se_cols e, se_rows e).
Definition tuple_entry (t : Z * (string * string * string * string * string * string * list string * list Z * bool * Z)
    * string * string * string * list (list Z * Z) * Z * Z) : StoredAgentStartup :=
  let '(a, b, c, d, e, f, g, h) := t in
  mkStoredAgentStartup a (tuple_spec b) c d e ((fun w => mkHostWrite w.1 w.2) <$> f) g h.
Definition file_tuple (f : StoreFile) := (sf_version f, entry_tuple <$> sf_entries f, elements (sf_denied_agent_ids f)).
Definition tuple_file (t : Z * list (Z * (string * string * string * string * string * string * list string * list Z * bool * Z)
    * string * string * string * list (list Z * Z) * Z * Z) * list string) : StoreFile :=
  let '(a, b, c) := t in mkStoreFile a (tuple_entry <$> b) (list_to_set c).

Lemma tuple_entry_tuple e : tuple_entry (entry_tuple e) = e.
Proof.
  destruct e as [r s w c ep iw cols rows]. destruct s. unfold tuple_entry, entry_tuple. cbn. f_equal.
  rewrite <- list_fmap_compose. etrans; [|apply list_fmap_id]. apply list_fmap_ext. by intros _ [] _.
Qed.
Lemma tuple_file_tuple f : tuple_file (file_tuple f) = f.
Proof.
  destruct f as [v es d]. unfold tuple_file, file_tuple. cbn [sf_version sf_entries sf_denied_agent_ids]. f_equal.
  - rewrite <- list_fmap_compose. etrans; [|apply list_fmap_id]. apply list_fmap_ext. intros _ e _. apply tuple_entry_tuple.
  - by apply list_to_set_elements_L.
Qed.

#[export] Instance sample_json : StartupJson := {
  store_to_json f := Ok [Z.pos (encode (file_tuple f))];
  store_from_json b :=
    match b with
    | [Z.pos p] => match decode p with Some t => Ok (tuple_file t) | None => Err "invalid" end
    | _ => Err "invalid"
    end
}.
#[export] Instance sample_json_laws : StartupJsonLaws.
Proof. split. intros f b [= <-]. cbn. by rewrite decode_encode, tuple_file_tuple. Qed.

(** ** Examples *)

Definition sample_entry (id kind : string) (revision generation : Z) (enabled : bool) : StoredAgentStartup :=
  mkStoredAgentStartup revision (mkAgentStartupSpec id "s" kind id "." "/bin/x" [] [] enabled generation) "w" "c" "e" [] 80 24.
Definition empty_disk : Disk := mkDisk None None [].
Definition empty_store : StartupStore := mkStartupStore store_default empty_disk.
(** A store that holds [es] and denies [ids], on disk. *)
Definition sample_store (es : list StoredAgentStartup) (ids : list string) : StartupStore :=
  let s := mkStoreState (list_to_map ((fun e => (entry_id e, e)) <$> es)) (list_to_set ids) 1 in
  let content := match store_to_json (store_file s) with Ok b => Some b | Err _ => None end in
  mkStartupStore s (mkDisk content content []).

Lemma default_ok : state_ok store_default.
Proof. split; [intros i e He; cbn in He; by rewrite lookup_empty in He|by vm_compute]. Qed.
Lemma default_in_sync : in_sync empty_store.
Proof. split; [exact default_ok|]. unfold image. by rewrite decide_True. Qed.

Theorem fence_survives_restarts_witness :
  let st' := (store_op (OpDeny "a") empty_store).2 in
  fenced "a" (Down (sr_disk st')).
Proof.
  intros st'. apply (fence_survives_restarts "a" (OpDeny "a") empty_store st' (store_op (OpDeny "a") empty_store).1).
  - by left.
  - exact default_ok.
  - apply surjective_pairing.
  - vm_compute. reflexivity.
  - left. reflexivity.
  - apply rtc_once. apply step_stop.
Defined.

Theorem restart_reads_what_was_saved_witness :
  let ops := [OpUpsert (sample_entry "a" "shell" 0 1 true); OpDeny "b"] in
  exists st2, load (mkDisk (dk_file (sr_disk (store_ops ops empty_store).2)) (dk_durable (sr_disk (store_ops ops empty_store).2)) []) = Ok st2
    /\ ss_entries (sr_state st2) = ss_entries (sr_state (store_ops ops empty_store).2).
Proof.
  intros ops. destruct (restart_reads_what_was_saved ops empty_store (store_ops ops empty_store).1 (store_ops ops empty_store).2)
    as [(st2 & Hl & He & _) _].
  - exact default_in_sync.
  - apply surjective_pairing.
  - vm_compute. repeat constructor.
  - exists st2. split; [exact Hl|exact He].
Defined.
