(* ===== verification/PrivateState.v ===== *)
(** * Quota of private state (crates/treer-agent-server/src/private_state.rs)

    Every workload has a directory of its own on the machine, and asks the Controller for room
    before it writes there.  The ledger holds what the Controller measured and the open
    reservations.  Instants and durations are nanoseconds; the random part of a reservation ID is an
    argument. *)

From stdpp Require Import gmap pretty sorting.
From S2P Require Import Prelude RustStr Protocol.
Local Open Scope Z_scope.

Definition MAX_IDENTITY_LENGTH : Z := 128.
Definition MAX_MEASURED_ENTRIES : Z := 65536.

Definition identity_byte (a : ascii) : bool := ascii_alphanumeric a || (Ascii.eqb a "-") || (Ascii.eqb a "_").
Definition valid_identity (value : string) : bool :=
  negb (is_empty value) && (str_len value <=? MAX_IDENTITY_LENGTH) && all_bytes identity_byte value.

Record Measurement : Type := mkMeasurement { ms_bytes : Z; ms_entries : Z; ms_overflow : bool }.

(** [measure_directory] over the entries below a directory in the order they are read: a directory
    counts as an entry, a file adds its size. *)
Inductive DirEntry : Type := EntryDir | EntryFile (len : Z).
Fixpoint measure_entries (es : list DirEntry) (m : Measurement) : Measurement :=
  match es with
  | [] => m
  | e :: es' =>
      let m := mkMeasurement (ms_bytes m) (ms_entries m + 1) (ms_overflow m) in
      if MAX_MEASURED_ENTRIES <? ms_entries m then mkMeasurement (ms_bytes m) (ms_entries m) true
      else measure_entries es'
             (match e with
              | EntryDir => m
              | EntryFile len => mkMeasurement (saturating_add (ms_bytes m) len) (ms_entries m) (ms_overflow m)
              end)
  end.
Definition measure_directory (es : list DirEntry) : Measurement := measure_entries es (mkMeasurement 0 0 false).

(** ** The ledger *)

Record QuotaLimits : Type := mkQuotaLimits {
  agent_bytes : Z;
  global_bytes : Z;
  reservation_bytes : Z;
  reservations_per_agent : Z;
  reservation_ttl : Z;
  free_space_floor_bytes : Z
}.
Definition limits_default : QuotaLimits :=
  mkQuotaLimits (256 * 1024 * 1024) (4 * 1024 * 1024 * 1024) (64 * 1024 * 1024) 16 (from_secs (15 * 60))
    (1024 * 1024 * 1024).

Record Reservation : Type := mkReservation {
  rs_id : string;
  rs_agent_id : string;
  rs_bytes : Z;
  rs_expires_at : Z
}.

Record AgentUsage : Type := mkAgentUsage {
  au_used_bytes : Z;
  au_agent_quota_bytes : Z;
  au_available_bytes : Z;
  au_reservation_ids : list string
}.

(** A measurement is [None] when the directory could not be measured; the open reservations are in
    the order of their IDs. *)
Record QuotaLedger : Type := mkQuotaLedger {
  ql_limits : QuotaLimits;
  ql_inventory_incomplete : bool;
  ql_measured : gmap string (option Z);
  ql_reservations : gmap string Reservation;
  ql_purged : gset string
}.

Definition ledger_new (limits : QuotaLimits) : QuotaLedger := mkQuotaLedger limits false ∅ ∅ ∅.

Definition set_incomplete v l := mkQuotaLedger (ql_limits l) v (ql_measured l) (ql_reservations l) (ql_purged l).
Definition set_measured v l := mkQuotaLedger (ql_limits l) (ql_inventory_incomplete l) v (ql_reservations l) (ql_purged l).
Definition set_reservations v l := mkQuotaLedger (ql_limits l) (ql_inventory_incomplete l) (ql_measured l) v (ql_purged l).
Definition set_purged v l := mkQuotaLedger (ql_limits l) (ql_inventory_incomplete l) (ql_measured l) (ql_reservations l) v.

Definition mark_inventory_incomplete (l : QuotaLedger) : QuotaLedger := set_incomplete true l.

Definition measured_bytes (m : Measurement) : Z := if ms_overflow m then u64_max else ms_bytes m.
Definition record (agent_id : string) (measurement : option Measurement) (l : QuotaLedger) : QuotaLedger :=
  set_measured (<[agent_id := measured_bytes <$> measurement]> (ql_measured l))
    (set_purged (ql_purged l ∖ {[ agent_id ]}) l).

Definition replace_inventory (measured : list (string * option Measurement)) (l : QuotaLedger) : QuotaLedger :=
  set_incomplete false (foldl (fun l am => record am.1 am.2 l) (set_measured ∅ l) measured).

Definition forget (agent_id : string) (l : QuotaLedger) : QuotaLedger :=
  set_purged ({[ agent_id ]} ∪ ql_purged l)
    (set_reservations (filter (fun kr : string * Reservation => rs_agent_id kr.2 <> agent_id) (ql_reservations l))
       (set_measured (delete agent_id (ql_measured l)) l)).

Definition is_purged (agent_id : string) (l : QuotaLedger) : bool := bool_decide (agent_id ∈ ql_purged l).

Definition expire (now : Z) (l : QuotaLedger) : QuotaLedger :=
  set_reservations (filter (fun kr : string * Reservation => now < rs_expires_at kr.2) (ql_reservations l)) l.

Definition used (agent_id : string) (l : QuotaLedger) : option Z := default (Some 0) (ql_measured l !! agent_id).

(** [reservations.values()], of one workload or of all. *)
Definition owned_by (owner : option string) (r : Reservation) : bool := is_none_or owner (fun id => rs_agent_id r =s id).
Definition reservations_of (owner : option string) (l : QuotaLedger) : list Reservation :=
  List.filter (owned_by owner) (snd <$> map_to_list (ql_reservations l)).
Definition sum_saturating (l : list Z) : Z := foldl saturating_add 0 l.
Definition open_bytes (owner : option string) (l : QuotaLedger) : Z :=
  sum_saturating (rs_bytes <$> reservations_of owner l).

Definition capped (limits : QuotaLimits) (bytes : option Z) : Z :=
  match bytes with Some b => Z.min b (agent_bytes limits) | None => agent_bytes limits end.
Definition global_used (l : QuotaLedger) : Z :=
  sum_saturating (capped (ql_limits l) <$> (snd <$> map_to_list (ql_measured l))).


Definition usage (agent_id : string) (l : QuotaLedger) : AgentUsage :=
  let limits := ql_limits l in
  let used := capped limits (used agent_id l) in
  let agent_headroom := saturating_sub (saturating_sub (agent_bytes limits) used) (open_bytes (Some agent_id) l) in
  let global_headroom := saturating_sub (saturating_sub (global_bytes limits) (global_used l)) (open_bytes None l) in
  mkAgentUsage used (agent_bytes limits) (Z.min agent_headroom global_headroom)
    (sort_ids (rs_id <$> reservations_of (Some agent_id) l)).

(** ** Operations *)

Definition unavailable_error (message : string) : ProtocolError :=
  protocol_error "agent_private_state_unavailable" message.
Definition agent_quota_error (message : string) : ProtocolError :=
  protocol_error "private_state_agent_quota_exceeded" message.
Definition global_quota_error (message : string) : ProtocolError :=
  protocol_error "private_state_global_quota_exceeded" message.
Definition reservation_expired : ProtocolError :=
  protocol_error "private_state_reservation_expired"
    "the private state reservation is unknown, expired or not owned by this Agent".

Definition LedgerM (A : Type) : Type := StM QuotaLedger A ProtocolError.
Definition modify_ledger (f : QuotaLedger -> QuotaLedger) : LedgerM unit := fun l => (Ok tt, f l).
Definition guard_ledger (bad : bool) (e : ProtocolError) : LedgerM unit := st_lift (if bad then Err e else Ok tt).

(** The checks of [reserve], in their order. *)
Definition reserve_checks (agent_id : string) (bytes free_bytes : Z) (l : QuotaLedger) : Result unit ProtocolError :=
  let limits := ql_limits l in
  let refuse (bad : bool) e : Result unit ProtocolError := if bad then Err e else Ok tt in
  refuse (ql_inventory_incomplete l)
    (unavailable_error "Agent private state inventory is incomplete; reservations resume after a successful re-enumeration") ;?
  refuse (is_purged agent_id l) (unavailable_error "Agent private state was removed after deletion") ;?
  refuse ((bytes =? 0) || (reservation_bytes limits <? bytes))
    (protocol_error "invalid_private_state_reservation"
       ("reservation bytes must be between 1 and " +:+ pretty (reservation_bytes limits))) ;?
  let? used := ok_or (used agent_id l)
                 (unavailable_error "Agent private state could not be measured; inspect the Controller log") in
  refuse (reservations_per_agent limits <=? Z.of_nat (List.length (reservations_of (Some agent_id) l)))
    (protocol_error "private_state_too_many_reservations"
       "too many open private state reservations; commit or release them first") ;?
  refuse (agent_bytes limits <? saturating_add (saturating_add used (open_bytes (Some agent_id) l)) bytes)
    (agent_quota_error "the Agent private state quota would be exceeded") ;?
  refuse (global_bytes limits <? saturating_add (saturating_add (global_used l) (open_bytes None l)) bytes)
    (global_quota_error "the machine-wide private state quota would be exceeded") ;?
  refuse (saturating_sub (saturating_sub free_bytes (open_bytes None l)) bytes <? free_space_floor_bytes limits)
    (protocol_error "private_state_disk_space_low"
       "the machine is low on disk space; no private state reservation was made").

Definition reserve (uuid agent_id : string) (bytes free_bytes now : Z) : LedgerM Reservation := fun l =>
  let l := expire now l in
  match reserve_checks agent_id bytes free_bytes l with
  | Err e => (Err e, l)
  | Ok _ =>
      let reservation := mkReservation ("psr_" +:+ uuid) agent_id bytes (now + reservation_ttl (ql_limits l)) in
      (Ok reservation, set_reservations (<[rs_id reservation := reservation]> (ql_reservations l)) l)
  end.

(** The reservation [id], if [agent_id] owns it. *)
Definition owns (agent_id id : string) (l : QuotaLedger) : bool :=
  is_some_and (ql_reservations l !! id) (fun r => rs_agent_id r =s agent_id).

Definition commit (agent_id id : string) (now : Z) : LedgerM unit := fun l =>
  let l := expire now l in
  if owns agent_id id l then (Ok tt, set_reservations (delete id (ql_reservations l)) l)
  else (Err reservation_expired, l).

Definition release (agent_id id : string) (now : Z) (l : QuotaLedger) : bool * QuotaLedger :=
  let l := expire now l in
  if owns agent_id id l then (true, set_reservations (delete id (ql_reservations l)) l) else (false, l).

Definition check_caps (agent_id : string) (l : QuotaLedger) : Result unit ProtocolError :=
  if negb (is_some_and (used agent_id l) (fun used => used <=? agent_bytes (ql_limits l)))
  then Err (agent_quota_error "the Agent private state exceeds its quota; remove the new content")
  else if global_bytes (ql_limits l) <? global_used l
  then Err (global_quota_error "the machine-wide private state quota is exceeded; remove the new content")
  else Ok tt.
