(* ===== verification/PrivateStateFacts.v ===== *)
(** * Facts about the quota of private state

    The open reservations stay within the limits in every run of the ledger, and the room a workload
    is told about is exactly the room it gets. *)

From stdpp Require Import gmap pretty sorting.
From S2P Require Import Prelude RustStr Protocol PrivateState.
Local Open Scope Z_scope.

Lemma sum_saturating_min (l : list Z) : Forall (fun x => 0 <= x) l ->
  sum_saturating l = Z.min (sumw id l) u64_max.
Proof.
  unfold sum_saturating. intros Hl.
  assert (forall acc, 0 <= acc <= u64_max -> foldl saturating_add acc l = Z.min (acc + sumw id l) u64_max) as Hgen.
  { induction Hl as [|x l Hx Hl IH]; intros acc Ha; cbn [foldl sumw foldr]; [lia|].
    rewrite IH by (unfold saturating_add; lia). pose proof (sumw_nonneg id l Hl).
    unfold saturating_add, id, sumw in *. lia. }
  by rewrite Hgen by (unfold u64_max; lia).
Qed.

(** ** The open reservations *)

Section Ledger.

Definition weight (owner : option string) (kr : string * Reservation) : Z :=
  if owned_by owner kr.2 then rs_bytes kr.2 else 0.
Definition promised (owner : option string) (l : QuotaLedger) : Z :=
  sumw (weight owner) (map_to_list (ql_reservations l)).
Definition open_count (agent_id : string) (l : QuotaLedger) : Z :=
  Z.of_nat (List.length (reservations_of (Some agent_id) l)).

Definition limits_fit (limits : QuotaLimits) : Prop :=
  0 <= agent_bytes limits < u64_max /\ 0 <= global_bytes limits < u64_max
  /\ 0 <= reservation_bytes limits /\ 0 <= reservations_per_agent limits /\ 0 < free_space_floor_bytes limits.

(** The invariant of the ledger. *)
Definition within_quota (l : QuotaLedger) : Prop :=
  (forall id r, ql_reservations l !! id = Some r -> 1 <= rs_bytes r <= reservation_bytes (ql_limits l))
  /\ (forall agent_id, promised (Some agent_id) l <= agent_bytes (ql_limits l)
                /\ open_count agent_id l <= reservations_per_agent (ql_limits l))
  /\ promised None l <= global_bytes (ql_limits l).

Definition sized (m : gmap string Reservation) : Prop := forall id r, m !! id = Some r -> 0 <= rs_bytes r.

Lemma weight_nonneg owner m : sized m -> Forall (fun kr => 0 <= weight owner kr) (map_to_list m).
Proof.
  intros Hm. apply Forall_forall. intros [id r] Hin%elem_of_map_to_list. unfold weight. cbn.
  specialize (Hm _ _ Hin). destruct (owned_by owner r); lia.
Qed.

Lemma sumw_filter owner (l : list (string * Reservation)) :
  sumw id (rs_bytes <$> List.filter (owned_by owner) (snd <$> l)) = sumw (weight owner) l.
Proof.
  induction l as [|[k r] l IH]; cbn; [done|]. unfold weight at 1. cbn. unfold sumw, id in *.
  destruct (owned_by owner r); cbn; lia.
Qed.

Lemma open_bytes_promised owner l : sized (ql_reservations l) -> open_bytes owner l = Z.min (promised owner l) u64_max.
Proof.
  intros Hs. unfold open_bytes, reservations_of, promised. rewrite sum_saturating_min; [by rewrite sumw_filter|].
  apply Forall_forall. intros x (r & -> & Hr)%list_elem_of_fmap. apply list_elem_of_In, filter_In in Hr as [Hr _].
  apply list_elem_of_In, list_elem_of_fmap in Hr as ([id r'] & -> & Hin%elem_of_map_to_list). eauto.
Qed.

Lemma open_count_sum agent_id l :
  open_count agent_id l = sumw (fun kr => if owned_by (Some agent_id) kr.2 then 1 else 0) (map_to_list (ql_reservations l)).
Proof.
  unfold open_count, reservations_of. induction (map_to_list (ql_reservations l)) as [|[k r] rest IH]; [done|].
  unfold sumw in *. cbn [fmap list_fmap List.filter foldr snd]. cbn [fmap] in IH.
  destruct (owned_by (Some agent_id) r); cbn [List.length]; lia.
Qed.

(** Fewer reservations promise less. *)
Lemma promised_shrink owner l l' : sized (ql_reservations l) -> ql_reservations l' ⊆ ql_reservations l ->
  promised owner l' <= promised owner l.
Proof. intros Hs Hsub. apply sumw_submseteq; [by apply weight_nonneg|by apply map_to_list_submseteq]. Qed.
Lemma count_shrink agent_id l l' : ql_reservations l' ⊆ ql_reservations l -> open_count agent_id l' <= open_count agent_id l.
Proof.
  intros Hsub. rewrite !open_count_sum. apply sumw_submseteq; [|by apply map_to_list_submseteq].
  apply Forall_forall. intros x _. by destruct (owned_by _ _).
Qed.

Lemma within_shrink l l' : within_quota l -> ql_limits l' = ql_limits l -> ql_reservations l' ⊆ ql_reservations l ->
  within_quota l'.
Proof.
  intros (Hr & Ha & Hg) Hl Hsub. unfold within_quota. rewrite Hl.
  assert (sized (ql_reservations l)) as Hs by (intros id r Hi; specialize (Hr id r Hi); lia).
  split_and!.
  - intros id r Hi. apply (Hr id). by eapply lookup_weaken.
  - intros agent_id. destruct (Ha agent_id). pose proof (promised_shrink (Some agent_id) l l' Hs Hsub).
    pose proof (count_shrink agent_id l l' Hsub). lia.
  - pose proof (promised_shrink None l l' Hs Hsub). lia.
Qed.

(** A new reservation adds its bytes, at most. *)
Lemma sumw_insert (w : string * Reservation -> Z) (m : gmap string Reservation) id r :
  (forall id' r', m !! id' = Some r' -> 0 <= w (id', r')) ->
  sumw w (map_to_list (<[id := r]> m)) <= w (id, r) + sumw w (map_to_list m).
Proof.
  intros Hw. rewrite <- insert_delete_eq. rewrite (sumw_perm w _ ((id, r) :: map_to_list (delete id m)))
    by (apply map_to_list_insert, lookup_delete_eq).
  cbn. assert (sumw w (map_to_list (delete id m)) <= sumw w (map_to_list m)) as Hle.
  { apply sumw_submseteq; [|apply map_to_list_submseteq, delete_subseteq].
    apply Forall_forall. intros [id' r'] Hin%elem_of_map_to_list. eauto. }
  unfold sumw in *. lia.
Qed.

(** ** The operations *)

Lemma record_same agent_id m l :
  ql_limits (record agent_id m l) = ql_limits l /\ ql_reservations (record agent_id m l) = ql_reservations l.
Proof. done. Qed.

Lemma inventory_same ms l :
  ql_limits (replace_inventory ms l) = ql_limits l /\ ql_reservations (replace_inventory ms l) = ql_reservations l.
Proof.
  unfold replace_inventory. cbn. enough (forall l0, ql_limits (foldl (fun l am => record am.1 am.2 l) l0 ms) = ql_limits l0
    /\ ql_reservations (foldl (fun l am => record am.1 am.2 l) l0 ms) = ql_reservations l0) as Hg by exact (Hg (set_measured ∅ l)).
  induction ms as [|[i m] ms IH]; intros l0; [done|]. cbn [foldl]. by destruct (IH (record i m l0)).
Qed.

(** What a granted reservation was checked against. *)
Lemma reserve_checks_ok agent_id bytes free l :
  reserve_checks agent_id bytes free l = Ok tt <->
  ql_inventory_incomplete l = false /\ is_purged agent_id l = false
  /\ bytes <> 0 /\ bytes <= reservation_bytes (ql_limits l)
  /\ open_count agent_id l < reservations_per_agent (ql_limits l)
  /\ (exists u, used agent_id l = Some u
        /\ saturating_add (saturating_add u (open_bytes (Some agent_id) l)) bytes <= agent_bytes (ql_limits l))
  /\ saturating_add (saturating_add (global_used l) (open_bytes None l)) bytes <= global_bytes (ql_limits l)
  /\ free_space_floor_bytes (ql_limits l) <= saturating_sub (saturating_sub free (open_bytes None l)) bytes.
Proof.
  unfold reserve_checks, open_count. destruct (ql_inventory_incomplete l); cbn; [split; [done|by intros []]|].
  destruct (is_purged agent_id l); cbn; [split; [done|by intros (_ & ? & _)]|].
  destruct ((bytes =? 0) || _) eqn:Hb; cbn; [split; [done|intros; lia]|].
  destruct (used agent_id l) as [u|]; cbn; [|split; [done|by intros (_ & _ & _ & _ & _ & (? & ? & _) & _)]].
  repeat (match goal with |- context [if ?b then _ else _] => destruct b eqn:? end; cbn).
  all: split; [try done|try done]; try (intros (_ & _ & _ & _ & ? & (? & [= <-] & ?) & ? & ?); lia).
  intros _. split_and!; try done; try lia. exists u. split; [done|lia].
Qed.

Lemma expire_within now l : within_quota l -> within_quota (expire now l).
Proof. intros Hw. apply (within_shrink l); [done|done|apply map_filter_subseteq]. Qed.

(** Everything an admission guarantees. *)
Definition granted_within (agent_id : string) (free : Z) (l : QuotaLedger) : Prop :=
  (exists u, used agent_id l = Some u /\ u + promised (Some agent_id) l <= agent_bytes (ql_limits l))
  /\ global_used l + promised None l <= global_bytes (ql_limits l)
  /\ promised None l + free_space_floor_bytes (ql_limits l) <= free.

Definition measured_ok (l : QuotaLedger) : Prop := forall id b, ql_measured l !! id = Some (Some b) -> 0 <= b.

Lemma used_nonneg agent_id l u : measured_ok l -> used agent_id l = Some u -> 0 <= u.
Proof. unfold used. intros Hm. destruct (ql_measured l !! agent_id) as [[b|]|] eqn:E; cbn; intros [= <-]; eauto; lia. Qed.

Lemma global_nonneg l : measured_ok l -> 0 <= agent_bytes (ql_limits l) -> 0 <= global_used l.
Proof.
  intros Hm Ha. unfold global_used. rewrite sum_saturating_min.
  - assert (0 <= sumw id (capped (ql_limits l) <$> (snd <$> map_to_list (ql_measured l)))); [|unfold u64_max; lia].
    apply sumw_nonneg, Forall_forall. intros x (o & -> & Ho)%list_elem_of_fmap.
    apply list_elem_of_fmap in Ho as ([k o'] & -> & Hin%elem_of_map_to_list). unfold id, capped. cbn.
    destruct o' as [b|]; [|done]. specialize (Hm _ _ Hin). lia.
  - apply Forall_forall. intros x (o & -> & Ho)%list_elem_of_fmap.
    apply list_elem_of_fmap in Ho as ([k o'] & -> & Hin%elem_of_map_to_list). unfold capped. cbn.
    destruct o' as [b|]; [|done]. specialize (Hm _ _ Hin). lia.
Qed.

Lemma reserve_within uuid agent_id bytes free now l r l' :
  limits_fit (ql_limits l) -> measured_ok l -> 0 <= bytes -> within_quota l ->
  reserve uuid agent_id bytes free now l = (r, l') ->
  within_quota l' /\ ql_limits l' = ql_limits l /\ (is_ok r = true -> granted_within agent_id free l').
Proof.
  intros (Hfa & Hfg & _ & Hfn & Hff) Hm Hb Hw. unfold reserve.
  pose proof (expire_within now l Hw) as He. set (l1 := expire now l) in *.
  assert (ql_limits l1 = ql_limits l) as Hl1 by done. assert (measured_ok l1) as Hm1 by exact Hm.
  destruct (reserve_checks agent_id bytes free l1) as [[]|e] eqn:Ec; intros [= <- <-]; [|split_and!; done].
  apply reserve_checks_ok in Ec as (_ & _ & Hb0 & Hbr & Hcount & (u & Hu & Hquota) & Hglobal & Hdisk).
  destruct He as (Hr & Ha & Hg). assert (sized (ql_reservations l1)) as Hs by (intros i x Hi; specialize (Hr i x Hi); lia).
  rewrite !open_bytes_promised in * by done. pose proof (used_nonneg _ _ _ Hm1 Hu).
  pose proof (global_nonneg l1 Hm1 ltac:(rewrite Hl1; lia)).
  rewrite Hl1 in *. destruct (Ha agent_id) as [Hpa _].
  assert (0 <= promised None l1) by (apply sumw_nonneg, weight_nonneg; done).
  assert (0 <= promised (Some agent_id) l1) by (apply sumw_nonneg, weight_nonneg; done).
  set (res := mkReservation _ _ _ _). set (l2 := set_reservations _ _).
  assert (forall owner, promised owner l2 <= weight owner (rs_id res, res) + promised owner l1) as Hins.
  { intros owner. apply sumw_insert. intros i x Hi. unfold weight. cbn. specialize (Hs _ _ Hi). destruct (owned_by owner x); lia. }
  assert (forall a, open_count a l2 <= (if a =s agent_id then 1 else 0) + open_count a l1) as Hcnt.
  { intros a. rewrite !open_count_sum. etrans; [apply sumw_insert; intros; by case_match|]. cbn.
    rewrite str_eqb_sym. destruct (a =s agent_id); lia. }
  unfold saturating_add, saturating_sub in *. split_and!; [split_and!| |].
  - intros i x. cbn. rewrite lookup_insert_Some. intros [[_ <-]|[_ Hi]]; [cbn; lia|by apply (Hr i)].
  - intros a. specialize (Hins (Some a)). specialize (Hcnt a). destruct (Ha a). unfold weight in Hins. cbn in Hins.
    rewrite (str_eqb_sym agent_id a) in Hins. destruct (a =s agent_id) eqn:Haa; [apply str_eqb_eq in Haa as ->|]; cbn in *; lia.
  - specialize (Hins None). unfold weight in Hins. cbn in *. lia.
  - done.
  - intros _. pose proof (Hins None) as Hi0. pose proof (Hins (Some agent_id)) as Hi1. unfold weight in Hi0, Hi1. cbn in Hi0, Hi1.
    rewrite str_eqb_refl in Hi1. unfold granted_within. change (global_used l2) with (global_used l1).
    change (used agent_id l2) with (used agent_id l1). change (ql_limits l2) with (ql_limits l).
    split_and!; [exists u; split; [done|lia]|lia|lia].
Qed.

(** ** Runs *)

Inductive LedgerOp : Type :=
| LRecord (agent_id : string) (m : option Measurement)
| LInventory (ms : list (string * option Measurement))
| LIncomplete
| LForget (agent_id : string)
| LExpire (now : Z)
| LReserve (uuid agent_id : string) (bytes free_bytes now : Z)
| LCommit (agent_id id : string) (now : Z)
| LRelease (agent_id id : string) (now : Z).

Definition ledger_op (op : LedgerOp) (l : QuotaLedger) : QuotaLedger :=
  match op with
  | LRecord agent_id m => record agent_id m l
  | LInventory ms => replace_inventory ms l
  | LIncomplete => mark_inventory_incomplete l
  | LForget agent_id => forget agent_id l
  | LExpire now => expire now l
  | LReserve uuid agent_id bytes free now => (reserve uuid agent_id bytes free now l).2
  | LCommit agent_id id now => (commit agent_id id now l).2
  | LRelease agent_id id now => (release agent_id id now l).2
  end.
Definition ledger_run (ops : list LedgerOp) (l : QuotaLedger) : QuotaLedger := foldl (fun l op => ledger_op op l) l ops.

(** Sizes are unsigned. *)
Definition measurement_fits (m : option Measurement) : Prop := match m with Some m => 0 <= ms_bytes m | None => True end.
Definition op_fits (op : LedgerOp) : Prop :=
  match op with
  | LRecord _ m => measurement_fits m
  | LInventory ms => Forall (fun am => measurement_fits am.2) ms
  | LReserve _ _ bytes _ _ => 0 <= bytes
  | _ => True
  end.

Lemma record_measured agent_id m l : measurement_fits m -> measured_ok l -> measured_ok (record agent_id m l).
Proof.
  intros Hf Hm id b. cbn. rewrite lookup_insert_Some. intros [[_ Hb]|[_ Hb]]; [|by eapply Hm].
  destruct m as [m|]; [|done]. injection Hb as <-. unfold measured_bytes. cbn in Hf. destruct (ms_overflow m); unfold u64_max; lia.
Qed.

Lemma op_measured op l : op_fits op -> measured_ok l -> measured_ok (ledger_op op l).
Proof.
  intros Hf Hm. destruct op as [a m|ms| |a|now|uuid a b f now|a i now|a i now]; cbn in *; try exact Hm.
  - by apply record_measured.
  - unfold replace_inventory. assert (measured_ok (set_measured ∅ l)) as H0 by (intros i b Hi; cbn in Hi; by rewrite lookup_empty in Hi).
    intros i b. cbn. revert i b. change (measured_ok (foldl (fun l am => record am.1 am.2 l) (set_measured ∅ l) ms)).
    generalize dependent (set_measured ∅ l). induction Hf as [|am ms Ham Hms IH]; intros l0 H0; [done|].
    cbn. apply IH, record_measured; done.
  - intros i b. cbn. rewrite lookup_delete_Some. intros [_ Hi]. by eapply Hm.
  - unfold reserve. destruct (reserve_checks _ _ _ _) as [[]|e]; exact Hm.
  - unfold commit. destruct (owns _ _ _); exact Hm.
  - unfold release. destruct (owns _ _ _); exact Hm.
Qed.

Lemma op_within op l : limits_fit (ql_limits l) -> op_fits op -> measured_ok l -> within_quota l ->
  within_quota (ledger_op op l) /\ ql_limits (ledger_op op l) = ql_limits l.
Proof.
  intros Hl Hf Hm Hw. destruct op as [a m|ms| |a|now|uuid a b f now|a i now|a i now]; cbn in *.
  - split; [|done]. by apply (within_shrink l).
  - destruct (inventory_same ms l) as [H1 H2]. split; [|done]. apply (within_shrink l); [done|done|by rewrite H2].
  - split; [|done]. by apply (within_shrink l).
  - split; [|done]. apply (within_shrink l); [done|done|apply map_filter_subseteq].
  - split; [|done]. by apply expire_within.
  - destruct (reserve uuid a b f now l) as [r l'] eqn:E. apply reserve_within in E; naive_solver.
  - unfold commit. pose proof (expire_within now l Hw) as He. destruct (owns a i (expire now l)); cbn [snd]; [|done].
    split; [|done]. apply (within_shrink (expire now l)); [done|done|apply delete_subseteq].
  - unfold release. pose proof (expire_within now l Hw) as He. destruct (owns a i (expire now l)); cbn [snd]; [|done].
    split; [|done]. apply (within_shrink (expire now l)); [done|done|apply delete_subseteq].
Qed.

Lemma run_within ops : forall l, limits_fit (ql_limits l) -> Forall op_fits ops -> measured_ok l -> within_quota l ->
  within_quota (ledger_run ops l) /\ measured_ok (ledger_run ops l) /\ ql_limits (ledger_run ops l) = ql_limits l.
Proof.
  induction ops as [|op ops IH]; intros l Hl Hf Hm Hw; cbn; [done|]. inversion Hf as [|? ? Hop Hops]; subst.
  destruct (op_within op l Hl Hop Hm Hw) as [Hw' Hlim]. pose proof (op_measured op l Hop Hm) as Hm'.
  destruct (IH (ledger_op op l)) as (? & ? & Hlim'); [by rewrite Hlim|done|done|done|].
  split_and!; [done|done|]. etrans; [exact Hlim'|exact Hlim].
Qed.

Lemma new_within limits : limits_fit limits -> within_quota (ledger_new limits) /\ measured_ok (ledger_new limits).
Proof.
  intros (Ha & Hg & Hr & Hn & Hd). unfold within_quota, measured_ok, promised, open_count, reservations_of. cbn.
  rewrite map_to_list_empty. cbn. split_and!; try (intros; lia); intros ? ?; by rewrite lookup_empty.
Qed.
End Ledger.

(** ** The properties *)

Section Claims.

(** C16: in every run of the ledger, whatever is measured and whoever asks, each workload's open
    reservations stay within its quota and their number, all of them within the machine's quota,
    and a reservation is granted only when it fits: measured use and promises within both quotas,
    and every promise kept leaves the free-space floor. *)
Theorem promises_stay_within_quota (limits : QuotaLimits) (ops : list LedgerOp) :
  limits_fit limits -> Forall op_fits ops ->
  let l := ledger_run ops (ledger_new limits) in
  within_quota l
  /\ forall uuid agent_id bytes free now reservation l',
       0 <= bytes -> reserve uuid agent_id bytes free now l = (Ok reservation, l') -> granted_within agent_id free l'.
Proof.
  intros Hl Hops l. destruct (new_within limits Hl) as [Hw Hm].
  destruct (run_within ops (ledger_new limits) Hl Hops Hm Hw) as (Hw' & Hm' & Hlim). split; [exact Hw'|].
  intros uuid agent_id bytes free now res l' Hb E.
  apply (reserve_within uuid agent_id bytes free now l (Ok res) l') in E; [|by fold l in Hlim; rewrite Hlim|done|done|done].
  by destruct E as (_ & _ & Hg); apply Hg.
Qed.

Lemma sat_sum top x b A : 0 <= b -> A < top ->
  (Z.min (Z.min x top + b) top <= A <-> x + b <= A).
Proof. lia. Qed.
Lemma headroom_iff b A u P : 1 <= b -> 0 <= P ->
  (b <= Z.max 0 (Z.max 0 (A - Z.min u A) - P) <-> u + P + b <= A).
Proof. lia. Qed.
Lemma headroom_global_iff b G g P : 1 <= b -> 0 <= P -> (b <= Z.max 0 (Z.max 0 (G - g) - P) <-> g + P + b <= G).
Proof. lia. Qed.

(** The room a workload is told about is the room it gets: when its directory is measured, it
    may open another reservation and the disk is not the limit, a reservation is granted exactly
    when it is positive, within the size of one reservation and within the bytes reported as
    available. *)
Theorem reported_room_is_exact (uuid agent_id : string) (bytes free now : Z) (l : QuotaLedger) :
  limits_fit (ql_limits l) -> measured_ok l -> within_quota l ->
  let l1 := expire now l in
  ql_inventory_incomplete l = false -> is_purged agent_id l = false -> is_Some (used agent_id l) ->
  open_count agent_id l1 < reservations_per_agent (ql_limits l) ->
  promised None l1 + reservation_bytes (ql_limits l) + free_space_floor_bytes (ql_limits l) <= free ->
  0 <= bytes ->
  is_ok (reserve uuid agent_id bytes free now l).1 = true
  <-> 1 <= bytes <= Z.min (reservation_bytes (ql_limits l)) (au_available_bytes (usage agent_id l1)).
Proof.
  intros (Hfa & Hfg & Hfr & _ & Hff) Hm Hw l1 Hinc Hpur [u Hu] Hcount Hdisk Hb.
  pose proof (expire_within now l Hw) as (Hr & Ha & Hall). fold l1 in Hr, Ha, Hall. destruct (Ha agent_id) as [Hpa _].
  change (ql_limits l1) with (ql_limits l) in *.
  assert (sized (ql_reservations l1)) as Hs by (intros i x Hi; specialize (Hr i x Hi); lia).
  pose proof (used_nonneg _ _ _ Hm Hu). pose proof (global_nonneg l Hm ltac:(lia)).
  assert (0 <= promised None l1) by (apply sumw_nonneg, weight_nonneg; done).
  assert (0 <= promised (Some agent_id) l1) by (apply sumw_nonneg, weight_nonneg; done).
  assert (is_ok (reserve uuid agent_id bytes free now l).1 = true <-> reserve_checks agent_id bytes free l1 = Ok tt) as ->.
  { unfold reserve. fold l1. by destruct (reserve_checks agent_id bytes free l1) as [[]|e]. }
  rewrite reserve_checks_ok. unfold usage. cbn [au_available_bytes]. rewrite !open_bytes_promised by done.
  change (ql_limits l1) with (ql_limits l) in *. change (used agent_id l1) with (used agent_id l).
  change (global_used l1) with (global_used l). change (is_purged agent_id l1) with (is_purged agent_id l).
  change (ql_inventory_incomplete l1) with (ql_inventory_incomplete l).
  rewrite Hu. unfold capped, saturating_add, saturating_sub.
  rewrite !(Z.min_l (promised _ l1)) by lia. rewrite Z.min_glb_iff, Z.min_glb_iff. split.
  - intros (_ & _ & Hb0 & ? & _ & (u' & [= <-] & Hq) & Hg & _). rewrite sat_sum in Hq, Hg by lia.
    assert (1 <= bytes) by lia. by rewrite headroom_iff, headroom_global_iff by lia.
  - intros [Hb1 (Hr1 & Hq & Hg)]. rewrite headroom_iff in Hq by lia. rewrite headroom_global_iff in Hg by lia.
    split_and!; [done|done|lia|lia|done|exists u; split; [done|]| |lia]; rewrite sat_sum; lia.
Qed.

(** ** Witnesses *)

(** A workload that was measured, holds one reservation and asks for another. *)
Definition example_ops : list LedgerOp :=
  [LRecord "a" (Some (mkMeasurement 1000 3 false)); LReserve "1" "a" 4096 (2 ^ 40) 0].

Lemma limits_default_fit : limits_fit limits_default.
Proof. unfold limits_fit. repeat apply conj; vm_compute; first [reflexivity | discriminate]. Qed.
Lemma example_ops_fit : Forall op_fits example_ops.
Proof. unfold example_ops. constructor; [cbn; lia|]. constructor; [cbn; lia|]. constructor. Qed.

Theorem promises_stay_within_quota_witness :
  within_quota (ledger_run example_ops (ledger_new limits_default))
  /\ exists reservation l', reserve "2" "a" 4096 (2 ^ 40) 1 (ledger_run example_ops (ledger_new limits_default)) = (Ok reservation, l')
       /\ granted_within "a" (2 ^ 40) l'.
Proof.
  pose proof limits_default_fit as Hl. pose proof example_ops_fit as Ho.
  destruct (promises_stay_within_quota limits_default example_ops Hl Ho) as [Hw Hr]. split; [exact Hw|].
  assert (exists res l', reserve "2" "a" 4096 (2 ^ 40) 1 (ledger_run example_ops (ledger_new limits_default)) = (Ok res, l'))
    as (res & l' & E) by (eexists _, _; vm_compute; reflexivity).
  exists res, l'. split; [exact E|]. refine (Hr _ _ _ _ _ _ _ _ E). lia.
Defined.

Theorem reported_room_is_exact_witness :
  is_ok (reserve "2" "a" 4096 (2 ^ 40) 1 (ledger_run example_ops (ledger_new limits_default))).1 = true
  <-> 1 <= 4096 <= Z.min (reservation_bytes limits_default)
        (au_available_bytes (usage "a" (expire 1 (ledger_run example_ops (ledger_new limits_default))))).
Proof.
  pose proof limits_default_fit as Hl. pose proof example_ops_fit as Ho.
  destruct (new_within limits_default Hl) as [Hw Hm].
  destruct (run_within example_ops (ledger_new limits_default) Hl Ho Hm Hw) as (Hw' & Hm' & _).
  apply (reported_room_is_exact "2" "a" 4096 (2 ^ 40) 1 (ledger_run example_ops (ledger_new limits_default)));
    [exact Hl|exact Hm'|exact Hw'|reflexivity|reflexivity|by eexists|vm_compute; reflexivity|vm_compute; discriminate|lia].
Defined.
End Claims.
