(* ===== verification/ControllerTypes.v ===== *)
(** * State and programs of the Controller (crates/treer-agent-server/src/controller.rs)

    The Controller keeps a record of every workload of its machine, what it saved about them
    (StartupStore), the cached interfaces, the local HTTP proxy entries and the private-state
    ledger.  It asks the process Host to spawn, stop and write.

    An operation is a program: an [Atom] is what happens under one lock (or one lookup), an [Ask] is
    a question to the operating system or to the Host.  Programs of different tasks interleave
    between any two of them.

    A record is looked up by ID and then locked; the model does both at once.  A record removed in
    between is that of a deleted workload, whose ID is never inserted again: all that the model
    leaves out is a last event about it. *)

From stdpp Require Import gmap pretty sorting.
From S2P Require Import Prelude RustStr Protocol HostProtocol Activity ProxyTypes StartupStore PrivateState.
Local Open Scope Z_scope.

(** ** Data *)

Definition OUTPUT_LIMIT_BYTES : nat := Z.to_nat (512 * 1024).
Definition OUTPUT_TRIM_SLACK_BYTES : nat := Z.to_nat (64 * 1024).
Definition REPLAY_BOUNDARY_SCAN_BYTES : nat := Z.to_nat (4 * 1024).
Definition OUTPUT_METADATA_INTERVAL : Z := from_millis 150.
Definition PROMPT_SUBMIT_DELAY : Z := 300.
Definition AGENT_INTERFACE_FAILURE_LIMIT : Z := 5.
Definition BRIDGE_PROMPT_QUEUE_LIMIT : Z := 256.
Definition BRIDGE_PROMPT_READ_LIMIT : Z := 100.
Definition BRIDGE_PROMPT_MAX_BYTES : Z := 64 * 1024.
Definition AGENT_INTERFACE_PROTOCOL_V1 : string := "treer.agent-interface/v1".

Record AgentLaunch : Type := mkAgentLaunch {
  al_command : string;
  al_args : list string;
  al_initial_writes : list HostWrite;
  al_publish_ports : list Z
}.

Record AgentMetadata : Type := mkAgentMetadata {
  am_agent_id : string;
  am_run_generation : Z;
  am_workspace_id : string;
  am_server_id : string;
  am_kind : string;
  am_name : string;
  am_cwd : string;
  am_workload_credential : string;
  am_http_proxy_port : option Z
}.

Record AgentPrompt : Type := mkAgentPrompt { ap_prompt_id : string; ap_text : string; ap_created_at : Time }.

Record CreateAgentRequest : Type := mkCreateAgentRequest {
  cr_kind : string;
  cr_name : string;
  cr_cwd : string;
  cr_args : list string;
  cr_cols : Z;
  cr_rows : Z;
  cr_publish_ports : list Z
}.

Record SetAgentStartupRequest : Type := mkSetAgentStartupRequest {
  ssr_cwd : string;
  ssr_command : string;
  ssr_args : list string;
  ssr_publish_ports : list Z
}.

Record ReplaceAgentStartupRequest : Type := mkReplaceAgentStartupRequest {
  rsr_cwd : option string;
  rsr_command : string;
  rsr_args : list string
}.

Record ControllerAgent : Type := mkControllerAgent {
  ca_stream_epoch : string;
  ca_info : AgentInfo;
  ca_workload_credential : string;
  ca_text : string;
  ca_prompt_queue : list AgentPrompt;
  ca_bracketed_paste : bool;
  ca_activity : TerminalActivity;
  ca_last_metadata_event : Z
}.

(** A record under its lock; a panic while the lock is held poisons it. *)
Record Slot : Type := mkSlot { sl_agent : ControllerAgent; sl_poisoned : bool }.

Record CachedAgentInterface : Type := mkCachedAgentInterface {
  ci_agent_id : string;
  ci_pid : Z;
  ci_started_at : Time;
  ci_interface : AgentInterfaceDescriptor
}.

Record TerminalOutput : Type := mkTerminalOutput { to_process_id : string; to_revision : Z; to_data : bytes }.

Record ProxyLinkStatus : Type := mkProxyLinkStatus {
  pl_connected : bool;
  pl_last_error : option string;
  pl_last_error_code : option string
}.

Record VirtualNetworkHostsSnapshot : Type := mkVirtualNetworkHostsSnapshot {
  vh_workspace_id : string;
  vh_revision : Z;
  vh_hosts : Value
}.

(** The entry of a workload in [workload_proxy.rs]: its port and the credential it is bound to. *)
Record ProxyEntry : Type := mkProxyEntry { we_port : Z; we_credential : string }.

Record RegistrationWindow : Type := mkRegistrationWindow { rw_started : Z; rw_count : Z; rw_warned : bool }.

(** What never changes while a Controller runs; [cf_treer_binary] is a path with its parent, and
    [cf_private_root] the code of the error that opening the private-state root gave. *)
Record Config : Type := mkConfig {
  cf_workspace_id : string;
  cf_server_id : string;
  cf_agent_server_url : string;
  cf_proxy_public_url : string;
  cf_treer_binary : option (string * string);
  cf_search_path : string;
  cf_interactive_shell : string;
  cf_no_proxy : string;
  cf_private_root : Result unit string
}.

Record Ctl : Type := mkCtl {
  ct_host_epoch : string;
  ct_store : StartupStore;
  ct_agents : gmap string Slot;
  ct_cache : gmap string CachedAgentInterface;
  ct_proxies : gmap string ProxyEntry;
  ct_ledger : QuotaLedger;
  ct_windows : gmap string RegistrationWindow;
  ct_virtual_hosts : option VirtualNetworkHostsSnapshot;
  ct_proxy_link : ProxyLinkStatus;
  ct_events : list AgentInfo;
  ct_process_events : list HostProcessInfo;
  ct_terminal_events : list TerminalOutput
}.

Definition set_store v c := mkCtl (ct_host_epoch c) v (ct_agents c) (ct_cache c) (ct_proxies c) (ct_ledger c)
  (ct_windows c) (ct_virtual_hosts c) (ct_proxy_link c) (ct_events c) (ct_process_events c) (ct_terminal_events c).
Definition set_agents v c := mkCtl (ct_host_epoch c) (ct_store c) v (ct_cache c) (ct_proxies c) (ct_ledger c)
  (ct_windows c) (ct_virtual_hosts c) (ct_proxy_link c) (ct_events c) (ct_process_events c) (ct_terminal_events c).
Definition set_cache v c := mkCtl (ct_host_epoch c) (ct_store c) (ct_agents c) v (ct_proxies c) (ct_ledger c)
  (ct_windows c) (ct_virtual_hosts c) (ct_proxy_link c) (ct_events c) (ct_process_events c) (ct_terminal_events c).
Definition set_proxies v c := mkCtl (ct_host_epoch c) (ct_store c) (ct_agents c) (ct_cache c) v (ct_ledger c)
  (ct_windows c) (ct_virtual_hosts c) (ct_proxy_link c) (ct_events c) (ct_process_events c) (ct_terminal_events c).
Definition set_ledger v c := mkCtl (ct_host_epoch c) (ct_store c) (ct_agents c) (ct_cache c) (ct_proxies c) v
  (ct_windows c) (ct_virtual_hosts c) (ct_proxy_link c) (ct_events c) (ct_process_events c) (ct_terminal_events c).
Definition set_windows v c := mkCtl (ct_host_epoch c) (ct_store c) (ct_agents c) (ct_cache c) (ct_proxies c) (ct_ledger c)
  v (ct_virtual_hosts c) (ct_proxy_link c) (ct_events c) (ct_process_events c) (ct_terminal_events c).
Definition set_virtual_hosts v c := mkCtl (ct_host_epoch c) (ct_store c) (ct_agents c) (ct_cache c) (ct_proxies c) (ct_ledger c)
  (ct_windows c) v (ct_proxy_link c) (ct_events c) (ct_process_events c) (ct_terminal_events c).
Definition set_proxy_link v c := mkCtl (ct_host_epoch c) (ct_store c) (ct_agents c) (ct_cache c) (ct_proxies c) (ct_ledger c)
  (ct_windows c) (ct_virtual_hosts c) v (ct_events c) (ct_process_events c) (ct_terminal_events c).
Definition push_event v c := mkCtl (ct_host_epoch c) (ct_store c) (ct_agents c) (ct_cache c) (ct_proxies c) (ct_ledger c)
  (ct_windows c) (ct_virtual_hosts c) (ct_proxy_link c) (ct_events c ++ [v]) (ct_process_events c) (ct_terminal_events c).
Definition push_process_event v c := mkCtl (ct_host_epoch c) (ct_store c) (ct_agents c) (ct_cache c) (ct_proxies c) (ct_ledger c)
  (ct_windows c) (ct_virtual_hosts c) (ct_proxy_link c) (ct_events c) (ct_process_events c ++ [v]) (ct_terminal_events c).
Definition push_terminal_event v c := mkCtl (ct_host_epoch c) (ct_store c) (ct_agents c) (ct_cache c) (ct_proxies c) (ct_ledger c)
  (ct_windows c) (ct_virtual_hosts c) (ct_proxy_link c) (ct_events c) (ct_process_events c) (ct_terminal_events c ++ [v]).

(** Assignments to fields of a record. *)
Definition set_info (i : AgentInfo) (a : ControllerAgent) : ControllerAgent :=
  mkControllerAgent (ca_stream_epoch a) i (ca_workload_credential a) (ca_text a) (ca_prompt_queue a)
    (ca_bracketed_paste a) (ca_activity a) (ca_last_metadata_event a).
Definition set_queue (q : list AgentPrompt) (a : ControllerAgent) : ControllerAgent :=
  mkControllerAgent (ca_stream_epoch a) (ca_info a) (ca_workload_credential a) (ca_text a) q
    (ca_bracketed_paste a) (ca_activity a) (ca_last_metadata_event a).
Definition set_activity (t : TerminalActivity) (a : ControllerAgent) : ControllerAgent :=
  mkControllerAgent (ca_stream_epoch a) (ca_info a) (ca_workload_credential a) (ca_text a) (ca_prompt_queue a)
    (ca_bracketed_paste a) t (ca_last_metadata_event a).
Definition set_text (text : string) (a : ControllerAgent) : ControllerAgent :=
  mkControllerAgent (ca_stream_epoch a) (ca_info a) (ca_workload_credential a) text (ca_prompt_queue a)
    (ca_bracketed_paste a) (ca_activity a) (ca_last_metadata_event a).
Definition set_bracketed (b : bool) (a : ControllerAgent) : ControllerAgent :=
  mkControllerAgent (ca_stream_epoch a) (ca_info a) (ca_workload_credential a) (ca_text a) (ca_prompt_queue a)
    b (ca_activity a) (ca_last_metadata_event a).
Definition set_metadata_event (now : Z) (a : ControllerAgent) : ControllerAgent :=
  mkControllerAgent (ca_stream_epoch a) (ca_info a) (ca_workload_credential a) (ca_text a) (ca_prompt_queue a)
    (ca_bracketed_paste a) (ca_activity a) now.

Definition info_status (s : AgentStatus) (a : AgentInfo) : AgentInfo :=
  mkAgentInfo (ag_path a) (ag_agent_id a) (ag_run_generation a) (ag_workspace_id a) (ag_server_id a)
    (ag_kind a) (ag_name a) (ag_cwd a) s (ag_pid a) (ag_started_at a) (ag_updated_at a)
    (ag_exited_at a) (ag_exit_code a) (ag_output_revision a) (ag_interface a).
Definition info_exit (exited_at exit_code : option Z) (a : AgentInfo) : AgentInfo :=
  mkAgentInfo (ag_path a) (ag_agent_id a) (ag_run_generation a) (ag_workspace_id a) (ag_server_id a)
    (ag_kind a) (ag_name a) (ag_cwd a) (ag_status a) (ag_pid a) (ag_started_at a) (ag_updated_at a)
    exited_at exit_code (ag_output_revision a) (ag_interface a).
Definition info_pid (pid : option Z) (a : AgentInfo) : AgentInfo :=
  mkAgentInfo (ag_path a) (ag_agent_id a) (ag_run_generation a) (ag_workspace_id a) (ag_server_id a)
    (ag_kind a) (ag_name a) (ag_cwd a) (ag_status a) pid (ag_started_at a) (ag_updated_at a)
    (ag_exited_at a) (ag_exit_code a) (ag_output_revision a) (ag_interface a).
Definition info_interface (i : option AgentInterfaceDescriptor) (a : AgentInfo) : AgentInfo :=
  mkAgentInfo (ag_path a) (ag_agent_id a) (ag_run_generation a) (ag_workspace_id a) (ag_server_id a)
    (ag_kind a) (ag_name a) (ag_cwd a) (ag_status a) (ag_pid a) (ag_started_at a) (ag_updated_at a)
    (ag_exited_at a) (ag_exit_code a) (ag_output_revision a) i.
Definition info_revision (r : Z) (a : AgentInfo) : AgentInfo :=
  mkAgentInfo (ag_path a) (ag_agent_id a) (ag_run_generation a) (ag_workspace_id a) (ag_server_id a)
    (ag_kind a) (ag_name a) (ag_cwd a) (ag_status a) (ag_pid a) (ag_started_at a) (ag_updated_at a)
    (ag_exited_at a) (ag_exit_code a) r (ag_interface a).

(** ** Programs *)

Inductive PromptDelivery : Type := Queue | Steer.
(** [AgentInterfacePromptRequest], its sender and notification being opaque. *)
Record PromptRequest : Type := mkPromptRequest {
  pr_operation_id : string;
  pr_text : string;
  pr_delivery : PromptDelivery;
  pr_sender : option Value;
  pr_notify : option Value
}.

(** Questions and the type of their answers. *)
Inductive Sys : Type -> Type :=
| AskHost (command : HostCommand) (operation_id : option string) : Sys (Result HostResponse string)
| AskUtc : Sys Time
| AskInstant : Sys Z
| AskUuid : Sys string
| AskBind (port : option Z) : Sys (Result Z string)
| AskExecutable (path : string) : Sys bool
| AskDirectory (requested : string) : Sys (Result bool string)
| AskPrepare (agent_id : string) : Sys (Result (option string) ProtocolError)
| AskVerify (agent_id : string) : Sys (Result (option string) ProtocolError)
| AskMeasure (agent_id : string) : Sys (Result Measurement ProtocolError)
| AskPrivateIds : Sys (Result (list string) string)
| AskFreeBytes (directory : string) : Sys (Result Z string)
| AskPurge (agent_id : string) : Sys (Result bool ProtocolError)
| AskManifest (agent_id : string) (d : AgentInterfaceDescriptor)
    : Sys (Result (string * string * list string * option string) ProtocolError)
| AskStatus (agent_id : string) (d : AgentInterfaceDescriptor) : Sys (Result (string * string * AgentStatus) ProtocolError)
| AskSubmit (agent_id : string) (d : AgentInterfaceDescriptor) (operation_id text : string) : Sys (Result unit ProtocolError)
| AskDelivery (agent_id : string) (d : AgentInterfaceDescriptor) (body : PromptRequest) : Sys (Result Value ProtocolError)
| AskAbort (agent_id : string) (d : AgentInterfaceDescriptor) (operation_id : string) : Sys (Result unit ProtocolError)
| AskTranscript (agent_id : string) (d : AgentInterfaceDescriptor) (cursor : option string) (limit : option Z)
    : Sys (Result Value ProtocolError)
| AskQueue (agent_id : string) (d : AgentInterfaceDescriptor) (submission_id : option string) (cancel : bool)
    : Sys (Result Value ProtocolError).

Inductive Prog (A : Type) : Type :=
| Done (a : A)
| Atom (B : Type) (f : Ctl -> B * Ctl) (k : B -> Prog A)
| Ask (B : Type) (q : Sys B) (k : B -> Prog A).
Arguments Done {A} a.
Arguments Atom {A B} f k.
Arguments Ask {A B} q k.

Fixpoint bind {A B} (p : Prog A) (h : A -> Prog B) : Prog B :=
  match p with
  | Done a => h a
  | Atom f k => Atom f (fun b => bind (k b) h)
  | Ask q k => Ask q (fun b => bind (k b) h)
  end.

Definition ProgR (A : Type) : Type := Prog (Result A ProtocolError).
(** The [?] operator on a program. *)
Definition try {A B} (p : ProgR A) (h : A -> ProgR B) : ProgR B :=
  bind p (fun r => match r with Ok a => h a | Err e => Done (Err e) end).

Definition ok {A} (a : A) : ProgR A := Done (Ok a).
Definition throw {A} (e : ProtocolError) : ProgR A := Done (Err e).
Definition lift {A} (r : Result A ProtocolError) : ProgR A := Done r.
Definition atom {A} (f : Ctl -> A * Ctl) : Prog A := Atom f Done.
Definition peek {A} (f : Ctl -> A) : Prog A := atom (fun c => (f c, c)).
Definition poke (f : Ctl -> Ctl) : Prog unit := atom (fun c => (tt, f c)).
Definition ask {A} (q : Sys A) : Prog A := Ask q Done.

Declare Scope prog_scope.
Delimit Scope prog_scope with prog.
Notation "'let*' x := e 'in' k" := (try e (fun x => k))
  (at level 10, x binder, e at level 100, k at level 200) : prog_scope.
Notation "'let+' x := e 'in' k" := (bind e (fun x => k))
  (at level 10, x binder, e at level 100, k at level 200) : prog_scope.
Notation "e ;* k" := (try e (fun _ => k)) (at level 100, right associativity) : prog_scope.
Notation "e ;+ k" := (bind e (fun _ => k)) (at level 100, right associativity) : prog_scope.

(** JSON of the metadata of a process; ANSI stripping and lossy decoding of terminal output; the
    text functions of the activity filter. *)
Class CtlText : Type := {
  encode_metadata : AgentMetadata -> Result string string;
  decode_metadata : string -> Result AgentMetadata string;
  plain : bytes -> string;
  to_lowercase : string -> string;
  content_hash : list string -> Z
}.
Class CtlTextLaws {T : CtlText} : Prop := {
  metadata_roundtrip m s : encode_metadata m = Ok s -> decode_metadata s = Ok m
}.
