(* ===== verification/Controller.v ===== *)
(** * Workload records of the Controller (crates/treer-agent-server/src/controller.rs)

    How the records follow the Host: taking over a process of its inventory, applying the answer to
    a request, an output chunk and a process event; and the parts every launch shares. *)

From stdpp Require Import gmap pretty sorting.
From S2P Require Import Prelude RustStr Protocol HostProtocol Activity ProxyTypes.
From S2P Require Import StartupStore PrivateState ControllerTypes.
Local Open Scope Z_scope.
Local Open Scope prog_scope.

(** ** Locks and the pieces of the state *)

Definition agent_not_found (agent_id : string) : ProtocolError := protocol_error "agent_not_found" agent_id.
Definition state_error (message : string) : ProtocolError := protocol_error "state_error" message.

Definition get_slot (agent_id : string) (c : Ctl) : Result Slot ProtocolError :=
  ok_or (ct_agents c !! agent_id) (agent_not_found agent_id).
(** [self.get(id)?.lock().map_err(..)?] *)
Definition lock_agent (agent_id message : string) (c : Ctl) : Result ControllerAgent ProtocolError :=
  let? slot := get_slot agent_id c in
  if sl_poisoned slot then Err (state_error message) else Ok (sl_agent slot).
Definition put_agent (agent_id : string) (a : ControllerAgent) (c : Ctl) : Ctl :=
  set_agents (<[agent_id := mkSlot a false]> (ct_agents c)) c.
(** [if let Ok(agent) = self.get(id) { if let Ok(agent) = agent.lock() { .. } }] *)
Definition try_lock (agent_id : string) (c : Ctl) : option ControllerAgent :=
  match lock_agent agent_id "" c with Ok a => Some a | Err _ => None end.
Definition known (agent_id : string) (c : Ctl) : bool := is_some (ct_agents c !! agent_id).

Definition with_agent {A} (agent_id message : string) (f : ControllerAgent -> A * ControllerAgent) : ProgR A :=
  atom (fun c =>
    match lock_agent agent_id message c with
    | Err e => (Err e, c)
    | Ok a => let '(x, a') := f a in (Ok x, put_agent agent_id a' c)
    end).
Definition emit (info : AgentInfo) : Prog unit := poke (push_event info).
Definition emit_process (p : HostProcessInfo) : Prog unit := poke (push_process_event p).

Definition startup_store_error (e : IoError) : ProtocolError := protocol_error "startup_store_error" (io_text e).
Definition host_error (text : string) : ProtocolError := protocol_error "host_error" text.

(** [host_stop_error] *)
Definition host_stop_error (text : string) : ProtocolError :=
  let named code := is_some_and (strip_prefix code text) (fun rest => starts_with ":" rest) in
  if named "process_not_found" then protocol_error "process_not_found" text
  else if named "process_not_running" then protocol_error "process_not_running" text
  else host_error text.

Definition running_agent (o : option ControllerAgent) : bool :=
  is_some_and o (fun a => negb (is_terminal (ag_status (ca_info a)))).

Definition cache_atom (f : gmap string CachedAgentInterface -> gmap string CachedAgentInterface) : Prog unit :=
  poke (fun c => set_cache (f (ct_cache c)) c).
Definition remove_cached_interface (agent_id : string) : Prog unit := cache_atom (delete agent_id).
Definition cache_interface (info : AgentInfo) : Prog unit :=
  match ag_pid info, ag_interface info with
  | Some pid, Some interface =>
      cache_atom (<[ag_agent_id info := mkCachedAgentInterface (ag_agent_id info) pid (ag_started_at info) interface]>)
  | _, _ => remove_cached_interface (ag_agent_id info)
  end.

(** [WorkloadProxies::remove] and [ensure]; the port a free loopback bind gives is [bound], used
    only when there is no entry. *)
Definition remove_proxy (agent_id : string) (c : Ctl) : Ctl := set_proxies (delete agent_id (ct_proxies c)) c.
Definition ensure_entry (agent_id credential : string) (port : option Z) (bound : Result Z string) (c : Ctl)
    : Result Z ProtocolError * Ctl :=
  match ct_proxies c !! agent_id with
  | Some entry =>
      if (we_credential entry =s credential) && is_none_or port (fun port => port =? we_port entry)
      then (Ok (we_port entry), c)
      else (Err (protocol_error "proxy_identity_conflict" "workload already has a different proxy entry"), c)
  | None =>
      match bound with
      | Err text => (Err (protocol_error "proxy_bind_failed" ("cannot bind workload proxy: " +:+ text)), c)
      | Ok port => (Ok port, set_proxies (<[agent_id := mkProxyEntry port credential]> (ct_proxies c)) c)
      end
  end.
Definition ensure (agent_id credential : string) (port : option Z) : ProgR Z :=
  let+ bound := ask (AskBind port) in
  atom (ensure_entry agent_id credential port bound).

Section Controller.
Context (cfg : Config) `{StartupJson} `{CtlText}.

Definition store_atom {A} (m : SM A) : Prog (Result A IoError) :=
  atom (fun c => let '(r, st) := m (ct_store c) in (r, set_store st c)).
Definition store_try {A} (m : SM A) : ProgR A :=
  let+ r := store_atom m in lift (map_err startup_store_error r).
Definition saved (agent_id : string) : Prog (option StoredAgentStartup) := peek (fun c => StartupStore.get agent_id (ct_store c)).
Definition denied (agent_id : string) : Prog bool := peek (fun c => is_denied agent_id (ct_store c)).

Definition require_not_denied (agent_id : string) : ProgR unit :=
  let+ d := denied agent_id in
  if d : bool then throw (protocol_error "agent_identity_denied" "Agent identity was permanently denied") else ok tt.

(** ** Taking over a process of the Host *)

Definition exited_cleanly (p : HostProcessInfo) : bool := bool_decide (hpi_exit_code p = Some 0).

(** A record of a later run, or of a process started later. *)
Definition is_newer (current : AgentInfo) (generation started_at : Z) : bool :=
  (generation <? ag_run_generation current) || (is_some (ag_pid current) && (started_at <? ag_started_at current)).

(** The part under the registry lock: the record that results, and whether the process was taken
    over. *)
Definition publish (process : HostProcessInfo) (metadata : AgentMetadata) (inventory_only : bool)
    (bound : Result Z string) (agent : ControllerAgent) (c : Ctl) : Result (bool * AgentInfo) ProtocolError * Ctl :=
  let id := am_agent_id metadata in
  if is_denied id (ct_store c) then (Err (protocol_error "agent_identity_denied" "Agent identity was permanently denied"), c)
  else
    let '(r, c) :=
      if hpi_running process then
        match am_http_proxy_port metadata with
        | Some port =>
            let '(r, c) := ensure_entry id (ca_workload_credential agent) (Some port) bound c in
            (match r with Ok _ => Ok tt | Err e => Err e end, c)
        | None => (Ok tt, c)
        end
      else (Ok tt, remove_proxy id c) in
    match r with
    | Err e => (Err e, c)
    | Ok _ =>
        match ct_agents c !! id with
        | None => (Ok (true, ca_info agent), put_agent id agent c)
        | Some (mkSlot _ true) => (Err (state_error "agent state lock poisoned"), c)
        | Some (mkSlot current false) =>
            if is_newer (ca_info current) (ag_run_generation (ca_info agent)) (ag_started_at (ca_info agent))
            then (Ok (false, ca_info current), c)
            else
              let agent :=
                if (ca_stream_epoch current =s ca_stream_epoch agent)
                   && (ag_run_generation (ca_info current) =? ag_run_generation (ca_info agent))
                then
                  let agent :=
                    if inventory_only || (ag_output_revision (ca_info agent) <? ag_output_revision (ca_info current))
                    then set_info (info_revision (Z.max (ag_output_revision (ca_info agent))
                                                    (ag_output_revision (ca_info current))) (ca_info agent))
                           (set_text (ca_text current) agent)
                    else agent in
                  set_queue (ca_prompt_queue current) agent
                else agent in
              (Ok (true, ca_info agent), put_agent id agent c)
        end
    end.

(** A clean exit of a workload that is no App turns its saved launch off. *)
Definition disable_completed (info : AgentInfo) (process : HostProcessInfo) : ProgR unit :=
  if exited_cleanly process && negb (ag_kind info =s "app") then
    let+ entry := saved (ag_agent_id info) in
    match entry with
    | Some entry =>
        if as_generation (se_spec entry) <=? ag_run_generation info
        then store_try (upsert (set_spec (spec_enabled false) entry)) else ok tt
    | None => ok tt
    end
  else ok tt.

(** The status of a process that is taken over. *)
Definition restored_status (process : HostProcessInfo) (text : string) : Prog AgentStatus :=
  if hpi_running process then
    match detect_status to_lowercase text with
    | Some s => Done s
    | None =>
        let+ now := ask AskUtc in
        Done (if QUIET_IDLE_AFTER / 1000000 <=? now - hpi_last_output_at process then Idle else Working)
    end
  else Done Exited.

Definition restored_agent (process : HostProcessInfo) (metadata : AgentMetadata) (text : string) (status : AgentStatus)
    (interface : option AgentInterfaceDescriptor) (now instant : Z) : ControllerAgent :=
  let info := mkAgentInfo None (am_agent_id metadata) (am_run_generation metadata) (am_workspace_id metadata)
    (am_server_id metadata) (am_kind metadata) (am_name metadata) (hpi_cwd process) status (hpi_pid process)
    (hpi_started_at process) now (hpi_exited_at process) (hpi_exit_code process)
    (saturating_sub (hpi_next_revision process) 1) interface in
  mkControllerAgent (hpi_stream_epoch process) info (am_workload_credential metadata) text []
    (hpi_bracketed_paste process) (activity_new status instant) instant.

(** What follows the publication. *)
Definition after_publish (process : HostProcessInfo) (taken : bool) (info : AgentInfo) : ProgR AgentInfo :=
  if negb taken then ok info
  else
    (if negb (hpi_running process)
     then remove_cached_interface (ag_agent_id info) ;+ disable_completed info process
     else ok tt) ;*
    emit info ;+
    ok info.

Definition upsert_newer (process : HostProcessInfo) (metadata : AgentMetadata) (restored_text : option string)
    : ProgR AgentInfo :=
  if negb (am_workspace_id metadata =s cf_workspace_id cfg) || negb (am_server_id metadata =s cf_server_id cfg)
  then throw (protocol_error "host_identity_mismatch" "host process metadata belongs to another controller")
  else
    let text := default "" restored_text in
    let+ status := restored_status process text in
    let+ interface := peek (fun c => if hpi_running process
                                     then try_lock (am_agent_id metadata) c ≫= (fun a => ag_interface (ca_info a))
                                     else None) in
    let+ now := ask AskUtc in
    let+ instant := ask AskInstant in
    let+ bound := ask (AskBind (am_http_proxy_port metadata)) in
    let agent := restored_agent process metadata text status interface now instant in
    let* published := atom (publish process metadata (negb (is_some restored_text)) bound agent) in
    after_publish process published.1 published.2.

Definition upsert_process (process : HostProcessInfo) (restored_text : option string) : ProgR AgentInfo :=
  require_not_denied (hpi_process_id process) ;*
  let* metadata := lift (map_err (protocol_error "invalid_host_metadata") (decode_metadata (hpi_metadata process))) in
  let+ current := peek (try_lock (hpi_process_id process)) in
  match current with
  | Some current =>
      if is_newer (ca_info current) (am_run_generation metadata) (hpi_started_at process)
      then ok (ca_info current)
      else upsert_newer process metadata restored_text
  | None => upsert_newer process metadata restored_text
  end.

Definition decode_replay (replay : HostOutputReplay) : bytes := or_chunks replay ≫= oc_data.
Definition plain_text (replay : HostOutputReplay) : string := plain (decode_replay replay).
Definition restore_process (process : HostProcessInfo) (replay : HostOutputReplay) : ProgR unit :=
  upsert_process process (Some (plain_text replay)) ;* ok tt.

(** ** The answer to a request *)

(** The assignments under the lock: the record that results and whether it is published. *)
Definition apply_response (process : HostProcessInfo) (status : option AgentStatus) (now : Time) (a : ControllerAgent)
    : (AgentInfo * bool) * ControllerAgent :=
  let info := ca_info a in
  let changed := is_some status || negb (bool_decide (ag_exited_at info = hpi_exited_at process))
                 || negb (bool_decide (ag_exit_code info = hpi_exit_code process)) in
  let info := info_exit (hpi_exited_at process) (hpi_exit_code process)
                (info_status (default (ag_status info) status) info) in
  if negb changed then ((info, false), set_info info a)
  else
    let info := agent_updated_at info now in
    let info := if is_terminal (ag_status info) then info_interface None info else info in
    ((info, true), set_info info a).

Definition process_response (response : HostResponse) (status : option AgentStatus) : ProgR AgentInfo :=
  match response with
  | RespProcess process =>
      let+ now := ask AskUtc in
      let* applied := with_agent (hpi_process_id process) "agent state lock poisoned" (apply_response process status now) in
      let '(info, changed) := applied in
      if negb changed then ok info
      else
        (if is_terminal (ag_status info)
         then remove_cached_interface (ag_agent_id info) ;+ poke (remove_proxy (ag_agent_id info))
         else Done tt) ;+
        emit info ;+
        ok info
  | _ => throw (protocol_error "host_protocol_error" "operation returned an unexpected response")
  end.

(** ** Output *)

Definition trim_text (text : string) : string :=
  if Nat.leb (String.length text) (OUTPUT_LIMIT_BYTES + OUTPUT_TRIM_SLACK_BYTES) then text
  else recent_text text OUTPUT_LIMIT_BYTES.

Definition owns_status (info : AgentInfo) : bool := is_some_and (ag_interface info) (fun i => supports i "state.observe").

(** Appending a chunk to a record: the record and whether an event is published. *)
Definition append_chunk (chunk : HostOutputChunk) (instant : Z) (a : ControllerAgent) : bool * ControllerAgent :=
  let text_of := plain (oc_data chunk) in
  let a := set_bracketed (oc_bracketed_paste chunk) (set_text (trim_text (ca_text a +:+ text_of)) a) in
  let info := info_revision (oc_revision chunk) (ca_info a) in
  let previous := ag_status info in
  let '(filtered, activity) := observe to_lowercase content_hash instant previous text_of (ca_text a) (ca_activity a) in
  let info := if negb (is_terminal previous) && negb (owns_status info) then info_status filtered info else info in
  let info := agent_updated_at info (oc_emitted_at chunk) in
  let a := set_info info (set_activity activity a) in
  let should_emit := negb (bool_decide (previous = ag_status info))
                     || (OUTPUT_METADATA_INTERVAL <=? duration_since instant (ca_last_metadata_event a)) in
  (should_emit, if should_emit then set_metadata_event instant a else a).

Definition apply_output_to (chunk : HostOutputChunk) (instant : Z) (c : Ctl) : bool * Ctl :=
  match try_lock (oc_process_id chunk) c with
  | None => (true, c)
  | Some a =>
      if negb (ca_stream_epoch a =s oc_stream_epoch chunk) then (false, c)
      else
        let '(should_emit, a) := append_chunk chunk instant a in
        let c := put_agent (oc_process_id chunk) a c in
        (true, if should_emit then push_event (ca_info a) c else c)
  end.

Definition apply_output (chunk : HostOutputChunk) : Prog unit :=
  let+ instant := ask AskInstant in
  let+ relay := atom (apply_output_to chunk instant) in
  if relay : bool then poke (push_terminal_event (mkTerminalOutput (oc_process_id chunk) (oc_revision chunk) (oc_data chunk)))
  else Done tt.

(** ** Process events *)

Definition event_generation (process : HostProcessInfo) : Z :=
  match decode_metadata (hpi_metadata process) with Ok m => am_run_generation m | Err _ => 0 end.

(** What the record of a process says about an event: stale, a new run, or the same run. *)
Inductive EventAge : Type := Stale | NewRun | SameRun.
Definition event_age (process : HostProcessInfo) (a : ControllerAgent) : EventAge :=
  let generation := event_generation process in
  if is_newer (ca_info a) generation (hpi_started_at process)
     || (negb (ca_stream_epoch a =s hpi_stream_epoch process) && (ag_started_at (ca_info a) =? hpi_started_at process))
  then Stale
  else if (ag_run_generation (ca_info a) <? generation)
          || (hpi_running process && negb (ca_stream_epoch a =s hpi_stream_epoch process))
  then NewRun else SameRun.

Definition apply_exit (process : HostProcessInfo) (now : Time) (a : ControllerAgent) : AgentInfo * ControllerAgent :=
  let info := info_exit (hpi_exited_at process) (hpi_exit_code process) (info_pid (hpi_pid process) (ca_info a)) in
  let info := if negb (hpi_running process) then info_interface None (info_status Exited info) else info in
  let info := agent_updated_at info now in
  (info, set_info info a).

(** [let _ = self.upsert_process(..)] *)
Definition ignore {A} (p : ProgR A) : Prog unit := bind p (fun _ => Done tt).

(** The tail of [apply_process] for an event of the known run. *)
Definition apply_same_run (process : HostProcessInfo) : Prog unit :=
  let id := hpi_process_id process in
  let+ is_agent := peek (fun c => is_some_and (StartupStore.get id (ct_store c)) (fun e => negb (as_kind (se_spec e) =s "app"))) in
  (if negb (hpi_running process) && exited_cleanly process && is_agent then
     let+ entry := saved id in
     match entry with
     | Some entry => store_atom (upsert (set_spec (spec_enabled false) entry)) ;+ Done tt
     | None => Done tt
     end
   else Done tt) ;+
  (if negb (hpi_running process) then poke (remove_proxy id) else Done tt) ;+
  emit_process process ;+
  let+ present := peek (known id) in
  if negb present then ignore (upsert_process process None)
  else
    let+ now := ask AskUtc in
    let+ applied := with_agent id "" (apply_exit process now) in
    match applied with
    | Err _ => Done tt
    | Ok info =>
        (if negb (hpi_running process) then remove_cached_interface (ag_agent_id info) else Done tt) ;+
        emit info
    end.

Definition apply_process (process : HostProcessInfo) : Prog unit :=
  let generation := event_generation process in
  let+ superseded := peek (fun c => is_some_and (StartupStore.get (hpi_process_id process) (ct_store c))
                                      (fun e => generation <? as_generation (se_spec e))) in
  if superseded : bool then Done tt
  else
    let+ current := peek (try_lock (hpi_process_id process)) in
    match from_option (event_age process) SameRun current with
    | Stale => Done tt
    | NewRun => emit_process process ;+ ignore (upsert_process process None)
    | SameRun => apply_same_run process
    end.

(** One pass of [start_idle_monitor] over one record. *)
Definition idle_tick (instant : Z) (now : Time) (a : ControllerAgent) : option AgentInfo * ControllerAgent :=
  let info := ca_info a in
  let '(filtered, activity) := tick instant (ag_status info) (ca_activity a) in
  let a := set_activity activity a in
  if negb (owns_status info) && negb (is_terminal (ag_status info)) && negb (bool_decide (filtered = ag_status info))
  then let info := agent_updated_at (info_status filtered info) now in (Some info, set_info info a)
  else (None, a).
Definition tick_agent (agent_id : string) (instant : Z) (now : Time) (c : Ctl) : unit * Ctl :=
  match try_lock agent_id c with
  | None => (tt, c)
  | Some a =>
      let '(event, a) := idle_tick instant now a in
      let c := put_agent agent_id a c in
      (tt, from_option (fun info => push_event info c) c event)
  end.
Fixpoint idle_pass (ids : list string) : Prog unit :=
  match ids with
  | [] => Done tt
  | id :: ids' =>
      let+ instant := ask AskInstant in
      let+ now := ask AskUtc in
      atom (tick_agent id instant now) ;+ idle_pass ids'
  end.
Definition idle_monitor_tick : Prog unit :=
  let+ ids := peek (fun c => fst <$> map_to_list (ct_agents c)) in idle_pass ids.

(** ** Lists and status *)

Definition list_agents (c : Ctl) : list AgentInfo :=
  sort_ids (fst <$> map_to_list (ct_agents c)) ≫= (fun id => from_option (fun a => [ca_info a]) [] (try_lock id c)).

Definition connection_state (s : ProxyLinkStatus) : string :=
  if pl_connected s then "online"
  else if bool_decide (pl_last_error_code s = Some "duplicate_machine_connection") then "fenced" else "local".

Definition should_replace_virtual_hosts (current : option VirtualNetworkHostsSnapshot)
    (incoming : VirtualNetworkHostsSnapshot) : bool :=
  is_none_or current (fun current => vh_revision current <? vh_revision incoming).
Definition replace_virtual_hosts (snapshot : VirtualNetworkHostsSnapshot) : ProgR bool :=
  if negb (vh_workspace_id snapshot =s cf_workspace_id cfg)
  then throw (protocol_error "workspace_mismatch" "virtual-host snapshot belongs to another workspace")
  else
    atom (fun c =>
      if negb (should_replace_virtual_hosts (ct_virtual_hosts c) snapshot) then (Ok false, c)
      else (Ok true, set_virtual_hosts (Some snapshot) c)).
Definition reset_virtual_hosts : ProgR unit := poke (set_virtual_hosts None) ;+ ok tt.

Definition workload_credential_matches (expected supplied : string) : bool :=
  negb (is_empty expected) && (str_len expected =? str_len supplied) && (expected =s supplied).
Definition authenticate_agent (agent_id credential : string) : ProgR AgentInfo :=
  let* a := peek (lock_agent agent_id "agent lock poisoned") in
  if negb (workload_credential_matches (ca_workload_credential a) credential)
  then throw (protocol_error "invalid_workload_credential" "workload credential does not match the managed agent")
  else ok (ca_info a).
End Controller.
