(* ===== verification/ControllerLife.v ===== *)
(** * Launching, stopping and restoring workloads (crates/treer-agent-server/src/controller.rs)

    Every operation of this file runs under the recovery lock of the Controller (clearing a saved
    launch apart), so two of them never overlap; the records change under them through the events
    of the Host. *)

From stdpp Require Import gmap pretty sorting.
From S2P Require Import Prelude RustStr Protocol HostProtocol Activity ProxyTypes.
From S2P Require Import StartupStore PrivateState ControllerTypes Controller.
Local Open Scope Z_scope.
Local Open Scope prog_scope.

(** ** Resolving a launch (controller_launch.rs) *)

Definition validate_publish_ports (ports : list Z) : Result (list Z) ProtocolError :=
  match ports with
  | [] => Ok []
  | _ => Err (protocol_error "sandbox_ports_retired"
           "Namespace port publication is retired; bind a Controller-reachable port and register it with treer service register")
  end.

Definition launch_kind (kind : string) : bool :=
  existsb (fun k => k =s kind) ["shell"; "command"; "app"; "bridge"]%string.

Definition resolve_launch (shell : string) (request : CreateAgentRequest) : Result (string * AgentLaunch) ProtocolError :=
  if negb (launch_kind (cr_kind request))
  then Err (protocol_error "agent_kind_retired"
         "Provider-specific and auto Agent kinds are retired; select a launch profile or pass kind=command with an explicit executable and argv")
  else
    let? _ports := validate_publish_ports (cr_publish_ports request) in
    let '(command, args) := match cr_args request with
                            | [] => (shell, ["-i"%string])
                            | command :: args => (command, args)
                            end in
    if is_empty (trim command)
    then Err (protocol_error "invalid_request" "Agent executable must not be empty")
    else Ok (cr_kind request, mkAgentLaunch command args [] []).

Definition invalid_command (command : string) : bool :=
  is_empty command || contains_char "/" command || contains_char "\" command || contains_char ":" command
  || (command =s ".") || (command =s "..") || existsb is_control (chars command)
  || ends_with_char "." command || ends_with_char " " command.

Definition join_path (directory name : string) : string :=
  if ends_with_char "/" directory then directory +:+ name else directory +:+ "/" +:+ name.

Definition command_not_found (command : string) : ProtocolError :=
  protocol_error "command_not_found"
    ("executable not found in absolute PATH directories: " +:+ concat_str (firstn 128 (chars command))
     +:+ (if (command =s "treer-launch") || (command =s "treer-agent")
          then "; install the Agent launcher on this machine (treer-agent-server launcher install)" else "")).

Fixpoint search_command (command : string) (directories : list string) : ProgR string :=
  match directories with
  | [] => throw (command_not_found command)
  | directory :: rest =>
      if negb (starts_with "/" directory) then search_command command rest
      else
        let candidate := join_path directory command in
        let+ executable := ask (AskExecutable candidate) in
        if executable : bool then ok candidate else search_command command rest
  end.

Definition resolve_agent_command (command : string) (environment : gmap string string) : ProgR string :=
  if starts_with "/" command then ok command
  else if invalid_command command
  then throw (protocol_error "invalid_command_path"
         "use an absolute executable path or a bare executable name; relative command paths are not supported")
  else search_command command (split_on ":" (default "" (environment !! "PATH"))).

(** ** The environment of a process *)

Fixpoint unique (seen : list string) (l : list string) : list string :=
  match l with
  | [] => []
  | x :: l' => if existsb (fun y => y =s x) seen then unique seen l' else x :: unique (x :: seen) l'
  end.

(** [join_paths] fails when a path holds the separator. *)
Definition join_agent_path (cfg : Config) : string :=
  let paths := unique [] (from_option (fun binary => [binary.2]) [] (cf_treer_binary cfg) ++ split_on ":" (cf_search_path cfg)) in
  if existsb (contains_char ":") paths then cf_search_path cfg else join ":" paths.

Definition process_environment (cfg : Config) (agent : option (string * string)) : gmap string string :=
  let env : gmap string string :=
    <["TREER_AGENT_SERVER_URL" := cf_agent_server_url cfg]>
      (<["TREER_PROXY_URL" := cf_proxy_public_url cfg]>
        (<["TREER_SERVER_ID" := cf_server_id cfg]> {["TREER_WORKSPACE_ID" := cf_workspace_id cfg]}))%string in
  let env :=
    match agent with
    | Some (agent_id, credential) =>
        <["TREER_WORKLOAD_CREDENTIAL" := credential]>
          (<["TREER_AGENT_ID" := agent_id]> (<["TREER_IDENTITY_MODE" := "agent"]> env))
    | None => env
    end%string in
  let env := from_option (fun binary => <["TREER_BIN"%string := binary.1]> env) env (cf_treer_binary cfg) in
  <["PATH"%string := join_agent_path cfg]> env.

(** [workload_proxy::inject_environment] *)
Definition inject_environment (cfg : Config) (port : Z) (env : gmap string string) : gmap string string :=
  let url := ("http://127.0.0.1:" +:+ pretty port)%string in
  let env := foldl (fun env key => <[key := url]> env) env
               ["http_proxy"; "https_proxy"; "HTTP_PROXY"; "HTTPS_PROXY"; "TREER_HTTP_PROXY"]%string in
  let bypass := ("localhost,127.0.0.1,::1" +:+ (if is_empty (cf_no_proxy cfg) then "" else "," +:+ cf_no_proxy cfg))%string in
  <["NO_PROXY"%string := bypass]> (<["no_proxy"%string := bypass]> env).

Inductive PrivateStateStatus : Type := Available (directory : string) | Unavailable.

Definition root_unavailable (code : string) : ProtocolError :=
  protocol_error code "Agent private state root is unavailable on this Controller".
(** A question about the private-state root, when there is one ([private_state_root]). *)
Definition with_root {A} (cfg : Config) (q : Sys (Result A ProtocolError)) : ProgR A :=
  match cf_private_root cfg with Ok _ => ask q | Err code => throw (root_unavailable code) end.
Definition measured_ok (m : Result Measurement ProtocolError) : option Measurement :=
  match m with Ok m => Some m | Err _ => None end.

(** The directory of a workload; [None] is a path that is not Unicode. *)
Definition private_state_status (cfg : Config) (agent_id : string) (create : bool) : ProgR PrivateStateStatus :=
  let+ prepared := with_root cfg (if create then AskPrepare agent_id else AskVerify agent_id) in
  match prepared with
  | Err error => if pe_code error =s "agent_private_state_unavailable" then ok Unavailable else throw error
  | Ok None => ok Unavailable
  | Ok (Some directory) =>
      (if create
       then
         let+ measurement := with_root cfg (AskMeasure agent_id) in
         poke (fun c => set_ledger (record agent_id (measured_ok measurement) (ct_ledger c)) c)
       else Done tt) ;+
      ok (Available directory)
  end.

Definition inject_private_state (cfg : Config) (env : gmap string string) (agent_id : string) : ProgR (gmap string string) :=
  let* status := private_state_status cfg agent_id true in
  match status with
  | Available directory => ok (<["TREER_AGENT_PRIVATE_STATE_DIR"%string := directory]> env)
  | Unavailable => ok env
  end.

Definition is_hexdigit (a : ascii) : bool :=
  let x := byte_val a in between 48 x 57 || between 65 x 70 || between 97 x 102.
Definition valid_workload_credential (credential : string) : bool :=
  starts_with "wlc_" credential && (str_len credential =? 68)
  && all_bytes is_hexdigit (String.substring 4 (String.length credential - 4) credential).

(** [resolve_machine_directory] *)
Definition resolve_machine_directory (requested : string) : ProgR unit :=
  let requested := if is_empty (trim requested) then "."%string else requested in
  if starts_with "/" requested
  then throw (protocol_error "invalid_machine_path" "directory must be relative to the machine root")
  else
    let+ resolved := ask (AskDirectory requested) in
    match resolved with
    | Err text => throw (protocol_error "invalid_machine_path" ("directory is unavailable: " +:+ text))
    | Ok inside =>
        if inside : bool then ok tt
        else throw (protocol_error "invalid_machine_path"
               "directory resolves outside the machine root or is not a directory")
    end.

(** ** Requests to replace a launch (treer-protocol/src/workloads.rs) *)

Definition nul : ascii := Ascii.ascii_of_N 0.
Definition hex_run (s : string) : bool := (str_len s =? 64) && all_bytes is_hexdigit s.
(** A credential: one of the prefixes with 64 hexadecimal digits behind it, anywhere. *)
Fixpoint embeds_credential (s : string) : bool :=
  match s with
  | EmptyString => false
  | String _ s' =>
      existsb (fun prefix => is_some_and (strip_prefix prefix s) (fun rest => hex_run (String.substring 0 64 rest)))
        ["wlc_"; "opc_"]%string
      || embeds_credential s'
  end.

Definition opt_list {A} (o : option A) : list A := from_option (fun x => [x]) [] o.
Definition validate_replace (r : ReplaceAgentStartupRequest) : Result unit ProtocolError :=
  if is_empty (trim (rsr_command r)) || is_some_and (rsr_cwd r) (contains_char nul)
     || existsb (contains_char nul) (rsr_command r :: rsr_args r)
  then Err (protocol_error "invalid_agent_startup" "startup command must be nonempty and paths/argv must not contain NUL")
  else if existsb embeds_credential (rsr_command r :: rsr_args r ++ opt_list (rsr_cwd r))
  then Err (protocol_error "invalid_agent_startup" "startup spec must not contain workload or operator credentials")
  else Ok tt.

Section Life.
Context (cfg : Config) `{StartupJson} `{CtlText}.

Definition hosts (e : StoredAgentStartup) : bool :=
  (se_workspace_id e =s cf_workspace_id cfg) && (as_server_id (se_spec e) =s cf_server_id cfg).

Definition host_call (command : HostCommand) (operation_id : option string) : ProgR HostResponse :=
  let+ r := ask (AskHost command operation_id) in lift (map_err host_error r).
Definition host_sync : ProgR HostResponse := host_call (CmdSync ∅) None.

(** ** Starting a process *)

Definition metadata_json (m : AgentMetadata) : ProgR string :=
  lift (map_err (protocol_error "metadata_error") (encode_metadata m)).

(** A spawn that fails gives the proxy entry back unless the workload runs. *)
Definition spawn_process (request : HostSpawnRequest) (operation_id : string) : ProgR HostResponse :=
  let id := hsr_process_id request in
  let+ r := ask (AskHost (CmdSpawn request) (Some operation_id)) in
  match r with
  | Ok response => ok response
  | Err text =>
      let+ running := peek (fun c => running_agent (try_lock id c)) in
      (if running : bool then Done tt else poke (remove_proxy id)) ;+
      throw (host_error text)
  end.

(** [materialize_startup] *)
Definition materialized (entry : StoredAgentStartup) (now instant : Z) : ControllerAgent :=
  let spec := se_spec entry in
  let info := mkAgentInfo None (as_agent_id spec) (as_generation spec) (se_workspace_id entry) (as_server_id spec)
    (as_kind spec) (as_name spec) (as_cwd spec) Exited None now now None None 0 None in
  mkControllerAgent "" info (se_workload_credential entry) "" [] false (activity_new Exited instant) instant.
Definition materialize_startup (entry : StoredAgentStartup) : ProgR AgentInfo :=
  let id := entry_id entry in
  let+ present := peek (known id) in
  if present : bool then let* a := peek (lock_agent id "agent lock poisoned") in ok (ca_info a)
  else
    let+ now := ask AskUtc in
    let+ instant := ask AskInstant in
    let a := materialized entry now instant in
    poke (put_agent id a) ;+
    emit (ca_info a) ;+
    ok (ca_info a).

Definition startup_operation (epoch : string) (entry : StoredAgentStartup) : string :=
  "startup:" +:+ epoch +:+ ":" +:+ entry_id entry +:+ ":" +:+ pretty (as_generation (se_spec entry)).

(** [spawn_startup] *)
Definition spawn_startup (entry : StoredAgentStartup) : ProgR AgentInfo :=
  let spec := se_spec entry in
  let id := as_agent_id spec in
  match as_publish_ports spec with
  | _ :: _ =>
      throw (protocol_error "startup_migration_required"
        "legacy namespace port publications cannot be restored; update the startup command and register an explicit machine service")
  | [] =>
      let env := process_environment cfg (Some (id, se_workload_credential entry)) in
      let* command := resolve_agent_command (as_command spec) env in
      let* env := inject_private_state cfg env id in
      let* proxy_port := ensure id (se_workload_credential entry) None in
      let* metadata := metadata_json (mkAgentMetadata id (as_generation spec) (cf_workspace_id cfg) (cf_server_id cfg)
                         (as_kind spec) (as_name spec) (as_cwd spec) (se_workload_credential entry) (Some proxy_port)) in
      let+ epoch := peek ct_host_epoch in
      let operation := startup_operation epoch entry in
      let* response := spawn_process (mkHostSpawnRequest id command (as_args spec) (as_cwd spec)
                         (inject_environment cfg proxy_port env) (se_cols entry) (se_rows entry) metadata) operation in
      match response with
      | RespProcess process =>
          let* info := upsert_process cfg process None in
          (match se_initial_writes entry with
           | [] => ok tt
           | writes => host_call (CmdWrite id writes) (Some (operation +:+ ":launch")) ;* ok tt
           end) ;*
          ok info
      | _ => throw (protocol_error "host_protocol_error" "startup spawn returned an unexpected response")
      end
  end.

(** [create] *)
Definition not_installed (command agent_id : string) (error : ProtocolError) : ProtocolError :=
  mkProtocolError (pe_hint error) (pe_code error) "Required executable is not installed on this machine"
    (Some (mkAgentCreationErrorDetails (agent_install_command_name command) None (Some agent_id) NotStarted)).

(** The resolved command; a missing executable of a workload that never existed is reported as such. *)
Definition resolve_for_create (command agent_id : string) (env : gmap string string) : ProgR string :=
  let+ r := resolve_agent_command command env in
  match r with
  | Ok command => ok command
  | Err error =>
      let+ absent := peek (fun c => negb (is_some (StartupStore.get agent_id (ct_store c))) && negb (known agent_id c)) in
      throw (if (pe_code error =s "command_not_found") && absent then not_installed command agent_id error else error)
  end.

Definition create (operation_id agent_id workload_credential : string) (request : CreateAgentRequest) : ProgR AgentInfo :=
  require_not_denied agent_id ;*
  if is_empty (trim (cr_name request)) then throw (protocol_error "invalid_request" "agent name cannot be empty")
  else
    let* kl := lift (resolve_launch (cf_interactive_shell cfg) request) in
    let '(kind, launch) := kl in
    if negb (valid_workload_credential workload_credential)
    then throw (protocol_error "invalid_workload_credential" "Proxy supplied an invalid workload credential")
    else
      let env := process_environment cfg (Some (agent_id, workload_credential)) in
      let* command := resolve_for_create (al_command launch) agent_id env in
      let+ epoch := peek ct_host_epoch in
      let+ entry := saved agent_id in
      (if is_some entry then ok tt
       else store_try (upsert (mkStoredAgentStartup 0
              (mkAgentStartupSpec agent_id (cf_server_id cfg) kind (cr_name request) (cr_cwd request)
                 (al_command launch) (al_args launch) (al_publish_ports launch) true 1)
              (cf_workspace_id cfg) workload_credential epoch (al_initial_writes launch) (cr_cols request) (cr_rows request)))) ;*
      let* env := inject_private_state cfg env agent_id in
      let* proxy_port := ensure agent_id workload_credential None in
      let+ entry := saved agent_id in
      let generation := from_option (fun e => as_generation (se_spec e)) 1 entry in
      let* metadata := metadata_json (mkAgentMetadata agent_id generation (cf_workspace_id cfg) (cf_server_id cfg)
                         kind (cr_name request) (cr_cwd request) workload_credential (Some proxy_port)) in
      let* response := spawn_process (mkHostSpawnRequest agent_id command (al_args launch) (cr_cwd request)
                         (inject_environment cfg proxy_port env) (cr_cols request) (cr_rows request) metadata) operation_id in
      match response with
      | RespProcess process =>
          let+ present := peek (known (hpi_process_id process)) in
          let* agent := (if present : bool
                         then let* a := peek (lock_agent (hpi_process_id process) "agent state lock poisoned") in ok (ca_info a)
                         else upsert_process cfg process None) in
          match al_initial_writes launch with
          | [] => ok agent
          | writes =>
              let* response := host_call (CmdWrite (ag_agent_id agent) writes) (Some (operation_id +:+ ":launch")) in
              process_response response (Some Working)
          end
      | _ => throw (protocol_error "host_protocol_error" "spawn returned an unexpected response")
      end.

(** ** Starting a saved workload *)

(** The processes of the inventory named [agent_id] that run: each is taken over, and stopped for a
    restart; without one, the first ends the start. *)
Fixpoint start_inventory (operation_id agent_id : string) (restart : bool) (processes : list HostProcessInfo)
    : ProgR (option AgentInfo) :=
  match processes with
  | [] => ok None
  | process :: rest =>
      if (hpi_process_id process =s agent_id) && hpi_running process then
        let* info := upsert_process cfg process None in
        if negb restart then
          let+ epoch := peek ct_host_epoch in
          store_try (update agent_id (fun entry => set_host_epoch epoch (set_spec (spec_enabled true) entry))) ;*
          ok (Some info)
        else
          let* response := host_call (CmdStop agent_id) (Some (operation_id +:+ ":stop")) in
          process_response response (Some Exited) ;*
          start_inventory operation_id agent_id restart rest
      else start_inventory operation_id agent_id restart rest
  end.

Definition next_generation (epoch : string) (entry : StoredAgentStartup) : StoredAgentStartup :=
  set_host_epoch epoch (set_spec (fun s => spec_generation (saturating_add (as_generation s) 1) (spec_enabled true s)) entry).

Definition start_locked (operation_id agent_id : string) (restart : bool) : ProgR AgentInfo :=
  let* response := host_sync in
  let* adopted := start_inventory operation_id agent_id restart
                    (match response with RespSynced _ _ processes _ => processes | _ => [] end) in
  match adopted with
  | Some info => ok info
  | None =>
      let+ entry := saved agent_id in
      let* entry := lift (ok_or entry (protocol_error "startup_not_found" "no saved launch for workload")) in
      let+ epoch := peek ct_host_epoch in
      let entry := next_generation epoch entry in
      store_try (upsert entry) ;*
      spawn_startup entry
  end.

(** ** Saved launches *)

Definition no_such_launch : ProtocolError :=
  protocol_error "startup_not_found" "App has no saved startup; retry after lifecycle synchronization".
Definition app_managed : ProtocolError :=
  protocol_error "app_startup_managed"
    "App startup is managed by its deployment; edit the App deployment instead".

Definition mentions_credential (entry : StoredAgentStartup) (values : list string) : bool :=
  negb (is_empty (se_workload_credential entry)) && existsb (contains_str (se_workload_credential entry)) values.

Definition checked_app_startup (agent_id : string) (request : ReplaceAgentStartupRequest) : ProgR StoredAgentStartup :=
  lift (validate_replace request) ;*
  let+ entry := saved agent_id in
  let* entry := lift (ok_or entry no_such_launch) in
  if negb (as_kind (se_spec entry) =s "app") || negb (hosts entry)
  then throw (protocol_error "app_startup_mismatch" "startup does not belong to this App Controller")
  else if mentions_credential entry (rsr_command request :: rsr_args request ++ opt_list (rsr_cwd request))
  then throw (protocol_error "invalid_agent_startup" "startup must not contain the workload credential")
  else resolve_machine_directory (default (as_cwd (se_spec entry)) (rsr_cwd request)) ;* ok entry.
Definition check_app_startup (agent_id : string) (request : ReplaceAgentStartupRequest) : ProgR unit :=
  checked_app_startup agent_id request ;* ok tt.

(** What a new revision of an App does to its saved launch. *)
Inductive AppRevision : Type := StaleRevision | SameRevision | ConflictingRevision | NewRevision (entry : StoredAgentStartup).
Definition same_launch (request : ReplaceAgentStartupRequest) (spec : AgentStartupSpec) : bool :=
  (as_command spec =s rsr_command request) && bool_decide (as_args spec = rsr_args request)
  && is_none_or (rsr_cwd request) (fun cwd => cwd =s as_cwd spec).
Definition app_revision (request : ReplaceAgentStartupRequest) (revision : Z) (entry : StoredAgentStartup) : AppRevision :=
  if (revision <? se_app_revision entry) || (revision =? 0) then StaleRevision
  else if revision =? se_app_revision entry then
    if same_launch request (se_spec entry) then SameRevision else ConflictingRevision
  else
    let launch s := spec_launch (rsr_command request) (rsr_args request) s in
    let place s := from_option (fun cwd => spec_cwd cwd s) s (rsr_cwd request) in
    NewRevision (clear_initial_writes (set_app_revision revision (set_spec (fun s => place (launch s)) entry))).

Definition save_app_startup_locked (agent_id : string) (request : ReplaceAgentStartupRequest) (revision : Z)
    : ProgR (StoredAgentStartup * bool) :=
  let* entry := checked_app_startup agent_id request in
  match app_revision request revision entry with
  | StaleRevision =>
      throw (protocol_error "stale_app_startup" "a newer App startup specification is already saved")
  | ConflictingRevision =>
      throw (protocol_error "app_revision_conflict" "App revision has conflicting launch fields")
  | SameRevision => ok (entry, false)
  | NewRevision entry => store_try (upsert entry) ;* ok (entry, true)
  end.

Definition get_startup (agent_id : string) : ProgR AgentStartupSpec :=
  let+ entry := saved agent_id in
  lift (ok_or (se_spec <$> opt_filter hosts entry)
          (protocol_error "agent_startup_not_found" "Agent has not registered a startup command")).
Definition get_admin_startup (agent_id : string) : ProgR AgentStartupSpec :=
  let* spec := get_startup agent_id in
  if as_kind spec =s "app" then throw app_managed else ok spec.

Definition update_app_startup (operation_id agent_id : string) (request : ReplaceAgentStartupRequest) (revision : Z)
    : ProgR AgentStartupSpec :=
  let* saved := save_app_startup_locked agent_id request revision in
  let '(entry, changed) := saved in
  (if changed && as_enabled (se_spec entry) then start_locked operation_id agent_id true ;* ok tt else ok tt) ;*
  get_startup agent_id.

Definition dot_if_empty (cwd : string) : string := if is_empty (trim cwd) then "."%string else cwd.

(** The entry [replace_startup_locked] starts from when nothing is saved: the running workload. *)
Definition undeclared (agent_id epoch : string) (a : ControllerAgent) : StoredAgentStartup :=
  let info := ca_info a in
  mkStoredAgentStartup 0
    (mkAgentStartupSpec agent_id (cf_server_id cfg) (ag_kind info) (ag_name info) (ag_cwd info) "" [] []
       (negb (is_terminal (ag_status info))) (ag_run_generation info))
    (cf_workspace_id cfg) (ca_workload_credential a) epoch [] 120 36.

Definition replace_startup_locked (agent_id : string) (request : ReplaceAgentStartupRequest) : ProgR AgentStartupSpec :=
  lift (validate_replace request) ;*
  let+ entry := saved agent_id in
  let+ epoch := peek ct_host_epoch in
  let* entry := (match entry with
                 | Some entry => ok entry
                 | None => let* a := peek (lock_agent agent_id "agent state lock poisoned") in ok (undeclared agent_id epoch a)
                 end) in
  if as_kind (se_spec entry) =s "app" then throw app_managed
  else if negb (hosts entry)
  then throw (protocol_error "host_identity_mismatch" "saved startup belongs to another workspace or Controller")
  else if mentions_credential entry (rsr_command request :: rsr_args request)
  then throw (protocol_error "invalid_agent_startup" "startup argv must not contain the workload credential")
  else
    let* entry := (match rsr_cwd request with
                   | Some cwd => resolve_machine_directory cwd ;* ok (set_spec (spec_cwd (dot_if_empty cwd)) entry)
                   | None => ok entry
                   end) in
    let entry := clear_initial_writes (set_spec (spec_launch (rsr_command request) (rsr_args request)) entry) in
    store_try (upsert entry) ;*
    ok (se_spec entry).
Definition replace_startup := replace_startup_locked.

Definition restart_with_startup (operation_id agent_id : string) (request : ReplaceAgentStartupRequest) : ProgR AgentInfo :=
  replace_startup_locked agent_id request ;* start_locked operation_id agent_id true.

Definition set_startup (agent_id : string) (request : SetAgentStartupRequest) : ProgR AgentStartupSpec :=
  if is_empty (trim (ssr_command request))
  then throw (protocol_error "invalid_agent_startup" "startup command cannot be empty")
  else
    resolve_machine_directory (ssr_cwd request) ;*
    let* publish_ports := lift (validate_publish_ports (ssr_publish_ports request)) in
    let* a := peek (lock_agent agent_id "agent state lock poisoned") in
    let info := ca_info a in
    if is_terminal (ag_status info)
    then throw (protocol_error "agent_not_running" "only a running Agent can register its startup command")
    else
      let+ entry := saved agent_id in
      let+ epoch := peek ct_host_epoch in
      let generation := from_option (fun e => as_generation (se_spec e)) (ag_run_generation info) entry in
      let spec := mkAgentStartupSpec agent_id (cf_server_id cfg) (ag_kind info) (ag_name info) (dot_if_empty (ssr_cwd request))
                    (ssr_command request) (ssr_args request) publish_ports true generation in
      store_try (upsert (mkStoredAgentStartup 0 spec (cf_workspace_id cfg) (ca_workload_credential a) epoch [] 120 36)) ;*
      ok spec.

(** [clear_startup] does not take the recovery lock. *)
Definition clear_startup (agent_id : string) : ProgR bool := store_try (StartupStore.remove agent_id).

Definition persist_stopped_startup (agent_id : string) : ProgR unit :=
  let+ entry := saved agent_id in
  match entry with
  | Some entry => store_try (upsert (set_spec (spec_enabled false) entry))
  | None => ok tt
  end.

(** ** Stopping *)

(** The processes of the inventory named [agent_id] are taken over; whether the last one runs. *)
Fixpoint stop_inventory (agent_id : string) (running : bool) (processes : list HostProcessInfo) : ProgR bool :=
  match processes with
  | [] => ok running
  | process :: rest =>
      if hpi_process_id process =s agent_id
      then upsert_process cfg process None ;* stop_inventory agent_id (hpi_running process) rest
      else stop_inventory agent_id running rest
  end.

Definition stop (operation_id agent_id : string) : ProgR AgentInfo :=
  persist_stopped_startup agent_id ;*
  let* inventory := host_sync in
  let* running := stop_inventory agent_id false (match inventory with RespSynced _ _ processes _ => processes | _ => [] end) in
  if negb running then
    let+ present := peek (known agent_id) in
    if present : bool then let* a := peek (lock_agent agent_id "agent lock poisoned") in ok (ca_info a)
    else
      let+ entry := saved agent_id in
      match entry with
      | Some entry => materialize_startup entry
      | None => throw (protocol_error "agent_not_found" "no live process or saved launch for workload")
      end
  else
    let+ r := ask (AskHost (CmdStop agent_id) (Some operation_id)) in
    let* response := lift (map_err host_stop_error r) in
    process_response response (Some Exited).

Fixpoint apply_stopped_startups (agent_ids : list string) : ProgR unit :=
  match agent_ids with
  | [] => ok tt
  | id :: ids =>
      let+ uuid := ask AskUuid in
      stop ("proxy-stopped:" +:+ uuid) id ;* apply_stopped_startups ids
  end.
End Life.
