(* ===== verification/ControllerRecovery.v ===== *)
(** * Restoring workloads and their private state (crates/treer-agent-server/src/controller.rs)

    What the Controller does at its start, with the saved launches after a restart, with a lifecycle
    declaration, with an identity that may never be launched again, and with the private-state
    directories.  All but the private-state queries run under the recovery lock. *)

From stdpp Require Import gmap pretty sorting.
From S2P Require Import Prelude RustStr Protocol HostProtocol Activity ProxyTypes.
From S2P Require Import StartupStore PrivateState ControllerTypes Controller ControllerLife.
Local Open Scope Z_scope.
Local Open Scope prog_scope.

(** ** Data *)

(** [StartupRestoreOutcome] *)
Inductive RestoreOutcome : Type := Started (info : AgentInfo) | Attached.

Inductive RuntimeRestoreState : Type :=
| RsAttached | RsStarted | SkippedStopped | IdentityRevoked | RsFailed | WaitingEndpoint.
Record RuntimeRestoreItem : Type := mkRuntimeRestoreItem {
  ri_workload_id : string;
  ri_kind : string;
  ri_state : RuntimeRestoreState;
  ri_message : option string
}.
Record RuntimeRestoreReport : Type := mkRuntimeRestoreReport {
  rr_workspace_id : string;
  rr_server_id : string;
  rr_items : list RuntimeRestoreItem
}.

Definition processes_of (response : HostResponse) : list HostProcessInfo :=
  match response with RespSynced _ _ processes _ => processes | _ => [] end.

(** [Vec::dedup] *)
Fixpoint dedup (l : list string) : list string :=
  match l with
  | [] => []
  | x :: l' => match l' with
               | y :: _ => if x =s y then dedup l' else x :: dedup l'
               | [] => [x]
               end
  end.

Section Recovery.
Context (cfg : Config) `{StartupJson} `{CtlText}.

Definition start (operation_id agent_id : string) (restart : bool) : ProgR AgentInfo :=
  start_locked cfg operation_id agent_id restart.

(** ** Declaring a workload *)

Definition replacement_of (request : CreateAgentRequest) : ReplaceAgentStartupRequest :=
  mkReplaceAgentStartupRequest (Some (cr_cwd request)) (default "" (head (cr_args request))) (tail (cr_args request)).

(** The versioned part of [ensure_app_lifecycle]: [Some] ends the operation. *)
Definition declare_revision (operation_id agent_id : string) (request : CreateAgentRequest)
    (enabled start_missing : bool) (revision : option Z) : ProgR (option AgentInfo) :=
  match revision with
  | None => ok None
  | Some revision =>
      if (revision =? 0) || negb (cr_kind request =s "app")
      then throw (protocol_error "invalid_app_startup" "versioned lifecycle declaration must target an App")
      else
        let+ entry := saved agent_id in
        if is_some entry then
          let* result := save_app_startup_locked cfg agent_id (replacement_of request) revision in
          if result.2 && enabled && start_missing
          then let* info := start_locked cfg operation_id agent_id true in ok (Some info)
          else ok None
        else
          lift (validate_replace (replacement_of request)) ;*
          resolve_machine_directory (cr_cwd request) ;*
          ok None
  end.

(** The running processes of the inventory named [agent_id] are taken over. *)
Fixpoint adopt_running (agent_id : string) (processes : list HostProcessInfo) : ProgR unit :=
  match processes with
  | [] => ok tt
  | process :: rest =>
      (if (hpi_process_id process =s agent_id) && hpi_running process
       then upsert_process cfg process None ;* ok tt else ok tt) ;*
      adopt_running agent_id rest
  end.

(** A workload without a saved launch gets one; whether that happened. *)
Definition declare_new (agent_id : string) (workload_credential : option string) (request : CreateAgentRequest)
    (enabled start_missing : bool) (revision : option Z) : ProgR bool :=
  let+ entry := saved agent_id in
  if is_some entry then ok false
  else
    let* kl := lift (resolve_launch (cf_interactive_shell cfg) request) in
    let '(kind, launch) := kl in
    let+ live := peek (try_lock agent_id) in
    let* credential := lift (ok_or (or_else (ca_workload_credential <$> live) workload_credential)
                         (protocol_error "lifecycle_credential_missing" "no saved or live workload credential")) in
    if negb (valid_workload_credential credential)
    then throw (protocol_error "invalid_workload_credential" "invalid lifecycle credential")
    else
      let+ live := peek (try_lock agent_id) in
      let+ epoch := peek ct_host_epoch in
      let generation := default (if start_missing then 1 else 0) ((fun a => ag_run_generation (ca_info a)) <$> live) in
      store_try (upsert (mkStoredAgentStartup (default 0 revision)
        (mkAgentStartupSpec agent_id (cf_server_id cfg) kind (cr_name request) (cr_cwd request)
           (al_command launch) (al_args launch) (al_publish_ports launch) enabled generation)
        (cf_workspace_id cfg) credential epoch (al_initial_writes launch) (cr_cols request) (cr_rows request))) ;*
      ok true.

Definition turn_off (agent_id : string) : ProgR unit := store_try (update agent_id (set_spec (spec_enabled false))).

(** The last part: a workload that has a record keeps it, the others are started or given a record. *)
Definition ensure_started (agent_id : string) (enabled start_missing newly_declared : bool) : ProgR AgentInfo :=
  let+ present := peek (known agent_id) in
  let* info := (if present : bool
                then let* a := peek (lock_agent agent_id "agent lock poisoned") in ok (Some (ca_info a))
                else ok None) in
  match opt_filter (fun info => negb (is_terminal (ag_status info)) || negb enabled) info with
  | Some info => ok info
  | None =>
      let+ entry := saved agent_id in
      let* entry := lift (ok_or entry (protocol_error "startup_not_found" agent_id)) in
      if negb (as_enabled (se_spec entry)) || negb enabled || negb start_missing
      then materialize_startup entry
      else if newly_declared then spawn_startup cfg entry
      else
        let entry := set_spec (fun s => spec_generation (saturating_add (as_generation s) 1) s) entry in
        store_try (upsert entry) ;* spawn_startup cfg entry
  end.

Definition ensure_app_lifecycle (operation_id agent_id : string) (workload_credential : option string)
    (request : CreateAgentRequest) (enabled start_missing : bool) (revision : option Z) : ProgR AgentInfo :=
  require_not_denied agent_id ;*
  let* restarted := declare_revision operation_id agent_id request enabled start_missing revision in
  match restarted with
  | Some info => ok info
  | None =>
      let* inventory := host_sync in
      adopt_running agent_id (processes_of inventory) ;*
      let* newly_declared := declare_new agent_id workload_credential request enabled start_missing revision in
      (if negb start_missing then turn_off agent_id else ok tt) ;*
      (if negb enabled then turn_off agent_id else ok tt) ;*
      let+ running := peek (fun c => running_agent (try_lock agent_id c)) in
      if negb enabled && running then
        let+ r := ask (AskHost (CmdStop agent_id) (Some (operation_id +:+ ":stop"))) in
        let* response := lift (map_err host_stop_error r) in
        process_response response (Some Exited)
      else ensure_started agent_id enabled start_missing newly_declared
  end.
Definition ensure_lifecycle (operation_id agent_id : string) (workload_credential : option string)
    (request : CreateAgentRequest) (enabled start_missing : bool) : ProgR AgentInfo :=
  ensure_app_lifecycle operation_id agent_id workload_credential request enabled start_missing None.

(** ** Fencing an identity that was reserved and never used *)

Definition reservation_observed : ProtocolError :=
  protocol_error "agent_reservation_observed" "Agent has workload state; use normal lifecycle controls".
Definition fence_absent_agent_reservation (agent_id : string) : ProgR unit :=
  if negb (valid_identity agent_id) then throw (protocol_error "invalid_agent_identity" "A stable Agent ID is required")
  else
    let+ present := peek (known agent_id) in
    if present : bool then throw reservation_observed
    else
      let+ entry := saved agent_id in
      if is_some entry then throw reservation_observed
      else
        let+ r := ask (AskHost (CmdSync ∅) None) in
        match r with
        | Err _ => throw (protocol_error "host_unavailable" "Host absence could not be confirmed")
        | Ok (RespSynced _ _ processes _) =>
            if existsb (fun p => hpi_process_id p =s agent_id) processes then throw reservation_observed
            else store_try (deny_absent agent_id)
        | Ok _ => throw (protocol_error "host_protocol_error" "Host absence could not be confirmed")
        end.

(** ** Restoring the saved launches *)

(** The record follows the running process of the inventory already. *)
Definition follows (process : HostProcessInfo) (c : Ctl) : bool :=
  is_some_and (try_lock (hpi_process_id process) c) (fun a =>
    (ca_stream_epoch a =s hpi_stream_epoch process) && negb (is_terminal (ag_status (ca_info a)))).

(** The inventory is taken over; the IDs of the running processes. *)
Fixpoint restore_inventory (running : list string) (processes : list HostProcessInfo) : Prog (list string) :=
  match processes with
  | [] => Done running
  | process :: rest =>
      let+ fenced := denied (hpi_process_id process) in
      if fenced : bool then restore_inventory running rest
      else
        let+ current := peek (follows process) in
        let running := if hpi_running process then hpi_process_id process :: running else running in
        (if hpi_running process && current then Done tt else ignore (upsert_process cfg process None)) ;+
        restore_inventory running rest
  end.

(** One saved launch that has to run: it runs already, or it is spawned under the next generation. *)
Definition restore_entry (running : list string) (entry : StoredAgentStartup) : ProgR RestoreOutcome :=
  let id := entry_id entry in
  let+ attached := peek (fun c => bool_decide (id ∈ running) && running_agent (try_lock id c)) in
  if attached : bool then ok Attached
  else
    let entry := set_spec (fun s => spec_generation (saturating_add (as_generation s) 1) s) entry in
    store_try (upsert entry) ;*
    let* info := spawn_startup cfg entry in
    let+ epoch := peek ct_host_epoch in
    store_try (update id (set_host_epoch epoch)) ;*
    ok (Started info).

Definition to_restore (active : list string) (e : StoredAgentStartup) : bool :=
  hosts cfg e && as_enabled (se_spec e) && bool_decide (entry_id e ∈ active).

Fixpoint restore_entries (running active : list string) (l : list StoredAgentStartup)
    : Prog (list (string * Result RestoreOutcome ProtocolError)) :=
  match l with
  | [] => Done []
  | entry :: rest =>
      if negb (to_restore active entry) then restore_entries running active rest
      else
        let+ result := restore_entry running entry in
        let+ results := restore_entries running active rest in
        Done ((entry_id entry, result) :: results)
  end.

Definition restore_startup_outcomes (active : list string) : Prog (list (string * Result RestoreOutcome ProtocolError)) :=
  let+ r := ask (AskHost (CmdSync ∅) None) in
  match r with
  | Ok (RespSynced _ _ processes _) =>
      let+ running := restore_inventory [] processes in
      let+ all := peek (fun c => entries (ct_store c)) in
      restore_entries running active all
  | Ok _ => Done [("host"%string, Err (protocol_error "host_protocol_error" "inventory returned an unexpected response"))]
  | Err text => Done [("host"%string, Err (host_error text))]
  end.

Definition started (result : string * Result RestoreOutcome ProtocolError)
    : option (string * Result AgentInfo ProtocolError) :=
  match result.2 with
  | Ok (Started info) => Some (result.1, Ok info)
  | Ok Attached => None
  | Err e => Some (result.1, Err e)
  end.
Definition restore_startup_agents (active : list string) : Prog (list (string * Result AgentInfo ProtocolError)) :=
  let+ results := restore_startup_outcomes active in Done (omap started results).

Definition startup_candidate_ids (c : Ctl) : list string :=
  sort_ids (entry_id <$> List.filter (fun e => hosts cfg e && as_enabled (se_spec e)) (entries (ct_store c))).
Definition automatic_startup_candidate_ids (c : Ctl) : list string :=
  candidate_ids (cf_workspace_id cfg) (cf_server_id cfg) (ct_host_epoch c) (ct_store c).
Definition startup_validation_ids : Prog (list string) :=
  let+ ids := peek (fun c => entry_id <$> List.filter (hosts cfg) (entries (ct_store c))) in
  let+ private := (match cf_private_root cfg with
                   | Ok _ => let+ r := ask AskPrivateIds in Done (match r with Ok private => private | Err _ => [] end)
                   | Err _ => Done []
                   end) in
  Done (dedup (sort_ids (ids ++ private))).

Definition restore_item (result : string * Result RestoreOutcome ProtocolError) : RuntimeRestoreItem :=
  match result.2 with
  | Ok (Started _) => mkRuntimeRestoreItem result.1 "agent" RsStarted None
  | Ok Attached => mkRuntimeRestoreItem result.1 "agent" RsAttached None
  | Err e => mkRuntimeRestoreItem result.1 "agent" RsFailed (Some (pe_code e +:+ ": " +:+ pe_message e))
  end.
Definition skipped_item (active : list string) (e : StoredAgentStartup) : option RuntimeRestoreItem :=
  if negb (hosts cfg e) then None
  else if negb (as_enabled (se_spec e)) || negb (bool_decide (entry_id e ∈ active))
  then Some (mkRuntimeRestoreItem (entry_id e) "agent" (if as_enabled (se_spec e) then IdentityRevoked else SkippedStopped) None)
  else None.
Definition by_workload (a b : RuntimeRestoreItem) : Prop := str_le (ri_workload_id a) (ri_workload_id b).
#[global] Instance by_workload_dec a b : Decision (by_workload a b).
Proof. unfold by_workload. apply _. Defined.
Definition restore_runtime (active : list string) : Prog RuntimeRestoreReport :=
  let+ results := restore_startup_outcomes active in
  let+ skipped := peek (fun c => omap (skipped_item active) (entries (ct_store c))) in
  Done (mkRuntimeRestoreReport (cf_workspace_id cfg) (cf_server_id cfg)
          (merge_sort by_workload ((restore_item <$> results) ++ skipped))).

(** ** Start of the Controller *)

(** A saved generation from before generations were kept follows the process that runs. *)
Definition migrate_legacy_live_generation (process : HostProcessInfo) : ProgR unit :=
  let* metadata := lift (map_err (protocol_error "invalid_host_metadata") (decode_metadata (hpi_metadata process))) in
  let+ entry := saved (hpi_process_id process) in
  if hpi_running process && (am_run_generation metadata =? 0) && (am_workspace_id metadata =s cf_workspace_id cfg)
     && (am_server_id metadata =s cf_server_id cfg) && is_some entry
  then store_try (update (hpi_process_id process) (set_spec (spec_generation 0)))
  else ok tt.

Definition at_replay (replay : HostOutputReplay) (p : HostProcessInfo) : HostProcessInfo :=
  mkHostProcessInfo (hpi_process_id p) (hpi_pid p) (hpi_cwd p) (hpi_running p) (hpi_started_at p) (hpi_last_output_at p)
    (hpi_exited_at p) (hpi_exit_code p) (or_stream_epoch replay) (hpi_first_revision p) (or_next_revision replay)
    (hpi_bracketed_paste p) (hpi_metadata p).

Fixpoint adopt_all (replays : gmap string HostOutputReplay) (processes : list HostProcessInfo) : ProgR unit :=
  match processes with
  | [] => ok tt
  | process :: rest =>
      let+ fenced := denied (hpi_process_id process) in
      (if negb (hpi_running process) && fenced then ok tt
       else match replays !! hpi_process_id process with
            | None => ok tt
            | Some replay =>
                migrate_legacy_live_generation process ;*
                restore_process cfg (at_replay replay process) replay
            end) ;*
      adopt_all replays rest
  end.
Fixpoint materialize_all (l : list StoredAgentStartup) : ProgR unit :=
  match l with
  | [] => ok tt
  | entry :: rest => (if hosts cfg entry then materialize_startup entry ;* ok tt else ok tt) ;* materialize_all rest
  end.

Fixpoint measure_all (ids : list string) : Prog (list (string * option Measurement)) :=
  match ids with
  | [] => Done []
  | id :: rest =>
      let+ m := ask (AskMeasure id) in
      let+ ms := measure_all rest in
      Done ((id, measured_ok m) :: ms)
  end.
Definition start_ledger : Prog unit :=
  match cf_private_root cfg with
  | Err _ => Done tt
  | Ok _ =>
      let+ r := ask AskPrivateIds in
      match r with
      | Ok ids => let+ measured := measure_all ids in poke (fun c => set_ledger (replace_inventory measured (ct_ledger c)) c)
      | Err _ => poke (fun c => set_ledger (mark_inventory_incomplete (ct_ledger c)) c)
      end
  end.

Definition initial (host_epoch : string) (store : StartupStore) (cache : gmap string CachedAgentInterface) : Ctl :=
  mkCtl host_epoch store ∅ cache ∅ (ledger_new limits_default) ∅ None (mkProxyLinkStatus false None None) [] [] [].
Definition replay_map (replays : list HostOutputReplay) : gmap string HostOutputReplay :=
  foldl (fun m r => <[or_process_id r := r]> m) ∅ replays.

(** [from_sync]: the state with the saved launches read from the disk, and what runs on it before
    any task starts. *)
Definition from_sync (sync : HostResponse) (disk : Disk) (cache : gmap string CachedAgentInterface)
    : Result (Ctl * ProgR unit) ProtocolError :=
  match sync with
  | RespSynced host_epoch _ processes replays =>
      match load disk with
      | Err (e, _) => Err (protocol_error "startup_store_error" ("failed to load Agent startup store: " +:+ io_text e))
      | Ok store =>
          Ok (initial host_epoch store cache,
              start_ledger ;+
              adopt_all (replay_map replays) processes ;*
              let+ saved := peek (fun c => entries (ct_store c)) in
              materialize_all saved)
      end
  | _ => Err (protocol_error "host_protocol_error" "expected sync response")
  end.

(** ** Private state *)

Definition require_known_workload (agent_id : string) : ProgR unit :=
  let+ entry := saved agent_id in
  if is_some entry then ok tt else let* slot := peek (get_slot agent_id) in ok tt.

Definition ledger_atom {A} (m : LedgerM A) : ProgR A :=
  atom (fun c => let '(r, l) := m (ct_ledger c) in (r, set_ledger l c)).

Definition complete_private_state_inventory : ProgR unit :=
  let+ incomplete := peek (fun c => ql_inventory_incomplete (ct_ledger c)) in
  if negb incomplete then ok tt
  else
    lift (map_err root_unavailable (cf_private_root cfg)) ;*
    let+ r := ask AskPrivateIds in
    let* ids := lift (map_err (fun _ => unavailable_error
        "Agent private state inventory is incomplete; reservations resume after a successful re-enumeration") r) in
    let+ measured := measure_all ids in
    ledger_atom (modify_ledger (replace_inventory measured)).

Definition refresh_private_state_measurement (agent_id : string) : ProgR unit :=
  complete_private_state_inventory ;*
  let+ measurement := with_root cfg (AskMeasure agent_id) in
  ledger_atom (modify_ledger (record agent_id (measured_ok measurement))).

Definition status_code (s : PrivateStateStatus) : string :=
  match s with Available _ => "available" | Unavailable => "agent_private_state_unavailable" end.

Definition purged (agent_id : string) : Prog bool := peek (fun c => is_purged agent_id (ct_ledger c)).

Definition private_state_report (agent_id : string) : ProgR (string * option AgentUsage) :=
  let+ gone := purged agent_id in
  if gone : bool then ok (status_code Unavailable, None)
  else
    require_known_workload agent_id ;*
    let* status := private_state_status cfg agent_id false in
    match status with
    | Available _ =>
        refresh_private_state_measurement agent_id ;*
        let+ u := peek (fun c => usage agent_id (ct_ledger c)) in
        ok (status_code status, Some u)
    | Unavailable => ok (status_code status, None)
    end.

Definition require_private_state_available (agent_id : string) : ProgR string :=
  let+ gone := purged agent_id in
  if gone : bool then throw (unavailable_error "Agent private state was removed after deletion")
  else
    require_known_workload agent_id ;*
    let* status := private_state_status cfg agent_id false in
    match status with
    | Available directory => ok directory
    | Unavailable =>
        throw (protocol_error (status_code Unavailable) "Agent private state is not available; attachments stay disabled")
    end.

Definition reserve_private_state (agent_id : string) (bytes : Z) : ProgR Reservation :=
  let* directory := require_private_state_available agent_id in
  refresh_private_state_measurement agent_id ;*
  let+ free := ask (AskFreeBytes directory) in
  let* free_bytes := lift (map_err (fun _ => unavailable_error
      "free disk space could not be determined; inspect the Controller log") free) in
  let+ now := ask AskInstant in
  let+ uuid := ask AskUuid in
  ledger_atom (reserve uuid agent_id bytes free_bytes now).

Definition commit_private_state_reservation (agent_id reservation_id : string) : ProgR AgentUsage :=
  require_private_state_available agent_id ;*
  let+ now := ask AskInstant in
  ledger_atom (PrivateState.commit agent_id reservation_id now) ;*
  refresh_private_state_measurement agent_id ;*
  atom (fun c => (check_caps agent_id (ct_ledger c) ;? Ok (usage agent_id (ct_ledger c)), c)).

Definition release_private_state_reservation (agent_id reservation_id : string) : ProgR bool :=
  require_private_state_available agent_id ;*
  let+ now := ask AskInstant in
  let+ released := atom (fun c => let '(b, l) := release agent_id reservation_id now (ct_ledger c) in (b, set_ledger l c)) in
  refresh_private_state_measurement agent_id ;*
  ok released.

(** ** Cleaning up after deleted workloads *)

Definition purge_deferred (message : string) : ProtocolError := protocol_error "agent_private_state_purge_deferred" message.

(** [map_or(true, ..)]: a record whose lock is poisoned counts as not terminal. *)
Definition not_terminal (agent_id : string) (c : Ctl) : bool :=
  is_some_and (ct_agents c !! agent_id) (fun slot =>
    sl_poisoned slot || negb (is_terminal (ag_status (ca_info (sl_agent slot))))).

Definition purge_one (inventory : list HostProcessInfo) (agent_id : string) : ProgR bool :=
  if existsb (fun p => (hpi_process_id p =s agent_id) && hpi_running p) inventory then
    let+ stop := ask (AskHost (CmdStop agent_id) (Some ("private-state-purge:" +:+ agent_id))) in
    (match stop with
     | Ok response => ignore (process_response response (Some Exited))
     | Err _ => Done tt
     end) ;+
    throw (purge_deferred "the deleted Agent was still running; stop requested, purge retried later")
  else
    (match List.find (fun p => hpi_process_id p =s agent_id) inventory with
     | Some process => ignore (upsert_process cfg process None)
     | None => Done tt
     end) ;+
    let+ live := peek (not_terminal agent_id) in
    if live : bool
    then throw (purge_deferred "the deleted Agent registry entry is not terminal; purge retried later")
    else
      store_try (remove_deleted agent_id) ;*
      poke (fun c => set_agents (delete agent_id (ct_agents c)) c) ;+
      poke (remove_proxy agent_id) ;+
      remove_cached_interface agent_id ;+
      let* removed := with_root cfg (AskPurge agent_id) in
      ledger_atom (modify_ledger (forget agent_id)) ;*
      ok removed.

Fixpoint purge_each (inventory : list HostProcessInfo) (ids : list string)
    : Prog (list (string * Result bool ProtocolError)) :=
  match ids with
  | [] => Done []
  | id :: rest =>
      let+ result := purge_one inventory id in
      let+ results := purge_each inventory rest in
      Done ((id, result) :: results)
  end.

Definition purge_deleted_private_state (deleted : list string) : Prog (list (string * Result bool ProtocolError)) :=
  let ids := dedup (sort_ids (List.filter valid_identity deleted)) in
  match ids with
  | [] => Done []
  | _ =>
      match cf_private_root cfg with
      | Err code => Done ((fun id => (id, Err (root_unavailable code))) <$> ids)
      | Ok _ =>
          let+ r := ask (AskHost (CmdSync ∅) None) in
          match r with
          | Ok (RespSynced _ _ processes _) => purge_each processes ids
          | _ => Done ((fun id => (id, Err (protocol_error "host_unavailable"
                   "Host inventory is unavailable; private state purge deferred"))) <$> ids)
          end
      end
  end.
End Recovery.
