(* ===== verification/ControllerInterface.v ===== *)
(** * Interfaces, prompts and output of a workload (crates/treer-agent-server/src/controller.rs)

    A workload registers a local HTTP interface; the Controller checks its manifest, watches its
    status and keeps it in a cache for its next start.  Prompts go to the interface, to the queue of
    a bridge workload or to the terminal.  Also the reads of the output (controller_output.rs). *)

From stdpp Require Import gmap pretty sorting.
From S2P Require Import Prelude RustStr Protocol HostProtocol Activity ProxyTypes BinaryFrames.
From S2P Require Import StartupStore PrivateState ControllerTypes Controller ControllerRecovery.
Local Open Scope Z_scope.
Local Open Scope prog_scope.

(** ** Limiting registrations *)

Definition INTERFACE_REGISTRATIONS_PER_WINDOW : Z := 10.
Definition INTERFACE_REGISTRATION_WINDOW : Z := from_secs 60.
Definition INTERFACE_REGISTRATION_TRACKED_AGENTS : Z := 1024.

(** [min_by_key]: the first of the entries with the least start. *)
Fixpoint oldest_window (best : option (string * RegistrationWindow)) (l : list (string * RegistrationWindow))
    : option string :=
  match l with
  | [] => fst <$> best
  | e :: l' =>
      oldest_window (match best with
                     | Some b => if rw_started e.2 <? rw_started b.2 then Some e else Some b
                     | None => Some e
                     end) l'
  end.
Definition count_windows (m : gmap string RegistrationWindow) : Z := Z.of_nat (size m).

(** [InterfaceRegistrationLimiter]'s one operation; an error says whether it is the first of its
    window. *)
Definition take_registration (agent_id : string) (now : Z) (windows : gmap string RegistrationWindow)
    : Result unit bool * gmap string RegistrationWindow :=
  let windows := filter (fun kw : string * RegistrationWindow =>
                   duration_since now (rw_started kw.2) < INTERFACE_REGISTRATION_WINDOW) windows in
  let windows :=
    if negb (is_some (windows !! agent_id)) && (INTERFACE_REGISTRATION_TRACKED_AGENTS <=? count_windows windows)
    then from_option (fun oldest => delete oldest windows) windows (oldest_window None (map_to_list windows))
    else windows in
  let window := default (mkRegistrationWindow now 0 false) (windows !! agent_id) in
  if INTERFACE_REGISTRATIONS_PER_WINDOW <=? rw_count window
  then (Err (negb (rw_warned window)), <[agent_id := mkRegistrationWindow (rw_started window) (rw_count window) true]> windows)
  else (Ok tt, <[agent_id := mkRegistrationWindow (rw_started window) (rw_count window + 1) (rw_warned window)]> windows).

(** ** Descriptors *)

(** [is_ascii_control] or [is_ascii_whitespace]. *)
Definition control_or_space (a : ascii) : bool :=
  (byte_val a <? 32) || (byte_val a =? 127) || (byte_val a =? 32).

Definition invalid_ui_path : ProtocolError :=
  protocol_error "invalid_agent_interface_ui_path"
    "Agent Interface ui_path must be an absolute path without whitespace or parent traversal".
Definition validate_interface_ui_path (value : string) : Result string ProtocolError :=
  let value := trim value in
  if is_empty value || negb (starts_with "/" value) || (1024 <? str_len value) || contains_str "//" value
     || existsb (fun segment => segment =s "..") (split_on "/" value)
     || negb (all_bytes (fun a => negb (control_or_space a)) value)
  then Err invalid_ui_path
  else Ok value.
(** [.map(validate).transpose()] *)
Definition validate_optional_ui_path (value : option string) : Result (option string) ProtocolError :=
  match value with
  | None => Ok None
  | Some value => let? value := validate_interface_ui_path value in Ok (Some value)
  end.

Definition capability_byte (a : ascii) : bool :=
  ascii_alphanumeric a || Ascii.eqb a "." || Ascii.eqb a "_" || Ascii.eqb a "-".
Definition bad_capability (c : string) : bool := is_empty c || negb (all_bytes capability_byte c).

(** [windows(2).any(|pair| pair[0] >= pair[1])] *)
Fixpoint unordered (l : list string) : bool :=
  match l with
  | x :: ((y :: _) as l') => String.leb y x || unordered l'
  | _ => false
  end.

Record RegisterAgentInterfaceRequest : Type := mkRegisterAgentInterfaceRequest {
  ir_protocol : string;
  ir_instance_id : string;
  ir_port : Z;
  ir_capabilities : list string;
  ir_ui_path : option string
}.

Definition cached_invalid : ProtocolError :=
  protocol_error "invalid_agent_interface_cache" "cached Agent Interface descriptor is invalid".

(** The checks of a descriptor; an error of the path check leaves as itself. *)
Definition check_descriptor (d : AgentInterfaceDescriptor) : Result unit ProtocolError :=
  if negb (ai_protocol d =s AGENT_INTERFACE_PROTOCOL_V1) || is_empty (trim (ai_instance_id d)) || (ai_port d =? 0)
  then Err cached_invalid
  else
    let? ui_path := validate_optional_ui_path (ai_ui_path d) in
    if negb (bool_decide (ui_path = ai_ui_path d)) || unordered (ai_capabilities d)
       || existsb bad_capability (ai_capabilities d)
    then Err cached_invalid else Ok tt.

Definition validate_interface_manifest (agent_id : string) (d : AgentInterfaceDescriptor) : ProgR unit :=
  lift (check_descriptor d) ;*
  let* manifest := ask (AskManifest agent_id d) in
  let '(protocol, instance_id, capabilities, ui_path) := manifest in
  if negb (protocol =s ai_protocol d) || negb (instance_id =s ai_instance_id d)
     || negb (bool_decide (dedup (sort_ids capabilities) = ai_capabilities d))
     || negb (bool_decide (ui_path = ai_ui_path d))
  then throw (protocol_error "agent_interface_manifest_mismatch"
         "Agent Interface manifest does not match its registration request")
  else ok tt.

(** ** Registration *)

(** The descriptor of a request whose shape is right. *)
Definition requested_descriptor (r : RegisterAgentInterfaceRequest) (now : Time) : Result AgentInterfaceDescriptor ProtocolError :=
  if negb (ir_protocol r =s AGENT_INTERFACE_PROTOCOL_V1)
  then Err (protocol_error "agent_interface_protocol_unsupported" ("unsupported Agent Interface protocol " +:+ ir_protocol r))
  else if is_empty (trim (ir_instance_id r)) || (ir_port r =? 0)
  then Err (protocol_error "invalid_request" "Agent Interface requires a non-empty instance ID and non-zero port")
  else
    let capabilities := dedup (sort_ids (ir_capabilities r)) in
    if existsb bad_capability capabilities
    then Err (protocol_error "invalid_request"
           "Agent Interface capabilities must use letters, numbers, dot, dash, or underscore")
    else
      let? ui_path := validate_optional_ui_path (ir_ui_path r) in
      Ok (mkAgentInterfaceDescriptor (ir_protocol r) (ir_instance_id r) (ir_port r) capabilities ui_path now None).

Definition same_instance (d : AgentInterfaceDescriptor) (current : AgentInterfaceDescriptor) : bool :=
  ai_instance_id current =s ai_instance_id d.
Definition same_interface (d current : AgentInterfaceDescriptor) : bool :=
  (ai_protocol current =s ai_protocol d) && same_instance d current && (ai_port current =? ai_port d)
  && bool_decide (ai_capabilities current = ai_capabilities d) && bool_decide (ai_ui_path current = ai_ui_path d).

(** The assignment under the lock: the record, whether a monitor starts, whether it is published. *)
Definition install_interface (d : AgentInterfaceDescriptor) (now : Time) (a : ControllerAgent)
    : (AgentInfo * bool * bool) * ControllerAgent :=
  let current := ag_interface (ca_info a) in
  let start_monitor := negb (is_some_and current (same_instance d)) in
  let publish_changed := negb (is_some_and current (same_interface d)) in
  let info := info_interface (Some d) (ca_info a) in
  let info := if publish_changed then agent_updated_at info now else info in
  ((info, start_monitor, publish_changed), set_info info a).

Definition register_interface (agent_id : string) (request : RegisterAgentInterfaceRequest)
    : ProgR (AgentInterfaceDescriptor * bool) :=
  let+ now := ask AskUtc in
  let* d := lift (requested_descriptor request now) in
  let* slot := peek (get_slot agent_id) in
  let+ instant := ask AskInstant in
  let+ counted := atom (fun c => let '(r, w) := take_registration agent_id instant (ct_windows c) in (r, set_windows w c)) in
  lift (map_err (fun _ => protocol_error "agent_interface_rate_limited"
          "too many Agent Interface registrations; retry after a minute") counted) ;*
  validate_interface_manifest agent_id d ;*
  let+ now := ask AskUtc in
  let* installed := with_agent agent_id "agent state lock poisoned" (install_interface d now) in
  let '(info, start_monitor, publish_changed) := installed in
  cache_interface info ;+
  (if publish_changed : bool then emit info else Done tt) ;+
  ok (d, start_monitor).

Definition clear_interface (agent_id : string) : ProgR (option AgentInterfaceDescriptor) :=
  let+ now := ask AskUtc in
  let* cleared := with_agent agent_id "agent state lock poisoned" (fun a =>
    let info := agent_updated_at (info_interface None (ca_info a)) now in
    ((ag_interface (ca_info a), info), set_info info a)) in
  remove_cached_interface agent_id ;+
  emit cleared.2 ;+
  ok cleared.1.

Definition interface (agent_id : string) (c : Ctl) : Result (option AgentInterfaceDescriptor) ProtocolError :=
  let? a := lock_agent agent_id "agent state lock poisoned" c in Ok (ag_interface (ca_info a)).
Definition interface_for (agent_id capability : string) (c : Ctl) : Result (option AgentInterfaceDescriptor) ProtocolError :=
  let? i := interface agent_id c in Ok (opt_filter (fun i => supports i capability) i).

Definition update_agent_status (agent_id : string) (status : AgentStatus) : ProgR AgentInfo :=
  let+ now := ask AskUtc in
  let* updated := with_agent agent_id "agent state lock poisoned" (fun a =>
    let changed := negb (bool_decide (ag_status (ca_info a) = status)) in
    let info := info_status status (ca_info a) in
    let info := if changed then agent_updated_at info now else info in
    ((info, changed), set_info info a)) in
  (if updated.2 : bool then emit updated.1 else Done tt) ;+
  ok updated.1.

(** [expire_interface] *)
Definition drop_interface (instance_id : string) (registered_at now : Time) (a : ControllerAgent)
    : option AgentInfo * ControllerAgent :=
  if is_some_and (ag_interface (ca_info a)) (fun current =>
       (ai_instance_id current =s instance_id) && (ai_registered_at current =? registered_at))
  then let info := agent_updated_at (info_interface None (ca_info a)) now in (Some info, set_info info a)
  else (None, a).
Definition expire_interface (agent_id instance_id : string) (registered_at : Time) : ProgR unit :=
  let+ now := ask AskUtc in
  let* dropped := with_agent agent_id "agent state lock poisoned" (drop_interface instance_id registered_at now) in
  match dropped with
  | None => ok tt
  | Some info => remove_cached_interface agent_id ;+ emit info ;+ ok tt
  end.

(** [agent_interface::status] *)
Definition interface_answer (agent_id : string) (d : AgentInterfaceDescriptor) : ProgR AgentStatus :=
  let* answer := ask (AskStatus agent_id d) in
  let '(id, instance_id, status) := answer in
  if negb (id =s agent_id) || negb (instance_id =s ai_instance_id d)
  then throw (protocol_error "agent_interface_identity_mismatch"
         "Agent Interface status identity does not match its registration")
  else ok status.

(** A turn of the loop of [start_interface_status_monitor]: the failures in a row, or its end. *)
Definition monitor_turn (agent_id : string) (d : AgentInterfaceDescriptor) (failures : Z) : Prog (option Z) :=
  let+ current := peek (interface agent_id) in
  match current with
  | Ok (Some current) =>
      if negb (same_instance d current) then Done None
      else
        let+ answer := interface_answer agent_id current in
        match answer with
        | Ok status =>
            let+ terminal := peek (fun c => from_option (fun a => is_terminal (ag_status (ca_info a))) true (try_lock agent_id c)) in
            (if negb terminal && supports current "state.observe"
             then ignore (update_agent_status agent_id status) else Done tt) ;+
            Done (Some 0)
        | Err _ =>
            let failures := Z.min (failures + 1) 255 in
            if AGENT_INTERFACE_FAILURE_LIMIT <=? failures
            then ignore (expire_interface agent_id (ai_instance_id current) (ai_registered_at current)) ;+ Done None
            else Done (Some failures)
        end
  | _ => Done None
  end.

(** ** The cache at the start of the Controller *)

Definition registered_again (now : Time) (d : AgentInterfaceDescriptor) : AgentInterfaceDescriptor :=
  mkAgentInterfaceDescriptor (ai_protocol d) (ai_instance_id d) (ai_port d) (ai_capabilities d) (ai_ui_path d) now
    (ai_origin_url d).
Definition matches_process (cached : CachedAgentInterface) (info : AgentInfo) : bool :=
  bool_decide (ag_pid info = Some (ci_pid cached)) && (ag_started_at info =? ci_started_at cached)
  && negb (is_terminal (ag_status info)).
Definition reinstall (cached : CachedAgentInterface) (c : Ctl) : bool * Ctl :=
  match try_lock (ci_agent_id cached) c with
  | Some a =>
      if matches_process cached (ca_info a)
      then (true, put_agent (ci_agent_id cached) (set_info (info_interface (Some (ci_interface cached)) (ca_info a)) a) c)
      else (false, c)
  | None => (false, c)
  end.

(** The entries that were taken over again. *)
Fixpoint restore_cached (l : list CachedAgentInterface) : Prog (list CachedAgentInterface) :=
  match l with
  | [] => Done []
  | cached :: rest =>
      let+ matches := peek (fun c => is_some_and (try_lock (ci_agent_id cached) c) (fun a => matches_process cached (ca_info a))) in
      if negb matches then restore_cached rest
      else
        let+ now := ask AskUtc in
        let cached := mkCachedAgentInterface (ci_agent_id cached) (ci_pid cached) (ci_started_at cached)
                        (registered_again now (ci_interface cached)) in
        let+ valid := validate_interface_manifest (ci_agent_id cached) (ci_interface cached) in
        if negb (is_ok valid) then restore_cached rest
        else
          let+ installed := atom (reinstall cached) in
          let+ restored := restore_cached rest in
          Done (if installed : bool then cached :: restored else restored)
  end.
Definition cache_of (l : list CachedAgentInterface) : gmap string CachedAgentInterface :=
  foldl (fun m e => <[ci_agent_id e := e]> m) ∅ l.
Definition restore_cached_interfaces : Prog unit :=
  let+ cached := peek (fun c => snd <$> map_to_list (ct_cache c)) in
  let+ restored := restore_cached cached in
  poke (set_cache (cache_of restored)).

(** ** Prompts and input *)

Definition encode_prompt_text (text : string) (bracketed_paste : bool) : bytes :=
  if bracketed_paste
  then [27; 91; 50; 48; 48; 126] ++ str_bytes text ++ [27; 91; 50; 48; 49; 126]
  else str_bytes text.

(** A prompt for a bridge workload joins its queue. *)
Definition queue_prompt (operation_id text : string) (now : Time) (a : ControllerAgent)
    : Result AgentInfo ProtocolError * ControllerAgent :=
  if BRIDGE_PROMPT_QUEUE_LIMIT <=? Z.of_nat (List.length (ca_prompt_queue a))
  then (Err (protocol_error "agent_prompt_queue_full" "bridge agent prompt queue is full"), a)
  else
    let info := agent_updated_at (info_status Working (ca_info a)) now in
    (Ok info, set_info info (set_queue (ca_prompt_queue a ++ [mkAgentPrompt operation_id text now]) a)).

Section Interface.
Context (cfg : Config) `{StartupJson} `{CtlText}.

Definition write_terminal (operation_id agent_id : string) (writes : list HostWrite) : ProgR HostResponse :=
  let+ r := ask (AskHost (CmdWrite agent_id writes) (Some operation_id)) in lift (map_err host_error r).

Definition prompt (operation_id agent_id text : string) : ProgR AgentInfo :=
  if is_empty text then throw (protocol_error "invalid_request" "agent prompt cannot be empty")
  else
    let* a := peek (lock_agent agent_id "agent state lock poisoned") in
    if ag_kind (ca_info a) =s "bridge" then
      if BRIDGE_PROMPT_MAX_BYTES <? str_len text
      then throw (protocol_error "agent_prompt_too_large" "bridge agent prompt exceeds 64 KiB")
      else
        let+ now := ask AskUtc in
        let* queued := with_agent agent_id "agent state lock poisoned" (queue_prompt operation_id text now) in
        let* info := lift queued in
        emit info ;+ ok info
    else
      let* i := peek (interface_for agent_id "prompt.submit") in
      match i with
      | Some i =>
          let* done := ask (AskSubmit agent_id i operation_id text) in
          update_agent_status agent_id Working
      | None =>
          let* a := peek (lock_agent agent_id "agent state lock poisoned") in
          let* response := write_terminal operation_id agent_id
            [mkHostWrite (encode_prompt_text text (ca_bracketed_paste a)) 0; mkHostWrite [13] PROMPT_SUBMIT_DELAY] in
          process_response response (Some Working)
      end.

Definition write_raw (operation_id agent_id : string) (data : bytes) : ProgR AgentInfo :=
  let* response := write_terminal operation_id agent_id [mkHostWrite data 0] in
  let+ instant := ask AskInstant in
  with_agent agent_id "" (fun a => (tt, set_activity (input instant (ca_activity a)) a)) ;+
  process_response response None.

Definition unsupported_capability (message : string) : ProtocolError := protocol_error "queue_unsupported" message.
Definition require_capability (agent_id capability message : string) : ProgR AgentInterfaceDescriptor :=
  let* i := peek (interface_for agent_id capability) in
  lift (ok_or i (unsupported_capability message)).

(** The answer is the record, with a receipt when the interface took the prompt. *)
Definition submit_prompt_delivery (operation_id agent_id : string) (text : string) (delivery : PromptDelivery)
    (notify : option Value) (require_receipt : bool) (sender : option Value) : ProgR (AgentInfo * option Value) :=
  if is_empty text then throw (protocol_error "invalid_request" "agent prompt cannot be empty")
  else
    let* i := peek (interface_for agent_id "prompt.queue") in
    match i with
    | None =>
        if (match delivery with Steer => true | Queue => false end) && negb (is_some notify) && negb require_receipt
        then let* info := prompt operation_id agent_id text in ok (info, None)
        else throw (unsupported_capability
               "Target does not expose prompt.queue; use --steer explicitly for legacy terminal input")
    | Some i =>
        (if is_some notify then require_capability agent_id "prompt.notify" "Target does not expose prompt.notify" ;* ok tt else ok tt) ;*
        (if require_receipt then require_capability agent_id "prompt.queue.read"
             "Target does not expose prompt.queue.read required by --wait" ;* ok tt else ok tt) ;*
        let* receipt := ask (AskDelivery agent_id i (mkPromptRequest operation_id text delivery sender notify)) in
        let* a := peek (lock_agent agent_id "agent state lock poisoned") in
        ok (ca_info a, Some receipt)
    end.

Definition interface_status (agent_id : string) : ProgR AgentStatus :=
  let* i := require_capability agent_id "state.observe" "Target does not expose state.observe" in
  interface_answer agent_id i.
Definition prompt_queue_request (agent_id : string) (submission_id : option string) (cancel : bool) : ProgR Value :=
  let* i := require_capability agent_id "prompt.queue.read" "Target does not expose prompt.queue.read" in
  ask (AskQueue agent_id i submission_id cancel).

Definition capability_unavailable (message : string) : ProtocolError :=
  protocol_error "agent_interface_capability_unavailable" message.
Definition abort_agent (operation_id agent_id : string) : ProgR AgentInfo :=
  let* i := peek (interface_for agent_id "abort") in
  let* i := lift (ok_or i (capability_unavailable "Agent does not expose abort")) in
  let* done := ask (AskAbort agent_id i operation_id) in
  let* a := peek (lock_agent agent_id "agent state lock poisoned") in
  ok (ca_info a).
Definition transcript (agent_id : string) (cursor : option string) (limit : option Z) : ProgR Value :=
  let* i := peek (interface_for agent_id "transcript.read") in
  let* i := lift (ok_or i (capability_unavailable "Agent does not expose transcript.read")) in
  ask (AskTranscript agent_id i cursor limit).

(** ** Reads *)

(** [select_lines] *)
Definition select_lines (text : string) (count : option Z) : string :=
  match count with
  | None => text
  | Some count =>
      if count =? 0 then ""%string
      else
        let all := Activity.lines text in
        let line_count := Z.of_nat (List.length all) in
        if line_count <=? count then text
        else join (String newline EmptyString) (skipn (Z.to_nat (line_count - count)) all)
  end.

Record ReadAgentOutputResponse : Type := mkReadAgentOutputResponse {
  ro_agent_id : string;
  ro_revision : Z;
  ro_text : string;
  ro_truncated : bool
}.
Definition read (agent_id : string) (count : option Z) (c : Ctl) : Result ReadAgentOutputResponse ProtocolError :=
  let? a := lock_agent agent_id "agent state lock poisoned" c in
  if ag_kind (ca_info a) =s "bridge"
  then Err (protocol_error "agent_output_unavailable" "bridge agent output is not readable")
  else Ok (mkReadAgentOutputResponse agent_id (ag_output_revision (ca_info a))
         (select_lines (recent_text (ca_text a) OUTPUT_LIMIT_BYTES) count)
         (Nat.leb OUTPUT_LIMIT_BYTES (String.length (ca_text a)))).

Record AgentPromptQueueResponse : Type := mkAgentPromptQueueResponse {
  aq_agent_id : string;
  aq_prompts : list AgentPrompt;
  aq_remaining : Z
}.

(** [drain(..count)] panics when the queue is shorter. *)
Definition drain_front {A} (count : nat) (l : list A) : option (list A * list A) :=
  if Nat.leb count (List.length l) then Some (firstn count l, skipn count l) else None.

Definition poison (agent_id : string) (c : Ctl) : Ctl :=
  from_option (fun slot => set_agents (<[agent_id := mkSlot (sl_agent slot) true]> (ct_agents c)) c) c (ct_agents c !! agent_id).

(** [None] is a panic; it leaves the lock of the record poisoned. *)
Definition read_prompt_queue (agent_id : string) (limit : option Z) (now : Time) (c : Ctl)
    : option (Result AgentPromptQueueResponse ProtocolError) * Ctl :=
  match lock_agent agent_id "agent state lock poisoned" c with
  | Err e => (Some (Err e), c)
  | Ok a =>
      if negb (ag_kind (ca_info a) =s "bridge")
      then (Some (Err (protocol_error "agent_prompt_queue_unavailable" "prompt queue is available only for bridge agents")), c)
      else
        let count := Z.min (default BRIDGE_PROMPT_READ_LIMIT limit) BRIDGE_PROMPT_READ_LIMIT in
        match drain_front (Z.to_nat count) (ca_prompt_queue a) with
        | None => (None, poison agent_id c)
        | Some (prompts, rest) =>
            let info := ca_info a in
            let info := match rest, ag_status info with
                        | [], Working => agent_updated_at (info_status Idle info) now
                        | _, _ => info
                        end in
            (Some (Ok (mkAgentPromptQueueResponse agent_id prompts (Z.of_nat (List.length rest)))),
             push_event info (put_agent agent_id (set_info info (set_queue rest a)) c))
        end
  end.

(** [terminal_replay] *)
Definition is_boundary (b : Z) : bool := (b =? 27) || (b =? 10).
Fixpoint boundary_at (n : nat) (data : bytes) : option nat :=
  match n, data with
  | S n', b :: data' => if is_boundary b then Some 0%nat else S <$> boundary_at n' data'
  | _, _ => None
  end.
Definition terminal_replay (replay : HostOutputReplay) (cursor : option TerminalCursor) : bytes :=
  let resumed := match cursor with
                 | Some cursor => if tc_stream_epoch cursor =s or_stream_epoch replay then tc_revision cursor else 0
                 | None => 0
                 end in
  let data := decode_replay replay in
  if is_some_and (head (or_chunks replay)) (fun chunk => saturating_add resumed 1 <? oc_revision chunk) then
    match boundary_at REPLAY_BOUNDARY_SCAN_BYTES data with
    | Some start => skipn (if nth start data 0 =? 10 then S start else start) data
    | None => data
    end
  else data.

Record TerminalSnapshot : Type := mkTerminalSnapshot {
  sn_stream_epoch : string;
  sn_revision : Z;
  sn_gap : bool;
  sn_data : bytes
}.
Definition terminal_snapshot (agent_id : string) (cursor : option TerminalCursor) : ProgR TerminalSnapshot :=
  let+ r := ask (AskHost (CmdRead agent_id ((fun c => mkOutputCursor (tc_stream_epoch c) (tc_revision c)) <$> cursor)) None) in
  let* response := lift (map_err host_error r) in
  match response with
  | RespOutput replay =>
      ok (mkTerminalSnapshot (or_stream_epoch replay) (saturating_sub (or_next_revision replay) 1) (or_gap replay)
            (terminal_replay replay cursor))
  | _ => throw (protocol_error "host_protocol_error" "read returned an unexpected response")
  end.

Definition resize (operation_id agent_id : string) (cols rows : Z) : ProgR unit :=
  let+ r := ask (AskHost (CmdResize agent_id cols rows) (Some operation_id)) in
  lift (map_err host_error r) ;* ok tt.

(** [set_proxy_link_status], without the file transfers it ends (MachineFile). *)
Definition set_proxy_link_status (status : ProxyLinkStatus) : Prog unit := poke (set_proxy_link status).
End Interface.
