(* ===== verification/ControllerRuns.v ===== *)
(** * Running a Controller

    The operations of the Controller as tasks: at most one holds the recovery lock, any number of
    others run beside it, one atomic step at a time.  A task can be cancelled between any two
    of its steps.  The Controller can stop at any point and start again from the file on disk; the power
    can fail while it is stopped.  A run is the list of the commands that were sent to the Host.

    [safe] is a logic for such tasks: an invariant [J] of the saved launches that holds before every
    step, how a step may change them ([R]), and the commands the task may send ([G]). *)

From stdpp Require Import gmap pretty sorting.
From S2P Require Import Prelude RustStr Protocol HostProtocol Activity ProxyTypes.
From S2P Require Import StartupStore PrivateState ControllerTypes Controller ControllerLife.
From S2P Require Import ControllerRecovery ControllerInterface.
Local Open Scope Z_scope.
Local Open Scope prog_scope.

(** ** Operations *)

(** The operations that hold the recovery lock. *)
Inductive LockedOp : Type :=
| LCreate (operation_id agent_id credential : string) (request : CreateAgentRequest)
| LStart (operation_id agent_id : string) (restart : bool)
| LEnsure (operation_id agent_id : string) (credential : option string) (request : CreateAgentRequest)
    (enabled start_missing : bool) (revision : option Z)
| LUpdateApp (operation_id agent_id : string) (request : ReplaceAgentStartupRequest) (revision : Z)
| LReplace (agent_id : string) (request : ReplaceAgentStartupRequest)
| LRestartWith (operation_id agent_id : string) (request : ReplaceAgentStartupRequest)
| LSetStartup (agent_id : string) (request : SetAgentStartupRequest)
| LStop (operation_id agent_id : string)
| LRestore (active : list string)
| LFence (agent_id : string)
| LPurge (deleted : list string).

(** The others, the tasks that follow the events of the Host included. *)
Inductive FreeOp : Type :=
| FOutput (chunk : HostOutputChunk)
| FProcess (process : HostProcessInfo)
| FIdle
| FRegister (agent_id : string) (request : RegisterAgentInterfaceRequest)
| FClearInterface (agent_id : string)
| FMonitor (agent_id : string) (d : AgentInterfaceDescriptor) (failures : Z)
| FRestoreCached
| FPrompt (operation_id agent_id text : string)
| FDelivery (operation_id agent_id text : string) (delivery : PromptDelivery) (notify : option Value)
    (require_receipt : bool) (sender : option Value)
| FAbort (operation_id agent_id : string)
| FWriteRaw (operation_id agent_id : string) (data : bytes)
| FResize (operation_id agent_id : string) (cols rows : Z)
| FSnapshot (agent_id : string) (cursor : option TerminalCursor)
| FReadQueue (agent_id : string) (limit : option Z) (now : Time)
| FClearStartup (agent_id : string)
| FReport (agent_id : string)
| FReserve (agent_id : string) (bytes : Z)
| FCommit (agent_id reservation_id : string)
| FRelease (agent_id reservation_id : string)
| FVirtualHosts (snapshot : VirtualNetworkHostsSnapshot)
| FProxyLink (status : ProxyLinkStatus).

Section Runs.
Context (cfg : Config) `{StartupJson} `{CtlText}.

Definition locked_prog (op : LockedOp) : Prog unit :=
  match op with
  | LCreate operation_id id credential request => ignore (create cfg operation_id id credential request)
  | LStart operation_id id restart => ignore (start cfg operation_id id restart)
  | LEnsure operation_id id credential request enabled start_missing revision =>
      ignore (ensure_app_lifecycle cfg operation_id id credential request enabled start_missing revision)
  | LUpdateApp operation_id id request revision => ignore (update_app_startup cfg operation_id id request revision)
  | LReplace id request => ignore (replace_startup cfg id request)
  | LRestartWith operation_id id request => ignore (restart_with_startup cfg operation_id id request)
  | LSetStartup id request => ignore (set_startup cfg id request)
  | LStop operation_id id => ignore (stop cfg operation_id id)
  | LRestore active => bind (restore_startup_outcomes cfg active) (fun _ => Done tt)
  | LFence id => ignore (fence_absent_agent_reservation id)
  | LPurge deleted => bind (purge_deleted_private_state cfg deleted) (fun _ => Done tt)
  end.

Definition free_prog (op : FreeOp) : Prog unit :=
  match op with
  | FOutput chunk => apply_output chunk
  | FProcess process => apply_process cfg process
  | FIdle => idle_monitor_tick
  | FRegister id request => ignore (register_interface id request)
  | FClearInterface id => ignore (clear_interface id)
  | FMonitor id d failures => bind (monitor_turn id d failures) (fun _ => Done tt)
  | FRestoreCached => restore_cached_interfaces
  | FPrompt operation_id id text => ignore (prompt operation_id id text)
  | FDelivery operation_id id text delivery notify receipt sender =>
      ignore (submit_prompt_delivery operation_id id text delivery notify receipt sender)
  | FAbort operation_id id => ignore (abort_agent operation_id id)
  | FWriteRaw operation_id id data => ignore (write_raw operation_id id data)
  | FResize operation_id id cols rows => ignore (resize operation_id id cols rows)
  | FSnapshot id cursor => ignore (terminal_snapshot id cursor)
  | FReadQueue id limit now => bind (atom (read_prompt_queue id limit now)) (fun _ => Done tt)
  | FClearStartup id => ignore (clear_startup id)
  | FReport id => ignore (private_state_report cfg id)
  | FReserve id bytes => ignore (reserve_private_state cfg id bytes)
  | FCommit id reservation => ignore (commit_private_state_reservation cfg id reservation)
  | FRelease id reservation => ignore (release_private_state_reservation cfg id reservation)
  | FVirtualHosts snapshot => ignore (replace_virtual_hosts cfg snapshot)
  | FProxyLink status => set_proxy_link_status status
  end.

(** ** Steps *)

(** A command sent to the Host and its operation ID. *)
Definition Sent : Type := (HostCommand * option string)%type.
Definition sent {B} (q : Sys B) : list Sent :=
  match q with AskHost command operation_id => [(command, operation_id)] | _ => [] end.

(** The operating system and the Host answer as they like. *)
Inductive prog_step {A} : Ctl -> Prog A -> list Sent -> Ctl -> Prog A -> Prop :=
| prog_atom {B} (f : Ctl -> B * Ctl) k c : prog_step c (Atom f k) [] (f c).2 (k (f c).1)
| prog_ask {B} (q : Sys B) k c b : prog_step c (Ask q k) (sent q) c (k b).

(** The Controller runs, is on its way up, or is down. *)
Inductive World : Type :=
| Running (c : Ctl) (holder : option (Prog unit)) (others : list (Prog unit))
| Booting (c : Ctl) (p : ProgR unit)
| Off (d : Disk).

Definition world_disk (w : World) : Disk :=
  match w with Running c _ _ | Booting c _ => sr_disk (ct_store c) | Off d => d end.

Definition with_faults (faults : list (option string)) (c : Ctl) : Ctl :=
  let st := ct_store c in
  let d := sr_disk st in
  set_store (mkStartupStore (sr_state st) (mkDisk (dk_file d) (dk_durable d) faults)) c.

(** [locks] and [frees] are the operations that may begin. *)
Inductive world_step (locks : LockedOp -> Prop) (frees : FreeOp -> Prop) : World -> list Sent -> World -> Prop :=
| world_lock c others op : locks op ->
    world_step locks frees (Running c None others) [] (Running c (Some (locked_prog op)) others)
| world_free c holder others op : frees op ->
    world_step locks frees (Running c holder others) [] (Running c holder (free_prog op :: others))
| world_hold c p others l c' p' : prog_step c p l c' p' ->
    world_step locks frees (Running c (Some p) others) l (Running c' (Some p') others)
| world_other c holder before p after l c' p' : prog_step c p l c' p' ->
    world_step locks frees (Running c holder (before ++ p :: after)) l (Running c' holder (before ++ p' :: after))
| world_unlock c p others :
    world_step locks frees (Running c (Some p) others) [] (Running c None others)
| world_leave c holder before p after :
    world_step locks frees (Running c holder (before ++ p :: after)) [] (Running c holder (before ++ after))
| world_faults c holder others faults :
    world_step locks frees (Running c holder others) [] (Running (with_faults faults c) holder others)
| world_crash w : world_step locks frees w [] (Off (world_disk w))
| world_power d file : file = dk_file d \/ file = dk_durable d ->
    world_step locks frees (Off d) [] (Off (mkDisk file file (dk_faults d)))
| world_off_faults d faults :
    world_step locks frees (Off d) [] (Off (mkDisk (dk_file d) (dk_durable d) faults))
| world_boot d sync cache c p : from_sync cfg sync d cache = Ok (c, p) ->
    world_step locks frees (Off d) [] (Booting c p)
| world_booting c p l c' p' : prog_step c p l c' p' ->
    world_step locks frees (Booting c p) l (Booting c' p')
| world_up c : world_step locks frees (Booting c (Done (Ok tt))) [] (Running c None []).

Inductive runs (locks : LockedOp -> Prop) (frees : FreeOp -> Prop) : World -> list Sent -> World -> Prop :=
| runs_here w : runs locks frees w [] w
| runs_step w l w1 tr w2 : world_step locks frees w l w1 -> runs locks frees w1 tr w2 ->
    runs locks frees w (l ++ tr) w2.

(** ** The logic *)

Section Logic.
Context (J : StartupStore -> Prop) (R : StartupStore -> StartupStore -> Prop) (G : HostCommand -> Prop).

(** A step that changes what is saved keeps the invariant and is one of the allowed changes. *)
Definition kept (st st' : StartupStore) : Prop := st' = st \/ (J st' /\ R st st').

Definition may_ask {B} (q : Sys B) : Prop := match q with AskHost command _ => G command | _ => True end.

Fixpoint safe {A} (Q : A -> Prop) (p : Prog A) : Prop :=
  match p with
  | Done a => Q a
  | Atom f k => forall c, J (ct_store c) -> kept (ct_store c) (ct_store (f c).2) /\ safe Q (k (f c).1)
  | Ask q k => may_ask q /\ forall b, safe Q (k b)
  end.

Definition anything {A} (_ : A) : Prop := True.

Lemma safe_weaken {A} (Q Q' : A -> Prop) p : safe Q p -> (forall a, Q a -> Q' a) -> safe Q' p.
Proof.
  intros Hp HQ. induction p as [a|B f k IH|B q k IH]; cbn in *; [auto| |].
  - intros c Hc. destruct (Hp c Hc). auto.
  - destruct Hp. auto.
Qed.

Lemma prog_safe_bind {A B} (Q : A -> Prop) (Q' : B -> Prop) p h :
  safe Q p -> (forall a, Q a -> safe Q' (h a)) -> safe Q' (bind p h).
Proof.
  intros Hp HQ. induction p as [a|C f k IH|C q k IH]; cbn in *; [auto| |].
  - intros c Hc. destruct (Hp c Hc). auto.
  - destruct Hp. auto.
Qed.

Lemma safe_any {A} (Q : A -> Prop) p : safe Q p -> safe anything p.
Proof. intros Hp. by apply (safe_weaken Q). Qed.

(** The form the walk through a program uses: the first part promises nothing. *)
Lemma safe_seq {A B} (Q' : B -> Prop) (p : Prog A) h : safe anything p -> (forall a, safe Q' (h a)) -> safe Q' (bind p h).
Proof. intros Hp Hh. apply (prog_safe_bind anything); auto. Qed.

Definition on_ok {A E} (Q : A -> Prop) (r : Result A E) : Prop := match r with Ok a => Q a | Err _ => True end.

Lemma prog_safe_try {A B} (Q : A -> Prop) (Q' : B -> Prop) (p : ProgR A) h :
  safe (on_ok Q) p -> (forall a, Q a -> safe (on_ok Q') (h a)) -> safe (on_ok Q') (try p h).
Proof. intros Hp Hh. apply (prog_safe_bind (on_ok Q)); [done|]. intros [a|e] Ha; cbn in *; auto. Qed.
Lemma safe_then {A B} (Q' : B -> Prop) (p : ProgR A) h :
  safe anything p -> (forall a, safe (on_ok Q') (h a)) -> safe (on_ok Q') (try p h).
Proof. intros Hp Hh. apply safe_seq; [done|]. intros [a|e]; cbn; auto. Qed.
Lemma safe_then_any {A B} (p : ProgR A) (h : A -> ProgR B) :
  safe anything p -> (forall a, safe anything (h a)) -> safe anything (try p h).
Proof. intros Hp Hh. apply safe_seq; [done|]. intros [a|e]; cbn; [auto|done]. Qed.
Lemma safe_try_any {A B} (Q : A -> Prop) (p : ProgR A) (h : A -> ProgR B) :
  safe (on_ok Q) p -> (forall a, Q a -> safe anything (h a)) -> safe anything (try p h).
Proof. intros Hp Hh. apply (prog_safe_bind (on_ok Q)); [done|]. intros [a|e] Ha; cbn in *; [auto|done]. Qed.

Lemma safe_atom {A} (Q : A -> Prop) (f : Ctl -> A * Ctl) :
  (forall c, J (ct_store c) -> kept (ct_store c) (ct_store (f c).2) /\ Q (f c).1) -> safe Q (atom f).
Proof. done. Qed.
Lemma safe_atom_store {A} (f : Ctl -> A * Ctl) : (forall c, ct_store (f c).2 = ct_store c) -> safe anything (atom f).
Proof. intros Hf c Hc. split; [by left|done]. Qed.
Lemma safe_peek {A} (f : Ctl -> A) : safe anything (peek f).
Proof. by apply safe_atom_store. Qed.
Lemma safe_poke (f : Ctl -> Ctl) : (forall c, ct_store (f c) = ct_store c) -> safe anything (poke f).
Proof. intros Hf. by apply safe_atom_store. Qed.
Lemma safe_store_atom {A} (m : SM A) : (forall st, J st -> kept st (m st).2) -> safe anything (store_atom m).
Proof.
  intros Hm. apply safe_atom. intros c Hc. specialize (Hm _ Hc). by destruct (m (ct_store c)).
Qed.
Lemma safe_store_try {A} (m : SM A) : (forall st, J st -> kept st (m st).2) -> safe anything (store_try m).
Proof. intros Hm. apply safe_seq; [by apply safe_store_atom|]. done. Qed.
Lemma safe_ignore {A} (p : ProgR A) : safe anything p -> safe anything (ignore p).
Proof. intros Hp. by apply safe_seq. Qed.
End Logic.
End Runs.

(** Walks through a program whose steps leave the saved launches alone. *)
Create HintDb safe.
#[export] Hint Resolve safe_peek : safe.

Ltac store_same :=
  let c := fresh "c" in intros c; cbn;
  repeat (first [reflexivity | match goal with |- context [match ?x with _ => _ end] => destruct x; cbn end]).

Ltac safe_walk :=
  intros;
  lazymatch goal with
  | |- safe _ _ _ anything (bind (saved _) _) => idtac
  | |- safe _ _ _ anything (try _ _) => apply safe_then_any; safe_walk
  | |- safe _ _ _ anything (bind _ _) => apply safe_seq; safe_walk
  | |- safe _ _ _ anything (ignore _) => apply safe_ignore; safe_walk
  | |- safe _ _ _ anything (match ?x with _ => _ end) => destruct x; safe_walk
  | |- safe _ _ _ anything (Done _) => exact I
  | |- safe _ _ _ anything (ok _) => exact I
  | |- safe _ _ _ anything (throw _) => exact I
  | |- safe _ _ _ anything (lift _) => exact I
  | |- safe _ _ _ anything (peek _) => apply safe_peek
  | |- safe _ _ _ anything (poke _) => try (apply safe_poke; solve [store_same])
  | |- safe _ _ _ anything (atom _) => try (apply safe_atom_store; solve [store_same])
  | |- safe _ _ _ anything (ask _) => split; [try exact I; cbn; auto|done]
  | |- _ => eauto with safe
  end.
