(* ===== verification/ControllerSafe.v ===== *)
(** * What the operations of the Controller keep of a saved launch

    For one identity: an invariant of what is saved about it ([good], [writable] what may be written)
    and whether a process may be spawned for it.  Each operation is [safe] for it, under the
    conditions its writes and spawns need. *)

From stdpp Require Import gmap pretty sorting.
From S2P Require Import Prelude RustStr Protocol HostProtocol Activity ProxyTypes.
From S2P Require Import StartupStore StartupFacts PrivateState ControllerTypes Controller ControllerLife.
From S2P Require Import ControllerRecovery ControllerInterface ControllerRuns.
Local Open Scope Z_scope.
Local Open Scope prog_scope.

(** A watch on the identity [id]. *)
Record Watch `{StartupJson} (id : string) (J : StartupStore -> Prop) (R : StartupStore -> StartupStore -> Prop)
    (good : option StoredAgentStartup -> Prop) (writable : StoredAgentStartup -> Prop) (undenied : Prop) : Prop := {
  watch_ok st : J st -> state_ok (sr_state st);
  watch_good st : J st -> good (StartupStore.get id st);
  watch_undenied st : J st -> is_denied id st = false -> undenied;
  watch_upsert st e : J st -> (entry_id e = id -> writable e) -> kept J R st (upsert e st).2;
  watch_update st i f : J st -> (forall e, i = id -> good (Some e) -> writable (f e)) -> kept J R st (update i f st).2;
  watch_remove st i : J st -> (i = id -> good None) -> kept J R st (StartupStore.remove i st).2;
  watch_remove_deleted st i : J st -> (i = id -> good None) -> kept J R st (remove_deleted i st).2;
  watch_deny st i : J st -> kept J R st (deny_absent i st).2;
  watch_disable e : good (Some e) -> writable (set_spec (spec_enabled false) e)
}.

(** The other changes to a saved launch. *)
Record Edits (good : option StoredAgentStartup -> Prop) (writable : StoredAgentStartup -> Prop) : Prop := {
  edit_epoch e epoch : good (Some e) -> writable (set_host_epoch epoch e);
  edit_zero e : good (Some e) -> writable (set_spec (spec_generation 0) e);
  edit_bump e n : good (Some e) -> as_enabled (se_spec e) = true -> writable (set_spec (spec_generation n) e);
  edit_revise e request revision e' : good (Some e) -> app_revision request revision e = NewRevision e' -> writable e';
  edit_relaunch e e' : good (Some e) -> as_kind (se_spec e) <> "app"%string ->
    as_enabled (se_spec e') = as_enabled (se_spec e) -> writable e'
}.

(** What turning a saved launch on needs, and what declaring one needs. *)
Record CanEnable (good : option StoredAgentStartup -> Prop) (writable : StoredAgentStartup -> Prop) (spawnable : Prop)
    : Prop := {
  enable_next e epoch : good (Some e) -> writable (next_generation epoch e);
  enable_adopt e epoch : good (Some e) -> writable (set_host_epoch epoch (set_spec (spec_enabled true) e));
  enable_spawn e : good (Some e) -> spawnable
}.
Definition can_declare (id : string) (writable : StoredAgentStartup -> Prop) : Prop := forall e, entry_id e = id -> writable e.

Definition spawns (id : string) (command : HostCommand) : Prop :=
  match command with CmdSpawn request => hsr_process_id request = id | _ => False end.
(** The commands a task may send: everything, or all but a spawn of the identity. *)
Definition spawn_guard (id : string) (spawnable : Prop) (command : HostCommand) : Prop := spawns id command -> spawnable.

Lemma dedup_elem x l : x ∈ ControllerRecovery.dedup l -> x ∈ l.
Proof.
  induction l as [|y l IH]; [done|]. cbn [ControllerRecovery.dedup]. destruct l as [|z l]; [done|].
  case_match; [|rewrite elem_of_cons]; intros Hx; [by right; apply IH|]. destruct Hx as [->|Hx]; [by left|by right; apply IH].
Qed.

Section Safe.
Context (cfg : Config) `{StartupJson} `{CtlText}.
Context (id : string) (J : StartupStore -> Prop) (R : StartupStore -> StartupStore -> Prop)
  (good : option StoredAgentStartup -> Prop) (writable : StoredAgentStartup -> Prop) (undenied spawnable : Prop).
Context (W : Watch id J R good writable undenied) (E : Edits good writable).
Context (Henable : forall e, good (Some e) -> as_enabled (se_spec e) = true -> CanEnable good writable spawnable).

Notation G := (spawn_guard id spawnable).
Notation Safe := (safe J R G).

(** ** The pieces *)

Definition found (aid : string) (o : option StoredAgentStartup) : Prop :=
  (aid = id -> good o) /\ forall e, o = Some e -> entry_id e = aid.

Lemma safe_saved aid : Safe (found aid) (saved aid).
Proof.
  apply safe_atom. intros c Hc. split; [by left|]. cbn. split.
  - intros ->. by apply (watch_good _ _ _ _ _ _ W).
  - intros e He. apply (watch_ok _ _ _ _ _ _ W) in Hc as [Hk _]. by apply Hk in He as [? _].
Qed.

Lemma safe_saved_then {A} aid (Q : A -> Prop) h : (forall o, found aid o -> Safe Q (h o)) -> Safe Q (bind (saved aid) h).
Proof. apply prog_safe_bind, safe_saved. Qed.

Lemma safe_upsert e : (entry_id e = id -> writable e) -> Safe anything (store_try (upsert e)).
Proof. intros He. apply safe_store_try. intros st Hst. by apply (watch_upsert _ _ _ _ _ _ W). Qed.
Lemma safe_update aid f : (forall e, aid = id -> good (Some e) -> writable (f e)) -> Safe anything (store_try (update aid f)).
Proof. intros He. apply safe_store_try. intros st Hst. by apply (watch_update _ _ _ _ _ _ W). Qed.

Lemma safe_disable aid e : found aid (Some e) -> Safe anything (store_try (upsert (set_spec (spec_enabled false) e))).
Proof.
  intros [Hg Hk]. apply safe_upsert. specialize (Hk e eq_refl). intros Hid. cbn in Hid.
  apply (watch_disable _ _ _ _ _ _ W), Hg. by rewrite <- Hk.
Qed.

Lemma safe_with_agent {A} aid message (f : ControllerAgent -> A * ControllerAgent) : Safe anything (with_agent aid message f).
Proof.
  apply safe_atom_store. intros c. destruct (lock_agent aid message c) as [a|e]; [|done]. by destruct (f a).
Qed.
Lemma safe_emit info : Safe anything (emit info).
Proof. by apply safe_poke. Qed.
Lemma safe_emit_process p : Safe anything (emit_process p).
Proof. by apply safe_poke. Qed.
Lemma safe_uncache aid : Safe anything (remove_cached_interface aid).
Proof. by apply safe_poke. Qed.
Lemma safe_unproxy aid : Safe anything (poke (remove_proxy aid)).
Proof. by apply safe_poke. Qed.
Lemma safe_denied aid : Safe anything (denied aid).
Proof. apply safe_peek. Qed.
Hint Resolve safe_with_agent safe_emit safe_emit_process safe_uncache safe_unproxy safe_denied : safe.

Lemma safe_cache info : Safe anything (cache_interface info).
Proof. unfold cache_interface. destruct (ag_pid info), (ag_interface info); auto with safe. by apply safe_poke. Qed.

Lemma ensure_entry_store aid credential port bound c : ct_store (ensure_entry aid credential port bound c).2 = ct_store c.
Proof. unfold ensure_entry. repeat case_match; done. Qed.
Lemma safe_ensure aid credential port : Safe anything (ensure aid credential port).
Proof. apply safe_seq; [by split; [|done]|]. intros bound. apply safe_atom_store, ensure_entry_store. Qed.

Lemma publish_store process metadata inventory bound agent c :
  ct_store (publish process metadata inventory bound agent c).2 = ct_store c.
Proof.
  unfold publish. case_match; [done|].
  set (x := if hpi_running process then _ else _).
  assert (ct_store x.2 = ct_store c) as Hx.
  { subst x. repeat case_match; try done;
    match goal with E : ensure_entry ?a ?b ?p ?bo c = (_, ?c') |- _ =>
      pose proof (ensure_entry_store a b p bo c) as Hs; by rewrite E in Hs end. }
  destruct x as [[u|e] c1]; cbn in *; [|done]. repeat case_match; done.
Qed.

Lemma safe_process_response response status : Safe anything (process_response response status).
Proof. unfold process_response. safe_walk. Qed.
Hint Resolve safe_cache safe_ensure safe_process_response : safe.

Lemma safe_disable_completed info process : Safe anything (disable_completed info process).
Proof.
  unfold disable_completed. case_match; [|done]. apply safe_saved_then. intros [e|] Hf; [|done].
  case_match; [by apply (safe_disable (ag_agent_id info))|done].
Qed.
Hint Resolve safe_disable_completed : safe.

Lemma safe_restored_status process text : Safe anything (restored_status process text).
Proof. unfold restored_status. safe_walk. Qed.
Lemma safe_after_publish process taken info : Safe anything (after_publish process taken info).
Proof. unfold after_publish. safe_walk. Qed.
Hint Resolve safe_restored_status safe_after_publish : safe.

Lemma safe_require aid : Safe (on_ok (fun _ : unit => aid = id -> undenied)) (require_not_denied aid).
Proof.
  unfold require_not_denied. apply (prog_safe_bind _ _ _ (fun b => b = false -> aid = id -> undenied)).
  - apply safe_atom. intros c Hc. split; [by left|]. intros Hd ->. by apply (watch_undenied _ _ _ _ _ _ W (ct_store c)).
  - intros [] Hd; [done|]. intros ->. by apply Hd.
Qed.
Lemma safe_require_any aid : Safe anything (require_not_denied aid).
Proof. eapply safe_any, safe_require. Qed.
Hint Resolve safe_require_any : safe.

Lemma safe_upsert_newer process metadata text : Safe anything (upsert_newer cfg process metadata text).
Proof.
  unfold upsert_newer. case_match; [done|]. safe_walk. apply safe_atom_store. intros c. apply publish_store.
Qed.
Hint Resolve safe_upsert_newer : safe.
Lemma safe_upsert_process process text : Safe anything (upsert_process cfg process text).
Proof. unfold upsert_process. safe_walk. Qed.
Hint Resolve safe_upsert_process : safe.

(** ** Following the Host *)

Lemma safe_apply_output chunk : Safe anything (apply_output chunk).
Proof.
  unfold apply_output. safe_walk. apply safe_atom_store. intros c. unfold apply_output_to.
  destruct (try_lock _ c) as [agent|]; [|done]. case_match; [done|]. destruct (append_chunk _ _ _) as [[] ?]; done.
Qed.

Lemma safe_apply_process process : Safe anything (apply_process cfg process).
Proof.
  unfold apply_process, apply_same_run. safe_walk. apply safe_saved_then. intros [e|] Hf; [|done].
  apply safe_seq; [|done]. apply safe_store_atom. intros st Hst. apply (watch_upsert _ _ _ _ _ _ W); [done|].
  destruct Hf as [Hg Hk]. specialize (Hk e eq_refl). intros Hid. cbn in Hid.
  apply (watch_disable _ _ _ _ _ _ W), Hg. by rewrite <- Hk.
Qed.

Lemma safe_idle_pass ids : Safe anything (idle_pass ids).
Proof.
  induction ids as [|i ids IH]; cbn [idle_pass]; [done|]. safe_walk. apply safe_atom_store. intros c. unfold tick_agent.
  destruct (try_lock i c) as [agent|]; [|done]. destruct (idle_tick _ _ agent) as [[] ?]; done.
Qed.
Hint Resolve safe_idle_pass : safe.
Lemma safe_idle : Safe anything idle_monitor_tick.
Proof. unfold idle_monitor_tick. safe_walk. Qed.

(** ** Interfaces, prompts and output *)

Lemma safe_validate aid d : Safe anything (validate_interface_manifest aid d).
Proof. unfold validate_interface_manifest. safe_walk. Qed.
Hint Resolve safe_validate : safe.

Lemma safe_register aid request : Safe anything (register_interface aid request).
Proof. unfold register_interface. safe_walk. Qed.
Lemma safe_clear_interface aid : Safe anything (clear_interface aid).
Proof. unfold clear_interface. safe_walk. Qed.
Lemma safe_update_status aid status : Safe anything (update_agent_status aid status).
Proof. unfold update_agent_status. safe_walk. Qed.
Lemma safe_expire aid instance at_ : Safe anything (expire_interface aid instance at_).
Proof. unfold expire_interface. safe_walk. Qed.
Hint Resolve safe_update_status safe_expire : safe.
Lemma safe_answer aid d : Safe anything (interface_answer aid d).
Proof. unfold interface_answer. safe_walk. Qed.
Hint Resolve safe_answer : safe.
Lemma safe_monitor aid d failures : Safe anything (monitor_turn aid d failures).
Proof. unfold monitor_turn. safe_walk. Qed.
Lemma safe_restore_cached l : Safe anything (restore_cached l).
Proof.
  induction l as [|e l IH]; cbn [restore_cached]; [done|]. safe_walk. apply safe_atom_store. intros c. unfold reinstall.
  repeat case_match; done.
Qed.
Hint Resolve safe_restore_cached : safe.
Lemma safe_restore_interfaces : Safe anything restore_cached_interfaces.
Proof. unfold restore_cached_interfaces. safe_walk. Qed.

Lemma safe_host command operation_id : ~ spawns id command -> Safe anything (ask (AskHost command operation_id)).
Proof. intros Hn. split; [|done]. cbn. by unfold spawn_guard. Qed.
Lemma safe_write operation_id aid writes : Safe anything (write_terminal operation_id aid writes).
Proof. unfold write_terminal. apply safe_seq; [apply safe_host; intros []|done]. Qed.
Hint Resolve safe_write : safe.
Lemma safe_prompt operation_id aid text : Safe anything (prompt operation_id aid text).
Proof. unfold prompt. safe_walk. Qed.
Hint Resolve safe_prompt : safe.
Lemma safe_capability aid capability message : Safe anything (require_capability aid capability message).
Proof. unfold require_capability. safe_walk. Qed.
Hint Resolve safe_capability : safe.
Lemma safe_delivery operation_id aid text delivery notify receipt sender :
  Safe anything (submit_prompt_delivery operation_id aid text delivery notify receipt sender).
Proof. unfold submit_prompt_delivery. safe_walk. Qed.
Lemma safe_abort operation_id aid : Safe anything (abort_agent operation_id aid).
Proof. unfold abort_agent. safe_walk. Qed.
Lemma safe_write_raw operation_id aid data : Safe anything (write_raw operation_id aid data).
Proof. unfold write_raw. safe_walk. Qed.
Lemma safe_resize operation_id aid cols rows : Safe anything (resize operation_id aid cols rows).
Proof. unfold resize. apply safe_seq; [apply safe_host; intros []|]. safe_walk. Qed.
Lemma safe_snapshot aid cursor : Safe anything (terminal_snapshot aid cursor).
Proof. unfold terminal_snapshot. apply safe_seq; [apply safe_host; intros []|]. safe_walk. Qed.
Lemma safe_read_queue aid limit now : Safe anything (atom (read_prompt_queue aid limit now)).
Proof.
  apply safe_atom_store. intros c. unfold read_prompt_queue, poison. repeat (case_match; try done; cbn).
  by destruct (ct_agents c !! aid).
Qed.

(** ** Private state *)

Lemma safe_ledger {A} (m : LedgerM A) : Safe anything (ledger_atom m).
Proof. apply safe_atom_store. intros c. by destruct (m (ct_ledger c)). Qed.
Lemma safe_with_root {A} (q : Sys (Result A ProtocolError)) : may_ask G q -> Safe anything (with_root cfg q).
Proof. intros Hq. unfold with_root. case_match; [by split; [|done]|done]. Qed.
Hint Resolve safe_ledger : safe.
Hint Extern 1 (safe _ _ _ _ (with_root _ _)) => (apply safe_with_root; exact I) : safe.

Lemma safe_state_status aid create : Safe anything (private_state_status cfg aid create).
Proof. unfold private_state_status. apply safe_seq; [by destruct create; apply safe_with_root|]. safe_walk. Qed.
Hint Resolve safe_state_status : safe.
Lemma safe_measure_all ids : Safe anything (measure_all ids).
Proof. induction ids; cbn [measure_all]; [done|]. safe_walk. Qed.
Hint Resolve safe_measure_all : safe.
Lemma safe_known aid : Safe anything (require_known_workload aid).
Proof. unfold require_known_workload. apply safe_saved_then. intros o _. safe_walk. Qed.
Lemma safe_inventory : Safe anything (complete_private_state_inventory cfg).
Proof. unfold complete_private_state_inventory. safe_walk. Qed.
Hint Resolve safe_known safe_inventory : safe.
Lemma safe_refresh aid : Safe anything (refresh_private_state_measurement cfg aid).
Proof. unfold refresh_private_state_measurement. safe_walk. Qed.
Lemma safe_purged aid : Safe anything (purged aid).
Proof. apply safe_peek. Qed.
Hint Resolve safe_refresh safe_purged : safe.
Lemma safe_report aid : Safe anything (private_state_report cfg aid).
Proof. unfold private_state_report. safe_walk. Qed.
Lemma safe_available aid : Safe anything (require_private_state_available cfg aid).
Proof. unfold require_private_state_available. safe_walk. Qed.
Hint Resolve safe_available : safe.
Lemma safe_reserve aid bytes : Safe anything (reserve_private_state cfg aid bytes).
Proof. unfold reserve_private_state. safe_walk. Qed.
Lemma safe_commit aid reservation : Safe anything (commit_private_state_reservation cfg aid reservation).
Proof. unfold commit_private_state_reservation. safe_walk. Qed.
Lemma safe_release aid reservation : Safe anything (release_private_state_reservation cfg aid reservation).
Proof. unfold release_private_state_reservation. safe_walk. Qed.

Lemma safe_virtual_hosts snapshot : Safe anything (replace_virtual_hosts cfg snapshot).
Proof. unfold replace_virtual_hosts. safe_walk. Qed.

Lemma safe_clear_startup aid : (aid = id -> good None) -> Safe anything (clear_startup aid).
Proof. intros Hn. apply safe_store_try. intros st Hst. by apply (watch_remove _ _ _ _ _ _ W). Qed.

(** Every operation outside the recovery lock. *)
Lemma safe_free op : (op = FClearStartup id -> good None) -> Safe anything (free_prog cfg op).
Proof.
  intros Hc. destruct op; cbn [free_prog]; try apply safe_ignore; try (apply safe_seq; [|done]);
    auto using safe_apply_output, safe_apply_process, safe_idle, safe_register, safe_clear_interface, safe_monitor,
      safe_restore_interfaces, safe_prompt, safe_delivery, safe_abort, safe_write_raw, safe_resize, safe_snapshot,
      safe_read_queue, safe_report, safe_reserve, safe_commit, safe_release, safe_virtual_hosts.
  - apply safe_clear_startup. intros ->. by apply Hc.
  - by apply safe_poke.
Qed.

(** ** Starting a process *)

Lemma found_good aid e : found aid (Some e) -> entry_id e = id -> good (Some e).
Proof. intros [Hg Hk] Hid. apply Hg. by rewrite <- (Hk e eq_refl). Qed.

Lemma safe_host_call command operation_id : ~ spawns id command -> Safe anything (host_call command operation_id).
Proof. intros Hn. apply safe_seq; [by apply safe_host|done]. Qed.
Lemma safe_sync : Safe anything host_sync.
Proof. apply safe_host_call. intros []. Qed.
Hint Resolve safe_sync : safe.
Hint Extern 1 (safe _ _ _ _ (host_call _ _)) => (apply safe_host_call; intros []) : safe.

Lemma safe_search command directories : Safe anything (search_command command directories).
Proof. induction directories as [|d l IH]; cbn [search_command]; [done|]. safe_walk. Qed.
Hint Resolve safe_search : safe.
Lemma safe_resolve command env : Safe anything (resolve_agent_command command env).
Proof. unfold resolve_agent_command. safe_walk. Qed.
Lemma safe_inject env aid : Safe anything (inject_private_state cfg env aid).
Proof. unfold inject_private_state. safe_walk. Qed.
Lemma safe_metadata m : Safe anything (metadata_json m).
Proof. done. Qed.
Lemma safe_directory requested : Safe anything (resolve_machine_directory requested).
Proof. unfold resolve_machine_directory. safe_walk. Qed.
Lemma safe_materialize entry : Safe anything (materialize_startup entry).
Proof. unfold materialize_startup. safe_walk. Qed.
Hint Resolve safe_resolve safe_inject safe_metadata safe_directory safe_materialize : safe.

Lemma safe_spawn_process request operation_id :
  (hsr_process_id request = id -> spawnable) -> Safe anything (spawn_process request operation_id).
Proof. intros Hs. unfold spawn_process. apply safe_seq; [by split; [|done]|]. safe_walk. Qed.

Lemma safe_spawn_startup entry : (entry_id entry = id -> spawnable) -> Safe anything (spawn_startup cfg entry).
Proof.
  intros Hs. unfold spawn_startup. case_match; [|done]. safe_walk. by apply safe_spawn_process.
Qed.

Lemma safe_start_inventory operation_id aid restart processes :
  (aid = id -> forall e, good (Some e) -> CanEnable good writable spawnable) ->
  Safe anything (start_inventory cfg operation_id aid restart processes).
Proof.
  intros He. induction processes as [|p l IH]; cbn [start_inventory]; [done|].
  safe_walk; try exact IH. apply safe_update. intros e Hid Hg.
  by apply (enable_adopt _ _ _ (He Hid e Hg)).
Qed.

Lemma safe_start_locked operation_id aid restart :
  (aid = id -> forall e, good (Some e) -> CanEnable good writable spawnable) ->
  Safe anything (start_locked cfg operation_id aid restart).
Proof.
  intros He. unfold start_locked. apply safe_then_any; [apply safe_sync|]. intros response.
  apply safe_then_any; [by apply safe_start_inventory|]. intros [info|]; [done|].
  apply safe_saved_then. intros [e|] Hf; [|done]. cbn [ok_or lift try bind].
  apply safe_seq; [apply safe_peek|]. intros epoch.
  assert (entry_id e = id -> CanEnable good writable spawnable /\ good (Some e)) as Hc.
  { intros Hid. pose proof (found_good _ _ Hf Hid) as Hg. split; [|done].
    apply (He ltac:(by destruct Hf as [_ Hk]; rewrite <- (Hk e eq_refl)) e Hg). }
  apply safe_then_any.
  - apply safe_upsert. intros Hid. destruct (Hc Hid) as [Hen Hg]. by apply (enable_next _ _ _ Hen).
  - intros _. apply safe_spawn_startup. intros Hid. destruct (Hc Hid) as [Hen Hg]. by apply (enable_spawn _ _ _ Hen e).
Qed.

(** ** Declaring *)

(** What an operation needs that declares the identity, turns it on or spawns it. *)
Definition owned : Prop :=
  (forall e, good (Some e) -> CanEnable good writable spawnable) /\ (good None -> can_declare id writable) /\ spawnable.

Lemma safe_resolve_for_create command aid env : Safe anything (resolve_for_create command aid env).
Proof. unfold resolve_for_create. safe_walk. Qed.
Hint Resolve safe_resolve_for_create : safe.

Lemma safe_create operation_id aid credential request :
  (aid = id -> undenied -> owned) -> Safe anything (create cfg operation_id aid credential request).
Proof.
  intros Hd. unfold create. eapply safe_try_any; [apply safe_require|]. intros u Hu.
  assert (aid = id -> owned) as Hd' by auto. clear Hd Hu.
  case_match; [done|]. apply safe_then_any; [done|]. intros [kind launch]. case_match; [done|].
  apply safe_then_any; [auto with safe|]. intros command. apply safe_seq; [apply safe_peek|]. intros epoch.
  apply safe_saved_then. intros o Hf. apply safe_then_any.
  { destruct o as [e|]; [done|]. apply safe_upsert. intros Hid. cbn in Hid. destruct Hf as [Hg _].
    destruct (Hd' Hid) as (_ & Hdecl & _). by apply Hdecl; [apply Hg|]. }
  intros _. apply safe_then_any; [auto with safe|]. intros env. apply safe_then_any; [auto with safe|]. intros port.
  apply safe_seq; [eapply safe_any, safe_saved|]. intros o'.
  apply safe_then_any; [done|]. intros metadata. apply safe_then_any; [|safe_walk].
  apply safe_spawn_process. intros Hid. by apply Hd'.
Qed.

Lemma safe_checked_app aid request : Safe (on_ok (fun e => found aid (Some e))) (checked_app_startup cfg aid request).
Proof.
  unfold checked_app_startup. apply safe_then; [done|]. intros _. apply safe_saved_then. intros [e|] Hf; [|done].
  cbn [ok_or lift try bind]. repeat (case_match; [done|]). apply safe_then; [apply safe_directory|]. done.
Qed.

Lemma revised_same request revision e e' : app_revision request revision e = NewRevision e' ->
  entry_id e' = entry_id e /\ as_enabled (se_spec e') = as_enabled (se_spec e).
Proof. unfold app_revision. repeat case_match; intros [= <-]; cbn; split; try done; by destruct (rsr_cwd request). Qed.

(** The saved launch it ends with is turned on only when the one it began with was. *)
Lemma safe_save_app aid request revision :
  Safe (on_ok (fun r => aid = id -> as_enabled (se_spec r.1) = true -> exists e, good (Some e) /\ as_enabled (se_spec e) = true))
    (save_app_startup_locked cfg aid request revision).
Proof.
  unfold save_app_startup_locked. eapply prog_safe_try; [apply safe_checked_app|]. intros e Hf.
  destruct (app_revision request revision e) as [| | |e'] eqn:Hr; try done.
  - intros Hid. exists e. split; [by apply Hf|done].
  - apply revised_same in Hr as Hs. destruct Hs as [Hid' Hen]. apply safe_then.
    + apply safe_upsert. intros Hid. rewrite Hid' in Hid. eapply (edit_revise _ _ E); [|done].
      by apply (found_good aid).
    + intros _ Hid Het. exists e. split; [by apply Hf|]. cbn in Het. congruence.
Qed.

Lemma safe_start_if_on operation_id aid restart :
  (aid = id -> exists e, good (Some e) /\ as_enabled (se_spec e) = true) ->
  Safe anything (start_locked cfg operation_id aid restart).
Proof.
  intros He. apply safe_start_locked. intros Hid e _. destruct (He Hid) as (e0 & Hg & Hon). by apply (Henable e0).
Qed.

Lemma safe_get_startup aid : Safe anything (get_startup cfg aid).
Proof. unfold get_startup. apply safe_saved_then. done. Qed.
Hint Resolve safe_get_startup : safe.

Lemma safe_update_app operation_id aid request revision : Safe anything (update_app_startup cfg operation_id aid request revision).
Proof.
  unfold update_app_startup. eapply safe_try_any; [apply safe_save_app|]. intros [e changed] He. cbn [fst] in He.
  apply safe_then_any; [|auto with safe]. destruct changed, (as_enabled (se_spec e)) eqn:Hon; cbn [andb]; try done.
  apply safe_then_any; [|done]. apply safe_start_if_on. auto.
Qed.

Lemma safe_declare_revision operation_id aid request enabled start_missing revision : (aid = id -> owned) ->
  Safe anything (declare_revision cfg operation_id aid request enabled start_missing revision).
Proof.
  intros Ho. unfold declare_revision. destruct revision as [n|]; [|done]. case_match; [done|].
  apply safe_saved_then. intros o Hf. case_match; [|safe_walk].
  eapply safe_then_any; [eapply safe_any, safe_save_app|]. intros [e changed]. cbn [snd].
  case_match; [|done]. apply safe_then_any; [|done]. apply safe_start_locked. intros Hid. by apply Ho.
Qed.

Lemma safe_adopt_running aid processes : Safe anything (adopt_running cfg aid processes).
Proof. induction processes as [|p l IH]; cbn [adopt_running]; [done|]. safe_walk. Qed.
Hint Resolve safe_adopt_running : safe.

Lemma safe_declare_new aid credential request enabled start_missing revision : (aid = id -> owned) ->
  Safe anything (declare_new cfg aid credential request enabled start_missing revision).
Proof.
  intros Ho. unfold declare_new. apply safe_saved_then. intros [e|] [Hg _]; [done|]. cbn [is_some].
  apply safe_then_any; [done|]. intros [kind launch]. apply safe_seq; [apply safe_peek|]. intros live.
  apply safe_then_any; [done|]. intros c. case_match; [done|].
  apply safe_seq; [apply safe_peek|]. intros live'. apply safe_seq; [apply safe_peek|]. intros epoch.
  apply safe_then_any; [|done]. apply safe_upsert. intros Hid. cbn in Hid.
  destruct (Ho Hid) as (_ & Hd & _). by apply Hd; [apply Hg|].
Qed.

Lemma safe_turn_off aid : Safe anything (turn_off aid).
Proof. apply safe_update. intros e _. apply (watch_disable _ _ _ _ _ _ W). Qed.
Hint Resolve safe_turn_off : safe.

Lemma safe_bump_then {A} aid e n h : found aid (Some e) -> as_enabled (se_spec e) = true ->
  (forall u, Safe anything (h u)) -> Safe (@anything (Result A _)) (try (store_try (upsert (set_spec (spec_generation n) e))) h).
Proof.
  intros Hf Hon Hh. apply safe_then_any; [|done]. apply safe_upsert. intros Hid. cbn in Hid.
  by apply (edit_bump _ _ E); [apply (found_good aid)|].
Qed.

Lemma safe_ensure_started aid enabled start_missing newly : Safe anything (ensure_started cfg aid enabled start_missing newly).
Proof.
  unfold ensure_started. apply safe_seq; [apply safe_peek|]. intros present.
  apply safe_then_any; [safe_walk|]. intros info. case_match; [done|].
  apply safe_saved_then. intros [e|] Hf; [|done]. cbn [ok_or lift try bind].
  destruct (as_enabled (se_spec e)) eqn:Hon; cbn [negb orb]; [|apply safe_materialize].
  case_match; [apply safe_materialize|].
  assert (entry_id e = id -> spawnable) as Hs.
  { intros Hid. pose proof (found_good _ _ Hf Hid) as Hg. apply (enable_spawn _ _ _ (Henable e Hg Hon) e Hg). }
  destruct newly; [by apply safe_spawn_startup|]. apply (safe_bump_then aid); [done|done|]. intros u. by apply safe_spawn_startup.
Qed.

Lemma safe_ensure_app operation_id aid credential request enabled start_missing revision :
  (aid = id -> undenied -> owned) ->
  Safe anything (ensure_app_lifecycle cfg operation_id aid credential request enabled start_missing revision).
Proof.
  intros Hd. unfold ensure_app_lifecycle. eapply safe_try_any; [apply safe_require|]. intros u Hu.
  assert (aid = id -> owned) as Ho by auto. clear Hd Hu.
  apply safe_then_any; [by apply safe_declare_revision|]. intros [info|]; [done|].
  apply safe_then_any; [auto with safe|]. intros inventory. apply safe_then_any; [auto with safe|]. intros _.
  apply safe_then_any; [by apply safe_declare_new|]. intros newly.
  apply safe_then_any; [by case_match; [apply safe_turn_off|]|]. intros _.
  apply safe_then_any; [by case_match; [apply safe_turn_off|]|]. intros _.
  apply safe_seq; [apply safe_peek|]. intros running. case_match; [|apply safe_ensure_started].
  apply safe_seq; [apply safe_host; intros []|]. safe_walk.
Qed.

(** ** Replacing a launch *)

Lemma safe_replace aid request : (aid = id -> good None -> can_declare id writable) ->
  Safe anything (replace_startup_locked cfg aid request).
Proof.
  intros Hd. unfold replace_startup_locked. apply safe_then_any; [done|]. intros _.
  apply safe_saved_then. intros o Hf. apply safe_seq; [apply safe_peek|]. intros epoch.
  eapply (safe_try_any _ _ _ (fun e => entry_id e = aid /\ (entry_id e = id -> good (Some e) \/ can_declare id writable))).
  { destruct o as [e|].
    - cbn. split; [by destruct Hf as [_ ->]|]. intros Hid. left. by apply (found_good aid).
    - apply safe_then; [apply safe_peek|]. intros a. cbn. split; [done|]. intros ->. right. apply Hd; [done|]. by apply Hf. }
  intros e [Hid He]. destruct (as_kind (se_spec e) =s "app") eqn:Hk; [done|]. repeat (case_match; [done|]).
  apply (safe_try_any _ _ _ (fun e' => entry_id e' = entry_id e /\ as_enabled (se_spec e') = as_enabled (se_spec e))).
  { destruct (rsr_cwd request) as [cwd|]; [|done]. apply safe_then; [apply safe_directory|]. done. }
  intros e' [Hid' Hon]. apply safe_then_any; [|done]. apply safe_upsert. intros Hx. cbn in Hx. unfold entry_id in Hid'. rewrite Hid' in Hx.
  destruct (He Hx) as [Hg|Hdecl]; [|apply Hdecl; cbn; congruence].
  eapply (edit_relaunch _ _ E); [exact Hg| |done]. intros Happ. by rewrite Happ in Hk.
Qed.

Lemma safe_restart_with operation_id aid request :
  (aid = id -> good None -> can_declare id writable) ->
  (aid = id -> forall e, good (Some e) -> CanEnable good writable spawnable) ->
  Safe anything (restart_with_startup cfg operation_id aid request).
Proof.
  intros Hd He. unfold restart_with_startup. apply safe_then_any; [by apply safe_replace|]. intros _.
  by apply safe_start_locked.
Qed.

Lemma safe_set_startup aid request : (aid = id -> can_declare id writable) -> Safe anything (set_startup cfg aid request).
Proof.
  intros Hd. unfold set_startup. case_match; [done|]. apply safe_then_any; [apply safe_directory|]. intros _.
  apply safe_then_any; [done|]. intros ports. apply safe_then_any; [apply safe_peek|]. intros a. case_match; [done|].
  apply safe_seq; [eapply safe_any, safe_saved|]. intros o. apply safe_seq; [apply safe_peek|]. intros epoch.
  apply safe_then_any; [|done]. apply safe_upsert. intros Hid. by apply Hd.
Qed.

(** ** Stopping, restoring and cleaning up *)

Lemma safe_stop_inventory aid running processes : Safe anything (stop_inventory cfg aid running processes).
Proof.
  revert running. induction processes as [|p l IH]; intros running; cbn [stop_inventory]; [done|]. case_match; [|done].
  apply safe_then_any; auto with safe.
Qed.

Lemma safe_stop operation_id aid : Safe anything (stop cfg operation_id aid).
Proof.
  unfold stop, persist_stopped_startup. apply safe_then_any.
  { apply safe_saved_then. intros [e|] Hf; [by apply (safe_disable aid)|done]. }
  intros _. apply safe_then_any; [auto with safe|]. intros inventory.
  apply safe_then_any; [apply safe_stop_inventory|]. intros running. case_match.
  - apply safe_seq; [apply safe_peek|]. intros present. case_match; [safe_walk|].
    apply safe_saved_then. intros [e|] _; [apply safe_materialize|done].
  - apply safe_seq; [apply safe_host; intros []|]. safe_walk.
Qed.

Lemma safe_restore_inventory running processes : Safe anything (restore_inventory cfg running processes).
Proof.
  revert running. induction processes as [|p l IH]; intros running; cbn [restore_inventory]; [done|].
  apply safe_seq; [apply safe_denied|]. intros fenced. case_match; [done|]. apply safe_seq; [apply safe_peek|]. intros current.
  apply safe_seq; [safe_walk|]. done.
Qed.

Lemma safe_restore_entry running e : (entry_id e = id -> good (Some e)) -> as_enabled (se_spec e) = true ->
  Safe anything (restore_entry cfg running e).
Proof.
  intros Hg Hon. unfold restore_entry. apply safe_seq; [apply safe_peek|]. intros attached. case_match; [done|].
  apply (safe_bump_then (entry_id e)); [|done|].
  { split; [|by intros e' [= <-]]. done. }
  intros u. apply safe_then_any.
  { apply safe_spawn_startup. intros Hid. specialize (Hg Hid). apply (enable_spawn _ _ _ (Henable e Hg Hon) e Hg). }
  intros info. apply safe_seq; [apply safe_peek|]. intros epoch. apply safe_then_any; [|done].
  apply safe_update. intros e' _. apply (edit_epoch _ _ E).
Qed.

Lemma safe_restore_entries running active l : Forall (fun e => entry_id e = id -> good (Some e)) l ->
  Safe anything (restore_entries cfg running active l).
Proof.
  induction 1 as [|e l He Hl IH]; cbn [restore_entries]; [done|]. destruct (to_restore cfg active e) eqn:Ht; [|done]. cbn [negb].
  unfold to_restore in Ht. bool_hyps. apply safe_seq; [by apply safe_restore_entry|]. intros result. apply safe_seq; [done|done].
Qed.

Lemma safe_entries : Safe (Forall (fun e => entry_id e = id -> good (Some e))) (peek (fun c => entries (ct_store c))).
Proof.
  apply safe_atom. intros c Hc. split; [by left|]. cbn. apply Forall_forall. intros e He Hid.
  apply list_elem_of_fmap in He as ([i x] & -> & Hx). apply elem_of_map_to_list in Hx. cbn in *.
  pose proof (watch_ok _ _ _ _ _ _ W _ Hc) as [Hk _]. apply Hk in Hx as Hi. destruct Hi as [Hi _]. rewrite Hi in Hid. subst i.
  pose proof (watch_good _ _ _ _ _ _ W _ Hc) as Hg. unfold StartupStore.get in Hg. by rewrite Hx in Hg.
Qed.

Lemma safe_restore active : Safe anything (restore_startup_outcomes cfg active).
Proof.
  unfold restore_startup_outcomes. apply safe_seq; [apply safe_host; intros []|]. intros [[]|]; try done.
  apply safe_seq; [apply safe_restore_inventory|]. intros running.
  eapply prog_safe_bind; [apply safe_entries|]. intros all Hall. by apply safe_restore_entries.
Qed.

Lemma safe_fence aid : Safe anything (fence_absent_agent_reservation aid).
Proof.
  unfold fence_absent_agent_reservation. case_match; [done|]. apply safe_seq; [apply safe_peek|]. intros present. case_match; [done|].
  apply safe_saved_then. intros o _. case_match; [done|]. apply safe_seq; [apply safe_host; intros []|]. intros [[]|]; try done.
  case_match; [done|]. apply safe_store_try. intros st. apply (watch_deny _ _ _ _ _ _ W).
Qed.

Lemma safe_purge_one inventory aid : (aid = id -> good None) -> Safe anything (purge_one cfg inventory aid).
Proof.
  intros Hn. unfold purge_one. case_match.
  { apply safe_seq; [apply safe_host; intros []|]. safe_walk. }
  apply safe_seq; [by case_match; [apply safe_ignore, safe_upsert_process|]|]. intros _.
  apply safe_seq; [apply safe_peek|]. intros live. case_match; [done|].
  apply safe_then_any; [|safe_walk]. apply safe_store_try. intros st Hst. by apply (watch_remove_deleted _ _ _ _ _ _ W).
Qed.

Lemma safe_purge deleted : (id ∈ deleted -> good None) -> Safe anything (purge_deleted_private_state cfg deleted).
Proof.
  intros Hn. unfold purge_deleted_private_state.
  set (ids := ControllerRecovery.dedup _).
  assert (id ∈ ids -> good None) as Hids.
  { intros Hi. apply Hn. subst ids. apply dedup_elem in Hi. unfold sort_ids in Hi. rewrite merge_sort_Permutation in Hi.
    apply list_elem_of_In, List.filter_In in Hi as [Hi _]. by apply list_elem_of_In. }
  destruct ids as [|x l] eqn:Hl; [done|]. rewrite <- Hl in *. clear Hl. case_match; [|done].
  apply safe_seq; [apply safe_host; intros []|]. intros [[]|]; try done.
  assert (Forall (fun aid => aid = id -> good None) ids) as Hall by (apply Forall_forall; intros aid Ha ->; auto).
  clear Hids Hn. induction Hall as [|aid rest Ha Hr IH]; cbn [purge_each]; [done|].
  apply safe_seq; [by apply safe_purge_one|]. intros r. apply safe_seq; [done|done].
Qed.

(** ** The start of the Controller *)

Lemma safe_migrate process : Safe anything (migrate_legacy_live_generation cfg process).
Proof.
  unfold migrate_legacy_live_generation. apply safe_then_any; [done|]. intros metadata.
  apply safe_seq; [eapply safe_any, safe_saved|]. intros o. case_match; [|done].
  apply safe_update. intros e _. apply (edit_zero _ _ E).
Qed.
Hint Resolve safe_migrate : safe.
Lemma safe_adopt_all replays processes : Safe anything (adopt_all cfg replays processes).
Proof. induction processes as [|p l IH]; cbn [adopt_all]; [done|]. unfold restore_process. safe_walk. Qed.
Lemma safe_materialize_all l : Safe anything (materialize_all cfg l).
Proof. induction l as [|e l IH]; cbn [materialize_all]; [done|]. safe_walk. Qed.
Hint Resolve safe_adopt_all safe_materialize_all : safe.
Lemma safe_ledger_start : Safe anything (start_ledger cfg).
Proof. unfold start_ledger. safe_walk. Qed.

Lemma safe_from_sync sync disk cache c p : from_sync cfg sync disk cache = Ok (c, p) -> Safe anything p.
Proof.
  unfold from_sync. destruct sync; try done. destruct (load disk) as [st|[e d]]; [|done]. intros [= _ <-].
  apply safe_seq; [apply safe_ledger_start|]. intros _. apply safe_then_any; [auto with safe|].
  intros u c0 Hc. split; [by left|]. apply safe_materialize_all.
Qed.

(** Every operation under the recovery lock, with what it needs. *)
Definition locked_needs (op : LockedOp) : Prop :=
  match op with
  | LCreate _ aid _ _ | LEnsure _ aid _ _ _ _ _ => aid = id -> undenied -> owned
  | LStart _ aid _ => aid = id -> forall e, good (Some e) -> CanEnable good writable spawnable
  | LReplace aid _ => aid = id -> good None -> can_declare id writable
  | LRestartWith _ aid _ =>
      aid = id -> (good None -> can_declare id writable) /\ forall e, good (Some e) -> CanEnable good writable spawnable
  | LSetStartup aid _ => aid = id -> can_declare id writable
  | LPurge deleted => id ∈ deleted -> good None
  | LUpdateApp _ _ _ _ | LStop _ _ | LRestore _ | LFence _ => True
  end.

Lemma safe_locked op : locked_needs op -> Safe anything (locked_prog cfg op).
Proof.
  intros Hn. destruct op; cbn [locked_prog locked_needs] in *; try apply safe_ignore; try (apply safe_seq; [|done]);
    auto using safe_create, safe_start_locked, safe_ensure_app, safe_update_app, safe_replace, safe_set_startup, safe_stop,
      safe_restore, safe_fence, safe_purge.
  apply safe_restart_with; intros Hid; by apply Hn.
Qed.
End Safe.
