(* ===== verification/ControllerWatch.v ===== *)
(** * What is known of one identity, from the disk to the running Controller

    [P denied entry] is what is known of an identity.  It is known of the state in memory and of
    every content the file may have, so that it survives a stop of the Controller and a failure of
    the power.  The operations of the store keep it under the conditions of a [Watch], and a run of
    tasks that are [safe] keeps it and sends only what they may send. *)

From stdpp Require Import gmap pretty sorting.
From S2P Require Import Prelude RustStr Protocol HostProtocol Activity ProxyTypes.
From S2P Require Import StartupStore StartupFacts PrivateState ControllerTypes Controller ControllerLife.
From S2P Require Import ControllerRecovery ControllerInterface ControllerRuns ControllerSafe.
Local Open Scope Z_scope.
Local Open Scope prog_scope.

(** ** The store *)

Section Known.
Context `{JL : StartupJsonLaws}.
Context (id : string) (P : bool -> option StoredAgentStartup -> Prop).
Context (P_denied : forall b, P b None -> P true None) (P_none : forall b o, P b None -> P false o -> P false None).

Definition known_state (s : StoreState) : Prop :=
  P (bool_decide (id ∈ ss_denied_agent_ids s)) (ss_entries s !! id).
Definition file_state (f : StoreFile) : StoreState :=
  mkStoreState (list_to_map (rev ((fun e => (entry_id e, e)) <$> sf_entries f))) (sf_denied_agent_ids f) 0.
Definition known_file (o : option bytes) : Prop :=
  match o with
  | None => known_state store_default
  | Some b => forall f, store_from_json b = Ok f -> state_ok (file_state f) -> known_state (file_state f)
  end.
Definition known_disk (d : Disk) : Prop := known_file (dk_file d) /\ known_file (dk_durable d).
Definition known_store (st : StartupStore) : Prop :=
  state_ok (sr_state st) /\ known_state (sr_state st) /\ known_disk (sr_disk st).

Lemma image_known s o : state_ok s -> known_state s -> image s o -> known_file o.
Proof.
  intros [Hk _] Hs. unfold image. case_decide as He.
  - intros ->. destruct He as [He Hd]. cbn. revert Hs. unfold known_state. by rewrite He, Hd.
  - intros (b & Hj & ->) f Hf _. rewrite (store_json_roundtrip _ _ Hj) in Hf. injection Hf as <-.
    unfold file_state, known_state. cbn. rewrite keyed_entries; [done|]. intros i e Hi. by apply Hk in Hi as [? _].
Qed.

Lemma known_empty s : is_empty_state s -> known_state s -> known_file None.
Proof. intros [He Hd]. unfold known_file, known_state. by rewrite He, Hd. Qed.

(** One write of a state of which the same is known. *)
Lemma known_commit u st : known_disk (sr_disk st) -> state_ok (sr_state st) -> known_state (sr_state st) ->
  state_ok u -> known_state u -> known_store (StartupStore.commit u st).2.
Proof.
  intros [Hf Hd] Hok Hs Hu Hk. destruct (StartupStore.commit u st) as [r st'] eqn:Ec. cbn [snd].
  apply commit_cases in Ec as [(Hr & He & Hden & rr & Ep & Hrr)|(Hr & Hst & Hcase)].
  - assert (known_state (sr_state st')) as Hk' by (unfold known_state; by rewrite He, Hden).
    assert (state_ok (sr_state st')) as Hok' by (destruct Hu; split; by rewrite ?He, ?Hden).
    apply persist_outcome in Ep as [(_ & Hi & Hdur)|[? _]]; [|congruence].
    split_and!; [done|done|]. pose proof (image_known _ _ Hok' Hk' Hi) as Hfile.
    split; [done|]. destruct Hdur as [->|[_ ->]]; done.
  - unfold known_store. rewrite Hst. split_and!; [done|done|].
    destruct Hcase as [->|(n & rr & Ep & Hrr)]; [done|].
    apply persist_outcome in Ep as [[? _]|(_ & Hdur & Hfile)]; [congruence|].
    split; [|by rewrite Hdur]. destruct Hfile as [->|[_ Hi]]; [done|].
    eapply image_known; [| |exact Hi]; [by destruct Hu; split|done].
Qed.

Lemma known_step u st : known_store st -> state_ok u -> known_state u -> known_store (StartupStore.commit u st).2.
Proof. intros (Hok & Hs & Hd). by apply known_commit. Qed.

Definition known_good (o : option StoredAgentStartup) : Prop := exists b, P b o.
Definition known_writable (e : StoredAgentStartup) : Prop := (exists o, P false o) -> P false (Some e).
Definition known_undenied : Prop := exists o, P false o.

Lemma keyed st i e : state_ok (sr_state st) -> StartupStore.get i st = Some e ->
  entry_id e = i /\ bool_decide (i ∈ ss_denied_agent_ids (sr_state st)) = false.
Proof. intros [Hk _] He. apply Hk in He as [? ?]. split; [done|]. by apply bool_decide_eq_false_2. Qed.

(** A write of entries that only changes what is said of [i]. *)
Lemma known_entries st i o m : known_store st -> is_denied i st = false ->
  (forall j, j <> i -> m !! j = ss_entries (sr_state st) !! j) -> m !! i = o ->
  (i = id -> P false (StartupStore.get id st) -> P false o) -> known_state (with_entries m (sr_state st)).
Proof.
  intros (_ & Hs & _) Hd Hm Ho Hi. unfold known_state in *. cbn. destruct (decide (i = id)) as [->|Hne].
  - unfold is_denied in Hd. rewrite Hd in *. rewrite Ho. by apply Hi.
  - by rewrite Hm by done.
Qed.

Lemma known_upsert st e : known_store st -> (entry_id e = id -> known_writable e) -> known_store (upsert e st).2.
Proof.
  intros Hk Hw. destruct (store_op (OpUpsert e) st) as [r st'] eqn:Eo. pose proof Hk as (Hok & _).
  pose proof (store_op_ok _ _ _ _ Hok Eo) as Hok'. cbn in Eo. rewrite Eo. cbn. unfold upsert in Eo.
  destruct (is_denied (entry_id e) st) eqn:Hd; [by injection Eo as _ <-|].
  replace st' with (StartupStore.commit (with_entries (<[entry_id e := e]> (ss_entries (sr_state st))) (sr_state st)) st).2
    by (by rewrite Eo).
  apply known_step; [done| |].
  - destruct Hok as [Hkey Hc]. split; [|done]. cbn. intros i x Hx. unfold is_denied in Hd. apply bool_decide_eq_false in Hd.
    apply lookup_insert_Some in Hx as [[<- <-]|[_ Hx]]; [done|by apply Hkey].
  - apply (known_entries st (entry_id e) (Some e)); [done|done| |apply lookup_insert_eq|].
    + intros j Hj. by apply lookup_insert_ne.
    + intros Hid Hp. apply Hw; [done|]. by eexists.
Qed.

Lemma known_update st i f : known_store st -> (forall e, i = id -> StartupStore.get i st = Some e -> known_writable (f e)) ->
  known_store (update i f st).2.
Proof.
  intros Hk Hw. pose proof Hk as (Hok & _). unfold update. destruct (StartupStore.get i st) as [e|] eqn:Hg; [|done].
  destruct (entry_id (f e) =s i) eqn:Hid; cbn [negb]; [|done]. apply str_eqb_eq in Hid.
  destruct (keyed _ _ _ Hok Hg) as [_ Hd]. replace i with (entry_id (f e)) at 1. 
  assert ((upsert (f e) st).2 = (StartupStore.commit (with_entries (<[entry_id (f e) := f e]> (ss_entries (sr_state st))) (sr_state st)) st).2) as <-.
  { unfold upsert, is_denied. rewrite Hid, Hd. done. }
  apply known_upsert; [done|]. intros Hx. apply Hw; congruence.
Qed.

Lemma known_delete st i : known_store st -> (i = id -> P false (StartupStore.get id st) -> P false None) -> is_denied i st = false ->
  known_store (StartupStore.commit (with_entries (delete i (ss_entries (sr_state st))) (sr_state st)) st).2.
Proof.
  intros Hk Hi Hd. pose proof Hk as ([Hkey Hc] & _). apply known_step; [done| |].
  - split; [|done]. cbn. intros j x Hx. apply lookup_delete_Some in Hx as [_ Hx]. by apply Hkey.
  - apply (known_entries st i None); [done|done| |apply lookup_delete_eq|done].
    intros j Hj. by apply lookup_delete_ne.
Qed.

Lemma known_remove st i : known_store st -> (i = id -> known_good None) -> known_store (StartupStore.remove i st).2.
Proof.
  intros Hk Hn. unfold StartupStore.remove. destruct (StartupStore.get i st) as [e|] eqn:Hg; [|done].
  pose proof Hk as (Hok & _). destruct (keyed _ _ _ Hok Hg) as [_ Hd].
  assert (known_store (StartupStore.commit (with_entries (delete i (ss_entries (sr_state st))) (sr_state st)) st).2) as Hx.
  { apply known_delete; [done| |done]. intros Hid Hp. destruct (Hn Hid) as [b Hb]. by eapply P_none. }
  unfold st_bind. by destruct (StartupStore.commit _ st) as [[] ?].
Qed.

(** A denial is known of an identity without an entry. *)
Lemma known_denial st i m : known_store st -> state_ok (with_denied i (with_entries m (sr_state st))) ->
  (forall j, j <> i -> m !! j = ss_entries (sr_state st) !! j) -> m !! i = None -> (i = id -> known_good None) ->
  known_store (StartupStore.commit (with_denied i (with_entries m (sr_state st))) st).2.
Proof.
  intros Hk Hok Hm Hi Hn. pose proof Hk as (_ & Hs & _). apply known_step; [done|done|]. unfold known_state in *. cbn.
  destruct (decide (i = id)) as [->|Hne].
  - rewrite Hi, bool_decide_eq_true_2 by set_solver. destruct (Hn eq_refl) as [b Hb]. by eapply P_denied.
  - rewrite Hm by done. erewrite bool_decide_ext; [exact Hs|]. set_solver.
Qed.

Lemma known_remove_deleted st i : known_store st -> (i = id -> known_good None) -> known_store (remove_deleted i st).2.
Proof.
  intros Hk Hn. destruct (store_op (OpRemoveDeleted i) st) as [r st'] eqn:Eo. pose proof Hk as (Hok & _).
  destruct (store_op_cases _ _ _ _ Hok Eo) as [Hst|(u & rc & Ec & _ & Hu & _)]; cbn in Eo; rewrite Eo; cbn; [by rewrite Hst|].
  unfold remove_deleted in Eo. repeat (case_match; [by injection Eo as _ <-|]).
  assert (state_ok (with_denied i (with_entries (delete i (ss_entries (sr_state st))) (sr_state st)))) as Hu'.
  { destruct Hok as [Hkey Hc]. split; cbn.
    - intros j x Hx. apply lookup_delete_Some in Hx as [Hne Hx]. destruct (Hkey j x Hx). split; [done|set_solver].
    - bool_hyps. unfold is_denied in *. destruct (decide (i ∈ ss_denied_agent_ids (sr_state st))) as [Hin|Hin].
      + replace ({[i]} ∪ _) with (ss_denied_agent_ids (sr_state st)) by set_solver. done.
      + rewrite count_add by done. rewrite bool_decide_eq_false_2 in * by done. cbn in *. lia. }
  pose proof (known_denial st i (delete i (ss_entries (sr_state st))) Hk Hu'
    (fun j Hj => lookup_delete_ne _ _ _ (not_eq_sym Hj)) (lookup_delete_eq _ _) Hn) as Hx. by rewrite Eo in Hx.
Qed.

Lemma known_deny st i : known_store st -> known_store (deny_absent i st).2.
Proof.
  intros Hk. unfold deny_absent. destruct (StartupStore.get i st) as [e|] eqn:Hg; [done|]. cbn [is_some].
  destruct (is_denied i st) eqn:Hd; [done|]. destruct (_ <=? _) eqn:Hc; [done|].
  pose proof Hk as ([Hkey Hcount] & Hs & _). apply Z.leb_gt in Hc. unfold StartupStore.get in Hg.
  change (with_denied i (sr_state st)) with (with_denied i (with_entries (ss_entries (sr_state st)) (sr_state st))).
  apply known_denial; [done| |done|done|].
  - unfold is_denied in Hd. apply bool_decide_eq_false in Hd. split; cbn.
    + intros j x Hx. destruct (Hkey j x Hx) as [Hid Hnd]. split; [done|]. destruct (decide (j = i)) as [->|]; [congruence|set_solver].
    + rewrite count_add by done. lia.
  - intros ->. unfold known_state in Hs. rewrite Hg in Hs. by eexists.
Qed.

(** ** Watches *)

Definition any_change (_ _ : StartupStore) : Prop := True.

(** What is known stays known. *)
Lemma strong_watch : (forall e, known_good (Some e) -> known_writable (set_spec (spec_enabled false) e)) ->
  Watch id known_store any_change known_good known_writable known_undenied.
Proof.
  intros Hdis. split; try done.
  - by intros st [? _].
  - intros st (_ & Hs & _). by eexists.
  - intros st (_ & Hs & _) Hd. unfold is_denied in Hd. unfold known_state in Hs. rewrite Hd in Hs. by eexists.
  - intros st e Hk Hw. right. split; [|done]. by apply known_upsert.
  - intros st i f Hk Hw. right. split; [|done]. apply known_update; [done|]. intros e -> He. apply Hw; [done|].
    destruct Hk as (_ & Hs & _). unfold known_state in Hs. unfold StartupStore.get in He. rewrite He in Hs. by eexists.
  - intros st i Hk Hn. right. split; [|done]. by apply known_remove.
  - intros st i Hk Hn. right. split; [|done]. by apply known_remove_deleted.
  - intros st i Hk. right. split; [|done]. by apply known_deny.
Qed.

Definition store_well (st : StartupStore) : Prop := state_ok (sr_state st).
Definition keeps_known (st st' : StartupStore) : Prop := known_store st -> known_store st'.

Lemma store_op_well op st : store_well st -> store_well (store_op op st).2.
Proof. intros Hok. destruct (store_op op st) as [r st'] eqn:Eo. by eapply store_op_ok. Qed.
Lemma remove_well i st : store_well st -> store_well (StartupStore.remove i st).2.
Proof. intros Hok. pose proof (store_op_well (OpRemove i) st Hok) as Hx. cbn in Hx. by destruct (StartupStore.remove i st). Qed.

(** A task that was under way before: whatever it read, its writes keep what has become known. *)
Lemma weak_watch : (forall e, known_writable (set_spec (spec_enabled false) e)) -> known_good None ->
  Watch id store_well keeps_known (fun _ => True) known_writable True.
Proof.
  intros Hdis Hnone. split; try done.
  - intros st e Hk Hw. right. split; [by apply (store_op_well (OpUpsert e))|]. intros Hkn. by apply known_upsert.
  - intros st i f Hk Hw. right. split; [by apply (store_op_well (OpUpdate i f))|]. intros Hkn.
    apply known_update; [done|]. intros e Hi _. by apply Hw.
  - intros st i Hk _. right. split; [by apply remove_well|]. intros Hkn. by apply known_remove.
  - intros st i Hk _. right. split; [by apply (store_op_well (OpRemoveDeleted i))|]. intros Hkn. by apply known_remove_deleted.
  - intros st i Hk. right. split; [by apply (store_op_well (OpDeny i))|]. intros Hkn. by apply known_deny.
Qed.

Lemma known_load d st : known_disk d -> load d = Ok st -> known_store st.
Proof.
  intros [Hf Hd]. unfold load. destruct (read_store d) as [[s|e] d'] eqn:Er; [|done]. intros [= <-].
  apply read_store_ok in Er as (Hok & Hff & Hdd & Hst). split_and!; [done| |split; by cbn; rewrite ?Hff, ?Hdd].
  cbn. destruct (dk_file d) as [b|]; [|by subst s]. destruct Hst as (f & Hj & Hden & He).
  assert (state_ok (file_state f)) as Hof by (destruct Hok as [Hk Hc]; split; cbn; by rewrite <- ?Hden, <- ?He).
  specialize (Hf f Hj Hof). unfold known_state in *. cbn in Hf. by rewrite Hden, He.
Qed.
End Known.

(** ** Runs *)

Lemma tasks_app (T : Prog unit -> Prop) (l1 l2 : list (Prog unit)) : Forall T (l1 ++ l2) <-> Forall T l1 /\ Forall T l2.
Proof.
  induction l1 as [|p l1 IH]; cbn.
  - split; [by split; [constructor|]|by intros [_ ?]].
  - split.
    + intros Hl. inversion Hl as [|? ? Hp Hr]; subst. apply IH in Hr as [? ?]. split; [by constructor|done].
    + intros [Hl H2]. inversion Hl as [|? ? Hp Hr]; subst. constructor; [done|]. by apply IH.
Qed.

Lemma tasks_impl (T U : Prog unit -> Prop) (l : list (Prog unit)) : Forall T l -> (forall p, T p -> U p) -> Forall U l.
Proof. intros Hl Htu. induction Hl; constructor; auto. Qed.

(** A run keeps an invariant that every kind of task and every stop and start keeps. *)
Section Invariant.
Context (cfg : Config) `{StartupJson} `{CtlText}.
Context (K : StartupStore -> Prop) (KD : Disk -> Prop) (sendable : Sent -> Prop).
Context (holds other : Prog unit -> Prop) (boots : ProgR unit -> Prop).
Context (locks : LockedOp -> Prop) (frees : FreeOp -> Prop).

Definition keeps_step {A} (T : Prog A -> Prop) : Prop := forall c p l c' p',
  K (ct_store c) -> T p -> prog_step c p l c' p' -> K (ct_store c') /\ T p' /\ Forall sendable l.

Context (H_holds : keeps_step holds) (H_other : keeps_step other) (H_boots : keeps_step boots).
Context (H_disk : forall st, K st -> KD (sr_disk st)).
Context (H_power : forall d file, KD d -> file = dk_file d \/ file = dk_durable d -> KD (mkDisk file file (dk_faults d))).
Context (H_off : forall d faults, KD d -> KD (mkDisk (dk_file d) (dk_durable d) faults)).
Context (H_faults : forall c faults, K (ct_store c) -> K (ct_store (with_faults faults c))).
Context (H_boot : forall d sync cache c p, KD d -> from_sync cfg sync d cache = Ok (c, p) -> K (ct_store c) /\ boots p).
Context (H_locks : forall op, locks op -> holds (locked_prog cfg op)).
Context (H_frees : forall op, frees op -> other (free_prog cfg op)).

Definition world_inv (w : World) : Prop :=
  match w with
  | Running c holder others => K (ct_store c) /\ (forall p, holder = Some p -> holds p) /\ Forall other others
  | Booting c p => K (ct_store c) /\ boots p
  | Off d => KD d
  end.

Lemma world_step_inv w l w' : world_inv w -> world_step cfg locks frees w l w' -> world_inv w' /\ Forall sendable l.
Proof.
  intros Hw Hs. destruct Hs as [c others op Hop|c holder others op Hop|c p others l c' p' Hp|c holder before p after l c' p' Hp
    |c p others|c holder before p after|c holder others faults|w|d file Hf|d faults|d sync cache c p Hb|c p l c' p' Hp|c]; cbn in *.
  - destruct Hw as (Hk & _ & Ho). split_and!; [done| |done|done]. intros p [= <-]. auto.
  - destruct Hw as (Hk & Hh & Ho). split_and!; [done|done| |done]. constructor; auto.
  - destruct Hw as (Hk & Hh & Ho). destruct (H_holds _ _ _ _ _ Hk (Hh _ eq_refl) Hp) as (? & ? & ?).
    split_and!; [done| |done|done]. by intros q [= <-].
  - destruct Hw as (Hk & Hh & Ho). apply tasks_app in Ho as [Hbf Haf]. inversion Haf; subst.
    destruct (H_other c p l c' p') as (? & ? & ?); [done|done|done|].
    split_and!; [done|done| |done]. apply tasks_app. split; [done|]. by constructor.
  - destruct Hw as (Hk & Hh & Ho). by split_and!.
  - destruct Hw as (Hk & Hh & Ho). apply tasks_app in Ho as [Hbf Haf]. inversion Haf; subst.
    split_and!; [done|done| |done]. by apply tasks_app.
  - destruct Hw as (Hk & Hh & Ho). split_and!; [by apply H_faults|done|done|done].
  - split; [|done]. destruct w; cbn in *; [apply H_disk, Hw|apply H_disk, Hw|done].
  - split; [|done]. by apply H_power.
  - split; [|done]. by apply H_off.
  - split; [|done]. by eapply H_boot.
  - destruct Hw as [Hk Hb]. by destruct (H_boots c p l c' p' Hk Hb Hp) as (? & ? & ?).
  - destruct Hw as [Hk Hb]. by split_and!.
Qed.

Lemma runs_inv w tr w' : world_inv w -> runs cfg locks frees w tr w' -> world_inv w' /\ Forall sendable tr.
Proof.
  intros Hw Hr. induction Hr as [w|w l w1 tr w2 Hs Hr IH]; [done|].
  destruct (world_step_inv _ _ _ Hw Hs) as [Hw1 Hl]. destruct (IH Hw1) as [Hw2 Ht]. split; [done|]. by apply Forall_app.
Qed.
End Invariant.

(** A step of a task that is safe. *)
Lemma safe_prog_step {A} J R G (Q : A -> Prop) c p l c' p' : J (ct_store c) -> safe J R G Q p -> prog_step c p l c' p' ->
  kept J R (ct_store c) (ct_store c') /\ safe J R G Q p' /\ Forall (fun s : Sent => G s.1) l.
Proof.
  intros Hj Hp Hs. destruct Hs as [B f k c|B q k c b]; cbn in Hp.
  - destruct (Hp c Hj). by split_and!.
  - destruct Hp as [Hq Hk]. split_and!; [by left|done|]. destruct q; cbn in *; by repeat constructor.
Qed.
