(* ===== verification/ControllerFacts.v ===== *)
(** * What runs of a Controller guarantee

    An identity that was denied is never started again; a workload that was stopped stays stopped
    until an operation turns it on; an App's revision never goes back.  All three over every
    interleaving of the operations, every answer of the Host and of the operating system, every
    cancellation, every stop of the Controller and every failure of the power. *)

From stdpp Require Import gmap pretty sorting.
From S2P Require Import Prelude RustStr Protocol HostProtocol Activity ProxyTypes.
From S2P Require Import StartupStore StartupFacts PrivateState ControllerTypes Controller ControllerLife.
From S2P Require Import ControllerRecovery ControllerInterface ControllerRuns ControllerSafe ControllerWatch.
Local Open Scope Z_scope.
Local Open Scope prog_scope.

Definition any_lock (_ : LockedOp) : Prop := True.
Definition any_free (_ : FreeOp) : Prop := True.

(** What makes a kind of knowledge last: it survives a denial and a removal where they are allowed,
    and every change the operations make. *)
Record Knowledge (P : bool -> option StoredAgentStartup -> Prop) (spawnable : Prop) : Prop := {
  kn_denied b : P b None -> P true None;
  kn_none b o : P b None -> P false o -> P false None;
  kn_disable e : known_good P (Some e) -> known_writable P (set_spec (spec_enabled false) e);
  kn_edits : Edits (known_good P) (known_writable P);
  kn_enable e : known_good P (Some e) -> as_enabled (se_spec e) = true -> CanEnable (known_good P) (known_writable P) spawnable
}.

Section Known.
Context (cfg : Config) `{JL : StartupJsonLaws} `{CtlText}.
Context (id : string) (P : bool -> option StoredAgentStartup -> Prop) (spawnable : Prop).
Context (N : Knowledge P spawnable).

Notation G := (spawn_guard id spawnable).

(** A task that began while the same was known, or one that keeps what becomes known. *)
Definition strong_task {A} (p : Prog A) : Prop := safe (known_store id P) any_change G anything p.
Definition weak_task {A} (p : Prog A) : Prop := safe store_well (keeps_known id P) G anything p.

Lemma with_faults_known c faults : known_store id P (ct_store c) -> known_store id P (ct_store (with_faults faults c)).
Proof. done. Qed.

Lemma from_sync_store sync d cache c p : from_sync cfg sync d cache = Ok (c, p) -> exists st, load d = Ok st /\ ct_store c = st.
Proof. unfold from_sync. destruct sync; try done. destruct (load d) as [st|[]]; [|done]. intros [= <- _]. by exists st. Qed.

Context (locks : LockedOp -> Prop) (frees : FreeOp -> Prop).
Context (H_locks : forall op, locks op ->
  locked_needs id (known_good P) (known_writable P) (known_undenied P) spawnable op).
Context (H_frees : forall op, frees op -> op = FClearStartup id -> known_good P None).

Notation inv := (world_inv (known_store id P) (known_disk id P) strong_task
  (fun p => strong_task p \/ weak_task p) strong_task).

Lemma known_runs w tr w' : inv w -> runs cfg locks frees w tr w' -> inv w' /\ Forall (fun s : Sent => G s.1) tr.
Proof.
  assert (Watch id (known_store id P) any_change (known_good P) (known_writable P) (known_undenied P))
    as W by (destruct N; by apply strong_watch).
  assert (forall c p l c' p', known_store id P (ct_store c) -> strong_task p -> prog_step (A := unit) c p l c' p' ->
    known_store id P (ct_store c') /\ strong_task p' /\ Forall (fun s : Sent => G s.1) l) as Hstrong.
  { intros c p l c' p' Hk Hp Hs. destruct (safe_prog_step _ _ _ _ _ _ _ _ _ Hk Hp Hs) as ([-> |[? _]] & ? & ?); done. }
  apply runs_inv; try done.
  - intros c p l c' p' Hk [Hp|Hp] Hs; [by destruct (Hstrong _ _ _ _ _ Hk Hp Hs) as (? & ? & ?); auto|].
    assert (store_well (ct_store c)) as Hw by by destruct Hk.
    destruct (safe_prog_step _ _ _ _ _ _ _ _ _ Hw Hp Hs) as (Hkept & ? & ?). split_and!; [|by right|done].
    destruct Hkept as [-> |[_ Hr]]; [done|by apply Hr].
  - intros c p l c' p' Hk Hp Hs. destruct (safe_prog_step _ _ _ _ _ _ _ _ _ Hk Hp Hs) as ([-> |[? _]] & ? & ?); done.
  - by intros st (_ & _ & ?).
  - intros d file [Hf Hd] [-> | ->]; by split.
  - intros d sync cache c p Hd Hb. split.
    + apply from_sync_store in Hb as (st & Hl & ->). by eapply known_load.
    + eapply safe_from_sync; [exact W|apply N|exact Hb].
  - intros op Hop. eapply safe_locked; [exact W|apply N|apply N|by apply H_locks].
  - intros op Hop. left. eapply safe_free; [exact W|]. intros ->. by eapply H_frees.
Qed.

(** The same from a moment at which no operation holds the lock. *)
Lemma known_from c others tr w' : known_store id P (ct_store c) -> Forall weak_task others ->
  runs cfg locks frees (Running c None others) tr w' ->
  known_disk id P (world_disk w') /\ (forall command operation, (command, operation) ∈ tr -> G command)
  /\ forall c' holder others', w' = Running c' holder others' -> known_store id P (ct_store c').
Proof.
  intros Hk Ho Hr. assert (inv (Running c None others)) as Hi.
  { cbn. split_and!; [exact Hk|done|]. apply (tasks_impl _ _ _ Ho). auto. }
  destruct (known_runs _ _ _ Hi Hr) as [Hw Ht]. split_and!.
  - destruct w' as [c' h o|c' p|d]; cbn in *; [by destruct Hw as ((_ & _ & ?) & _)|by destruct Hw as ((_ & _ & ?) & _)|done].
  - intros command operation Hin. rewrite Forall_forall in Ht. by apply (Ht _ Hin).
  - intros c' h o ->. by destruct Hw.
Qed.
End Known.

(** Whatever ran before, the tasks under way keep what becomes known. *)
Section Before.
Context (cfg : Config) `{JL : StartupJsonLaws} `{CtlText}.
Context (id : string) (P : bool -> option StoredAgentStartup -> Prop).
Context (P_denied : forall b, P b None -> P true None) (P_none : forall b o, P b None -> P false o -> P false None).
Context (P_disable : forall e, known_writable P (set_spec (spec_enabled false) e)) (P_absent : known_good P None).

Definition true_of (_ : bool) (_ : option StoredAgentStartup) : Prop := True.

Lemma tasks_before c0 tr c others : store_well (ct_store c0) ->
  runs cfg any_lock any_free (Running c0 None []) tr (Running c None others) ->
  store_well (ct_store c) /\ Forall (weak_task id P False) others.
Proof.
  intros Hw0 Hr.
  assert (Watch id store_well (keeps_known id P) (fun _ => True) (known_writable P) True) as Wf by by apply weak_watch.
  assert (Watch id (known_store id true_of) any_change (known_good true_of) (known_writable true_of)
    (known_undenied true_of)) as Wt by by apply strong_watch.
  assert (CanEnable (known_good true_of) (known_writable true_of) True) as Ht by (split; repeat intro; exact I).
  assert (Edits (known_good true_of) (known_writable true_of)) as Et by (split; repeat intro; exact I).
  assert (forall st, store_well st -> known_store id true_of st) as Hknown.
  { intros st Hst. split_and!; [done|done|]. split; [destruct (dk_file _)|destruct (dk_durable _)]; done. }
  assert (forall A (T : Prog A -> Prop), (forall c p l c' p', known_store id true_of (ct_store c) -> T p ->
      prog_step c p l c' p' -> kept (known_store id true_of) any_change (ct_store c) (ct_store c') /\ T p') ->
      keeps_step (known_store id true_of) (fun _ => True) T) as Hkeeps.
  { intros A T HT c1 p l c' p' Hk Hp Hs. destruct (HT c1 p l c' p' Hk Hp Hs) as [Hkept Hp'].
    split_and!; [|done|by apply Forall_true]. destruct Hkept as [Heq|[? _]]; [by rewrite Heq|done]. }
  apply (runs_inv cfg (known_store id true_of) (fun _ => True) (fun _ => True) (strong_task id true_of True)
    (weak_task id P False) (strong_task id true_of True)) in Hr; try done.
  - destruct Hr as [((? & _) & _ & ?) _]. done.
  - apply Hkeeps. intros c1 p l c' p' Hk Hp Hs. destruct (safe_prog_step _ _ _ _ _ _ _ _ _ Hk Hp Hs) as (? & ? & _). done.
  - apply Hkeeps. intros c1 p l c' p' [Hk _] Hp Hs. destruct (safe_prog_step _ _ _ _ _ _ _ _ _ Hk Hp Hs) as (Hkept & ? & _).
    split; [|done]. destruct Hkept as [Heq|[Hw _]]; [by left|right]. split; [by apply Hknown|done].
  - apply Hkeeps. intros c1 p l c' p' Hk Hp Hs. destruct (safe_prog_step _ _ _ _ _ _ _ _ _ Hk Hp Hs) as (? & ? & _). done.
  - intros d sync cache c1 p _ Hb. split.
    + apply from_sync_store in Hb as (st & Hl & ->). apply (known_load id true_of d); [|done].
      split; [destruct (dk_file _)|destruct (dk_durable _)]; done.
    + eapply safe_from_sync; [exact Wt|done|exact Hb].
  - intros op _. eapply safe_locked; [exact Wt|done|done|]. destruct op; cbn; intros; repeat split; repeat intro; try exact I; by exists true.
  - intros op _. eapply safe_free; [exact Wf|done].
  - split_and!; [by apply Hknown|done|done].
Qed.
End Before.

(** ** The three kinds of knowledge *)

Definition fenced_off (denied : bool) (o : option StoredAgentStartup) : Prop := denied = true /\ o = None.
Definition turned_off (_ : bool) (o : option StoredAgentStartup) : Prop := forall e, o = Some e -> as_enabled (se_spec e) = false.
Definition app_at_least (n : Z) (_ : bool) (o : option StoredAgentStartup) : Prop :=
  exists e, o = Some e /\ as_kind (se_spec e) = "app"%string /\ n <= se_app_revision e.

(** The operations that turn a workload on. *)
Definition turns_on (id : string) (op : LockedOp) : Prop :=
  match op with
  | LCreate _ aid _ _ | LEnsure _ aid _ _ _ _ _ | LStart _ aid _ | LReplace aid _ | LRestartWith _ aid _
  | LSetStartup aid _ => aid = id
  | _ => False
  end.
(** The operations that give up or overwrite the saved launch of an App. *)
Definition gives_up (id : string) (op : LockedOp) : Prop :=
  match op with LSetStartup aid _ => aid = id | LPurge deleted => id ∈ deleted | _ => False end.

(** The last write reached the disk. *)
Definition on_disk `{StartupJson} (st : StartupStore) : Prop :=
  image (sr_state st) (dk_file (sr_disk st)) /\ dk_durable (sr_disk st) = dk_file (sr_disk st).

Definition sends_no_spawn (id : string) (tr : list Sent) : Prop :=
  forall command operation, (command, operation) ∈ tr -> ~ spawns id command.

Ltac no_such_entry :=
  match goal with
  | H : known_good _ (Some _) |- _ => by destruct H as (? & ? & ?)
  | H : known_good (app_at_least _) None |- _ => by destruct H as (? & ? & ? & _)
  | H : exists o, fenced_off false o |- _ => by destruct H as (? & ? & _)
  | H : known_undenied fenced_off |- _ => by destruct H as (? & ? & _)
  end.

Lemma fenced_knowledge : Knowledge fenced_off False.
Proof.
  split; try (intros; no_such_entry).
  - by intros b [_ ?].
  - by intros b o _ [? _].
  - split; intros; no_such_entry.
Qed.
Lemma fenced_needs id op :
  locked_needs id (known_good fenced_off) (known_writable fenced_off) (known_undenied fenced_off) False op.
Proof.
  destruct op; cbn; intros; repeat split; repeat intro; try no_such_entry; by exists true.
Qed.

Lemma off_good e : known_good turned_off (Some e) -> as_enabled (se_spec e) = false.
Proof. intros [b Hp]. by apply Hp. Qed.
Lemma off_writable e : as_enabled (se_spec e) = false -> known_writable turned_off e.
Proof. by intros He _ e' [= <-]. Qed.
Lemma off_knowledge : Knowledge turned_off False.
Proof.
  split; try done.
  - intros e _. by apply off_writable.
  - split; intros e; intros; repeat match goal with H : known_good _ _ |- _ => apply off_good in H end.
    + by apply off_writable.
    + by apply off_writable.
    + congruence.
    + match goal with H : app_revision _ _ _ = _ |- _ => apply revised_same in H as [_ H] end. apply off_writable. congruence.
    + apply off_writable. congruence.
  - intros e He%off_good. congruence.
Qed.
Lemma off_needs id op : ~ turns_on id op ->
  locked_needs id (known_good turned_off) (known_writable turned_off) (known_undenied turned_off) False op.
Proof. destruct op; cbn; intros Hn; try done; intros; by exists true. Qed.

Lemma app_good n e : known_good (app_at_least n) (Some e) -> as_kind (se_spec e) = "app"%string /\ n <= se_app_revision e.
Proof. by intros (b & e' & [= <-] & ? & ?). Qed.
Lemma app_writable n e : as_kind (se_spec e) = "app"%string -> n <= se_app_revision e -> known_writable (app_at_least n) e.
Proof. intros Hk Hn _. by exists e. Qed.
Lemma app_knowledge n : Knowledge (app_at_least n) True.
Proof.
  split.
  - by intros b (e & ? & _).
  - by intros b o (e & ? & _).
  - intros e [? ?]%app_good. by apply app_writable.
  - split; intros e; intros; repeat match goal with H : known_good _ _ |- _ => apply app_good in H as [? ?] end; try by apply app_writable.
    match goal with H : app_revision _ _ _ = _ |- _ => rename H into Hr end. unfold app_revision in Hr.
    repeat case_match; try done. injection Hr as <-. bool_hyps. apply app_writable; cbn; [by destruct (rsr_cwd _)|lia].
  - intros e _ _. split; intros; repeat match goal with H : known_good _ _ |- _ => apply app_good in H as [? ?] end;
      (done || by apply app_writable).
Qed.
Lemma app_needs id n op : ~ gives_up id op ->
  locked_needs id (known_good (app_at_least n)) (known_writable (app_at_least n)) (known_undenied (app_at_least n)) True op.
Proof.
  pose proof (app_knowledge n) as N. assert (CanEnable (known_good (app_at_least n)) (known_writable (app_at_least n)) True) as He.
  { split; intros; repeat match goal with H : known_good _ _ |- _ => apply app_good in H as [? ?] end; try by apply app_writable. done. }
  destruct op; cbn; intros Hn; try done; intros; repeat split; intros; try apply He; try done; try no_such_entry.
Qed.

Section Claims.
Context (cfg : Config) `{JL : StartupJsonLaws} `{CtlText}.

Lemma fenced_known id st : store_well st -> is_denied id st = true -> disk_denies id (sr_disk st) ->
  known_store id fenced_off st.
Proof.
  intros Hok Hd [Hf Hdur]. unfold is_denied in Hd.
  assert (forall o, file_denies id o -> known_file id fenced_off o) as Hfile.
  { intros o (b & f & -> & Hj & Hin) f' Hj' [Hk _]. rewrite Hj in Hj'. injection Hj' as <-. unfold known_state, fenced_off.
    split; [apply bool_decide_eq_true_2; exact Hin|]. destruct (_ !! id) as [e|] eqn:He; [|done]. by apply Hk in He as [_ ?]. }
  split_and!; [done| |by split; auto]. split; [done|]. destruct (_ !! id) as [e|] eqn:He; [|done].
  destruct Hok as [Hk _]. apply Hk in He as [_ Hn]. by apply bool_decide_eq_true in Hd.
Qed.

Lemma on_disk_known id P st : store_well st -> on_disk st -> known_state id P (sr_state st) -> known_store id P st.
Proof.
  intros Hok [Hi Hd] Hk. split_and!; [done|done|]. pose proof (image_known id P _ _ Hok Hk Hi). by split; rewrite ?Hd.
Qed.

(** C5: an identity that was denied is never started again.  Take any moment at which no operation
    holds the recovery lock, with any number of other tasks under way, and at which the denial is in
    memory and on disk.  Whatever runs from then on (every operation for every workload, the events
    of the Host, cancelled tasks, failing writes, stops and starts of the Controller, failures of the
    power) no spawn of the identity is ever sent to the Host, and a running Controller finds it
    denied and has no launch saved for it. *)
Theorem fenced_identity_is_never_spawned (id : string) (c0 : Ctl) (before : list Sent) (c : Ctl) (others : list (Prog unit))
    (tr : list Sent) (w : World) :
  store_well (ct_store c0) ->
  runs cfg any_lock any_free (Running c0 None []) before (Running c None others) ->
  is_denied id (ct_store c) = true -> disk_denies id (sr_disk (ct_store c)) ->
  runs cfg any_lock any_free (Running c None others) tr w ->
  sends_no_spawn id tr
  /\ forall c' holder others', w = Running c' holder others' ->
       is_denied id (ct_store c') = true /\ StartupStore.get id (ct_store c') = None.
Proof.
  intros Hw0 Hbefore Hd Hdisk Hr.
  destruct (tasks_before cfg id fenced_off ltac:(apply fenced_knowledge) ltac:(apply fenced_knowledge)
    ltac:(repeat intro; no_such_entry) ltac:(by exists true) _ _ _ _ Hw0 Hbefore) as [Hw Ho].
  destruct (known_from cfg id fenced_off False fenced_knowledge any_lock any_free (fun op _ => fenced_needs id op)
    ltac:(intros; by exists true) c others tr w (fenced_known id _ Hw Hd Hdisk) Ho Hr) as (_ & Hs & Hend).
  split; [exact Hs|]. intros c' holder others' ->. destruct (Hend _ _ _ eq_refl) as (_ & [Hden Hnone] & _).
  by unfold is_denied, StartupStore.get.
Qed.

(** C7: a workload that was stopped stays stopped.  Take a moment as above at which its saved launch
    is turned off, in memory and on disk.  As long as no operation is begun that turns it on
    (creating or declaring it, starting or restarting it, giving it a new launch), no spawn of it is
    sent to the Host: not by a restore pass, a change of its App revision or a start of the
    Controller, whatever else runs, fails or is cancelled. *)
Theorem stopped_workload_stays_stopped (id : string) (c0 : Ctl) (before : list Sent) (c : Ctl) (others : list (Prog unit))
    (e : StoredAgentStartup) (tr : list Sent) (w : World) :
  store_well (ct_store c0) ->
  runs cfg any_lock any_free (Running c0 None []) before (Running c None others) ->
  StartupStore.get id (ct_store c) = Some e -> as_enabled (se_spec e) = false -> on_disk (ct_store c) ->
  runs cfg (fun op => ~ turns_on id op) any_free (Running c None others) tr w ->
  sends_no_spawn id tr
  /\ forall c' holder others' e', w = Running c' holder others' -> StartupStore.get id (ct_store c') = Some e' ->
       as_enabled (se_spec e') = false.
Proof.
  intros Hw0 Hbefore He Hoff Hdisk Hr.
  destruct (tasks_before cfg id turned_off ltac:(apply off_knowledge) ltac:(apply off_knowledge)
    ltac:(intros; by apply off_writable) ltac:(by exists true) _ _ _ _ Hw0 Hbefore) as [Hw Ho].
  assert (known_store id turned_off (ct_store c)) as Hk.
  { apply on_disk_known; [done|done|]. intros e' He'. unfold StartupStore.get in He. congruence. }
  destruct (known_from cfg id turned_off False off_knowledge (fun op => ~ turns_on id op) any_free (off_needs id)
    ltac:(intros; by exists true) c others tr w Hk Ho Hr) as (_ & Hs & Hend).
  split; [exact Hs|]. intros c' holder others' e' -> He'. destruct (Hend _ _ _ eq_refl) as (_ & Hst & _). by apply (Hst e').
Qed.

(** C20: the revision of an App never goes back.  From a moment at which no task is under way and the
    App's saved launch is on disk, in every run in which its launch is neither given up (cleared, or
    the App deleted) nor declared anew from inside the workload, a running Controller has a launch
    saved for it whose revision is at least the one it started with, and so does every later start
    from the disk, however often the Controller stops and the power fails. *)
Theorem app_revision_never_goes_back (id : string) (c : Ctl) (e : StoredAgentStartup) (tr : list Sent) (w : World) :
  store_well (ct_store c) -> on_disk (ct_store c) ->
  StartupStore.get id (ct_store c) = Some e -> as_kind (se_spec e) = "app"%string ->
  runs cfg (fun op => ~ gives_up id op) (fun op => op <> FClearStartup id) (Running c None []) tr w ->
  (forall c' holder others', w = Running c' holder others' ->
     exists e', StartupStore.get id (ct_store c') = Some e' /\ as_kind (se_spec e') = "app"%string
       /\ se_app_revision e <= se_app_revision e')
  /\ forall st, load (world_disk w) = Ok st ->
     exists e', StartupStore.get id st = Some e' /\ se_app_revision e <= se_app_revision e'.
Proof.
  intros Hw Hdisk He Hkind Hr. set (n := se_app_revision e) in *.
  assert (known_store id (app_at_least n) (ct_store c)) as Hk.
  { apply on_disk_known; [done|done|]. exists e. split_and!; [exact He|done|subst n; lia]. }
  destruct (known_from cfg id (app_at_least n) True (app_knowledge n) (fun op => ~ gives_up id op)
    (fun op => op <> FClearStartup id) (app_needs id n) ltac:(done) c [] tr w Hk ltac:(constructor) Hr) as (Hd & _ & Hend).
  split.
  - intros c' holder others' ->. destruct (Hend _ _ _ eq_refl) as (_ & Hst & _). exact Hst.
  - intros st Hl. destruct (known_load _ _ _ _ Hd Hl) as (_ & (e' & He' & _ & Hn) & _). by exists e'.
Qed.
End Claims.
