(* ===== verification/ControllerAlone.v ===== *)
(** * Operations of the Controller on their own

    What an operation does when nothing else runs beside it, with the answers of the Host and of the
    operating system still free: its result, the state it leaves and the commands it sent, each with
    the state at that moment and the answer it got. *)

From stdpp Require Import gmap pretty sorting.
From S2P Require Import Prelude RustStr Protocol HostProtocol Activity ProxyTypes.
From S2P Require Import StartupStore StartupFacts PrivateState ControllerTypes Controller ControllerLife.
From S2P Require Import ControllerRecovery ControllerRuns ControllerSafe ControllerWatch ControllerFacts.
Local Open Scope Z_scope.
Local Open Scope prog_scope.

(** ** Executions *)

Record Exchange : Type := mkExchange {
  ex_state : Ctl;
  ex_command : HostCommand;
  ex_operation : option string;
  ex_answer : Result HostResponse string
}.
Definition exchange {B} (c : Ctl) (q : Sys B) : B -> list Exchange :=
  match q with
  | AskHost command operation => fun b => [mkExchange c command operation b]
  | _ => fun _ => []
  end.

Inductive alone {A} : Ctl -> Prog A -> list Exchange -> A -> Ctl -> Prop :=
| alone_done c a : alone c (Done a) [] a c
| alone_atom {B} (f : Ctl -> B * Ctl) k c tr a c' : alone (f c).2 (k (f c).1) tr a c' -> alone c (Atom f k) tr a c'
| alone_ask {B} (q : Sys B) k c b tr a c' : alone c (k b) tr a c' -> alone c (Ask q k) (exchange c q b ++ tr) a c'.

(** What holds of every execution. *)
Fixpoint wp {A} (p : Prog A) (c : Ctl) (Q : list Exchange -> A -> Ctl -> Prop) : Prop :=
  match p with
  | Done a => Q [] a c
  | Atom f k => wp (k (f c).1) (f c).2 Q
  | Ask q k => forall b, wp (k b) c (fun tr => Q (exchange c q b ++ tr))
  end.

Lemma wp_sound {A} (p : Prog A) c Q tr a c' : wp p c Q -> alone c p tr a c' -> Q tr a c'.
Proof. intros Hp Ha. revert Q Hp. induction Ha; intros Q Hp; cbn in Hp; [done|by apply IHHa|]. by apply (IHHa (fun tr => Q (exchange c q b ++ tr))). Qed.

Lemma wp_mono {A} (p : Prog A) c (Q Q' : list Exchange -> A -> Ctl -> Prop) :
  wp p c Q -> (forall tr a c', Q tr a c' -> Q' tr a c') -> wp p c Q'.
Proof.
  intros Hp HQ. revert c Q Q' Hp HQ. induction p as [a|B f k IH|B q k IH]; intros c Q Q' Hp HQ; cbn in *; [auto|eauto|].
  intros b. eapply IH; [apply Hp|]. auto.
Qed.

Lemma wp_bind {A B} (p : Prog A) (h : A -> Prog B) c Q :
  wp p c (fun tr a c1 => wp (h a) c1 (fun tr2 => Q (tr ++ tr2))) -> wp (bind p h) c Q.
Proof.
  revert c Q. induction p as [a|C f k IH|C q k IH]; intros c Q Hp; cbn in *; [done|by apply IH|].
  intros b. apply IH. eapply wp_mono; [apply Hp|]. intros tr a c1 H1. eapply wp_mono; [exact H1|].
  intros tr2 a2 c2. by rewrite app_assoc.
Qed.

Lemma wp_try {A B} (p : ProgR A) (h : A -> ProgR B) c (Q : list Exchange -> Result B ProtocolError -> Ctl -> Prop) :
  wp p c (fun tr r c1 => match r with
                         | Ok a => wp (h a) c1 (fun tr2 => Q (tr ++ tr2))
                         | Err e => Q tr (Err e) c1
                         end) ->
  wp (try p h) c Q.
Proof.
  intros Hp. apply wp_bind. eapply wp_mono; [exact Hp|]. intros tr [a|e] c1; [done|]. cbn. by rewrite app_nil_r.
Qed.

Section Alone.
Context (cfg : Config) `{JL : StartupJsonLaws} `{CtlText}.

(** ** Parts that send nothing and leave the saved generations *)

Definition settled (e e' : StoredAgentStartup) : Prop :=
  as_generation (se_spec e') = as_generation (se_spec e) /\ hosts cfg e' = hosts cfg e
  /\ (as_enabled (se_spec e') = true -> as_enabled (se_spec e) = true).
Definition saved_as (R : StoredAgentStartup -> StoredAgentStartup -> Prop) (c c' : Ctl) : Prop :=
  ct_host_epoch c' = ct_host_epoch c /\ (store_well (ct_store c) -> store_well (ct_store c'))
  /\ forall i, match StartupStore.get i (ct_store c), StartupStore.get i (ct_store c') with
         | Some e, Some e' => R e e'
         | None, None => True
         | _, _ => False
         end.
Definition steady : Ctl -> Ctl -> Prop := saved_as settled.

Lemma saved_refl (R : StoredAgentStartup -> StoredAgentStartup -> Prop) c c' : (forall e, R e e) ->
  ct_store c' = ct_store c -> ct_host_epoch c' = ct_host_epoch c -> saved_as R c c'.
Proof. intros HR Hs He. split_and!; [done|by rewrite Hs|]. intros i. rewrite Hs. by case_match. Qed.
Lemma saved_trans (R : StoredAgentStartup -> StoredAgentStartup -> Prop) c1 c2 c3 :
  (forall e1 e2 e3, R e1 e2 -> R e2 e3 -> R e1 e3) -> saved_as R c1 c2 -> saved_as R c2 c3 -> saved_as R c1 c3.
Proof.
  intros HR (He1 & Hw1 & H1) (He2 & Hw2 & H2). split_and!; [congruence|auto|]. intros i. specialize (H1 i). specialize (H2 i).
  repeat case_match; try done. by eapply HR.
Qed.
Lemma settled_refl e : settled e e.
Proof. by split_and!. Qed.
Lemma settled_trans e1 e2 e3 : settled e1 e2 -> settled e2 e3 -> settled e1 e3.
Proof. intros (? & ? & ?) (? & ? & ?). split_and!; [congruence|congruence|auto]. Qed.
Lemma steady_same c c' : ct_store c' = ct_store c -> ct_host_epoch c' = ct_host_epoch c -> steady c c'.
Proof. apply saved_refl, settled_refl. Qed.
Lemma steady_trans c1 c2 c3 : steady c1 c2 -> steady c2 c3 -> steady c1 c3.
Proof. apply saved_trans, settled_trans. Qed.

(** Nothing that is saved changes. *)
Definition untouched (c c' : Ctl) : Prop := ct_store c' = ct_store c /\ ct_host_epoch c' = ct_host_epoch c.

Record Settling (R : Ctl -> Ctl -> Prop) : Prop := {
  settling_same c c' : untouched c c' -> R c c';
  settling_trans c1 c2 c3 : R c1 c2 -> R c2 c3 -> R c1 c3;
  settling_well c c' : R c c' -> store_well (ct_store c) -> store_well (ct_store c')
}.
Lemma steady_settling : Settling steady.
Proof. split; [by intros c c' [? ?]; apply steady_same|by apply steady_trans|by intros c c' (_ & ? & _)]. Qed.
Lemma untouched_settling : Settling untouched.
Proof. split; [done|by intros c1 c2 c3 [? ?] [? ?]; split; congruence|by intros c c' [-> _]]. Qed.

Section Hush.
Context (R : Ctl -> Ctl -> Prop) (S : Settling R).

Definition hush {A} (p : Prog A) : Prop := forall c, store_well (ct_store c) ->
  wp p c (fun tr _ c' => tr = [] /\ R c c').

Lemma hush_done {A} (a : A) : hush (Done a).
Proof. intros c _. split; [done|by apply S]. Qed.
Lemma hush_bind {A B} (p : Prog A) (h : A -> Prog B) : hush p -> (forall a, hush (h a)) -> hush (bind p h).
Proof.
  intros Hp Hh c Hw. apply wp_bind. eapply wp_mono; [by apply Hp|]. intros tr a c1 [-> H1].
  eapply wp_mono; [apply Hh; by apply (settling_well _ S c)|]. intros tr2 b c2 [-> H2]. split; [done|].
  by eapply (settling_trans _ S).
Qed.
Lemma hush_try {A B} (p : ProgR A) (h : A -> ProgR B) : hush p -> (forall a, hush (h a)) -> hush (try p h).
Proof. intros Hp Hh. apply hush_bind; [done|]. intros [a|e]; [auto|apply hush_done]. Qed.
Lemma hush_atom {A} (f : Ctl -> A * Ctl) : (forall c, untouched c (f c).2) -> hush (atom f).
Proof. intros Hf c _. split; [done|]. by apply S. Qed.
Definition unheard {B} (q : Sys B) : Prop := match q with AskHost _ _ => False | _ => True end.
Lemma hush_ask {B} (q : Sys B) : unheard q -> hush (ask q).
Proof. intros Hq c _ b. split; [by destruct q|by apply S]. Qed.
Lemma hush_ignore {A} (p : ProgR A) : hush p -> hush (ignore p).
Proof. intros Hp. apply hush_bind; [done|]. intros. apply hush_done. Qed.
Lemma hush_peek {A} (f : Ctl -> A) : hush (peek f).
Proof. by apply hush_atom. Qed.
End Hush.

Create HintDb hush.
Ltac same_state :=
  let c := fresh "c" in intros c; cbn;
  repeat (first [split; reflexivity | match goal with |- context [match ?x with _ => _ end] => destruct x; cbn end]).
Ltac hush_walk :=
  intros;
  lazymatch goal with
  | |- hush _ (try _ _) => apply hush_try; [assumption|hush_walk|hush_walk]
  | |- hush _ (bind _ _) => apply hush_bind; [assumption|hush_walk|hush_walk]
  | |- hush _ (ignore _) => apply hush_ignore; [assumption|hush_walk]
  | |- hush _ (match ?x with _ => _ end) => destruct x; hush_walk
  | |- hush _ (Done _) => apply hush_done; assumption
  | |- hush _ (ok _) => apply hush_done; assumption
  | |- hush _ (throw _) => apply hush_done; assumption
  | |- hush _ (lift _) => apply hush_done; assumption
  | |- hush _ (peek _) => apply hush_peek; assumption
  | |- hush _ (saved _) => apply hush_peek; assumption
  | |- hush _ (denied _) => apply hush_peek; assumption
  | |- hush _ (poke _) => apply hush_atom; [assumption|same_state]
  | |- hush _ (atom _) => try (apply hush_atom; [assumption|solve [same_state]])
  | |- hush _ (ask _) => apply hush_ask; [assumption|exact I]
  | |- _ => eauto with hush
  end.

Section Parts.
Context (R : Ctl -> Ctl -> Prop) (S : Settling R).

Lemma hush_with_agent {A} aid message (f : ControllerAgent -> A * ControllerAgent) : hush R (with_agent aid message f).
Proof. apply hush_atom; [done|]. intros c. destruct (lock_agent aid message c) as [a|e]; [by destruct (f a)|done]. Qed.
Lemma hush_emit info : hush R (emit info).
Proof. unfold emit. hush_walk. Qed.
Lemma hush_uncache aid : hush R (remove_cached_interface aid).
Proof. unfold remove_cached_interface, cache_atom. hush_walk. Qed.
Hint Resolve hush_with_agent hush_emit hush_uncache : hush.

Lemma hush_ensure aid credential port : hush R (ensure aid credential port).
Proof. unfold ensure. hush_walk. apply hush_atom; [done|]. intros c. unfold ensure_entry. repeat case_match; done. Qed.

Lemma publish_same process metadata inventory bound agent c : untouched c (publish process metadata inventory bound agent c).2.
Proof.
  unfold publish. case_match; [done|]. set (x := if hpi_running process then _ else _).
  assert (untouched c x.2) as [Hx1 Hx2].
  { subst x. unfold ensure_entry. destruct (hpi_running process); [|done]. destruct (am_http_proxy_port metadata); [|done].
    repeat case_match; simplify_eq; done. }
  destruct x as [[u|e] c1]; cbn in *; [|done]. repeat case_match; done.
Qed.
Lemma hush_process_response response status : hush R (process_response response status).
Proof. unfold process_response. hush_walk. Qed.
Hint Resolve hush_ensure hush_process_response : hush.

Lemma hush_search command directories : hush R (search_command command directories).
Proof. induction directories as [|d l IH]; cbn [search_command]; hush_walk. Qed.
Hint Resolve hush_search : hush.
Lemma hush_resolve command env : hush R (resolve_agent_command command env).
Proof. unfold resolve_agent_command. hush_walk. Qed.
Lemma hush_with_root {A} (q : Sys (Result A ProtocolError)) : unheard q -> hush R (with_root cfg q).
Proof. intros Hq. unfold with_root. case_match; [by apply hush_ask|by apply hush_done]. Qed.
Lemma hush_inject env aid : hush R (inject_private_state cfg env aid).
Proof.
  unfold inject_private_state, private_state_status. apply hush_try; [done| |hush_walk].
  apply hush_bind; [done|by apply hush_with_root|]. intros [[d|]|e]; [|hush_walk|hush_walk].
  apply hush_bind; [done| |hush_walk]. apply hush_bind; [done|by apply hush_with_root|hush_walk].
Qed.
Lemma hush_restored_status process text : hush R (restored_status process text).
Proof. unfold restored_status. hush_walk. Qed.
Lemma hush_directory requested : hush R (resolve_machine_directory requested).
Proof. unfold resolve_machine_directory. hush_walk. Qed.
Lemma hush_materialize entry : hush R (materialize_startup entry).
Proof. unfold materialize_startup. hush_walk. Qed.
End Parts.
#[local] Hint Resolve hush_with_agent hush_emit hush_uncache hush_ensure hush_process_response hush_resolve hush_inject
  hush_restored_status hush_directory hush_materialize : hush.

(** A write of a saved launch that only settles it. *)
Lemma upsert_steady c e e' : StartupStore.get (entry_id e) (ct_store c) = Some e -> entry_id e' = entry_id e -> settled e e' ->
  let r := upsert e' (ct_store c) in steady c (set_store r.2 c).
Proof.
  intros Hg Hid Hs r. destruct (upsert e' (ct_store c)) as [x st'] eqn:Eu. subst r. cbn [snd].
  split_and!; [done|intros Hw; by apply (store_op_ok (OpUpsert e') (ct_store c) x st')|].
  cbn. unfold upsert in Eu. destruct (is_denied (entry_id e') (ct_store c)).
  { injection Eu as _ <-. intros i. case_match; [apply settled_refl|done]. }
  apply commit_cases in Eu as [(_ & He & _)|(_ & Hst & _)].
  - intros i. unfold StartupStore.get in *. rewrite He. cbn. rewrite Hid. destruct (decide (i = entry_id e)) as [-> |Hne].
    + rewrite lookup_insert_eq, Hg. done.
    + rewrite lookup_insert_ne by done. case_match; [apply settled_refl|done].
  - intros i. unfold StartupStore.get. rewrite Hst. case_match; [apply settled_refl|done].
Qed.
Lemma disabled_settled e : settled e (set_spec (spec_enabled false) e).
Proof. by split_and!. Qed.

(** The execution of a write to the store. *)
Lemma wp_store_try {A} (m : SM A) c (Q : list Exchange -> Result A ProtocolError -> Ctl -> Prop) :
  Q [] (map_err startup_store_error (m (ct_store c)).1) (set_store (m (ct_store c)).2 c) -> wp (store_try m) c Q.
Proof. intros HQ. cbn. by destruct (m (ct_store c)). Qed.

(** ** Taking over a process *)

Notation hushed := (hush steady).
Lemma hush_disable_completed info process : hushed (disable_completed info process).
Proof.
  pose proof steady_settling as S. unfold disable_completed. case_match; [|hush_walk]. intros c Hw.
  cbn -[store_try]. destruct (StartupStore.get _ (ct_store c)) as [e|] eqn:Hg; [|split; [done|by apply S]].
  case_match; [|split; [done|by apply S]]. apply wp_store_try. split; [done|].
  destruct (keyed _ _ _ Hw Hg) as [Hid _]. apply (upsert_steady c e); [by rewrite Hid|done|apply disabled_settled].
Qed.
Hint Resolve hush_disable_completed : hush.

Lemma hush_after_publish process taken info : hushed (after_publish process taken info).
Proof. pose proof steady_settling as S. unfold after_publish. hush_walk. Qed.
Hint Resolve hush_after_publish : hush.

Lemma hush_upsert_process process text : hushed (upsert_process cfg process text).
Proof.
  pose proof steady_settling as S. unfold upsert_process, upsert_newer, require_not_denied. hush_walk.
  all: apply hush_atom; [done|]; intros ct; apply publish_same.
Qed.

Lemma wp_hush {A} R (p : Prog A) c (Q : list Exchange -> A -> Ctl -> Prop) : hush R p -> store_well (ct_store c) ->
  (forall a c', R c c' -> Q [] a c') -> wp p c Q.
Proof. intros Hp Hw HQ. eapply wp_mono; [by apply Hp|]. intros tr a c' [-> HR]. auto. Qed.
Lemma wp_hush_bind {A B} R (p : Prog A) (h : A -> Prog B) c Q : hush R p -> store_well (ct_store c) ->
  (forall a c1, R c c1 -> wp (h a) c1 Q) -> wp (bind p h) c Q.
Proof. intros Hp Hw Hh. apply wp_bind. by apply (wp_hush R). Qed.
Lemma wp_hush_try {A B} R (p : ProgR A) (h : A -> ProgR B) c Q : hush R p -> store_well (ct_store c) ->
  (forall a c1, R c c1 -> wp (h a) c1 Q) -> (forall e c1, R c c1 -> Q [] (Err e) c1) -> wp (try p h) c Q.
Proof. intros Hp Hw Hh He. apply wp_try. apply (wp_hush R); [done|done|]. intros [a|e] c1 HR; auto. Qed.

(** ** Spawning *)

Definition is_spawn (ex : Exchange) : Prop := match ex_command ex with CmdSpawn _ => True | _ => False end.
Definition no_spawns (tr : list Exchange) : Prop := Forall (fun ex => ~ is_spawn ex) tr.

(** A part that spawns nothing. *)
Definition mute {A} (p : Prog A) : Prop := forall c, store_well (ct_store c) ->
  wp p c (fun tr _ c' => no_spawns tr /\ steady c c').
Lemma mute_hush {A} (p : Prog A) : hushed p -> mute p.
Proof. intros Hp c Hw. eapply wp_mono; [by apply Hp|]. intros tr a c' [-> ?]. by split; [constructor|]. Qed.
Lemma mute_bind {A B} (p : Prog A) (h : A -> Prog B) : mute p -> (forall a, mute (h a)) -> mute (bind p h).
Proof.
  intros Hp Hh c Hw. apply wp_bind. eapply wp_mono; [by apply Hp|]. intros tr a c1 [Hn H1].
  eapply wp_mono; [apply Hh; by apply H1|]. intros tr2 b c2 [Hn2 H2]. split; [by apply Forall_app|]. by eapply steady_trans.
Qed.
Lemma mute_done {A} (a : A) : mute (Done a).
Proof. apply mute_hush, hush_done, steady_settling. Qed.
Lemma mute_try {A B} (p : ProgR A) (h : A -> ProgR B) : mute p -> (forall a, mute (h a)) -> mute (try p h).
Proof. intros Hp Hh. apply mute_bind; [done|]. intros [a|e]; [auto|apply mute_done]. Qed.
Lemma mute_ask command operation : match command with CmdSpawn _ => False | _ => True end -> mute (ask (AskHost command operation)).
Proof.
  intros Hc c Hw b. cbn. split; [|by apply steady_same]. constructor; [|constructor]. intros Hs. unfold is_spawn in Hs. by destruct command.
Qed.
Lemma mute_host_call command operation : match command with CmdSpawn _ => False | _ => True end -> mute (host_call command operation).
Proof. intros Hc. apply mute_bind; [by apply mute_ask|]. intros. apply mute_done. Qed.

(** One exchange with the Host and what follows it. *)
Lemma wp_host_call command operation c (Q : list Exchange -> Result HostResponse ProtocolError -> Ctl -> Prop) :
  (forall answer, Q [mkExchange c command operation answer] (map_err host_error answer) c) ->
  wp (host_call command operation) c Q.
Proof. intros HQ b. cbn. apply HQ. Qed.

Definition spawned (c : Ctl) (entry : StoredAgentStartup) (tr : list Exchange) : Prop :=
  exists c1 request answer rest,
    tr = mkExchange c1 (CmdSpawn request) (Some (startup_operation (ct_host_epoch c) entry)) answer :: rest
    /\ hsr_process_id request = entry_id entry /\ untouched c c1 /\ no_spawns rest.

Lemma wp_spawn_startup entry c : store_well (ct_store c) ->
  wp (spawn_startup cfg entry) c (fun tr r c' => steady c c' /\ ((tr = [] /\ is_ok r = false) \/ spawned c entry tr)).
Proof.
  pose proof untouched_settling as U. pose proof steady_settling as S. intros Hw. unfold spawn_startup.
  case_match; [|by split; [apply S|left]].
  assert (forall c1, untouched c c1 -> store_well (ct_store c1)) as Hwell by by intros c1 [-> _].
  assert (forall c1, untouched c c1 -> steady c c1) as Hst by by intros c1 ?; apply S.
  apply (wp_hush_try untouched); [by apply hush_resolve|done| |by intros e c1 H1; split; [auto|left]].
  intros command c1 H1. apply (wp_hush_try untouched); [by apply hush_inject|by apply Hwell| |].
  2:{ intros e c2 H2. split; [|by left]. apply Hst. by eapply (settling_trans _ U). }
  intros env c2 H2. pose proof (settling_trans _ U _ _ _ H1 H2) as H2'. clear H1 H2.
  apply (wp_hush_try untouched); [by apply hush_ensure|by apply Hwell| |].
  2:{ intros e c3 H3. split; [|by left]. apply Hst. by eapply (settling_trans _ U). }
  intros port c3 H3. pose proof (settling_trans _ U _ _ _ H2' H3) as H3'. clear c1 c2 H2' H3.
  unfold metadata_json. destruct (map_err _ (encode_metadata _)) as [metadata|e]; cbn [lift try bind]; [|by split; [auto|left]].
  cbn [wp peek atom bind fst snd]. destruct H3' as [Hs3 He3]. rewrite He3. intros answer. cbn [exchange].
  eapply (wp_mono _ _ (fun rest _ c' => no_spawns rest /\ steady c3 c')).
  2:{ intros rest r c' [Hn Hc']. split; [by eapply steady_trans; [apply Hst; split; done|]|right].
      eexists c3, _, answer, rest. split_and!; [reflexivity|done|done|done]. }
  assert (store_well (ct_store c3)) as Hw3 by by rewrite Hs3.
  revert c3 Hw3 Hs3 He3. clear Hwell Hst. intros c3 Hw3 _ _. match goal with |- wp ?p _ _ => cut (mute p) end; [intros Hm; by apply Hm|].
  apply mute_bind.
  - destruct answer as [response|text]; [apply mute_done|]. apply mute_hush. hush_walk.
  - intros [[| process| |]|e]; try apply mute_done. apply mute_try; [by apply mute_hush, hush_upsert_process|].
    intros info. apply mute_try; [|intros; apply mute_done]. case_match; [apply mute_done|].
    apply mute_try; [by apply mute_host_call|]. intros. apply mute_done.
Qed.
End Alone.
