(* ===== verification/ControllerStart.v ===== *)
(** * Starting a workload, and the report of a restore pass

    A start saves its generation before it spawns, under an operation ID that no earlier generation
    had, and only when no process of the workload is left running.  The report of a restore pass
    accounts for every saved launch of this Controller. *)

From stdpp Require Import gmap pretty sorting.
From S2P Require Import Prelude RustStr Protocol HostProtocol Activity ProxyTypes.
From S2P Require Import StartupStore StartupFacts PrivateState ControllerTypes Controller ControllerLife.
From S2P Require Import ControllerRecovery ControllerRuns ControllerSafe ControllerWatch ControllerFacts ControllerAlone.
Local Open Scope Z_scope.
Local Open Scope prog_scope.

Lemma startup_operation_inj epoch e e' : entry_id e = entry_id e' ->
  startup_operation epoch e = startup_operation epoch e' -> as_generation (se_spec e) = as_generation (se_spec e').
Proof. unfold startup_operation. intros ->. intros H. repeat apply (inj (String.append _)) in H. by apply (inj pretty) in H. Qed.

Section Start.
Context (cfg : Config) `{JL : StartupJsonLaws} `{CtlText}.

Lemma upsert_written e st st' : upsert e st = (Ok tt, st') -> on_disk st' /\ StartupStore.get (entry_id e) st' = Some e.
Proof.
  unfold upsert. destruct (is_denied (entry_id e) st); [done|]. intros Ec.
  apply commit_cases in Ec as [(_ & He & _ & rr & Ep & Hrr)|[? _]]; [|done].
  assert (StartupStore.get (entry_id e) st' = Some e) as Hg by (unfold StartupStore.get; rewrite He; apply lookup_insert_eq).
  split; [|done]. apply persist_outcome in Ep as [(_ & Hi & Hd)|[Hr _]]; [|congruence]. split; [done|].
  destruct Hd as [Hd|[[Hem _] _]]; [done|]. unfold StartupStore.get in Hg. by rewrite Hem, lookup_empty in Hg.
Qed.

(** The Host confirmed that the workload was stopped. *)
Definition stop_confirmed (aid : string) (tr : list Exchange) : Prop :=
  exists ex, ex ∈ tr /\ ex_command ex = CmdStop aid /\ is_ok (ex_answer ex) = true.
Definition none_left (aid : string) (restart : bool) (processes : list HostProcessInfo) (tr : list Exchange) : Prop :=
  forall p, p ∈ processes -> hpi_process_id p = aid -> hpi_running p = true -> restart = true /\ stop_confirmed aid tr.

Lemma stop_confirmed_app aid tr1 tr2 : stop_confirmed aid tr1 \/ stop_confirmed aid tr2 -> stop_confirmed aid (tr1 ++ tr2).
Proof. intros [(ex & Hin & ?)|(ex & Hin & ?)]; exists ex; (split; [apply elem_of_app; auto|done]). Qed.

Lemma wp_start_inventory operation aid restart processes : forall c, store_well (ct_store c) ->
  wp (start_inventory cfg operation aid restart processes) c (fun tr r c' =>
    no_spawns tr /\ (r = Ok None -> steady cfg c c' /\ none_left aid restart processes tr)).
Proof.
  pose proof (steady_settling cfg) as S.
  induction processes as [|p l IH]; intros c Hw; cbn [start_inventory].
  { split; [constructor|]. intros _. split; [by apply S|]. intros p Hp. by apply elem_of_nil in Hp. }
  destruct ((hpi_process_id p =s aid) && hpi_running p) eqn:Hp.
  2:{ eapply wp_mono; [by apply IH|]. intros tr r c' [Hn Hr]. split; [done|]. intros Hnone. destruct (Hr Hnone) as [Hs Hl].
      split; [done|]. intros q Hq Hid Hrun. apply elem_of_cons in Hq as [-> |Hq]; [|by apply (Hl q)].
      apply andb_false_iff in Hp as [Hp|Hp]; [by apply str_eqb_neq in Hp|congruence]. }
  apply (wp_hush_try (steady cfg)); [by apply hush_upsert_process|done| |by intros; split; [constructor|]].
  intros info c1 H1. destruct restart; cbn [negb].
  2:{ cbn [wp bind peek atom fst snd]. apply wp_try, wp_store_try. destruct (map_err _ _); cbn; by (split; [constructor|]). }
  apply wp_try, wp_host_call. intros answer.
  assert (no_spawns [mkExchange c1 (CmdStop aid) (Some (operation +:+ ":stop")) answer]) as Hn1 by (repeat constructor; intros []).
  destruct answer as [response|text]; cbn [map_err]; [|by split].
  apply (wp_hush_try (steady cfg)); [by apply hush_process_response|by apply H1| |by intros; split].
  intros info2 c2 H2. pose proof (settling_trans _ S _ _ _ H1 H2) as H2'.
  eapply wp_mono; [apply IH; by apply H2'|]. intros tr r c' [Hn Hr]. split; [by apply Forall_app|].
  intros Hnone. destruct (Hr Hnone) as [Hs _]. split; [by eapply (settling_trans _ S)|].
  intros q _ _ _. split; [done|]. apply stop_confirmed_app. left. eexists. split; [by apply elem_of_cons; left|done].
Qed.

(** What a start sent: no spawn, or one, after the inventory and the stops. *)
Definition started_fresh (c : Ctl) (aid : string) (restart : bool) (tr : list Exchange) : Prop :=
  no_spawns tr \/ exists inventory stops c1 request operation answer rest e e',
    tr = mkExchange c (CmdSync ∅) None inventory :: stops ++ mkExchange c1 (CmdSpawn request) (Some operation) answer :: rest
    /\ no_spawns stops /\ no_spawns rest
    /\ hsr_process_id request = aid
    /\ (forall response, inventory = Ok response -> none_left aid restart (processes_of response) stops)
    /\ StartupStore.get aid (ct_store c) = Some e
    /\ StartupStore.get aid (ct_store c1) = Some e' /\ on_disk (ct_store c1)
    /\ entry_id e' = aid /\ as_enabled (se_spec e') = true /\ as_generation (se_spec e') = saturating_add (as_generation (se_spec e)) 1
    /\ operation = startup_operation (ct_host_epoch c) e'.

Lemma no_spawn_sync c answer tr : no_spawns tr -> no_spawns (mkExchange c (CmdSync ∅) None answer :: tr).
Proof. intros Hn. constructor; [by intros []|done]. Qed.

Lemma wp_start_locked operation aid restart c : store_well (ct_store c) ->
  wp (start_locked cfg operation aid restart) c (fun tr _ _ => started_fresh c aid restart tr).
Proof.
  intros Hw. unfold start_locked, host_sync. apply wp_try, wp_host_call. intros inventory.
  destruct inventory as [response|text] eqn:Hinv; cbn [map_err]; [|left; by apply no_spawn_sync; constructor].
  apply wp_try. eapply wp_mono; [by apply wp_start_inventory|]. intros stops r c1 [Hn Hr].
  destruct r as [[info|]|err]; [by left; rewrite app_nil_r; apply no_spawn_sync| |by left; apply no_spawn_sync].
  destruct (Hr eq_refl) as [Hs Hnone]. clear Hr. pose proof Hs as (Hep & Hwell & Hsame). specialize (Hwell Hw). specialize (Hsame aid).
  cbn [wp bind saved peek atom fst snd]. destruct (StartupStore.get aid (ct_store c1)) as [e1|] eqn:Hg1.
  2:{ cbn. left. rewrite app_nil_r. by apply no_spawn_sync. }
  destruct (StartupStore.get aid (ct_store c)) as [e|] eqn:Hg; [|done]. destruct Hsame as (Hgen & _).
  cbn [ok_or lift try bind wp].
  destruct (keyed _ _ _ Hwell Hg1) as [Hid _].
  apply wp_try, wp_store_try. cbn [fst snd]. match goal with |- context [upsert ?x (ct_store c1)] => remember x as e' eqn:He' end.
  destruct (upsert e' (ct_store c1)) as [ru st'] eqn:Eu. cbn [fst snd].
  destruct ru as [[]|io]; cbn [map_err]; [|left; rewrite app_nil_r; by apply no_spawn_sync].
  pose proof (store_op_ok (OpUpsert e') _ _ _ Hwell Eu) as Hw'. apply upsert_written in Eu as [Hdisk Hget].
  eapply wp_mono; [by apply (wp_spawn_startup cfg e')|]. intros tr r c' [_ [[-> _]|Hsp]].
  { left. rewrite app_nil_r. by apply no_spawn_sync. }
  destruct Hsp as (c2 & request & answer & rest & -> & Hpid & [Hst2 He2] & Hrest). right.
  eexists _, stops, c2, request, _, answer, rest, e, e'. cbn in Hst2, He2. rewrite Hst2.
  split_and!; try done.
  - rewrite Hpid, He'. exact Hid.
  - intros response' [= <-]. exact Hnone.
  - rewrite <- Hid. rewrite He' in Hget |- *. exact Hget.
  - rewrite He'. exact Hid.
  - by rewrite He'.
  - rewrite He'. cbn. by rewrite Hgen.
  - cbn. by rewrite Hep.
Qed.

(** ** A restore pass *)

(** Every saved launch comes from the snapshot, turned off at most. *)
Definition from_snapshot (all : list StoredAgentStartup) (c : Ctl) : Prop :=
  store_well (ct_store c) /\ forall i e', StartupStore.get i (ct_store c) = Some e' ->
    exists e, e ∈ all /\ entry_id e = i /\ hosts cfg e' = hosts cfg e
      /\ (as_enabled (se_spec e') = true -> as_enabled (se_spec e) = true).

Lemma snapshot_steady all c c' : from_snapshot all c -> steady cfg c c' -> from_snapshot all c'.
Proof.
  intros [Hw Hs] (_ & Hwell & Hsame). split; [auto|]. intros i e' He'. specialize (Hsame i). rewrite He' in Hsame.
  destruct (StartupStore.get i (ct_store c)) as [e1|] eqn:He1; [|done]. destruct (Hs i e1 He1) as (e & Hin & Hid & Hh & Hon).
  destruct Hsame as (_ & Hh' & Hon'). exists e. split_and!; [done|done|congruence|auto].
Qed.

Lemma snapshot_upsert all c e e' : from_snapshot all c -> e ∈ all -> entry_id e' = entry_id e -> hosts cfg e' = hosts cfg e ->
  as_enabled (se_spec e') = as_enabled (se_spec e) -> from_snapshot all (set_store (upsert e' (ct_store c)).2 c).
Proof.
  intros [Hw Hs] Hin Hid Hh Hon. destruct (upsert e' (ct_store c)) as [x st'] eqn:Eu. cbn.
  split; [by apply (store_op_ok (OpUpsert e') _ _ _ Hw Eu)|]. cbn. unfold upsert in Eu.
  destruct (is_denied (entry_id e') (ct_store c)); [by injection Eu as _ <-|].
  apply commit_cases in Eu as [(_ & He & _)|(_ & Hst & _)]; intros i e1; unfold StartupStore.get.
  - rewrite He. cbn. rewrite lookup_insert_Some. intros [[<- <-]|[_ Hi]]; [|by apply Hs]. exists e. split_and!; [done|done|done|congruence].
  - rewrite Hst. apply Hs.
Qed.
Lemma snapshot_update all c i f : from_snapshot all c -> (forall e, hosts cfg (f e) = hosts cfg e) ->
  (forall e, as_enabled (se_spec (f e)) = as_enabled (se_spec e)) -> from_snapshot all (set_store (update i f (ct_store c)).2 c).
Proof.
  intros [Hw Hs] Hh Hon. destruct (update i f (ct_store c)) as [x st'] eqn:Eu. cbn.
  split; [by apply (store_op_ok (OpUpdate i f) _ _ _ Hw Eu)|]. cbn. unfold update in Eu.
  destruct (StartupStore.get i (ct_store c)) as [e0|] eqn:Hg; [|by injection Eu as _ <-].
  destruct (negb _) eqn:Hid; [by injection Eu as _ <-|]. destruct (Hs _ _ Hg) as (e & Hin & Hide & Hhe & Hone).
  apply commit_cases in Eu as [(_ & He & _)|(_ & Hst & _)]; intros j e1; unfold StartupStore.get.
  - rewrite He. cbn. rewrite lookup_insert_Some. intros [[<- <-]|[_ Hi]]; [|by apply Hs].
    exists e. split_and!; [done|done|by rewrite Hh|by rewrite Hon].
  - rewrite Hst. apply Hs.
Qed.

Definition spawn_sent (aid : string) (tr : list Exchange) : Prop :=
  exists ex request, ex ∈ tr /\ ex_command ex = CmdSpawn request /\ hsr_process_id request = aid.
Lemma spawn_sent_app aid tr1 tr2 : spawn_sent aid tr1 \/ spawn_sent aid tr2 -> spawn_sent aid (tr1 ++ tr2).
Proof. intros [(ex & q & Hin & ?)|(ex & q & Hin & ?)]; exists ex, q; (split; [apply elem_of_app; auto|done]). Qed.

Definition is_started (r : Result RestoreOutcome ProtocolError) : bool := match r with Ok (Started _) => true | _ => false end.

Lemma wp_restore_entry all running e c : from_snapshot all c -> e ∈ all ->
  wp (restore_entry cfg running e) c (fun tr r c' =>
    from_snapshot all c' /\ (is_started r = true -> spawn_sent (entry_id e) tr)).
Proof.
  intros Hc Hin. unfold restore_entry. cbn [wp bind peek atom fst snd]. case_match; [by split|].
  apply wp_try, wp_store_try.
  match goal with |- context [upsert ?x (ct_store c)] => set (e' := x) end.
  pose proof (snapshot_upsert all c e e' Hc Hin eq_refl eq_refl eq_refl) as Hc1.
  destruct (map_err _ _) as [u|err]; [|by split]. apply wp_try.
  eapply wp_mono; [apply (wp_spawn_startup cfg e'); by destruct Hc1|]. intros tr r c2 [Hs Htr].
  pose proof (snapshot_steady _ _ _ Hc1 Hs) as Hc2. destruct r as [info|err]; [|by split].
  cbn [wp bind peek atom fst snd]. apply wp_try, wp_store_try. cbn [fst snd].
  assert (spawn_sent (entry_id e) tr) as Hsent.
  { destruct Htr as [[_ ?]|(c3 & request & answer & rest & -> & Hid & _)]; [done|]. exists (mkExchange c3 (CmdSpawn request)
      (Some (startup_operation (ct_host_epoch (set_store (upsert e' (ct_store c)).2 c)) e')) answer), request.
    split_and!; [by left|done|done]. }
  destruct (map_err _ _); cbn; (split; [by apply snapshot_update|intros _; rewrite ?app_nil_r; done]).
Qed.

Lemma wp_restore_entries all running active l : forall c, from_snapshot all c -> Forall (fun e => e ∈ all) l ->
  wp (restore_entries cfg running active l) c (fun tr results c' =>
    from_snapshot all c' /\ results.*1 = entry_id <$> List.filter (to_restore cfg active) l
    /\ forall x, x ∈ results -> is_started x.2 = true -> spawn_sent x.1 tr).
Proof.
  induction l as [|e l IH]; intros c Hc Hl; cbn [restore_entries List.filter].
  { split_and!; [done|done|]. intros x Hx. by apply elem_of_nil in Hx. }
  inversion Hl as [|? ? Hin Hl']; subst. destruct (to_restore cfg active e); cbn [negb]; [|by apply IH].
  apply wp_bind. eapply wp_mono; [by apply wp_restore_entry|]. intros tr1 r c1 [Hc1 Hs1].
  apply wp_bind. eapply wp_mono; [by apply IH|]. intros tr2 rs c2 (Hc2 & Hids & Hs2). cbn.
  split_and!; [done|by rewrite Hids|]. intros x Hx Hst. rewrite app_nil_r. apply spawn_sent_app.
  apply elem_of_cons in Hx as [-> |Hx]; [left; by apply Hs1|right; by apply Hs2].
Qed.

Lemma hush_restore_inventory running processes : hush (steady cfg) (restore_inventory cfg running processes).
Proof.
  pose proof (steady_settling cfg) as S. revert running.
  induction processes as [|p l IH]; intros running; cbn [restore_inventory]; [by apply hush_done|].
  apply hush_bind; [done|by apply hush_peek|]. intros []; [apply IH|].
  apply hush_bind; [done|by apply hush_peek|]. intros current. apply hush_bind; [done| |intros _; apply IH].
  case_match; [by apply hush_done|]. apply hush_ignore; [done|]. by apply hush_upsert_process.
Qed.

Lemma entries_snapshot c : store_well (ct_store c) -> from_snapshot (entries (ct_store c)) c.
Proof.
  intros Hw. split; [done|]. intros i e He. exists e. split_and!; [|by destruct (keyed _ _ _ Hw He)|done|done].
  unfold entries. apply list_elem_of_fmap. exists (i, e). split; [done|]. by apply elem_of_map_to_list.
Qed.

(** What a pass leaves: the ID of every launch that had to run, with an outcome. *)
Lemma wp_restore_outcomes active c : store_well (ct_store c) ->
  wp (restore_startup_outcomes cfg active) c (fun tr results c' =>
    (exists e, results = [("host"%string, Err e)] /\ untouched c c')
    \/ exists all, from_snapshot all c' /\ results.*1 = entry_id <$> List.filter (to_restore cfg active) all
         /\ forall x, x ∈ results -> is_started x.2 = true -> spawn_sent x.1 tr).
Proof.
  intros Hw answer. cbn [exchange bind]. destruct answer as [[epoch build processes replays| | |]|text]; try (left; by eexists).
  apply (wp_hush_bind (steady cfg)); [apply hush_restore_inventory|done|]. intros running c1 (_ & Hw1 & _). specialize (Hw1 Hw).
  cbn [wp bind peek atom fst snd]. eapply wp_mono; [apply (wp_restore_entries (entries (ct_store c1)))|].
  - by apply entries_snapshot.
  - by apply Forall_forall.
  - intros tr rs c' (Hc' & Hids & Hst). right. exists (entries (ct_store c1)). split_and!; [done|done|].
    intros x Hx Hx'. apply (spawn_sent_app _ [_]). right. by apply Hst.
Qed.
End Start.

Section Claims.
Context (cfg : Config) `{JL : StartupJsonLaws} `{CtlText}.

(** C6: a start spawns at most one process, and for the next generation of the workload.  Run on its
    own, with any answers of the Host and of the operating system, it first asks for the inventory; a
    process of the workload that runs is taken over, or, for a restart, stopped with the Host's
    confirmation, before anything is spawned; and when it spawns, the launch with the next generation
    is saved, turned on and on disk, and the operation ID is that of this generation.  While the
    generation saved when the start began is below the largest [u64], no launch of the workload of
    that generation or an earlier one has this operation ID under the Host epoch the Controller knows.
    (A generation that was saved and spawned, and then replaced by a smaller one, is not excluded.) *)
Theorem start_spawns_once_and_fresh (operation aid : string) (restart : bool) (c : Ctl) (tr : list Exchange)
    (r : Result AgentInfo ProtocolError) (c' : Ctl) :
  store_well (ct_store c) -> alone c (start_locked cfg operation aid restart) tr r c' ->
  started_fresh c aid restart tr
  /\ forall before ex after e old, tr = before ++ ex :: after -> is_spawn ex ->
       StartupStore.get aid (ct_store c) = Some e -> 0 <= as_generation (se_spec e) < u64_max ->
       entry_id old = aid -> as_generation (se_spec old) <= as_generation (se_spec e) ->
       ex_operation ex <> Some (startup_operation (ct_host_epoch c) old).
Proof.
  intros Hw Ha. pose proof (wp_sound _ _ _ _ _ _ (wp_start_locked cfg operation aid restart c Hw) Ha) as Hf.
  split; [done|]. intros before ex after e old Htr Hex He Hmax Hold Hle Hop.
  assert (ex ∈ tr) as Hin by (rewrite Htr; set_solver). clear Htr.
  destruct Hf as [Hn|(inv & stops & c1 & request & op & answer & rest & e0 & e' & -> & Hn1 & Hn2 & _ & _ & Hg & Hg' & _ & Hid & _ & Hgen & ->)].
  { unfold no_spawns in Hn. rewrite Forall_forall in Hn. by apply (Hn ex). }
  unfold no_spawns in *. rewrite Forall_forall in Hn1, Hn2. rewrite He in Hg. injection Hg as <-.
  apply elem_of_cons in Hin as [-> |Hin]; [done|]. apply elem_of_app in Hin as [Hin|Hin]; [by apply Hn1 in Hin|].
  apply elem_of_cons in Hin as [-> |Hin]; [|by apply Hn2 in Hin].
  cbn in Hop. apply (inj Some) in Hop.
  apply startup_operation_inj in Hop; [|congruence]. unfold saturating_add, u64_max in *. lia.
Qed.

(** C19: the report of a restore pass accounts for every saved launch of this Controller: run on its
    own, it either says that the Host gave no inventory, or it has for every launch that is saved
    afterwards an item with the right reason (stopped, identity revoked, or for one that has to run:
    attached, started or failed), and a workload is reported as started only when its spawn was sent. *)
Theorem restore_report_is_complete (active : list string) (c : Ctl) (tr : list Exchange) (report : RuntimeRestoreReport) (c' : Ctl) :
  store_well (ct_store c) -> alone c (restore_runtime cfg active) tr report c' ->
  (exists item, item ∈ rr_items report /\ ri_workload_id item = "host"%string /\ ri_state item = RsFailed)
  \/ (forall aid e, StartupStore.get aid (ct_store c') = Some e -> hosts cfg e = true ->
        exists item, item ∈ rr_items report /\ ri_workload_id item = aid
          /\ if negb (as_enabled (se_spec e)) then ri_state item = SkippedStopped
             else if bool_decide (aid ∈ active)
             then ri_state item = RsAttached \/ ri_state item = RsStarted \/ ri_state item = RsFailed
             else ri_state item = IdentityRevoked)
     /\ forall item, item ∈ rr_items report -> ri_state item = RsStarted -> spawn_sent (ri_workload_id item) tr.
Proof.
  intros Hw Ha. pattern tr, report, c'. refine (wp_sound _ _ _ _ _ _ _ Ha). clear tr report c' Ha.
  unfold restore_runtime. apply wp_bind. eapply wp_mono; [by apply wp_restore_outcomes|]. intros tr results c' Hres.
  cbn [wp bind peek atom fst snd]. rewrite app_nil_r. cbn [rr_items]. setoid_rewrite merge_sort_Permutation. setoid_rewrite elem_of_app.
  destruct Hres as [(e & -> & _)|(all & [Hw' Hs] & Hids & Hst)].
  { left. exists (restore_item ("host"%string, Err e)). split; [left|done]. by left. }
  right. split.
  - intros aid e He Hh. destruct (keyed _ _ _ Hw' He) as [Hid _].
    assert (e ∈ entries (ct_store c')) as Hin.
    { unfold entries. apply list_elem_of_fmap. exists (aid, e). split; [done|]. by apply elem_of_map_to_list. }
    destruct (as_enabled (se_spec e)) eqn:Hon; cbn [negb].
    2:{ exists (mkRuntimeRestoreItem aid "agent" SkippedStopped None). split; [right|done].
        apply list_elem_of_omap. exists e. split; [done|]. unfold skipped_item. by rewrite Hh, Hon, Hid. }
    case_bool_decide as Hact.
    2:{ exists (mkRuntimeRestoreItem aid "agent" IdentityRevoked None). split; [right|done].
        apply list_elem_of_omap. exists e. split; [done|]. unfold skipped_item. by rewrite Hh, Hon, Hid, bool_decide_eq_false_2. }
    destruct (Hs aid e He) as (e0 & Hin0 & Hid0 & Hh0 & Hon0).
    assert (aid ∈ results.*1) as Hr.
    { rewrite Hids. apply list_elem_of_fmap. exists e0. split; [done|]. apply list_elem_of_In, filter_In.
      split; [by apply list_elem_of_In|]. unfold to_restore. by rewrite <- Hh0, Hh, Hon0, Hid0, bool_decide_eq_true_2. }
    apply list_elem_of_fmap in Hr as ([aid' r] & Heq & Hr). cbn in Heq. subst aid'.
    exists (restore_item (aid, r)). split; [left; apply list_elem_of_fmap; by eexists|]. destruct r as [[]|]; cbn; auto.
  - intros item [Hi|Hi] Hs'.
    + apply list_elem_of_fmap in Hi as ([aid r] & -> & Hr). destruct r as [[info|]|err]; try done. by apply (Hst (aid, Ok (Started info))).
    + apply list_elem_of_omap in Hi as (e & _ & Hi). unfold skipped_item in Hi. repeat case_match; simplify_eq; done.
Qed.
End Claims.
