(* ===== verification/ControllerSample.v ===== *)
(** * A Controller that can be run

    Answers of the Host and of the operating system, and tasks that are run for a number of steps or
    to their end: what the witnesses evaluate. *)

From stdpp Require Import gmap pretty sorting.
From S2P Require Import Prelude RustStr Protocol HostProtocol Activity ProxyTypes.
From S2P Require Import StartupStore StartupFacts PrivateState ControllerTypes Controller ControllerLife.
From S2P Require Import ControllerRecovery ControllerInterface ControllerRuns ControllerSafe ControllerWatch ControllerFacts.
From S2P Require Import BinaryFrames ControllerAlone ControllerStart.
Local Open Scope Z_scope.

(** ** Running tasks *)

Definition Answers : Type := forall B, Sys B -> B.

(** [n] steps of a task. *)
Fixpoint run_task {A} (n : nat) (answers : Answers) (c : Ctl) (p : Prog A) : Ctl * Prog A * list Sent :=
  match n, p with
  | S n', Atom f k => run_task n' answers (f c).2 (k (f c).1)
  | S n', Ask q k =>
      let '(c', p', l) := run_task n' answers c (k (answers _ q)) in (c', p', sent q ++ l)
  | _, _ => (c, p, [])
  end.

(** A task to its end. *)
Fixpoint complete {A} (answers : Answers) (c : Ctl) (p : Prog A) : list Exchange * A * Ctl :=
  match p with
  | Done a => ([], a, c)
  | Atom f k => complete answers (f c).2 (k (f c).1)
  | Ask q k => let '(tr, a, c') := complete answers c (k (answers _ q)) in (exchange c q (answers _ q) ++ tr, a, c')
  end.

Lemma complete_alone {A} answers (p : Prog A) : forall c,
  alone c p (complete answers c p).1.1 (complete answers c p).1.2 (complete answers c p).2.
Proof.
  induction p as [a|B f k IH|B q k IH]; intros c; cbn; [constructor|constructor; apply IH|].
  specialize (IH (answers B q) c). destruct (complete answers c (k (answers B q))) as [[tr a] c']. by constructor.
Qed.

Section Sched.
Context (cfg : Config) `{StartupJson} `{CtlText} (locks : LockedOp -> Prop) (frees : FreeOp -> Prop).

Lemma runs_app w1 tr1 w2 tr2 w3 : runs cfg locks frees w1 tr1 w2 -> runs cfg locks frees w2 tr2 w3 ->
  runs cfg locks frees w1 (tr1 ++ tr2) w3.
Proof. intros H1 H2. induction H1; [done|]. rewrite <- app_assoc. econstructor; eauto. Qed.

Lemma run_holder n answers others : forall c p,
  runs cfg locks frees (Running c (Some p) others) (run_task n answers c p).2
    (Running (run_task n answers c p).1.1 (Some (run_task n answers c p).1.2) others).
Proof.
  induction n as [|n IH]; intros c p; [constructor|]. destruct p as [a|B f k|B q k]; cbn; [constructor| |].
  - apply (runs_step _ _ _ _ [] _ _ _ (world_hold _ _ _ _ _ _ _ _ _ (prog_atom f k c)) (IH _ _)).
  - specialize (IH c (k (answers B q))). destruct (run_task n answers c (k (answers B q))) as [[c' p'] l].
    apply (runs_step _ _ _ _ _ _ _ _ (world_hold _ _ _ _ _ _ _ _ _ (prog_ask q k c (answers B q))) IH).
Qed.

Lemma run_first n answers holder after : forall c p,
  runs cfg locks frees (Running c holder (p :: after)) (run_task n answers c p).2
    (Running (run_task n answers c p).1.1 holder ((run_task n answers c p).1.2 :: after)).
Proof.
  induction n as [|n IH]; intros c p; [constructor|]. destruct p as [a|B f k|B q k]; cbn; [constructor| |].
  - apply (runs_step _ _ _ _ [] _ _ _ (world_other _ _ _ c holder [] _ after _ _ _ (prog_atom f k c)) (IH _ _)).
  - specialize (IH c (k (answers B q))). destruct (run_task n answers c (k (answers B q))) as [[c' p'] l].
    apply (runs_step _ _ _ _ _ _ _ _ (world_other _ _ _ c holder [] _ after _ _ _ (prog_ask q k c (answers B q))) IH).
Qed.

(** One operation under the lock, for [n] steps. *)
Lemma run_locked n answers c op : locks op ->
  runs cfg locks frees (Running c None []) (run_task n answers c (locked_prog cfg op)).2
    (Running (run_task n answers c (locked_prog cfg op)).1.1 (Some (run_task n answers c (locked_prog cfg op)).1.2) []).
Proof.
  intros Hl. apply (runs_step _ _ _ _ [] _ _ _ (world_lock _ _ _ _ _ op Hl)). apply run_holder.
Qed.

(** A task is begun and left; an operation runs; the task goes on; another operation runs. *)
Lemma interleaved n1 n2 n3 n4 answers c fop op1 op2 : frees fop -> locks op1 -> locks op2 ->
  let r1 := run_task n1 answers c (free_prog cfg fop) in
  let r2 := run_task n2 answers r1.1.1 (locked_prog cfg op1) in
  let r3 := run_task n3 answers r2.1.1 r1.1.2 in
  let r4 := run_task n4 answers r3.1.1 (locked_prog cfg op2) in
  exists w, runs cfg locks frees (Running c None []) (r1.2 ++ r2.2 ++ r3.2 ++ r4.2) w.
Proof.
  intros Hf H1 H2 r1 r2 r3 r4. exists (Running r4.1.1 (Some r4.1.2) [r3.1.2]).
  apply (runs_app _ _ (Running r1.1.1 None [r1.1.2])).
  { apply (runs_step _ _ _ _ [] _ _ _ (world_free _ _ _ c None [] fop Hf)). apply run_first. }
  apply (runs_app _ _ (Running r2.1.1 (Some r2.1.2) [r1.1.2])).
  { apply (runs_step _ _ _ _ [] _ _ _ (world_lock _ _ _ _ _ op1 H1)). apply run_holder. }
  apply (runs_app _ _ (Running r3.1.1 None [r3.1.2])).
  { apply (runs_step _ _ _ _ [] _ _ _ (world_unlock _ _ _ _ _ _)). apply run_first. }
  apply (runs_step _ _ _ _ [] _ _ _ (world_lock _ _ _ _ _ op2 H2)). apply run_holder.
Qed.
End Sched.

(** ** A small Controller *)

Definition sample_cfg : Config :=
  mkConfig "w" "s" "http://controller" "http://proxy" None "/bin" "/bin/sh" "" (Err "agent_private_state_unavailable"%string).
Definition sample_metadata (generation : Z) : AgentMetadata := mkAgentMetadata "a" generation "w" "s" "shell" "a" "." "c" None.

(** Metadata is only told apart by its generation here. *)
#[export] Instance sample_text : CtlText := {
  encode_metadata m := Ok (pretty (am_run_generation m));
  decode_metadata s := if s =s "1" then Ok (sample_metadata 1) else if s =s "2" then Ok (sample_metadata 2) else Err "invalid"%string;
  plain b := bytes_str b;
  to_lowercase s := s;
  content_hash _ := 0
}.

Definition sample_process (running : bool) (generation started_at : Z) : HostProcessInfo :=
  mkHostProcessInfo "a" (Some 7) "." running started_at started_at (if running then None else Some (started_at + 5))
    (if running then None else Some 0) (pretty started_at) 1 1 false (pretty generation).
Definition sample_info (kind : string) (status : AgentStatus) (generation : Z) : AgentInfo :=
  mkAgentInfo None "a" generation "w" "s" kind "a" "." status (Some 7) 10 10 None None 0 None.
Definition sample_agent (kind : string) (status : AgentStatus) (generation : Z) : ControllerAgent :=
  mkControllerAgent "10" (sample_info kind status generation) "c" "" [] false (activity_new status 0) 0.
Definition sample_ctl (st : StartupStore) (agents : list (string * ControllerAgent)) : Ctl :=
  mkCtl "e" st ((fun a => mkSlot a false) <$> list_to_map agents) ∅ ∅ (ledger_new limits_default) ∅ None
    (mkProxyLinkStatus false None None) [] [] [].

(** The Host's inventory and its answers to a spawn and a stop; the rest of the world is quiet. *)
Definition sample_answers (inventory : list HostProcessInfo) (spawned stopped : HostProcessInfo) : Answers :=
  fun B q =>
    match q in Sys B return B with
    | AskHost (CmdSync _) _ => Ok (RespSynced "e" (mkHostBuildInfo "" "") inventory [])
    | AskHost (CmdSpawn _) _ => Ok (RespProcess spawned)
    | AskHost (CmdStop _) _ => Ok (RespProcess stopped)
    | AskHost _ _ => Ok RespAck
    | AskUtc => 100
    | AskInstant => 100
    | AskUuid => "u"%string
    | AskBind _ => Ok 4000
    | AskExecutable _ => true
    | AskDirectory _ => Ok true
    | AskPrepare _ => Ok None
    | AskVerify _ => Ok None
    | AskMeasure _ => Ok (mkMeasurement 0 0 false)
    | AskPrivateIds => Ok []
    | AskFreeBytes _ => Ok 0
    | AskPurge _ => Ok false
    | AskManifest _ _ => Err (protocol_error "" "")
    | AskStatus _ _ => Err (protocol_error "" "")
    | AskSubmit _ _ _ _ => Ok tt
    | AskDelivery _ _ _ => Err (protocol_error "" "")
    | AskAbort _ _ _ => Ok tt
    | AskTranscript _ _ _ _ => Err (protocol_error "" "")
    | AskQueue _ _ _ _ => Err (protocol_error "" "")
    end.
