(* ===== verification/ControllerRaces.v ===== *)
(** * What goes wrong in the Controller

    An exit event that is under way while its workload is started again brings the old launch back,
    and the next start repeats an operation ID.  Reading the prompts of a bridge workload panics when
    fewer are queued than may be read, and its record is lost.  An App that declares its own launch
    lets older revisions of its deployment in. *)

From stdpp Require Import gmap pretty sorting.
From S2P Require Import Prelude RustStr Protocol HostProtocol Activity ProxyTypes.
From S2P Require Import StartupStore StartupFacts PrivateState ControllerTypes Controller ControllerLife.
From S2P Require Import ControllerRecovery ControllerInterface ControllerRuns ControllerSafe ControllerWatch ControllerFacts.
From S2P Require Import ControllerAlone ControllerStart ControllerSample.
Local Open Scope Z_scope.
Local Open Scope prog_scope.

(** ** An exit event races with a start *)

(** A command workload that runs under generation 1. *)
Definition race_start : Ctl :=
  sample_ctl (sample_store [sample_entry "a" "shell" 0 1 true] []) [("a"%string, sample_agent "shell" Idle 1)].
Definition race_answers : Answers := sample_answers [] (sample_process true 2 20) (sample_process false 2 20).
Definition exit_event : Prog unit := free_prog sample_cfg (FProcess (sample_process false 1 10)).
Definition start_again (operation_id : string) : Prog unit := locked_prog sample_cfg (LStart operation_id "a" false).

(** The event reads the saved launch, the workload is started, the event writes, and the workload,
    which has ended again, is started once more. *)
Definition race1 := run_task 4 race_answers race_start exit_event.
Definition race2 := run_task 100 race_answers race1.1.1 (start_again "op1").
Definition race3 := run_task 100 race_answers race2.1.1 race1.1.2.
Definition race4 := run_task 100 race_answers race3.1.1 (start_again "op2").
Definition race_trace : list Sent := race1.2 ++ race2.2 ++ race3.2 ++ race4.2.

Definition operation_ids (tr : list Sent) : list (option string) :=
  omap (fun s : Sent => match s.1 with CmdSpawn _ => Some s.2 | _ => None end) tr.

Lemma race_runs : exists w, runs sample_cfg any_lock any_free (Running race_start None []) race_trace w.
Proof.
  exact (interleaved sample_cfg any_lock any_free 4 100 100 100 race_answers race_start (FProcess (sample_process false 1 10))
    (LStart "op1" "a" false) (LStart "op2" "a" false) I I I).
Qed.

Definition saved_generation (c : Ctl) : option Z := (fun e => as_generation (se_spec e)) <$> StartupStore.get "a" (ct_store c).
(** ** The prompts of a bridge workload *)

Lemma lock_agent_slot aid m c a : lock_agent aid m c = Ok a <-> ct_agents c !! aid = Some (mkSlot a false).
Proof.
  unfold lock_agent, get_slot. destruct (ct_agents c !! aid) as [[x []]|]; cbn; split; intros; by simplify_eq.
Qed.
Lemma poison_lookup aid c a : ct_agents c !! aid = Some (mkSlot a false) -> ct_agents (poison aid c) !! aid = Some (mkSlot a true).
Proof. intros Ha. unfold poison. rewrite Ha. cbn. apply lookup_insert_eq. Qed.
Lemma poison_refuses aid c a m : ct_agents c !! aid = Some (mkSlot a false) -> lock_agent aid m (poison aid c) = Err (state_error m).
Proof. intros Ha. unfold lock_agent, get_slot. by rewrite (poison_lookup _ _ _ Ha). Qed.

(** ** An App that declares its own launch *)

Section Own.
Context (cfg : Config) `{JL : StartupJsonLaws} `{CtlText}.

Lemma wp_peek {A B} (f : Ctl -> A) (h : A -> Prog B) c Q : wp (h (f c)) c Q -> wp (bind (peek f) h) c Q.
Proof. done. Qed.

Lemma wp_set_startup aid request c : store_well (ct_store c) ->
  wp (set_startup cfg aid request) c (fun _ r c' => is_ok r = true ->
    exists e', StartupStore.get aid (ct_store c') = Some e' /\ se_app_revision e' = 0).
Proof.
  pose proof untouched_settling as U. intros Hw. unfold set_startup. case_match; [done|].
  apply (wp_hush_try untouched); [by apply hush_directory|done| |done]. intros u c1 [Hs1 _].
  apply wp_try. destruct (validate_publish_ports _); cbn [lift wp]; [|done].
  apply wp_try. cbn [peek atom wp fst snd]. destruct (lock_agent _ _ c1); [|done]. case_match; [done|].
  cbn [bind saved peek atom wp fst snd]. apply wp_try, wp_store_try. cbn [fst snd].
  match goal with |- context [upsert ?x ?s] => destruct (upsert x s) as [[[]|err] st'] eqn:Eu end; cbn; [|done].
  intros _. eexists. split; [by apply upsert_written in Eu as [_ Hg]|done].
Qed.
End Own.

Section Claims.

(** One operation ID can start a workload twice.  In this run of a Controller (its saved launches
    well formed and on disk) the event that the workload has ended reads the saved launch; the
    workload is started again, which saves generation 2 and spawns under its operation ID; the event
    then writes what it read back, so that generation 1 is saved; and the next start spawns under the
    operation ID of generation 2 once more. *)
Theorem operation_id_can_repeat :
  store_well (ct_store race_start) /\ on_disk (ct_store race_start)
  /\ (exists w, runs sample_cfg any_lock any_free (Running race_start None []) race_trace w)
  /\ saved_generation race2.1.1 = Some 2 /\ saved_generation race3.1.1 = Some 1
  /\ operation_ids race_trace = [Some "startup:e:a:2"%string; Some "startup:e:a:2"%string].
Proof.
  split_and!; [|by split; [eexists|]|exact race_runs|by vm_compute..].
  split; [|by vm_compute]. intros i e He. cbn in He. apply lookup_insert_Some in He as [[<- <-]|[_ He]]; [|by rewrite lookup_empty in He].
  split; [done|]. apply not_elem_of_empty.
Qed.

(** Asking for the prompts of a bridge workload loses the workload when fewer are queued than
    the request may return (100 unless it asks for fewer): the read panics with the record locked.
    From then on no operation gets the record: every lock of it fails, its credential is refused, and
    it is not listed. *)
Theorem short_prompt_queue_loses_the_workload (aid : string) (limit : option Z) (now : Time) (c : Ctl) (a : ControllerAgent) (m : string) :
  lock_agent aid m c = Ok a -> ag_kind (ca_info a) = "bridge"%string ->
  Z.of_nat (List.length (ca_prompt_queue a)) < Z.min (default BRIDGE_PROMPT_READ_LIMIT limit) BRIDGE_PROMPT_READ_LIMIT ->
  let c' := (read_prompt_queue aid limit now c).2 in
  (read_prompt_queue aid limit now c).1 = None
  /\ (forall message, lock_agent aid message c' = Err (state_error message))
  /\ (forall credential answers, is_ok (complete answers c' (authenticate_agent aid credential)).1.2 = false)
  /\ (forall info, info ∈ list_agents c' -> exists other x, other <> aid /\ ct_agents c !! other = Some (mkSlot x false) /\ info = ca_info x).
Proof.
  intros Ha Hk Hlen. apply lock_agent_slot in Ha as Hslot.
  assert (read_prompt_queue aid limit now c = (None, poison aid c)) as ->.
  { unfold read_prompt_queue. rewrite (proj2 (lock_agent_slot aid "agent state lock poisoned" c a) Hslot), Hk. cbn [negb String.eqb].
    unfold drain_front. destruct (Nat.leb_spec (Z.to_nat (Z.min (default BRIDGE_PROMPT_READ_LIMIT limit) BRIDGE_PROMPT_READ_LIMIT))
      (List.length (ca_prompt_queue a))); [lia|done]. }
  cbn [fst snd]. split_and!; [done|by intros; eapply poison_refuses| |].
  - intros credential answers. unfold authenticate_agent. cbn. by rewrite (poison_refuses aid c a _ Hslot).
  - intros info Hin. unfold list_agents in Hin. apply list_elem_of_bind in Hin as (other & Hin & _).
    destruct (try_lock other (poison aid c)) as [x|] eqn:Ht; cbn in Hin; [|by apply elem_of_nil in Hin].
    apply list_elem_of_singleton in Hin. subst info. unfold try_lock in Ht.
    destruct (lock_agent other "" (poison aid c)) as [x'|] eqn:Hl; [|done]. injection Ht as ->. exists other, x.
    destruct (decide (other = aid)) as [-> |Hne]; [by rewrite (poison_refuses aid c a _ Hslot) in Hl|].
    split; [done|]. apply lock_agent_slot in Hl. split; [|done]. unfold poison in Hl. rewrite Hslot in Hl. cbn in Hl.
    by rewrite lookup_insert_ne in Hl by done.
Qed.

(** An App that declares its own launch lets older deployments in: once its own declaration was
    taken, every revision of its deployment counts as new, those from before the one that was saved
    included. *)
Theorem own_declaration_reopens_old_revisions (cfg : Config) `{JL : StartupJsonLaws} `{CtlText} (aid : string)
    (request : SetAgentStartupRequest) (c : Ctl) (e : StoredAgentStartup) (tr : list Exchange)
    (spec : AgentStartupSpec) (c' : Ctl) :
  store_well (ct_store c) -> StartupStore.get aid (ct_store c) = Some e -> as_kind (se_spec e) = "app"%string ->
  alone c (set_startup cfg aid request) tr (Ok spec) c' ->
  exists e', StartupStore.get aid (ct_store c') = Some e'
    /\ forall replacement revision, 0 < revision <= se_app_revision e ->
         (exists new, app_revision replacement revision e' = NewRevision new)
         /\ (revision < se_app_revision e -> app_revision replacement revision e = StaleRevision).
Proof.
  intros Hw He Hk Ha. destruct (wp_sound _ _ _ _ _ _ (wp_set_startup cfg aid request c Hw) Ha eq_refl) as (e' & Hg & Hrev).
  exists e'. split; [done|]. intros replacement revision Hr. unfold app_revision. rewrite Hrev. split.
  - destruct (revision <? 0) eqn:?; [lia|]. destruct (revision =? 0) eqn:?; [lia|]. cbn. by eexists.
  - intros Hlt. destruct (revision <? se_app_revision e) eqn:?; [done|lia].
Qed.
End Claims.
