(* ===== verification/ControllerExamples.v ===== *)
(** * The properties of the Controller at concrete inputs *)

From stdpp Require Import gmap pretty sorting.
From S2P Require Import Prelude RustStr Protocol HostProtocol Activity ProxyTypes.
From S2P Require Import StartupStore StartupFacts PrivateState ControllerTypes Controller ControllerLife.
From S2P Require Import ControllerRecovery ControllerInterface ControllerRuns ControllerSafe ControllerWatch ControllerFacts.
From S2P Require Import ControllerAlone ControllerStart ControllerSample ControllerRaces.
Local Open Scope Z_scope.

(** ** Stores that are well formed *)

Lemma sample_one_well e : store_well (sample_store [e] []).
Proof.
  split; [|by vm_compute]. intros i x Hx. cbn in Hx. apply lookup_insert_Some in Hx as [[<- <-]|[_ Hx]];
    [|by rewrite lookup_empty in Hx]. split; [done|]. apply not_elem_of_empty.
Qed.
Lemma sample_denied_well id : store_well (sample_store [] [id]).
Proof. split; [intros i x Hx; cbn in Hx; by rewrite lookup_empty in Hx|]. unfold count_ids. cbn. by rewrite union_empty_r_L, size_singleton. Qed.
Lemma sample_get e : StartupStore.get (entry_id e) (sample_store [e] []) = Some e.
Proof. apply lookup_insert_eq. Qed.
Lemma sample_on_disk e : on_disk (sample_store [e] []).
Proof.
  split; [|done]. unfold image. rewrite decide_False; [eexists; done|]. intros [He _]. cbn in He. by apply insert_non_empty in He.
Qed.

(** ** A denied identity *)

Definition denied_ctl : Ctl := sample_ctl (sample_store [] ["a"%string]) [].

Theorem fenced_identity_is_never_spawned_witness :
  sends_no_spawn "a" (run_task 100 race_answers denied_ctl (locked_prog sample_cfg (LStart "op" "a" false))).2.
Proof.
  refine (proj1 (fenced_identity_is_never_spawned sample_cfg "a" denied_ctl [] denied_ctl [] _ _ _ _ _ _
    (run_locked sample_cfg any_lock any_free 100 race_answers denied_ctl (LStart "op" "a" false) I))).
  - apply sample_denied_well.
  - apply runs_here.
  - vm_compute. reflexivity.
  - split; (eexists _, (store_file (sr_state (sample_store [] ["a"%string]))); split; [reflexivity|];
      split; [apply store_json_roundtrip; reflexivity|vm_compute; reflexivity]).
Defined.

(** ** A stopped workload *)

Definition stopped_ctl : Ctl := sample_ctl (sample_store [sample_entry "a" "shell" 0 1 false] []) [].

Theorem stopped_workload_stays_stopped_witness :
  sends_no_spawn "a" (run_task 100 race_answers stopped_ctl (locked_prog sample_cfg (LRestore ["a"%string]))).2.
Proof.
  refine (proj1 (stopped_workload_stays_stopped sample_cfg "a" stopped_ctl [] stopped_ctl [] (sample_entry "a" "shell" 0 1 false)
    _ _ _ _ _ _ _ (run_locked sample_cfg (fun op => ~ turns_on "a" op) any_free 100 race_answers stopped_ctl (LRestore ["a"%string]) _))).
  - apply sample_one_well.
  - apply runs_here.
  - apply (sample_get (sample_entry "a" "shell" 0 1 false)).
  - reflexivity.
  - apply sample_on_disk.
  - intros [].
Defined.

(** ** An App *)

Definition app_ctl : Ctl :=
  sample_ctl (sample_store [sample_entry "a" "app" 3 1 true] []) [("a"%string, sample_agent "app" Idle 1)].
Definition older_launch : ReplaceAgentStartupRequest := mkReplaceAgentStartupRequest None "/bin/old" [].

Theorem app_revision_never_goes_back_witness :
  exists e', StartupStore.get "a" (ct_store (run_task 100 race_answers app_ctl
      (locked_prog sample_cfg (LUpdateApp "op" "a" older_launch 2))).1.1) = Some e' /\ 3 <= se_app_revision e'.
Proof.
  destruct (proj1 (app_revision_never_goes_back sample_cfg "a" app_ctl (sample_entry "a" "app" 3 1 true) _ _
    (sample_one_well _) (sample_on_disk _) (sample_get (sample_entry "a" "app" 3 1 true)) eq_refl
    (run_locked sample_cfg (fun op => ~ gives_up "a" op) (fun op => op <> FClearStartup "a") 100 race_answers app_ctl
      (LUpdateApp "op" "a" older_launch 2) (fun F => F))) _ _ _ eq_refl) as (e' & Hg & _ & Hr).
  exists e'. split; [exact Hg|exact Hr].
Defined.

Definition own_request : SetAgentStartupRequest := mkSetAgentStartupRequest "." "/bin/own" [] [].
Definition own_run := complete race_answers app_ctl (set_startup sample_cfg "a" own_request).
Definition own_spec : AgentStartupSpec := mkAgentStartupSpec "a" "s" "app" "a" "." "/bin/own" [] [] true 1.

Theorem own_declaration_reopens_old_revisions_witness :
  exists e', StartupStore.get "a" (ct_store own_run.2) = Some e' /\ exists new, app_revision older_launch 2 e' = NewRevision new.
Proof.
  assert (own_run.1.2 = Ok own_spec) as Hr by (vm_compute; reflexivity).
  pose proof (complete_alone race_answers (set_startup sample_cfg "a" own_request) app_ctl) as Ha.
  fold own_run in Ha. rewrite Hr in Ha.
  destruct (own_declaration_reopens_old_revisions sample_cfg "a" own_request app_ctl (sample_entry "a" "app" 3 1 true) _ own_spec _
    (sample_one_well _) (sample_get (sample_entry "a" "app" 3 1 true)) eq_refl Ha) as (e' & Hg & Hrev).
  exists e'. split; [exact Hg|]. apply (Hrev older_launch 2). cbn. lia.
Defined.

(** ** Starting and restoring *)

Definition idle_ctl : Ctl :=
  sample_ctl (sample_store [sample_entry "a" "shell" 0 1 true] []) [("a"%string, sample_agent "shell" Exited 1)].
Definition start_run := complete race_answers idle_ctl (start_locked sample_cfg "op" "a" false).
Definition restore_run := complete race_answers idle_ctl (restore_runtime sample_cfg ["a"%string]).

Lemma start_run_alone : alone idle_ctl (start_locked sample_cfg "op" "a" false) start_run.1.1 start_run.1.2 start_run.2.
Proof. unfold start_run. exact (complete_alone race_answers (start_locked sample_cfg "op" "a" false) idle_ctl). Qed.
Lemma restore_run_alone : alone idle_ctl (restore_runtime sample_cfg ["a"%string]) restore_run.1.1 restore_run.1.2 restore_run.2.
Proof. unfold restore_run. exact (complete_alone race_answers (restore_runtime sample_cfg ["a"%string]) idle_ctl). Qed.

Theorem start_spawns_once_and_fresh_witness :
  started_fresh idle_ctl "a" false start_run.1.1 /\ (ex_operation <$> start_run.1.1) = [None; Some "startup:e:a:2"%string].
Proof.
  split; [|vm_compute; reflexivity].
  exact (proj1 (start_spawns_once_and_fresh sample_cfg "op" "a" false idle_ctl start_run.1.1 start_run.1.2 start_run.2
    (sample_one_well _) start_run_alone)).
Defined.

Theorem restore_report_is_complete_witness :
  ((exists item, item ∈ rr_items restore_run.1.2 /\ ri_workload_id item = "host"%string /\ ri_state item = RsFailed)
  \/ (exists item, item ∈ rr_items restore_run.1.2 /\ ri_workload_id item = "a"%string))
  /\ (ri_workload_id <$> rr_items restore_run.1.2) = ["a"%string].
Proof.
  split; [|vm_compute; reflexivity].
  destruct (restore_report_is_complete sample_cfg ["a"%string] idle_ctl restore_run.1.1 restore_run.1.2 restore_run.2
    (sample_one_well _) restore_run_alone) as [Hh|[Hall _]]; [left; exact Hh|right].
  assert (exists e, StartupStore.get "a" (ct_store restore_run.2) = Some e /\ hosts sample_cfg e = true) as (e & Hg & Hh)
    by (eexists; split; vm_compute; reflexivity).
  destruct (Hall "a"%string e Hg Hh) as (item & Hin & Hid & _). exists item. split; [exact Hin|exact Hid].
Defined.

(** ** A bridge *)

Definition bridge_ctl : Ctl := sample_ctl empty_store [("a"%string, sample_agent "bridge" Working 1)].

Theorem short_prompt_queue_loses_the_workload_witness :
  (read_prompt_queue "a" None 100 bridge_ctl).1 = None
  /\ lock_agent "a" "" (read_prompt_queue "a" None 100 bridge_ctl).2 = Err (state_error "").
Proof.
  destruct (short_prompt_queue_loses_the_workload "a" None 100 bridge_ctl (sample_agent "bridge" Working 1) "") as (Hn & Hl & _).
  - vm_compute. reflexivity.
  - reflexivity.
  - vm_compute. reflexivity.
  - split; [exact Hn|apply Hl].
Defined.
